(* ===== verification/_CoqProject ===== *)
-Q . S2P
Prelude.v
Errors.v
Partial.v
Lists.v
Tags.v
Text.v
Workspace.v
Rendering.v
Readers.v
Columns.v
Nodes.v
Samples.v
Properties.v
Hashes.v
Classes.v
Generic.v
Swrl.v
Safety.v
Graphs.v
Search.v
Cycles.v
Structure.v
Reach.v
Validated.v
Scopes.v
Anonymous.v
Sort.v
Stats.v
Rules.v
Table.v
Planning.v
Plans.v
Populate.v
Provenance.v
Roles.v
Emission.v
Overlay.v
Preparation.v
LocalIndex.v
Scoped.v
Tail.v
LocalRules.v
Preflight.v
Cursor.v
Emit.v
Exact.v
Products.v
Phases.v
Refine.v
Prepared.v
Budget.v
Encode.v
Merge.v
Join.v
Composite.v
Assembly.v
Segment.v
Retained.v
Objects.v
Topology.v
Leaves.v
Manifests.v
Constructor.v
Paths.v
Session.v
Protocol.v
Served.v
Terms.v
Lengths.v
Ordering.v
Groups.v
Kway.v
Returning.v
Merging.v
Positions.v
Joining.v
Assembled.v
Pairwise.v
Segmented.v
Engine.v
