(* ===== verification/Prelude.v ===== *)
(** * Verification of the native OWL2Vec* projection kernel

    The program (src/native/src of pyOwl2Vec-Star-projector) receives an
    ontology as eleven byte buffers, "structural-columns v1", validates them as
    hostile input, classifies every selected root by a rule table, and emits
    the OWL2Vec* edges of the roots in a fixed order that reproduces a
    historical Java implementation.  The edges then pass through an engine
    that orders and deduplicates them in batches for Python.  encoded_direct.rs
    is the kernel, lib.rs the engine and the Python boundary.

    ** How the files correspond to the code

    - [Prelude], [Errors], [Partial], [Lists]: what the code uses of Rust's core
      library.  A [usize] is a 64-bit number ([+w] wraps, [checked_add]
      fails); a slice or a [Vec] is a list, [index] panics out of range.  A fallible function
      returns [outcome]: [Ok], [Err] with a [KernelError], [Panic], or
      [OutOfFuel].  A function that takes [state: &AtomicU8] is a [Cx]: each
      load of the flag is one observation of a stream the environment chooses,
      so a statement about all streams covers every interleaving with a
      concurrent [cancel]; [run] is the call nobody cancels, and
      [Transparent] says cancellation is the only effect the stream has.
    - [Tags]: the wire constants.  [Text]: UTF-8, Java hashes, canonical
      lengths, rendered identifiers and literals (the free functions at the end
      of encoded_direct.rs).  [Readers], [Columns]: [read_u16]..[read_usize]
      and [DirectColumns] with its accessors, postings and scope maps.
    - [Nodes], [Properties], [Classes], [Swrl]: the node decoders of
      [DirectColumns], one definition per method, and the per-node dispatch of
      [validate_supported_nodes].
    - [Generic]: [validate_generic] as the sequence of its checks.  [Graphs]:
      the three cycle checks as one three-colour search over three graphs, the
      reachability worklists, [axiom_anonymous_ids].
    - [Sort]: [cancellable_sort_unstable_by], [cancellable_retain].
    - [Stats], [Rules]: statistics, root counters, [ROOT_RULES].
    - [Planning]: the planning of every selected root, one definition per
      handler of the rule table, and the fold that populates the plan.
      [Provenance]: the provenance the plan keeps of it.  [Plans] states what
      a planned root denotes in the plan, [Populate] that the fold establishes
      it for every selected root.
    - [Roles]: [RoleState], [OwnedRoleState], [build_role_state_from_rows].
    - [Emission]: [PendingExpansion] and the rounds of the emission loop that
      drain it.  [Overlay]: the deltas of a local overlay and the edge counts
      they add.
    - [Preparation]: [DirectPreparation] and its lookups; [Preflight]: the
      counting passes and [prepare_direct], which returns a preparation.
      [Exact] and [Products] relate each counting pass to the edges its roots
      stand for; [Prepared] puts the passes together.
    - [Cursor]: [DirectEmissionCursor] with one definition per phase of
      [next_edge], and [PreparedDirectBatches] over it, direct and composite.
    - [Engine]: [EdgeEngine] and [EdgeBatchProcessor] of lib.rs; [Errors] has
      its exceptions.  [Retained]: what an [EncodedDirectCompiler] retains, the
      columns it makes of it and the kernel function a call runs over them; a
      drain reads what the compilation read ([drain_sources_eq]).
      [Session]: the calls of an [EncodedDirectCompiler], [DirectBatchOutput]
      and [RetainedRoleState]; a call is a sequence of atomic sections and a
      configuration is the shared memory, the calls in progress and what has
      been returned, so the theorems are about every interleaving.
    - [Budget], [Encode], [Merge]: the module [canonical_merge].  [Budget] has
      [CanonicalBudget]; a function that takes it is a [Bud].  [Encode] has the
      canonical components, [CanonicalTable::build] and the byte cursor, one
      definition per task of [next_byte]; [Merge] the comparison of nodes, the
      validation of a table's order, the selected roots, the two-way and the
      k-way merger and the anonymous positions.  The validation loops, written
      three times in the code, are one definition over the comparison they call.
    - [Partial.Spend]: functions that thread an account next to the flag.
      [Workspace]: [LocalOverlayWorkspace], charged before anything an overlay owns is
      allocated; a function that takes it is an [Owned].
    - [LocalIndex]: [prepare_local_object_property_class_index], the domains and
      ranges of an overlay grouped by property.  [Scoped], [Tail]: what a
      composite accepts of a table with remapped scopes and what it owns of a
      root of a later table ([own_composite_tail_projection]).
    - [Join], [Composite], [Assembly]:
      [prepare_dynamic_composite_batches_with_root_uncommitted].  [Join] is its
      loop over the canonical groups, one definition per stage of a group;
      [Composite] what leads to it, the coordinates and the checks after it;
      [Assembly] the owned deltas, the base prepared under them, the statistics,
      and the whole function.
    - [LocalRules], [Segment]: [prepare_two_table_batches_uncommitted], the
      preparation of a base with one local table.  [LocalRules] is what it asks of
      the one root of a table that emits nothing, one definition per branch;
      [Segment] the guards, the three kinds of local table, the loop over the merge
      of the two tables ([Segment.scan_root]), and the whole function.
    - [Objects], [Topology], [Leaves], [Manifests], [Constructor]: how lib.rs
      makes a compiler of Python objects.  [Objects] has the interface [Python]
      of the objects, what is read of an encoded view and how its buffers are
      retained; [Topology] the search for the leaves of a manifest
      ([enumerate_recursive_leaf_paths]); [Leaves] the rows of a composite and
      their paths; [Manifests] the manifests that name their members directly;
      [Constructor] [EncodedDirectCompiler::new], whose result is a compiler of
      [Retained].  A function of them is a [Py], a result or an exception.
    - [Samples]: a producer of columns, for the concrete instances;
      [Objects.Heap] is a concrete heap of Python objects.

    ** What the theorems show

    - Hostile input ([Safety], [Structure], [Validated], [Search], [Cycles]):
      [validate_generic] and [validate_supported_nodes] return on any bytes
      under any cancellation; acceptance by the first establishes the contract
      [well_formed]; the second decides that every node is supported and that
      the annotation, class and data-range graphs are acyclic.
    - Validated columns: the class [Validated] is the interface between
      validation and the passes after it.  Against it: root selection
      and reachability ([Reach]), scope remapping ([Scopes]) and
      anonymous identifiers ([Anonymous]) compute their specifications.
    - Rules and statistics ([Table]): the table's keys and counters are
      unique, it covers the schema, a rule's statistics are exact.
    - Roles: the role state refines two finite functions that start from the
      retained state and are updated in the order in which a hash table of
      OWLAPI is traversed ([Roles.hash_traversal]), whatever order the rows
      arrive in.
    - Emission: an expansion emits its specified edges and as many as the
      preflight counts.  [Emit] writes the edges of a plan without a local
      overlay as one batch program, [Emit.direct_edges], that walks the roots
      in the historical order; [Phases] shows that each phase of the
      cursor emits its part of it, and [Refine] concludes: the cursor, called
      for batches of any sizes, yields that program's edges, fails where it
      fails and then ends.  It also bounds each batch and the counter of
      emitted edges, for every plan, overlay and observation stream.
    - Engine: the stream returned to Python is the specified
      one under every sequence of calls; draining ends; cancellation silences;
      every outcome of [push] is stated, with the state that a failed allocation
      leaves behind.
    - Preparation ([Populate], [Prepared]): a root's plan denotes the node it
      was planned from; the preflight count is the number of edges of the batch
      program, whose batches then are the preparation's.  The hypotheses are
      that the buffers are resident, that no size wraps and that the roots of
      the root document can be counted; they are about size only.
    - Canonical merge: [Terms] states the encoding of a node as a relation
      to bytes and the term a node stands for, with unique decoding:
      equal encodings are equal terms.  [Lengths] relates the length table and the
      cursor to the encoding; [Ordering] concludes that comparing nodes is comparing
      encodings and that a validated table has its sets and roots sorted by it.
      [Groups] specifies the merge by lists: the remaining
      selected roots of each table, the group a call returns, and what all of
      them are together; [Kway] shows that [next] meets it.  [Returning] is the
      totality half, as rules of [returns]: no function of the module panics
      or spends more than its budget.  [Merging] and [Pairwise] put the halves
      together for the two mergers.
    - Composites: [Positions] shows that the anonymous individuals are numbered
      by their rank among all tables; [Joining] what the loop over the groups
      leaves, as a list computed from the groups alone ([Joining.tail_entries]);
      [Assembled] that the whole preparation counts every distinct term once and
      keeps a delta exactly for those the first table does not have.
    - Local overlays: [Segmented] shows that what a local table adds is inserted
      where the canonical order of the terms of the two tables says.
    - Construction: each buffer retained of a view holds the bytes its memoryview
      shows ([Objects], against the laws [Objects.MemoryLaws] of memoryviews);
      [Paths] states the leaves of a manifest as paths of its graph of views and
      shows that the search, which resolves a shared view once, returns them,
      refuses cycles and ends, that the rows of a plan that is accepted are
      those leaves, and that the rows of a ROOT plan follow those of its CLOSURE;
      a manifest of direct members names them all once ([Manifests]); a compiler that was constructed has every table, member
      and limit that its calls ask for ([Constructor]).
    - Compiler sessions: [Protocol] is the invariant of the atomic state, the
      claim of the role state and the output, with what a section may change
      (a guarantee other compilers rely on), for every compiler; [Served] that
      the batches of a compiler of one table cut one batch program, whatever
      interleaves, fails or cancels.
    - Wire formats ([Readers]): a column of values that fit its width is read
      back, and every buffer of whole rows is such a column.
    - Text ([Hashes], [Rendering]): the canonical comparison is a
      total order, the 32-bit hashes are the exact polynomials reduced, and a
      typed literal is rendered as the historical text.

    ** Fuel and bounds

    Loops that are not over a list carry fuel that is proved enough: a binary
    search of [n] rows takes at most [n] rounds; a search of a graph expands a
    node once and queues one entry per item ([Graphs.search_fuel]); a
    worklist visits a node once ([Graphs.reach_fuel]); [sift_down] grows its
    root; the hash-table capacity doubles, so 64 rounds reach the overflow.
    The loop of [next_edge] takes its fuel as an argument; the refinement
    gives one amount that is enough for every call of the cursor's life.
    The search of a manifest takes two rounds per unit of the work it may spend
    on validation, because a view is validated once.
    The loops of the merge spend a unit of work a round, so any fuel beyond
    the work limit is enough ([Returning.returns]), and a merge has at most one
    group per selected root; [rounds] of a composite is for the groups, [fuel] for
    the cursors.
    Theorems on success ask that the buffers fit the address space
    ([Structure.resident]) and, for the graph checks, that the work counter
    cannot overflow.

    ** Not modelled

    Allocation failures: [try_reserve] is assumed to succeed, with the capacity
    it was asked for, except in [Engine.push], whose argument [Engine.Allocator]
    answers each allocation.  The streams of the engine are stated for calls in
    which a reservation may fail but the copy of an edge does not.  The sizes of the structs that the merge and the workspace
    account are the compiler's choice, the class parameter [Workspace.Layout].
    The objects of Python are the class parameter [Objects.Python], a function
    per method that the constructor calls: the encoded views are immutable, and
    what else runs while they are read does not change them.  What the code relies
    on of memoryviews is the class [Objects.MemoryLaws]; the concrete heap
    [Objects.Heap] has these laws.  The Python objects
    of the results of a call (an exception there is a choice of the environment),
    written into the slots of exact instances, and the registration of the
    module are not modelled: they only move values over the boundary.
    The Unicode lower-casing table of the standard library is the
    class parameter [Text.LowercaseTable]. *)

From stdpp Require Export base list numbers strings pretty option sets.
From Stdlib Require Import Strings.Byte.
From Stdlib Require Export Sorting.Sorted.
From Stdlib Require Export Lia.

#[export] Set Default Goal Selector "!".

Declare Scope kernel_scope.
Delimit Scope kernel_scope with kernel.
Open Scope kernel_scope.

(** ** Machine integers

    [usize], [u8], [u16] and [u32] values are natural numbers of type [N];
    the target is a 64-bit one.  The shipped extension is built with the
    release profile, so a plain [+] on [usize] wraps ([+w]); the checked and
    saturating operations of the standard library are written out. *)

Abbreviation usize := N (only parsing).
Abbreviation u8 := N (only parsing).
Abbreviation u16 := N (only parsing).
Abbreviation u32 := N (only parsing).
Abbreviation byte := Byte.byte (only parsing).

(** Number of values of a 64-bit [usize]. *)
Definition usize_modulus : N := 18446744073709551616.
Definition usize_max : N := 18446744073709551615.

Definition checked_add (a b : N) : option N :=
  if (a + b <=? usize_max)%N then Some (a + b)%N else None.
Definition checked_mul (a b : N) : option N :=
  if (a * b <=? usize_max)%N then Some (a * b)%N else None.
Definition checked_sub (a b : N) : option N :=
  if (b <=? a)%N then Some (a - b)%N else None.
(** [N]'s subtraction is the saturating one. *)
Definition saturating_sub (a b : N) : N := (a - b)%N.
Definition wrapping_add (a b : N) : N := ((a + b) mod usize_modulus)%N.

Infix "+w" := wrapping_add (at level 50, left associativity) : kernel_scope.

Lemma checked_add_Some a b c :
  checked_add a b = Some c <-> c = (a + b)%N /\ (a + b <= usize_max)%N.
Proof. unfold checked_add. destruct (N.leb_spec (a + b) usize_max); naive_solver lia. Qed.

Lemma checked_add_None a b : checked_add a b = None <-> (usize_max < a + b)%N.
Proof. unfold checked_add. destruct (N.leb_spec (a + b) usize_max); naive_solver lia. Qed.

Lemma checked_mul_Some a b c :
  checked_mul a b = Some c <-> c = (a * b)%N /\ (a * b <= usize_max)%N.
Proof. unfold checked_mul. destruct (N.leb_spec (a * b) usize_max); naive_solver lia. Qed.

Lemma checked_sub_Some a b c :
  checked_sub a b = Some c <-> c = (a - b)%N /\ (b <= a)%N.
Proof. unfold checked_sub. destruct (N.leb_spec b a); naive_solver lia. Qed.

Lemma checked_sub_None a b : checked_sub a b = None <-> (a < b)%N.
Proof. unfold checked_sub. destruct (N.leb_spec b a); naive_solver lia. Qed.

Lemma wrapping_add_small a b : (a + b <= usize_max)%N -> a +w b = (a + b)%N.
Proof.
  intros H. unfold wrapping_add. apply N.mod_small.
  unfold usize_max, usize_modulus in *. lia.
Qed.

Lemma wrapping_add_wraps a b :
  (a <= usize_max)%N -> (b <= usize_max)%N -> (usize_max < a + b)%N -> (a +w b < a)%N.
Proof.
  intros Ha Hb Hab. unfold wrapping_add.
  replace (a + b)%N with ((a + b - usize_modulus) + 1 * usize_modulus)%N
    by (unfold usize_max, usize_modulus in *; lia).
  rewrite N.Div0.mod_add, N.mod_small; unfold usize_max, usize_modulus in *; lia.
Qed.

(** The probe of a binary search lies inside its window. *)
Lemma middle_bounds start end_ :
  (start < end_)%N -> (start <= start + (end_ - start) / 2 < end_)%N.
Proof.
  intros H. assert (Hd : ((end_ - start) / 2 < end_ - start)%N) by (apply N.div_lt; lia).
  revert Hd. generalize ((end_ - start) / 2)%N. lia.
Qed.

(** ** Bytes and text

    A Rust [str] is its UTF-8 bytes, so [as_bytes] is the identity and [len]
    is the list's length. *)

#[export] Instance byte_eq_decision : EqDecision byte := Byte.byte_eq_dec.

Abbreviation bytes := (list byte).
Abbreviation text := (list byte).

(** A string literal of the source. *)
Definition str (s : string) : text := String.list_byte_of_string s.

(** The numeric value of a byte, and [as u8]. *)
Definition u8_of_byte (b : byte) : N := Byte.to_N b.
Definition byte_of_u8 (n : N) : byte := default Byte.x00 (Byte.of_N (n mod 256)).

Lemma u8_of_byte_bound b : (u8_of_byte b < 256)%N.
Proof. unfold u8_of_byte. pose proof (Byte.to_N_bounded b). lia. Qed.

Lemma byte_of_u8_of_byte b : byte_of_u8 (u8_of_byte b) = b.
Proof.
  unfold byte_of_u8. rewrite N.mod_small by apply u8_of_byte_bound.
  unfold u8_of_byte. by rewrite Byte.of_to_N.
Qed.

Lemma u8_of_byte_of_u8 n : u8_of_byte (byte_of_u8 n) = (n mod 256)%N.
Proof.
  unfold byte_of_u8, u8_of_byte.
  destruct (Byte.of_N (n mod 256)) as [b|] eqn:E; cbn.
  - by apply Byte.to_of_N in E.
  - apply Byte.of_N_None_iff in E. pose proof (N.mod_lt n 256). lia.
Qed.

Lemma u8_of_byte_inj a b : u8_of_byte a = u8_of_byte b -> a = b.
Proof. intros H. rewrite <- (byte_of_u8_of_byte a), H. apply byte_of_u8_of_byte. Qed.

(** ** Slices *)

(** [slice.len()]. *)
Definition len {A} (l : list A) : N := N.of_nat (length l).

(** [slice.get(i)]; the guard keeps evaluation cheap on hostile indexes. *)
Definition get {A} (l : list A) (i : N) : option A :=
  if (i <? len l)%N then l !! N.to_nat i else None.

(** [slice.get(a..b)]. *)
Definition get_range {A} (l : list A) (a b : N) : option (list A) :=
  if (a <=? b)%N && (b <=? len l)%N
  then Some (take (N.to_nat (b - a)) (drop (N.to_nat a) l))
  else None.

Lemma get_lookup {A} (l : list A) i : get l i = l !! N.to_nat i.
Proof.
  unfold get, len. destruct (N.ltb_spec i (N.of_nat (length l))); [done|].
  symmetry. apply lookup_ge_None. lia.
Qed.

Lemma get_Some_lt {A} (l : list A) i x : get l i = Some x -> (i < len l)%N.
Proof. unfold get. destruct (N.ltb_spec i (len l)); [done|discriminate]. Qed.

Lemma get_lt_Some {A} (l : list A) i : (i < len l)%N -> exists x, get l i = Some x.
Proof.
  intros H. rewrite get_lookup. apply lookup_lt_is_Some. unfold len in H. lia.
Qed.

Lemma get_None {A} (l : list A) i : get l i = None <-> (len l <= i)%N.
Proof. rewrite get_lookup, lookup_ge_None. unfold len. lia. Qed.

Lemma get_elem_of {A} (l : list A) i x : get l i = Some x -> x ∈ l.
Proof. rewrite get_lookup. apply list_elem_of_lookup_2. Qed.

Lemma elem_of_get {A} (l : list A) x : x ∈ l -> exists i, get l i = Some x.
Proof.
  intros [i Hi]%list_elem_of_lookup. exists (N.of_nat i).
  by rewrite get_lookup, Nat2N.id.
Qed.

Lemma len_app {A} (l k : list A) : len (l ++ k) = (len l + len k)%N.
Proof. unfold len. rewrite length_app. lia. Qed.

Lemma len_nil {A} : len (@nil A) = 0%N.
Proof. done. Qed.

Lemma len_cons {A} (x : A) l : len (x :: l) = (1 + len l)%N.
Proof. unfold len. cbn. lia. Qed.

Lemma get_range_Some {A} (l k : list A) a b :
  get_range l a b = Some k <->
  (a <= b)%N /\ (b <= len l)%N /\ k = take (N.to_nat (b - a)) (drop (N.to_nat a) l).
Proof.
  unfold get_range.
  destruct (N.leb_spec a b), (N.leb_spec b (len l)); cbn; naive_solver lia.
Qed.

Lemma get_range_len {A} (l k : list A) a b :
  get_range l a b = Some k -> len k = (b - a)%N.
Proof.
  intros (?&?&->)%get_range_Some. unfold len in *.
  rewrite length_take, length_drop. lia.
Qed.

(** A range of a range, and the whole as a range. *)
Lemma get_range_range {A} (l k : list A) a b c d :
  get_range l a b = Some k -> (c <= d <= len k)%N -> get_range k c d = get_range l (a + c)%N (a + d)%N.
Proof.
  intros E Hcd. pose proof (get_range_len _ _ _ _ E) as Hk. apply get_range_Some in E as (?&?&->).
  etrans; [apply get_range_Some; split_and!; [lia|lia|reflexivity]|].
  symmetry. apply get_range_Some. split_and!; [lia|lia|].
  rewrite skipn_firstn_comm, firstn_firstn, drop_drop. f_equal; [lia|f_equal; lia].
Qed.

Lemma get_range_all {A} (l : list A) : get_range l 0%N (len l) = Some l.
Proof.
  apply get_range_Some. split_and!; [lia|lia|]. symmetry. apply firstn_all2. unfold len. cbn [drop N.to_nat]. lia.
Qed.

(** A strongly sorted list, read by index. *)
Lemma StronglySorted_get {A} (R : A -> A -> Prop) l i j a b :
  StronglySorted R l -> (i < j)%N -> get l i = Some a -> get l j = Some b -> R a b.
Proof.
  rewrite !get_lookup. intros Hs Hij. replace (N.to_nat j) with (N.to_nat i + S (N.to_nat (j - i - 1)))%nat by lia.
  generalize (N.to_nat i) as n, (N.to_nat (j - i - 1)) as k. clear Hij. intros n k.
  revert n. induction Hs as [|x l _ IH Hx]; intros [|n] Ha Hb; [done..| |by apply (IH n)].
  injection Ha as ->. rewrite Forall_forall in Hx. apply Hx. exact (list_elem_of_lookup_2 l k b Hb).
Qed.

(** [slice.contains(&x)]. *)
Definition contains {A} `{EqDecision A} (l : list A) (x : A) : bool :=
  existsb (fun y => bool_decide (x = y)) l.

Lemma contains_true {A} `{EqDecision A} (l : list A) x : contains l x = true <-> x ∈ l.
Proof.
  unfold contains. rewrite existsb_exists. split.
  - intros (y&Hy&E%bool_decide_eq_true). subst. by apply list_elem_of_In.
  - intros Hx. exists x. split; [by apply list_elem_of_In|by apply bool_decide_eq_true].
Qed.

Lemma contains_false {A} `{EqDecision A} (l : list A) x : contains l x = false <-> x ∉ l.
Proof. rewrite <- contains_true. destruct (contains l x); naive_solver. Qed.

(** ** Half-open ranges [a..b] *)

Fixpoint range_from (start : N) (count : nat) : list N :=
  match count with
  | O => []
  | S count => start :: range_from (start + 1) count
  end.

Definition range (a b : N) : list N := range_from a (N.to_nat (b - a)).

Lemma elem_of_range_from i a n :
  i ∈ range_from a n <-> (a <= i < a + N.of_nat n)%N.
Proof.
  revert a. induction n as [|n IH]; intros a; cbn [range_from].
  - rewrite elem_of_nil. lia.
  - rewrite elem_of_cons, IH. lia.
Qed.

Lemma elem_of_range i a b : i ∈ range a b <-> (a <= i < b)%N.
Proof. unfold range. rewrite elem_of_range_from. lia. Qed.

Lemma length_range_from a n : length (range_from a n) = n.
Proof. revert a. induction n; intros; cbn; auto. Qed.

Lemma length_range a b : length (range a b) = N.to_nat (b - a).
Proof. apply length_range_from. Qed.

Lemma range_empty a b : (b <= a)%N -> range a b = [].
Proof. intros H. unfold range. replace (b - a)%N with 0%N by lia. done. Qed.

Lemma range_cons a b : (a < b)%N -> range a b = a :: range (a + 1) b.
Proof.
  intros H. unfold range.
  replace (N.to_nat (b - a)) with (S (N.to_nat (b - (a + 1)))) by lia. done.
Qed.

Lemma range_from_app a n m :
  range_from a (n + m) = range_from a n ++ range_from (a + N.of_nat n) m.
Proof.
  revert a. induction n as [|n IH]; intros a; cbn [range_from Nat.add app].
  - f_equal. lia.
  - rewrite IH. do 3 f_equal. lia.
Qed.

Lemma range_app a b c : (a <= b <= c)%N -> range a c = range a b ++ range b c.
Proof.
  intros H. unfold range.
  replace (N.to_nat (c - a)) with (N.to_nat (b - a) + N.to_nat (c - b))%nat by lia.
  rewrite range_from_app. do 2 f_equal. lia.
Qed.

Lemma range_snoc a b : (a <= b)%N -> range a (b + 1) = range a b ++ [b].
Proof.
  intros H. rewrite (range_app a b (b + 1)) by lia.
  by rewrite (range_cons b), (range_empty (b + 1)) by lia.
Qed.

Lemma NoDup_range a b : NoDup (range a b).
Proof.
  unfold range. generalize (N.to_nat (b - a)). intros n. revert a.
  induction n as [|n IH]; intros a; cbn; [apply NoDup_nil_2|].
  apply NoDup_cons. split; [|apply IH]. rewrite elem_of_range_from. lia.
Qed.

(** The element a loop over a range is at. *)
Lemma range_from_split a n l x r : range_from a n = l ++ x :: r -> x = (a + len l)%N.
Proof.
  revert a n. induction l as [|y l IH]; intros a [|n]; cbn; try done.
  - intros [= <- _]. unfold len. cbn. lia.
  - intros [= <- E]. apply IH in E. rewrite len_cons. lia.
Qed.

Lemma range_from_sorted a n : StronglySorted N.lt (range_from a n).
Proof.
  revert a. induction n as [|n IH]; intros a; cbn; constructor; [done|].
  apply Forall_forall. intros x ?%elem_of_range_from. lia.
Qed.

Lemma filter_sorted (P : N -> Prop) `{!forall x, Decision (P x)} l :
  StronglySorted N.lt l -> StronglySorted N.lt (filter P l).
Proof.
  induction 1 as [|x l _ IH Hx]; [constructor|]. rewrite filter_cons.
  destruct (decide (P x)); [|done]. constructor; [done|].
  apply Forall_forall. intros y [_ Hy]%list_elem_of_filter.
  rewrite Forall_forall in Hx. by apply Hx.
Qed.

Lemma range_sorted a b : StronglySorted N.lt (range a b).
Proof. apply range_from_sorted. Qed.

(** ** Lexicographic comparison of slices ([Ord] on [&[T]] and on [&str]) *)

Fixpoint slice_cmp {A} (cmp : A -> A -> comparison) (l k : list A) : comparison :=
  match l, k with
  | [], [] => Eq
  | [], _ :: _ => Lt
  | _ :: _, [] => Gt
  | x :: l, y :: k =>
      match cmp x y with
      | Eq => slice_cmp cmp l k
      | c => c
      end
  end.

Definition byte_cmp (a b : byte) : comparison := N.compare (u8_of_byte a) (u8_of_byte b).
Definition bytes_cmp : bytes -> bytes -> comparison := slice_cmp byte_cmp.

(** [Ordering::then_with] / tuple comparison. *)
Definition then_with (c d : comparison) : comparison :=
  match c with Eq => d | c => c end.

(** [ord == Ordering::Less] and friends. *)
Definition is_lt (c : comparison) : bool := match c with Lt => true | _ => false end.
Definition is_eq (c : comparison) : bool := match c with Eq => true | _ => false end.
Definition is_le (c : comparison) : bool := match c with Gt => false | _ => true end.

(** The laws of a total order given by a comparison function. *)
Class OrdLaws {A} (cmp : A -> A -> comparison) : Prop := {
  cmp_eq x y : cmp x y = Eq <-> x = y;
  cmp_opp x y : cmp y x = CompOpp (cmp x y);
  cmp_lt_trans x y z : cmp x y = Lt -> cmp y z = Lt -> cmp x z = Lt;
}.

Arguments cmp_eq {A} cmp {_} x y.
Arguments cmp_opp {A} cmp {_} x y.
Arguments cmp_lt_trans {A} cmp {_} x y z.

Section ord.
Context {A} (cmp : A -> A -> comparison) `{!OrdLaws cmp}.

Lemma cmp_refl x : cmp x x = Eq.
Proof. by apply (cmp_eq cmp). Qed.

Lemma cmp_gt_lt x y : cmp x y = Gt <-> cmp y x = Lt.
Proof. rewrite (cmp_opp cmp x y). destruct (cmp x y); naive_solver. Qed.

Lemma cmp_lt_irrefl x : cmp x x <> Lt.
Proof. by rewrite cmp_refl. Qed.

Lemma cmp_lt_asym x y : cmp x y = Lt -> cmp y x <> Lt.
Proof. rewrite (cmp_opp cmp x y). by destruct (cmp x y). Qed.

(** [<=]: not greater. *)
Definition cmp_le x y : Prop := cmp x y <> Gt.

Lemma cmp_le_iff x y : cmp_le x y <-> cmp x y = Lt \/ x = y.
Proof. unfold cmp_le. rewrite <- (cmp_eq cmp x y). destruct (cmp x y); naive_solver. Qed.

#[export] Instance cmp_le_trans : Transitive cmp_le.
Proof.
  intros x y z. rewrite !cmp_le_iff.
  intros [?| ->]; [|done]. intros [?| <-]; [|by left].
  left. by eapply (cmp_lt_trans cmp).
Qed.

#[export] Instance cmp_le_total : Total cmp_le.
Proof. intros x y. unfold cmp_le. rewrite (cmp_opp cmp x y). destruct (cmp x y); naive_solver. Qed.

Lemma cmp_le_antisym x y : cmp_le x y -> cmp_le y x -> x = y.
Proof.
  rewrite !cmp_le_iff. intros [H|?] [H'|?]; try done.
  by destruct (cmp_lt_asym x y).
Qed.
End ord.

#[export] Instance N_compare_laws : OrdLaws N.compare.
Proof.
  split.
  - apply N.compare_eq_iff.
  - apply N.compare_antisym.
  - intros x y z. rewrite !N.compare_lt_iff. lia.
Qed.

#[export] Instance byte_cmp_laws : OrdLaws byte_cmp.
Proof.
  unfold byte_cmp. split.
  - intros x y. rewrite N.compare_eq_iff. split; [apply u8_of_byte_inj|by intros ->].
  - intros x y. apply N.compare_antisym.
  - intros x y z. rewrite !N.compare_lt_iff. lia.
Qed.

#[export] Instance slice_cmp_laws {A} (cmp : A -> A -> comparison) :
  OrdLaws cmp -> OrdLaws (slice_cmp cmp).
Proof.
  intros Hc. split.
  - induction x as [|a x IH]; intros [|b y]; cbn; try done.
    specialize (IH y). pose proof (cmp_eq cmp a b) as Hab. destruct (cmp a b); naive_solver.
  - induction x as [|a x IH]; intros [|b y]; cbn; try done.
    rewrite (cmp_opp cmp a b), (IH y). by destruct (cmp a b).
  - induction x as [|a x IH]; intros [|b y] [|c z]; cbn; try done.
    destruct (cmp a b) eqn:Eab; [|intros _|done].
    + apply (cmp_eq cmp) in Eab as ->. destruct (cmp b c) eqn:Ebc; try done. apply IH.
    + destruct (cmp b c) eqn:Ebc; [|intros _|done].
      * apply (cmp_eq cmp) in Ebc as ->. by rewrite Eab.
      * by rewrite (cmp_lt_trans cmp _ _ _ Eab Ebc).
Qed.

#[export] Instance bytes_cmp_laws : OrdLaws bytes_cmp.
Proof. apply _. Qed.

Lemma is_lt_true c : is_lt c = true <-> c = Lt.
Proof. by destruct c. Qed.
Lemma is_eq_true c : is_eq c = true <-> c = Eq.
Proof. by destruct c. Qed.

(** ** Field update of records: [r <| f := v |>] *)

(** [eta r] rebuilds [r] from its projections; each record with updates
    declares one instance. *)
Class Eta (R : Type) := eta : R -> R.
Class Setter {R T : Type} (g : R -> T) := set_field : T -> R -> R.

Ltac derive_setter :=
  lazymatch goal with
  | |- @Setter ?R ?T ?g =>
      let v := fresh "v" in
      let r := fresh "r" in
      unfold Setter; intros v r;
      let t := constr:(@eta R _ r) in
      let t := eval cbv beta delta [eta] in t in
      let t := lazymatch t with ?h _ => let h' := eval unfold h in h in constr:(h' r) end in
      let t := eval cbv beta in t in
      lazymatch t with context [g r] => idtac end;
      lazymatch (eval pattern (g r) in t) with
      | ?f _ => let u := eval cbv beta in (f v) in exact u
      end
  end.

#[export] Hint Extern 0 (Setter _) => derive_setter : typeclass_instances.

Notation "r <| f := v |>" := (@set_field _ _ f _ v r)
  (at level 1, left associativity, format "r  <| f  :=  v |>") : kernel_scope.
