(* ===== verification/Errors.v ===== *)
(** * Errors, outcomes and cancellation

    [KernelError] (native/src/encoded_direct.rs), the outcome of a fallible
    function, and the functions that take [state: &AtomicU8]: each load of the
    flag is one observation of a stream the environment chooses, so every
    interleaving of a concurrent [cancel] is a choice of that stream. *)

From S2P Require Import Prelude.
Local Open Scope string_scope.
Local Open Scope list_scope.
Local Open Scope N_scope.


(** ** The error type *)

Inductive KernelError :=
  | Malformed (message : string)
  | Unsupported (message : string)
  | ReferenceFailure (message : string)
  | Resource (message : string)
  | Cancelled.

Definition malformed (message : string) : KernelError := Malformed message.
Definition unsupported (message : string) : KernelError := Unsupported message.
Definition reference_failure (message : string) : KernelError := ReferenceFailure message.
Definition resource (message : string) : KernelError := Resource message.

#[export] Instance KernelError_eq_dec : EqDecision KernelError.
Proof. solve_decision. Defined.

(** ** Outcomes

    [Result<A, KernelError>], or a panic (an index out of bounds, an
    [unreachable!]), or a loop that ran out of the fuel of its model.  The
    termination theorems show that [OutOfFuel] never comes out. *)

Inductive outcome (A : Type) :=
  | Ok (a : A)
  | Err (e : KernelError)
  | Panic
  | OutOfFuel.
Arguments Ok {A} a.
Arguments Err {A} e.
Arguments Panic {A}.
Arguments OutOfFuel {A}.

#[export] Instance outcome_ret : MRet outcome := @Ok.
#[export] Instance outcome_bind : MBind outcome := fun A B f m =>
  match m with
  | Ok a => f a
  | Err e => Err e
  | Panic => Panic
  | OutOfFuel => OutOfFuel
  end.

#[export] Instance outcome_eq_dec `{EqDecision A} : EqDecision (outcome A).
Proof. solve_decision. Defined.

(** [Option::ok_or_else]. *)
Definition ok_or {A} (o : option A) (e : KernelError) : outcome A :=
  match o with Some a => Ok a | None => Err e end.

(** [slice[i]]: a panic out of range. *)
Definition index {A} (l : list A) (i : N) : outcome A :=
  match get l i with Some a => Ok a | None => Panic end.

(** [slice[i] = v]. *)
Definition store {A} (l : list A) (i : N) (v : A) : outcome (list A) :=
  if i <? len l then Ok (<[N.to_nat i := v]> l) else Panic.

(** [Result::map]. *)
Definition map_ok {A B} (f : A -> B) (m : outcome A) : outcome B := a ← m; Ok (f a).

Lemma bind_Ok {A B} (m : outcome A) (f : A -> outcome B) b :
  mbind f m = Ok b <-> exists a, m = Ok a /\ f a = Ok b.
Proof. destruct m; cbn; split; try done; [eauto|by intros (?&[= <-]&?)|by intros (?&?&?)..]. Qed.

Lemma ok_or_Ok {A} (o : option A) e a : ok_or o e = Ok a <-> o = Some a.
Proof. destruct o; cbn; split; congruence. Qed.

Lemma index_Ok {A} (l : list A) i a : index l i = Ok a <-> get l i = Some a.
Proof. unfold index. destruct (get l i); split; congruence. Qed.

Lemma map_ok_Ok {A B} (f : A -> B) m b :
  map_ok f m = Ok b <-> exists a, m = Ok a /\ b = f a.
Proof. unfold map_ok. rewrite bind_Ok. split; intros (a&->&H); exists a; split; congruence. Qed.

Lemma bind_assoc {A B C} (m : outcome A) (f : A -> outcome B) (g : B -> outcome C) :
  mbind g (mbind f m) = mbind (fun a => mbind g (f a)) m.
Proof. by destruct m. Qed.

Lemma bind_ext {A B} (m : outcome A) (f g : A -> outcome B) :
  (forall a, m = Ok a -> f a = g a) -> mbind f m = mbind g m.
Proof. destruct m; cbn; auto. Qed.

(** A function is a plain [Result] when it neither panics nor diverges. *)
Definition safe {A} (m : outcome A) : Prop := m <> Panic /\ m <> OutOfFuel.

Lemma safe_Ok {A} (a : A) : safe (Ok a).
Proof. done. Qed.
Lemma safe_Err {A} e : safe (@Err A e).
Proof. done. Qed.
Lemma safe_ok_or {A} (o : option A) e : safe (ok_or o e).
Proof. by destruct o. Qed.
Lemma safe_bind {A B} (m : outcome A) (f : A -> outcome B) :
  safe m -> (forall a, m = Ok a -> safe (f a)) -> safe (mbind f m).
Proof. intros [Hp Hf] Hk. destruct m; [by apply Hk|done..]. Qed.
Lemma safe_map_ok {A B} (f : A -> B) m : safe m -> safe (map_ok f m).
Proof. intros [Hp Hf]. by destruct m. Qed.

Create HintDb safe.
#[export] Hint Resolve safe_Ok safe_Err safe_ok_or safe_map_ok : safe.

(** Proves [safe] goals by the structure of the computation. *)
Ltac solve_safe :=
  repeat (cbn beta iota zeta; match goal with
  | |- forall _, _ => intro
  | |- safe (mbind _ _) => apply safe_bind
  | |- safe (let '(_, _) := ?p in _) => destruct p
  | |- safe (if ?b then _ else _) => destruct b eqn:?
  | |- safe (match ?x with _ => _ end) => destruct x eqn:?
  | |- safe (match ?x with _ => _ end _) => destruct x eqn:?
  | _ => solve [eauto 6 with safe]
  end).

(** Takes a hypothesis [m = Ok v] apart. *)
Ltac inv_ok :=
  repeat (cbn beta iota zeta in *; match goal with
  | H : mbind _ _ = Ok _ |- _ => apply bind_Ok in H as (? & ? & H)
  | H : ok_or _ _ = Ok _ |- _ => apply ok_or_Ok in H
  | H : index _ _ = Ok _ |- _ => apply index_Ok in H
  | H : map_ok _ _ = Ok _ |- _ => apply map_ok_Ok in H as (? & ? & ?)
  | H : Ok _ = Ok _ |- _ => injection H as H
  | H : Err _ = Ok _ |- _ => discriminate H
  | H : Panic = Ok _ |- _ => discriminate H
  | H : OutOfFuel = Ok _ |- _ => discriminate H
  | H : (if ?b then Err _ else _) = Ok _ |- _ => destruct b eqn:?; [discriminate H|]
  | H : (if ?b then _ else Err _) = Ok _ |- _ => destruct b eqn:?; [|discriminate H]
  | H : (let '(_, _) := if ?b then _ else _ in _) = Ok _ |- _ => destruct b eqn:?
  | H : (let '(_, _) := ?p in _) = Ok _ |- _ => destruct p
  | H : _ = ?x |- _ => is_var x; subst x
  | H : ?x = _ |- _ => is_var x; subst x
  end).

(** ** Loops over either monad

    [for x in l { body }] with the loop's mutable variables as the state [s];
    [fold_until] is the loop whose body may [return] or [break] with a value. *)

Inductive control (S R : Type) :=
  | Continue (s : S)
  | Return (r : R).
Arguments Continue {S R} s.
Arguments Return {S R} r.

Section loops.
Context {M : Type -> Type} `{MRet M, MBind M}.

Fixpoint foldM {A S} (f : S -> A -> M S) (s : S) (l : list A) : M S :=
  match l with
  | [] => mret s
  | x :: l => s' ← f s x; foldM f s' l
  end.

Fixpoint forM {A} (l : list A) (f : A -> M unit) : M unit :=
  match l with
  | [] => mret tt
  | x :: l => _ ← f x; forM l f
  end.

Fixpoint fold_until {A S R} (f : S -> A -> M (control S R)) (s : S) (l : list A)
    : M (control S R) :=
  match l with
  | [] => mret (Continue s)
  | x :: l =>
      c ← f s x;
      match c with
      | Continue s' => fold_until f s' l
      | Return r => mret (Return r)
      end
  end.
End loops.

Lemma forM_Ok {A} (l : list A) (f : A -> outcome unit) :
  forM l f = Ok tt <-> Forall (fun x => f x = Ok tt) l.
Proof.
  induction l as [|x l IH]; cbn; [by split|].
  rewrite bind_Ok. rewrite Forall_cons_iff. setoid_rewrite IH.
  split; [by intros ([]&?&?)|].
  intros [? ?]. by exists tt.
Qed.

Lemma forM_safe {A} (l : list A) (f : A -> outcome unit) :
  (forall x, x ∈ l -> safe (f x)) -> safe (forM l f).
Proof.
  induction l as [|x l IH]; cbn; intros Hf; [apply safe_Ok|].
  apply safe_bind; [apply Hf; set_solver|]. intros _ _. apply IH. set_solver.
Qed.

Lemma foldM_safe {A S} (f : S -> A -> outcome S) (I : S -> Prop) l s :
  I s -> (forall s x, x ∈ l -> I s -> safe (f s x) /\ forall s', f s x = Ok s' -> I s') ->
  safe (foldM f s l) /\ (forall s', foldM f s l = Ok s' -> I s').
Proof.
  revert s. induction l as [|x l IH]; cbn; intros s Hs Hf.
  { split; [apply safe_Ok|]. by intros s' [= <-]. }
  destruct (Hf s x ltac:(set_solver) Hs) as [H1 H2]. split.
  - apply safe_bind; [done|]. intros s' Hs'. apply IH; [by apply H2|].
    intros. apply Hf; [set_solver|done].
  - intros s' (s1&?&?)%bind_Ok. eapply (IH s1); [by apply H2| |done].
    intros. apply Hf; [set_solver|done].
Qed.

Lemma foldM_app {A S} (f : S -> A -> outcome S) s l k :
  foldM f s (l ++ k) = (s' ← foldM f s l; foldM f s' k).
Proof.
  revert s. induction l as [|x l IH]; cbn; intros s; [done|].
  rewrite bind_assoc. apply bind_ext. auto.
Qed.

Lemma foldM_ext {A S} (f g : S -> A -> outcome S) s l :
  (forall s x, f s x = g s x) -> foldM f s l = foldM g s l.
Proof.
  intros H. revert s. induction l as [|x l IH]; cbn; intros s; [done|].
  rewrite H. apply bind_ext. auto.
Qed.

Lemma fold_until_ext {A S R} (f g : S -> A -> outcome (control S R)) s l :
  (forall s x, f s x = g s x) -> fold_until f s l = fold_until g s l.
Proof.
  intros H. revert s. induction l as [|x l IH]; cbn; intros s; [done|].
  rewrite H. apply bind_ext. intros [] _; auto.
Qed.

(** Invariant rule for loops: [I] is indexed by the elements already visited. *)
Lemma foldM_ind {A S} (f : S -> A -> outcome S) (I : list A -> S -> Prop) l s s' :
  foldM f s l = Ok s' -> I [] s ->
  (forall done x s s', f s x = Ok s' -> I done s -> I (done ++ [x]) s') -> I l s'.
Proof.
  intros Hf H0 Hstep.
  enough (G : forall l done s, foldM f s l = Ok s' -> I done s -> I (done ++ l) s')
    by (by apply (G l [] s)).
  clear -Hstep. induction l as [|x l IH]; cbn; intros d s Hf Hs.
  { injection Hf as ->. by rewrite app_nil_r. }
  apply bind_Ok in Hf as (s1&Hx&Hf).
  replace (d ++ x :: l) with ((d ++ [x]) ++ l) by (by rewrite <- app_assoc).
  eauto.
Qed.

(** ** Cancellation

    [state: &AtomicU8] is read by [load(Acquire)] only.  [obs k] is the value
    the [k]-th load of the call returns; a computation threads the number of
    loads made so far. *)

Definition STATE_IDLE : u8 := 0.
Definition STATE_RUNNING : u8 := 1.
Definition STATE_FINISHED : u8 := 2.
Definition STATE_CANCELLED : u8 := 3.
Definition STATE_FAILED : u8 := 4.

Definition Cx (A : Type) : Type := (nat -> u8) -> nat -> outcome A * nat.

#[export] Instance Cx_ret : MRet Cx := fun A a _ k => (Ok a, k).
#[export] Instance Cx_bind : MBind Cx := fun A B f m obs k =>
  match m obs k with
  | (Ok a, k') => f a obs k'
  | (Err e, k') => (Err e, k')
  | (Panic, k') => (Panic, k')
  | (OutOfFuel, k') => (OutOfFuel, k')
  end.

(** A call that does not read the flag. *)
Definition lift {A} (m : outcome A) : Cx A := fun _ k => (m, k).
Notation "! m" := (lift m) (at level 15, right associativity) : kernel_scope.

(** [state.load(Ordering::Acquire)]. *)
Definition load : Cx u8 := fun obs k => (Ok (obs k), S k).

Definition check_cancel (index : usize) : Cx unit :=
  if index mod 256 =? 0 then
    observed ← load;
    if observed =? STATE_CANCELLED then !Err Cancelled else mret tt
  else mret tt.

(** The run nobody cancels. *)
Definition quiet : nat -> u8 := fun _ => STATE_RUNNING.
Definition run {A} (m : Cx A) : outcome A := fst (m quiet 0%nat).

(** A computation is transparent when the flag can only turn its result into
    [Cancelled]: whatever the loads return, it either reports the
    cancellation or does exactly what the undisturbed run does. *)
Class Transparent {A} (m : Cx A) : Prop := {
  transparent_quiet k : fst (m quiet k) = run m;
  transparent_obs obs k : fst (m obs k) = Err Cancelled \/ fst (m obs k) = run m;
}.

#[export] Instance transparent_ret {A} (a : A) : Transparent (mret a : Cx A).
Proof. split; cbn; auto. Qed.

#[export] Instance transparent_lift {A} (m : outcome A) : Transparent (lift m).
Proof. split; cbn; auto. Qed.

#[export] Instance transparent_check_cancel index : Transparent (check_cancel index).
Proof.
  unfold check_cancel. destruct (index mod 256 =? 0); [|apply _].
  split; [done|]. intros obs k. unfold run, mbind, Cx_bind, load, lift, mret, Cx_ret.
  cbn. destruct (obs k =? STATE_CANCELLED); auto.
Qed.

Section transparent_bind.
Context {A B} (m : Cx A) (f : A -> Cx B).
Context `{!Transparent m} `{!forall a, Transparent (f a)}.

Lemma run_bind : run (mbind f m) = mbind (fun a => run (f a)) (run m).
Proof using All.
  unfold run, mbind, Cx_bind.
  destruct (m quiet 0%nat) as [[a|e| |] k]; cbn; try done.
  apply transparent_quiet.
Qed.

#[export] Instance transparent_bind : Transparent (mbind f m).
Proof using All.
  split.
  - intros k. rewrite run_bind, <- (transparent_quiet (m:=m) k). unfold mbind, Cx_bind.
    destruct (m quiet k) as [[a|e| |] k']; cbn; try done. apply transparent_quiet.
  - intros obs k. rewrite run_bind. unfold mbind, Cx_bind.
    pose proof (transparent_obs (m:=m) obs k) as Hm.
    destruct (m obs k) as [o k'] eqn:E. cbn in Hm. destruct Hm as [->| ->]; [by left|].
    destruct (run m) as [a|e| |]; cbn; auto. apply transparent_obs.
Qed.
End transparent_bind.

Lemma run_ret {A} (a : A) : run (mret a) = Ok a.
Proof. done. Qed.
Lemma run_lift {A} (m : outcome A) : run (lift m) = m.
Proof. done. Qed.
Lemma run_check_cancel index : run (check_cancel index) = Ok tt.
Proof. unfold check_cancel. by destruct (index mod 256 =? 0). Qed.

#[export] Instance transparent_foldM {A S} (f : S -> A -> Cx S) s l :
  (forall s x, Transparent (f s x)) -> Transparent (foldM f s l).
Proof. revert s. induction l; cbn; intros; apply _. Qed.

#[export] Instance transparent_forM {A} (f : A -> Cx unit) l :
  (forall x, Transparent (f x)) -> Transparent (forM l f).
Proof. induction l; cbn; intros; apply _. Qed.

#[export] Instance transparent_fold_until {A S R} (f : S -> A -> Cx (control S R)) s l :
  (forall s x, Transparent (f s x)) -> Transparent (fold_until f s l).
Proof.
  intros Hf. revert s. induction l; cbn; intros; [apply _|].
  apply transparent_bind; [apply _|]. intros []; apply _.
Qed.

Lemma run_foldM {A S} (f : S -> A -> Cx S) s l :
  (forall s x, Transparent (f s x)) ->
  run (foldM f s l) = foldM (fun s x => run (f s x)) s l.
Proof.
  intros Hf. revert s. induction l as [|x l IH]; cbn; intros s; [done|].
  rewrite run_bind by apply _. by apply bind_ext.
Qed.

Lemma run_forM {A} (f : A -> Cx unit) l :
  (forall x, Transparent (f x)) ->
  run (forM l f) = forM l (fun x => run (f x)).
Proof.
  intros Hf. induction l as [|x l IH]; cbn; [done|].
  rewrite run_bind by apply _. by apply bind_ext.
Qed.

Lemma run_fold_until {A S R} (f : S -> A -> Cx (control S R)) s l :
  (forall s x, Transparent (f s x)) ->
  run (fold_until f s l) = fold_until (fun s x => run (f s x)) s l.
Proof.
  intros Hf. revert s. induction l as [|x l IH]; cbn; intros s; [done|].
  rewrite run_bind by (first [apply _ | intros [s'|r]; apply _]).
  apply bind_ext. intros [s'|r] _; [apply IH|done].
Qed.

(** A loop that polls the flag and then does its work. *)
Lemma run_foldM_checked {A S} (poll : A -> usize) (f : S -> A -> outcome S) s l :
  run (foldM (fun s x => _ ← check_cancel (poll x); !f s x) s l) = foldM f s l.
Proof.
  rewrite run_foldM by apply _. apply foldM_ext. intros s' x.
  rewrite run_bind by apply _. by rewrite run_check_cancel.
Qed.

(** Transparency of a computation by its structure. *)
Ltac solve_transparent :=
  repeat (cbn beta iota zeta; match goal with
  | |- forall _, _ => intro
  | |- Transparent (mbind _ _) => apply transparent_bind
  | |- Transparent (foldM _ _ _) => apply transparent_foldM
  | |- Transparent (forM _ _) => apply transparent_forM
  | |- Transparent (fold_until _ _ _) => apply transparent_fold_until
  | |- Transparent (if ?b then _ else _) => destruct b
  | |- Transparent (match ?x with _ => _ end) => destruct x
  | |- Transparent (match ?x with _ => _ end _) => destruct x
  | _ => apply _
  end).

(** The undisturbed run of a computation by its structure. *)
Ltac run_steps :=
  repeat first
    [ rewrite run_bind by solve_transparent
    | rewrite run_check_cancel | rewrite run_lift | rewrite run_ret
    | progress cbn [mbind outcome_bind] ].

(** ** The Python boundary

    The exceptions of native/src/lib.rs and the two conversions at the boundary:
    [kernel_error] and [guarded]. *)

(** [PyErr]: the exception types the extension raises; [PythonError] is any
    exception of Python code it calls. *)
Inductive PyErr :=
  | PyValueError (message : string)
  | PyMemoryError (message : string)
  | PyRuntimeError (message : string)
  | EncodedDirectUnsupportedError (message : string)
  | EncodedDirectBufferError (message : string)
  | EncodedDirectCancelledError (message : string)
  | EncodedDirectReferenceError (message : string)
  | PythonError.

(** [PyResult]. *)
Abbreviation PyResult A := (A + PyErr)%type.

Definition kernel_error (error : KernelError) : PyErr :=
  match error with
  | Malformed message => EncodedDirectBufferError message
  | Unsupported message => EncodedDirectUnsupportedError message
  | ReferenceFailure message => EncodedDirectReferenceError message
  | Resource message => PyMemoryError message
  | Cancelled => EncodedDirectCancelledError "encoded direct compiler was cancelled"
  end.

(** [guarded(|| operation.map_err(kernel_error))]: a panic is contained.
    [None]: the operation has not returned within its fuel. *)
Definition guarded {A} (operation : outcome A) : option (PyResult A) :=
  match operation with
  | Ok value => Some (inl value)
  | Err error => Some (inr (kernel_error error))
  | Panic => Some (inr (PyRuntimeError "panic contained at the native projector boundary"))
  | OutOfFuel => None
  end.
