(* ===== verification/Partial.v ===== *)
(** * Partial correctness, and functions that spend a resource

    What the value of a computation satisfies when there is one, whatever the
    cancellation flag does: [ensures] for plain results, [post] for
    computations that poll the flag.

    Where the code threads an account through its calls ([&mut CanonicalBudget],
    [&mut LocalOverlayWorkspace]) next to the flag, a function is a [Spend]: it
    returns the account with its result.  After an error no caller of the code
    reads the account. *)

From S2P Require Import Prelude Errors.
Local Open Scope list_scope.
Local Open Scope N_scope.

Definition ensures {A} (Q : A -> Prop) (o : outcome A) : Prop := forall a, o = Ok a -> Q a.
Definition post {A} (Q : A -> Prop) (m : Cx A) : Prop := forall obs k, ensures Q (fst (m obs k)).

Section rules.
Context {A B : Type}.

Lemma ensures_Ok (Q : A -> Prop) a : Q a -> ensures Q (Ok a).
Proof using Type. by intros HQ ? [= <-]. Qed.
Lemma ensures_Err (Q : A -> Prop) e : ensures Q (Err e).
Proof using Type. done. Qed.
Lemma ensures_trivial (o : outcome A) : ensures (fun _ => True) o.
Proof using Type. done. Qed.

Lemma ensures_bind (R : A -> Prop) (Q : B -> Prop) o f :
  ensures R o -> (forall a, R a -> ensures Q (f a)) -> ensures Q (mbind f o).
Proof using Type. intros HR Hf b (a&Ha&Hb)%bind_Ok. eapply Hf; eauto. Qed.

Lemma ensures_mono (Q R : A -> Prop) o : (forall a, Q a -> R a) -> ensures Q o -> ensures R o.
Proof using Type. intros HQ Ho a Ha. by apply HQ, Ho. Qed.
Lemma ensures_ok_or (Q : A -> Prop) o e : (forall a, o = Some a -> Q a) -> ensures Q (ok_or o e).
Proof using Type. intros HQ a. rewrite ok_or_Ok. apply HQ. Qed.
Lemma ensures_index (l : list A) i : ensures (fun a => get l i = Some a) (index l i).
Proof using Type. intros a. by rewrite index_Ok. Qed.

Lemma post_ret (Q : A -> Prop) a : Q a -> post Q (mret a).
Proof using Type. intros HQ obs k. by apply ensures_Ok. Qed.
Lemma post_lift (Q : A -> Prop) o : ensures Q o -> post Q (lift o).
Proof using Type. by intros HQ obs k. Qed.
Lemma post_trivial (m : Cx A) : post (fun _ => True) m.
Proof using Type. done. Qed.

Lemma post_bind (R : A -> Prop) (Q : B -> Prop) m f :
  post R m -> (forall a, R a -> post Q (f a)) -> post Q (mbind f m).
Proof using Type.
  intros HR Hf obs k. specialize (HR obs k). unfold mbind, Cx_bind.
  destruct (m obs k) as [[a|e| |] k']; try done. apply Hf. by apply HR.
Qed.

Lemma post_and (Q R : A -> Prop) m : post Q m -> post R m -> post (fun a => Q a /\ R a) m.
Proof using Type. intros HQ HR obs k a Ha. split; [by eapply HQ|by eapply HR]. Qed.
Lemma post_mono (Q R : A -> Prop) m : (forall a, Q a -> R a) -> post Q m -> post R m.
Proof using Type. intros HQ Hm obs k a Ha. by eapply HQ, Hm. Qed.
End rules.

(** A part whose result is of no matter. *)
Ltac skip_step := eapply post_bind; [apply post_trivial|intros ? _].

(** The computation that ran, as an equation. *)
Lemma post_run {A} (Q : A -> Prop) m a : post Q m -> run m = Ok a -> Q a.
Proof. intros Hm. apply Hm. Qed.
Lemma ensures_self {A} (o : outcome A) : ensures (fun a => o = Ok a) o.
Proof. by intros a. Qed.

(** The undisturbed run has the value of any run. *)
Lemma post_transparent {A} (m : Cx A) : Transparent m -> post (fun a => run m = Ok a) m.
Proof.
  intros Ht obs k a Ha. destruct (@transparent_obs _ m Ht obs k) as [E|E]; congruence.
Qed.

(** Loops: the invariant is indexed by the elements already visited. *)
Lemma post_foldM_ind {A S} (I : list A -> S -> Prop) (f : S -> A -> Cx S) s l :
  I [] s -> (forall done x rest s, l = done ++ x :: rest -> I done s -> post (I (done ++ [x])) (f s x)) ->
  post (I l) (foldM f s l).
Proof.
  intros H0 Hf.
  enough (G : forall rest done s, l = done ++ rest -> I done s -> post (I l) (foldM f s rest))
    by (by apply (G l [])).
  clear s H0. induction rest as [|x rest IH]; intros d s Hl Hs; cbn [foldM].
  - apply post_ret. by rewrite Hl, app_nil_r.
  - eapply post_bind; [by eapply Hf|]. intros s' Hs'.
    by apply (IH (d ++ [x])); [rewrite <- app_assoc|].
Qed.

Lemma post_foldM {A S} (I : S -> Prop) (f : S -> A -> Cx S) s l :
  I s -> (forall s x, x ∈ l -> I s -> post I (f s x)) -> post I (foldM f s l).
Proof.
  intros Hs Hf. apply (post_foldM_ind (fun _ => I)); [done|].
  intros d x rest s' -> Hs'. apply Hf; [set_solver|done].
Qed.

Lemma ensures_foldM {A S} (I : S -> Prop) (f : S -> A -> outcome S) s l :
  I s -> (forall s x, I s -> ensures I (f s x)) -> ensures I (foldM f s l).
Proof.
  intros Hs Hf. revert s Hs. induction l as [|x l IH]; intros s Hs; cbn [foldM]; [by apply ensures_Ok|].
  eapply ensures_bind; [by apply Hf|]. exact IH.
Qed.

(** The rules, by the structure of the computation; what is left are the
    claims about returned values. *)
Ltac step_post :=
  repeat (cbn beta iota zeta; first
    [ match goal with |- forall _, _ => intro | |- True -> _ => intros _ end
    | assumption
    | apply ensures_Err
    | apply ensures_Ok
    | apply post_ret
    | apply post_lift
    | match goal with
      | |- ensures _ (if ?b then _ else _) => destruct b
      | |- ensures _ (match ?x with _ => _ end) => destruct x
      | |- ensures _ (match ?x with _ => _ end _) => destruct x
      | |- post _ (if ?b then _ else _) => destruct b
      | |- post _ (match ?x with _ => _ end) => destruct x
      | |- post _ (match ?x with _ => _ end _) => destruct x
      end ]).

(** The same, where nothing is known of the intermediate values. *)
Ltac skip_post := repeat progress (step_post; try (eapply post_bind; [apply post_trivial|])).

Definition Spend (S A : Type) : Type := S -> Cx (A * S).

#[export] Instance Spend_ret S : MRet (Spend S) := fun A a resource => mret (a, resource).
#[export] Instance Spend_bind S : MBind (Spend S) := fun A B f m resource =>
  '(a, resource) ← m resource; f a resource.

(** A call that does not take the account. *)
Definition spared {S A} (m : outcome A) : Spend S A := fun resource => a ← !m; mret (a, resource).
Notation "⇑ m" := (spared m) (at level 15, right associativity) : kernel_scope.

(** A call that reads the flag only. *)
Definition uncharged {S A} (m : Cx A) : Spend S A := fun resource => a ← m; mret (a, resource).

(** A method of the account that does not read the flag. *)
Definition charge {S} (f : S -> outcome S) : Spend S unit :=
  fun resource => resource ← !f resource; mret (tt, resource).

(** ** What such a function returns *)

Definition yields {S A} (Q : A -> Prop) (m : Spend S A) : Prop :=
  forall resource, post (fun result => Q result.1) (m resource).

Section yields.
Context {S A B : Type}.

Lemma yields_ret (Q : A -> Prop) a : Q a -> yields (S:=S) Q (mret a).
Proof using Type. intros HQ budget. by apply post_ret. Qed.
Lemma yields_spared (Q : A -> Prop) o : ensures Q o -> yields (S:=S) Q (⇑o).
Proof using Type.
  intros HQ budget. eapply post_bind; [by apply post_lift|]. intros a Ha. by apply post_ret.
Qed.
Lemma yields_trivial (m : Spend S A) : yields (fun _ => True) m.
Proof using Type. done. Qed.
Lemma yields_mono (Q R : A -> Prop) (m : Spend S A) : (forall a, Q a -> R a) -> yields Q m -> yields R m.
Proof using Type. intros HQ Hm budget. eapply post_mono, Hm. naive_solver. Qed.
Lemma yields_bind (R : A -> Prop) (Q : B -> Prop) (m : Spend S A) f :
  yields R m -> (forall a, R a -> yields (S:=S) Q (f a)) -> yields Q (mbind f m).
Proof using Type.
  intros HR Hf budget. eapply post_bind; [apply HR|]. intros [a budget'] Ha. by apply Hf.
Qed.
Lemma yields_then (Q : B -> Prop) (m : Spend S A) f : (forall a, yields (S:=S) Q (f a)) -> yields Q (mbind f m).
Proof using Type. intros Hf. eapply yields_bind; [apply yields_trivial|]. auto. Qed.
Lemma yields_error (Q : A -> Prop) e : yields (S:=S) Q (⇑Err e).
Proof using Type. by apply yields_spared. Qed.
End yields.

(** The same, keeping the equation of a call that does not spend. *)
Lemma yields_read {S A B} (Q : B -> Prop) (o : outcome A) f :
  (forall a, o = Ok a -> yields (S:=S) Q (f a)) -> yields Q (a ← ⇑o; f a).
Proof. intros Hf. eapply yields_bind; [apply yields_spared, ensures_self|]. auto. Qed.

Lemma yields_foldM_ind {R A S} (I : list A -> S -> Prop) (f : S -> A -> Spend R S) s l :
  I [] s -> (forall done x rest s, l = done ++ x :: rest -> I done s -> yields (I (done ++ [x])) (f s x)) ->
  yields (I l) (foldM f s l).
Proof.
  intros H0 Hf.
  enough (G : forall rest done s, l = done ++ rest -> I done s -> yields (I l) (foldM f s rest))
    by (by apply (G l [])).
  clear s H0. induction rest as [|x rest IH]; intros d s Hl Hs; cbn [foldM].
  - apply yields_ret. by rewrite Hl, app_nil_r.
  - eapply yields_bind; [by eapply Hf|]. intros s' Hs'.
    by apply (IH (d ++ [x])); [rewrite <- app_assoc|].
Qed.

Lemma yields_foldM {R A S} (I : S -> Prop) (f : S -> A -> Spend R S) s l :
  I s -> (forall s x, x ∈ l -> I s -> yields I (f s x)) -> yields I (foldM f s l).
Proof.
  intros Hs Hf. apply (yields_foldM_ind (fun _ => I)); [done|].
  intros d x rest s' -> Hs'. apply Hf; [set_solver|done].
Qed.

(** A run that succeeded. *)
Lemma yields_ok {S A} (Q : A -> Prop) (m : Spend S A) budget obs k a budget' :
  yields Q m -> fst (m budget obs k) = Ok (a, budget') -> Q a.
Proof. intros Hm E. by apply (Hm budget obs k) in E. Qed.

(** A call that reads the flag only. *)
Lemma yields_uncharged {S A} (Q : A -> Prop) (m : Cx A) : post Q m -> yields (S:=S) Q (uncharged m).
Proof. intros Hm resource. eapply post_bind; [exact Hm|]. intros a Ha. by apply post_ret. Qed.
