(* ===== verification/Lists.v ===== *)
(** * Binary search and loops that extend a list

    [slice::binary_search_by] of the standard library, which the kernel looks
    its sorted plans up with: the window [base..base + size] shrinks by half
    until one element is left.  [inl] is [Ok] of a position, [inr] is [Err] of
    the insertion point.

    The loop that appends what each element gives, the sums that count what such
    a loop appends, and lists that are sorted by a key. *)

From stdpp Require Import sorting.
From S2P Require Import Prelude Errors.
Local Open Scope list_scope.
Local Open Scope N_scope.

Section bisect.
Context {A : Type} (f : A -> comparison).

Fixpoint bisect (fuel : nat) (l : list A) (base size : N) : N :=
  match fuel with
  | O => base
  | S fuel =>
      if size <=? 1 then base else
      let half := size / 2 in
      let mid := base + half in
      let base := match f <$> get l mid with
                  | Some Gt | None => base
                  | Some _ => mid
                  end in
      bisect fuel l base (size - half)
  end.

Definition binary_search_by (l : list A) : N + N :=
  let i := bisect (length l) l 0 (len l) in
  match f <$> get l i with
  | Some Eq => inl i
  | Some Lt => inr (i + 1)
  | Some Gt => inr i
  | None => inr 0
  end.

(** What the search asks of the list: at most one match, after the smaller
    elements and before the greater ones. *)
Definition bisected (l : list A) : Prop :=
  forall i j a b, i < j -> get l i = Some a -> get l j = Some b -> f a <> Lt -> f b = Gt.

(** The window keeps every element that is not decided yet: those before it
    are smaller, unless it starts the list, and those after it greater. *)
Lemma bisect_spec fuel l base size :
  bisected l -> 0 < size -> base + size <= len l -> (N.to_nat size <= fuel)%nat ->
  (forall k a, k < base -> get l k = Some a -> f a = Lt) ->
  (forall k a, base + size <= k -> get l k = Some a -> f a = Gt) ->
  exists i, bisect fuel l base size = i /\ i < len l /\
    (forall k a, k < i -> get l k = Some a -> f a = Lt) /\
    (forall k a, i < k -> get l k = Some a -> f a = Gt).
Proof using Type.
  intros Hs. revert base size. induction fuel as [|fuel IH]; intros base size H0 Hl Hf Hlo Hhi; [lia|].
  cbn [bisect]. destruct (N.leb_spec size 1) as [Hsz|Hsz].
  { exists base. split; [done|]. split; [lia|]. split; [done|]. intros k a Hk. apply Hhi. lia. }
  cbn zeta.
  assert (Hh : 0 < size / 2 < size)
    by (split; [apply N.div_str_pos; lia|apply N.div_lt; lia]).
  assert (Hh2 : size / 2 <= size - size / 2)
    by (pose proof (N.Div0.mul_div_le size 2) as Hm; revert Hh Hm; generalize (size / 2); lia).
  revert Hh Hh2. generalize (size / 2). intros h Hh Hh2.
  destruct (get_lt_Some l (base + h)) as [y Hy]; [lia|]. rewrite Hy. cbn [fmap option_fmap option_map].
  destruct (f y) eqn:E; apply IH; try lia; try done.
  - intros k a Hk Ha. destruct (f a) eqn:Ea; [|done|];
      (rewrite (Hs _ _ _ _ Hk Ha Hy) in E; [done|congruence]).
  - intros k a Hk. apply Hhi. lia.
  - intros k a Hk Ha. destruct (f a) eqn:Ea; [|done|];
      (rewrite (Hs _ _ _ _ Hk Ha Hy) in E; [done|congruence]).
  - intros k a Hk. apply Hhi. lia.
  - intros k a Hk Ha. destruct (decide (base + h = k)) as [<-|]; [congruence|].
    apply (Hs (base + h) k y a); [lia|done|done|congruence].
Qed.

Lemma binary_search_by_spec l :
  bisected l ->
  match binary_search_by l with
  | inl i => exists x, get l i = Some x /\ f x = Eq
  | inr i => i <= len l /\ forall k a, get l k = Some a -> f a = if k <? i then Lt else Gt
  end.
Proof using Type.
  intros Hs. unfold binary_search_by. destruct l as [|x0 l0] eqn:El.
  { cbn. split; [done|]. intros k a Ha%get_Some_lt. rewrite len_nil in Ha. lia. }
  rewrite <- El in *. assert (Hl : 0 < len l) by (rewrite El, len_cons; lia). clear El.
  destruct (bisect_spec (length l) l 0 (len l)) as (i&->&Hi&Hlo&Hhi);
    [done|done|lia|unfold len; lia|intros k a Hk; lia|intros k a Hk Ha%get_Some_lt; lia|].
  destruct (get_lt_Some l i Hi) as [x Hx]. rewrite Hx. cbn [fmap option_fmap option_map].
  destruct (f x) eqn:E.
  - eauto.
  - split; [lia|]. intros k a Ha. destruct (N.ltb_spec k (i + 1)).
    + destruct (decide (k = i)) as [->|]; [congruence|]. apply (Hlo k); [lia|done].
    + apply (Hhi k); [lia|done].
  - split; [lia|]. intros k a Ha. destruct (N.ltb_spec k i); [by apply (Hlo k)|].
    destruct (decide (k = i)) as [->|]; [congruence|]. apply (Hhi k); [lia|done].
Qed.

Lemma binary_search_by_found l k x :
  bisected l -> get l k = Some x -> f x = Eq -> binary_search_by l = inl k.
Proof using Type.
  intros Hs Hk Hx. pose proof (binary_search_by_spec l Hs) as H.
  destruct (binary_search_by l) as [i|i].
  - destruct H as (y&Hy&Ey). f_equal. destruct (N.lt_trichotomy i k) as [Hlt|[?|Hlt]]; [|done|].
    + rewrite (Hs _ _ _ _ Hlt Hy Hk) in Hx; [done|congruence].
    + rewrite (Hs _ _ _ _ Hlt Hk Hy) in Ey; [done|congruence].
  - destruct H as [_ H]. rewrite (H k x Hk) in Hx. by destruct (k <? i).
Qed.

Lemma binary_search_by_absent l :
  (forall x, x ∈ l -> f x <> Eq) -> exists i, binary_search_by l = inr i.
Proof using Type.
  intros H. unfold binary_search_by. destruct (get l _) as [x|] eqn:E; cbn; [|eauto].
  apply get_elem_of, H in E. destruct (f x); [done|eauto..].
Qed.
End bisect.

(** ** Sums *)

Definition sum {A} (w : A -> N) (l : list A) : N := foldr (fun x total => w x + total) 0 l.

Lemma sum_app {A} (w : A -> N) l k : sum w (l ++ k) = sum w l + sum w k.
Proof. induction l as [|x l IH]; cbn; [done|]. fold (sum w (l ++ k)) (sum w l). lia. Qed.

Lemma sum_snoc {A} (w : A -> N) l x : sum w (l ++ [x]) = sum w l + w x.
Proof. rewrite sum_app. cbn. lia. Qed.

Lemma sum_cons {A} (w : A -> N) l x : sum w (x :: l) = w x + sum w l.
Proof. done. Qed.

Lemma sum_ext {A} (v w : A -> N) l : (forall x, x ∈ l -> v x = w x) -> sum v l = sum w l.
Proof.
  induction l as [|x l IH]; intros H; [done|]. rewrite !sum_cons, H, IH by set_solver. done.
Qed.

Lemma sum_plus {A} (v w : A -> N) l : sum (fun x => v x + w x) l = sum v l + sum w l.
Proof. induction l as [|x l IH]; [done|]. rewrite !sum_cons, IH. lia. Qed.

Lemma sum_mult {A} (c : N) (w : A -> N) l : sum (fun x => w x * c) l = sum w l * c.
Proof. induction l as [|x l IH]; [done|]. rewrite !sum_cons, IH. lia. Qed.

Lemma sum_zero {A} (l : list A) : sum (fun _ => 0) l = 0.
Proof. induction l as [|x l IH]; [done|]. by rewrite sum_cons, IH. Qed.

Lemma sum_fmap {A B} (f : A -> B) (w : B -> N) l : sum w (f <$> l) = sum (fun x => w (f x)) l.
Proof. induction l as [|x l IH]; [done|]. cbn. by fold (sum w (f <$> l)); rewrite IH. Qed.

Lemma sum_le {A} (v w : A -> N) l : (forall x, x ∈ l -> v x <= w x) -> sum v l <= sum w l.
Proof.
  induction l as [|x l IH]; intros Hle; [done|]. rewrite !sum_cons.
  pose proof (Hle x (list_elem_of_here _ _)). specialize (IH (fun y Hy => Hle y (list_elem_of_further _ _ _ Hy))). lia.
Qed.

Lemma sum_lt {A} (v w : A -> N) x l : x ∈ l -> v x < w x -> (forall y, y ∈ l -> v y <= w y) -> sum v l < sum w l.
Proof.
  intros [l1 [l2 ->]]%list_elem_of_split Hlt Hle. rewrite !sum_app, !sum_cons.
  assert (sum v l1 <= sum w l1) by (apply sum_le; intros y Hy; apply Hle, elem_of_app; by left).
  assert (sum v l2 <= sum w l2) by (apply sum_le; intros y Hy; apply Hle, elem_of_app; right; by right). lia.
Qed.

(** ** Concatenation *)

(** [for x in l { acc.extend(f(x)?) }]. *)
Definition concatM {A B} (f : A -> outcome (list B)) (l : list A) : outcome (list B) :=
  foldM (fun acc x => part ← f x; Ok (acc ++ part)) [] l.

Lemma concatM_from {A B} (f : A -> outcome (list B)) l acc :
  foldM (fun acc x => part ← f x; Ok (acc ++ part)) acc l = (k ← concatM f l; Ok (acc ++ k)).
Proof.
  unfold concatM. revert acc. induction l as [|x l IH]; intros acc; cbn; [by rewrite app_nil_r|].
  rewrite !bind_assoc. apply bind_ext. intros part _. cbn. rewrite IH, (IH part), bind_assoc.
  apply bind_ext. intros k _. cbn. by rewrite app_assoc.
Qed.

Lemma concatM_nil {A B} (f : A -> outcome (list B)) : concatM f [] = Ok [].
Proof. done. Qed.

Lemma concatM_cons {A B} (f : A -> outcome (list B)) x l :
  concatM f (x :: l) = (part ← f x; rest ← concatM f l; Ok (part ++ rest)).
Proof.
  unfold concatM at 1. cbn. rewrite bind_assoc. apply bind_ext. intros part _. cbn.
  apply concatM_from.
Qed.

Lemma concatM_cons_Ok {A B} (f : A -> outcome (list B)) x l k :
  concatM f (x :: l) = Ok k -> exists part rest, f x = Ok part /\ concatM f l = Ok rest /\ k = part ++ rest.
Proof.
  rewrite concatM_cons. intros (part&Hp&H)%bind_Ok. apply bind_Ok in H as (rest&Hr&H).
  injection H as <-. eauto.
Qed.

Lemma concatM_sum {A B} (f : A -> outcome (list B)) (w : A -> N) l :
  (forall x, x ∈ l -> exists part, f x = Ok part /\ len part = w x) ->
  exists k, concatM f l = Ok k /\ len k = sum w l.
Proof.
  induction l as [|x l IH]; intros Hf; [by exists []|].
  destruct (Hf x ltac:(set_solver)) as (part&Hp&Hw).
  destruct IH as (rest&Hr&Hs); [set_solver|].
  exists (part ++ rest). rewrite concatM_cons, Hp. cbn [mbind outcome_bind]. rewrite Hr.
  split; [done|]. rewrite len_app, sum_cons. lia.
Qed.

Lemma concatM_filter {A B} (f : A -> outcome (list B)) (P : A -> Prop) `{!forall x, Decision (P x)} l :
  (forall x, x ∈ l -> ~ P x -> f x = Ok []) -> concatM f l = concatM f (filter P l).
Proof.
  induction l as [|x l IH]; intros Hf; [done|]. rewrite concatM_cons, filter_cons, IH by set_solver.
  destruct (decide (P x)); [by rewrite concatM_cons|].
  rewrite Hf by set_solver. cbn [mbind outcome_bind]. by destruct (concatM f (filter P l)).
Qed.

Lemma concatM_ext {A B} (f g : A -> outcome (list B)) l :
  (forall x, x ∈ l -> f x = g x) -> concatM f l = concatM g l.
Proof.
  induction l as [|x l IH]; intros Hf; [done|]. by rewrite !concatM_cons, Hf, IH by set_solver.
Qed.

Lemma concatM_fmap {A B C} (g : A -> B) (f : B -> outcome (list C)) l :
  concatM f (g <$> l) = concatM (fun x => f (g x)) l.
Proof. induction l as [|x l IH]; [done|]. cbn [fmap list_fmap]. by rewrite !concatM_cons, <- IH. Qed.

Lemma concatM_Ok_elem {A B} (f : A -> outcome (list B)) l k x :
  concatM f l = Ok k -> x ∈ l -> exists part, f x = Ok part.
Proof.
  revert k. induction l as [|y l IH]; intros k Hk Hx; [by apply elem_of_nil in Hx|].
  apply concatM_cons_Ok in Hk as (part&rest&Hp&Hr&_).
  apply elem_of_cons in Hx as [->|Hx]; [by eexists|by eapply IH].
Qed.

(** A function that succeeds where another did, with the same part. *)
Lemma concatM_mono {A B} (f g : A -> outcome (list B)) l k :
  (forall x part, x ∈ l -> f x = Ok part -> g x = Ok part) -> concatM f l = Ok k -> concatM g l = Ok k.
Proof.
  intros Hfg Hk. rewrite <- Hk. symmetry. apply concatM_ext. intros x Hx.
  destruct (concatM_Ok_elem f l k x Hk Hx) as [part Hp]. by rewrite Hp, (Hfg x part).
Qed.

Lemma concatM_snoc {A B} (f : A -> outcome (list B)) l x k part :
  concatM f l = Ok k -> f x = Ok part -> concatM f (l ++ [x]) = Ok (k ++ part).
Proof.
  revert k. induction l as [|y l IH]; intros k Hk Hx.
  - injection Hk as <-. cbn. by rewrite Hx.
  - apply concatM_cons_Ok in Hk as (p&rest&Hp&Hr&->). cbn [app].
    rewrite concatM_cons, Hp. cbn [mbind outcome_bind]. rewrite (IH rest Hr Hx). cbn. by rewrite app_assoc.
Qed.

Lemma StronglySorted_snoc {A} (R : A -> A -> Prop) `{!Transitive R} l x :
  StronglySorted R l -> (forall y, last l = Some y -> R y x) -> StronglySorted R (l ++ [x]).
Proof.
  induction 1 as [|y l Hs IH Hy]; intros Hx; [by repeat constructor|]. cbn [app]. constructor.
  - apply IH. intros z Hz. apply Hx. destruct l; [done|exact Hz].
  - apply Forall_app. split; [done|]. constructor; [|constructor].
    destruct (last l) as [z|] eqn:E.
    + transitivity z; [|apply Hx; destruct l; [done|exact E]].
      rewrite Forall_forall in Hy. apply Hy. apply last_Some in E as [l' ->]. set_solver.
    + apply last_None in E as ->. by apply Hx.
Qed.

(** ** Lists sorted by a key *)

Lemma StronglySorted_mono {A} (R S : A -> A -> Prop) l :
  (forall x y, R x y -> S x y) -> StronglySorted R l -> StronglySorted S l.
Proof. intros HRS. induction 1 as [|x l _ IH Hx]; constructor; [done|]. eapply Forall_impl; eauto. Qed.

Lemma StronglySorted_filter_in {A} (R S : A -> A -> Prop) (P : A -> Prop) `{!forall x, Decision (P x)} l :
  StronglySorted R l -> (forall x y, P x -> P y -> R x y -> S x y) -> StronglySorted S (filter P l).
Proof.
  intros Hl HRS. induction Hl as [|x l Hl IH Hx]; [constructor|]. rewrite filter_cons.
  destruct (decide (P x)) as [Px|]; [|exact IH]. constructor; [exact IH|].
  apply Forall_forall. intros y [Py Hy]%list_elem_of_filter. rewrite Forall_forall in Hx. auto.
Qed.

Lemma filter_all {A} (P : A -> Prop) `{!forall x, Decision (P x)} l : Forall P l -> filter P l = l.
Proof. induction 1; [done|]. rewrite filter_cons, decide_True by done. by f_equal. Qed.

Lemma filter_none {A} (P : A -> Prop) `{!forall x, Decision (P x)} l :
  (forall x, x ∈ l -> ~ P x) -> filter P l = [].
Proof.
  induction l as [|x l IH]; intros Hno; [done|]. rewrite filter_cons_False by (apply Hno; by left).
  apply IH. intros y Hy. apply Hno. by right.
Qed.

Section keyed.
Context {A : Type} (key : A -> nat).

Lemma sorted_split m l :
  StronglySorted (fun x y => key x <= key y)%nat l -> Forall (fun x => m <= key x)%nat l ->
  exists l1 l2, l = l1 ++ l2 /\ Forall (fun x => key x = m) l1 /\ Forall (fun x => S m <= key x)%nat l2.
Proof using Type.
  intros Hl Hm. induction Hl as [|x l Hl IH Hx]; [by exists [], []|]. apply Forall_cons in Hm as [Hmx Hm].
  destruct (decide (key x = m)) as [E|E].
  - destruct (IH Hm) as (l1&l2&->&H1&H2). exists (x :: l1), l2. split; [done|]. by split; [constructor|].
  - exists [], (x :: l). split; [done|]. split; [constructor|]. constructor; [lia|].
    eapply Forall_impl; [exact Hx|]. cbn. intros y Hy. lia.
Qed.

(** A list sorted by a key is the concatenation of what it has of every key. *)
Lemma sorted_concat_filters n m l :
  StronglySorted (fun x y => key x <= key y)%nat l ->
  Forall (fun x => m <= key x)%nat l -> Forall (fun x => key x < m + n)%nat l ->
  concat ((fun b => filter (fun x => key x = b) l) <$> seq m n) = l.
Proof using Type.
  revert m l. induction n as [|n IH]; intros m l Hl Hm Hn; cbn [seq].
  { destruct l as [|x l]; [done|]. apply Forall_cons in Hm as [? _], Hn as [? _]. lia. }
  destruct (sorted_split m l Hl Hm) as (l1&l2&->&H1&H2).
  apply Forall_app in Hn as [_ Hn]. apply StronglySorted_app_1_r in Hl.
  rewrite fmap_cons. cbn [concat]. f_equal.
  - rewrite filter_app, filter_all by done. rewrite filter_none; [by rewrite app_nil_r|].
    rewrite Forall_forall in H2. intros x Hx%H2. lia.
  - transitivity (concat ((fun b => filter (fun x => key x = b) l2) <$> seq (S m) n)).
    2: { apply (IH (S m) l2 Hl H2). eapply Forall_impl; [exact Hn|]. cbn. intros. lia. }
    f_equal.
    apply list_fmap_ext. intros _ b Hb%list_elem_of_lookup_2. apply elem_of_seq in Hb. rewrite filter_app.
    rewrite filter_none; [done|]. rewrite Forall_forall in H1. intros x Hx%H1. lia.
Qed.
End keyed.
