(* ===== verification/Tags.v ===== *)
(** * Wire constants of structural-columns v1

    The root kinds, component kinds, constructor tags, vocabulary IRIs and tag
    families of native/src/encoded_direct.rs (lines 16-196 and 15086-15183). *)

From S2P Require Import Prelude Errors.
Local Open Scope string_scope.
Local Open Scope list_scope.
Local Open Scope N_scope.

Definition BUFFER_COUNT : usize := 11.
Definition BUFFER_NAMES : list string :=
  [ "root_kinds"; "root_ids"; "node_tags"; "node_field_offsets"; "field_kinds";
    "field_values"; "field_lengths"; "item_kinds"; "item_values"; "item_lengths";
    "scalar_bytes" ].


Definition ROOT_ONTOLOGY_ANNOTATION : u8 := 1.
Definition ROOT_AXIOM : u8 := 2.
Definition ROOT_EXTENSION : u8 := 3.

Definition COMPONENT_NONE : u8 := 0.
Definition COMPONENT_NODE : u8 := 1.
Definition COMPONENT_TEXT : u8 := 2.
Definition COMPONENT_BYTES : u8 := 3.
Definition COMPONENT_INTEGER : u8 := 4.
Definition COMPONENT_ENUM : u8 := 5.
Definition COMPONENT_SET : u8 := 6.
Definition COMPONENT_SEQUENCE : u8 := 7.

Definition TAG_IRI : u16 := 1.
Definition TAG_ENTITY : u16 := 2.
Definition TAG_ANONYMOUS_INDIVIDUAL : u16 := 3.
Definition TAG_LITERAL : u16 := 4.
Definition TAG_ANNOTATION : u16 := 5.
Definition TAG_OBJECT_INVERSE_OF : u16 := 10.
Definition TAG_OBJECT_PROPERTY_CHAIN : u16 := 11.
Definition TAG_FACET_RESTRICTION : u16 := 20.
Definition TAG_DATA_INTERSECTION_OF : u16 := 21.
Definition TAG_DATA_UNION_OF : u16 := 22.
Definition TAG_DATA_COMPLEMENT_OF : u16 := 23.
Definition TAG_DATA_ONE_OF : u16 := 24.
Definition TAG_DATATYPE_RESTRICTION : u16 := 25.
Definition TAG_OBJECT_INTERSECTION_OF : u16 := 30.
Definition TAG_OBJECT_UNION_OF : u16 := 31.
Definition TAG_OBJECT_COMPLEMENT_OF : u16 := 32.
Definition TAG_OBJECT_ONE_OF : u16 := 33.
Definition TAG_OBJECT_SOME_VALUES_FROM : u16 := 34.
Definition TAG_OBJECT_ALL_VALUES_FROM : u16 := 35.
Definition TAG_OBJECT_HAS_VALUE : u16 := 36.
Definition TAG_OBJECT_HAS_SELF : u16 := 37.
Definition TAG_OBJECT_MIN_CARDINALITY : u16 := 38.
Definition TAG_OBJECT_MAX_CARDINALITY : u16 := 39.
Definition TAG_OBJECT_EXACT_CARDINALITY : u16 := 40.
Definition TAG_DATA_SOME_VALUES_FROM : u16 := 41.
Definition TAG_DATA_ALL_VALUES_FROM : u16 := 42.
Definition TAG_DATA_HAS_VALUE : u16 := 43.
Definition TAG_DATA_MIN_CARDINALITY : u16 := 44.
Definition TAG_DATA_MAX_CARDINALITY : u16 := 45.
Definition TAG_DATA_EXACT_CARDINALITY : u16 := 46.
Definition TAG_DECLARATION : u16 := 60.
Definition TAG_SUB_CLASS_OF : u16 := 61.
Definition TAG_EQUIVALENT_CLASSES : u16 := 62.
Definition TAG_DISJOINT_CLASSES : u16 := 63.
Definition TAG_DISJOINT_UNION : u16 := 64.
Definition TAG_SUB_OBJECT_PROPERTY_OF : u16 := 70.
Definition TAG_EQUIVALENT_OBJECT_PROPERTIES : u16 := 71.
Definition TAG_DISJOINT_OBJECT_PROPERTIES : u16 := 72.
Definition TAG_INVERSE_OBJECT_PROPERTIES : u16 := 73.
Definition TAG_OBJECT_PROPERTY_DOMAIN : u16 := 74.
Definition TAG_OBJECT_PROPERTY_RANGE : u16 := 75.
Definition TAG_FUNCTIONAL_OBJECT_PROPERTY : u16 := 76.
Definition TAG_INVERSE_FUNCTIONAL_OBJECT_PROPERTY : u16 := 77.
Definition TAG_REFLEXIVE_OBJECT_PROPERTY : u16 := 78.
Definition TAG_IRREFLEXIVE_OBJECT_PROPERTY : u16 := 79.
Definition TAG_SYMMETRIC_OBJECT_PROPERTY : u16 := 80.
Definition TAG_ASYMMETRIC_OBJECT_PROPERTY : u16 := 81.
Definition TAG_TRANSITIVE_OBJECT_PROPERTY : u16 := 82.
Definition TAG_SUB_DATA_PROPERTY_OF : u16 := 90.
Definition TAG_EQUIVALENT_DATA_PROPERTIES : u16 := 91.
Definition TAG_DISJOINT_DATA_PROPERTIES : u16 := 92.
Definition TAG_DATA_PROPERTY_DOMAIN : u16 := 93.
Definition TAG_DATA_PROPERTY_RANGE : u16 := 94.
Definition TAG_FUNCTIONAL_DATA_PROPERTY : u16 := 95.
Definition TAG_DATATYPE_DEFINITION : u16 := 100.
Definition TAG_HAS_KEY : u16 := 101.
Definition TAG_SAME_INDIVIDUAL : u16 := 110.
Definition TAG_DIFFERENT_INDIVIDUALS : u16 := 111.
Definition TAG_CLASS_ASSERTION : u16 := 112.
Definition TAG_OBJECT_PROPERTY_ASSERTION : u16 := 113.
Definition TAG_NEGATIVE_OBJECT_PROPERTY_ASSERTION : u16 := 114.
Definition TAG_DATA_PROPERTY_ASSERTION : u16 := 115.
Definition TAG_NEGATIVE_DATA_PROPERTY_ASSERTION : u16 := 116.
Definition TAG_ANNOTATION_ASSERTION : u16 := 120.
Definition TAG_SUB_ANNOTATION_PROPERTY_OF : u16 := 121.
Definition TAG_ANNOTATION_PROPERTY_DOMAIN : u16 := 122.
Definition TAG_ANNOTATION_PROPERTY_RANGE : u16 := 123.
Definition TAG_VARIABLE : u16 := 140.
Definition TAG_CLASS_ATOM : u16 := 141.
Definition TAG_DATA_RANGE_ATOM : u16 := 142.
Definition TAG_OBJECT_PROPERTY_ATOM : u16 := 143.
Definition TAG_DATA_PROPERTY_ATOM : u16 := 144.
Definition TAG_BUILT_IN_ATOM : u16 := 145.
Definition TAG_SAME_INDIVIDUAL_ATOM : u16 := 146.
Definition TAG_DIFFERENT_INDIVIDUALS_ATOM : u16 := 147.
Definition TAG_SWRL_RULE : u16 := 148.

Definition SUBCLASS_OF : text := str "http://subclassof".
Definition SUPERCLASS_OF : text := str "http://superclassof".
Definition RDF_TYPE : text := str "http://type".
Definition RDF_PLAIN_LITERAL : text := str "http://www.w3.org/1999/02/22-rdf-syntax-ns#PlainLiteral".
Definition XSD_STRING : text := str "http://www.w3.org/2001/XMLSchema#string".
Definition XSD_NAMESPACE : text := str "http://www.w3.org/2001/XMLSchema#".

Definition ANNOTATION_PROPERTIES : list text := map str
  [ "http://www.w3.org/2000/01/rdf-schema#label";
    "http://www.w3.org/2004/02/skos/core#prefLabel";
    "rdfs:label";
    "rdfs:comment";
    "http://purl.obolibrary.org/obo/IAO_0000111";
    "http://purl.obolibrary.org/obo/IAO_0000589";
    "http://www.geneontology.org/formats/oboInOwl#hasRelatedSynonym";
    "http://www.geneontology.org/formats/oboInOwl#hasExactSynonym";
    "http://www.geneontology.org/formats/oboInOWL#hasExactSynonym";
    "http://purl.bioontology.org/ontology/SYN#synonym";
    "http://scai.fraunhofer.de/CSEO#Synonym";
    "http://purl.obolibrary.org/obo/synonym";
    "http://ncicb.nci.nih.gov/xml/owl/EVS/Thesaurus.owl#FULL_SYN";
    "http://www.ebi.ac.uk/efo/alternative_term";
    "http://ncicb.nci.nih.gov/xml/owl/EVS/Thesaurus.owl#Synonym";
    "http://bioontology.org/projects/ontologies/fma/fmaOwlDlComponent_2_0#Synonym";
    "http://www.geneontology.org/formats/oboInOwl#hasDefinition";
    "http://bioontology.org/projects/ontologies/birnlex#preferred_label";
    "http://bioontology.org/projects/ontologies/birnlex#synonyms";
    "http://www.w3.org/2004/02/skos/core#altLabel";
    "https://cfpub.epa.gov/ecotox#latinName";
    "https://cfpub.epa.gov/ecotox#commonName";
    "https://www.ncbi.nlm.nih.gov/taxonomy#scientific_name";
    "https://www.ncbi.nlm.nih.gov/taxonomy#synonym";
    "https://www.ncbi.nlm.nih.gov/taxonomy#equivalent_name";
    "https://www.ncbi.nlm.nih.gov/taxonomy#genbank_synonym";
    "https://www.ncbi.nlm.nih.gov/taxonomy#common_name";
    "http://purl.obolibrary.org/obo/IAO_0000118";
    "http://www.w3.org/2000/01/rdf-schema#comment";
    "http://www.geneontology.org/formats/oboInOwl#hasDbXref";
    "http://purl.org/dc/elements/1.1/description";
    "http://purl.org/dc/terms/description";
    "http://purl.org/dc/elements/1.1/title";
    "http://purl.org/dc/terms/title";
    "http://purl.obolibrary.org/obo/IAO_0000115";
    "http://purl.obolibrary.org/obo/IAO_0000600";
    "http://purl.obolibrary.org/obo/IAO_0000602";
    "http://purl.obolibrary.org/obo/IAO_0000601";
    "http://www.geneontology.org/formats/oboInOwl#hasOBONamespace" ].

Definition ENTITY_KINDS : list bytes := map str
  [ "class"; "datatype"; "object_property"; "data_property"; "annotation_property";
    "named_individual" ].

Definition SCHEMA_TAGS : list u16 :=
  [ 1; 2; 3; 4; 5; 10; 11; 20; 21; 22; 23; 24; 25; 30; 31; 32;
    33; 34; 35; 36; 37; 38; 39; 40; 41; 42; 43; 44; 45; 46; 60; 61;
    62; 63; 64; 70; 71; 72; 73; 74; 75; 76; 77; 78; 79; 80; 81; 82;
    90; 91; 92; 93; 94; 95; 100; 101; 110; 111; 112; 113; 114; 115; 116; 120;
    121; 122; 123; 140; 141; 142; 143; 144; 145; 146; 147; 148 ].

(** ** Tag families *)

Definition is_restriction_tag (tag : u16) : bool :=
  contains [ TAG_OBJECT_SOME_VALUES_FROM; TAG_OBJECT_ALL_VALUES_FROM;
    TAG_OBJECT_MIN_CARDINALITY; TAG_OBJECT_MAX_CARDINALITY ] tag.

Definition is_nonprojecting_class_tag (tag : u16) : bool :=
  contains [ TAG_OBJECT_COMPLEMENT_OF; TAG_OBJECT_ONE_OF; TAG_OBJECT_HAS_VALUE;
    TAG_OBJECT_HAS_SELF; TAG_OBJECT_EXACT_CARDINALITY; TAG_DATA_SOME_VALUES_FROM;
    TAG_DATA_ALL_VALUES_FROM; TAG_DATA_HAS_VALUE; TAG_DATA_MIN_CARDINALITY;
    TAG_DATA_MAX_CARDINALITY; TAG_DATA_EXACT_CARDINALITY ] tag.

Definition is_data_class_expression_tag (tag : u16) : bool :=
  contains [ TAG_DATA_SOME_VALUES_FROM; TAG_DATA_ALL_VALUES_FROM; TAG_DATA_HAS_VALUE;
    TAG_DATA_MIN_CARDINALITY; TAG_DATA_MAX_CARDINALITY; TAG_DATA_EXACT_CARDINALITY ] tag.

Definition is_data_range_tag (tag : u16) : bool :=
  contains [ TAG_DATA_INTERSECTION_OF; TAG_DATA_UNION_OF; TAG_DATA_COMPLEMENT_OF;
    TAG_DATA_ONE_OF; TAG_DATATYPE_RESTRICTION ] tag.

Definition is_recursive_data_range_tag (tag : u16) : bool :=
  contains [ TAG_DATA_INTERSECTION_OF; TAG_DATA_UNION_OF; TAG_DATA_COMPLEMENT_OF ] tag.

Definition is_aggregate_tag (tag : u16) : bool :=
  contains [ TAG_OBJECT_INTERSECTION_OF; TAG_OBJECT_UNION_OF ] tag.

Definition is_object_property_characteristic (tag : u16) : bool :=
  contains [ TAG_FUNCTIONAL_OBJECT_PROPERTY; TAG_INVERSE_FUNCTIONAL_OBJECT_PROPERTY;
    TAG_REFLEXIVE_OBJECT_PROPERTY; TAG_IRREFLEXIVE_OBJECT_PROPERTY;
    TAG_SYMMETRIC_OBJECT_PROPERTY; TAG_ASYMMETRIC_OBJECT_PROPERTY;
    TAG_TRANSITIVE_OBJECT_PROPERTY ] tag.

Definition is_swrl_atom_tag (tag : u16) : bool :=
  contains [ TAG_CLASS_ATOM; TAG_DATA_RANGE_ATOM; TAG_OBJECT_PROPERTY_ATOM;
    TAG_DATA_PROPERTY_ATOM; TAG_BUILT_IN_ATOM; TAG_SAME_INDIVIDUAL_ATOM;
    TAG_DIFFERENT_INDIVIDUALS_ATOM ] tag.

Definition is_class_expression_tag (tag : u16) : bool :=
  is_aggregate_tag tag || is_restriction_tag tag || is_nonprojecting_class_tag tag.

Definition is_recursive_class_expression_tag (tag : u16) : bool :=
  is_aggregate_tag tag || is_restriction_tag tag
  || contains [ TAG_OBJECT_COMPLEMENT_OF; TAG_OBJECT_EXACT_CARDINALITY ] tag.
