(* ===== verification/Text.v ===== *)
(** * Text: UTF-8, the Java string hashes and the rendered identifiers

    The free functions on strings of native/src/encoded_direct.rs: the
    OWLAPI/Java hash combinators that reproduce the historical role order,
    the canonical length comparison, the anonymous identifiers and the pinned
    rendering of typed literals. *)

From stdpp Require Import list.
From S2P Require Import Prelude Errors Tags.
From Stdlib Require Import ZArith.
Local Open Scope string_scope.
Local Open Scope list_scope.
Local Open Scope N_scope.

(** ** UTF-8 (the standard library's [str]) *)

(** A Unicode scalar value. *)
Abbreviation char := N (only parsing).

Definition in_range (lo hi x : N) : bool := (lo <=? x) && (x <=? hi).

Definition is_scalar (c : char) : bool :=
  (c <? 0x110000) && negb (in_range 0xD800 0xDFFF c).

(** Is [b] a continuation byte in [lo..hi]; the payload of one. *)
Definition continuation (lo hi : N) (b : byte) : bool := in_range lo hi (u8_of_byte b).
Definition payload6 (b : byte) : N := N.land (u8_of_byte b) 0x3F.

(** The well-formed byte sequences of the Unicode standard (table 3-7), as
    [std::str::from_utf8] accepts them. *)
Fixpoint utf8_decode (l : bytes) : option (list char) :=
  match l with
  | [] => Some []
  | b0 :: l0 =>
      let x := u8_of_byte b0 in
      if x <? 0x80 then cons x <$> utf8_decode l0 else
      match l0 with
      | [] => None
      | b1 :: l1 =>
          if in_range 0xC2 0xDF x then
            if continuation 0x80 0xBF b1
            then cons (N.land x 0x1F * 64 + payload6 b1) <$> utf8_decode l1
            else None
          else
          match l1 with
          | [] => None
          | b2 :: l2 =>
              if in_range 0xE0 0xEF x then
                if continuation (if x =? 0xE0 then 0xA0 else 0x80)
                                (if x =? 0xED then 0x9F else 0xBF) b1
                   && continuation 0x80 0xBF b2
                then cons (N.land x 0x0F * 4096 + payload6 b1 * 64 + payload6 b2)
                       <$> utf8_decode l2
                else None
              else
              match l2 with
              | [] => None
              | b3 :: l3 =>
                  if in_range 0xF0 0xF4 x then
                    if continuation (if x =? 0xF0 then 0x90 else 0x80)
                                    (if x =? 0xF4 then 0x8F else 0xBF) b1
                       && continuation 0x80 0xBF b2 && continuation 0x80 0xBF b3
                    then cons (N.land x 0x07 * 262144 + payload6 b1 * 4096
                               + payload6 b2 * 64 + payload6 b3) <$> utf8_decode l3
                    else None
                  else None
              end
          end
      end
  end.

(** [char::encode_utf8]. *)
Definition utf8_encode_char (c : char) : bytes :=
  if c <? 0x80 then [byte_of_u8 c]
  else if c <? 0x800 then
    [byte_of_u8 (0xC0 + c / 64); byte_of_u8 (0x80 + c mod 64)]
  else if c <? 0x10000 then
    [byte_of_u8 (0xE0 + c / 4096); byte_of_u8 (0x80 + c / 64 mod 64);
     byte_of_u8 (0x80 + c mod 64)]
  else
    [byte_of_u8 (0xF0 + c / 262144); byte_of_u8 (0x80 + c / 4096 mod 64);
     byte_of_u8 (0x80 + c / 64 mod 64); byte_of_u8 (0x80 + c mod 64)].

Definition utf8_encode (cs : list char) : text := flat_map utf8_encode_char cs.

(** [std::str::from_utf8(payload).map_err(..)]: a [str] keeps its bytes. *)
Definition from_utf8 (payload : bytes) (error : KernelError) : outcome text :=
  match utf8_decode payload with Some _ => Ok payload | None => Err error end.

(** [str::chars]; the default is never reached on a [str]. *)
Definition chars (t : text) : list char := default [] (utf8_decode t).

(** [str::encode_utf16]: surrogate pairs beyond the basic plane. *)
Definition encode_utf16 (t : text) : list u16 :=
  flat_map (fun c =>
    if c <? 0x10000 then [c]
    else [0xD800 + (c - 0x10000) / 1024; 0xDC00 + (c - 0x10000) mod 1024]) (chars t).

(** [char::to_lowercase] reads the standard library's Unicode tables, which
    are not part of the repository: a parameter of the model. *)
Class LowercaseTable := to_lowercase : char -> list char.

(** [language.chars().flat_map(char::to_lowercase).eq(language.chars())]. *)
Definition is_lowercase `{LowercaseTable} (t : text) : bool :=
  bool_decide (flat_map to_lowercase (chars t) = chars t).

(** ** Java hashes on [i32] *)

Definition wrap_i32 (z : Z) : Z := ((z + 2147483648) mod 4294967296 - 2147483648)%Z.
Definition i32_wrapping_mul (a b : Z) : Z := wrap_i32 (a * b).
Definition i32_wrapping_add (a b : Z) : Z := wrap_i32 (a + b).

Definition java_string_hash (value : text) : Z :=
  fold_left (fun result unit_ =>
    i32_wrapping_add (i32_wrapping_mul result 31) (Z.of_N unit_)) (encode_utf16 value) 0%Z.

Definition combine_hash (seed : Z) (components : list Z) : Z :=
  fold_left (fun result component =>
    i32_wrapping_add (i32_wrapping_mul result 31) component) components seed.

(** The end of the last ['#'], ['/'] or [':'] of the text, as [char_indices()
    .rev().find_map(..)] finds it, 0 when there is none.  The three are ASCII,
    so the offset just after one is a character boundary. *)
Definition is_separator (b : byte) : bool :=
  contains (str "#/:") b.

Fixpoint split_offset (value : text) : option nat :=
  match value with
  | [] => None
  | b :: rest =>
      match split_offset rest with
      | Some n => Some (S n)
      | None => if is_separator b then Some 1%nat else None
      end
  end.

Definition owlapi_iri_hash (value : text) : Z :=
  let split_at := default 0%nat (split_offset value) in
  let namespace := take split_at value in
  let remainder := drop split_at value in
  i32_wrapping_add (java_string_hash namespace) (java_string_hash remainder).

(** ** Canonical lengths *)

(** The loop of [encode] with [slots] entries of its 10-byte array left; a
    write past the array would panic. *)
Fixpoint encode_varint (slots : nat) (value : usize) : outcome bytes :=
  match slots with
  | O => Panic
  | S slots =>
      let low := N.land value 0x7F in
      let rest := N.shiftr value 7 in
      if rest =? 0 then Ok [byte_of_u8 low]
      else tail ← encode_varint slots rest; Ok (byte_of_u8 (N.lor low 0x80) :: tail)
  end.

Definition compare_canonical_varints (left right : usize) : outcome comparison :=
  left_bytes ← encode_varint 10 left;
  right_bytes ← encode_varint 10 right;
  Ok (bytes_cmp left_bytes right_bytes).

(** ** Owned text *)

(** Allocation is assumed to succeed, so a clone is the text itself. *)
Definition clone_text (value : text) : outcome text := Ok value.

Definition clone_retained_role_iri (value : text) (maximum : usize) : outcome text :=
  if maximum <? len value then
    Err (resource ("encoded retained role IRI contains " +:+ pretty (len value)
                   +:+ " bytes; limit is " +:+ pretty maximum))
  else clone_text value.

(** ** Anonymous identifiers *)

Definition render_anonymous_identifier (position : usize) : outcome text :=
  identifier ← ok_or (checked_add 2147483648 position)
                 (resource "encoded anonymous identifier overflow");
  Ok (str "_:genid" ++ str (pretty identifier)).

(** ** Typed literals *)

(** One character of the lexical form: backslashes vanish, and an escaped
    control character keeps the letter of its escape. *)
Definition render_lexical_char (character : char) : list char :=
  if character =? 0x5C then []
  else if character =? 0x0A then [0x6E]
  else if character =? 0x0D then [0x72]
  else if character =? 0x09 then [0x74]
  else [character].

(** [str::strip_prefix]. *)
Fixpoint strip_prefix (prefix value : list char) : option (list char) :=
  match prefix, value with
  | [], _ => Some value
  | p :: prefix, c :: value => if p =? c then strip_prefix prefix value else None
  | _ :: _, [] => None
  end.

(** [String::pop]: drops the last character. *)
Definition pop_char (cs : list char) : list char := removelast cs.

Definition render_typed_annotation_literal (lexical datatype : text) : outcome text :=
  datatype_capacity ← ok_or (checked_add (len datatype) 5)
    (resource "encoded annotation rendering size overflow");
  _ ← ok_or (size ← checked_add (len lexical) 3; checked_add size datatype_capacity)
    (resource "encoded annotation rendering size overflow");
  let output := flat_map render_lexical_char (chars lexical) ++ [0x22; 0x5E; 0x5E] in
  let output :=
    match strip_prefix (chars XSD_NAMESPACE) (chars datatype) with
    | Some suffix => pop_char (output ++ chars (str "xsd:") ++ suffix)
    | None => output ++ chars (str "<") ++ chars datatype
    end in
  Ok (utf8_encode output).
