(* ===== verification/Workspace.v ===== *)
(** * The workspace of a local overlay

    [LocalOverlayWorkspace] of native/src/encoded_direct.rs: the bytes an overlay
    or a composite owns, charged before they are allocated.  An allocation is
    assumed to succeed with the capacity it asks for, so the second claim of a
    method, of what the allocator gave beyond it, is one of nothing. *)

From S2P Require Import Prelude Errors Text Partial.
Local Open Scope string_scope.
Local Open Scope list_scope.
Local Open Scope N_scope.

(** ** Sizes

    The sizes of the structs are the compiler's choice. *)

Class Layout := {
  size_of_LengthEvent : usize;
  size_of_EmitTask : usize;
  size_of_CanonicalTable : usize;
  size_of_RootOption : usize;
  size_of_named_operand : usize;
  size_of_restriction_operand : usize;
  size_of_coordinate_option : usize;
  size_of_aggregate_root : usize;
  size_of_role_root : usize;
  size_of_shape_root : usize;
  size_of_emission_root : usize;
  size_of_rule_plan : usize;
  size_of_columns : usize;
  size_of_scope_construct : usize;
  size_of_scope_target : usize;
  size_of_root_coordinate : usize;
  size_of_node_coordinate : usize;
  size_of_tail_plan : usize;
  size_of_role_axiom : usize;
  size_of_overlay_delta : usize;
  size_of_local_class : usize;
  size_of_restriction : usize;
  size_of_occurrence : usize;
  size_of_group : usize;
}.
Definition size_of_usize : usize := 8.
Definition size_of_u8 : usize := 1.
Definition size_of_bool : usize := 1.
Definition size_of_String : usize := 24.

(** ** The workspace *)

(** With the layout of the program whose allocations it counts. *)
Record LocalOverlayWorkspace := {
  limit : usize;
  claimed : usize;
  layout : Layout;
}.

Abbreviation Owned := (Spend LocalOverlayWorkspace) (only parsing).

Definition workspace_new `{Layout} (limit : usize) : outcome LocalOverlayWorkspace :=
  if limit =? 0 then Err (resource "encoded local-overlay workspace limit must be positive")
  else Ok {| limit := limit; claimed := 0; layout := _ |}.

Definition workspace_overflow : KernelError := resource "encoded local-overlay workspace overflow".

Definition ownership_limit (self : LocalOverlayWorkspace) : KernelError :=
  resource ("encoded local-overlay ownership requires more than "
    +:+ pretty self.(limit) +:+ " workspace bytes").

Definition workspace_claim (self : LocalOverlayWorkspace) (amount : usize) : outcome LocalOverlayWorkspace :=
  next ← ok_or (checked_add self.(claimed) amount) workspace_overflow;
  if self.(limit) <? next then Err (ownership_limit self)
  else Ok {| limit := self.(limit); claimed := next; layout := self.(layout) |}.

Definition claim_owned (amount : usize) : Owned unit := charge (fun self => workspace_claim self amount).

Definition own_text (value : text) : Owned text :=
  _ ← claim_owned (len value); mret value.

Definition anonymous_identifier (position : usize) : Owned text :=
  _ ← claim_owned 27; ⇑render_anonymous_identifier position.

(** An empty vector with room for the items. *)
Definition reserve_owned (size : Layout -> usize) (item_count : usize) : Owned unit := fun self =>
  requested ← !ok_or (checked_mul item_count (size self.(layout))) workspace_overflow;
  claim_owned requested self.

(** The claim of [push_owned]; the capacity of a vector that only grows by
    [push_owned] is its length. *)
Definition push_owned (self : LocalOverlayWorkspace) (size : Layout -> usize)
    : outcome LocalOverlayWorkspace := workspace_claim self (size self.(layout)).

(** The claim of [push_planned]: without a workspace the push is free. *)
Definition push_planned (workspace : option LocalOverlayWorkspace) (size : Layout -> usize)
    : outcome (option LocalOverlayWorkspace) :=
  match workspace with
  | Some workspace => workspace ← push_owned workspace size; Ok (Some workspace)
  | None => Ok None
  end.

Definition remaining_for_canonical_merge : Owned usize := fun self =>
  let remaining := saturating_sub self.(limit) self.(claimed) in
  if remaining =? 0 then !Err (ownership_limit self) else mret (remaining, self).
