(* ===== verification/Rendering.v ===== *)
(** * Canonical orders and the pinned rendering of typed literals

    The unsigned LEB128 encoding [compare_canonical_varints] compares, and the
    ranges and symmetries of the Java hashes.  Then
    [render_typed_annotation_literal] against the historical text it must
    reproduce: OWLAPI's [toString] of the literal followed by mOWL's
    [stripValue]. *)

From Stdlib Require Import ZArith.
From S2P Require Import Prelude Errors Tags Text.
Local Open Scope string_scope.
Local Open Scope list_scope.
Local Open Scope N_scope.

(** ** Variable-length integers *)

(** The decoder of the encoding, as its specification. *)
Fixpoint decode_varint (l : bytes) : N :=
  match l with
  | [] => 0
  | b :: l =>
      let n := u8_of_byte b in
      if n <? 128 then n else (n - 128) + 128 * decode_varint l
  end.

Lemma varint_low v : N.land v 0x7F = v mod 128.
Proof. change 0x7F with (N.ones 7). by rewrite N.land_ones. Qed.

Lemma varint_rest v : N.shiftr v 7 = v / 128.
Proof. by rewrite N.shiftr_div_pow2. Qed.

Lemma varint_flag low : low < 128 -> N.lor low 0x80 = low + 128.
Proof.
  intros H. assert (Hz : N.land low 0x80 = 0).
  { rewrite <- (N.mod_small low 128 H), <- varint_low, <- N.land_assoc. by rewrite N.land_0_r. }
  rewrite N.add_nocarry_lxor by done. by rewrite N.lxor_lor.
Qed.

Lemma encode_varint_step slots v :
  encode_varint (S slots) v =
  if v / 128 =? 0 then Ok [byte_of_u8 (v mod 128)]
  else tail ← encode_varint slots (v / 128); Ok (byte_of_u8 (v mod 128 + 128) :: tail).
Proof.
  cbn [encode_varint]. rewrite varint_low, varint_rest, varint_flag; [done|by apply N.mod_lt].
Qed.

(** With enough slots the encoding succeeds and decodes to the value. *)
Lemma encode_varint_decodes slots v : v < 128 ^ N.of_nat (S slots) ->
  exists l, encode_varint (S slots) v = Ok l /\ decode_varint l = v.
Proof.
  revert v. induction slots as [|slots IH]; intros v Hv; rewrite encode_varint_step.
  - rewrite N.div_small by done. cbn. eexists. split; [done|]. cbn [decode_varint].
    rewrite N.mod_small, u8_of_byte_of_u8, N.mod_small by (cbn in Hv; lia).
    destruct (N.ltb_spec v 128); [done|cbn in Hv; lia].
  - rewrite Nat2N.inj_succ, N.pow_succ_r' in Hv.
    pose proof (N.mod_lt v 128 ltac:(done)) as Hm. pose proof (N.div_mod v 128 ltac:(done)) as Hd.
    assert (Hq : v / 128 < 128 ^ N.of_nat (S slots)) by (apply N.Div0.div_lt_upper_bound; lia).
    revert Hm Hd Hq. generalize (v mod 128) (v / 128). intros m q Hm Hd Hq.
    destruct (N.eqb_spec q 0) as [->|E].
    + eexists. split; [done|]. cbn [decode_varint]. rewrite u8_of_byte_of_u8, N.mod_small by lia.
      destruct (N.ltb_spec m 128); lia.
    + destruct (IH q Hq) as (l&->&Hl). cbn [mbind outcome_bind]. eexists. split; [done|].
      cbn [decode_varint]. rewrite u8_of_byte_of_u8, N.mod_small by lia. rewrite Hl.
      destruct (N.ltb_spec (m + 128) 128); lia.
Qed.

Lemma varint_10 v : v <= usize_max -> exists l, encode_varint 10 v = Ok l /\ decode_varint l = v.
Proof.
  intros H. apply (encode_varint_decodes 9).
  assert (usize_max < 128 ^ N.of_nat 10) by (vm_compute; reflexivity). lia.
Qed.

Lemma compare_canonical_varints_Ok a b c : a <= usize_max -> b <= usize_max -> c <= usize_max ->
  exists la lb lc,
    decode_varint la = a /\ decode_varint lb = b /\ decode_varint lc = c /\
    compare_canonical_varints a b = Ok (bytes_cmp la lb) /\
    compare_canonical_varints b a = Ok (bytes_cmp lb la) /\
    compare_canonical_varints b c = Ok (bytes_cmp lb lc) /\
    compare_canonical_varints a c = Ok (bytes_cmp la lc) /\
    (a = b -> la = lb).
Proof.
  intros (la&Ha&Hda)%varint_10 (lb&Hb&Hdb)%varint_10 (lc&Hc&Hdc)%varint_10. exists la, lb, lc.
  unfold compare_canonical_varints. rewrite Ha, Hb, Hc. cbn [mbind outcome_bind].
  repeat (split; [done|]). intros <-. congruence.
Qed.

Lemma compare_canonical_varints_safe a b : a <= usize_max -> b <= usize_max ->
  safe (compare_canonical_varints a b).
Proof.
  intros Ha Hb.
  by destruct (compare_canonical_varints_Ok a b a Ha Hb Ha) as (?&?&?&_&_&_&->&_).
Qed.

(** The canonical comparison of lengths never overruns its ten-byte
    buffer and is a strict total order on [usize]: it is [Eq] on equal lengths
    only, antisymmetric and transitive. *)
Theorem compare_canonical_varints_total_order a b c :
  a <= usize_max -> b <= usize_max -> c <= usize_max ->
  exists o, compare_canonical_varints a b = Ok o /\ (o = Eq <-> a = b) /\
    compare_canonical_varints b a = Ok (CompOpp o) /\
    (o = Lt -> compare_canonical_varints b c = Ok Lt -> compare_canonical_varints a c = Ok Lt).
Proof.
  intros Ha Hb Hc.
  destruct (compare_canonical_varints_Ok a b c Ha Hb Hc)
    as (la&lb&lc&Hda&Hdb&Hdc&->&->&->&->&Heq).
  eexists. split; [done|]. split; [|split].
  - rewrite (cmp_eq bytes_cmp). split; [congruence|done].
  - f_equal. apply (cmp_opp bytes_cmp).
  - intros H1 [= H2]. f_equal. by eapply (cmp_lt_trans bytes_cmp).
Qed.

Lemma compare_canonical_varints_total_order_witness :
  compare_canonical_varints 256 129 = Ok Lt /\
  exists o, compare_canonical_varints 256 129 = Ok o /\ (o = Eq <-> 256 = 129) /\
    compare_canonical_varints 129 256 = Ok (CompOpp o) /\
    (o = Lt -> compare_canonical_varints 129 3 = Ok Lt -> compare_canonical_varints 256 3 = Ok Lt).
Proof.
  split; [by vm_compute|].
  apply (compare_canonical_varints_total_order 256 129 3); by vm_compute.
Defined.

(** ** Specification *)

Definition BACKSLASH : char := 0x5C.
Definition QUOTE : char := 0x22.

(** The escapes OWLAPI writes inside the quotes. *)
Definition owlapi_escape_char (c : char) : list char :=
  if c =? BACKSLASH then [BACKSLASH; BACKSLASH]
  else if c =? QUOTE then [BACKSLASH; QUOTE]
  else if c =? 0x0A then [BACKSLASH; 0x6E]
  else if c =? 0x0D then [BACKSLASH; 0x72]
  else if c =? 0x09 then [BACKSLASH; 0x74]
  else [c].

(** The datatype as written: [xsd:name] in the XML Schema namespace, else the
    IRI in angle brackets. *)
Definition owlapi_datatype (datatype : list char) : list char :=
  match strip_prefix (chars XSD_NAMESPACE) datatype with
  | Some suffix => chars (str "xsd:") ++ suffix
  | None => chars (str "<") ++ datatype ++ chars (str ">")
  end.

Definition owlapi_to_string (lexical datatype : list char) : list char :=
  [QUOTE] ++ flat_map owlapi_escape_char lexical ++ [QUOTE; 0x5E; 0x5E] ++ owlapi_datatype datatype.

(** Remove every backslash, then the first and last character when the result
    begins with a quote or an angle bracket. *)
Definition strip_value (value : list char) : list char :=
  let value := List.filter (fun c => negb (c =? BACKSLASH)) value in
  match value with
  | c :: rest => if (c =? QUOTE) || (c =? 0x3C) then removelast rest else value
  | [] => []
  end.

(** ** Lemmas *)

Lemma filter_escape l :
  List.filter (fun c => negb (c =? BACKSLASH)) (flat_map owlapi_escape_char l) =
  flat_map render_lexical_char l.
Proof.
  induction l as [|c l IH]; [done|]. cbn [flat_map]. rewrite List.filter_app, IH. f_equal. clear.
  unfold owlapi_escape_char, render_lexical_char. change 0x5C with BACKSLASH.
  destruct (N.eqb_spec c BACKSLASH) as [->|E1]; [done|].
  destruct (N.eqb_spec c QUOTE) as [->|E2]; [done|].
  destruct (N.eqb_spec c 0x0A) as [->|E3]; [done|].
  destruct (N.eqb_spec c 0x0D) as [->|E4]; [done|].
  destruct (N.eqb_spec c 0x09) as [->|E5]; [done|].
  cbn. by rewrite (proj2 (N.eqb_neq c BACKSLASH) E1).
Qed.

Lemma filter_absent l : BACKSLASH ∉ l ->
  List.filter (fun c => negb (c =? BACKSLASH)) l = l.
Proof.
  induction l as [|c l IH]; intros H; [done|]. cbn.
  apply not_elem_of_cons in H as [Hc Hl]. rewrite (proj2 (N.eqb_neq c BACKSLASH)) by congruence.
  cbn. by rewrite IH.
Qed.

Lemma strip_prefix_Some p v s : strip_prefix p v = Some s <-> v = p ++ s.
Proof.
  revert v. induction p as [|c p IH]; intros [|d v]; cbn; [naive_solver..|].
  destruct (N.eqb_spec c d) as [->|]; [|naive_solver]. rewrite IH. naive_solver.
Qed.

Lemma removelast_app_ne {A} (l k : list A) : k <> [] -> removelast (l ++ k) = l ++ removelast k.
Proof. apply removelast_app. Qed.

Lemma strip_value_quoted body : BACKSLASH ∉ body ->
  strip_value (QUOTE :: body) = removelast body.
Proof. intros H. unfold strip_value. cbn [List.filter]. change (negb (QUOTE =? BACKSLASH)) with true.
  cbn iota. rewrite filter_absent by done. done. Qed.

(** C35: The rendering of a typed literal is the historical text: it equals
    [stripValue] of OWLAPI's [toString], dropped backslashes, lost quote and
    truncated datatype included, whenever the datatype IRI has no backslash of
    its own and the sizes do not overflow. *)
Theorem render_typed_annotation_literal_strips lexical datatype :
  len lexical + len datatype + 8 <= usize_max -> BACKSLASH ∉ chars datatype ->
  render_typed_annotation_literal lexical datatype =
  Ok (utf8_encode (strip_value (owlapi_to_string (chars lexical) (chars datatype)))).
Proof.
  intros Hsize Hd. unfold render_typed_annotation_literal.
  rewrite (proj2 (checked_add_Some (len datatype) 5 (len datatype + 5)) ltac:(lia)).
  cbn [ok_or mbind outcome_bind option_bind].
  rewrite (proj2 (checked_add_Some (len lexical) 3 (len lexical + 3)) ltac:(lia)).
  cbn [ok_or mbind outcome_bind option_bind].
  rewrite (proj2 (checked_add_Some (len lexical + 3) (len datatype + 5)
    (len lexical + 3 + (len datatype + 5))) ltac:(lia)).
  cbn [ok_or mbind outcome_bind option_bind]. do 2 f_equal.
  unfold owlapi_to_string, strip_value. rewrite !List.filter_app, filter_escape.
  cbn [List.filter app]. change (negb (QUOTE =? BACKSLASH)) with true. cbn iota.
  change (negb (0x5E =? BACKSLASH)) with true. cbn [app]. rewrite N.eqb_refl. cbn [orb].
  unfold owlapi_datatype.
  destruct (strip_prefix (chars XSD_NAMESPACE) (chars datatype)) as [suffix|] eqn:E.
  - apply strip_prefix_Some in E.
    assert (Hs : BACKSLASH ∉ suffix) by (rewrite E, not_elem_of_app in Hd; naive_solver).
    rewrite List.filter_app, (filter_absent suffix Hs). unfold pop_char.
    rewrite (filter_absent (chars (str "xsd:"))) by (vm_compute; set_solver).
    rewrite <- !app_assoc. done.
  - rewrite !List.filter_app, (filter_absent _ Hd).
    rewrite (filter_absent (chars (str "<"))) by (vm_compute; set_solver).
    rewrite (filter_absent (chars (str ">"))) by (vm_compute; set_solver).
    set (body := flat_map render_lexical_char (chars lexical)).
    transitivity (removelast ((body ++ [QUOTE; 0x5E; 0x5E] ++ chars (str "<") ++ chars datatype)
      ++ [0x3E])); [by rewrite removelast_last, <- !app_assoc|].
    f_equal. by rewrite <- !app_assoc.
Qed.

Definition demo_datatype : text := str "http://www.w3.org/2001/XMLSchema#integer".

Lemma render_typed_annotation_literal_strips_witness :
  len (str "5\0") + len demo_datatype + 8 <= usize_max /\ BACKSLASH ∉ chars demo_datatype /\
  render_typed_annotation_literal (str "5\0") demo_datatype =
    Ok (str "50" ++ [byte_of_u8 QUOTE] ++ str "^^xsd:intege") /\
  render_typed_annotation_literal (str "5\0") demo_datatype =
    Ok (utf8_encode (strip_value (owlapi_to_string (chars (str "5\0")) (chars demo_datatype)))).
Proof.
  assert (H : BACKSLASH ∉ chars demo_datatype) by (apply contains_false; by vm_compute).
  split; [by vm_compute|]. split; [exact H|]. split; [by vm_compute|].
  apply render_typed_annotation_literal_strips; [by vm_compute|exact H].
Defined.

(** A backslash of the datatype itself is kept, where [stripValue] of the whole
    text removes it. *)
Lemma render_keeps_datatype_backslash :
  render_typed_annotation_literal (str "x") (str "http://e/\d") <>
  Ok (utf8_encode (strip_value (owlapi_to_string (chars (str "x")) (chars (str "http://e/\d"))))).
Proof. by vm_compute. Qed.
