(* ===== verification/Readers.v ===== *)
(** * Little-endian column readers

    [read_u16], [read_u32] and [read_usize] of native/src/encoded_direct.rs:
    row [index] of a fixed-width column. *)

From S2P Require Import Prelude Errors.
Local Open Scope string_scope.
Local Open Scope list_scope.
Local Open Scope N_scope.

(** [uN::from_le_bytes]. *)
Fixpoint from_le_bytes (l : bytes) : N :=
  match l with
  | [] => 0
  | b :: l => u8_of_byte b + 256 * from_le_bytes l
  end.

(** [uN::to_le_bytes], the producer's side. *)
Fixpoint to_le_bytes (width : nat) (value : N) : bytes :=
  match width with
  | O => []
  | S width => byte_of_u8 value :: to_le_bytes width (value / 256)
  end.

(** The column of a list of values, the producer's side. *)
Definition column (width : nat) (values : list N) : bytes :=
  flat_map (to_le_bytes width) values.

Definition read_u16 (buffer : bytes) (index : usize) (name : string) : outcome u16 :=
  start ← ok_or (checked_mul index 2)
            (malformed ("encoded " +:+ name +:+ " index overflow"));
  row ← ok_or (get_range buffer start (start +w 2))
          (malformed ("encoded " +:+ name +:+ " index is out of range"));
  Ok (from_le_bytes row).

Definition read_u32 (buffer : bytes) (index : usize) (name : string) : outcome u32 :=
  start ← ok_or (checked_mul index 4)
            (malformed ("encoded " +:+ name +:+ " index overflow"));
  row ← ok_or (get_range buffer start (start +w 4))
          (malformed ("encoded " +:+ name +:+ " index is out of range"));
  Ok (from_le_bytes row).

(** [usize] has 64 bits, so [usize::try_from] cannot fail. *)
Definition read_usize (buffer : bytes) (index : usize) (name : string) : outcome usize :=
  start ← ok_or (checked_mul index 8)
            (malformed ("encoded " +:+ name +:+ " index overflow"));
  row ← ok_or (get_range buffer start (start +w 8))
          (malformed ("encoded " +:+ name +:+ " index is out of range"));
  Ok (from_le_bytes row).

(** ** Decoding *)

Lemma from_le_bytes_bound l : from_le_bytes l < 256 ^ len l.
Proof.
  induction l as [|b l IH]; [cbn; lia|].
  rewrite len_cons, N.add_1_l, N.pow_succ_r'. cbn [from_le_bytes].
  pose proof (u8_of_byte_bound b). lia.
Qed.

Lemma length_to_le_bytes w v : length (to_le_bytes w v) = w.
Proof. revert v. induction w; cbn; auto. Qed.

Lemma from_to_le_bytes w v : from_le_bytes (to_le_bytes w v) = v mod 256 ^ N.of_nat w.
Proof.
  revert v. induction w as [|w IH]; intros v; [by rewrite N.mod_1_r|].
  cbn [to_le_bytes from_le_bytes]. rewrite IH, u8_of_byte_of_u8.
  rewrite Nat2N.inj_succ, N.pow_succ_r'.
  pose proof (N.pow_nonzero 256 (N.of_nat w)).
  rewrite N.Div0.mod_mul_r. lia.
Qed.

Lemma to_from_le_bytes l : to_le_bytes (length l) (from_le_bytes l) = l.
Proof.
  induction l as [|b l IH]; [done|]. cbn [length from_le_bytes to_le_bytes].
  pose proof (u8_of_byte_bound b).
  replace ((u8_of_byte b + 256 * from_le_bytes l) / 256) with (from_le_bytes l)
    by (rewrite N.mul_comm, N.div_add by done; rewrite N.div_small by done; lia).
  rewrite IH. f_equal. apply u8_of_byte_inj. rewrite u8_of_byte_of_u8.
  rewrite N.mul_comm, N.Div0.mod_add, N.mod_small by done. done.
Qed.

(** The rows a column holds. *)
Definition rows (width : N) (buffer : bytes) : N := len buffer / width.

(** A column whose byte length fits a [usize], as every Rust slice does. *)
Definition sized (buffer : bytes) : Prop := len buffer <= usize_max.

Section reader.
(** The three readers share one shape. *)
Context (w : N) (Hw : 0 < w <= 8).

Definition read_row (buffer : bytes) (index : usize) : option N :=
  start ← checked_mul index w;
  from_le_bytes <$> get_range buffer start (start +w w).

Lemma read_row_Some buffer i v :
  sized buffer ->
  read_row buffer i = Some v <->
  (i + 1) * w <= len buffer /\
  v = from_le_bytes (take (N.to_nat w) (drop (N.to_nat (i * w)) buffer)).
Proof using Hw.
  unfold sized. intros Hs. unfold read_row. cbn.
  destruct (checked_mul i w) as [s|] eqn:E; cbn.
  - apply checked_mul_Some in E as [-> Hm].
    destruct (get_range buffer (i * w) (i * w +w w)) as [row|] eqn:E; cbn.
    + apply get_range_Some in E as (H1&H2&->).
      destruct (N.le_gt_cases (i * w + w) usize_max) as [Hle|Hgt].
      * rewrite wrapping_add_small in * by done.
        replace (i * w + w - i * w) with w by lia.
        split; [intros [= <-]; split; [lia|done]|by intros [_ ->]].
      * assert (w <= usize_max) by (unfold usize_max; lia).
        pose proof (wrapping_add_wraps _ _ Hm ltac:(eassumption) Hgt). lia.
    + split; [done|]. intros [Hl _]. exfalso.
      assert (i * w +w w = i * w + w) as Hw' by (apply wrapping_add_small; lia).
      enough (get_range buffer (i * w) (i * w +w w) <> None) by done.
      rewrite Hw'. unfold get_range.
      destruct (N.leb_spec (i * w) (i * w + w)); [|lia].
      destruct (N.leb_spec (i * w + w) (len buffer)); [done|lia].
  - split; [done|]. intros [Hl _]. exfalso.
    unfold checked_mul in E. destruct (N.leb_spec (i * w) usize_max); [done|]. lia.
Qed.

Lemma read_row_is_Some buffer i :
  sized buffer -> is_Some (read_row buffer i) <-> i < rows w buffer.
Proof using Hw.
  intros Hs. transitivity ((i + 1) * w <= len buffer).
  - split.
    + intros [v Hv%read_row_Some]; naive_solver.
    + intros H. eexists. apply read_row_Some; eauto.
  - unfold rows. pose proof (N.Div0.mul_div_le (len buffer) w). split; intros H'.
    + enough (i + 1 <= len buffer / w) by lia.
      apply N.div_le_lower_bound; lia.
    + etransitivity; [|done]. rewrite N.mul_comm. apply N.mul_le_mono_l. lia.
Qed.
End reader.

Lemma read_row_spec_u16 buffer i name v :
  read_u16 buffer i name = Ok v <-> read_row 2 buffer i = Some v.
Proof.
  unfold read_u16, read_row. cbn.
  destruct (checked_mul i 2); cbn; [|done]. destruct (get_range _ _ _); cbn; naive_solver.
Qed.

Lemma read_row_spec_u32 buffer i name v :
  read_u32 buffer i name = Ok v <-> read_row 4 buffer i = Some v.
Proof.
  unfold read_u32, read_row. cbn.
  destruct (checked_mul i 4); cbn; [|done]. destruct (get_range _ _ _); cbn; naive_solver.
Qed.

Lemma read_row_spec_usize buffer i name v :
  read_usize buffer i name = Ok v <-> read_row 8 buffer i = Some v.
Proof.
  unfold read_usize, read_row. cbn.
  destruct (checked_mul i 8); cbn; [|done]. destruct (get_range _ _ _); cbn; naive_solver.
Qed.

Lemma read_row_bound w buffer i v : read_row w buffer i = Some v -> v < 256 ^ (i * w +w w - i * w).
Proof.
  unfold read_row. cbn. destruct (checked_mul i w) as [s|] eqn:E; cbn; [|done].
  destruct (get_range _ _ _) as [row|] eqn:Er; cbn; [|done]. intros [= <-].
  apply checked_mul_Some in E as [-> _]. pose proof (from_le_bytes_bound row) as Hb.
  by apply get_range_len in Er as <-.
Qed.

Lemma read_u16_safe b i n : safe (read_u16 b i n).
Proof. unfold read_u16. solve_safe. Qed.
Lemma read_u32_safe b i n : safe (read_u32 b i n).
Proof. unfold read_u32. solve_safe. Qed.
Lemma read_usize_safe b i n : safe (read_usize b i n).
Proof. unfold read_usize. solve_safe. Qed.
#[export] Hint Resolve read_u16_safe read_u32_safe read_usize_safe : safe.

(** Success of the readers is the bound on the index, whatever the name. *)
Lemma read_usize_total b i n : sized b -> i < rows 8 b -> exists v, read_usize b i n = Ok v.
Proof.
  intros Hs Hi. apply (read_row_is_Some 8) in Hi as [v Hv]; [|lia|done].
  exists v. by apply read_row_spec_usize.
Qed.
Lemma read_u32_total b i n : sized b -> i < rows 4 b -> exists v, read_u32 b i n = Ok v.
Proof.
  intros Hs Hi. apply (read_row_is_Some 4) in Hi as [v Hv]; [|lia|done].
  exists v. by apply read_row_spec_u32.
Qed.
Lemma read_u16_total b i n : sized b -> i < rows 2 b -> exists v, read_u16 b i n = Ok v.
Proof.
  intros Hs Hi. apply (read_row_is_Some 2) in Hi as [v Hv]; [|lia|done].
  exists v. by apply read_row_spec_u16.
Qed.

(** ** Round trips *)

Section roundtrip.
Context (w : nat) (Hw : (0 < w <= 8)%nat).

Lemma length_column values : length (column w values) = (length values * w)%nat.
Proof using Hw.
  induction values as [|v values IH]; [done|].
  change (column w (v :: values)) with (to_le_bytes w v ++ column w values).
  rewrite length_app, IH, length_to_le_bytes. cbn. lia.
Qed.

Lemma column_row values i v : values !! i = Some v ->
  take w (drop (i * w) (column w values)) = to_le_bytes w v.
Proof using Hw.
  revert i. induction values as [|u values IH]; intros [|i] Hi; try done.
  - injection Hi as ->. change (column w (v :: values)) with (to_le_bytes w v ++ column w values).
    cbn [Nat.mul]. rewrite drop_0, take_app_length'; [done|by rewrite length_to_le_bytes].
  - change (column w (u :: values)) with (to_le_bytes w u ++ column w values).
    rewrite <- (IH i Hi). f_equal.
    rewrite drop_app, length_to_le_bytes, drop_ge by (rewrite length_to_le_bytes; lia).
    cbn [app]. f_equal. lia.
Qed.

(** Reading a produced column gives the values back, and nothing else. *)
Lemma read_row_column values i v :
  sized (column w values) -> Forall (fun v => v < 256 ^ N.of_nat w) values ->
  read_row (N.of_nat w) (column w values) i = Some v <-> get values i = Some v.
Proof using Hw.
  intros Hs Hv. rewrite read_row_Some by (try done; lia). unfold len at 1. rewrite length_column.
  rewrite get_lookup, Nat2N.id. replace (N.to_nat (i * N.of_nat w)) with (N.to_nat i * w)%nat by lia.
  rewrite Forall_forall in Hv. split.
  - intros [Hl ->]. destruct (values !! N.to_nat i) as [v|] eqn:E.
    + rewrite (column_row _ _ _ E), from_to_le_bytes, N.mod_small; [done|].
      apply Hv. by eapply list_elem_of_lookup_2.
    + apply lookup_ge_None_1 in E. nia.
  - intros E. rewrite (column_row _ _ _ E), from_to_le_bytes, N.mod_small
      by (apply Hv; by eapply list_elem_of_lookup_2). split; [|done].
    apply lookup_lt_Some in E. nia.
Qed.

(** A buffer of whole rows is the column of its rows. *)
Lemma column_of_rows buffer n : length buffer = (n * w)%nat ->
  exists values, buffer = column w values /\ length values = n /\
    Forall (fun v => v < 256 ^ N.of_nat w) values.
Proof using Hw.
  revert buffer. induction n as [|n IH]; intros buffer Hl.
  { exists []. destruct buffer; [done|done]. }
  destruct (IH (drop w buffer)) as (values&E&Hn&Hv); [rewrite length_drop; lia|].
  assert (Ht : length (take w buffer) = w) by (rewrite length_take; lia).
  exists (from_le_bytes (take w buffer) :: values). split_and!.
  - change (column w (from_le_bytes (take w buffer) :: values))
      with (to_le_bytes w (from_le_bytes (take w buffer)) ++ column w values).
    rewrite <- E, <- (take_drop w buffer) at 1. f_equal. rewrite <- Ht at 2. by rewrite to_from_le_bytes.
  - cbn. by rewrite Hn.
  - constructor; [|done]. pose proof (from_le_bytes_bound (take w buffer)) as Hb.
    unfold len in Hb. by rewrite Ht in Hb.
Qed.

Lemma whole_rows buffer : len buffer mod N.of_nat w = 0 ->
  exists values, buffer = column w values /\ len values = len buffer / N.of_nat w /\
    Forall (fun v => v < 256 ^ N.of_nat w) values.
Proof using Hw.
  intros Hm. pose proof (N.div_mod (len buffer) (N.of_nat w) ltac:(lia)) as Hd. rewrite Hm, N.add_0_r in Hd.
  destruct (column_of_rows buffer (N.to_nat (len buffer / N.of_nat w))) as (values&Hb&Hl&Hv).
  { unfold len in *. lia. }
  exists values. split_and!; [done| |done]. unfold len at 1. lia.
Qed.
End roundtrip.

(** C40: The readers invert the producer's encoding: on a column of values of
    the reader's width, a read succeeds exactly at the positions of the list and
    returns the value there; and, for each of the three widths, every buffer of
    whole rows is the column of as many values that fit, so nothing is lost either
    way. *)
Theorem readers_roundtrip values buffer i v name :
  (sized (column 2 values) -> Forall (fun v => v < 2 ^ 16) values ->
     read_u16 (column 2 values) i name = Ok v <-> get values i = Some v) /\
  (sized (column 4 values) -> Forall (fun v => v < 2 ^ 32) values ->
     read_u32 (column 4 values) i name = Ok v <-> get values i = Some v) /\
  (sized (column 8 values) -> Forall (fun v => v < 2 ^ 64) values ->
     read_usize (column 8 values) i name = Ok v <-> get values i = Some v) /\
  (len buffer mod 2 = 0 -> exists values,
     buffer = column 2 values /\ len values = len buffer / 2 /\ Forall (fun v => v < 2 ^ 16) values) /\
  (len buffer mod 4 = 0 -> exists values,
     buffer = column 4 values /\ len values = len buffer / 4 /\ Forall (fun v => v < 2 ^ 32) values) /\
  (len buffer mod 8 = 0 -> exists values,
     buffer = column 8 values /\ len values = len buffer / 8 /\ Forall (fun v => v < 2 ^ 64) values).
Proof.
  split_and!; intros Hs.
  - rewrite read_row_spec_u16. intros Hv. by apply (read_row_column 2); [lia|..].
  - rewrite read_row_spec_u32. intros Hv. by apply (read_row_column 4); [lia|..].
  - rewrite read_row_spec_usize. intros Hv. by apply (read_row_column 8); [lia|..].
  - by apply (whole_rows 2); [lia|].
  - by apply (whole_rows 4); [lia|].
  - by apply (whole_rows 8); [lia|].
Qed.

Lemma readers_roundtrip_witness :
  let values := [7; 513; 65535] in
  let buffer := column 8 values in
  column 2 values = [Byte.x07; Byte.x00; Byte.x01; Byte.x02; Byte.xff; Byte.xff] /\
  (read_u16 (column 2 values) 1 "column" = Ok 513 <-> get values 1 = Some 513) /\
  (exists vs, buffer = column 2 vs /\ len vs = 12 /\ Forall (fun v => v < 2 ^ 16) vs) /\
  (exists vs, buffer = column 4 vs /\ len vs = 6 /\ Forall (fun v => v < 2 ^ 32) vs) /\
  exists vs, buffer = column 8 vs /\ len vs = 3 /\ Forall (fun v => v < 2 ^ 64) vs.
Proof.
  cbn zeta. split; [by vm_compute|].
  destruct (readers_roundtrip [7; 513; 65535] (column 8 [7; 513; 65535]) 1 513 "column")
    as (H2&_&_&W2&W4&W8). split_and!.
  - apply H2; [by vm_compute|repeat constructor].
  - apply W2. by vm_compute.
  - apply W4. by vm_compute.
  - apply W8. by vm_compute.
Defined.
