(* ===== verification/Columns.v ===== *)
(** * The structural columns and their accessors

    [DirectColumns] of native/src/encoded_direct.rs: eleven borrowed buffers
    that hold roots, nodes, fields, items and a scalar arena, plus the root
    postings and the anonymous-scope maps of an overlay.  Node ids are
    1-based; roots, fields and items are 0-based rows. *)

From S2P Require Import Prelude Errors Tags Readers.
Local Open Scope string_scope.
Local Open Scope list_scope.
Local Open Scope N_scope.

(** ** Scope maps

    The trait [AnonymousScopeMapChain] as its two operations. *)

Record AnonymousScopeMapChain := {
  chain_count : usize;
  chain_at : usize -> option bytes;
}.

(** [impl AnonymousScopeMapChain for RetainedAnonymousScopeMaps] (lib.rs). *)
Definition RetainedAnonymousScopeMaps (maps : list bytes) : AnonymousScopeMapChain := {|
  chain_count := len maps;
  chain_at := fun index => get maps index;
|}.

(** ** The columns *)

Record DirectColumns := {
  root_kinds : bytes;
  root_ids : bytes;
  included_root_ids : bytes;
  excluded_root_ids : bytes;
  anonymous_scope_map : bytes;
  anonymous_scope_map_chain : option AnonymousScopeMapChain;
  node_tags : bytes;
  node_field_offsets : bytes;
  field_kinds : bytes;
  field_values : bytes;
  field_lengths : bytes;
  item_kinds : bytes;
  item_values : bytes;
  item_lengths : bytes;
  scalar_bytes : bytes;
}.

#[export] Instance DirectColumns_eta : Eta DirectColumns := fun c =>
  {| root_kinds := c.(root_kinds); root_ids := c.(root_ids);
     included_root_ids := c.(included_root_ids); excluded_root_ids := c.(excluded_root_ids);
     anonymous_scope_map := c.(anonymous_scope_map);
     anonymous_scope_map_chain := c.(anonymous_scope_map_chain);
     node_tags := c.(node_tags); node_field_offsets := c.(node_field_offsets);
     field_kinds := c.(field_kinds); field_values := c.(field_values);
     field_lengths := c.(field_lengths); item_kinds := c.(item_kinds);
     item_values := c.(item_values); item_lengths := c.(item_lengths);
     scalar_bytes := c.(scalar_bytes) |}.

(** The source takes an array of exactly [BUFFER_COUNT] buffers; any other
    length has no counterpart there. *)
Definition from_ordered (buffers : list bytes) : option DirectColumns :=
  match buffers with
  | [b0; b1; b2; b3; b4; b5; b6; b7; b8; b9; b10] =>
      Some {| root_kinds := b0; root_ids := b1; included_root_ids := [];
              excluded_root_ids := []; anonymous_scope_map := [];
              anonymous_scope_map_chain := None; node_tags := b2;
              node_field_offsets := b3; field_kinds := b4; field_values := b5;
              field_lengths := b6; item_kinds := b7; item_values := b8;
              item_lengths := b9; scalar_bytes := b10 |}
  | _ => None
  end.

Definition with_excluded_root_ids (self : DirectColumns) (ids : bytes) : DirectColumns :=
  self <| excluded_root_ids := ids |>.
Definition with_included_root_ids (self : DirectColumns) (ids : bytes) : DirectColumns :=
  self <| included_root_ids := ids |>.
Definition with_anonymous_scope_map (self : DirectColumns) (map : bytes) : DirectColumns :=
  self <| anonymous_scope_map := map |> <| anonymous_scope_map_chain := None |>.
Definition with_anonymous_scope_map_chain (self : DirectColumns)
    (chain : AnonymousScopeMapChain) : DirectColumns :=
  self <| anonymous_scope_map := [] |> <| anonymous_scope_map_chain := Some chain |>.
Definition without_anonymous_scope_maps (self : DirectColumns) : DirectColumns :=
  self <| anonymous_scope_map := [] |> <| anonymous_scope_map_chain := None |>.

Definition is_empty {A} (l : list A) : bool := match l with [] => true | _ => false end.

Definition scope_map_count (self : DirectColumns) : usize :=
  match self.(anonymous_scope_map_chain) with
  | Some chain => chain.(chain_count)
  | None => if is_empty self.(anonymous_scope_map) then 0 else 1
  end.

Definition scope_map_at (self : DirectColumns) (index : usize) : option bytes :=
  match self.(anonymous_scope_map_chain) with
  | Some chain => chain.(chain_at) index
  | None =>
      if (index =? 0) && negb (is_empty self.(anonymous_scope_map))
      then Some self.(anonymous_scope_map) else None
  end.

Definition has_anonymous_scope_map (self : DirectColumns) : bool :=
  negb (scope_map_count self =? 0).

Definition buffers (self : DirectColumns) : list bytes :=
  [ self.(root_kinds); self.(root_ids); self.(node_tags); self.(node_field_offsets);
    self.(field_kinds); self.(field_values); self.(field_lengths); self.(item_kinds);
    self.(item_values); self.(item_lengths); self.(scalar_bytes) ].

Definition buffer_bytes (self : DirectColumns) : outcome usize :=
  foldM (fun total buffer =>
    ok_or (checked_add total (len buffer)) (resource "encoded buffer-byte total overflow"))
    0 (buffers self).

(** ** Root selection *)

Definition root_count (self : DirectColumns) : usize := len self.(root_kinds).

Definition selected_root_count (self : DirectColumns) : outcome usize :=
  if negb (is_empty self.(included_root_ids)) then Ok (len self.(included_root_ids) / 4)
  else ok_or (checked_sub (root_count self) (len self.(excluded_root_ids) / 4))
         (malformed "encoded excluded-root postings exceed the root count").

(** A [u32] always fits a 64-bit [usize]. *)
Definition excluded_root_position (self : DirectColumns) (index : usize) : outcome usize :=
  read_u32 self.(excluded_root_ids) index "excluded_root_ids".
Definition included_root_position (self : DirectColumns) (index : usize) : outcome usize :=
  read_u32 self.(included_root_ids) index "included_root_ids".

(** The binary search of [root_is_selected] over the active postings: the
    first position whose value is not below [target].  The gap between [start]
    and [end] at least halves, so its length bounds the iterations. *)
Fixpoint lower_bound (fuel : nat) (position : usize -> outcome usize) (target start end_ : usize)
    : outcome usize :=
  if negb (start <? end_) then Ok start else
  match fuel with
  | O => OutOfFuel
  | S fuel =>
      let middle := start + (end_ - start) / 2 in
      candidate ← position middle;
      if candidate <? target then lower_bound fuel position target (middle + 1) end_
      else lower_bound fuel position target start middle
  end.

Definition root_is_selected (self : DirectColumns) (index : usize) : outcome bool :=
  target ← ok_or (checked_add index 1) (resource "encoded root position overflow");
  let '(postings, included) :=
    if is_empty self.(included_root_ids) then (self.(excluded_root_ids), false)
    else (self.(included_root_ids), true) in
  let position :=
    if included then included_root_position self else excluded_root_position self in
  let end_ := len postings / 4 in
  start ← lower_bound (N.to_nat end_) position target 0 end_;
  if start =? len postings / 4 then Ok (negb included)
  else
    value ← position start;
    let found := value =? target in
    Ok (if included then found else negb found).

(** ** Nodes, fields and items *)

Definition node_count (self : DirectColumns) : usize := len self.(node_tags) / 2.
Definition field_count (self : DirectColumns) : usize := len self.(field_kinds).
Definition item_count (self : DirectColumns) : usize := len self.(item_kinds).

Definition root_kind (self : DirectColumns) (index : usize) : outcome u8 :=
  map_ok u8_of_byte
    (ok_or (get self.(root_kinds) index) (malformed "root kind index is out of range")).

Definition checked_node_id (self : DirectColumns) (node_id : usize) : outcome usize :=
  if (1 <=? node_id) && (node_id <=? node_count self) then Ok node_id
  else Err (malformed "encoded node reference is out of range").

Definition root_id (self : DirectColumns) (index : usize) : outcome usize :=
  value ← read_u32 self.(root_ids) index "root_ids";
  checked_node_id self value.

Definition node_tag (self : DirectColumns) (node_id : usize) : outcome u16 :=
  _ ← checked_node_id self node_id;
  read_u16 self.(node_tags) (node_id - 1) "node_tags".

Definition field_range (self : DirectColumns) (node_id : usize) : outcome (usize * usize) :=
  _ ← checked_node_id self node_id;
  start ← read_usize self.(node_field_offsets) (node_id - 1) "node_field_offsets";
  end_ ← read_usize self.(node_field_offsets) node_id "node_field_offsets";
  if (start <=? end_) && (end_ <=? field_count self) then Ok (start, end_)
  else Err (malformed "encoded node field range is invalid").

Definition exact_fields (self : DirectColumns) (node_id arity : usize) : outcome usize :=
  '(start, end_) ← field_range self node_id;
  if end_ - start =? arity then Ok start
  else Err (malformed ("encoded constructor " +:+ pretty node_id +:+ " has arity "
              +:+ pretty (end_ - start) +:+ "; expected " +:+ pretty arity)).

Definition field_kind (self : DirectColumns) (index : usize) : outcome u8 :=
  map_ok u8_of_byte
    (ok_or (get self.(field_kinds) index) (malformed "field kind index is out of range")).

Definition field_value (self : DirectColumns) (index : usize) : outcome usize :=
  read_usize self.(field_values) index "field_values".
Definition field_length (self : DirectColumns) (index : usize) : outcome usize :=
  read_usize self.(field_lengths) index "field_lengths".

Definition field_node (self : DirectColumns) (index : usize) : outcome usize :=
  let wrong := Err (malformed "encoded constructor field is not a node reference") in
  kind ← field_kind self index;
  if negb (kind =? COMPONENT_NODE) then wrong else
  length ← field_length self index;
  if negb (length =? 0) then wrong else
  value ← field_value self index;
  checked_node_id self value.

Definition item_node (self : DirectColumns) (index : usize) : outcome usize :=
  let wrong := Err (malformed "encoded canonical-set item is not a node reference") in
  kind ← ok_or (get self.(item_kinds) index) (malformed "item kind index is out of range");
  if negb (u8_of_byte kind =? COMPONENT_NODE) then wrong else
  length ← read_usize self.(item_lengths) index "item_lengths";
  if negb (length =? 0) then wrong else
  value ← read_usize self.(item_values) index "item_values";
  checked_node_id self value.

Definition node_set_range (self : DirectColumns) (index minimum : usize)
    : outcome (usize * usize) :=
  kind ← field_kind self index;
  if negb (kind =? COMPONENT_SET) then
    Err (malformed "encoded collection field is not a canonical set") else
  start ← field_value self index;
  length ← field_length self index;
  if (item_count self <? start) || (saturating_sub (item_count self) start <? length) then
    Err (malformed "encoded canonical-set range is out of bounds") else
  if length <? minimum then
    Err (malformed ("encoded canonical set has " +:+ pretty length
           +:+ " items; expected at least " +:+ pretty minimum)) else
  _ ← foldM (fun previous item_index =>
        node_id ← item_node self item_index;
        if node_id <=? previous then
          Err (malformed "encoded canonical-set items are not sorted and unique")
        else Ok node_id) 0 (range start (start +w length));
  Ok (start, length).

Definition node_sequence_range (self : DirectColumns) (index minimum : usize)
    : outcome (usize * usize) :=
  kind ← field_kind self index;
  if negb (kind =? COMPONENT_SEQUENCE) then
    Err (malformed "encoded collection field is not an ordered sequence") else
  start ← field_value self index;
  length ← field_length self index;
  if (item_count self <? start) || (saturating_sub (item_count self) start <? length) then
    Err (malformed "encoded ordered-sequence range is out of bounds") else
  if length <? minimum then
    Err (malformed ("encoded ordered sequence has " +:+ pretty length
           +:+ " items; expected at least " +:+ pretty minimum)) else
  _ ← forM (range start (start +w length)) (fun item_index =>
        _ ← item_node self item_index; Ok tt);
  Ok (start, length).

Definition scalar_payload (self : DirectColumns) (index : usize) (kind : u8) : outcome bytes :=
  actual ← field_kind self index;
  if negb (actual =? kind) then
    Err (malformed "encoded scalar field has the wrong component kind") else
  start ← field_value self index;
  length ← field_length self index;
  end_ ← ok_or (checked_add start length) (malformed "encoded scalar range overflow");
  ok_or (get_range self.(scalar_bytes) start end_)
    (malformed "encoded scalar range is out of bounds").

Definition scalar_range (self : DirectColumns) (start length : usize) : outcome bytes :=
  end_ ← ok_or (checked_add start length) (malformed "encoded scalar range overflow");
  ok_or (get_range self.(scalar_bytes) start end_)
    (malformed "encoded scalar range is out of bounds").

Definition canonical_integer (self : DirectColumns) (index : usize) : outcome bytes :=
  payload ← scalar_payload self index COMPONENT_INTEGER;
  if is_empty payload
     || ((1 <? len payload) && bool_decide (last payload = Some Byte.x00))
  then Err (malformed "encoded integer field is not minimally encoded")
  else Ok payload.
