(* ===== verification/Nodes.v ===== *)
(** * Node readers: IRIs, entities, individuals, literals, annotations

    The leaf decoders of [DirectColumns] in native/src/encoded_direct.rs.  A
    decoder checks the constructor tag, the arity and every referenced node it
    reads; the cycle checks over whole graphs are in [Graphs]. *)

From S2P Require Import Prelude Errors Tags Text Readers Columns.
Local Open Scope string_scope.
Local Open Scope list_scope.
Local Open Scope N_scope.

Definition is_schema_tag (tag : u16) : bool := contains SCHEMA_TAGS tag.

Section nodes.
Context (self : DirectColumns).

(** ** IRIs and entities *)

Definition iri (node_id maximum : usize) : outcome text :=
  tag ← node_tag self node_id;
  if negb (tag =? TAG_IRI) then
    Err (malformed "encoded entity does not reference an IRI node") else
  start ← exact_fields self node_id 1;
  payload ← scalar_payload self start COMPONENT_TEXT;
  if maximum <? len payload then
    Err (resource ("encoded IRI contains " +:+ pretty (len payload)
           +:+ " bytes; limit is " +:+ pretty maximum))
  else from_utf8 payload (malformed "encoded IRI text is not UTF-8").

Definition entity (node_id : usize) : outcome (bytes * usize) :=
  tag ← node_tag self node_id;
  if negb (tag =? TAG_ENTITY) then
    Err (malformed "encoded axiom does not reference an entity node") else
  start ← exact_fields self node_id 2;
  kind ← scalar_payload self start COMPONENT_ENUM;
  if negb (contains ENTITY_KINDS kind) then
    Err (malformed "encoded entity kind is invalid") else
  iri_id ← field_node self (start +w 1);
  iri_tag ← node_tag self iri_id;
  if negb (iri_tag =? TAG_IRI) then
    Err (malformed "encoded entity IRI reference has the wrong tag")
  else Ok (kind, iri_id).

(** The shape the six [named_*_iri] readers share: a schema tag other than
    an entity is outside the native slice, any other tag is malformed. *)
Definition named_entity_iri (expected : string) (outside unknown wrong : string)
    (node_id maximum : usize) : outcome text :=
  tag ← node_tag self node_id;
  if negb (tag =? TAG_ENTITY) then
    if is_schema_tag tag then Err (unsupported outside) else Err (malformed unknown)
  else
  '(kind, iri_id) ← entity node_id;
  if negb (bool_decide (kind = str expected)) then Err (malformed wrong)
  else iri iri_id maximum.

Definition named_class_iri : usize -> usize -> outcome text :=
  named_entity_iri "class"
    "direct native slice supports only named class expressions"
    "encoded class expression has an unknown node tag"
    "encoded class expression entity is not a class".

Definition named_individual_iri : usize -> usize -> outcome text :=
  named_entity_iri "named_individual"
    "direct native slice supports only named individuals in ABox assertions"
    "encoded individual has an unknown node tag"
    "encoded individual entity is not a named individual".

Definition named_object_property_iri : usize -> usize -> outcome text :=
  named_entity_iri "object_property"
    "direct native slice supports only named object properties"
    "encoded object property has an unknown node tag"
    "encoded object-property expression entity has the wrong kind".

Definition named_data_property_iri : usize -> usize -> outcome text :=
  named_entity_iri "data_property"
    "direct native slice supports only named data properties"
    "encoded data property has an unknown node tag"
    "encoded data-property entity has the wrong kind".

Definition named_annotation_property_iri : usize -> usize -> outcome text :=
  named_entity_iri "annotation_property"
    "direct native slice supports only named annotation properties"
    "encoded annotation property has an unknown node tag"
    "encoded annotation-property entity has the wrong kind".

Definition named_datatype_iri : usize -> usize -> outcome text :=
  named_entity_iri "datatype"
    "direct native slice supports only named datatypes"
    "encoded datatype has an unknown node tag"
    "encoded datatype entity has the wrong kind".

(** ** Anonymous individuals *)

Definition validate_anonymous_individual (node_id : usize) : outcome unit :=
  tag ← node_tag self node_id;
  if negb (tag =? TAG_ANONYMOUS_INDIVIDUAL) then
    Err (malformed "encoded anonymous-individual cursor has the wrong constructor tag") else
  start ← exact_fields self node_id 2;
  document_scope ← scalar_payload self start COMPONENT_BYTES;
  local_key ← scalar_payload self (start +w 1) COMPONENT_BYTES;
  if negb (len document_scope =? 32) then
    Err (malformed "encoded anonymous individual document scope is not bytes32") else
  if is_empty local_key then
    Err (malformed "encoded anonymous individual local key is empty")
  else Ok tt.

(** One map of the chain: the binary search over its 64-byte rows, keyed by
    the first 32 bytes.  [None]: the scope is not remapped. *)
Fixpoint scope_map_search (fuel : nat) (scope_map current : bytes) (start end_ : usize)
    : outcome (option bytes) :=
  if negb (start <? end_) then Ok None else
  match fuel with
  | O => OutOfFuel
  | S fuel =>
      let middle := start + (end_ - start) / 2 in
      offset ← ok_or (checked_mul middle 64) (resource "encoded scope-map offset overflow");
      source ← ok_or (get_range scope_map offset (offset +w 32))
                 (malformed "encoded scope-map source is truncated");
      match bytes_cmp source current with
      | Lt => scope_map_search fuel scope_map current (middle + 1) end_
      | Gt => scope_map_search fuel scope_map current start middle
      | Eq =>
          target ← ok_or (get_range scope_map (offset +w 32) (offset +w 64))
                     (malformed "encoded scope-map target is truncated");
          Ok (Some target)
      end
  end.

Definition remap_anonymous_scope (scope : bytes) : outcome bytes :=
  foldM (fun current map_index =>
    scope_map ← ok_or (scope_map_at self map_index)
      (malformed "encoded anonymous scope-map chain is truncated");
    let end_ := len scope_map / 64 in
    found ← scope_map_search (N.to_nat end_) scope_map current 0 end_;
    Ok (default current found)) scope (range 0 (scope_map_count self)).

Definition anonymous_parts (node_id : usize) : outcome (bytes * bytes) :=
  _ ← validate_anonymous_individual node_id;
  start ← exact_fields self node_id 2;
  document_scope ← scalar_payload self start COMPONENT_BYTES;
  scope ← remap_anonymous_scope document_scope;
  local_key ← scalar_payload self (start +w 1) COMPONENT_BYTES;
  Ok (scope, local_key).

Definition compare_anonymous_nodes (left right : usize) : outcome comparison :=
  '(left_scope, left_key) ← anonymous_parts left;
  '(right_scope, right_key) ← anonymous_parts right;
  match bytes_cmp left_scope right_scope with
  | Eq =>
      length_order ← compare_canonical_varints (len left_key) (len right_key);
      match length_order with
      | Eq => Ok (bytes_cmp left_key right_key)
      | order => Ok order
      end
  | order => Ok order
  end.

(** ** Individuals *)

Inductive IndividualValue :=
  | Named (iri : text)
  | Anonymous (node_id : usize).

Definition validate_individual (node_id maximum : usize) : outcome unit :=
  tag ← node_tag self node_id;
  if tag =? TAG_ENTITY then _ ← named_individual_iri node_id maximum; Ok tt
  else if tag =? TAG_ANONYMOUS_INDIVIDUAL then validate_anonymous_individual node_id
  else Err (malformed "encoded individual set item is not an individual").

Definition individual_value (node_id maximum : usize) : outcome IndividualValue :=
  tag ← node_tag self node_id;
  if tag =? TAG_ENTITY then
    iri ← named_individual_iri node_id maximum; Ok (Named iri)
  else if tag =? TAG_ANONYMOUS_INDIVIDUAL then
    _ ← validate_anonymous_individual node_id; Ok (Anonymous node_id)
  else Err (malformed "encoded assertion argument is not an individual").

(** [bool::then_some]. *)
Definition then_some {A} (b : bool) (a : A) : option A := if b then Some a else None.

Definition singleton_anonymous_nominal_member (expression : usize) : outcome (option usize) :=
  tag ← node_tag self expression;
  if negb (tag =? TAG_OBJECT_ONE_OF) then Ok None else
  nominal_start ← exact_fields self expression 1;
  '(item_start, item_count) ← node_set_range self nominal_start 1;
  if negb (item_count =? 1) then Ok None else
  member ← item_node self item_start;
  member_tag ← node_tag self member;
  Ok (then_some (member_tag =? TAG_ANONYMOUS_INDIVIDUAL) member).

Definition anonymous_individual_class_expression_member (expression maximum_iri : usize)
    : outcome (option usize) :=
  tag ← node_tag self expression;
  if tag =? TAG_OBJECT_ONE_OF then singleton_anonymous_nominal_member expression
  else if tag =? TAG_OBJECT_HAS_VALUE then
    start ← exact_fields self expression 2;
    property ← field_node self start;
    _ ← named_object_property_iri property maximum_iri;
    value ← field_node self (start +w 1);
    value_tag ← node_tag self value;
    Ok (then_some (value_tag =? TAG_ANONYMOUS_INDIVIDUAL) value)
  else Ok None.
End nodes.

(** [candidate.is_some_and(|c| anonymous_node.is_none_or(|e| c == e))]. *)
Definition matches_expected (candidate anonymous_node : option usize) : bool :=
  match candidate with
  | None => false
  | Some candidate =>
      match anonymous_node with
      | None => true
      | Some expected => candidate =? expected
      end
  end.

Section scope_mapped.
Context (self : DirectColumns).

Definition is_scope_mapped_ignored_subclass (root : usize) (anonymous_node : option usize)
    (maximum_iri : usize) : outcome bool :=
  start ← exact_fields self root 3;
  '(_, annotation_count) ← node_set_range self (start +w 2) 0;
  if negb (annotation_count =? 0) then Ok false else
  subclass ← field_node self start;
  superclass ← field_node self (start +w 1);
  sub_tag ← node_tag self subclass;
  super_tag ← node_tag self superclass;
  candidate ←
    (if sub_tag =? TAG_ENTITY then
       anonymous_individual_class_expression_member self superclass maximum_iri
     else if super_tag =? TAG_ENTITY then
       anonymous_individual_class_expression_member self subclass maximum_iri
     else Ok None);
  Ok (matches_expected candidate anonymous_node).

Definition is_scope_mapped_ignored_object_property_class (root : usize) (expected_tag : u16)
    (anonymous_node : option usize) (maximum_iri : usize) : outcome bool :=
  start ← exact_fields self root 3;
  '(_, annotation_count) ← node_set_range self (start +w 2) 0;
  if negb (annotation_count =? 0) then Ok false else
  property ← field_node self start;
  _ ← named_object_property_iri self property maximum_iri;
  class ← field_node self (start +w 1);
  candidate ← anonymous_individual_class_expression_member self class maximum_iri;
  tag ← node_tag self root;
  Ok ((tag =? expected_tag) && matches_expected candidate anonymous_node).

Definition is_scope_mapped_ignored_class_assertion (root : usize)
    (anonymous_node : option usize) (maximum_iri : usize) : outcome bool :=
  start ← exact_fields self root 3;
  '(_, annotation_count) ← node_set_range self (start +w 2) 0;
  if negb (annotation_count =? 0) then Ok false else
  class ← field_node self start;
  individual ← field_node self (start +w 1);
  class_tag ← node_tag self class;
  candidate ←
    (if class_tag =? TAG_ENTITY then
       tag ← node_tag self individual;
       Ok (then_some (tag =? TAG_ANONYMOUS_INDIVIDUAL) individual)
     else if contains [TAG_OBJECT_ONE_OF; TAG_OBJECT_HAS_VALUE] class_tag then
       tag ← node_tag self individual;
       if tag =? TAG_ENTITY then
         anonymous_individual_class_expression_member self class maximum_iri
       else Ok None
     else Ok None);
  Ok (matches_expected candidate anonymous_node).
End scope_mapped.

(** ** Literals and annotations *)

Inductive AnnotationValue :=
  | Borrowed (value : text)
  | AnonymousValue (node_id : usize)
  | Typed (lexical datatype : text).

Section annotations.
Context `{LowercaseTable} (self : DirectColumns).

Definition literal_parts (node_id maximum_iri : usize) : outcome (text * text) :=
  tag ← node_tag self node_id;
  if negb (tag =? TAG_LITERAL) then
    Err (malformed "encoded value does not reference a Literal") else
  start ← exact_fields self node_id 3;
  lexical ← scalar_payload self start COMPONENT_TEXT;
  lexical ← from_utf8 lexical (malformed "encoded literal lexical form is not UTF-8");
  datatype_id ← field_node self (start +w 1);
  datatype ← named_datatype_iri self datatype_id maximum_iri;
  language_kind ← field_kind self (start +w 2);
  _ ← (if language_kind =? COMPONENT_NONE then
         value ← field_value self (start +w 2);
         let wrong := Err (malformed "encoded Literal language none field is not canonical") in
         if negb (value =? 0) then wrong else
         length ← field_length self (start +w 2);
         if negb (length =? 0) then wrong else Ok tt
       else if language_kind =? COMPONENT_TEXT then
         payload ← scalar_payload self (start +w 2) COMPONENT_TEXT;
         language ← from_utf8 payload (malformed "encoded Literal language is not UTF-8");
         if is_empty language || negb (is_lowercase language)
            || negb (bool_decide (datatype = RDF_PLAIN_LITERAL))
         then Err (malformed "encoded Literal language is not canonical")
         else Ok tt
       else Err (malformed "encoded Literal language field kind is invalid"));
  Ok (lexical, datatype).

Definition validate_literal (node_id maximum_iri : usize) : outcome unit :=
  _ ← literal_parts node_id maximum_iri; Ok tt.

(** [format!("{prefix} tag {tag} is outside structural-columns v1")]. *)
Definition outside_schema (prefix : string) (tag : u16) : KernelError :=
  malformed (prefix +:+ " " +:+ pretty tag +:+ " is outside structural-columns v1").

Definition annotation_value (node_id maximum_iri : usize) : outcome AnnotationValue :=
  tag ← node_tag self node_id;
  if tag =? TAG_IRI then iri ← iri self node_id maximum_iri; Ok (Borrowed iri)
  else if tag =? TAG_ANONYMOUS_INDIVIDUAL then
    _ ← validate_anonymous_individual self node_id; Ok (AnonymousValue node_id)
  else if tag =? TAG_LITERAL then
    '(lexical, datatype) ← literal_parts node_id maximum_iri;
    if contains [XSD_STRING; RDF_PLAIN_LITERAL] datatype then Ok (Borrowed lexical)
    else Ok (Typed lexical datatype)
  else if is_schema_tag tag then
    Err (malformed "encoded annotation value is not an IRI or literal or anonymous individual")
  else Err (outside_schema "encoded annotation value tag" tag).

Definition validate_annotation_set (index : usize) : outcome unit :=
  '(item_start, length) ← node_set_range self index 0;
  forM (range item_start (item_start +w length)) (fun item_index =>
    node_id ← item_node self item_index;
    tag ← node_tag self node_id;
    if negb (tag =? TAG_ANNOTATION) then
      Err (malformed "encoded annotation set item does not reference an Annotation")
    else Ok tt).

Definition annotation_value_hash (node_id maximum_iri : usize) : outcome Z :=
  tag ← node_tag self node_id;
  if tag =? TAG_IRI then iri ← iri self node_id maximum_iri; Ok (owlapi_iri_hash iri)
  else if tag =? TAG_LITERAL then
    '(lexical, _) ← literal_parts node_id maximum_iri; Ok (java_string_hash lexical)
  else if tag =? TAG_ANONYMOUS_INDIVIDUAL then
    _ ← validate_anonymous_individual self node_id;
    start ← exact_fields self node_id 2;
    local_key ← scalar_payload self (start +w 1) COMPONENT_BYTES;
    local_key ← from_utf8 local_key
      (unsupported "direct native role annotation value cannot reproduce scalar hashing");
    Ok (java_string_hash local_key)
  else if is_schema_tag tag then
    Err (unsupported "direct native role annotation hashing supports only IRI, literal, or anonymous-individual values")
  else Err (outside_schema "encoded role annotation value tag" tag).

(** Nested annotations are validated but excluded from the hash, as OWLAPI
    4.5.22 does. *)
Definition annotation_hash (node_id maximum_iri : usize) : outcome Z :=
  tag ← node_tag self node_id;
  if negb (tag =? TAG_ANNOTATION) then
    Err (malformed "encoded annotation set item does not reference an Annotation") else
  start ← exact_fields self node_id 3;
  property_id ← field_node self start;
  property ← named_annotation_property_iri self property_id maximum_iri;
  value_id ← field_node self (start +w 1);
  value ← annotation_value_hash value_id maximum_iri;
  _ ← validate_annotation_set (start +w 2);
  Ok (combine_hash 6311 [owlapi_iri_hash property; value]).

Definition annotation_set_hash (index maximum_iri : usize) : outcome Z :=
  '(item_start, length) ← node_set_range self index 0;
  foldM (fun result item_index =>
    node_id ← item_node self item_index;
    hash ← annotation_hash node_id maximum_iri;
    Ok (i32_wrapping_add result hash)) 0%Z (range item_start (item_start +w length)).

Definition validate_metadata_annotation_value (node_id maximum_iri : usize) : outcome unit :=
  tag ← node_tag self node_id;
  if tag =? TAG_IRI then _ ← iri self node_id maximum_iri; Ok tt
  else if tag =? TAG_LITERAL then validate_literal node_id maximum_iri
  else if tag =? TAG_ANONYMOUS_INDIVIDUAL then validate_anonymous_individual self node_id
  else if is_schema_tag tag then
    Err (unsupported "direct native annotation metadata supports only IRI, literal, or anonymous-individual values")
  else Err (outside_schema "encoded annotation metadata value tag" tag).

Definition validate_annotation (node_id maximum_iri : usize) : outcome unit :=
  tag ← node_tag self node_id;
  if negb (tag =? TAG_ANNOTATION) then
    Err (malformed "encoded annotation cursor has the wrong constructor tag") else
  start ← exact_fields self node_id 3;
  property_id ← field_node self start;
  _ ← named_annotation_property_iri self property_id maximum_iri;
  value_id ← field_node self (start +w 1);
  _ ← validate_metadata_annotation_value value_id maximum_iri;
  validate_annotation_set (start +w 2).
End annotations.
