(* ===== verification/Samples.v ===== *)
(** * Sample columns

    A small producer of structural columns, the inverse of the readers, and
    the concrete columns the witnesses evaluate the development on. *)

From S2P Require Import Prelude Errors Tags Text Workspace Readers Columns.
Local Open Scope string_scope.
Local Open Scope list_scope.
Local Open Scope N_scope.

(** A component of a constructor: a leaf or a collection of leaves. *)
Inductive leaf :=
  | Absent
  | Ref (node : usize)
  | Payload (kind : u8) (payload : bytes).

Inductive component :=
  | Leaf (l : leaf)
  | Collection (kind : u8) (items : list leaf).

(** The rows emitted so far. *)
Record writer := {
  w_offsets : list N;
  w_fields : list (u8 * N * N);
  w_items : list (u8 * N * N);
  w_scalars : bytes;
}.

Definition write_leaf (scalars : bytes) (l : leaf) : (u8 * N * N) * bytes :=
  match l with
  | Absent => ((COMPONENT_NONE, 0, 0), scalars)
  | Ref n => ((COMPONENT_NODE, n, 0), scalars)
  | Payload k p => ((k, len scalars, len p), scalars ++ p)
  end.

Definition write_item (w : writer) (l : leaf) : writer :=
  let '(row, scalars) := write_leaf w.(w_scalars) l in
  {| w_offsets := w.(w_offsets); w_fields := w.(w_fields);
     w_items := w.(w_items) ++ [row]; w_scalars := scalars |}.

Definition write_component (w : writer) (c : component) : writer :=
  match c with
  | Leaf l =>
      let '(row, scalars) := write_leaf w.(w_scalars) l in
      {| w_offsets := w.(w_offsets); w_fields := w.(w_fields) ++ [row];
         w_items := w.(w_items); w_scalars := scalars |}
  | Collection kind items =>
      let row := (kind, len w.(w_items), len items) in
      let w := fold_left write_item items w in
      {| w_offsets := w.(w_offsets); w_fields := w.(w_fields) ++ [row];
         w_items := w.(w_items); w_scalars := w.(w_scalars) |}
  end.

Definition write_node (w : writer) (components : list component) : writer :=
  let w := fold_left write_component components w in
  {| w_offsets := w.(w_offsets) ++ [len w.(w_fields)]; w_fields := w.(w_fields);
     w_items := w.(w_items); w_scalars := w.(w_scalars) |}.

Definition encode (roots : list (u8 * usize)) (nodes : list (u16 * list component))
    : DirectColumns :=
  let w := fold_left write_node (snd <$> nodes)
             {| w_offsets := [0]; w_fields := []; w_items := []; w_scalars := [] |} in
  {| root_kinds := byte_of_u8 ∘ fst <$> roots;
     root_ids := column 4 (snd <$> roots);
     included_root_ids := []; excluded_root_ids := [];
     anonymous_scope_map := []; anonymous_scope_map_chain := None;
     node_tags := column 2 (fst <$> nodes);
     node_field_offsets := column 8 w.(w_offsets);
     field_kinds := (fun '(k, _, _) => byte_of_u8 k) <$> w.(w_fields);
     field_values := column 8 ((fun '(_, v, _) => v) <$> w.(w_fields));
     field_lengths := column 8 ((fun '(_, _, l) => l) <$> w.(w_fields));
     item_kinds := (fun '(k, _, _) => byte_of_u8 k) <$> w.(w_items);
     item_values := column 8 ((fun '(_, v, _) => v) <$> w.(w_items));
     item_lengths := column 8 ((fun '(_, _, l) => l) <$> w.(w_items));
     scalar_bytes := w.(w_scalars) |}.

(** ** Constructors *)

Definition node (n : usize) : component := Leaf (Ref n).
Definition nodes (kind : u8) (ns : list usize) : component := Collection kind (Ref <$> ns).
Definition set_of : list usize -> component := nodes COMPONENT_SET.

Definition iri_node (text : string) : u16 * list component :=
  (TAG_IRI, [Leaf (Payload COMPONENT_TEXT (str text))]).
Definition entity_node (kind : string) (iri : usize) : u16 * list component :=
  (TAG_ENTITY, [Leaf (Payload COMPONENT_ENUM (str kind)); node iri]).
Definition anonymous_node (scope : N) (key : string) : u16 * list component :=
  (TAG_ANONYMOUS_INDIVIDUAL,
   [Leaf (Payload COMPONENT_BYTES (replicate 32 (byte_of_u8 scope)));
    Leaf (Payload COMPONENT_BYTES (str key))]).

(** Lower-casing as on ASCII, for the closed examples. *)
Definition ascii_lowercase : LowercaseTable :=
  fun c => if (65 <=? c) && (c <=? 90) then [c + 32] else [c].

(** ** Two ontologies

    [sample]: classes A, B and C, property p, an anonymous individual;
    A ⊑ B, A ⊑ ∃p.C, A ≡ (B ⊓ C), C(_:x), and an annotation on p. *)
Definition sample : DirectColumns := encode
  [ (ROOT_AXIOM, 11); (ROOT_AXIOM, 12); (ROOT_AXIOM, 13); (ROOT_AXIOM, 14) ]
  [ iri_node "http://e/A"; iri_node "http://e/B"; iri_node "http://e/C"; iri_node "http://e/p";
    entity_node "class" 1; entity_node "class" 2; entity_node "class" 3;
    entity_node "object_property" 4;
    anonymous_node 7 "x";
    (TAG_OBJECT_SOME_VALUES_FROM, [node 8; node 7]);
    (TAG_SUB_CLASS_OF, [node 5; node 6; set_of []]);
    (TAG_SUB_CLASS_OF, [node 5; node 10; set_of []]);
    (TAG_EQUIVALENT_CLASSES, [set_of [5; 15]; set_of []]);
    (TAG_CLASS_ASSERTION, [node 7; node 9; set_of []]);
    (TAG_OBJECT_INTERSECTION_OF, [set_of [6; 7]]) ].

(** [cyclic_sample]: two existential restrictions that are each other's
    filler. *)
Definition cyclic_sample : DirectColumns := encode
  [ (ROOT_AXIOM, 6) ]
  [ iri_node "http://e/A"; iri_node "http://e/p";
    entity_node "class" 1; entity_node "object_property" 2;
    (TAG_OBJECT_SOME_VALUES_FROM, [node 4; node 7]);
    (TAG_SUB_CLASS_OF, [node 3; node 5; set_of []]);
    (TAG_OBJECT_ALL_VALUES_FROM, [node 4; node 5]) ].

(** [sample] with its second and fourth axioms excluded. *)
Definition excluding_sample : DirectColumns := with_excluded_root_ids sample (column 4 [2; 4]).

(** [ontology_sample]: an axiom of every constructor that is projected.
    A ⊑ B, A ⊑ ∃q.C, A ≡ (B ⊓ C ⊓ ∃q.C), p ⊑ q, the domain A and the range B of
    q, C(i), p(i, _:x) and C(_:x). *)
Definition ontology_sample : DirectColumns := encode
  (pair ROOT_AXIOM <$> [15; 16; 17; 18; 19; 20; 21; 22; 23])
  [ iri_node "http://e/A"; iri_node "http://e/B"; iri_node "http://e/C"; iri_node "http://e/p";
    iri_node "http://e/q"; iri_node "http://e/i";
    entity_node "class" 1; entity_node "class" 2; entity_node "class" 3;
    entity_node "object_property" 4; entity_node "object_property" 5;
    entity_node "named_individual" 6; anonymous_node 7 "x";
    (TAG_OBJECT_SOME_VALUES_FROM, [node 11; node 9]);
    (TAG_SUB_CLASS_OF, [node 7; node 8; set_of []]);
    (TAG_SUB_CLASS_OF, [node 7; node 14; set_of []]);
    (TAG_EQUIVALENT_CLASSES, [set_of [7; 24]; set_of []]);
    (TAG_SUB_OBJECT_PROPERTY_OF, [node 10; node 11; set_of []]);
    (TAG_OBJECT_PROPERTY_DOMAIN, [node 11; node 7; set_of []]);
    (TAG_OBJECT_PROPERTY_RANGE, [node 11; node 8; set_of []]);
    (TAG_CLASS_ASSERTION, [node 9; node 12; set_of []]);
    (TAG_OBJECT_PROPERTY_ASSERTION, [node 10; node 12; node 13; set_of []]);
    (TAG_CLASS_ASSERTION, [node 9; node 13; set_of []]);
    (TAG_OBJECT_INTERSECTION_OF, [set_of [8; 9; 14]]) ].

(** Sizes of the structs as a compiler may choose them. *)
Definition sample_layout : Layout := {|
  size_of_LengthEvent := 16; size_of_EmitTask := 40; size_of_CanonicalTable := 300; size_of_RootOption := 32;
  size_of_named_operand := 24; size_of_restriction_operand := 96; size_of_coordinate_option := 32;
  size_of_aggregate_root := 48; size_of_role_root := 64; size_of_shape_root := 72; size_of_emission_root := 64;
  size_of_rule_plan := 600; size_of_columns := 250; size_of_scope_construct := 1; size_of_scope_target := 24;
  size_of_root_coordinate := 32; size_of_node_coordinate := 24; size_of_tail_plan := 160;
  size_of_role_axiom := 56; size_of_overlay_delta := 112; size_of_local_class := 64; size_of_restriction := 48;
  size_of_occurrence := 40; size_of_group := 104 |}.
