(* ===== verification/Properties.v ===== *)
(** * Annotation and property axioms, restrictions and data ranges

    The validators and projections of [DirectColumns]
    (native/src/encoded_direct.rs) for annotation assertions, annotation, data
    and object property axioms, the role rows that feed the OWLAPI role order,
    restrictions, and the local shape of data ranges. *)

From S2P Require Import Prelude Errors Tags Text Readers Columns Nodes.
Local Open Scope string_scope.
Local Open Scope list_scope.
Local Open Scope N_scope.

Record ObjectPropertyExpression := {
  property_iri : text;
  owlapi_hash : Z;
}.

Record RoleAxiom := {
  role_tag : u16;
  role_first : text;
  role_second : text;
  spread : u32;
  canonical_order : usize;
  source_order : u8;
}.

Record AnnotationProjection := {
  annotation_source : text;
  annotation_relation : text;
  annotation_projected : AnnotationValue;
}.

Record PlannedRestrictionCoordinate := {
  property_node : usize;
  filler_node : usize;
}.

Inductive PlannedIndividualCoordinate :=
  | NamedCoordinate (node_id : usize)
  | AnonymousCoordinate (node_id : usize).

#[export] Instance PlannedRestrictionCoordinate_eq_dec : EqDecision PlannedRestrictionCoordinate.
Proof. solve_decision. Defined.
#[export] Instance PlannedIndividualCoordinate_eq_dec : EqDecision PlannedIndividualCoordinate.
Proof. solve_decision. Defined.

Section properties.
Context `{LowercaseTable} (self : DirectColumns).

(** [for item_index in item_start..item_start + length { f(self.item_node(item_index)?)?; }] *)
Definition for_items (item_start length : usize) (f : usize -> outcome unit) : outcome unit :=
  forM (range item_start (item_start +w length)) (fun item_index =>
    node_id ← item_node self item_index;
    f node_id).

(** A call made for its checks only. *)
Definition ignore {A} (m : outcome A) : outcome unit := _ ← m; Ok tt.

(** [if self.node_tag(node_id)? != expected_tag || ![..].contains(&expected_tag)]. *)
Definition expect_tag (node_id : usize) (expected_tag : u16) (allowed : list u16)
    (message : string) : outcome unit :=
  tag ← node_tag self node_id;
  if negb (tag =? expected_tag) || negb (contains allowed expected_tag)
  then Err (malformed message) else Ok tt.

(** ** Annotations *)

Definition validate_annotation_assertion (node_id maximum_iri : usize) : outcome unit :=
  tag ← node_tag self node_id;
  if negb (tag =? TAG_ANNOTATION_ASSERTION) then
    Err (malformed "encoded annotation-assertion cursor has the wrong constructor tag") else
  start ← exact_fields self node_id 4;
  property_id ← field_node self start;
  _ ← named_annotation_property_iri self property_id maximum_iri;
  subject_id ← field_node self (start +w 1);
  subject_tag ← node_tag self subject_id;
  _ ← (if subject_tag =? TAG_IRI then ignore (iri self subject_id maximum_iri)
       else if subject_tag =? TAG_ANONYMOUS_INDIVIDUAL then
         validate_anonymous_individual self subject_id
       else Err (malformed "encoded annotation subject is not an IRI or anonymous individual"));
  value_id ← field_node self (start +w 2);
  _ ← annotation_value self value_id maximum_iri;
  validate_annotation_set self (start +w 3).

Definition validate_sub_annotation_property_of (node_id maximum_iri : usize) : outcome unit :=
  tag ← node_tag self node_id;
  if negb (tag =? TAG_SUB_ANNOTATION_PROPERTY_OF) then
    Err (malformed "encoded sub-annotation-property cursor has the wrong constructor tag") else
  start ← exact_fields self node_id 3;
  sub_id ← field_node self start;
  _ ← named_annotation_property_iri self sub_id maximum_iri;
  super_id ← field_node self (start +w 1);
  _ ← named_annotation_property_iri self super_id maximum_iri;
  validate_annotation_set self (start +w 2).

Definition validate_annotation_property_iri_axiom (node_id : usize) (expected_tag : u16)
    (maximum_iri : usize) : outcome unit :=
  _ ← expect_tag node_id expected_tag
        [TAG_ANNOTATION_PROPERTY_DOMAIN; TAG_ANNOTATION_PROPERTY_RANGE]
        "encoded annotation-property IRI axiom cursor has the wrong constructor tag";
  start ← exact_fields self node_id 3;
  property_id ← field_node self start;
  _ ← named_annotation_property_iri self property_id maximum_iri;
  iri_id ← field_node self (start +w 1);
  _ ← iri self iri_id maximum_iri;
  validate_annotation_set self (start +w 2).

Definition contains_class_iri (target : text) (maximum_iri : usize) : Cx bool :=
  found ← fold_until (fun '() node_id =>
    _ ← check_cancel node_id;
    tag ← !node_tag self node_id;
    if negb (tag =? TAG_ENTITY) then mret (Continue tt) else
    '(kind, iri_id) ← !entity self node_id;
    if bool_decide (kind = str "class") then
      value ← !iri self iri_id maximum_iri;
      if bool_decide (value = target) then mret (Return true) else mret (Continue tt)
    else mret (Continue tt)) tt (range 1 (node_count self + 1));
  mret (match found with Return found => found | Continue _ => false end).

Definition annotation_relation_of (property : text) : text :=
  if bool_decide (property = str "http://www.w3.org/2000/01/rdf-schema#label")
  then str "rdfs:label"
  else if bool_decide (property = str "http://www.w3.org/2000/01/rdf-schema#comment")
  then str "rdfs:comment"
  else property.

Definition annotation_projection (node_id maximum_iri : usize)
    : Cx (option AnnotationProjection) :=
  tag ← !node_tag self node_id;
  if negb (tag =? TAG_ANNOTATION_ASSERTION) then
    !Err (malformed "encoded annotation projection cursor has the wrong constructor tag") else
  start ← !exact_fields self node_id 4;
  property_id ← !field_node self start;
  property ← !named_annotation_property_iri self property_id maximum_iri;
  if negb (contains ANNOTATION_PROPERTIES property) then mret None else
  subject_id ← !field_node self (start +w 1);
  subject_tag ← !node_tag self subject_id;
  if subject_tag =? TAG_ANONYMOUS_INDIVIDUAL then
    _ ← !validate_anonymous_individual self subject_id; mret None
  else if negb (subject_tag =? TAG_IRI) then
    !Err (malformed "encoded annotation subject changed after successful preflight")
  else
    source ← !iri self subject_id maximum_iri;
    is_class ← contains_class_iri source maximum_iri;
    if negb is_class then mret None else
    value_id ← !field_node self (start +w 2);
    value ← !annotation_value self value_id maximum_iri;
    mret (Some {| annotation_source := source;
                  annotation_relation := annotation_relation_of property;
                  annotation_projected := value |}).

(** ** Data properties *)

Definition validate_binary_data_property_axiom (node_id : usize) (expected_tag : u16)
    (maximum : usize) : outcome unit :=
  _ ← expect_tag node_id expected_tag [TAG_SUB_DATA_PROPERTY_OF]
        "encoded data-property axiom cursor has the wrong constructor tag";
  start ← exact_fields self node_id 3;
  first ← field_node self start;
  _ ← named_data_property_iri self first maximum;
  second ← field_node self (start +w 1);
  _ ← named_data_property_iri self second maximum;
  validate_annotation_set self (start +w 2).

Definition validate_data_property_set_axiom (node_id : usize) (expected_tag : u16)
    (maximum : usize) : outcome unit :=
  _ ← expect_tag node_id expected_tag
        [TAG_EQUIVALENT_DATA_PROPERTIES; TAG_DISJOINT_DATA_PROPERTIES]
        "encoded data-property set cursor has the wrong constructor tag";
  start ← exact_fields self node_id 2;
  '(item_start, length) ← node_set_range self start 2;
  _ ← for_items item_start length (fun item => ignore (named_data_property_iri self item maximum));
  validate_annotation_set self (start +w 1).

Definition validate_functional_data_property (node_id maximum : usize) : outcome unit :=
  tag ← node_tag self node_id;
  if negb (tag =? TAG_FUNCTIONAL_DATA_PROPERTY) then
    Err (malformed "encoded functional data-property cursor has the wrong constructor tag") else
  start ← exact_fields self node_id 2;
  property ← field_node self start;
  _ ← named_data_property_iri self property maximum;
  validate_annotation_set self (start +w 1).

Definition validate_data_property_assertion (node_id : usize) (expected_tag : u16)
    (maximum : usize) : outcome unit :=
  _ ← expect_tag node_id expected_tag
        [TAG_DATA_PROPERTY_ASSERTION; TAG_NEGATIVE_DATA_PROPERTY_ASSERTION]
        "encoded data-property assertion cursor has the wrong constructor tag";
  start ← exact_fields self node_id 4;
  property ← field_node self start;
  _ ← named_data_property_iri self property maximum;
  individual ← field_node self (start +w 1);
  _ ← validate_individual self individual maximum;
  literal ← field_node self (start +w 2);
  _ ← validate_literal self literal maximum;
  validate_annotation_set self (start +w 3).

Definition validate_individual_set_axiom (node_id : usize) (expected_tag : u16)
    (maximum : usize) : outcome unit :=
  _ ← expect_tag node_id expected_tag [TAG_SAME_INDIVIDUAL; TAG_DIFFERENT_INDIVIDUALS]
        "encoded individual-set cursor has the wrong constructor tag";
  start ← exact_fields self node_id 2;
  '(item_start, length) ← node_set_range self start 2;
  _ ← for_items item_start length (fun item => validate_individual self item maximum);
  validate_annotation_set self (start +w 1).

(** ** Object properties *)

Definition object_inverse_iri (node_id maximum : usize) : outcome text :=
  tag ← node_tag self node_id;
  if negb (tag =? TAG_OBJECT_INVERSE_OF) then
    Err (malformed "encoded inverse-property cursor has the wrong constructor tag") else
  start ← exact_fields self node_id 1;
  property ← field_node self start;
  named_object_property_iri self property maximum.

Definition object_property_expression_iri (node_id maximum : usize) : outcome text :=
  tag ← node_tag self node_id;
  if tag =? TAG_ENTITY then named_object_property_iri self node_id maximum
  else if tag =? TAG_OBJECT_INVERSE_OF then object_inverse_iri node_id maximum
  else if is_schema_tag tag then
    Err (unsupported "direct native slice supports only named or inverse object properties here")
  else Err (outside_schema "encoded object-property expression tag" tag).

Definition object_property_expression (node_id maximum : usize)
    : outcome ObjectPropertyExpression :=
  tag ← node_tag self node_id;
  iri ← object_property_expression_iri node_id maximum;
  let named_hash := combine_hash 4153 [owlapi_iri_hash iri] in
  Ok {| property_iri := iri;
        owlapi_hash := if tag =? TAG_OBJECT_INVERSE_OF
                       then combine_hash 4241 [named_hash] else named_hash |}.

Definition validate_object_property_chain (node_id maximum : usize) : outcome unit :=
  tag ← node_tag self node_id;
  if negb (tag =? TAG_OBJECT_PROPERTY_CHAIN) then
    Err (malformed "encoded object-property-chain cursor has the wrong constructor tag") else
  start ← exact_fields self node_id 1;
  '(item_start, length) ← node_sequence_range self start 2;
  for_items item_start length (fun item => ignore (object_property_expression item maximum)).

Definition validate_sub_object_property_of (node_id maximum : usize) : outcome bool :=
  tag ← node_tag self node_id;
  if negb (tag =? TAG_SUB_OBJECT_PROPERTY_OF) then
    Err (malformed "encoded sub-object-property cursor has the wrong constructor tag") else
  start ← exact_fields self node_id 3;
  first_id ← field_node self start;
  first_tag ← node_tag self first_id;
  let is_chain := first_tag =? TAG_OBJECT_PROPERTY_CHAIN in
  _ ← (if is_chain then validate_object_property_chain first_id maximum
       else ignore (object_property_expression first_id maximum));
  second_id ← field_node self (start +w 1);
  _ ← object_property_expression second_id maximum;
  _ ← annotation_set_hash self (start +w 2) maximum;
  Ok is_chain.

Definition role_axiom_parts (node_id : usize) (expected_tag : u16) (maximum : usize)
    : outcome (ObjectPropertyExpression * ObjectPropertyExpression * Z) :=
  _ ← expect_tag node_id expected_tag
        [TAG_SUB_OBJECT_PROPERTY_OF; TAG_INVERSE_OBJECT_PROPERTIES]
        "encoded role-axiom cursor has the wrong constructor tag";
  start ← exact_fields self node_id 3;
  first_id ← field_node self start;
  first ← object_property_expression first_id maximum;
  second_id ← field_node self (start +w 1);
  second ← object_property_expression second_id maximum;
  annotation_hash ← annotation_set_hash self (start +w 2) maximum;
  Ok (first, second, annotation_hash).

(** The OWLAPI hash of a role axiom; the inverse axiom's is symmetric in its
    two properties. *)
Definition role_axiom_hash (expected_tag : u16) (first second annotation_hash : Z) : Z :=
  if expected_tag =? TAG_SUB_OBJECT_PROPERTY_OF
  then combine_hash 1823 [first; second; annotation_hash]
  else combine_hash 1229 [i32_wrapping_add first second; annotation_hash].

(** [owlapi_hash as u32], spread as Java's [HashMap] spreads it. *)
Definition spread_hash (owlapi_hash : Z) : u32 :=
  let unsigned := Z.to_N (owlapi_hash mod 4294967296) in
  N.lxor unsigned (N.shiftr unsigned 16).

Definition role_axiom_row (node_id : usize) (expected_tag : u16)
    (maximum canonical_order : usize) (source_order : u8) : outcome RoleAxiom :=
  '(first, second, annotation_hash) ← role_axiom_parts node_id expected_tag maximum;
  Ok {| role_tag := expected_tag; role_first := first.(property_iri);
        role_second := second.(property_iri);
        spread := spread_hash (role_axiom_hash expected_tag first.(owlapi_hash)
                                 second.(owlapi_hash) annotation_hash);
        canonical_order := canonical_order; source_order := source_order |}.

Definition validate_object_property_set_axiom (node_id : usize) (expected_tag : u16)
    (maximum : usize) : outcome unit :=
  _ ← expect_tag node_id expected_tag
        [TAG_EQUIVALENT_OBJECT_PROPERTIES; TAG_DISJOINT_OBJECT_PROPERTIES]
        "encoded object-property set cursor has the wrong constructor tag";
  start ← exact_fields self node_id 2;
  '(item_start, length) ← node_set_range self start 2;
  _ ← for_items item_start length (fun item => ignore (object_property_expression item maximum));
  validate_annotation_set self (start +w 1).

Definition validate_object_property_characteristic (node_id maximum : usize) : outcome unit :=
  tag ← node_tag self node_id;
  if negb (is_object_property_characteristic tag) then
    Err (malformed "encoded object-property characteristic cursor has the wrong constructor tag")
  else
  start ← exact_fields self node_id 2;
  property ← field_node self start;
  _ ← object_property_expression property maximum;
  validate_annotation_set self (start +w 1).

Definition object_property_assertion_parts (node_id maximum : usize)
    : outcome (IndividualValue * text * IndividualValue) :=
  tag ← node_tag self node_id;
  if negb (tag =? TAG_OBJECT_PROPERTY_ASSERTION) then
    Err (malformed "encoded object-property assertion cursor has the wrong constructor tag") else
  start ← exact_fields self node_id 4;
  property_id ← field_node self start;
  property_tag ← node_tag self property_id;
  relation ←
    (if property_tag =? TAG_ENTITY then named_object_property_iri self property_id maximum
     else if property_tag =? TAG_OBJECT_INVERSE_OF then
       _ ← object_inverse_iri property_id maximum;
       Err (reference_failure "the pinned mOWL profile fails on inverse object-property assertions")
     else Err (unsupported "direct native slice requires a named ObjectPropertyAssertion property"));
  source_id ← field_node self (start +w 1);
  source ← individual_value self source_id maximum;
  destination_id ← field_node self (start +w 2);
  destination ← individual_value self destination_id maximum;
  _ ← validate_annotation_set self (start +w 3);
  Ok (source, relation, destination).

Definition validate_negative_object_property_assertion (node_id maximum : usize) : outcome unit :=
  tag ← node_tag self node_id;
  if negb (tag =? TAG_NEGATIVE_OBJECT_PROPERTY_ASSERTION) then
    Err (malformed "encoded negative object-property assertion cursor has the wrong constructor tag")
  else
  start ← exact_fields self node_id 4;
  property ← field_node self start;
  _ ← object_property_expression_iri property maximum;
  source ← field_node self (start +w 1);
  _ ← validate_individual self source maximum;
  destination ← field_node self (start +w 2);
  _ ← validate_individual self destination maximum;
  _ ← validate_annotation_set self (start +w 3);
  Ok tt.

(** ** Restrictions *)

Definition validate_class_expression_reference (node_id maximum : usize) : outcome unit :=
  tag ← node_tag self node_id;
  if tag =? TAG_ENTITY then ignore (named_class_iri self node_id maximum)
  else if is_class_expression_tag tag then Ok tt
  else if is_schema_tag tag then
    Err (malformed "encoded class-expression reference has the wrong constructor tag")
  else Err (outside_schema "encoded class-expression tag" tag).

(** The field indexes of the property and of the filler. *)
Definition restriction_indexes (node_id : usize) : outcome (usize * usize) :=
  tag ← node_tag self node_id;
  if contains [TAG_OBJECT_SOME_VALUES_FROM; TAG_OBJECT_ALL_VALUES_FROM] tag then
    start ← exact_fields self node_id 2;
    Ok (start, start +w 1)
  else if contains [TAG_OBJECT_MIN_CARDINALITY; TAG_OBJECT_MAX_CARDINALITY] tag then
    start ← exact_fields self node_id 3;
    _ ← canonical_integer self start;
    Ok (start +w 1, start +w 2)
  else if is_schema_tag tag then
    Err (unsupported ("direct native slice does not support restriction tag " +:+ pretty tag))
  else Err (outside_schema "encoded restriction tag" tag).

Definition restriction_projection (node_id maximum : usize) : outcome (option (text * text)) :=
  '(property_index, filler_index) ← restriction_indexes node_id;
  property ← field_node self property_index;
  relation ← object_property_expression_iri property maximum;
  filler_id ← field_node self filler_index;
  _ ← validate_class_expression_reference filler_id maximum;
  filler_tag ← node_tag self filler_id;
  if negb (filler_tag =? TAG_ENTITY) then Ok None else
  filler ← named_class_iri self filler_id maximum;
  Ok (Some (relation, filler)).

Definition planned_restriction_coordinate (node_id : usize)
    : outcome PlannedRestrictionCoordinate :=
  tag ← node_tag self node_id;
  '(property_index, filler_index) ←
    (if contains [TAG_OBJECT_SOME_VALUES_FROM; TAG_OBJECT_ALL_VALUES_FROM] tag then
       start ← exact_fields self node_id 2;
       Ok (start, start +w 1)
     else if contains [TAG_OBJECT_MIN_CARDINALITY; TAG_OBJECT_MAX_CARDINALITY] tag then
       start ← exact_fields self node_id 3;
       Ok (start +w 1, start +w 2)
     else Err (malformed "encoded planned restriction has the wrong constructor tag"));
  property_expression ← field_node self property_index;
  property_tag ← node_tag self property_expression;
  property_node ←
    (if property_tag =? TAG_ENTITY then Ok property_expression
     else if property_tag =? TAG_OBJECT_INVERSE_OF then
       start ← exact_fields self property_expression 1;
       field_node self start
     else Err (malformed "encoded planned restriction property changed after classification"));
  filler_node ← field_node self filler_index;
  Ok {| property_node := property_node; filler_node := filler_node |}.

Definition planned_individual_coordinate (value : IndividualValue) (node_id : usize)
    : outcome PlannedIndividualCoordinate :=
  let changed := Err (malformed "encoded planned individual changed after classification") in
  match value with
  | Named _ =>
      tag ← node_tag self node_id;
      if tag =? TAG_ENTITY then Ok (NamedCoordinate node_id) else changed
  | Anonymous expected =>
      if negb (expected =? node_id) then changed else
      tag ← node_tag self node_id;
      if tag =? TAG_ANONYMOUS_INDIVIDUAL then Ok (AnonymousCoordinate node_id) else changed
  end.

Definition planned_restriction_parts (coordinate : PlannedRestrictionCoordinate)
    (maximum : usize) : outcome (text * text) :=
  relation ← named_object_property_iri self coordinate.(property_node) maximum;
  destination ← named_class_iri self coordinate.(filler_node) maximum;
  Ok (relation, destination).

(** ** Data ranges, one node deep *)

Definition validate_facet_restriction (node_id maximum : usize) : outcome unit :=
  tag ← node_tag self node_id;
  if negb (tag =? TAG_FACET_RESTRICTION) then
    Err (malformed "encoded facet-restriction cursor has the wrong constructor tag") else
  start ← exact_fields self node_id 2;
  facet ← field_node self start;
  _ ← iri self facet maximum;
  literal ← field_node self (start +w 1);
  validate_literal self literal maximum.

Definition validate_data_range_reference (node_id maximum : usize) : outcome unit :=
  tag ← node_tag self node_id;
  if tag =? TAG_ENTITY then ignore (named_datatype_iri self node_id maximum)
  else if is_data_range_tag tag then Ok tt
  else if is_schema_tag tag then
    Err (malformed "encoded data-range reference has the wrong constructor tag")
  else Err (outside_schema "encoded data-range tag" tag).

Definition validate_data_range_node (node_id maximum : usize) : outcome unit :=
  tag ← node_tag self node_id;
  if tag =? TAG_ENTITY then ignore (named_datatype_iri self node_id maximum)
  else if contains [TAG_DATA_INTERSECTION_OF; TAG_DATA_UNION_OF] tag then
    start ← exact_fields self node_id 1;
    '(item_start, length) ← node_set_range self start 2;
    for_items item_start length (fun operand_id =>
      operand_tag ← node_tag self operand_id;
      if operand_tag =? tag then
        Err (malformed "encoded data-range aggregate operands are not flattened")
      else validate_data_range_reference operand_id maximum)
  else if tag =? TAG_DATA_COMPLEMENT_OF then
    start ← exact_fields self node_id 1;
    operand ← field_node self start;
    validate_data_range_reference operand maximum
  else if tag =? TAG_DATA_ONE_OF then
    start ← exact_fields self node_id 1;
    '(item_start, length) ← node_set_range self start 1;
    for_items item_start length (fun item => validate_literal self item maximum)
  else if tag =? TAG_DATATYPE_RESTRICTION then
    start ← exact_fields self node_id 2;
    datatype ← field_node self start;
    _ ← named_datatype_iri self datatype maximum;
    '(item_start, length) ← node_set_range self (start +w 1) 1;
    for_items item_start length (fun item => validate_facet_restriction item maximum)
  else if is_schema_tag tag then
    Err (malformed "encoded data-range reference has the wrong constructor tag")
  else Err (outside_schema "encoded data-range tag" tag).

Definition validate_data_property_range (node_id maximum : usize) : outcome unit :=
  tag ← node_tag self node_id;
  if negb (tag =? TAG_DATA_PROPERTY_RANGE) then
    Err (malformed "encoded data-property range cursor has the wrong constructor tag") else
  start ← exact_fields self node_id 3;
  property ← field_node self start;
  _ ← named_data_property_iri self property maximum;
  range_id ← field_node self (start +w 1);
  _ ← validate_data_range_node range_id maximum;
  validate_annotation_set self (start +w 2).

Definition validate_datatype_definition (node_id maximum : usize) : outcome unit :=
  tag ← node_tag self node_id;
  if negb (tag =? TAG_DATATYPE_DEFINITION) then
    Err (malformed "encoded datatype-definition cursor has the wrong constructor tag") else
  start ← exact_fields self node_id 3;
  datatype ← field_node self start;
  _ ← named_datatype_iri self datatype maximum;
  range_id ← field_node self (start +w 1);
  _ ← validate_data_range_node range_id maximum;
  validate_annotation_set self (start +w 2).
End properties.
