(* ===== verification/Hashes.v ===== *)
(** * The Java hashes

    [java_string_hash], [combine_hash] and [owlapi_iri_hash] reproduce the
    hash codes OWLAPI's tables are ordered by: their wrapping arithmetic is the
    exact polynomial reduced to 32 bits, and the namespace split is on a
    character boundary. *)

From Stdlib Require Import ZArith.
From S2P Require Import Prelude Errors Tags Text Columns Nodes Properties.
Local Open Scope string_scope.
Local Open Scope list_scope.
Local Open Scope Z_scope.

(** Java's [int] range. *)
Definition is_i32 (z : Z) : Prop := -2147483648 <= z < 2147483648.

(** [seed * 31^n + s[0] * 31^(n-1) + ... + s[n-1]], exactly. *)
Definition polynomial (seed : Z) (units : list Z) : Z :=
  fold_left (fun acc unit_ => acc * 31 + unit_) units seed.

Lemma wrap_i32_range z : is_i32 (wrap_i32 z).
Proof.
  unfold wrap_i32, is_i32. pose proof (Z.mod_pos_bound (z + 2147483648) 4294967296 ltac:(lia)). lia.
Qed.

Lemma wrap_i32_id z : is_i32 z -> wrap_i32 z = z.
Proof. unfold wrap_i32, is_i32. intros H. rewrite Z.mod_small; lia. Qed.

Lemma wrap_i32_cong a b : (a - b) mod 4294967296 = 0 -> wrap_i32 a = wrap_i32 b.
Proof.
  intros H. unfold wrap_i32. f_equal.
  replace (a + 2147483648) with ((b + 2147483648) + (a - b)) by lia.
  rewrite Z.add_mod, H, Z.add_0_r, Z.mod_mod by lia. done.
Qed.

Lemma wrap_i32_diff z : (wrap_i32 z - z) mod 4294967296 = 0.
Proof.
  unfold wrap_i32. pose proof (Z.div_mod (z + 2147483648) 4294967296 ltac:(lia)) as H.
  replace ((z + 2147483648) mod 4294967296 - 2147483648 - z)
    with (- ((z + 2147483648) / 4294967296) * 4294967296) by lia.
  apply Z.mod_mul. lia.
Qed.

(** One wrapping step is the exact step, reduced. *)
Lemma hash_step a u :
  i32_wrapping_add (i32_wrapping_mul (wrap_i32 a) 31) u = wrap_i32 (a * 31 + u).
Proof.
  unfold i32_wrapping_add, i32_wrapping_mul. apply wrap_i32_cong.
  pose proof (wrap_i32_diff a) as H1. pose proof (wrap_i32_diff (wrap_i32 a * 31)) as H2.
  apply Z.mod_divide in H1 as [q1 H1]; [|lia]. apply Z.mod_divide in H2 as [q2 H2]; [|lia].
  replace (wrap_i32 (wrap_i32 a * 31) + u - (a * 31 + u))
    with ((q2 + q1 * 31) * 4294967296) by lia.
  apply Z.mod_mul. lia.
Qed.

Lemma combine_hash_polynomial seed components : is_i32 seed ->
  combine_hash seed components = wrap_i32 (polynomial seed components).
Proof.
  intros Hs. unfold combine_hash, polynomial. rewrite <- (wrap_i32_id seed Hs) at 1.
  generalize seed. induction components as [|c l IH]; intros s; [done|].
  cbn [fold_left]. rewrite hash_step. apply IH.
Qed.

Lemma java_string_hash_combine value :
  java_string_hash value = combine_hash 0 (Z.of_N <$> encode_utf16 value).
Proof.
  unfold java_string_hash, combine_hash. generalize 0.
  induction (encode_utf16 value) as [|u l IH]; intros s; [done|]. cbn. apply IH.
Qed.

(** ** The namespace split *)

Local Open Scope N_scope.

Lemma continuation_high lo hi b : 128 <= lo -> continuation lo hi b = true -> 128 <= u8_of_byte b.
Proof. unfold continuation, in_range. intros H [H1%N.leb_le _]%andb_true_iff. lia. Qed.

(** An ASCII byte is a character of its own: what precedes it decodes alone. *)
Lemma utf8_split_at n : forall p b q cs, (length p <= n)%nat -> u8_of_byte b < 128 ->
  utf8_decode (p ++ b :: q) = Some cs ->
  exists c1 c2, utf8_decode p = Some c1 /\ utf8_decode (b :: q) = Some c2 /\ cs = c1 ++ c2.
Proof.
  induction n as [|n IH]; intros p b q cs Hp Hb H.
  { destruct p; [|cbn in Hp; lia]. by exists [], cs. }
  assert (Hc : forall x, continuation (if x =? 0xE0 then 0xA0 else 0x80) (if x =? 0xED then 0x9F else 0xBF) b = false
    /\ continuation (if x =? 0xF0 then 0x90 else 0x80) (if x =? 0xF4 then 0x8F else 0xBF) b = false
    /\ continuation 0x80 0xBF b = false).
  { intros x. split; [|split]; apply not_true_iff_false; intros Hx%continuation_high; try lia;
      try (destruct (_ =? _); lia). }
  destruct p as [|b0 p]; [by exists [], cs|]. cbn [length] in Hp.
  assert (Hcons : forall c p' rest, (length p' <= n)%nat -> cons c <$> utf8_decode (p' ++ b :: q) = Some rest ->
    exists c1 c2, cons c <$> utf8_decode p' = Some c1 /\ utf8_decode (b :: q) = Some c2 /\ rest = c1 ++ c2).
  { intros c p' rest Hp' (r&Hr&->)%fmap_Some. destruct (IH p' b q r Hp' Hb Hr) as (c1&c2&->&->&->).
    by exists (c :: c1), c2. }
  cbn [app utf8_decode] in H |- *. destruct (u8_of_byte b0 <? 0x80).
  { apply (Hcons (u8_of_byte b0) p); [lia|exact H]. }
  destruct p as [|b1 p]; cbn [app] in H |- *.
  { exfalso. destruct (Hc (u8_of_byte b0)) as (H1&H2&H3). rewrite H1, H2, H3 in H. cbn [andb] in H.
    repeat case_match; done. }
  destruct (in_range 0xC2 0xDF (u8_of_byte b0)).
  { destruct (continuation 0x80 0xBF b1); [|done]. apply Hcons; [cbn in Hp; lia|exact H]. }
  destruct p as [|b2 p]; cbn [app] in H |- *.
  { exfalso. destruct (Hc (u8_of_byte b0)) as (H1&H2&H3). rewrite H3 in H.
    rewrite !andb_false_r in H. repeat case_match; done. }
  destruct (in_range 0xE0 0xEF (u8_of_byte b0)).
  { destruct (_ && _); [|done]. apply Hcons; [cbn in Hp; lia|exact H]. }
  destruct p as [|b3 p]; cbn [app] in H |- *.
  { exfalso. destruct (Hc (u8_of_byte b0)) as (H1&H2&H3). rewrite H3 in H.
    rewrite !andb_false_r in H. repeat case_match; done. }
  destruct (in_range 0xF0 0xF4 (u8_of_byte b0)); [|done].
  destruct (_ && _ && _); [|done]. apply Hcons; [cbn in Hp; lia|exact H].
Qed.

Lemma is_separator_ascii b : is_separator b = true -> u8_of_byte b < 128.
Proof.
  unfold is_separator. intros H%contains_true. revert b H.
  apply Forall_forall. by repeat (apply Forall_cons; split; [by vm_compute|]).
Qed.

(** The split is just after the last separator. *)
Lemma split_offset_spec value :
  match split_offset value with
  | Some n => exists p b q, value = p ++ b :: q /\ is_separator b = true /\
                n = S (length p) /\ Forall (fun b => is_separator b = false) q
  | None => Forall (fun b => is_separator b = false) value
  end.
Proof.
  induction value as [|b value IH]; cbn [split_offset]; [constructor|].
  destruct (split_offset value) as [n|].
  - destruct IH as (p&b'&q&->&Hb&->&Hq). by exists (b :: p), b', q.
  - destruct (is_separator b) eqn:E; [by exists [], b, value|by constructor].
Qed.

Lemma utf8_decode_ascii b : u8_of_byte b < 128 -> utf8_decode [b] = Some [u8_of_byte b].
Proof. intros H. cbn. by destruct (N.ltb_spec (u8_of_byte b) 128); [|lia]. Qed.

Lemma utf8_decode_ascii_cons b q : u8_of_byte b < 128 ->
  utf8_decode (b :: q) = cons (u8_of_byte b) <$> utf8_decode q.
Proof. intros H. cbn [utf8_decode]. by destruct (N.ltb_spec (u8_of_byte b) 128); [|lia]. Qed.

Lemma utf8_decode_app a b ca cb :
  utf8_decode a = Some ca -> utf8_decode b = Some cb -> utf8_decode (a ++ b) = Some (ca ++ cb).
Proof.
  intros Ha Hb. remember (length a) as n eqn:Hn. assert (Hle : (length a <= n)%nat) by lia. clear Hn.
  revert a ca Hle Ha. induction n as [|n IH]; intros a ca Hle Ha.
  { destruct a; [|cbn in Hle; lia]. by injection Ha as <-. }
  assert (Hcons : forall c a' r, (length a' <= n)%nat -> cons c <$> utf8_decode a' = Some r ->
    cons c <$> utf8_decode (a' ++ b) = Some (r ++ cb)).
  { intros c a' r Hl (r'&Hr&->)%fmap_Some. by rewrite (IH a' r' Hl Hr). }
  destruct a as [|b0 a]; [by injection Ha as <-|]. cbn [length] in Hle.
  cbn [app utf8_decode] in Ha |- *. destruct (_ <? _); [apply Hcons; [lia|done]|].
  destruct a as [|b1 a]; [done|]. cbn [app length] in *.
  destruct (in_range 0xC2 0xDF _); [destruct (continuation _ _ _); [|done]; apply Hcons; [lia|done]|].
  destruct a as [|b2 a]; [done|]. cbn [app length] in *.
  destruct (in_range 0xE0 0xEF _); [destruct (_ && _); [|done]; apply Hcons; [lia|done]|].
  destruct a as [|b3 a]; [done|]. cbn [app length] in *.
  destruct (in_range 0xF0 0xF4 _); [|done]. destruct (_ && _ && _); [|done]. apply Hcons; [lia|done].
Qed.

(** ** Theorems *)

(** C39: The wrapping loops compute Java's hashes: [combine_hash] is the exact
    polynomial [seed * 31^n + ... + s[n-1]] reduced to a signed 32-bit integer,
    [java_string_hash] the same over the UTF-16 units, and neither leaves the
    range of [i32]. *)
Theorem java_hashes_polynomial seed components value : is_i32 seed ->
  combine_hash seed components = wrap_i32 (polynomial seed components) /\
  is_i32 (combine_hash seed components) /\
  java_string_hash value = wrap_i32 (polynomial 0 (Z.of_N <$> encode_utf16 value)) /\
  is_i32 (java_string_hash value).
Proof.
  intros Hs. rewrite java_string_hash_combine, !combine_hash_polynomial by done.
  split; [done|]. split; [apply wrap_i32_range|]. split; [done|apply wrap_i32_range].
Qed.

(** [owlapi_iri_hash] splits a valid text just after its last ['#'], ['/']
    or [':'], always on a character boundary, so that slicing there cannot
    panic, and adds the Java hashes of the two parts. *)
Theorem owlapi_iri_hash_splits value cs : utf8_decode value = Some cs ->
  exists namespace remainder c1 c2,
    value = namespace ++ remainder /\
    utf8_decode namespace = Some c1 /\ utf8_decode remainder = Some c2 /\ cs = c1 ++ c2 /\
    Forall (fun b => is_separator b = false) remainder /\
    (namespace = [] \/ exists p b, namespace = p ++ [b] /\ is_separator b = true) /\
    owlapi_iri_hash value = i32_wrapping_add (java_string_hash namespace) (java_string_hash remainder).
Proof.
  intros Hv. unfold owlapi_iri_hash. cbn zeta. pose proof (split_offset_spec value) as Hs.
  destruct (split_offset value) as [n|]; cbn [from_option id].
  - destruct Hs as (p&b&q&->&Hb&->&Hq). pose proof (is_separator_ascii b Hb) as Ha.
    destruct (utf8_split_at (length p) p b q cs (le_n _) Ha Hv) as (c1&c2&H1&H2&->).
    rewrite (utf8_decode_ascii_cons b q Ha) in H2. apply fmap_Some in H2 as (c3&H3&->).
    assert (Ht : take (S (length p)) (p ++ b :: q) = p ++ [b]).
    { rewrite take_app_ge by lia. replace (S (length p) - length p)%nat with 1%nat by lia. done. }
    assert (Hd : drop (S (length p)) (p ++ b :: q) = q).
    { rewrite drop_app_ge by lia. replace (S (length p) - length p)%nat with 1%nat by lia. done. }
    exists (p ++ [b]), q, (c1 ++ [u8_of_byte b]), c3. rewrite Ht, Hd.
    split; [by rewrite <- app_assoc|].
    split; [by apply utf8_decode_app, utf8_decode_ascii|]. split; [done|].
    split; [by rewrite <- app_assoc|]. split; [done|]. split; [right; by exists p, b|done].
  - exists [], value, [], cs. repeat (split; [done|]). split; [by left|done].
Qed.

Lemma java_hashes_polynomial_witness :
  java_string_hash (str "http://example.org/ontology") = (-26976464)%Z /\
  is_i32 (java_string_hash (str "http://example.org/ontology")).
Proof.
  split; [by vm_compute|].
  apply (java_hashes_polynomial 1823%Z [] (str "http://example.org/ontology")). by vm_compute.
Defined.

Lemma owlapi_iri_hash_splits_witness :
  exists namespace remainder c1 c2,
    str "http://e/o#A" = namespace ++ remainder /\
    utf8_decode namespace = Some c1 /\ utf8_decode remainder = Some c2 /\
    chars (str "http://e/o#A") = c1 ++ c2 /\
    Forall (fun b => is_separator b = false) remainder /\
    (namespace = [] \/ exists p b, namespace = p ++ [b] /\ is_separator b = true) /\
    owlapi_iri_hash (str "http://e/o#A") =
      i32_wrapping_add (java_string_hash namespace) (java_string_hash remainder).
Proof. apply (owlapi_iri_hash_splits (str "http://e/o#A")). by vm_compute. Defined.
