(* ===== verification/Classes.v ===== *)
(** * Class expressions and the class axioms

    The bounded class envelope of [DirectColumns]
    (native/src/encoded_direct.rs): ranks of class expressions, the
    projections of SubClassOf, EquivalentClasses, ClassAssertion and object
    domain/range axioms, and the validators that need class expressions. *)

From S2P Require Import Prelude Errors Tags Text Readers Columns Nodes Properties.
Local Open Scope string_scope.
Local Open Scope list_scope.
Local Open Scope N_scope.

Inductive SubclassProjection :=
  | Taxonomy (source destination : text)
  | Restriction (source relation destination : text)
  | SubclassIgnored.

Inductive ClassAssertionProjection :=
  | Edge_ (individual : text) (individual_node : usize) (class : text) (class_node : usize)
  | ClassAssertionIgnored.

Inductive EquivalentProjection :=
  | Pair (source : text) (source_node : usize) (destination : text) (destination_node : usize)
  | Aggregate (source : text) (source_node expression_id : usize)
  | EquivalentIgnored.

#[export] Instance SubclassProjection_eq_dec : EqDecision SubclassProjection.
Proof. solve_decision. Defined.
#[export] Instance ClassAssertionProjection_eq_dec : EqDecision ClassAssertionProjection.
Proof. solve_decision. Defined.
#[export] Instance EquivalentProjection_eq_dec : EqDecision EquivalentProjection.
Proof. solve_decision. Defined.

(** [(left.as_bytes(), left_id) < (right.as_bytes(), right_id)]. *)
Definition keyed_lt (left right : text * usize) : bool :=
  is_lt (then_with (bytes_cmp left.1 right.1) (left.2 ?= right.2)).

Section classes.
Context `{LowercaseTable} (self : DirectColumns).

Definition validate_data_class_expression (node_id maximum : usize) : outcome unit :=
  tag ← node_tag self node_id;
  if contains [TAG_DATA_SOME_VALUES_FROM; TAG_DATA_ALL_VALUES_FROM] tag then
    start ← exact_fields self node_id 2;
    '(item_start, length) ← node_sequence_range self start 1;
    _ ← for_items self item_start length
          (fun item => ignore (named_data_property_iri self item maximum));
    range_id ← field_node self (start +w 1);
    validate_data_range_node self range_id maximum
  else if tag =? TAG_DATA_HAS_VALUE then
    start ← exact_fields self node_id 2;
    property ← field_node self start;
    _ ← named_data_property_iri self property maximum;
    literal ← field_node self (start +w 1);
    validate_literal self literal maximum
  else if contains [TAG_DATA_MIN_CARDINALITY; TAG_DATA_MAX_CARDINALITY;
                    TAG_DATA_EXACT_CARDINALITY] tag then
    start ← exact_fields self node_id 3;
    _ ← canonical_integer self start;
    property ← field_node self (start +w 1);
    _ ← named_data_property_iri self property maximum;
    range_id ← field_node self (start +w 2);
    validate_data_range_node self range_id maximum
  else if is_schema_tag tag then
    Err (malformed "encoded data class-expression cursor has the wrong constructor tag")
  else Err (outside_schema "encoded data class-expression tag" tag).

Definition validate_nonprojecting_class_expression (node_id maximum : usize) : outcome unit :=
  tag ← node_tag self node_id;
  if tag =? TAG_OBJECT_ONE_OF then
    start ← exact_fields self node_id 1;
    '(item_start, length) ← node_set_range self start 1;
    for_items self item_start length (fun item => validate_individual self item maximum)
  else if tag =? TAG_OBJECT_HAS_VALUE then
    start ← exact_fields self node_id 2;
    property ← field_node self start;
    _ ← object_property_expression self property maximum;
    individual ← field_node self (start +w 1);
    validate_individual self individual maximum
  else if tag =? TAG_OBJECT_HAS_SELF then
    start ← exact_fields self node_id 1;
    property ← field_node self start;
    _ ← object_property_expression self property maximum;
    Ok tt
  else if tag =? TAG_OBJECT_EXACT_CARDINALITY then
    start ← exact_fields self node_id 3;
    _ ← canonical_integer self start;
    property ← field_node self (start +w 1);
    _ ← object_property_expression self property maximum;
    filler ← field_node self (start +w 2);
    validate_class_expression_reference self filler maximum
  else if is_data_class_expression_tag tag then validate_data_class_expression node_id maximum
  else if tag =? TAG_OBJECT_COMPLEMENT_OF then
    start ← exact_fields self node_id 1;
    operand ← field_node self start;
    validate_class_expression_reference self operand maximum
  else if is_schema_tag tag then
    Err (unsupported "direct native slice does not support this nonprojecting class expression")
  else Err (outside_schema "encoded class-expression tag" tag).

Definition validate_aggregate_expression (node_id maximum : usize) : outcome unit :=
  aggregate_tag ← node_tag self node_id;
  if negb (is_aggregate_tag aggregate_tag) then
    Err (malformed "encoded aggregate cursor has the wrong constructor tag") else
  start ← exact_fields self node_id 1;
  '(item_start, length) ← node_set_range self start 2;
  for_items self item_start length (fun operand_id =>
    tag ← node_tag self operand_id;
    if tag =? TAG_ENTITY then ignore (named_class_iri self operand_id maximum)
    else if is_restriction_tag tag then ignore (restriction_projection self operand_id maximum)
    else if is_nonprojecting_class_tag tag then
      validate_nonprojecting_class_expression operand_id maximum
    else if is_aggregate_tag tag then
      if tag =? aggregate_tag then
        Err (malformed "encoded class-aggregate operands are not flattened")
      else Ok tt
    else if is_schema_tag tag then
      Err (unsupported "direct native aggregate operand is outside the bounded class envelope")
    else Err (outside_schema "encoded aggregate operand tag" tag)).

Definition class_expression_rank (node_id maximum : usize) : outcome u16 :=
  tag ← node_tag self node_id;
  if tag =? TAG_ENTITY then _ ← named_class_iri self node_id maximum; Ok 1001
  else if tag =? TAG_OBJECT_INTERSECTION_OF then
    _ ← validate_aggregate_expression node_id maximum; Ok 3001
  else if tag =? TAG_OBJECT_UNION_OF then
    _ ← validate_aggregate_expression node_id maximum; Ok 3002
  else if tag =? TAG_OBJECT_SOME_VALUES_FROM then
    _ ← restriction_projection self node_id maximum; Ok 3005
  else if tag =? TAG_OBJECT_ALL_VALUES_FROM then
    _ ← restriction_projection self node_id maximum; Ok 3006
  else if tag =? TAG_OBJECT_MIN_CARDINALITY then
    _ ← restriction_projection self node_id maximum; Ok 3008
  else if tag =? TAG_OBJECT_MAX_CARDINALITY then
    _ ← restriction_projection self node_id maximum; Ok 3010
  else if is_nonprojecting_class_tag tag then
    _ ← validate_nonprojecting_class_expression node_id maximum; Ok 3999
  else if is_schema_tag tag then
    Err (unsupported "direct native class expression is outside the bounded named, aggregate, restriction, or nonprojecting envelope")
  else Err (outside_schema "encoded class-expression tag" tag).

Definition expression_precedes (left_id right_id maximum : usize) : outcome bool :=
  left_rank ← class_expression_rank left_id maximum;
  right_rank ← class_expression_rank right_id maximum;
  if negb (left_rank =? right_rank) then Ok (left_rank <? right_rank) else
  if left_rank =? 1001 then
    left ← named_class_iri self left_id maximum;
    right ← named_class_iri self right_id maximum;
    Ok (keyed_lt (left, left_id) (right, right_id))
  else Ok (left_id <? right_id).

Definition validate_ignored_subclass_operand (node_id maximum : usize) : outcome unit :=
  tag ← node_tag self node_id;
  if tag =? TAG_ENTITY then ignore (named_class_iri self node_id maximum)
  else if is_restriction_tag tag then ignore (restriction_projection self node_id maximum)
  else if is_nonprojecting_class_tag tag then
    validate_nonprojecting_class_expression node_id maximum
  else if is_aggregate_tag tag then ignore (class_expression_rank node_id maximum)
  else if is_schema_tag tag then
    Err (unsupported "direct native ignored SubClassOf operand is outside the bounded class envelope")
  else Err (outside_schema "encoded subclass operand tag" tag).

Definition restriction_subclass (source : text) (projection : option (text * text))
    : SubclassProjection :=
  match projection with
  | Some (relation, destination) => Restriction source relation destination
  | None => SubclassIgnored
  end.

Definition subclass_projection (node_id maximum : usize) : outcome SubclassProjection :=
  start ← exact_fields self node_id 3;
  sub_id ← field_node self start;
  super_id ← field_node self (start +w 1);
  sub_tag ← node_tag self sub_id;
  super_tag ← node_tag self super_id;
  projection ←
    (if (sub_tag =? TAG_ENTITY) && (super_tag =? TAG_ENTITY) then
       source ← named_class_iri self sub_id maximum;
       destination ← named_class_iri self super_id maximum;
       Ok (Taxonomy source destination)
     else if (sub_tag =? TAG_ENTITY) && is_restriction_tag super_tag then
       source ← named_class_iri self sub_id maximum;
       projection ← restriction_projection self super_id maximum;
       Ok (restriction_subclass source projection)
     else if is_restriction_tag sub_tag && (super_tag =? TAG_ENTITY) then
       source ← named_class_iri self super_id maximum;
       projection ← restriction_projection self sub_id maximum;
       Ok (restriction_subclass source projection)
     else if is_nonprojecting_class_tag sub_tag || is_nonprojecting_class_tag super_tag
             || is_aggregate_tag sub_tag || is_aggregate_tag super_tag
             || is_restriction_tag sub_tag || is_restriction_tag super_tag then
       _ ← validate_ignored_subclass_operand sub_id maximum;
       _ ← validate_ignored_subclass_operand super_id maximum;
       Ok SubclassIgnored
     else
       Err (unsupported "direct native slice supports only named taxonomy or named-role SubClassOf"));
  _ ← validate_annotation_set self (start +w 2);
  Ok projection.

(** [Option::zip]. *)
Definition zip_option {A B} (a : option A) (b : option B) : option (A * B) :=
  match a, b with Some a, Some b => Some (a, b) | _, _ => None end.

Definition object_property_class_projection (node_id : usize) (expected_tag : u16)
    (maximum : usize) : outcome (option (text * text)) :=
  _ ← expect_tag self node_id expected_tag
        [TAG_OBJECT_PROPERTY_DOMAIN; TAG_OBJECT_PROPERTY_RANGE]
        "encoded domain/range cursor has the wrong constructor tag";
  start ← exact_fields self node_id 3;
  property_id ← field_node self start;
  property_tag ← node_tag self property_id;
  property ←
    (if property_tag =? TAG_ENTITY then
       iri ← named_object_property_iri self property_id maximum; Ok (Some iri)
     else if property_tag =? TAG_OBJECT_INVERSE_OF then
       _ ← object_inverse_iri self property_id maximum; Ok None
     else if is_schema_tag property_tag then
       Err (unsupported "direct native object domain/range property is outside the named/inverse envelope")
     else Err (outside_schema "encoded object domain/range property tag" property_tag));
  class_id ← field_node self (start +w 1);
  class_tag ← node_tag self class_id;
  class ←
    (if class_tag =? TAG_ENTITY then
       iri ← named_class_iri self class_id maximum; Ok (Some iri)
     else _ ← class_expression_rank class_id maximum; Ok None);
  _ ← validate_annotation_set self (start +w 2);
  Ok (zip_option property class).

(** One step of the selection of the two first expressions. *)
Definition equivalent_step (maximum : usize) (best : option usize * option usize)
    (expression_id : usize) : outcome (option usize * option usize) :=
  let '(first_id, second_id) := best in
  _ ← class_expression_rank expression_id maximum;
  match first_id with
  | None => Ok (Some expression_id, second_id)
  | Some current =>
      before_first ← expression_precedes expression_id current maximum;
      if (before_first : bool) then Ok (Some expression_id, first_id) else
      before_second ←
        match second_id with
        | None => Ok true
        | Some current => expression_precedes expression_id current maximum
        end;
      if (before_second : bool) then Ok (first_id, Some expression_id)
      else Ok (first_id, second_id)
  end.

Definition equivalent_projection (node_id maximum : usize) : outcome EquivalentProjection :=
  tag ← node_tag self node_id;
  if negb (tag =? TAG_EQUIVALENT_CLASSES) then
    Err (malformed "encoded equivalent cursor has the wrong constructor tag") else
  start ← exact_fields self node_id 2;
  '(item_start, length) ← node_set_range self start 2;
  best ← foldM (fun best item_index =>
    expression_id ← item_node self item_index;
    equivalent_step maximum best expression_id) (None, None)
    (range item_start (item_start +w length));
  _ ← validate_annotation_set self (start +w 1);
  match best with
  | (Some first_id, Some second_id) =>
      first_tag ← node_tag self first_id;
      if negb (first_tag =? TAG_ENTITY) then Ok EquivalentIgnored else
      source ← named_class_iri self first_id maximum;
      second_tag ← node_tag self second_id;
      if second_tag =? TAG_ENTITY then
        destination ← named_class_iri self second_id maximum;
        Ok (Pair source first_id destination second_id)
      else if is_aggregate_tag second_tag then Ok (Aggregate source first_id second_id)
      else Ok EquivalentIgnored
  | _ => Err (malformed "encoded EquivalentClasses has too few expressions")
  end.

Definition validate_disjoint_classes (node_id maximum : usize) : outcome unit :=
  tag ← node_tag self node_id;
  if negb (tag =? TAG_DISJOINT_CLASSES) then
    Err (malformed "encoded disjoint-classes cursor has the wrong constructor tag") else
  start ← exact_fields self node_id 2;
  '(item_start, length) ← node_set_range self start 2;
  _ ← for_items self item_start length (fun item => ignore (class_expression_rank item maximum));
  validate_annotation_set self (start +w 1).

Definition validate_disjoint_union (node_id maximum : usize) : outcome unit :=
  tag ← node_tag self node_id;
  if negb (tag =? TAG_DISJOINT_UNION) then
    Err (malformed "encoded disjoint-union cursor has the wrong constructor tag") else
  start ← exact_fields self node_id 3;
  class ← field_node self start;
  _ ← named_class_iri self class maximum;
  '(item_start, length) ← node_set_range self (start +w 1) 2;
  _ ← for_items self item_start length (fun item => ignore (class_expression_rank item maximum));
  validate_annotation_set self (start +w 2).

Definition class_assertion_projection (node_id maximum : usize)
    : outcome ClassAssertionProjection :=
  start ← exact_fields self node_id 3;
  class_id ← field_node self start;
  individual_id ← field_node self (start +w 1);
  class_tag ← node_tag self class_id;
  let named_class := class_tag =? TAG_ENTITY in
  _ ← (if named_class then ignore (named_class_iri self class_id maximum)
       else if is_restriction_tag class_tag || is_nonprojecting_class_tag class_tag
               || is_aggregate_tag class_tag then
         ignore (class_expression_rank class_id maximum)
       else
         Err (unsupported "direct native ClassAssertion class is outside the bounded class envelope"));
  individual_tag ← node_tag self individual_id;
  let named_individual := individual_tag =? TAG_ENTITY in
  _ ← validate_individual self individual_id maximum;
  _ ← validate_annotation_set self (start +w 2);
  if named_class && named_individual then
    individual ← named_individual_iri self individual_id maximum;
    class ← named_class_iri self class_id maximum;
    Ok (Edge_ individual individual_id class class_id)
  else Ok ClassAssertionIgnored.

Definition validate_data_property_domain (node_id maximum : usize) : outcome unit :=
  tag ← node_tag self node_id;
  if negb (tag =? TAG_DATA_PROPERTY_DOMAIN) then
    Err (malformed "encoded data-property domain cursor has the wrong constructor tag") else
  start ← exact_fields self node_id 3;
  property ← field_node self start;
  _ ← named_data_property_iri self property maximum;
  class ← field_node self (start +w 1);
  _ ← class_expression_rank class maximum;
  validate_annotation_set self (start +w 2).

Definition validate_has_key (node_id maximum : usize) : outcome unit :=
  tag ← node_tag self node_id;
  if negb (tag =? TAG_HAS_KEY) then
    Err (malformed "encoded has-key cursor has the wrong constructor tag") else
  start ← exact_fields self node_id 4;
  class ← field_node self start;
  _ ← class_expression_rank class maximum;
  '(object_start, object_length) ← node_set_range self (start +w 1) 0;
  _ ← for_items self object_start object_length
        (fun item => ignore (object_property_expression self item maximum));
  '(data_start, data_length) ← node_set_range self (start +w 2) 0;
  _ ← for_items self data_start data_length
        (fun item => ignore (named_data_property_iri self item maximum));
  if (object_length =? 0) && (data_length =? 0) then
    Err (malformed "encoded HasKey requires at least one property")
  else validate_annotation_set self (start +w 3).

(** [recursive_class_single_child]: the operand of a one-operand expression. *)
Definition recursive_class_single_child (node_id : usize) : outcome (option usize) :=
  tag ← node_tag self node_id;
  child_index ←
    (if tag =? TAG_OBJECT_COMPLEMENT_OF then map_ok Some (exact_fields self node_id 1)
     else if contains [TAG_OBJECT_SOME_VALUES_FROM; TAG_OBJECT_ALL_VALUES_FROM] tag then
       start ← exact_fields self node_id 2; Ok (Some (start +w 1))
     else if contains [TAG_OBJECT_MIN_CARDINALITY; TAG_OBJECT_MAX_CARDINALITY;
                       TAG_OBJECT_EXACT_CARDINALITY] tag then
       start ← exact_fields self node_id 3; Ok (Some (start +w 2))
     else Ok None);
  match child_index with
  | None => Ok None
  | Some child_index => map_ok Some (field_node self child_index)
  end.
End classes.
