(* ===== verification/Generic.v ===== *)
(** * Structural validation of the columns

    [validate_generic] and [validate_leaf] of native/src/encoded_direct.rs:
    the pass over hostile columns every later pass relies on.  [validate_generic]
    is the sequence of its checks, each a definition of its own. *)

From S2P Require Import Prelude Errors Tags Readers Columns.
Local Open Scope string_scope.
Local Open Scope list_scope.
Local Open Scope N_scope.

(** [slice.chunks_exact(width)]; a shorter remainder is dropped. *)
Definition chunks_exact {A} (width : N) (l : list A) : list (list A) :=
  (fun index => take (N.to_nat width) (drop (N.to_nat (index * width)) l))
    <$> range 0 (len l / width).

(** [(kind, node_id)] tuples under [<]. *)
Definition root_key_lt (left right : u8 * usize) : bool :=
  is_lt (then_with (left.1 ?= right.1) (left.2 ?= right.2)).

Section generic.
Context (self : DirectColumns).

Definition column_widths : list (string * usize * bytes) :=
  [ ("root_ids", 4, self.(root_ids));
    ("included_root_ids", 4, self.(included_root_ids));
    ("excluded_root_ids", 4, self.(excluded_root_ids));
    ("node_tags", 2, self.(node_tags));
    ("node_field_offsets", 8, self.(node_field_offsets));
    ("field_values", 8, self.(field_values));
    ("field_lengths", 8, self.(field_lengths));
    ("item_values", 8, self.(item_values));
    ("item_lengths", 8, self.(item_lengths)) ].

Definition validate_widths : outcome unit :=
  forM column_widths (fun '(name, width, buffer) =>
    if negb (len buffer mod width =? 0) then
      Err (malformed ("encoded buffer " +:+ name +:+ " length is not divisible by "
             +:+ pretty (width : N)))
    else Ok tt).

Definition scope_map_or_truncated (map_index : usize) : outcome bytes :=
  ok_or (scope_map_at self map_index)
    (malformed "encoded anonymous scope-map chain is truncated").

Definition validate_scope_map_widths : outcome unit :=
  forM (range 0 (scope_map_count self)) (fun map_index =>
    scope_map ← scope_map_or_truncated map_index;
    if negb (len scope_map mod 64 =? 0) then
      Err (malformed "encoded anonymous scope-map length is not divisible by 64")
    else Ok tt).

(** One row of a scope map; the state is the previous source and the number of
    rows checked so far. *)
Definition validate_scope_map_row (st : option bytes * usize) (row : bytes)
    : Cx (option bytes * usize) :=
  let '(previous_scope, checked_rows) := st in
  _ ← check_cancel checked_rows;
  checked_rows ← !ok_or (checked_add checked_rows 1)
    (resource "encoded anonymous scope-map row counter overflow");
  let source := take 32 row in
  let target := drop 32 row in
  if bool_decide (source = target) then
    !Err (malformed "encoded anonymous scope map contains an identity row") else
  if match previous_scope with
     | Some previous => negb (is_lt (bytes_cmp previous source))
     | None => false
     end
  then !Err (malformed "encoded anonymous scope-map sources are not sorted unique")
  else mret (Some source, checked_rows).

Definition validate_scope_maps : Cx unit :=
  _ ← foldM (fun checked_rows map_index =>
        scope_map ← !scope_map_or_truncated map_index;
        '(_, checked_rows) ←
          foldM validate_scope_map_row (None, checked_rows) (chunks_exact 64 scope_map);
        mret checked_rows) 0 (range 0 (scope_map_count self));
  mret tt.

Definition validate_lengths : outcome unit :=
  if negb (len self.(node_field_offsets) / 8 =? node_count self + 1) then
    Err (malformed "encoded node-field offsets do not match node count") else
  if negb (len self.(field_values) / 8 =? field_count self)
     || negb (len self.(field_lengths) / 8 =? field_count self) then
    Err (malformed "encoded field columns differ in length") else
  if negb (len self.(item_values) / 8 =? item_count self)
     || negb (len self.(item_lengths) / 8 =? item_count self) then
    Err (malformed "encoded item columns differ in length")
  else Ok tt.

Definition validate_offsets : Cx unit :=
  previous ← foldM (fun previous index =>
    _ ← check_cancel index;
    offset ← !read_usize self.(node_field_offsets) index "node_field_offsets";
    if ((index =? 0) && negb (offset =? 0)) || (offset <? previous)
       || (field_count self <? offset) then
      !Err (malformed "encoded node-field offsets are not monotone in-range boundaries")
    else mret offset) 0 (range 0 (node_count self + 1));
  if negb (previous =? field_count self) then
    !Err (malformed "encoded node-field offsets do not cover every field")
  else mret tt.

Definition validate_roots : Cx unit :=
  _ ← foldM (fun previous_root index =>
    _ ← check_cancel index;
    kind ← !root_kind self index;
    if negb (contains [ROOT_ONTOLOGY_ANNOTATION; ROOT_AXIOM; ROOT_EXTENSION] kind) then
      !Err (malformed "encoded root kind is invalid") else
    node_id ← !root_id self index;
    let key := (kind, node_id) in
    if match previous_root with
       | Some previous => negb (root_key_lt previous key)
       | None => false
       end
    then !Err (malformed "encoded roots are not canonical and unique")
    else mret (Some key)) None (range 0 (root_count self));
  mret tt.

(** A posting list: strictly increasing 1-based root positions.  [base] is the
    offset of its cancellation polls. *)
Definition validate_postings (postings : bytes) (position : usize -> outcome usize)
    (base : usize) (message : string) : Cx unit :=
  _ ← foldM (fun previous index =>
    _ ← check_cancel (base + index);
    root_position ← !position index;
    if (root_position <=? previous) || (root_count self <? root_position)
    then !Err (malformed message)
    else mret root_position) 0 (range 0 (len postings / 4));
  mret tt.

Definition validate_leaf (kind : u8) (value length scalar_cursor : usize) : outcome usize :=
  if kind =? COMPONENT_NONE then
    if negb (value =? 0) || negb (length =? 0) then
      Err (malformed "encoded none component is not canonical")
    else Ok scalar_cursor
  else if kind =? COMPONENT_NODE then
    if negb (length =? 0) then
      Err (malformed "encoded node component has a nonzero length")
    else _ ← checked_node_id self value; Ok scalar_cursor
  else if contains [COMPONENT_TEXT; COMPONENT_BYTES; COMPONENT_INTEGER; COMPONENT_ENUM] kind then
    if negb (value =? scalar_cursor)
       || (saturating_sub (len self.(scalar_bytes)) scalar_cursor <? length) then
      Err (malformed "encoded scalar offset or bounds are invalid")
    else Ok (scalar_cursor +w length)
  else Err (malformed "encoded component kind is invalid").

(** One item of a collection field of the given kind; the state is the scalar
    cursor and the previous node of the set. *)
Definition validate_item (kind : u8) (st : usize * usize) (item_cursor : usize)
    : outcome (usize * usize) :=
  let '(scalar_cursor, previous_set_node) := st in
  item_kind ← map_ok u8_of_byte (index self.(item_kinds) item_cursor);
  if (kind =? COMPONENT_SET) && negb (item_kind =? COMPONENT_NODE) then
    Err (malformed "encoded canonical-set item is not a node reference") else
  previous_set_node ←
    (if kind =? COMPONENT_SET then
       node_id ← read_usize self.(item_values) item_cursor "item_values";
       _ ← checked_node_id self node_id;
       if node_id <=? previous_set_node then
         Err (malformed "encoded canonical-set items are not sorted and unique")
       else Ok node_id
     else Ok previous_set_node);
  value ← read_usize self.(item_values) item_cursor "item_values";
  length ← read_usize self.(item_lengths) item_cursor "item_lengths";
  scalar_cursor ← validate_leaf item_kind value length scalar_cursor;
  Ok (scalar_cursor, previous_set_node).

(** One field; the state is the item and the scalar cursor. *)
Definition validate_field (st : usize * usize) (index : usize) : outcome (usize * usize) :=
  let '(item_cursor, scalar_cursor) := st in
  kind ← field_kind self index;
  value ← field_value self index;
  length ← field_length self index;
  if contains [COMPONENT_SET; COMPONENT_SEQUENCE] kind then
    if negb (value =? item_cursor)
       || (saturating_sub (item_count self) item_cursor <? length) then
      Err (malformed "encoded collection offset or bounds are invalid") else
    let end_ := item_cursor +w length in
    '(scalar_cursor, _) ←
      foldM (validate_item kind) (scalar_cursor, 0) (range item_cursor end_);
    Ok (end_, scalar_cursor)
  else
    scalar_cursor ← validate_leaf kind value length scalar_cursor;
    Ok (item_cursor, scalar_cursor).

Definition validate_fields : Cx unit :=
  '(item_cursor, scalar_cursor) ← foldM (fun st index =>
    _ ← check_cancel index;
    !validate_field st index) (0, 0) (range 0 (field_count self));
  if negb (item_cursor =? item_count self) then
    !Err (malformed "encoded collection offsets do not cover every item") else
  if negb (scalar_cursor =? len self.(scalar_bytes)) then
    !Err (malformed "encoded scalar offsets do not cover the byte arena")
  else mret tt.

Definition validate_root_lengths : outcome unit :=
  if negb (len self.(root_ids) / 4 =? root_count self) then
    Err (malformed "encoded root columns differ in length") else
  if negb (is_empty self.(included_root_ids)) && negb (is_empty self.(excluded_root_ids)) then
    Err (malformed "encoded root selection cannot combine INCLUDE and EXCLUDE postings")
  else Ok tt.

Definition validate_generic : Cx unit :=
  _ ← !validate_widths;
  _ ← !validate_scope_map_widths;
  _ ← !validate_root_lengths;
  _ ← validate_scope_maps;
  _ ← !validate_lengths;
  _ ← validate_offsets;
  _ ← validate_roots;
  _ ← validate_postings self.(included_root_ids) (included_root_position self) 0
        "encoded included-root postings are not sorted unique in-range positions";
  _ ← validate_postings self.(excluded_root_ids) (excluded_root_position self)
        (len self.(included_root_ids) / 4)
        "encoded excluded-root postings are not sorted unique in-range positions";
  validate_fields.
End generic.
