(* ===== verification/Swrl.v ===== *)
(** * SWRL nodes and the validation of every node

    The SWRL validators and the per-node dispatch of
    [validate_supported_nodes] (native/src/encoded_direct.rs); its three graph
    checks are in [Graphs]. *)

From S2P Require Import Prelude Errors Tags Text Readers Columns Nodes Properties Classes.
Local Open Scope string_scope.
Local Open Scope list_scope.
Local Open Scope N_scope.

Section swrl.
Context `{LowercaseTable} (self : DirectColumns).

Definition validate_variable (node_id maximum_iri : usize) : outcome unit :=
  tag ← node_tag self node_id;
  if negb (tag =? TAG_VARIABLE) then
    Err (malformed "encoded Variable cursor has the wrong constructor tag") else
  start ← exact_fields self node_id 1;
  iri_id ← field_node self start;
  ignore (iri self iri_id maximum_iri).

Definition validate_swrl_individual_argument (node_id maximum_iri : usize) : outcome unit :=
  tag ← node_tag self node_id;
  if tag =? TAG_VARIABLE then validate_variable node_id maximum_iri
  else validate_individual self node_id maximum_iri.

Definition validate_swrl_data_argument (node_id maximum_iri : usize) : outcome unit :=
  tag ← node_tag self node_id;
  if tag =? TAG_VARIABLE then validate_variable node_id maximum_iri
  else if tag =? TAG_LITERAL then validate_literal self node_id maximum_iri
  else if is_schema_tag tag then
    Err (malformed "encoded SWRL data argument is not a Variable or Literal")
  else Err (outside_schema "encoded SWRL data-argument tag" tag).

Definition validate_swrl_class_expression (node_id maximum_iri : usize) : outcome unit :=
  ignore (class_expression_rank self node_id maximum_iri).

Definition validate_swrl_atom (node_id maximum_iri : usize) : outcome unit :=
  tag ← node_tag self node_id;
  if tag =? TAG_CLASS_ATOM then
    start ← exact_fields self node_id 2;
    class ← field_node self start;
    _ ← validate_swrl_class_expression class maximum_iri;
    argument ← field_node self (start +w 1);
    validate_swrl_individual_argument argument maximum_iri
  else if tag =? TAG_DATA_RANGE_ATOM then
    start ← exact_fields self node_id 2;
    data_range ← field_node self start;
    _ ← validate_data_range_node self data_range maximum_iri;
    argument ← field_node self (start +w 1);
    validate_swrl_data_argument argument maximum_iri
  else if tag =? TAG_OBJECT_PROPERTY_ATOM then
    start ← exact_fields self node_id 3;
    property ← field_node self start;
    _ ← object_property_expression self property maximum_iri;
    first ← field_node self (start +w 1);
    _ ← validate_swrl_individual_argument first maximum_iri;
    second ← field_node self (start +w 2);
    validate_swrl_individual_argument second maximum_iri
  else if tag =? TAG_DATA_PROPERTY_ATOM then
    start ← exact_fields self node_id 3;
    property ← field_node self start;
    _ ← named_data_property_iri self property maximum_iri;
    first ← field_node self (start +w 1);
    _ ← validate_swrl_individual_argument first maximum_iri;
    second ← field_node self (start +w 2);
    validate_swrl_data_argument second maximum_iri
  else if tag =? TAG_BUILT_IN_ATOM then
    start ← exact_fields self node_id 2;
    predicate ← field_node self start;
    _ ← iri self predicate maximum_iri;
    '(item_start, length) ← node_sequence_range self (start +w 1) 0;
    for_items self item_start length (fun item => validate_swrl_data_argument item maximum_iri)
  else if contains [TAG_SAME_INDIVIDUAL_ATOM; TAG_DIFFERENT_INDIVIDUALS_ATOM] tag then
    start ← exact_fields self node_id 2;
    first ← field_node self start;
    _ ← validate_swrl_individual_argument first maximum_iri;
    second ← field_node self (start +w 1);
    validate_swrl_individual_argument second maximum_iri
  else if is_schema_tag tag then
    Err (malformed "encoded SWRL atom cursor has the wrong constructor tag")
  else Err (outside_schema "encoded SWRL atom tag" tag).

Definition validate_swrl_rule (node_id : usize) : outcome unit :=
  tag ← node_tag self node_id;
  if negb (tag =? TAG_SWRL_RULE) then
    Err (malformed "encoded SWRLRule cursor has the wrong constructor tag") else
  start ← exact_fields self node_id 3;
  _ ← forM [start; start +w 1] (fun index =>
    '(item_start, length) ← node_set_range self index 0;
    for_items self item_start length (fun item =>
      tag ← node_tag self item;
      if negb (is_swrl_atom_tag tag) then
        Err (malformed "encoded SWRLRule body or head contains a non-atom")
      else Ok tt));
  validate_annotation_set self (start +w 2).

(** ** The dispatch on the constructor tag *)

Definition validate_supported_node (node_id maximum_iri : usize) : outcome unit :=
  tag ← node_tag self node_id;
  if tag =? TAG_IRI then ignore (iri self node_id maximum_iri)
  else if tag =? TAG_ENTITY then
    '(_, iri_id) ← entity self node_id; ignore (iri self iri_id maximum_iri)
  else if tag =? TAG_ANONYMOUS_INDIVIDUAL then validate_anonymous_individual self node_id
  else if tag =? TAG_LITERAL then validate_literal self node_id maximum_iri
  else if tag =? TAG_ANNOTATION then validate_annotation self node_id maximum_iri
  else if tag =? TAG_OBJECT_INVERSE_OF then ignore (object_inverse_iri self node_id maximum_iri)
  else if tag =? TAG_OBJECT_PROPERTY_CHAIN then
    validate_object_property_chain self node_id maximum_iri
  else if tag =? TAG_FACET_RESTRICTION then validate_facet_restriction self node_id maximum_iri
  else if contains [TAG_DATA_INTERSECTION_OF; TAG_DATA_UNION_OF; TAG_DATA_COMPLEMENT_OF;
                    TAG_DATA_ONE_OF; TAG_DATATYPE_RESTRICTION] tag then
    validate_data_range_node self node_id maximum_iri
  else if contains [TAG_OBJECT_INTERSECTION_OF; TAG_OBJECT_UNION_OF] tag then
    validate_aggregate_expression self node_id maximum_iri
  else if tag =? TAG_DECLARATION then
    start ← exact_fields self node_id 2;
    entity_id ← field_node self start;
    _ ← entity self entity_id;
    validate_annotation_set self (start +w 1)
  else if contains [TAG_OBJECT_SOME_VALUES_FROM; TAG_OBJECT_ALL_VALUES_FROM;
                    TAG_OBJECT_MIN_CARDINALITY; TAG_OBJECT_MAX_CARDINALITY] tag then
    ignore (restriction_projection self node_id maximum_iri)
  else if contains [TAG_OBJECT_COMPLEMENT_OF; TAG_OBJECT_ONE_OF; TAG_OBJECT_HAS_VALUE;
                    TAG_OBJECT_HAS_SELF; TAG_OBJECT_EXACT_CARDINALITY;
                    TAG_DATA_SOME_VALUES_FROM; TAG_DATA_ALL_VALUES_FROM; TAG_DATA_HAS_VALUE;
                    TAG_DATA_MIN_CARDINALITY; TAG_DATA_MAX_CARDINALITY;
                    TAG_DATA_EXACT_CARDINALITY] tag then
    validate_nonprojecting_class_expression self node_id maximum_iri
  else if tag =? TAG_SUB_CLASS_OF then ignore (subclass_projection self node_id maximum_iri)
  else if tag =? TAG_EQUIVALENT_CLASSES then
    ignore (equivalent_projection self node_id maximum_iri)
  else if tag =? TAG_DISJOINT_CLASSES then validate_disjoint_classes self node_id maximum_iri
  else if tag =? TAG_DISJOINT_UNION then validate_disjoint_union self node_id maximum_iri
  else if tag =? TAG_SUB_OBJECT_PROPERTY_OF then
    ignore (validate_sub_object_property_of self node_id maximum_iri)
  else if tag =? TAG_INVERSE_OBJECT_PROPERTIES then
    ignore (role_axiom_parts self node_id TAG_INVERSE_OBJECT_PROPERTIES maximum_iri)
  else if contains [TAG_EQUIVALENT_OBJECT_PROPERTIES; TAG_DISJOINT_OBJECT_PROPERTIES] tag then
    validate_object_property_set_axiom self node_id tag maximum_iri
  else if tag =? TAG_OBJECT_PROPERTY_DOMAIN then
    ignore (object_property_class_projection self node_id TAG_OBJECT_PROPERTY_DOMAIN maximum_iri)
  else if tag =? TAG_OBJECT_PROPERTY_RANGE then
    ignore (object_property_class_projection self node_id TAG_OBJECT_PROPERTY_RANGE maximum_iri)
  else if tag =? TAG_CLASS_ASSERTION then
    ignore (class_assertion_projection self node_id maximum_iri)
  else if tag =? TAG_OBJECT_PROPERTY_ASSERTION then
    ignore (object_property_assertion_parts self node_id maximum_iri)
  else if tag =? TAG_NEGATIVE_OBJECT_PROPERTY_ASSERTION then
    validate_negative_object_property_assertion self node_id maximum_iri
  else if tag =? TAG_SUB_DATA_PROPERTY_OF then
    validate_binary_data_property_axiom self node_id TAG_SUB_DATA_PROPERTY_OF maximum_iri
  else if contains [TAG_EQUIVALENT_DATA_PROPERTIES; TAG_DISJOINT_DATA_PROPERTIES] tag then
    validate_data_property_set_axiom self node_id tag maximum_iri
  else if tag =? TAG_DATA_PROPERTY_DOMAIN then
    validate_data_property_domain self node_id maximum_iri
  else if tag =? TAG_DATA_PROPERTY_RANGE then
    validate_data_property_range self node_id maximum_iri
  else if tag =? TAG_FUNCTIONAL_DATA_PROPERTY then
    validate_functional_data_property self node_id maximum_iri
  else if tag =? TAG_DATATYPE_DEFINITION then
    validate_datatype_definition self node_id maximum_iri
  else if tag =? TAG_HAS_KEY then validate_has_key self node_id maximum_iri
  else if contains [TAG_SAME_INDIVIDUAL; TAG_DIFFERENT_INDIVIDUALS] tag then
    validate_individual_set_axiom self node_id tag maximum_iri
  else if contains [TAG_DATA_PROPERTY_ASSERTION; TAG_NEGATIVE_DATA_PROPERTY_ASSERTION] tag then
    validate_data_property_assertion self node_id tag maximum_iri
  else if tag =? TAG_ANNOTATION_ASSERTION then
    validate_annotation_assertion self node_id maximum_iri
  else if tag =? TAG_SUB_ANNOTATION_PROPERTY_OF then
    validate_sub_annotation_property_of self node_id maximum_iri
  else if contains [TAG_ANNOTATION_PROPERTY_DOMAIN; TAG_ANNOTATION_PROPERTY_RANGE] tag then
    validate_annotation_property_iri_axiom self node_id tag maximum_iri
  else if tag =? TAG_VARIABLE then validate_variable node_id maximum_iri
  else if is_swrl_atom_tag tag then validate_swrl_atom node_id maximum_iri
  else if tag =? TAG_SWRL_RULE then validate_swrl_rule node_id
  else if is_object_property_characteristic tag then
    validate_object_property_characteristic self node_id maximum_iri
  else if is_schema_tag tag then
    Err (unsupported ("direct native slice does not support schema tag " +:+ pretty tag))
  else Err (outside_schema "encoded node tag" tag).
End swrl.
