(* ===== verification/Safety.v ===== *)
(** * The decoders never panic

    Over arbitrary columns every decoder and validator of a single node
    returns a value or an error: no out-of-range index, no exhausted loop.
    The lemmas are in the [safe] database, which [solve_safe] searches. *)

From S2P Require Import Prelude Errors Tags Text Readers Columns Nodes Properties Classes Generic.
From S2P Require Import Swrl.
Local Open Scope string_scope.
Local Open Scope list_scope.
Local Open Scope N_scope.

(** ** Loops *)

Lemma foldM_safe_all {A S} (f : S -> A -> outcome S) s l :
  (forall s x, safe (f s x)) -> safe (foldM f s l).
Proof. intros H. by apply (foldM_safe f (fun _ => True)). Qed.

Lemma forM_safe_all {A} (l : list A) (f : A -> outcome unit) :
  (forall x, safe (f x)) -> safe (forM l f).
Proof. intros H. by apply forM_safe. Qed.

Lemma fold_until_safe {A S R} (f : S -> A -> outcome (control S R)) s l :
  (forall s x, safe (f s x)) -> safe (fold_until f s l).
Proof.
  intros H. revert s. induction l as [|x l IH]; intros s; cbn; [apply safe_Ok|].
  apply safe_bind; [done|]. intros [s'|r] _; [done|apply safe_Ok].
Qed.
#[export] Hint Resolve foldM_safe_all forM_safe_all fold_until_safe : safe.

(** Unfolds a decoder and follows its structure. *)
Ltac safe_decoder :=
  repeat first
    [ progress intros
    | apply foldM_safe_all | apply forM_safe_all | apply fold_until_safe
    | progress solve_safe ].

(** ** Columns *)

Lemma lower_bound_safe fuel position target start end_ :
  (forall i, safe (position i)) -> (N.to_nat (end_ - start) <= fuel)%nat ->
  safe (lower_bound fuel position target start end_).
Proof.
  intros Hp. revert start end_. induction fuel as [|fuel IH]; intros start end_ Hf; cbn.
  all: destruct (N.ltb_spec start end_) as [Hlt|]; cbn; [|apply safe_Ok].
  { lia. }
  pose proof (middle_bounds _ _ Hlt) as Hm. revert Hm. generalize (start + (end_ - start) / 2).
  intros middle Hm.
  apply safe_bind; [done|]. intros candidate _.
  destruct (candidate <? target); apply IH; lia.
Qed.

Section columns.
Context (self : DirectColumns).

Lemma root_is_selected_safe i : safe (root_is_selected self i).
Proof using Type.
  unfold root_is_selected. apply safe_bind; [apply safe_ok_or|]. intros target _.
  assert (forall i, safe (excluded_root_position self i)) by (intros; apply read_u32_safe).
  assert (forall i, safe (included_root_position self i)) by (intros; apply read_u32_safe).
  destruct (is_empty (included_root_ids self)).
  all: apply safe_bind; [apply lower_bound_safe; [done|by rewrite N.sub_0_r]|].
  all: intros start _; solve_safe.
Qed.

Lemma checked_node_id_safe n : safe (checked_node_id self n).
Proof using Type. unfold checked_node_id. safe_decoder. Qed.
Hint Resolve checked_node_id_safe : safe.

Lemma root_kind_safe i : safe (root_kind self i).
Proof using Type. unfold root_kind. safe_decoder. Qed.
Lemma root_id_safe i : safe (root_id self i).
Proof using Type. unfold root_id. safe_decoder. Qed.
Lemma node_tag_safe n : safe (node_tag self n).
Proof using Type. unfold node_tag. safe_decoder. Qed.
Lemma field_range_safe n : safe (field_range self n).
Proof using Type. unfold field_range. safe_decoder. Qed.
Hint Resolve node_tag_safe field_range_safe : safe.
Lemma exact_fields_safe n a : safe (exact_fields self n a).
Proof using Type. unfold exact_fields. safe_decoder. Qed.
Lemma field_kind_safe i : safe (field_kind self i).
Proof using Type. unfold field_kind. safe_decoder. Qed.
Lemma field_value_safe i : safe (field_value self i).
Proof using Type. apply read_usize_safe. Qed.
Lemma field_length_safe i : safe (field_length self i).
Proof using Type. apply read_usize_safe. Qed.
Hint Resolve exact_fields_safe field_kind_safe field_value_safe field_length_safe : safe.
Lemma field_node_safe i : safe (field_node self i).
Proof using Type. unfold field_node. safe_decoder. Qed.
Lemma item_node_safe i : safe (item_node self i).
Proof using Type. unfold item_node. safe_decoder. Qed.
Hint Resolve field_node_safe item_node_safe : safe.
Lemma node_set_range_safe i m : safe (node_set_range self i m).
Proof using Type. unfold node_set_range. safe_decoder. Qed.
Lemma node_sequence_range_safe i m : safe (node_sequence_range self i m).
Proof using Type. unfold node_sequence_range. safe_decoder. Qed.
Lemma scalar_payload_safe i k : safe (scalar_payload self i k).
Proof using Type. unfold scalar_payload. safe_decoder. Qed.
Hint Resolve node_set_range_safe node_sequence_range_safe scalar_payload_safe : safe.
Lemma canonical_integer_safe i : safe (canonical_integer self i).
Proof using Type. unfold canonical_integer. safe_decoder. Qed.
End columns.
#[export] Hint Resolve root_is_selected_safe checked_node_id_safe root_kind_safe root_id_safe
  node_tag_safe field_range_safe exact_fields_safe field_kind_safe field_value_safe
  field_length_safe field_node_safe item_node_safe node_set_range_safe
  node_sequence_range_safe scalar_payload_safe canonical_integer_safe : safe.

(** ** Nodes *)

Lemma from_utf8_safe b e : safe (from_utf8 b e).
Proof. unfold from_utf8. safe_decoder. Qed.
#[export] Hint Resolve from_utf8_safe : safe.

Section nodes.
Context (self : DirectColumns).

Lemma iri_safe n m : safe (iri self n m).
Proof using Type. unfold iri. safe_decoder. Qed.
Lemma entity_safe n : safe (entity self n).
Proof using Type. unfold entity. safe_decoder. Qed.
Hint Resolve iri_safe entity_safe : safe.
Lemma named_entity_iri_safe e o u w n m : safe (named_entity_iri self e o u w n m).
Proof using Type. unfold named_entity_iri. safe_decoder. Qed.
Lemma validate_anonymous_individual_safe n : safe (validate_anonymous_individual self n).
Proof using Type. unfold validate_anonymous_individual. safe_decoder. Qed.
Hint Resolve named_entity_iri_safe validate_anonymous_individual_safe : safe.
Lemma named_class_iri_safe n m : safe (named_class_iri self n m).
Proof using Type. apply named_entity_iri_safe. Qed.
Lemma named_individual_iri_safe n m : safe (named_individual_iri self n m).
Proof using Type. apply named_entity_iri_safe. Qed.
Lemma named_object_property_iri_safe n m : safe (named_object_property_iri self n m).
Proof using Type. apply named_entity_iri_safe. Qed.
Lemma named_data_property_iri_safe n m : safe (named_data_property_iri self n m).
Proof using Type. apply named_entity_iri_safe. Qed.
Lemma named_annotation_property_iri_safe n m : safe (named_annotation_property_iri self n m).
Proof using Type. apply named_entity_iri_safe. Qed.
Lemma named_datatype_iri_safe n m : safe (named_datatype_iri self n m).
Proof using Type. apply named_entity_iri_safe. Qed.
Hint Resolve named_class_iri_safe named_individual_iri_safe named_object_property_iri_safe
  named_data_property_iri_safe named_annotation_property_iri_safe named_datatype_iri_safe : safe.
Lemma validate_individual_safe n m : safe (validate_individual self n m).
Proof using Type. unfold validate_individual. safe_decoder. Qed.
Lemma individual_value_safe n m : safe (individual_value self n m).
Proof using Type. unfold individual_value. safe_decoder. Qed.

Lemma scope_map_search_safe fuel m c start end_ :
  (N.to_nat (end_ - start) <= fuel)%nat -> safe (scope_map_search fuel m c start end_).
Proof using Type.
  revert start end_. induction fuel as [|fuel IH]; intros start end_ Hf; cbn.
  all: destruct (N.ltb_spec start end_) as [Hlt|]; cbn; [|apply safe_Ok].
  { lia. }
  pose proof (middle_bounds _ _ Hlt) as Hm. revert Hm. generalize (start + (end_ - start) / 2).
  intros middle Hm.
  apply safe_bind; [apply safe_ok_or|]. intros offset _.
  apply safe_bind; [apply safe_ok_or|]. intros source _.
  destruct (bytes_cmp source c); [solve_safe|apply IH; lia..].
Qed.

Lemma remap_anonymous_scope_safe s : safe (remap_anonymous_scope self s).
Proof using Type.
  unfold remap_anonymous_scope. apply foldM_safe_all. intros current i.
  apply safe_bind; [apply safe_ok_or|]. intros m _. cbn zeta.
  apply safe_bind; [apply scope_map_search_safe; by rewrite N.sub_0_r|]. intros. apply safe_Ok.
Qed.
Hint Resolve remap_anonymous_scope_safe : safe.
Lemma anonymous_parts_safe n : safe (anonymous_parts self n).
Proof using Type. unfold anonymous_parts. safe_decoder. Qed.
End nodes.
#[export] Hint Resolve iri_safe entity_safe named_entity_iri_safe named_class_iri_safe
  named_individual_iri_safe named_object_property_iri_safe named_data_property_iri_safe
  named_annotation_property_iri_safe named_datatype_iri_safe
  validate_anonymous_individual_safe validate_individual_safe individual_value_safe
  remap_anonymous_scope_safe anonymous_parts_safe : safe.

Section annotations.
Context `{LowercaseTable} (self : DirectColumns).

Lemma literal_parts_safe n m : safe (literal_parts self n m).
Proof using Type. unfold literal_parts. safe_decoder. Qed.
Hint Resolve literal_parts_safe : safe.
Lemma validate_literal_safe n m : safe (validate_literal self n m).
Proof using Type. unfold validate_literal. safe_decoder. Qed.
Hint Resolve validate_literal_safe : safe.
Lemma annotation_value_safe n m : safe (annotation_value self n m).
Proof using Type. unfold annotation_value. safe_decoder. Qed.
Lemma validate_annotation_set_safe i : safe (validate_annotation_set self i).
Proof using Type. unfold validate_annotation_set. safe_decoder. Qed.
Hint Resolve validate_annotation_set_safe : safe.
Lemma annotation_value_hash_safe n m : safe (annotation_value_hash self n m).
Proof using Type. unfold annotation_value_hash. safe_decoder. Qed.
Hint Resolve annotation_value_hash_safe : safe.
Lemma annotation_hash_safe n m : safe (annotation_hash self n m).
Proof using Type. unfold annotation_hash. safe_decoder. Qed.
Hint Resolve annotation_hash_safe : safe.
Lemma annotation_set_hash_safe i m : safe (annotation_set_hash self i m).
Proof using Type. unfold annotation_set_hash. safe_decoder. Qed.
Lemma validate_metadata_annotation_value_safe n m :
  safe (validate_metadata_annotation_value self n m).
Proof using Type. unfold validate_metadata_annotation_value. safe_decoder. Qed.
Hint Resolve validate_metadata_annotation_value_safe : safe.
Lemma validate_annotation_safe n m : safe (validate_annotation self n m).
Proof using Type. unfold validate_annotation. safe_decoder. Qed.
End annotations.
#[export] Hint Resolve literal_parts_safe validate_literal_safe annotation_value_safe
  validate_annotation_set_safe annotation_set_hash_safe validate_annotation_safe : safe.

(** ** Axioms, class expressions and SWRL *)

Section axioms.
Context `{LowercaseTable} (self : DirectColumns).

Lemma for_items_safe s l f : (forall n, safe (f n)) -> safe (for_items self s l f).
Proof using Type. intros Hf. unfold for_items. safe_decoder. Qed.
Lemma ignore_safe {A} (m : outcome A) : safe m -> safe (ignore m).
Proof using Type. intros Hm. unfold ignore. solve_safe. Qed.
Hint Resolve for_items_safe ignore_safe : safe.
Lemma expect_tag_safe a0 a1 a2 a3 : safe (expect_tag self a0 a1 a2 a3).
Proof using Type. unfold expect_tag. safe_decoder. Qed.
Hint Resolve expect_tag_safe : safe.
Lemma validate_annotation_assertion_safe a0 a1 : safe (validate_annotation_assertion self a0 a1).
Proof using Type. unfold validate_annotation_assertion. safe_decoder. Qed.
Hint Resolve validate_annotation_assertion_safe : safe.
Lemma validate_sub_annotation_property_of_safe a0 a1 : safe (validate_sub_annotation_property_of self a0 a1).
Proof using Type. unfold validate_sub_annotation_property_of. safe_decoder. Qed.
Hint Resolve validate_sub_annotation_property_of_safe : safe.
Lemma validate_annotation_property_iri_axiom_safe a0 a1 a2 : safe (validate_annotation_property_iri_axiom self a0 a1 a2).
Proof using Type. unfold validate_annotation_property_iri_axiom. safe_decoder. Qed.
Hint Resolve validate_annotation_property_iri_axiom_safe : safe.
Lemma validate_binary_data_property_axiom_safe a0 a1 a2 : safe (validate_binary_data_property_axiom self a0 a1 a2).
Proof using Type. unfold validate_binary_data_property_axiom. safe_decoder. Qed.
Hint Resolve validate_binary_data_property_axiom_safe : safe.
Lemma validate_data_property_set_axiom_safe a0 a1 a2 : safe (validate_data_property_set_axiom self a0 a1 a2).
Proof using Type. unfold validate_data_property_set_axiom. safe_decoder. Qed.
Hint Resolve validate_data_property_set_axiom_safe : safe.
Lemma validate_functional_data_property_safe a0 a1 : safe (validate_functional_data_property self a0 a1).
Proof using Type. unfold validate_functional_data_property. safe_decoder. Qed.
Hint Resolve validate_functional_data_property_safe : safe.
Lemma validate_data_property_assertion_safe a0 a1 a2 : safe (validate_data_property_assertion self a0 a1 a2).
Proof using Type. unfold validate_data_property_assertion. safe_decoder. Qed.
Hint Resolve validate_data_property_assertion_safe : safe.
Lemma validate_individual_set_axiom_safe a0 a1 a2 : safe (validate_individual_set_axiom self a0 a1 a2).
Proof using Type. unfold validate_individual_set_axiom. safe_decoder. Qed.
Hint Resolve validate_individual_set_axiom_safe : safe.
Lemma object_inverse_iri_safe a0 a1 : safe (object_inverse_iri self a0 a1).
Proof using Type. unfold object_inverse_iri. safe_decoder. Qed.
Hint Resolve object_inverse_iri_safe : safe.
Lemma object_property_expression_iri_safe a0 a1 : safe (object_property_expression_iri self a0 a1).
Proof using Type. unfold object_property_expression_iri. safe_decoder. Qed.
Hint Resolve object_property_expression_iri_safe : safe.
Lemma object_property_expression_safe a0 a1 : safe (object_property_expression self a0 a1).
Proof using Type. unfold object_property_expression. safe_decoder. Qed.
Hint Resolve object_property_expression_safe : safe.
Lemma validate_object_property_chain_safe a0 a1 : safe (validate_object_property_chain self a0 a1).
Proof using Type. unfold validate_object_property_chain. safe_decoder. Qed.
Hint Resolve validate_object_property_chain_safe : safe.
Lemma validate_sub_object_property_of_safe a0 a1 : safe (validate_sub_object_property_of self a0 a1).
Proof using Type. unfold validate_sub_object_property_of. safe_decoder. Qed.
Hint Resolve validate_sub_object_property_of_safe : safe.
Lemma role_axiom_parts_safe a0 a1 a2 : safe (role_axiom_parts self a0 a1 a2).
Proof using Type. unfold role_axiom_parts. safe_decoder. Qed.
Hint Resolve role_axiom_parts_safe : safe.
Lemma role_axiom_row_safe a0 a1 a2 a3 a4 : safe (role_axiom_row self a0 a1 a2 a3 a4).
Proof using Type. unfold role_axiom_row. safe_decoder. Qed.
Hint Resolve role_axiom_row_safe : safe.
Lemma validate_object_property_set_axiom_safe a0 a1 a2 : safe (validate_object_property_set_axiom self a0 a1 a2).
Proof using Type. unfold validate_object_property_set_axiom. safe_decoder. Qed.
Hint Resolve validate_object_property_set_axiom_safe : safe.
Lemma validate_object_property_characteristic_safe a0 a1 : safe (validate_object_property_characteristic self a0 a1).
Proof using Type. unfold validate_object_property_characteristic. safe_decoder. Qed.
Hint Resolve validate_object_property_characteristic_safe : safe.
Lemma object_property_assertion_parts_safe a0 a1 : safe (object_property_assertion_parts self a0 a1).
Proof using Type. unfold object_property_assertion_parts. safe_decoder. Qed.
Hint Resolve object_property_assertion_parts_safe : safe.
Lemma validate_negative_object_property_assertion_safe a0 a1 : safe (validate_negative_object_property_assertion self a0 a1).
Proof using Type. unfold validate_negative_object_property_assertion. safe_decoder. Qed.
Hint Resolve validate_negative_object_property_assertion_safe : safe.
Lemma validate_class_expression_reference_safe a0 a1 : safe (validate_class_expression_reference self a0 a1).
Proof using Type. unfold validate_class_expression_reference. safe_decoder. Qed.
Hint Resolve validate_class_expression_reference_safe : safe.
Lemma restriction_indexes_safe a0 : safe (restriction_indexes self a0).
Proof using Type. unfold restriction_indexes. safe_decoder. Qed.
Hint Resolve restriction_indexes_safe : safe.
Lemma restriction_projection_safe a0 a1 : safe (restriction_projection self a0 a1).
Proof using Type. unfold restriction_projection. safe_decoder. Qed.
Hint Resolve restriction_projection_safe : safe.
Lemma planned_restriction_coordinate_safe a0 : safe (planned_restriction_coordinate self a0).
Proof using Type. unfold planned_restriction_coordinate. safe_decoder. Qed.
Hint Resolve planned_restriction_coordinate_safe : safe.
Lemma planned_individual_coordinate_safe a0 a1 : safe (planned_individual_coordinate self a0 a1).
Proof using Type. unfold planned_individual_coordinate. safe_decoder. Qed.
Hint Resolve planned_individual_coordinate_safe : safe.
Lemma planned_restriction_parts_safe a0 a1 : safe (planned_restriction_parts self a0 a1).
Proof using Type. unfold planned_restriction_parts. safe_decoder. Qed.
Hint Resolve planned_restriction_parts_safe : safe.
Lemma validate_facet_restriction_safe a0 a1 : safe (validate_facet_restriction self a0 a1).
Proof using Type. unfold validate_facet_restriction. safe_decoder. Qed.
Hint Resolve validate_facet_restriction_safe : safe.
Lemma validate_data_range_reference_safe a0 a1 : safe (validate_data_range_reference self a0 a1).
Proof using Type. unfold validate_data_range_reference. safe_decoder. Qed.
Hint Resolve validate_data_range_reference_safe : safe.
Lemma validate_data_range_node_safe a0 a1 : safe (validate_data_range_node self a0 a1).
Proof using Type. unfold validate_data_range_node. safe_decoder. Qed.
Hint Resolve validate_data_range_node_safe : safe.
Lemma validate_data_property_range_safe a0 a1 : safe (validate_data_property_range self a0 a1).
Proof using Type. unfold validate_data_property_range. safe_decoder. Qed.
Hint Resolve validate_data_property_range_safe : safe.
Lemma validate_datatype_definition_safe a0 a1 : safe (validate_datatype_definition self a0 a1).
Proof using Type. unfold validate_datatype_definition. safe_decoder. Qed.
Hint Resolve validate_datatype_definition_safe : safe.
Lemma validate_data_class_expression_safe a0 a1 : safe (validate_data_class_expression self a0 a1).
Proof using Type. unfold validate_data_class_expression. safe_decoder. Qed.
Hint Resolve validate_data_class_expression_safe : safe.
Lemma validate_nonprojecting_class_expression_safe a0 a1 : safe (validate_nonprojecting_class_expression self a0 a1).
Proof using Type. unfold validate_nonprojecting_class_expression. safe_decoder. Qed.
Hint Resolve validate_nonprojecting_class_expression_safe : safe.
Lemma validate_aggregate_expression_safe a0 a1 : safe (validate_aggregate_expression self a0 a1).
Proof using Type. unfold validate_aggregate_expression. safe_decoder. Qed.
Hint Resolve validate_aggregate_expression_safe : safe.
Lemma class_expression_rank_safe a0 a1 : safe (class_expression_rank self a0 a1).
Proof using Type. unfold class_expression_rank. safe_decoder. Qed.
Hint Resolve class_expression_rank_safe : safe.
Lemma expression_precedes_safe a0 a1 a2 : safe (expression_precedes self a0 a1 a2).
Proof using Type. unfold expression_precedes. safe_decoder. Qed.
Hint Resolve expression_precedes_safe : safe.
Lemma validate_ignored_subclass_operand_safe a0 a1 : safe (validate_ignored_subclass_operand self a0 a1).
Proof using Type. unfold validate_ignored_subclass_operand. safe_decoder. Qed.
Hint Resolve validate_ignored_subclass_operand_safe : safe.
Lemma subclass_projection_safe a0 a1 : safe (subclass_projection self a0 a1).
Proof using Type. unfold subclass_projection. safe_decoder. Qed.
Hint Resolve subclass_projection_safe : safe.
Lemma object_property_class_projection_safe a0 a1 a2 : safe (object_property_class_projection self a0 a1 a2).
Proof using Type. unfold object_property_class_projection. safe_decoder. Qed.
Hint Resolve object_property_class_projection_safe : safe.
Lemma equivalent_step_safe a0 a1 a2 : safe (equivalent_step self a0 a1 a2).
Proof using Type. unfold equivalent_step. safe_decoder. Qed.
Hint Resolve equivalent_step_safe : safe.
Lemma equivalent_projection_safe a0 a1 : safe (equivalent_projection self a0 a1).
Proof using Type. unfold equivalent_projection. safe_decoder. Qed.
Hint Resolve equivalent_projection_safe : safe.
Lemma validate_disjoint_classes_safe a0 a1 : safe (validate_disjoint_classes self a0 a1).
Proof using Type. unfold validate_disjoint_classes. safe_decoder. Qed.
Hint Resolve validate_disjoint_classes_safe : safe.
Lemma validate_disjoint_union_safe a0 a1 : safe (validate_disjoint_union self a0 a1).
Proof using Type. unfold validate_disjoint_union. safe_decoder. Qed.
Hint Resolve validate_disjoint_union_safe : safe.
Lemma class_assertion_projection_safe a0 a1 : safe (class_assertion_projection self a0 a1).
Proof using Type. unfold class_assertion_projection. safe_decoder. Qed.
Hint Resolve class_assertion_projection_safe : safe.
Lemma validate_data_property_domain_safe a0 a1 : safe (validate_data_property_domain self a0 a1).
Proof using Type. unfold validate_data_property_domain. safe_decoder. Qed.
Hint Resolve validate_data_property_domain_safe : safe.
Lemma validate_has_key_safe a0 a1 : safe (validate_has_key self a0 a1).
Proof using Type. unfold validate_has_key. safe_decoder. Qed.
Hint Resolve validate_has_key_safe : safe.
Lemma recursive_class_single_child_safe a0 : safe (recursive_class_single_child self a0).
Proof using Type. unfold recursive_class_single_child. safe_decoder. Qed.
Hint Resolve recursive_class_single_child_safe : safe.
Lemma validate_variable_safe a0 a1 : safe (validate_variable self a0 a1).
Proof using Type. unfold validate_variable. safe_decoder. Qed.
Hint Resolve validate_variable_safe : safe.
Lemma validate_swrl_individual_argument_safe a0 a1 : safe (validate_swrl_individual_argument self a0 a1).
Proof using Type. unfold validate_swrl_individual_argument. safe_decoder. Qed.
Hint Resolve validate_swrl_individual_argument_safe : safe.
Lemma validate_swrl_data_argument_safe a0 a1 : safe (validate_swrl_data_argument self a0 a1).
Proof using Type. unfold validate_swrl_data_argument. safe_decoder. Qed.
Hint Resolve validate_swrl_data_argument_safe : safe.
Lemma validate_swrl_class_expression_safe a0 a1 : safe (validate_swrl_class_expression self a0 a1).
Proof using Type. unfold validate_swrl_class_expression. safe_decoder. Qed.
Hint Resolve validate_swrl_class_expression_safe : safe.
Lemma validate_swrl_atom_safe a0 a1 : safe (validate_swrl_atom self a0 a1).
Proof using Type. unfold validate_swrl_atom. safe_decoder. Qed.
Hint Resolve validate_swrl_atom_safe : safe.
Lemma validate_swrl_rule_safe a0 : safe (validate_swrl_rule self a0).
Proof using Type. unfold validate_swrl_rule. safe_decoder. Qed.
Hint Resolve validate_swrl_rule_safe : safe.
Lemma validate_supported_node_safe a0 a1 : safe (validate_supported_node self a0 a1).
Proof using Type. unfold validate_supported_node. safe_decoder. Qed.
Hint Resolve validate_supported_node_safe : safe.
End axioms.
#[export] Hint Resolve for_items_safe ignore_safe
  expect_tag_safe validate_annotation_assertion_safe validate_sub_annotation_property_of_safe validate_annotation_property_iri_axiom_safe validate_binary_data_property_axiom_safe validate_data_property_set_axiom_safe validate_functional_data_property_safe validate_data_property_assertion_safe validate_individual_set_axiom_safe object_inverse_iri_safe object_property_expression_iri_safe object_property_expression_safe validate_object_property_chain_safe validate_sub_object_property_of_safe role_axiom_parts_safe role_axiom_row_safe validate_object_property_set_axiom_safe validate_object_property_characteristic_safe object_property_assertion_parts_safe validate_negative_object_property_assertion_safe validate_class_expression_reference_safe restriction_indexes_safe restriction_projection_safe planned_restriction_coordinate_safe planned_individual_coordinate_safe planned_restriction_parts_safe validate_facet_restriction_safe validate_data_range_reference_safe validate_data_range_node_safe validate_data_property_range_safe validate_datatype_definition_safe validate_data_class_expression_safe validate_nonprojecting_class_expression_safe validate_aggregate_expression_safe class_expression_rank_safe expression_precedes_safe validate_ignored_subclass_operand_safe subclass_projection_safe object_property_class_projection_safe equivalent_step_safe equivalent_projection_safe validate_disjoint_classes_safe validate_disjoint_union_safe class_assertion_projection_safe validate_data_property_domain_safe validate_has_key_safe recursive_class_single_child_safe validate_variable_safe validate_swrl_individual_argument_safe validate_swrl_data_argument_safe validate_swrl_class_expression_safe validate_swrl_atom_safe validate_swrl_rule_safe validate_supported_node_safe : safe.
