(* ===== verification/Graphs.v ===== *)
(** * Graph passes: cycle checks and reachability

    The three cycle checks of native/src/encoded_direct.rs (nested annotation
    metadata, recursive class expressions, recursive data ranges) are one
    three-colour depth-first search on an explicit stack, over three ways of
    reading a node's children; [validate_graph] is that search.  The
    reachability passes are one worklist over every node reference. *)

From S2P Require Import Prelude Errors Tags Text Readers Columns Nodes Properties Classes Swrl.
Local Open Scope string_scope.
Local Open Scope list_scope.
Local Open Scope N_scope.

(** ** The three-colour search *)

(** [reads node_id]: the reads of the children in the order the loop makes
    them, each evaluated when the loop reaches it; [Ok None] is a child the
    traversal does not follow. *)
Record Graph := {
  is_vertex : u16 -> bool;
  reads : usize -> outcome (list (outcome (option usize)));
  overflow : string;
  cyclic : string;
}.

Section search.
Context (self : DirectColumns) (g : Graph).

Definition is_cyclic : KernelError := malformed g.(cyclic).

(** A child that is grey closes a cycle; a white one is queued. *)
Definition queue_child (colors : list u8) (pushed : list usize) (read : outcome (option usize))
    : outcome (list usize) :=
  child ← read;
  match child with
  | None => Ok pushed
  | Some child =>
      color ← index colors child;
      if color =? 1 then Err is_cyclic
      else if color =? 0 then Ok (child :: pushed)
      else Ok pushed
  end.

Definition expand (colors : list u8) (node_id : usize) : outcome (list usize) :=
  children ← g.(reads) node_id;
  foldM (queue_child colors) [] children.

(** [while let Some((node_id, exiting)) = stack.pop()]; the head of the list
    is the top of the stack. *)
Fixpoint search (fuel : nat) (colors : list u8) (work_index : usize)
    (stack : list (usize * bool)) : Cx (list u8 * usize) :=
  match stack with
  | [] => mret (colors, work_index)
  | (node_id, exiting) :: stack =>
      match fuel with
      | O => !OutOfFuel
      | S fuel =>
          _ ← check_cancel work_index;
          work_index ← !ok_or (checked_add work_index 1) (resource g.(overflow));
          if exiting : bool then
            colors ← !store colors node_id 2;
            search fuel colors work_index stack
          else
            color ← !index colors node_id;
            if color =? 2 then search fuel colors work_index stack
            else if color =? 1 then !Err is_cyclic
            else
              colors ← !store colors node_id 1;
              pushed ← !expand colors node_id;
              search fuel colors work_index
                (((fun child => (child, false)) <$> pushed) ++ (node_id, true) :: stack)
      end
  end.

(** A node is expanded once, and queues at most one entry per item, so this
    many iterations empty the stack ([search_terminates]). *)
Definition search_fuel : nat :=
  (1 + N.to_nat (node_count self) * (N.to_nat (item_count self) + 2))%nat.

(** One start vertex of the outer loop. *)
Definition search_from (st : list u8 * usize) (start_id : usize) : Cx (list u8 * usize) :=
  let '(colors, work_index) := st in
  tag ← !node_tag self start_id;
  if negb (g.(is_vertex) tag) then mret (colors, work_index) else
  color ← !index colors start_id;
  if color =? 2 then mret (colors, work_index) else
  search search_fuel colors work_index [(start_id, false)].

Definition validate_graph (length_overflow : string) (has_edges : Cx bool) : Cx unit :=
  present ← has_edges;
  if negb present then mret tt else
  color_length ← !ok_or (checked_add (node_count self) 1) (resource length_overflow);
  _ ← foldM search_from (replicate (N.to_nat color_length) 0, 0)
        (range 1 (node_count self + 1));
  mret tt.
End search.

(** ** The three graphs *)

Section graphs.
Context `{LowercaseTable} (self : DirectColumns).

(** [(item_start..item_start + length).rev()]. *)
Definition rev_range (item_start length : usize) : list usize :=
  reverse (range item_start (item_start +w length)).

(** The scan that decides whether the search is needed: the first node of
    which [scan] holds. *)
Definition scan_nodes (scan : usize -> outcome bool) : Cx bool :=
  found ← fold_until (fun '() node_id =>
    _ ← check_cancel node_id;
    present ← !scan node_id;
    if present : bool then mret (Return tt) else mret (Continue tt)) tt
    (range 1 (node_count self + 1));
  mret (match found with Return _ => true | Continue _ => false end).

Definition annotation_read (item_index : usize) : outcome (option usize) :=
  child ← item_node self item_index;
  tag ← node_tag self child;
  if negb (tag =? TAG_ANNOTATION) then
    Err (malformed "encoded annotation set item does not reference an Annotation")
  else Ok (Some child).

Definition annotation_graph : Graph := {|
  is_vertex := fun tag => tag =? TAG_ANNOTATION;
  reads := fun node_id =>
    start ← exact_fields self node_id 3;
    '(item_start, length) ← node_set_range self (start +w 2) 0;
    Ok (annotation_read <$> rev_range item_start length);
  overflow := "encoded annotation graph traversal overflow";
  cyclic := "encoded annotation metadata graph is cyclic";
|}.

Definition has_nested_annotations (node_id : usize) : outcome bool :=
  tag ← node_tag self node_id;
  if negb (tag =? TAG_ANNOTATION) then Ok false else
  start ← exact_fields self node_id 3;
  '(_, length) ← node_set_range self (start +w 2) 0;
  Ok (negb (length =? 0)).

Definition validate_annotation_graph : Cx unit :=
  validate_graph self annotation_graph "encoded annotation graph color length overflow"
    (scan_nodes has_nested_annotations).

Definition class_child (child : usize) : outcome (option usize) :=
  tag ← node_tag self child;
  Ok (if is_recursive_class_expression_tag tag then Some child else None).

Definition class_reads (node_id : usize) : outcome (list (outcome (option usize))) :=
  tag ← node_tag self node_id;
  if is_aggregate_tag tag then
    start ← exact_fields self node_id 1;
    '(item_start, length) ← node_set_range self start 2;
    Ok ((fun item_index => child ← item_node self item_index; class_child child)
          <$> rev_range item_start length)
  else
    child ← recursive_class_single_child self node_id;
    match child with
    | Some child => Ok [class_child child]
    | None => Err (malformed "encoded recursive class-expression cursor changed after preflight")
    end.

Definition class_graph : Graph := {|
  is_vertex := is_recursive_class_expression_tag;
  reads := class_reads;
  overflow := "encoded recursive class-expression traversal overflow";
  cyclic := "encoded recursive class-expression graph is cyclic";
|}.

Definition has_recursive_class_edge (node_id : usize) : outcome bool :=
  tag ← node_tag self node_id;
  if negb (is_recursive_class_expression_tag tag) then Ok false else
  if is_aggregate_tag tag then
    start ← exact_fields self node_id 1;
    '(item_start, length) ← node_set_range self start 2;
    found ← fold_until (fun '() item_index =>
      child ← item_node self item_index;
      child_tag ← node_tag self child;
      Ok (if is_recursive_class_expression_tag child_tag then Return tt else Continue tt)) tt
      (range item_start (item_start +w length));
    Ok (match found with Return _ => true | Continue _ => false end)
  else
    child ← recursive_class_single_child self node_id;
    match child with
    | Some child =>
        child_tag ← node_tag self child;
        Ok (is_recursive_class_expression_tag child_tag)
    | None => Ok false
    end.

Definition validate_recursive_class_expression_graph : Cx unit :=
  validate_graph self class_graph
    "encoded recursive class-expression color length overflow"
    (scan_nodes has_recursive_class_edge).

Definition data_range_child (maximum child : usize) : outcome (option usize) :=
  tag ← node_tag self child;
  if negb (is_recursive_data_range_tag tag) then
    _ ← validate_data_range_reference self child maximum; Ok None
  else Ok (Some child).

Definition data_range_reads (maximum node_id : usize)
    : outcome (list (outcome (option usize))) :=
  tag ← node_tag self node_id;
  if contains [TAG_DATA_INTERSECTION_OF; TAG_DATA_UNION_OF] tag then
    start ← exact_fields self node_id 1;
    '(item_start, length) ← node_set_range self start 2;
    Ok ((fun item_index => child ← item_node self item_index; data_range_child maximum child)
          <$> rev_range item_start length)
  else if tag =? TAG_DATA_COMPLEMENT_OF then
    start ← exact_fields self node_id 1;
    child ← field_node self start;
    Ok [data_range_child maximum child]
  else Err (malformed "encoded recursive data-range cursor changed after preflight").

Definition data_range_graph (maximum : usize) : Graph := {|
  is_vertex := is_recursive_data_range_tag;
  reads := data_range_reads maximum;
  overflow := "encoded data-range traversal overflow";
  cyclic := "encoded data-range graph is cyclic";
|}.

Definition has_recursive_data_range (node_id : usize) : outcome bool :=
  tag ← node_tag self node_id;
  Ok (is_recursive_data_range_tag tag).

Definition validate_data_range_graph (maximum : usize) : Cx unit :=
  validate_graph self (data_range_graph maximum) "encoded data-range color length overflow"
    (scan_nodes has_recursive_data_range).

(** [validate_supported_nodes]. *)
Definition validate_supported_nodes (maximum_iri : usize) : Cx unit :=
  _ ← forM (range 1 (node_count self + 1)) (fun node_id =>
        _ ← check_cancel node_id;
        !validate_supported_node self node_id maximum_iri);
  _ ← validate_annotation_graph;
  _ ← validate_recursive_class_expression_graph;
  validate_data_range_graph maximum_iri.

(** ** Reachability *)

(** The stack (top first) and the marks. *)
Definition queue_reachable_node (st : list usize * list bool) (node_id : usize)
    : outcome (list usize * list bool) :=
  let '(stack, reachable) := st in
  marked ← index reachable node_id;
  if marked : bool then Ok (stack, reachable) else
  reachable ← store reachable node_id true;
  Ok (node_id :: stack, reachable).

Definition queue_field (st : list usize * list bool) (field_index : usize)
    : outcome (list usize * list bool) :=
  kind ← field_kind self field_index;
  if kind =? COMPONENT_NODE then
    child ← field_node self field_index;
    queue_reachable_node st child
  else if negb (contains [COMPONENT_SET; COMPONENT_SEQUENCE] kind) then Ok st
  else
    item_start ← field_value self field_index;
    length ← field_length self field_index;
    foldM (fun st item_index =>
      item_kind ← index self.(item_kinds) item_index;
      if u8_of_byte item_kind =? COMPONENT_NODE then
        child ← item_node self item_index;
        queue_reachable_node st child
      else Ok st) st (range item_start (item_start +w length)).

Definition queue_fields (st : list usize * list bool) (node_id : usize)
    : outcome (list usize * list bool) :=
  '(start, end_) ← field_range self node_id;
  foldM queue_field st (range start end_).

(** The worklist; [found] is the early exit of
    [root_contains_anonymous_individual]. *)
Fixpoint reach (fuel : nat) (found : usize -> outcome bool) (st : list usize * list bool)
    : Cx (control (list bool) unit) :=
  match st with
  | ([], reachable) => mret (Continue reachable)
  | (node_id :: stack, reachable) =>
      match fuel with
      | O => !OutOfFuel
      | S fuel =>
          _ ← check_cancel node_id;
          stop ← !found node_id;
          if stop : bool then mret (Return tt) else
          st ← !queue_fields (stack, reachable) node_id;
          reach fuel found st
      end
  end.

(** A node is queued when its mark is set, so once. *)
Definition reach_fuel : nat := S (N.to_nat (node_count self)).

Definition reachable_table : outcome (list bool) :=
  length ← ok_or (checked_add (node_count self) 1)
             (resource "encoded reachability length overflow");
  Ok (replicate (N.to_nat length) false).

Definition never (_ : usize) : outcome bool := Ok false.

Definition root_contains_anonymous_individual (root : usize) : Cx bool :=
  reachable ← !reachable_table;
  st ← !queue_reachable_node ([], reachable) root;
  result ← reach reach_fuel
    (fun node_id => tag ← node_tag self node_id; Ok (tag =? TAG_ANONYMOUS_INDIVIDUAL)) st;
  mret (match result with Return _ => true | Continue _ => false end).

(** The marks the call leaves behind; it starts by clearing the stack. *)
Definition mark_root_reachable (root : usize) (reachable : list bool) : Cx (list bool) :=
  length ← !ok_or (checked_add (node_count self) 1)
             (resource "encoded reachability length overflow");
  if negb (len reachable =? length) then
    !Err (malformed "encoded composite reachability plan has the wrong table length") else
  st ← !queue_reachable_node ([], reachable) root;
  result ← reach reach_fuel never st;
  mret (match result with Return _ => reachable | Continue reachable => reachable end).

Record AnonymousIds := {
  node_ids : list usize;
  global_positions : option (list usize);
  single_position : option usize;
}.

Definition AnonymousIds_default : AnonymousIds :=
  {| node_ids := []; global_positions := None; single_position := None |}.

(** The queue of the selected axiom roots. *)
Definition queue_selected_axioms (reachable : list bool) : Cx (list usize * list bool) :=
  foldM (fun st root_index =>
    _ ← check_cancel root_index;
    selected ← !root_is_selected self root_index;
    if negb selected then mret st else
    kind ← !root_kind self root_index;
    if negb (kind =? ROOT_AXIOM) then mret st else
    root_id ← !root_id self root_index;
    !queue_reachable_node st root_id) ([], reachable) (range 0 (root_count self)).

(** [reachable.iter().copied().enumerate().skip(1)]. *)
Definition is_reachable_anonymous (reachable : list bool) (node_id : usize) : outcome bool :=
  is_reachable ← index reachable node_id;
  if is_reachable : bool then
    tag ← node_tag self node_id; Ok (tag =? TAG_ANONYMOUS_INDIVIDUAL)
  else Ok false.

(** The check that the reachable anonymous individuals are in canonical order;
    the state is the previous one and their count. *)
Definition check_anonymous_order (reachable : list bool) (st : option usize * usize)
    (node_id : usize) : Cx (option usize * usize) :=
  let '(previous, anonymous_count) := st in
  _ ← check_cancel node_id;
  present ← !is_reachable_anonymous reachable node_id;
  if negb present then mret (previous, anonymous_count) else
  _ ← !(match previous with
        | Some previous_id =>
            order ← compare_anonymous_nodes self previous_id node_id;
            if negb (is_lt order) then
              Err (malformed "encoded axiom-derived anonymous individuals are not canonical and unique")
            else Ok tt
        | None => Ok tt
        end);
  anonymous_count ← !ok_or (checked_add anonymous_count 1)
    (resource "encoded anonymous index length overflow");
  mret (Some node_id, anonymous_count).

Definition axiom_anonymous_ids : Cx AnonymousIds :=
  has_anonymous_individual ← scan_nodes (fun node_id =>
    tag ← node_tag self node_id; Ok (tag =? TAG_ANONYMOUS_INDIVIDUAL));
  if negb has_anonymous_individual then mret AnonymousIds_default else
  reachable ← !reachable_table;
  st ← queue_selected_axioms reachable;
  result ← reach reach_fuel never st;
  let reachable := match result with Continue reachable => reachable | Return _ => reachable end in
  _ ← foldM (check_anonymous_order reachable) (None, 0) (range 1 (len reachable));
  node_ids ← !foldM (fun node_ids node_id =>
    present ← is_reachable_anonymous reachable node_id;
    Ok (if present : bool then node_ids ++ [node_id] else node_ids)) [] (range 1 (len reachable));
  mret {| node_ids := node_ids; global_positions := None; single_position := None |}.
End graphs.
