(* ===== verification/Search.v ===== *)
(** * The three-colour search is a cycle check

    For a graph whose reads obey [GraphLaws], [validate_graph] terminates
    within its fuel, never indexes its colour table out of range, accepts only
    acyclic graphs, and accepts every acyclic graph whose nodes can be read. *)

From stdpp Require Import relations.
From S2P Require Import Prelude Errors Tags Text Readers Columns Nodes Properties Classes Swrl.
From S2P Require Import Graphs.
Local Open Scope string_scope.
Local Open Scope list_scope.
Local Open Scope N_scope.

(** ** Sums over a list with one changed entry *)

Definition total {A} (f : A -> nat) (l : list A) : nat := sum_list_with f l.

Lemma total_le {A} (f g : A -> nat) l :
  (forall x, x ∈ l -> (f x <= g x)%nat) -> (total f l <= total g l)%nat.
Proof.
  unfold total. induction l as [|x l IH]; cbn; intros H; [lia|].
  pose proof (H x ltac:(set_solver)). assert (H' := IH (fun y Hy => H y (list_elem_of_further y x l Hy))). lia.
Qed.

Lemma total_drop {A} (f g : A -> nat) l y d :
  y ∈ l -> (forall x, x ∈ l -> (f x <= g x)%nat) -> (f y + d <= g y)%nat ->
  (total f l + d <= total g l)%nat.
Proof.
  unfold total. induction l as [|x l IH]; cbn; intros Hy H Hd; [set_solver|].
  pose proof (H x ltac:(set_solver)).
  apply elem_of_cons in Hy as [->|Hy].
  - assert (H' := total_le f g l (fun z Hz => H z (list_elem_of_further z x l Hz))). unfold total in H'. lia.
  - assert (H' := IH Hy (fun z Hz => H z (list_elem_of_further z x l Hz)) Hd). lia.
Qed.

Lemma total_bound {A} (f : A -> nat) l b :
  (forall x, x ∈ l -> (f x <= b)%nat) -> (total f l <= length l * b)%nat.
Proof.
  unfold total. induction l as [|x l IH]; cbn; intros H; [lia|].
  pose proof (H x ltac:(set_solver)). assert (H' := IH (fun y Hy => H y (list_elem_of_further y x l Hy))). lia.
Qed.

(** ** Reads and writes of the colour table *)

Lemma store_Ok {A} (l : list A) i v k :
  store l i v = Ok k -> i < len l /\ len k = len l /\
  forall j, get k j = if j =? i then Some v else get l j.
Proof.
  unfold store. destruct (N.ltb_spec i (len l)); [|done]. intros [= <-].
  split; [done|]. split; [unfold len; by rewrite length_insert|].
  intros j. rewrite !get_lookup. destruct (N.eqb_spec j i) as [->|].
  - apply list_lookup_insert_eq. unfold len in *. lia.
  - apply list_lookup_insert_ne. lia.
Qed.

Lemma store_lt {A} (l : list A) i v : i < len l -> exists k, store l i v = Ok k.
Proof. intros H. unfold store. destruct (N.ltb_spec i (len l)); [eauto|lia]. Qed.

Lemma index_lt {A} (l : list A) i : i < len l -> exists a, index l i = Ok a.
Proof. intros [a Ha]%get_lt_Some. exists a. by apply index_Ok. Qed.

(** ** Vertices and edges *)

Section search.
Context (self : DirectColumns) (g : Graph).

Definition vertex (n : usize) : Prop :=
  exists tag, node_tag self n = Ok tag /\ g.(is_vertex) tag = true.

Definition edge (n c : usize) : Prop :=
  vertex n /\ exists rs, g.(reads) n = Ok rs /\ Ok (Some c) ∈ rs.

(** Nothing reaches itself. *)
Definition acyclic : Prop := forall n, ~ tc edge n n.

Definition readable (n : usize) : Prop :=
  exists rs, g.(reads) n = Ok rs /\ forall r, r ∈ rs -> exists c, r = Ok c.

Class GraphLaws : Prop := {
  reads_safe n : safe (g.(reads) n);
  read_safe n rs r : g.(reads) n = Ok rs -> r ∈ rs -> safe r;
  read_vertex n rs c : g.(reads) n = Ok rs -> Ok (Some c) ∈ rs -> vertex c;
  reads_length n rs :
    g.(reads) n = Ok rs -> (length rs <= N.to_nat (item_count self) + 1)%nat;
}.

Context {laws : GraphLaws}.

Lemma node_tag_bound n tag : node_tag self n = Ok tag -> 1 <= n <= node_count self.
Proof using Type.
  unfold node_tag, checked_node_id. intros H. inv_ok.
  destruct (N.leb_spec 1 n), (N.leb_spec n (node_count self)); cbn in *; try discriminate; lia.
Qed.

Lemma vertex_bound n : vertex n -> 1 <= n <= node_count self.
Proof using Type. intros (tag&H&_). by eapply node_tag_bound. Qed.

(** ** One expansion *)

Definition color_is (colors : list u8) (n : usize) (c : u8) : Prop := get colors n = Some c.

Record table (colors : list u8) : Prop := {
  table_len : len colors = node_count self + 1;
  table_colors n c : get colors n = Some c -> c = 0 \/ c = 1 \/ c = 2;
}.

Lemma table_index colors n : table colors -> n <= node_count self ->
  exists c, index colors n = Ok c /\ get colors n = Some c /\ (c = 0 \/ c = 1 \/ c = 2).
Proof using Type.
  intros Ht Hn. destruct (index_lt colors n) as [c Hc]; [rewrite (table_len _ Ht); lia|].
  exists c. apply index_Ok in Hc as Hg. eauto using table_colors.
Qed.

Lemma table_store colors n v k :
  table colors -> v = 1 \/ v = 2 -> store colors n v = Ok k -> table k.
Proof using Type.
  intros Ht Hv (H1&H2&H3)%store_Ok. split; [rewrite H2; apply Ht|].
  intros m c. rewrite H3. destruct (N.eqb_spec m n); [naive_solver|apply Ht].
Qed.

Lemma queue_children_spec colors rs pushed :
  table colors ->
  (forall r, r ∈ rs -> safe r /\ forall c, r = Ok (Some c) -> vertex c) ->
  let res := foldM (queue_child g colors) pushed rs in
  safe res /\
  (forall out, res = Ok out ->
     (length out <= length pushed + length rs)%nat /\
     (forall r, r ∈ rs -> exists c, r = Ok c) /\
     (forall c, Ok (Some c) ∈ rs -> get colors c = Some 2 \/ c ∈ out) /\
     (forall c, c ∈ out -> c ∈ pushed \/ Ok (Some c) ∈ rs) /\
     (forall c, c ∈ pushed -> c ∈ out)) /\
  ((forall r, r ∈ rs -> exists c, r = Ok c) ->
   (forall c, Ok (Some c) ∈ rs -> get colors c <> Some 1) -> exists out, res = Ok out).
Proof using laws.
  intros Ht. cbn. revert pushed. induction rs as [|r rs IH]; intros pushed Hrs; cbn [foldM].
  { split; [apply safe_Ok|]. split; [|by eauto].
    intros out [= <-]. split; [lia|].
    split; [by intros r ?%elem_of_nil|]. split; [by intros c ?%elem_of_nil|]. auto. }
  destruct (Hrs r (list_elem_of_here _ _)) as [Hsafe Hv].
  specialize (fun p => IH p (fun r Hr => Hrs r (list_elem_of_further _ _ _ Hr))).
  assert (Hskip : forall p, p = pushed -> (forall c, r = Ok (Some c) -> get colors c = Some 2) ->
    (exists o, r = Ok o) ->
    let res := foldM (queue_child g colors) p rs in
    safe res /\
    (forall out, res = Ok out ->
       (length out <= length pushed + S (length rs))%nat /\
       (forall r', r' ∈ r :: rs -> exists c, r' = Ok c) /\
       (forall c, Ok (Some c) ∈ r :: rs -> get colors c = Some 2 \/ c ∈ out) /\
       (forall c, c ∈ out -> c ∈ pushed \/ Ok (Some c) ∈ r :: rs) /\
       (forall c, c ∈ pushed -> c ∈ out)) /\
    ((forall r', r' ∈ r :: rs -> exists c, r' = Ok c) ->
     (forall c, Ok (Some c) ∈ r :: rs -> get colors c <> Some 1) -> exists out, res = Ok out)).
  { intros p -> Hb Hex. cbn. destruct (IH pushed) as (H1&H2&H3). split; [done|]. split.
    - intros out Ho. destruct (H2 out Ho) as (Hl&Hr&Ha&Hc&Hp). split; [lia|].
      split; [intros r' [->|?]%elem_of_cons; auto|].
      split; [intros c [Hc'|?]%elem_of_cons; [left; by apply Hb|auto]|].
      split; [|done]. intros c Hc'. destruct (Hc c Hc'); [by left|].
      right. by apply list_elem_of_further.
    - intros Ha Hc. apply H3; intros; [apply Ha|apply Hc]; by apply list_elem_of_further. }
  destruct r as [[c|]|e| |]; cbn -[foldM].
  - specialize (Hv c eq_refl) as Hc.
    destruct (table_index colors c Ht) as (k&Hk&Hg&Hcase); [by apply vertex_bound in Hc; lia|].
    rewrite Hk. cbn -[foldM].
    destruct Hcase as [->|[->| ->]]; cbn -[foldM].
    + destruct (IH (c :: pushed)) as (H1&H2&H3). split; [done|]. split.
      * intros out Ho. destruct (H2 out Ho) as (Hl&Hr&Ha&Hb&Hp). split; [cbn in *; lia|].
        split; [intros r' [->|?]%elem_of_cons; eauto|].
        split; [intros c' [[= ->]|?]%elem_of_cons;
          [right; apply Hp, list_elem_of_here|auto]|].
        split; [|intros c' ?; by apply Hp, list_elem_of_further].
        intros c' [[->|?]%elem_of_cons|?]%Hb; [right; apply list_elem_of_here|by left|].
        right. by apply list_elem_of_further.
      * intros Ha Hb. apply H3; intros; [apply Ha|apply Hb]; by apply list_elem_of_further.
    + split; [done|]. split; [done|]. intros _ Hb. exfalso.
      apply (Hb c); [apply list_elem_of_here|done].
    + apply Hskip; [done|by intros ? [= <-]|by eauto].
  - apply Hskip; [done|done|by eauto].
  - split; [done|]. split; [done|]. intros Ha _. by destruct (Ha (Err e) (list_elem_of_here _ _)).
  - by destruct Hsafe.
  - by destruct Hsafe.
Qed.

Lemma expand_spec colors n :
  table colors -> vertex n ->
  safe (expand g colors n) /\
  (forall out, expand g colors n = Ok out -> exists rs, g.(reads) n = Ok rs /\
     (length out <= length rs)%nat /\ readable n /\
     (forall c, edge n c -> get colors c = Some 2 \/ c ∈ out) /\
     (forall c, c ∈ out -> edge n c)) /\
  (readable n -> (forall c, edge n c -> get colors c <> Some 1) ->
   exists out, expand g colors n = Ok out).
Proof using laws.
  intros Ht Hn. unfold expand.
  destruct (g.(reads) n) as [rs|e| |] eqn:Er; cbn.
  - destruct (queue_children_spec colors rs [] Ht) as (H1&H2&H3).
    { intros r Hr. split; [by eapply read_safe|]. intros c ->. by eapply read_vertex. }
    split; [done|]. split.
    + intros out Ho. exists rs. destruct (H2 out Ho) as (Hl&Hr&Ha&Hb&_).
      split; [done|]. split; [cbn in Hl; lia|]. split; [by exists rs|]. split.
      * intros c (_&rs'&Hrs'&Hc). rewrite Er in Hrs'. injection Hrs' as <-. auto.
      * intros c Hc. split; [done|]. exists rs. split; [done|]. set_solver.
    + intros (rs'&Hrs'&Hr) Hb. rewrite Er in Hrs'. injection Hrs' as <-.
      apply H3; [done|]. intros c Hc. apply Hb. split; [done|]. by exists rs.
  - split; [done|]. split; [done|]. intros (rs&?&_). congruence.
  - destruct (reads_safe n) as [Hp _]. by rewrite Er in Hp.
  - destruct (reads_safe n) as [_ Hp]. by rewrite Er in Hp.
Qed.

(** ** The potential that every iteration lowers *)

Definition weight (n : usize) : nat :=
  match g.(reads) n with Ok rs => length rs | _ => 0%nat end.

Definition cost (colors : list u8) (n : usize) : nat :=
  if bool_decide (get colors n = Some 0) then (1 + weight n)%nat else 0%nat.

Definition potential (colors : list u8) : nat :=
  total (cost colors) (range 1 (node_count self + 1)).

Lemma potential_fuel colors : (1 + potential colors <= search_fuel self)%nat.
Proof using laws.
  unfold potential, search_fuel.
  pose proof (total_bound (cost colors) (range 1 (node_count self + 1))
    (N.to_nat (item_count self) + 2)) as H.
  rewrite length_range in H.
  replace (N.to_nat (node_count self + 1 - 1)) with (N.to_nat (node_count self)) in H by lia.
  enough (forall x, (cost colors x <= N.to_nat (item_count self) + 2)%nat) by naive_solver lia.
  intros x. unfold cost, weight. case_bool_decide; [|lia].
  destruct (g.(reads) x) eqn:E; try lia. apply reads_length in E. lia.
Qed.

Lemma potential_enter colors n k :
  vertex n -> get colors n = Some 0 -> store colors n 1 = Ok k ->
  (potential k + (1 + weight n) <= potential colors)%nat.
Proof using Type.
  intros Hv Hn (_&_&Hk)%store_Ok. eapply (total_drop _ _ _ n).
  - apply elem_of_range. apply vertex_bound in Hv. lia.
  - intros x _. unfold cost. rewrite Hk. destruct (N.eqb_spec x n); [|lia].
    rewrite bool_decide_eq_false_2 by done. lia.
  - unfold cost. rewrite Hk, N.eqb_refl, Hn.
    rewrite bool_decide_eq_false_2, bool_decide_eq_true_2 by done. lia.
Qed.

Lemma potential_exit colors n k :
  store colors n 2 = Ok k -> (potential k <= potential colors)%nat.
Proof using Type.
  intros (_&_&Hk)%store_Ok. apply total_le. intros x _. unfold cost. rewrite Hk.
  destruct (N.eqb_spec x n); [|lia]. rewrite bool_decide_eq_false_2 by done. lia.
Qed.
(** ** The invariant of the search *)

Abbreviation child_of := (flip edge).

Record inv (colors : list u8) (stack : list (usize * bool)) : Prop := {
  inv_table : table colors;
  inv_vertex n b : (n, b) ∈ stack -> vertex n;
  (** A black node only reaches black nodes, by finite paths. *)
  inv_black n : get colors n = Some 2 -> Acc child_of n;
  (** The children of an open node are black or above it. *)
  inv_pending pre n post : stack = pre ++ (n, true) :: post ->
    forall c, edge n c -> get colors c = Some 2 \/ exists b, (c, b) ∈ pre;
  inv_grey n : get colors n = Some 1 -> (n, true) ∈ stack;
  (** An open node reaches everything above it. *)
  inv_above pre n post : stack = pre ++ (n, true) :: post ->
    forall m b, (m, b) ∈ pre -> tc edge n m;
}.

Lemma store_black colors n k m :
  store colors n 2 = Ok k -> get colors m = Some 2 -> get k m = Some 2.
Proof using Type. intros (_&_&->)%store_Ok Hm. by destruct (N.eqb_spec m n). Qed.

Lemma inv_exit colors stack n k :
  inv colors ((n, true) :: stack) -> store colors n 2 = Ok k -> inv k stack.
Proof using Type.
  intros I Hk. pose proof (store_Ok _ _ _ _ Hk) as (_&_&Hget).
  assert (Hn : Acc child_of n).
  { constructor. intros c Hc.
    destruct (inv_pending _ _ I [] n stack eq_refl c Hc) as [?|[b ?%elem_of_nil]]; [|done].
    by eapply inv_black. }
  split.
  - eapply table_store; eauto using inv_table.
  - intros m b Hm. eapply (inv_vertex _ _ I). by right.
  - intros m. rewrite Hget. destruct (N.eqb_spec m n) as [->|]; [done|apply (inv_black _ _ I)].
  - intros pre m post -> c Hc.
    destruct (inv_pending _ _ I ((n, true) :: pre) m post eq_refl c Hc) as [?|[b Hb]].
    + left. by eapply store_black.
    + apply elem_of_cons in Hb as [[= -> _]|?]; [|by eauto].
      left. by rewrite Hget, N.eqb_refl.
  - intros m. rewrite Hget. destruct (N.eqb_spec m n) as [->|]; [done|].
    intros [[= ->]|?]%(inv_grey _ _ I)%elem_of_cons; done.
  - intros pre m post -> c b Hc. apply (inv_above _ _ I ((n, true) :: pre) m post eq_refl c b).
    by right.
Qed.

Lemma inv_skip colors stack n :
  inv colors ((n, false) :: stack) -> get colors n = Some 2 -> inv colors stack.
Proof using Type.
  intros I Hn. split; try apply I.
  - intros m b Hm. eapply (inv_vertex _ _ I). by right.
  - intros pre m post -> c Hc.
    destruct (inv_pending _ _ I ((n, false) :: pre) m post eq_refl c Hc) as [?|[b Hb]]; [by left|].
    apply elem_of_cons in Hb as [[= -> _]|?]; eauto.
  - intros m [|]%(inv_grey _ _ I)%elem_of_cons; done.
  - intros pre m post -> c b Hc. apply (inv_above _ _ I ((n, false) :: pre) m post eq_refl c b).
    by right.
Qed.

(** The entry a split of the pushed stack finds: the new one or an old one. *)
Lemma pushed_split (out : list usize) n (stack pre : list (usize * bool)) m post :
  ((fun child => (child, false)) <$> out) ++ (n, true) :: stack = pre ++ (m, true) :: post ->
  (m = n /\ pre = (fun child => (child, false)) <$> out /\ post = stack) \/
  exists pre', stack = pre' ++ (m, true) :: post /\
    pre = ((fun child => (child, false)) <$> out) ++ (n, true) :: pre'.
Proof using Type.
  revert pre. induction out as [|c out IH]; intros pre; cbn.
  - destruct pre as [|p pre]; cbn; [intros [= -> ->]; by left|].
    intros [= <- ->]. right. by exists pre.
  - destruct pre as [|p pre]; cbn; [done|]. intros [= <- H].
    destruct (IH pre H) as [(->&->&->)|(pre'&->&->)]; [by left|]. right. by exists pre'.
Qed.

Lemma inv_enter colors stack n k out :
  inv colors ((n, false) :: stack) -> store colors n 1 = Ok k ->
  (forall c, edge n c -> get k c = Some 2 \/ c ∈ out) ->
  (forall c, c ∈ out -> edge n c) -> get colors n = Some 0 ->
  inv k (((fun child => (child, false)) <$> out) ++ (n, true) :: stack).
Proof using laws.
  intros I Hk Hcov Hout Hn. pose proof (store_Ok _ _ _ _ Hk) as (_&_&Hget).
  assert (Hblack : forall m, get k m = Some 2 <-> get colors m = Some 2).
  { intros m. rewrite Hget. destruct (N.eqb_spec m n) as [->|]; [|done]. rewrite Hn. done. }
  assert (Hin : forall m b, (m, b) ∈ (fun child => (child, false)) <$> out -> m ∈ out).
  { intros m b (c&[= -> ->]&Hc)%list_elem_of_fmap. done. }
  split.
  - eapply (table_store _ _ _ _ (inv_table _ _ I)); [by left|done].
  - intros m b [Hm|[[= -> ->]|Hm]%elem_of_cons]%elem_of_app.
    + apply Hin, Hout in Hm as (_&rs&?&?). by eapply read_vertex.
    + eapply (inv_vertex _ _ I). by left.
    + eapply (inv_vertex _ _ I). by right.
  - intros m. rewrite Hblack. apply (inv_black _ _ I).
  - intros pre m post [(->&->&->)|(pre'&Hs&->)]%pushed_split c Hc.
    + destruct (Hcov c Hc) as [?|Ho]; [by left|]. right. exists false.
      apply list_elem_of_fmap. eauto.
    + destruct (inv_pending _ _ I ((n, false) :: pre') m post) with c as [?|[b Hb]].
      * cbn. by rewrite Hs.
      * done.
      * left. by apply Hblack.
      * right. apply elem_of_cons in Hb as [[= -> _]|Hb].
        -- exists true. apply elem_of_app. right. by left.
        -- exists b. apply elem_of_app. right. by right.
  - intros m. rewrite Hget. destruct (N.eqb_spec m n) as [->|].
    + intros _. apply elem_of_app. right. by left.
    + intros [[=]|?]%(inv_grey _ _ I)%elem_of_cons. apply elem_of_app. right. by right.
  - intros pre m post [(->&->&->)|(pre'&Hs&->)]%pushed_split c b Hc.
    + apply tc_once. by eapply Hout, Hin.
    + assert (Hmn : tc edge m n).
      { apply (inv_above _ _ I ((n, false) :: pre') m post) with false; [cbn; by rewrite Hs|by left]. }
      apply elem_of_app in Hc as [Hc|[[= -> _]|Hc]%elem_of_cons].
      * eapply tc_r; [done|]. by eapply Hout, Hin.
      * done.
      * apply (inv_above _ _ I ((n, false) :: pre') m post) with b; [cbn; by rewrite Hs|by right].
Qed.

(** A grey node met again closes a cycle. *)
Lemma grey_cycle colors stack n c :
  inv colors ((n, false) :: stack) -> get colors c = Some 1 -> edge n c \/ n = c ->
  exists m, tc edge m m.
Proof using Type.
  intros I Hc Hnc. apply (inv_grey _ _ I) in Hc as [[=]|Hc]%elem_of_cons.
  apply list_elem_of_split in Hc as (pre&post&->).
  assert (tc edge c n)
    by (apply (inv_above _ _ I ((n, false) :: pre) c post eq_refl n false); by left).
  exists c. destruct Hnc as [?| ->]; [by eapply tc_r|done].
Qed.
End search.

#[export] Instance search_transparent g fuel colors w stack :
  Transparent (search g fuel colors w stack).
Proof.
  revert colors w stack. induction fuel as [|fuel IH]; intros colors w [|[n e] stack]; cbn;
    solve_transparent.
Qed.

#[export] Instance search_from_transparent self g st n : Transparent (search_from self g st n).
Proof. destruct st. unfold search_from. solve_transparent. Qed.

#[export] Instance validate_graph_transparent self g m (scan : Cx bool) :
  Transparent scan -> Transparent (validate_graph self g m scan).
Proof. intros. unfold validate_graph. solve_transparent. Qed.

(** One iteration of the undisturbed search. *)
Lemma run_search_step g fuel colors w n (exiting : bool) stack :
  run (search g (S fuel) colors w ((n, exiting) :: stack)) =
  (w ← ok_or (checked_add w 1) (resource g.(overflow));
   if exiting then
     colors ← store colors n 2; run (search g fuel colors w stack)
   else
     color ← index colors n;
     if color =? 2 then run (search g fuel colors w stack)
     else if color =? 1 then Err (is_cyclic g)
     else
       colors ← store colors n 1;
       pushed ← expand g colors n;
       run (search g fuel colors w
              (((fun child => (child, false)) <$> pushed) ++ (n, true) :: stack))).
Proof.
  cbn [search]. rewrite run_bind by solve_transparent. rewrite run_check_cancel. cbn [mbind outcome_bind].
  rewrite run_bind by solve_transparent. rewrite run_lift. apply bind_ext. intros w' _.
  destruct exiting.
  - rewrite run_bind by solve_transparent. by rewrite run_lift.
  - rewrite run_bind by solve_transparent. rewrite run_lift. apply bind_ext. intros c _.
    destruct (c =? 2); [done|]. destruct (c =? 1); [done|].
    rewrite run_bind by solve_transparent. rewrite run_lift. apply bind_ext. intros k _.
    rewrite run_bind by solve_transparent. by rewrite run_lift.
Qed.

Section search_correct.
Context (self : DirectColumns) (g : Graph) {laws : GraphLaws self g}.

(** What the search establishes from a state of the invariant. *)
Definition search_post (colors : list u8) (w : usize) (stack : list (usize * bool))
    (res : outcome (list u8 * usize)) : Prop :=
  safe res /\
  (forall colors' w', res = Ok (colors', w') ->
     inv self g colors' [] /\
     (forall n, get colors n = Some 2 -> get colors' n = Some 2) /\
     (forall n b, (n, b) ∈ stack -> get colors' n = Some 2) /\
     (N.to_nat w' + potential self g colors'
        <= N.to_nat w + length stack + potential self g colors)%nat) /\
  (acyclic self g -> (forall n, vertex self g n -> readable g n) ->
   w + N.of_nat (length stack + potential self g colors) <= usize_max ->
   exists st, res = Ok st).

(** An iteration that ends in a state with a smaller budget. *)
Lemma search_post_step colors w stack colors1 stack1 res :
  search_post colors1 (w + 1) stack1 res ->
  (length stack1 + potential self g colors1 + 1 <= length stack + potential self g colors)%nat ->
  (forall n, get colors n = Some 2 -> get colors1 n = Some 2) ->
  (forall n b, (n, b) ∈ stack -> get colors1 n = Some 2 \/ exists b', (n, b') ∈ stack1) ->
  search_post colors w stack res.
Proof using Type.
  intros (Hs&Ho&Hc) Hbudget Hblack Hstack. split; [done|]. split.
  - intros colors' w' Hres. destruct (Ho _ _ Hres) as (Hi&Hb&Hp&Hw).
    split; [done|]. split; [auto|]. split; [|lia].
    intros n b [?|[b' ?]]%Hstack; eauto.
  - intros Ha Hr Hw. apply Hc; [done|done|lia].
Qed.

Lemma search_correct fuel colors w stack :
  inv self g colors stack -> (length stack + potential self g colors <= fuel)%nat ->
  search_post colors w stack (run (search g fuel colors w stack)).
Proof using laws.
  revert colors w stack. induction fuel as [|fuel IH]; intros colors w stack I Hfuel.
  all: destruct stack as [|[n e] stack].
  1, 3: cbn [search]; rewrite run_ret; split; [done|]; split; [|by eauto];
    intros ? ? [= <- <-]; split; [done|]; split; [done|]; split; [by intros ? ? ?%elem_of_nil|cbn; lia].
  { cbn in Hfuel. lia. }
  rewrite run_search_step. cbn [length] in Hfuel.
  assert (Hv : vertex self g n) by (eapply (inv_vertex _ _ _ _ I); by left).
  assert (Hnb : n <= node_count self) by (apply vertex_bound in Hv; lia).
  pose proof (inv_table _ _ _ _ I) as Ht.
  destruct (checked_add w 1) as [w1|] eqn:Ew; cbn [ok_or mbind outcome_bind].
  2: { apply checked_add_None in Ew. split; [done|]. split; [done|]. intros _ _ Hw. exfalso.
       cbn [length] in Hw. lia. }
  apply checked_add_Some in Ew as [-> _].
  destruct e.
  { destruct (store_lt colors n 2) as [k Hk]; [rewrite (table_len _ _ Ht); lia|].
    rewrite Hk. cbn [mbind outcome_bind].
    pose proof (potential_exit self g _ _ _ Hk). pose proof (store_Ok _ _ _ _ Hk) as (_&_&Hget).
    eapply search_post_step; [apply IH; [by eapply inv_exit|lia]|cbn; lia|by intros; eapply store_black|].
    intros m b [[= -> ->]|?]%elem_of_cons; [left; by rewrite Hget, N.eqb_refl|eauto]. }
  destruct (table_index _ _ n Ht Hnb) as (c&Hc&Hg&Hcase). rewrite Hc. cbn [mbind outcome_bind].
  destruct Hcase as [->|[->| ->]]; cbn [N.eqb Pos.eqb].
  - destruct (store_lt colors n 1) as [k Hk]; [rewrite (table_len _ _ Ht); lia|].
    rewrite Hk. cbn [mbind outcome_bind]. pose proof (store_Ok _ _ _ _ Hk) as (_&_&Hget).
    destruct (expand_spec self g k n) as (Hs&Hok&Hex);
      [by eapply table_store; [| |exact Hk]; [done|left]|done|].
    destruct (expand g k n) as [out|e| |] eqn:Ee; cbn [mbind outcome_bind].
    + destruct (Hok out eq_refl) as (rs&Hrs&Hlen&_&Hcov&Hout).
      pose proof (potential_enter self g _ _ _ Hv Hg Hk) as Hp.
      unfold weight in Hp. rewrite Hrs in Hp.
      assert (length (((fun child : usize => (child, false)) <$> out) ++ (n, true) :: stack)
              = length out + S (length stack))%nat as Hl
        by (rewrite length_app, length_fmap; done).
      eapply search_post_step; [apply IH; [by eapply inv_enter|rewrite Hl; lia]|rewrite Hl; cbn; lia| |].
      * intros m Hm. rewrite Hget. destruct (N.eqb_spec m n); [congruence|done].
      * intros m b [[= -> ->]|?]%elem_of_cons; right; eexists; apply elem_of_app; right;
          [by left|right; eauto].
    + split; [done|]. split; [done|]. intros Ha Hr _. exfalso.
      destruct Hex as [out ?]; [by apply Hr| |done].
      intros c Hc1 Hgrey. rewrite Hget in Hgrey. destruct (N.eqb_spec c n) as [->|].
      * apply (Ha n). by apply tc_once.
      * destruct (grey_cycle self g _ _ _ _ I Hgrey) as [m Hm]; [by left|]. by apply (Ha m).
    + by destruct Hs.
    + by destruct Hs.
  - split; [done|]. split; [done|]. intros Ha _ _. exfalso.
    destruct (grey_cycle self g _ _ _ _ I Hg) as [m Hm]; [by right|]. by apply (Ha m).
  - eapply search_post_step; [apply IH; [by eapply inv_skip|lia]|cbn; lia|done|].
    intros m b [[= -> ->]|?]%elem_of_cons; eauto.
Qed.

Lemma inv_start colors n :
  inv self g colors [] -> vertex self g n -> inv self g colors [(n, false)].
Proof using Type.
  intros I Hn. split; try apply I.
  - intros m b [[= -> ->]|?%elem_of_nil]%elem_of_cons; done.
  - intros [|p [|q pre]] m post; cbn; intros [=].
  - intros m ?%(inv_grey _ _ _ _ I). by right.
  - intros [|p [|q pre]] m post; cbn; intros [=].
Qed.

(** One start vertex. *)
Lemma search_from_correct colors w n tag :
  inv self g colors [] -> node_tag self n = Ok tag ->
  let res := run (search_from self g (colors, w) n) in
  safe res /\
  (forall colors' w', res = Ok (colors', w') ->
     inv self g colors' [] /\
     (forall m, get colors m = Some 2 -> get colors' m = Some 2) /\
     (vertex self g n -> get colors' n = Some 2) /\
     (N.to_nat w' + potential self g colors' <= N.to_nat w + 1 + potential self g colors)%nat) /\
  (acyclic self g -> (forall n, vertex self g n -> readable g n) ->
   w + N.of_nat (1 + potential self g colors) <= usize_max -> exists st, res = Ok st).
Proof using laws.
  intros I Htag. pose proof (inv_table _ _ _ _ I) as Ht.
  pose proof (node_tag_bound self _ _ Htag) as Hn.
  unfold search_from. cbn zeta. rewrite run_bind by solve_transparent.
  rewrite run_lift, Htag. cbn [mbind outcome_bind].
  destruct (g.(is_vertex) tag) eqn:Ev; cbn [negb]; cycle 1.
  { rewrite run_ret. split; [done|]. split; [|by eauto]. intros ? ? [= <- <-].
    split; [done|]. split; [done|]. split; [|lia]. intros (t&?&?). congruence. }
  assert (Hv : vertex self g n) by (by exists tag).
  rewrite run_bind by solve_transparent. rewrite run_lift.
  destruct (table_index _ _ n Ht) as (c&Hc&Hg&_); [lia|]. rewrite Hc. cbn [mbind outcome_bind].
  destruct (N.eqb_spec c 2) as [->|].
  { rewrite run_ret. split; [done|]. split; [|by eauto]. intros ? ? [= <- <-].
    split; [done|]. split; [done|]. split; [done|lia]. }
  destruct (search_correct (search_fuel self) colors w [(n, false)]) as (Hs&Ho&Hx).
  { by apply inv_start. }
  { pose proof (potential_fuel self g colors). cbn [length]. lia. }
  split; [done|]. split; [|exact Hx]. intros colors' w' Hr.
  destruct (Ho _ _ Hr) as (Hi&Hb&Hp&Hw). split; [done|]. split; [done|].
  split; [intros _; apply (Hp n false); by left|cbn in Hw; lia].
Qed.

(** The outer loop over the start vertices [starts]. *)
Lemma search_all starts colors w :
  inv self g colors [] ->
  (forall n, n ∈ starts -> exists tag, node_tag self n = Ok tag) ->
  let res := run (foldM (search_from self g) (colors, w) starts) in
  safe res /\
  (forall colors' w', res = Ok (colors', w') ->
     inv self g colors' [] /\
     (forall n, get colors n = Some 2 -> get colors' n = Some 2) /\
     (forall n, n ∈ starts -> vertex self g n -> get colors' n = Some 2)) /\
  (acyclic self g -> (forall n, vertex self g n -> readable g n) ->
   w + N.of_nat (length starts + potential self g colors) <= usize_max ->
   exists st, res = Ok st).
Proof using laws.
  intros I Htags. cbn zeta. rewrite run_foldM by apply _.
  revert colors w I. induction starts as [|n starts IH]; intros colors w I; cbn [foldM].
  { split; [done|]. split; [|by eauto]. intros ? ? [= <- <-].
    split; [done|]. split; [done|]. by intros ? ?%elem_of_nil. }
  specialize (IH (fun m Hm => Htags m (list_elem_of_further _ _ _ Hm))).
  destruct (Htags n (list_elem_of_here _ _)) as [tag Htag].
  destruct (search_from_correct colors w n tag I Htag) as (Hs&Ho&Hx).
  split; [|split].
  - apply safe_bind; [done|]. intros [c1 w1] H1. destruct (Ho _ _ H1) as (I1&_). by apply IH.
  - intros c2 w2 ([c1 w1]&H1&H2)%bind_Ok. destruct (Ho _ _ H1) as (I1&Hb1&Hp1&_).
    destruct (IH c1 w1 I1) as (_&Ho2&_). destruct (Ho2 _ _ H2) as (I2&Hb2&Hp2).
    split; [done|]. split; [auto|].
    intros m [->|?]%elem_of_cons ?; [auto|]. by apply Hp2.
  - intros Ha Hr Hw. cbn [length] in Hw. destruct Hx as [[c1 w1] H1]; [done|done|lia|].
    destruct (Ho _ _ H1) as (I1&_&_&Hw1). rewrite H1. cbn [mbind outcome_bind].
    apply (IH c1 w1 I1); [done|done|lia].
Qed.

Lemma inv_initial :
  inv self g (replicate (N.to_nat (node_count self + 1)) 0) [].
Proof using Type.
  assert (Hg : forall n c, get (replicate (N.to_nat (node_count self + 1)) 0) n = Some c -> c = 0).
  { intros n c. rewrite get_lookup. by intros [-> _]%lookup_replicate. }
  split.
  - split; [unfold len; rewrite length_replicate; lia|]. intros n c ?%Hg. by left.
  - by intros n b ?%elem_of_nil.
  - intros n ?%Hg. done.
  - by intros [|] ? ? [=].
  - intros n ?%Hg. done.
  - by intros [|] ? ? [=].
Qed.

Lemma acc_no_cycle {A} (R : A -> A -> Prop) n : Acc (flip R) n -> ~ tc R n n.
Proof using Type.
  intros Hacc. induction Hacc as [n _ IH]. intros Hn.
  assert (H : exists m, R n m /\ rtc R m n).
  { inversion Hn as [? ? H|? m ? H1 H2]; subst.
    - by exists n.
    - exists m. split; [done|by apply tc_rtc]. }
  destruct H as (m&H1&H2). apply (IH m H1). apply rtc_tc in H2 as [->|H2]; [by apply tc_once|].
  by eapply tc_r.
Qed.

(** The cycle check, given that its scan is conclusive: no edge, no cycle. *)
Lemma validate_graph_correct message (scan : Cx bool) :
  Transparent scan ->
  (forall n, 1 <= n <= node_count self -> exists tag, node_tag self n = Ok tag) ->
  (run scan = Ok false -> acyclic self g) ->
  (run (validate_graph self g message scan) = Ok tt -> acyclic self g) /\
  (safe (run scan) -> safe (run (validate_graph self g message scan))) /\
  (acyclic self g -> (exists present, run scan = Ok present) ->
   (forall n, vertex self g n -> readable g n) ->
   node_count self * (item_count self + 3) < usize_max ->
   run (validate_graph self g message scan) = Ok tt).
Proof using laws.
  intros Ht Htags Hscan. unfold validate_graph.
  rewrite run_bind by solve_transparent.
  destruct (run scan) as [present|e| |] eqn:Es; cbn [mbind outcome_bind].
  2-4: split; [done|]; split; [intros [? ?]; split; congruence|]; by intros ? [? [=]].
  destruct present; cbn [negb]; [|rewrite run_ret; split; [auto|by split]].
  rewrite run_bind by solve_transparent. rewrite run_lift.
  destruct (checked_add (node_count self) 1) as [l|] eqn:El; cbn [ok_or mbind outcome_bind];
    [apply checked_add_Some in El as [-> _]|].
  2: { apply checked_add_None in El. split; [done|]. split; [done|]. intros _ _ _ Hn. exfalso. nia. }
  rewrite run_bind by solve_transparent.
  destruct (search_all (range 1 (node_count self + 1))
    (replicate (N.to_nat (node_count self + 1)) 0) 0 inv_initial) as (Hs&Ho&Hx).
  { intros n Hn%elem_of_range. apply Htags. lia. }
  split; [|split].
  - intros ([c w]&H1&_)%bind_Ok n Hn. destruct (Ho _ _ H1) as (I&_&Hp).
    assert (vertex self g n) as Hv.
    { inversion Hn as [? ? [Hv _]|? ? ? [Hv _]]; done. }
    apply acc_no_cycle in Hn; [done|]. apply (inv_black _ _ _ _ I). apply Hp; [|done].
    apply elem_of_range. apply vertex_bound in Hv. lia.
  - intros _. apply safe_bind; [done|]. intros. apply safe_Ok.
  - intros Ha _ Hr Hn. destruct Hx as [st ->]; [done|done| |done].
    rewrite length_range. unfold potential.
    pose proof (potential_fuel self g (replicate (N.to_nat (node_count self + 1)) 0)) as Hf.
    unfold search_fuel, potential in Hf.
    assert (node_count self <= usize_max) by nia. nia.
Qed.
End search_correct.
