(* ===== verification/Cycles.v ===== *)
(** * What the validation of the nodes decides

    The three graphs obey [GraphLaws], so their checks decide acyclicity;
    [validate_supported_nodes] accepts exactly the columns whose nodes are all
    supported and whose three graphs are acyclic, and it always returns. *)

From stdpp Require Import relations.
From S2P Require Import Prelude Errors Tags Text Readers Columns Nodes Properties Classes Generic.
From S2P Require Import Swrl Safety Graphs Search Samples.
Local Open Scope string_scope.
Local Open Scope list_scope.
Local Open Scope N_scope.

(** ** Reading lemmas *)

Lemma wrapping_add_le a b : a +w b <= a + b.
Proof. unfold wrapping_add. apply N.Div0.mod_le. Qed.

Lemma length_rev_range start n : (length (rev_range start n) <= N.to_nat n)%nat.
Proof.
  unfold rev_range. rewrite length_reverse, length_range. pose proof (wrapping_add_le start n). lia.
Qed.

Lemma elem_of_rev_range i start n :
  i ∈ rev_range start n <-> i ∈ range start (start +w n).
Proof. unfold rev_range. by rewrite elem_of_reverse. Qed.

Section reads.
Context (self : DirectColumns).

Lemma checked_node_id_Ok n m :
  checked_node_id self n = Ok m <-> m = n /\ 1 <= n <= node_count self.
Proof using Type.
  unfold checked_node_id.
  destruct (N.leb_spec 1 n), (N.leb_spec n (node_count self)); cbn; naive_solver lia.
Qed.

(** A node id that was checked is a row of [node_tags]. *)
Lemma node_tag_total n :
  sized self.(node_tags) -> 1 <= n <= node_count self -> exists tag, node_tag self n = Ok tag.
Proof using Type.
  intros Hs Hn. unfold node_tag.
  destruct (checked_node_id self n) as [m|e| |] eqn:E.
  - cbn. apply read_u16_total; [done|]. unfold rows. change (len (node_tags self) / 2) with (node_count self). lia.
  - by assert (checked_node_id self n = Ok n) by (by apply checked_node_id_Ok); congruence.
  - by destruct (checked_node_id_safe self n).
  - by destruct (checked_node_id_safe self n).
Qed.

Lemma item_node_bound i n : item_node self i = Ok n -> 1 <= n <= node_count self.
Proof using Type.
  unfold item_node. intros H. inv_ok.
  by match goal with H : checked_node_id _ _ = _ |- _ => apply checked_node_id_Ok in H as [-> ?] end.
Qed.

Lemma field_node_bound i n : field_node self i = Ok n -> 1 <= n <= node_count self.
Proof using Type.
  unfold field_node. intros H. inv_ok.
  by match goal with H : checked_node_id _ _ = _ |- _ => apply checked_node_id_Ok in H as [-> ?] end.
Qed.

Lemma foldM_Ok_elem {A S} (f : S -> A -> outcome S) s l s' :
  foldM f s l = Ok s' -> forall x, x ∈ l -> exists t t', f t x = Ok t'.
Proof using Type.
  revert s. induction l as [|y l IH]; cbn; intros s Hf x Hx; [by apply elem_of_nil in Hx|].
  apply bind_Ok in Hf as (t&H1&H2). apply elem_of_cons in Hx as [->|Hx]; eauto.
Qed.

(** A collection that was read is in range and holds node references. *)
Lemma node_set_range_Ok i m start n :
  node_set_range self i m = Ok (start, n) ->
  start + n <= item_count self /\ m <= n /\
  forall j, j ∈ range start (start +w n) -> exists node, item_node self j = Ok node.
Proof using Type.
  unfold node_set_range. intros H. inv_ok.
  match goal with H : _ || _ = false |- _ => apply orb_false_iff in H as [?%N.ltb_ge ?%N.ltb_ge] end.
  repeat match goal with H : (_ <? _) = false |- _ => apply N.ltb_ge in H end.
  unfold saturating_sub in *. split; [lia|]. split; [lia|]. intros j Hj.
  match goal with H : foldM _ _ _ = _ |- _ =>
    destruct (foldM_Ok_elem _ _ _ _ H j Hj) as (t&t'&(node&Hn&_)%bind_Ok) end.
  by exists node.
Qed.
End reads.

(** ** The first-match scan *)

Lemma fold_until_Continue {A S R} (f : S -> A -> outcome (control S R)) s l s' :
  fold_until f s l = Ok (Continue s') ->
  forall x, x ∈ l -> exists t t', f t x = Ok (Continue t').
Proof.
  revert s. induction l as [|y l IH]; cbn; intros s Hf x Hx; [by apply elem_of_nil in Hx|].
  apply bind_Ok in Hf as ([t|r]&H1&H2); [|discriminate H2].
  apply elem_of_cons in Hx as [->|Hx]; eauto.
Qed.

#[export] Instance scan_nodes_transparent self scan : Transparent (scan_nodes self scan).
Proof. unfold scan_nodes. solve_transparent. Qed.

Lemma run_scan_nodes self scan :
  run (scan_nodes self scan) =
  (found ← fold_until (fun '() n => present ← scan n;
             Ok (if present : bool then Return tt else Continue tt)) tt
             (range 1 (node_count self + 1));
   Ok (match found with Return _ => true | Continue _ => false end)).
Proof.
  unfold scan_nodes. rewrite run_bind by solve_transparent.
  rewrite run_fold_until by (intros []; solve_transparent). f_equal.
  generalize (range 1 (node_count self + 1)).
  induction l as [|x l IH]; [done|]. cbn [fold_until].
  rewrite run_bind by solve_transparent. rewrite run_check_cancel. cbn [mbind outcome_bind].
  rewrite run_bind by solve_transparent. rewrite run_lift, !bind_assoc. apply bind_ext.
  intros [] _; cbn; [done|apply IH].
Qed.

Lemma scan_nodes_safe self scan : (forall n, safe (scan n)) -> safe (run (scan_nodes self scan)).
Proof.
  intros Hs. rewrite run_scan_nodes. apply safe_bind; [|intros; apply safe_Ok].
  apply fold_until_safe. intros [] n. apply safe_bind; [done|]. intros; apply safe_Ok.
Qed.

Lemma scan_nodes_false self scan :
  run (scan_nodes self scan) = Ok false ->
  forall n, 1 <= n <= node_count self -> scan n = Ok false.
Proof.
  rewrite run_scan_nodes. intros ([[]|[]]&Hf&[=])%bind_Ok n Hn.
  destruct (fold_until_Continue _ _ _ _ Hf n) as ([]&[]&Hn').
  { apply elem_of_range. lia. }
  apply bind_Ok in Hn' as (b&H1&H2). by destruct b.
Qed.

(** A scan whose predicate always answers answers. *)
Lemma scan_nodes_total self scan :
  (forall n, 1 <= n <= node_count self -> exists b, scan n = Ok b) ->
  exists b, run (scan_nodes self scan) = Ok b.
Proof.
  intros H. rewrite run_scan_nodes.
  assert (Hl : forall n, n ∈ range 1 (node_count self + 1) -> exists b, scan n = Ok b)
    by (intros n Hn%elem_of_range; apply H; lia).
  revert Hl. generalize (range 1 (node_count self + 1)).
  induction l as [|n l IH]; intros Hl; cbn; [by eauto|].
  destruct (Hl n (list_elem_of_here _ _)) as [[] ->]; cbn; [by eauto|].
  apply IH. intros m Hm. apply Hl. by right.
Qed.

(** The cycle check with the scan of the nodes in front: a scan that answers
    on readable nodes, and finds nothing only when there is no cycle. *)
Record check_spec (self : DirectColumns) (g : Graph) (m : outcome unit) : Prop := {
  check_sound : m = Ok tt -> acyclic self g;
  check_safe : safe m;
  check_complete : acyclic self g -> (forall n, vertex self g n -> readable g n) ->
    node_count self * (item_count self + 3) < usize_max -> m = Ok tt;
}.

Lemma graph_check self g {laws : GraphLaws self g} message p :
  sized self.(node_tags) -> (forall n, safe (p n)) ->
  ((forall n, 1 <= n <= node_count self -> p n = Ok false) -> acyclic self g) ->
  (forall n, 1 <= n <= node_count self -> (vertex self g n -> readable g n) ->
   exists b, p n = Ok b) ->
  check_spec self g (run (validate_graph self g message (scan_nodes self p))).
Proof.
  intros Hsz Hsafe Hfalse Htotal.
  destruct (validate_graph_correct self g message (scan_nodes self p)
    (scan_nodes_transparent self p) (fun n => node_tag_total self n Hsz)) as (H1&H2&H3).
  { intros H. by apply Hfalse, scan_nodes_false. }
  split; [done|by apply H2, scan_nodes_safe|].
  intros Ha Hr Hb. apply H3; [done| |done|done]. apply scan_nodes_total. auto.
Qed.

(** ** The annotation graph *)

Section annotation_graph.
Context (self : DirectColumns).

Lemma annotation_read_spec i c : annotation_read self i = Ok c ->
  exists n, c = Some n /\ item_node self i = Ok n /\ node_tag self n = Ok TAG_ANNOTATION.
Proof using Type.
  unfold annotation_read. intros H. inv_ok.
  match goal with H : negb (?t =? _) = false |- _ => apply negb_false_iff, N.eqb_eq in H; subst t end.
  eauto.
Qed.

#[export] Instance annotation_laws : GraphLaws self (annotation_graph self).
Proof using Type.
  split; cbn.
  - intros n. solve_safe.
  - intros n rs r Hn Hr. inv_ok. apply list_elem_of_fmap in Hr as (i&->&_).
    unfold annotation_read. solve_safe.
  - intros n rs c Hn Hc. inv_ok. apply list_elem_of_fmap in Hc as (i&Hi&_).
    symmetry in Hi. apply annotation_read_spec in Hi as (m&[= ->]&_&Ht). by exists TAG_ANNOTATION.
  - intros n rs Hn. inv_ok. rewrite length_fmap.
    match goal with H : node_set_range _ _ _ = Ok (?s, ?l) |- _ =>
      apply node_set_range_Ok in H as (?&_); pose proof (length_rev_range s l) end. lia.
Qed.

Lemma has_nested_annotations_false :
  (forall n, 1 <= n <= node_count self -> has_nested_annotations self n = Ok false) ->
  acyclic self (annotation_graph self).
Proof using Type.
  intros Hscan n Hn.
  assert (exists c, edge self (annotation_graph self) n c) as (c&(tag&Ht&Hv)&rs&Hrs&Hc)
    by (inversion Hn; eauto).
  specialize (Hscan n (node_tag_bound self _ _ Ht)). cbn in Hv, Hrs.
  unfold has_nested_annotations in Hscan. rewrite Ht in Hscan. cbn [mbind outcome_bind] in Hscan.
  rewrite Hv in Hscan. cbn [negb] in Hscan.
  destruct (exact_fields self n 3) as [start|e| |]; cbn [mbind outcome_bind] in *; try discriminate.
  destruct (node_set_range self (start +w 2) 0) as [[s l]|e| |]; cbn [mbind outcome_bind] in *;
    try discriminate.
  injection Hscan as [= ->%N.eqb_eq]%negb_false_iff. injection Hrs as <-.
  apply list_elem_of_fmap in Hc as (i&_&Hi%elem_of_rev_range%elem_of_range).
  pose proof (wrapping_add_le s 0). lia.
Qed.

Lemma has_nested_annotations_safe n : safe (has_nested_annotations self n).
Proof using Type. unfold has_nested_annotations. safe_decoder. Qed.

Lemma annotation_readable `{LT : LowercaseTable} n maximum :
  validate_annotation self n maximum = Ok tt -> readable (annotation_graph self) n.
Proof using Type.
  unfold validate_annotation. intros H. inv_ok.
  unfold validate_annotation_set in *. inv_ok. apply forM_Ok in H. rewrite Forall_forall in H.
  match goal with Hs : exact_fields self n 3 = Ok ?s,
    Hr : node_set_range self (?s +w 2) 0 = Ok (?i, ?l) |- _ =>
      exists (annotation_read self <$> rev_range i l); split; [cbn; by rewrite Hs; cbn; rewrite Hr|] end.
  intros r (i&->&Hi%elem_of_rev_range)%list_elem_of_fmap.
  specialize (H i ltac:(done)). unfold annotation_read.
  inv_ok. repeat match goal with H : _ = Ok _ |- _ => rewrite H; cbn [mbind outcome_bind]; clear H end.
  match goal with H : negb _ = false |- _ => rewrite H end. eauto.
Qed.
End annotation_graph.

(** ** The class-expression graph *)

Section class_graph.
Context (self : DirectColumns).

Lemma recursive_child_safe n : safe (recursive_class_single_child self n).
Proof using Type. auto with safe. Qed.

Lemma class_child_spec n c m : class_child self n = Ok c -> c = Some m ->
  n = m /\ exists tag, node_tag self n = Ok tag /\ is_recursive_class_expression_tag tag = true.
Proof using Type.
  unfold class_child. intros H ->. inv_ok.
  match goal with H : (if ?b then _ else _) = Some _ |- _ => destruct b eqn:?; [injection H as ->|done] end.
  eauto.
Qed.

Lemma class_child_safe n : safe (class_child self n).
Proof using Type. unfold class_child. solve_safe. Qed.

#[export] Instance class_laws : GraphLaws self (class_graph self).
Proof using Type.
  split; cbn; unfold class_reads.
  - intros n. solve_safe.
  - intros n rs r Hn Hr. pose proof class_child_safe. inv_ok.
    match type of Hn with context [is_aggregate_tag ?t] => destruct (is_aggregate_tag t) end; inv_ok.
    + apply list_elem_of_fmap in Hr as (i&->&_). solve_safe.
    + match type of Hn with context [match ?o with _ => _ end] => destruct o end; inv_ok.
      by apply list_elem_of_singleton in Hr as ->.
  - intros n rs c Hn Hc. inv_ok.
    match type of Hn with context [is_aggregate_tag ?t] => destruct (is_aggregate_tag t) end; inv_ok.
    + apply list_elem_of_fmap in Hc as (i&Hi&_). symmetry in Hi. apply bind_Ok in Hi as (m&_&Hm).
      destruct (class_child_spec _ _ _ Hm eq_refl) as (->&tag&?&?). by exists tag.
    + match type of Hn with context [match ?o with _ => _ end] => destruct o end; inv_ok.
      apply list_elem_of_singleton in Hc. symmetry in Hc.
      destruct (class_child_spec _ _ _ Hc eq_refl) as (->&tag&?&?). by exists tag.
  - intros n rs Hn. inv_ok.
    match type of Hn with context [is_aggregate_tag ?t] => destruct (is_aggregate_tag t) end; inv_ok.
    + rewrite length_fmap.
      match goal with H : node_set_range _ _ _ = Ok (?s, ?l) |- _ =>
        apply node_set_range_Ok in H as (?&_); pose proof (length_rev_range s l) end. lia.
    + match type of Hn with context [match ?o with _ => _ end] => destruct o end; inv_ok. cbn. lia.
Qed.

Lemma has_recursive_class_edge_safe n : safe (has_recursive_class_edge self n).
Proof using Type. unfold has_recursive_class_edge. safe_decoder. Qed.

(** The first edge of a cycle. *)
Lemma cycle_edge g n : tc (edge self g) n n -> exists c, edge self g n c.
Proof using Type. inversion 1; eauto. Qed.

Lemma has_recursive_class_edge_false :
  (forall n, 1 <= n <= node_count self -> has_recursive_class_edge self n = Ok false) ->
  acyclic self (class_graph self).
Proof using Type.
  intros Hscan n (c&(tag&Ht&Hv)&rs&Hrs&Hc)%cycle_edge.
  specialize (Hscan n (node_tag_bound self _ _ Ht)). cbn in Hv, Hrs.
  unfold has_recursive_class_edge in Hscan. unfold class_reads in Hrs.
  rewrite Ht in Hscan, Hrs. cbn [mbind outcome_bind] in Hscan, Hrs. rewrite Hv in Hscan.
  cbn [negb] in Hscan. destruct (is_aggregate_tag tag).
  - destruct (exact_fields self n 1) as [start|e| |]; cbn [mbind outcome_bind] in *; try discriminate.
    destruct (node_set_range self start 2) as [[s l]|e| |]; cbn [mbind outcome_bind] in *;
      try discriminate.
    apply bind_Ok in Hscan as ([[]|[]]&Hf&[=]). injection Hrs as <-.
    apply list_elem_of_fmap in Hc as (i&Hi&Hr%elem_of_rev_range). symmetry in Hi.
    apply bind_Ok in Hi as (m&Hm&Hcm). destruct (class_child_spec _ _ _ Hcm eq_refl) as (->&t&Htag&Hrec).
    destruct (fold_until_Continue _ _ _ _ Hf i Hr) as ([]&[]&Hk). rewrite Hm in Hk.
    cbn in Hk. rewrite Htag in Hk. cbn in Hk. by rewrite Hrec in Hk.
  - destruct (recursive_class_single_child self n) as [[m|]|e| |]; cbn [mbind outcome_bind] in *;
      try discriminate.
    injection Hrs as <-. apply list_elem_of_singleton in Hc. symmetry in Hc.
    destruct (class_child_spec _ _ _ Hc eq_refl) as (->&t&Htag&Hrec).
    rewrite Htag in Hscan. cbn in Hscan. congruence.
Qed.

Lemma class_child_total n :
  sized self.(node_tags) -> 1 <= n <= node_count self -> exists c, class_child self n = Ok c.
Proof using Type.
  intros Hs Hn. unfold class_child. destruct (node_tag_total self n Hs Hn) as [t ->].
  cbn. eauto.
Qed.

(** What the local validators checked, the search can read. *)
Lemma class_readable_aggregate n tag :
  sized self.(node_tags) -> node_tag self n = Ok tag -> is_aggregate_tag tag = true ->
  (exists start s l, exact_fields self n 1 = Ok start /\ node_set_range self start 2 = Ok (s, l)) ->
  readable (class_graph self) n.
Proof using Type.
  intros Hs Ht Ha (start&s&l&Hf&Hr). eexists. split.
  { cbn [reads class_graph]. unfold class_reads. rewrite Ht. cbn [mbind outcome_bind].
    rewrite Ha, Hf. cbn [mbind outcome_bind]. by rewrite Hr. }
  intros r (i&->&Hi%elem_of_rev_range)%list_elem_of_fmap.
  destruct (node_set_range_Ok _ _ _ _ _ Hr) as (_&_&Hitems). destruct (Hitems i Hi) as [m Hm].
  rewrite Hm. cbn. apply class_child_total; [done|]. by eapply item_node_bound.
Qed.

Lemma class_readable_single n tag c :
  sized self.(node_tags) -> node_tag self n = Ok tag -> is_aggregate_tag tag = false ->
  recursive_class_single_child self n = Ok (Some c) -> 1 <= c <= node_count self ->
  readable (class_graph self) n.
Proof using Type.
  intros Hs Ht Ha Hc Hb. exists [class_child self c]. split.
  { cbn [reads class_graph]. unfold class_reads. rewrite Ht. cbn [mbind outcome_bind].
    by rewrite Ha, Hc. }
  intros r ->%list_elem_of_singleton. by apply class_child_total.
Qed.
End class_graph.

(** ** The data-range graph *)

Section data_range_graph.
Context `{LT : LowercaseTable} (self : DirectColumns) (maximum : usize).

Lemma data_range_child_spec n m : data_range_child self maximum n = Ok (Some m) ->
  n = m /\ exists tag, node_tag self n = Ok tag /\ is_recursive_data_range_tag tag = true.
Proof using Type.
  unfold data_range_child. intros H. apply bind_Ok in H as (tag&Ht&H).
  destruct (is_recursive_data_range_tag tag) eqn:E; cbn [negb] in H; inv_ok; [by simplify_eq; eauto|done].
Qed.

Lemma data_range_child_safe n : safe (data_range_child self maximum n).
Proof using Type. unfold data_range_child. solve_safe. Qed.

#[export] Instance data_range_laws : GraphLaws self (data_range_graph self maximum).
Proof using Type.
  pose proof data_range_child_safe as Hsafe.
  split; cbn; unfold data_range_reads.
  - intros n. solve_safe.
  - intros n rs r Hn Hr. apply bind_Ok in Hn as (tag&_&Hn).
    destruct (contains [TAG_DATA_INTERSECTION_OF; TAG_DATA_UNION_OF] tag);
      [|destruct (tag =? TAG_DATA_COMPLEMENT_OF)]; inv_ok.
    + apply list_elem_of_fmap in Hr as (i&->&_). solve_safe.
    + by apply list_elem_of_singleton in Hr as ->.
  - intros n rs c Hn Hc. apply bind_Ok in Hn as (tag&_&Hn).
    destruct (contains [TAG_DATA_INTERSECTION_OF; TAG_DATA_UNION_OF] tag);
      [|destruct (tag =? TAG_DATA_COMPLEMENT_OF)]; inv_ok.
    + apply list_elem_of_fmap in Hc as (i&Hi&_). symmetry in Hi. apply bind_Ok in Hi as (m&_&Hm).
      destruct (data_range_child_spec _ _ Hm) as (->&t&?&?). by exists t.
    + apply list_elem_of_singleton in Hc. symmetry in Hc.
      destruct (data_range_child_spec _ _ Hc) as (->&t&?&?). by exists t.
  - intros n rs Hn. apply bind_Ok in Hn as (tag&_&Hn).
    destruct (contains [TAG_DATA_INTERSECTION_OF; TAG_DATA_UNION_OF] tag);
      [|destruct (tag =? TAG_DATA_COMPLEMENT_OF)]; inv_ok.
    + rewrite length_fmap.
      match goal with H : node_set_range _ _ _ = Ok (?s, ?l) |- _ =>
        apply node_set_range_Ok in H as (?&_); pose proof (length_rev_range s l) end. lia.
    + cbn. lia.
Qed.

Lemma has_recursive_data_range_false :
  (forall n, 1 <= n <= node_count self -> has_recursive_data_range self n = Ok false) ->
  acyclic self (data_range_graph self maximum).
Proof using Type.
  intros Hscan n (c&(tag&Ht&Hv)&_)%cycle_edge.
  specialize (Hscan n (node_tag_bound self _ _ Ht)). unfold has_recursive_data_range in Hscan.
  rewrite Ht in Hscan. cbn in Hscan, Hv. congruence.
Qed.

Lemma data_range_child_total n :
  1 <= n <= node_count self -> validate_data_range_reference self n maximum = Ok tt ->
  exists c, data_range_child self maximum n = Ok c.
Proof using Type.
  intros Hn Hr. unfold data_range_child.
  pose proof Hr as H'. unfold validate_data_range_reference in H'. apply bind_Ok in H' as (t&->&_).
  cbn [mbind outcome_bind]. destruct (is_recursive_data_range_tag t); cbn [negb]; [by eauto|].
  rewrite Hr. cbn. eauto.
Qed.

Lemma data_range_readable n :
  (exists tag, node_tag self n = Ok tag /\ is_recursive_data_range_tag tag = true) ->
  validate_data_range_node self n maximum = Ok tt ->
  readable (data_range_graph self maximum) n.
Proof using Type.
  intros (tag&Ht&Hrec) H. unfold validate_data_range_node in H. rewrite Ht in H.
  cbn [mbind outcome_bind] in H. unfold readable. cbn [reads data_range_graph].
  unfold data_range_reads. rewrite Ht. cbn [mbind outcome_bind].
  destruct (N.eqb_spec tag TAG_ENTITY) as [->|]; [by vm_compute in Hrec|].
  destruct (contains [TAG_DATA_INTERSECTION_OF; TAG_DATA_UNION_OF] tag) eqn:Hagg.
  - destruct (exact_fields self n 1) as [start|e| |]; cbn [mbind outcome_bind] in *; try discriminate.
    destruct (node_set_range self start 2) as [[s l]|e| |] eqn:Hr; cbn [mbind outcome_bind] in *;
      try discriminate.
    eexists. split; [done|]. intros r (i&->&Hi%elem_of_rev_range)%list_elem_of_fmap.
    unfold for_items in H. apply forM_Ok in H. rewrite Forall_forall in H. specialize (H i Hi).
    apply bind_Ok in H as (m&Hm&H). rewrite Hm. cbn [mbind outcome_bind].
    apply bind_Ok in H as (t&_&H). destruct (t =? tag); [done|].
    apply data_range_child_total; [|done]. by eapply item_node_bound.
  - destruct (tag =? TAG_DATA_COMPLEMENT_OF) eqn:Hcompl.
    + destruct (exact_fields self n 1) as [start|e| |]; cbn [mbind outcome_bind] in *; try discriminate.
      destruct (field_node self start) as [m|e| |] eqn:Hm; cbn [mbind outcome_bind] in *;
        try discriminate.
      eexists. split; [done|]. intros r ->%list_elem_of_singleton.
      apply data_range_child_total; [|done]. by eapply field_node_bound.
    + exfalso. apply contains_false in Hagg. apply contains_true in Hrec.
      apply N.eqb_neq in Hcompl. set_solver.
Qed.
End data_range_graph.

(** ** The whole pass *)

Section validated.
Context `{LT : LowercaseTable} (self : DirectColumns) (maximum : usize).

Lemma recursive_class_tag_cases tag : is_recursive_class_expression_tag tag = true ->
  is_aggregate_tag tag = true \/
  is_aggregate_tag tag = false /\
    (tag = TAG_OBJECT_COMPLEMENT_OF \/ tag = TAG_OBJECT_EXACT_CARDINALITY \/
     tag ∈ [TAG_OBJECT_SOME_VALUES_FROM; TAG_OBJECT_ALL_VALUES_FROM] \/
     tag ∈ [TAG_OBJECT_MIN_CARDINALITY; TAG_OBJECT_MAX_CARDINALITY]).
Proof using Type.
  unfold is_recursive_class_expression_tag, is_restriction_tag.
  destruct (is_aggregate_tag tag) eqn:E; [by left|]. cbn [orb]. intros H. right. split; [done|].
  apply orb_true_iff in H as [H|H]; apply contains_true in H; set_solver.
Qed.

Lemma restriction_indexes_child n i j m :
  restriction_indexes self n = Ok (i, j) -> field_node self j = Ok m ->
  recursive_class_single_child self n = Ok (Some m).
Proof using Type.
  unfold restriction_indexes, recursive_class_single_child. intros H Hm.
  apply bind_Ok in H as (tag&Ht&H). rewrite Ht. cbn [mbind outcome_bind].
  destruct (contains [TAG_OBJECT_SOME_VALUES_FROM; TAG_OBJECT_ALL_VALUES_FROM] tag) eqn:E1.
  - apply contains_true in E1.
    assert (tag =? TAG_OBJECT_COMPLEMENT_OF = false) as ->.
    { apply N.eqb_neq. intros ->. by vm_compute in E1; set_solver. }
    inv_ok. match goal with H : exact_fields _ _ _ = _ |- _ => rewrite H end.
    cbn [mbind outcome_bind]. by rewrite Hm.
  - destruct (contains [TAG_OBJECT_MIN_CARDINALITY; TAG_OBJECT_MAX_CARDINALITY] tag) eqn:E2;
      [|destruct (is_schema_tag tag); discriminate].
    apply contains_true in E2.
    assert (tag =? TAG_OBJECT_COMPLEMENT_OF = false) as ->.
    { apply N.eqb_neq. intros ->. by vm_compute in E2; set_solver. }
    assert (contains [TAG_OBJECT_MIN_CARDINALITY; TAG_OBJECT_MAX_CARDINALITY;
                      TAG_OBJECT_EXACT_CARDINALITY] tag = true) as ->
      by (apply contains_true; set_solver).
    inv_ok. match goal with H : exact_fields _ _ _ = _ |- _ => rewrite H end.
    cbn [mbind outcome_bind]. by rewrite Hm.
Qed.

Lemma class_readable n :
  sized self.(node_tags) -> vertex self (class_graph self) n ->
  validate_supported_node self n maximum = Ok tt -> readable (class_graph self) n.
Proof using Type.
  intros Hs (tag&Ht&Hv) H. cbn in Hv.
  assert (Hsingle : is_aggregate_tag tag = false ->
    (exists m i, recursive_class_single_child self n = Ok (Some m) /\ field_node self i = Ok m) ->
    readable (class_graph self) n).
  { intros Hn (m&i&Hc&Hm). eapply class_readable_single; eauto. by eapply field_node_bound. }
  unfold validate_supported_node in H. rewrite Ht in H. cbn [mbind outcome_bind] in H.
  destruct (recursive_class_tag_cases tag Hv) as [Ha|(Ha&Htag)].
  - assert (validate_aggregate_expression self n maximum = Ok tt) as Hx.
    { unfold is_aggregate_tag in Ha. apply contains_true in Ha.
      repeat (apply elem_of_cons in Ha as [->|Ha]; [exact H|]). by apply elem_of_nil in Ha. }
    unfold validate_aggregate_expression in Hx. rewrite Ht in Hx. cbn [mbind outcome_bind] in Hx.
    rewrite Ha in Hx. cbn [negb] in Hx. apply bind_Ok in Hx as (start&H1&Hx).
    apply bind_Ok in Hx as ([s l]&H2&_).
    apply (class_readable_aggregate self n tag Hs Ht Ha). by exists start, s, l.
  - apply Hsingle; [done|]. destruct Htag as [->|[->|Htag]].
    + assert (Hx : validate_nonprojecting_class_expression self n maximum = Ok tt) by exact H.
      unfold validate_nonprojecting_class_expression in Hx. rewrite Ht in Hx.
      change ((start ← exact_fields self n 1; operand ← field_node self start;
               validate_class_expression_reference self operand maximum) = Ok tt) in Hx.
      apply bind_Ok in Hx as (s&H1&Hx). apply bind_Ok in Hx as (m&H2&_).
      exists m, s. split; [|done]. unfold recursive_class_single_child. rewrite Ht.
      change ((child_index ← map_ok Some (exact_fields self n 1);
               match child_index with None => Ok None
               | Some i => map_ok Some (field_node self i) end) = Ok (Some m)).
      rewrite H1. change (map_ok Some (field_node self s) = Ok (Some m)). by rewrite H2.
    + assert (Hx : validate_nonprojecting_class_expression self n maximum = Ok tt) by exact H.
      unfold validate_nonprojecting_class_expression in Hx. rewrite Ht in Hx.
      change ((start ← exact_fields self n 3; _ ← canonical_integer self start;
               property ← field_node self (start +w 1);
               _ ← object_property_expression self property maximum;
               filler ← field_node self (start +w 2);
               validate_class_expression_reference self filler maximum) = Ok tt) in Hx.
      apply bind_Ok in Hx as (s&H1&Hx).
      do 3 apply bind_Ok in Hx as (?&_&Hx). apply bind_Ok in Hx as (m&H2&_).
      exists m, (s +w 2).
      split; [|done]. unfold recursive_class_single_child. rewrite Ht.
      match goal with |- _ = ?r =>
        change ((child_index ← (start ← exact_fields self n 3; Ok (Some (start +w 2)));
                 match child_index with None => Ok None
                 | Some i => map_ok Some (field_node self i) end) = r) end.
      rewrite H1. match goal with |- _ = ?r => change (map_ok Some (field_node self (s +w 2)) = r) end.
      by rewrite H2.
    + assert (ignore (restriction_projection self n maximum) = Ok tt) as Hx.
      { destruct Htag as [Htag|Htag];
          repeat (apply elem_of_cons in Htag as [->|Htag]; [exact H|]); by apply elem_of_nil in Htag. }
      unfold ignore, restriction_projection in Hx. apply bind_Ok in Hx as (p&Hx&_).
      apply bind_Ok in Hx as ([i j]&Hij&Hx). inv_ok.
      match goal with H2 : field_node self j = Ok ?m |- _ =>
        exists m, j; split; [by eapply restriction_indexes_child|done] end.
Qed.

Lemma annotation_readable_node n :
  vertex self (annotation_graph self) n ->
  validate_supported_node self n maximum = Ok tt -> readable (annotation_graph self) n.
Proof using Type.
  intros (tag&Ht&Hv%N.eqb_eq) H. unfold validate_supported_node in H. rewrite Ht in H. subst tag.
  by apply (annotation_readable self n maximum).
Qed.

Lemma data_range_readable_node n :
  vertex self (data_range_graph self maximum) n ->
  validate_supported_node self n maximum = Ok tt ->
  readable (data_range_graph self maximum) n.
Proof using Type.
  intros (tag&Ht&Hv) H. apply data_range_readable; [by exists tag|].
  unfold validate_supported_node in H. rewrite Ht in H. cbn [mbind outcome_bind] in H.
  cbn [is_vertex data_range_graph] in Hv. unfold is_recursive_data_range_tag in Hv.
  apply contains_true in Hv.
  repeat (apply elem_of_cons in Hv as [->|Hv]; [exact H|]). by apply elem_of_nil in Hv.
Qed.

Instance validate_annotation_graph_transparent :
  Transparent (validate_annotation_graph self).
Proof using Type. unfold validate_annotation_graph. apply validate_graph_transparent, scan_nodes_transparent. Qed.
Instance validate_class_graph_transparent :
  Transparent (validate_recursive_class_expression_graph self).
Proof using Type. unfold validate_recursive_class_expression_graph. apply validate_graph_transparent, scan_nodes_transparent. Qed.
Instance validate_data_range_graph_transparent :
  Transparent (validate_data_range_graph self maximum).
Proof using Type. unfold validate_data_range_graph. apply validate_graph_transparent, scan_nodes_transparent. Qed.

Lemma run_forM_checked {A} (poll : A -> usize) (f : A -> outcome unit) l :
  run (forM l (fun x => _ ← check_cancel (poll x); !f x)) = forM l f.
Proof using Type.
  rewrite run_forM by solve_transparent. induction l as [|x l IH]; [done|]. cbn [forM].
  rewrite run_bind by solve_transparent. rewrite run_check_cancel, run_lift.
  cbn [mbind outcome_bind]. apply bind_ext. auto.
Qed.

(** The three graph checks in a row. *)
Definition graph_checks : Cx unit :=
  _ ← validate_annotation_graph self;
  _ ← validate_recursive_class_expression_graph self;
  validate_data_range_graph self maximum.

Lemma class_and_data_transparent :
  Transparent (_ ← validate_recursive_class_expression_graph self;
               validate_data_range_graph self maximum).
Proof using Type.
  apply transparent_bind; [apply validate_class_graph_transparent|].
  intros _. apply validate_data_range_graph_transparent.
Qed.

Lemma graph_checks_transparent : Transparent graph_checks.
Proof using Type.
  apply transparent_bind; [apply validate_annotation_graph_transparent|].
  intros _. apply class_and_data_transparent.
Qed.

Lemma run_graph_checks :
  run graph_checks =
  (_ ← run (validate_annotation_graph self);
   _ ← run (validate_recursive_class_expression_graph self);
   run (validate_data_range_graph self maximum)).
Proof using Type.
  unfold graph_checks.
  rewrite (@run_bind _ _ _ _ validate_annotation_graph_transparent
    (fun _ => class_and_data_transparent)).
  apply bind_ext. intros _ _.
  by rewrite (@run_bind _ _ _ _ validate_class_graph_transparent
    (fun _ => validate_data_range_graph_transparent)).
Qed.

Lemma supported_loop_transparent :
  Transparent (forM (range 1 (node_count self + 1)) (fun n =>
    _ ← check_cancel n; !validate_supported_node self n maximum)).
Proof using Type. solve_transparent. Qed.

Lemma validate_supported_nodes_transparent :
  Transparent (validate_supported_nodes self maximum).
Proof using Type.
  apply transparent_bind; [apply supported_loop_transparent|].
  intros _. apply graph_checks_transparent.
Qed.

Lemma run_validate_supported_nodes :
  run (validate_supported_nodes self maximum) =
  (_ ← forM (range 1 (node_count self + 1)) (fun n => validate_supported_node self n maximum);
   run graph_checks).
Proof using Type.
  rewrite <- (run_forM_checked (fun n => n)).
  exact (@run_bind _ _ _ _ supported_loop_transparent (fun _ => graph_checks_transparent)).
Qed.

Lemma annotation_check : sized self.(node_tags) ->
  check_spec self (annotation_graph self) (run (validate_annotation_graph self)).
Proof using Type.
  intros Hs. apply graph_check; [apply _|done|apply has_nested_annotations_safe|
    apply has_nested_annotations_false|].
  intros n Hn Hr. unfold has_nested_annotations. destruct (node_tag_total self n Hs Hn) as [tag Ht].
  rewrite Ht. cbn [mbind outcome_bind]. destruct (tag =? TAG_ANNOTATION) eqn:E; cbn [negb]; [|by eauto].
  destruct Hr as (rs&Hrs&_); [by exists tag|]. cbn in Hrs. inv_ok.
  match goal with H1 : exact_fields _ _ _ = _, H2 : node_set_range _ _ _ = _ |- _ =>
    rewrite H1; cbn [mbind outcome_bind]; rewrite H2 end. cbn. eauto.
Qed.

Lemma data_range_check : sized self.(node_tags) ->
  check_spec self (data_range_graph self maximum) (run (validate_data_range_graph self maximum)).
Proof using Type.
  intros Hs. apply graph_check; [apply _|done| |apply has_recursive_data_range_false|].
  - intros. unfold has_recursive_data_range. solve_safe.
  - intros n Hn _. unfold has_recursive_data_range.
    destruct (node_tag_total self n Hs Hn) as [tag ->]. cbn. eauto.
Qed.

Lemma class_check : sized self.(node_tags) ->
  check_spec self (class_graph self) (run (validate_recursive_class_expression_graph self)).
Proof using Type.
  intros Hs. apply graph_check; [apply _|done|apply has_recursive_class_edge_safe|
    apply has_recursive_class_edge_false|].
  intros n Hn Hr. unfold has_recursive_class_edge. destruct (node_tag_total self n Hs Hn) as [tag Ht].
  rewrite Ht. cbn [mbind outcome_bind].
  destruct (is_recursive_class_expression_tag tag) eqn:E; cbn [negb]; [|by eauto].
  destruct Hr as (rs&Hrs&Hread); [by exists tag|]. cbn [reads class_graph] in Hrs.
  unfold class_reads in Hrs. rewrite Ht in Hrs. cbn [mbind outcome_bind] in Hrs.
  destruct (is_aggregate_tag tag).
  - apply bind_Ok in Hrs as (start&H1&Hrs). apply bind_Ok in Hrs as ([s l]&H2&[= <-]).
    rewrite H1. cbn [mbind outcome_bind]. rewrite H2. cbn [mbind outcome_bind].
    assert (Hi : forall i, i ∈ range s (s +w l) -> exists c, (child ← item_node self i; class_child self child) = Ok c).
    { intros i Hi. apply Hread. apply list_elem_of_fmap. exists i. by rewrite elem_of_rev_range. }
    clear H2 Hread. induction (range s (s +w l)) as [|i is_ IH]; cbn [fold_until]; [cbn; eauto|].
    destruct (Hi i (list_elem_of_here _ _)) as (c&(m&Hm&Hc)%bind_Ok). rewrite Hm.
    cbn [mbind outcome_bind]. unfold class_child in Hc. apply bind_Ok in Hc as (t&->&_).
    cbn [mbind outcome_bind]. destruct (is_recursive_class_expression_tag t); [cbn; by eauto|].
    apply IH. intros j Hj. apply Hi. by right.
  - apply bind_Ok in Hrs as (c&H1&Hrs). rewrite H1. cbn [mbind outcome_bind].
    destruct c as [c|]; [|done]. injection Hrs as <-.
    destruct (Hread _ (list_elem_of_here _ _)) as (o&Ho). unfold class_child in Ho.
    apply bind_Ok in Ho as (t&->&_). cbn. eauto.
Qed.

(** Running out of neither fuel nor range, whatever the columns. *)
Lemma graph_checks_safe : sized self.(node_tags) -> safe (run graph_checks).
Proof using Type.
  intros Hs. rewrite run_graph_checks.
  apply safe_bind; [by eapply check_safe, annotation_check|]. intros _ _.
  apply safe_bind; [by eapply check_safe, class_check|]. intros _ _.
  by eapply check_safe, data_range_check.
Qed.

(** The three graphs together. *)
Definition acyclic_graphs : Prop :=
  acyclic self (annotation_graph self) /\ acyclic self (class_graph self) /\
  acyclic self (data_range_graph self maximum).

Lemma graph_checks_sound :
  sized self.(node_tags) -> run graph_checks = Ok tt -> acyclic_graphs.
Proof using Type.
  intros Hs. rewrite run_graph_checks. intros ([]&H1&([]&H2&H3)%bind_Ok)%bind_Ok.
  split; [by eapply check_sound, H1; apply annotation_check|].
  split; [by eapply check_sound, H2; apply class_check|].
  by eapply check_sound, H3; apply data_range_check.
Qed.

Lemma graph_checks_complete :
  sized self.(node_tags) -> node_count self * (item_count self + 3) < usize_max ->
  (forall n, 1 <= n <= node_count self -> validate_supported_node self n maximum = Ok tt) ->
  acyclic_graphs -> run graph_checks = Ok tt.
Proof using Type.
  intros Hs Hb Hv (H1&H2&H3). rewrite run_graph_checks.
  rewrite (check_complete _ _ _ (annotation_check Hs) H1); [|intros n Hn|done].
  2: { apply annotation_readable_node; [done|]. by apply Hv, (vertex_bound self (annotation_graph self)). }
  cbn [mbind outcome_bind].
  rewrite (check_complete _ _ _ (class_check Hs) H2); [|intros n Hn|done].
  2: { apply class_readable; [done|done|]. by apply Hv, (vertex_bound self (class_graph self)). }
  cbn [mbind outcome_bind].
  apply (check_complete _ _ _ (data_range_check Hs) H3); [|done]. intros n Hn.
  apply data_range_readable_node; [done|]. by apply Hv, (vertex_bound self (data_range_graph self maximum)).
Qed.

(** C6: [validate_supported_nodes] decides its specification: on columns whose
    edge counters cannot overflow it succeeds exactly when every node is
    supported and the annotation, class-expression and data-range graphs have
    no cycle; the three searches always terminate. *)
Theorem validate_supported_nodes_decides :
  sized self.(node_tags) -> node_count self * (item_count self + 3) < usize_max ->
  run (validate_supported_nodes self maximum) = Ok tt <->
  (forall n, 1 <= n <= node_count self -> validate_supported_node self n maximum = Ok tt) /\
  acyclic_graphs.
Proof using Type.
  intros Hs Hb. rewrite run_validate_supported_nodes, bind_Ok. split.
  - intros ([]&Hf&Hg). split; [|by apply graph_checks_sound].
    intros n Hn. apply forM_Ok in Hf. rewrite Forall_forall in Hf. apply Hf, elem_of_range. lia.
  - intros [Hv Ha]. exists tt. split; [|by apply graph_checks_complete].
    apply forM_Ok, Forall_forall. intros n Hn%elem_of_range. apply Hv. lia.
Qed.

(** C34: On any bytes and under any interleaving of cancellation
    [validate_supported_nodes] returns a result or an error: it never panics
    and never exhausts the fuel of its loops, and cancellation can only turn
    its result into [Cancelled]. *)
Theorem validate_supported_nodes_returns obs :
  sized self.(node_tags) ->
  safe (fst (validate_supported_nodes self maximum obs 0%nat)) /\
  (fst (validate_supported_nodes self maximum obs 0%nat) = Err Cancelled \/
   fst (validate_supported_nodes self maximum obs 0%nat) = run (validate_supported_nodes self maximum)).
Proof using Type.
  intros Hs. assert (Hq : safe (run (validate_supported_nodes self maximum))).
  { rewrite run_validate_supported_nodes. apply safe_bind; [|intros _ _; by apply graph_checks_safe].
    apply forM_safe_all. auto with safe. }
  destruct (@transparent_obs _ _ validate_supported_nodes_transparent obs 0%nat) as [->| ->];
    (split; [done|auto]).
Qed.
End validated.

(** ** Closed instances *)

Lemma validate_supported_nodes_decides_witness :
  sized sample.(node_tags) /\ node_count sample * (item_count sample + 3) < usize_max /\
  run (@validate_supported_nodes ascii_lowercase sample 100) = Ok tt /\
  acyclic_graphs sample 100 /\
  ~ ((forall n, 1 <= n <= node_count cyclic_sample ->
        @validate_supported_node ascii_lowercase cyclic_sample n 100 = Ok tt) /\
     acyclic_graphs cyclic_sample 100).
Proof.
  split; [by vm_compute|]. split; [by vm_compute|].
  assert (H : run (@validate_supported_nodes ascii_lowercase sample 100) = Ok tt) by (by vm_compute).
  split; [exact H|]. split.
  - apply (validate_supported_nodes_decides sample 100) in H; [apply H|by vm_compute..].
  - intros Hn. apply (validate_supported_nodes_decides cyclic_sample 100) in Hn; [|by vm_compute..].
    by vm_compute in Hn.
Defined.

Lemma validate_supported_nodes_returns_witness :
  sized cyclic_sample.(node_tags) /\
  safe (fst (@validate_supported_nodes ascii_lowercase cyclic_sample 100 quiet 0%nat)).
Proof.
  assert (H : sized cyclic_sample.(node_tags)) by (by vm_compute). split; [exact H|].
  exact (proj1 (@validate_supported_nodes_returns ascii_lowercase cyclic_sample 100 quiet H)).
Defined.
