(* ===== verification/Structure.v ===== *)
(** * What validated columns promise

    [well_formed] is the contract between [validate_generic] and the passes
    after it: every accessor answers in its range, canonical sets are sorted,
    fields tile the items and the scalar arena, roots and postings are sorted.
    [validate_generic] establishes it and never panics on hostile columns. *)

From S2P Require Import Prelude Errors Tags Text Readers Columns Nodes Properties Classes Generic.
From S2P Require Import Swrl Safety Graphs Search Cycles Samples.
Local Open Scope string_scope.
Local Open Scope list_scope.
Local Open Scope N_scope.

(** The byte columns of a process: each fits the address space. *)
Record resident (self : DirectColumns) : Prop := {
  resident_root_kinds : sized self.(root_kinds);
  resident_root_ids : sized self.(root_ids);
  resident_included : sized self.(included_root_ids);
  resident_excluded : sized self.(excluded_root_ids);
  resident_tags : sized self.(node_tags);
  resident_offsets : sized self.(node_field_offsets);
  resident_field_kinds : sized self.(field_kinds);
  resident_field_values : sized self.(field_values);
  resident_field_lengths : sized self.(field_lengths);
  resident_item_kinds : sized self.(item_kinds);
  resident_item_values : sized self.(item_values);
  resident_item_lengths : sized self.(item_lengths);
  resident_scalars : sized self.(scalar_bytes);
}.

Definition SCALAR_KINDS : list u8 :=
  [COMPONENT_TEXT; COMPONENT_BYTES; COMPONENT_INTEGER; COMPONENT_ENUM].

Section structure.
Context (self : DirectColumns).

(** A leaf that can be read where it stands. *)
Definition leaf_ok (kind : u8) (value length : usize) : Prop :=
  (kind = COMPONENT_NONE /\ value = 0 /\ length = 0) \/
  (kind = COMPONENT_NODE /\ length = 0 /\ 1 <= value <= node_count self) \/
  (kind ∈ SCALAR_KINDS /\ value + length <= len self.(scalar_bytes)).

Definition item_ok (j : usize) : Prop :=
  exists kind value length,
    map_ok u8_of_byte (index self.(item_kinds) j) = Ok kind /\
    read_usize self.(item_values) j "item_values" = Ok value /\
    read_usize self.(item_lengths) j "item_lengths" = Ok length /\
    leaf_ok kind value length.

(** A field whose component can be read. *)
Definition field_ok (i : usize) : Prop :=
  exists kind value length,
    field_kind self i = Ok kind /\ field_value self i = Ok value /\
    field_length self i = Ok length /\
    ((kind ∈ [COMPONENT_SET; COMPONENT_SEQUENCE] /\ value + length <= item_count self /\
      (forall j, value <= j < value + length -> item_ok j) /\
      (kind = COMPONENT_SET -> node_set_range self i 0 = Ok (value, length))) \/
     leaf_ok kind value length).

(** The columns every later pass may assume. *)
Record well_formed : Prop := {
  wf_offsets n : 1 <= n <= node_count self ->
    exists start end_, field_range self n = Ok (start, end_);
  wf_first n start end_ : field_range self n = Ok (start, end_) -> n = 1 -> start = 0;
  wf_abut n start end_ start' end' :
    field_range self n = Ok (start, end_) -> field_range self (n + 1) = Ok (start', end') ->
    end_ = start';
  wf_last n start end_ : field_range self n = Ok (start, end_) -> n = node_count self ->
    end_ = field_count self;
  wf_field i : i < field_count self -> field_ok i;
  wf_root i : i < root_count self -> exists kind node,
    root_kind self i = Ok kind /\ root_id self i = Ok node /\
    kind ∈ [ROOT_ONTOLOGY_ANNOTATION; ROOT_AXIOM; ROOT_EXTENSION] /\
    1 <= node <= node_count self;
  wf_root_order i j ki kj ni nj : i < j ->
    root_kind self i = Ok ki -> root_id self i = Ok ni ->
    root_kind self j = Ok kj -> root_id self j = Ok nj ->
    ki < kj \/ ki = kj /\ ni < nj;
}.

(** ** Leaves and items *)

Lemma validate_leaf_safe k v l c : safe (validate_leaf self k v l c).
Proof using Type. unfold validate_leaf. safe_decoder. Qed.

Lemma validate_leaf_Ok k v l c c' :
  sized self.(scalar_bytes) -> c <= len self.(scalar_bytes) ->
  validate_leaf self k v l c = Ok c' ->
  leaf_ok k v l /\ c <= c' <= len self.(scalar_bytes).
Proof using Type.
  unfold sized, validate_leaf, leaf_ok. intros Hs Hc H.
  destruct (N.eqb_spec k COMPONENT_NONE) as [->|_].
  { destruct (N.eqb_spec v 0), (N.eqb_spec l 0); cbn in H; try discriminate.
    injection H as <-. split; [by left|lia]. }
  destruct (N.eqb_spec k COMPONENT_NODE) as [->|_].
  { destruct (N.eqb_spec l 0); cbn [negb] in H; [|discriminate].
    apply bind_Ok in H as (n&Hn&[= <-]). apply checked_node_id_Ok in Hn as [-> ?].
    split; [right; left; done|lia]. }
  destruct (contains _ k) eqn:Hk; [|discriminate]. apply contains_true in Hk.
  destruct (N.eqb_spec v c) as [->|]; cbn [negb orb] in H; [|discriminate].
  unfold saturating_sub in H. destruct (N.ltb_spec (len (scalar_bytes self) - c) l); [discriminate|].
  injection H as <-. rewrite wrapping_add_small by lia. split; [right; right; split; [done|lia]|lia].
Qed.

Lemma validate_item_safe k st j : j < item_count self -> safe (validate_item self k st j).
Proof using Type.
  intros Hj. destruct st as [sc prev]. unfold validate_item.
  destruct (index_lt self.(item_kinds) j Hj) as [b ->]. cbn [map_ok mbind outcome_bind].
  pose proof validate_leaf_safe. solve_safe.
Qed.

Lemma validate_item_Ok k sc prev j sc' prev' :
  sized self.(scalar_bytes) -> sc <= len self.(scalar_bytes) ->
  validate_item self k (sc, prev) j = Ok (sc', prev') ->
  item_ok j /\ sc <= sc' <= len self.(scalar_bytes) /\
  (k = COMPONENT_SET -> item_node self j = Ok prev' /\ prev < prev').
Proof using Type.
  intros Hs Hsc H. unfold validate_item in H.
  apply bind_Ok in H as (ik&Hik&H). destruct (_ && _) eqn:Hset; [discriminate|].
  apply bind_Ok in H as (p&Hp&H). apply bind_Ok in H as (v&Hv&H). apply bind_Ok in H as (l&Hl&H).
  apply bind_Ok in H as (c&Hc&[= <- <-]).
  destruct (validate_leaf_Ok _ _ _ _ _ Hs Hsc Hc) as [Hleaf Hb].
  split; [by exists ik, v, l|]. split; [done|]. intros ->. cbn in Hp, Hset.
  apply negb_false_iff, N.eqb_eq in Hset as ->.
  apply bind_Ok in Hp as (n&Hn&Hp). rewrite Hv in Hn. injection Hn as <-.
  apply bind_Ok in Hp as (n&Hn&Hp). destruct (N.leb_spec v prev); [discriminate|].
  injection Hp as <-. split; [|done]. unfold item_node.
  apply map_ok_Ok in Hik as (b&Hb1&Hb2). apply index_Ok in Hb1. rewrite Hb1. cbn [ok_or mbind outcome_bind].
  rewrite <- Hb2. cbn [negb]. change (COMPONENT_NODE =? COMPONENT_NODE) with true. cbn [negb].
  rewrite Hl. cbn [mbind outcome_bind].
  destruct Hleaf as [[[=] _]|[(_&->&Hr)|[Hk _]]]; [|by vm_compute in Hk; set_solver].
  cbn [N.eqb negb]. rewrite Hv. cbn [mbind outcome_bind]. by apply checked_node_id_Ok.
Qed.

(** The loop over a collection's items, next to the one that reads it back. *)
Lemma validate_items_Ok k l sc prev sc' prev' :
  sized self.(scalar_bytes) -> sc <= len self.(scalar_bytes) ->
  foldM (validate_item self k) (sc, prev) l = Ok (sc', prev') ->
  (forall j, j ∈ l -> item_ok j) /\ sc <= sc' <= len self.(scalar_bytes) /\
  (k = COMPONENT_SET ->
   foldM (fun previous j => n ← item_node self j;
     if n <=? previous then
       Err (malformed "encoded canonical-set items are not sorted and unique")
     else Ok n) prev l = Ok prev').
Proof using Type.
  intros Hs. revert sc prev. induction l as [|j l IH]; intros sc prev Hsc H; cbn [foldM] in *.
  { injection H as <- <-. split; [by intros j ?%elem_of_nil|]. split; [lia|done]. }
  apply bind_Ok in H as ([c p]&Hj&H). destruct (validate_item_Ok _ _ _ _ _ _ Hs Hsc Hj) as (H1&H2&H3).
  destruct (IH c p) as (H4&H5&H6); [lia|done|].
  split; [intros i [->|?]%elem_of_cons; auto|]. split; [lia|]. intros ->.
  destruct (H3 eq_refl) as [-> Hlt]. cbn [mbind outcome_bind].
  destruct (N.leb_spec p prev); [lia|]. by apply H6.
Qed.

(** ** Fields *)

(** The cursors of the field loop stay in their columns. *)
Definition cursors (st : usize * usize) : Prop :=
  st.1 <= item_count self /\ st.2 <= len self.(scalar_bytes).

Lemma validate_field_safe st i :
  resident self -> cursors st -> safe (validate_field self st i).
Proof using Type.
  intros Hr [Hic _]. destruct st as [ic sc]. unfold validate_field. cbn in Hic.
  apply safe_bind; [auto with safe|]. intros k _.
  apply safe_bind; [auto with safe|]. intros v _.
  apply safe_bind; [auto with safe|]. intros l _.
  destruct (contains _ k); [|apply safe_bind; [apply validate_leaf_safe|intros; apply safe_Ok]].
  unfold saturating_sub. destruct (negb _ || _) eqn:E; [apply safe_Err|].
  apply orb_false_iff in E as [_ E%N.ltb_ge]. cbn zeta.
  apply safe_bind; [|intros [? ?] _; apply safe_Ok].
  apply (foldM_safe (validate_item self k) (fun _ => True)); [done|].
  intros s j Hj%elem_of_range _. split; [|done]. apply validate_item_safe.
  pose proof (wrapping_add_le ic l). lia.
Qed.

Lemma validate_field_Ok st i st' :
  resident self -> cursors st -> validate_field self st i = Ok st' ->
  field_ok i /\ cursors st'.
Proof using Type.
  intros Hr [Hic Hsc] H. destruct st as [ic sc]. unfold validate_field in H. cbn [fst snd] in *.
  pose proof (resident_scalars _ Hr) as Hs. pose proof (resident_item_kinds _ Hr) as Hk.
  apply bind_Ok in H as (k&Hkind&H). apply bind_Ok in H as (v&Hv&H). apply bind_Ok in H as (l&Hl&H).
  destruct (contains _ k) eqn:Hc.
  - unfold saturating_sub in H. destruct (negb _ || _) eqn:E; [discriminate|].
    apply orb_false_iff in E as [->%negb_false_iff%N.eqb_eq E%N.ltb_ge].
    unfold sized in Hk. assert (ic +w l = ic + l) as Hw
      by (apply wrapping_add_small; unfold item_count in *; lia).
    rewrite Hw in H. apply bind_Ok in H as ([c p]&Hi&[= <-]).
    destruct (validate_items_Ok _ _ _ _ _ _ Hs Hsc Hi) as (H1&H2&H3).
    split; [|split; cbn; lia]. exists k, ic, l. split; [done|]. split; [done|]. split; [done|].
    left. apply contains_true in Hc. split; [done|]. split; [lia|].
    split; [intros j Hj; apply H1, elem_of_range; lia|].
    intros ->. unfold node_set_range. rewrite Hkind. cbn [mbind outcome_bind].
    rewrite N.eqb_refl. cbn [negb]. rewrite Hv. cbn [mbind outcome_bind].
    rewrite Hl. cbn [mbind outcome_bind].
    destruct (N.ltb_spec (item_count self) ic); [lia|]. unfold saturating_sub.
    destruct (N.ltb_spec (item_count self - ic) l); [lia|]. cbn [orb].
    destruct (N.ltb_spec l 0); [lia|]. by rewrite Hw, (H3 eq_refl).
  - apply bind_Ok in H as (c&Hc'&[= <-]).
    destruct (validate_leaf_Ok _ _ _ _ _ Hs Hsc Hc') as [H1 H2].
    split; [|split; cbn; lia]. exists k, v, l. eauto 6.
Qed.

Lemma validate_fields_loop l st :
  resident self -> cursors st ->
  safe (foldM (validate_field self) st l) /\
  (forall st', foldM (validate_field self) st l = Ok st' ->
     cursors st' /\ forall i, i ∈ l -> field_ok i).
Proof using Type.
  intros Hr. revert st. induction l as [|i l IH]; intros st Hst; cbn [foldM].
  { split; [done|]. intros st' [= <-]. split; [done|]. by intros i ?%elem_of_nil. }
  split.
  - apply safe_bind; [by apply validate_field_safe|]. intros st1 H1.
    apply IH. by eapply validate_field_Ok in H1 as [_ ?].
  - intros st' (st1&H1&H2)%bind_Ok. destruct (validate_field_Ok _ _ _ Hr Hst H1) as [Hi Hst1].
    destruct (IH st1 Hst1) as [_ IH2]. destruct (IH2 _ H2) as [Hc Hf]. split; [done|].
    intros j [->|?]%elem_of_cons; auto.
Qed.
End structure.

(** ** Loops over an increasing column *)

Section increasing.
Context {S K} (read : usize -> outcome K) (step : S -> usize -> outcome S)
  (below : S -> K -> Prop) (after : K -> S) (lt : K -> K -> Prop).
Context (lt_trans : forall a b c, lt a b -> lt b c -> lt a c).
Context (step_Ok : forall s j s', step s j = Ok s' ->
  exists k, read j = Ok k /\ below s k /\ s' = after k).
Context (below_after : forall k k', below (after k) k' -> lt k k').
Context (below_lt : forall s k k', below s k -> lt k k' -> below s k').

Lemma increasing_loop a n s s' : foldM step s (range_from a n) = Ok s' ->
  (forall j, a <= j < a + N.of_nat n -> exists k, read j = Ok k /\ below s k) /\
  (forall i j ki kj, a <= i -> i < j -> j < a + N.of_nat n ->
     read i = Ok ki -> read j = Ok kj -> lt ki kj) /\
  ((0 < n)%nat -> exists k, read (a + N.of_nat n - 1) = Ok k /\ s' = after k).
Proof using All.
  revert a s. induction n as [|n IH]; intros a s H; cbn [range_from foldM] in H.
  { split; [intros j Hj; lia|]. split; [intros; lia|lia]. }
  apply bind_Ok in H as (s1&H1&H). destruct (step_Ok _ _ _ H1) as (k&Hk&Hb&->).
  destruct (IH _ _ H) as (Ha&Hp&Hl).
  split; [|split].
  - intros j Hj. destruct (N.eq_dec j a) as [->|]; [by exists k|].
    destruct (Ha j) as (kj&Hkj&Hbj); [lia|]. exists kj. split; [done|].
    eapply below_lt; [exact Hb|by apply below_after].
  - intros i j ki kj Hi Hij Hj Hki Hkj. destruct (N.eq_dec i a) as [->|].
    + destruct (Ha j) as (k'&Hk'&Hbj); [lia|]. rewrite Hkj in Hk'. injection Hk' as <-.
      rewrite Hk in Hki. injection Hki as <-. by apply below_after.
    + apply (Hp i j); [lia|lia|lia|done|done].
  - intros _. destruct n as [|n].
    + cbn in H. injection H as <-. exists k. by replace (a + N.of_nat 1 - 1) with a by lia.
    + destruct Hl as (k'&Hk'&->); [lia|]. exists k'.
      by replace (a + N.of_nat (Datatypes.S (Datatypes.S n)) - 1)
        with (a + 1 + N.of_nat (Datatypes.S n) - 1) by lia.
Qed.
End increasing.

Section order.
Context (self : DirectColumns).

(** ** Offsets *)

Definition offset_step (previous index : usize) : outcome usize :=
  offset ← read_usize self.(node_field_offsets) index "node_field_offsets";
  if ((index =? 0) && negb (offset =? 0)) || (offset <? previous)
     || (field_count self <? offset)
  then Err (malformed "encoded node-field offsets are not monotone in-range boundaries")
  else Ok offset.

Lemma run_validate_offsets :
  run (validate_offsets self) =
  (previous ← foldM offset_step 0 (range 0 (node_count self + 1));
   if negb (previous =? field_count self) then
     Err (malformed "encoded node-field offsets do not cover every field")
   else Ok tt).
Proof using Type.
  unfold validate_offsets. rewrite run_bind by solve_transparent. rewrite run_foldM by solve_transparent.
  erewrite foldM_ext; [apply bind_ext; intros p _; by destruct (negb _)|].
  intros p i. run_steps. unfold offset_step. apply bind_ext. intros o _.
  by destruct (_ || _).
Qed.

Lemma validate_offsets_safe : safe (run (validate_offsets self)).
Proof using Type.
  rewrite run_validate_offsets. apply safe_bind; [|intros; solve_safe].
  apply foldM_safe_all. intros. unfold offset_step. solve_safe.
Qed.

Lemma offset_step_Ok p i o : offset_step p i = Ok o ->
  read_usize self.(node_field_offsets) i "node_field_offsets" = Ok o /\
  p <= o <= field_count self /\ (i = 0 -> o = 0).
Proof using Type.
  unfold offset_step. intros (o'&Ho&H)%bind_Ok. destruct (_ || _) eqn:E; [discriminate|].
  injection H as <-. apply orb_false_iff in E as [[E1 E2%N.ltb_ge]%orb_false_iff E3%N.ltb_ge].
  split; [done|]. split; [done|]. intros ->. cbn in E1. by apply negb_false_iff, N.eqb_eq in E1.
Qed.

Lemma validate_offsets_Ok : run (validate_offsets self) = Ok tt ->
  let offset j := read_usize self.(node_field_offsets) j "node_field_offsets" in
  offset 0 = Ok 0 /\ offset (node_count self) = Ok (field_count self) /\
  (forall j, j <= node_count self -> exists o, offset j = Ok o /\ o <= field_count self) /\
  (forall i j oi oj, i < j -> j <= node_count self -> offset i = Ok oi -> offset j = Ok oj ->
     oi <= oj).
Proof using Type.
  rewrite run_validate_offsets. intros (last&H&Hl)%bind_Ok.
  destruct (N.eqb_spec last (field_count self)) as [->|]; cbn [negb] in Hl; [|discriminate]. cbn zeta.
  unfold range in H.
  destruct (increasing_loop
    (fun j => read_usize self.(node_field_offsets) j "node_field_offsets") offset_step
    (fun p o => p <= o) (fun o => o) N.le ltac:(intros; lia)
    ltac:(intros s j s' ?%offset_step_Ok; exists s'; naive_solver) ltac:(done)
    ltac:(intros ? ? ?; apply N.le_trans) _ _ _ _ H) as (Ha&Hp&Hlast).
  destruct Hlast as (o&Ho&->); [lia|].
  replace (0 + N.of_nat (N.to_nat (node_count self + 1 - 0)) - 1) with (node_count self) in Ho by lia.
  split; [|split; [done|split]].
  - replace (N.to_nat (node_count self + 1 - 0)) with (S (N.to_nat (node_count self))) in H by lia.
    cbn [range_from foldM] in H. apply bind_Ok in H as (o1&H1&_).
    apply offset_step_Ok in H1 as (H1&_&Hz). by rewrite (Hz eq_refl) in H1.
  - intros j Hj. destruct (Ha j) as (oj&Hoj&_); [lia|]. exists oj. split; [done|].
    destruct (N.eq_dec j (node_count self)) as [->|]; [rewrite Ho in Hoj; by injection Hoj as <-|].
    apply (Hp j (node_count self)); [lia|lia|lia|done|done].
  - intros i j oi oj Hij Hj. apply Hp; lia.
Qed.

(** ** Roots *)

Definition root_key (index : usize) : outcome (u8 * usize) :=
  kind ← root_kind self index;
  if negb (contains [ROOT_ONTOLOGY_ANNOTATION; ROOT_AXIOM; ROOT_EXTENSION] kind) then
    Err (malformed "encoded root kind is invalid") else
  node_id ← root_id self index;
  Ok (kind, node_id).

Definition root_step (previous : option (u8 * usize)) (index : usize)
    : outcome (option (u8 * usize)) :=
  key ← root_key index;
  if match previous with Some previous => negb (root_key_lt previous key) | None => false end
  then Err (malformed "encoded roots are not canonical and unique") else Ok (Some key).

Lemma run_validate_roots :
  run (validate_roots self) = (_ ← foldM root_step None (range 0 (root_count self)); Ok tt).
Proof using Type.
  unfold validate_roots. rewrite run_bind by solve_transparent. rewrite run_foldM by solve_transparent.
  erewrite foldM_ext; [done|]. intros p i. run_steps. unfold root_step, root_key.
  rewrite bind_assoc. apply bind_ext. intros k _. destruct (negb _); [done|].
  run_steps. rewrite bind_assoc. apply bind_ext. intros n _. cbn [mbind outcome_bind].
  destruct p as [p|]; [|done]. by destruct (negb (root_key_lt p (k, n))).
Qed.

Lemma validate_roots_safe : safe (run (validate_roots self)).
Proof using Type.
  rewrite run_validate_roots. apply safe_bind; [|intros; apply safe_Ok].
  apply foldM_safe_all. intros. unfold root_step, root_key. solve_safe.
Qed.

Definition key_lt (a b : u8 * usize) : Prop := a.1 < b.1 \/ a.1 = b.1 /\ a.2 < b.2.

Lemma root_key_lt_true a b : root_key_lt a b = true <-> key_lt a b.
Proof using Type.
  unfold root_key_lt, key_lt, then_with. rewrite is_lt_true.
  destruct (N.compare_spec a.1 b.1); destruct (N.compare_spec a.2 b.2); naive_solver lia.
Qed.

Lemma root_key_Ok i k n : root_key i = Ok (k, n) ->
  root_kind self i = Ok k /\ root_id self i = Ok n /\
  k ∈ [ROOT_ONTOLOGY_ANNOTATION; ROOT_AXIOM; ROOT_EXTENSION] /\ 1 <= n <= node_count self.
Proof using Type.
  unfold root_key. intros (k'&Hk&H)%bind_Ok. destruct (contains _ k') eqn:Hc; cbn [negb] in H; [|done].
  apply bind_Ok in H as (n'&Hn&[= <- <-]). apply contains_true in Hc.
  split; [done|]. split; [done|]. split; [done|].
  unfold root_id in Hn. apply bind_Ok in Hn as (v&_&Hv). by apply checked_node_id_Ok in Hv as [-> ?].
Qed.

Lemma validate_roots_Ok : run (validate_roots self) = Ok tt ->
  (forall i, i < root_count self -> exists k, root_key i = Ok k) /\
  (forall i j ki kj, i < j -> j < root_count self -> root_key i = Ok ki -> root_key j = Ok kj ->
     key_lt ki kj).
Proof using Type.
  rewrite run_validate_roots. intros (last&H&_)%bind_Ok. unfold range in H.
  destruct (increasing_loop root_key root_step
    (fun p k => match p with Some p => key_lt p k | None => True end) Some key_lt)
    with (a := 0) (n := N.to_nat (root_count self - 0)) (s := @None (u8 * usize)) (s' := last)
    as (Ha&Hp&_).
  - unfold key_lt. intros a b c. lia.
  - intros s j s' (k&Hk&Hs)%bind_Ok. exists k. split; [done|]. destruct s as [p|].
    + destruct (root_key_lt p k) eqn:E; cbn [negb] in Hs; [|done].
      apply root_key_lt_true in E. by injection Hs as <-.
    + by injection Hs as <-.
  - done.
  - intros [p|] a b; [|done]. unfold key_lt. lia.
  - done.
  - split.
    + intros i Hi. destruct (Ha i) as (k&?&_); [lia|by exists k].
    + intros i j ki kj Hij Hj. apply Hp; lia.
Qed.

(** ** Postings *)

Definition posting_step (position : usize -> outcome usize) (message : string)
    (previous index : usize) : outcome usize :=
  root_position ← position index;
  if (root_position <=? previous) || (root_count self <? root_position)
  then Err (malformed message) else Ok root_position.

Lemma run_validate_postings postings position base message :
  run (validate_postings self postings position base message) =
  (_ ← foldM (posting_step position message) 0 (range 0 (len postings / 4)); Ok tt).
Proof using Type.
  unfold validate_postings. rewrite run_bind by solve_transparent.
  rewrite run_foldM by solve_transparent.
  erewrite foldM_ext; [done|]. intros p i. run_steps. apply bind_ext. intros v _.
  by destruct (_ || _).
Qed.

Lemma validate_postings_safe postings position base message :
  (forall i, safe (position i)) ->
  safe (run (validate_postings self postings position base message)).
Proof using Type.
  intros Hp. rewrite run_validate_postings. apply safe_bind; [|intros; apply safe_Ok].
  apply foldM_safe_all. intros. unfold posting_step. solve_safe.
Qed.

(** A posting list: strictly increasing positions of roots. *)
Definition sorted_postings (position : usize -> outcome usize) (count : usize) : Prop :=
  (forall j, j < count -> exists v, position j = Ok v /\ 1 <= v <= root_count self) /\
  (forall i j vi vj, i < j -> j < count -> position i = Ok vi -> position j = Ok vj -> vi < vj).

Lemma validate_postings_Ok postings position base message :
  run (validate_postings self postings position base message) = Ok tt ->
  sorted_postings position (len postings / 4).
Proof using Type.
  rewrite run_validate_postings. intros (last&H&_)%bind_Ok. unfold range in H.
  destruct (increasing_loop position (posting_step position message)
    (fun p k => p < k /\ k <= root_count self) (fun k => k)
    (fun a b => a < b /\ b <= root_count self))
    with (a := 0) (n := N.to_nat (len postings / 4 - 0)) (s := 0) (s' := last) as (Ha&Hp&_).
  - intros a b c. lia.
  - intros s j s' (k&Hk&Hs)%bind_Ok. destruct (_ || _) eqn:E; [done|]. injection Hs as <-.
    apply orb_false_iff in E as [?%N.leb_gt ?%N.ltb_ge]. by exists k.
  - done.
  - intros s a b. lia.
  - done.
  - split.
    + intros j Hj. destruct (Ha j) as (v&Hv&?); [lia|]. exists v. split; [done|lia].
    + intros i j vi vj Hij Hj Hi Hv. by apply (Hp i j vi vj); try lia.
Qed.

Definition listed (position : usize -> outcome usize) (count v : usize) : Prop :=
  exists j, j < count /\ position j = Ok v.

(** The binary search returns the first position that is not below the target. *)
Lemma lower_bound_correct position count target fuel start end_ r :
  sorted_postings position count -> start <= end_ <= count ->
  (forall j v, j < start -> position j = Ok v -> v < target) ->
  (forall j v, end_ <= j < count -> position j = Ok v -> target <= v) ->
  lower_bound fuel position target start end_ = Ok r ->
  r <= count /\
  (forall j v, j < r -> position j = Ok v -> v < target) /\
  (forall j v, r <= j < count -> position j = Ok v -> target <= v).
Proof using Type.
  intros [Hin Hlt]. revert start end_. induction fuel as [|fuel IH]; intros start end_ Hb Hlo Hhi H;
    cbn [lower_bound] in H; destruct (N.ltb_spec start end_) as [Hse|]; cbn [negb] in H.
  - discriminate.
  - injection H as <-. split; [lia|]. split; [done|]. intros j v Hj. apply Hhi. lia.
  - cbn zeta in H. pose proof (middle_bounds _ _ Hse) as Hm. revert Hm H.
    generalize (start + (end_ - start) / 2). intros m Hm H.
    apply bind_Ok in H as (c&Hc&H). destruct (N.ltb_spec c target).
    + eapply IH; [|intros j v Hj Hv|done|exact H]; [lia|].
      destruct (N.eq_dec j m) as [->|]; [rewrite Hc in Hv; by injection Hv as <-|].
      enough (v < c) by lia. apply (Hlt j m); [lia|lia|done|done].
    + eapply IH; [|done|intros j v Hj Hv|exact H]; [lia|].
      destruct (N.eq_dec j m) as [->|]; [rewrite Hc in Hv; by injection Hv as <-|].
      enough (c < v) by lia. apply (Hlt m j); [lia|lia|done|done].
  - injection H as <-. split; [lia|]. split; [done|]. intros j v Hj. apply Hhi. lia.
Qed.

(** With the reads of a sorted list total, so is its binary search. *)
Lemma lower_bound_total position count target fuel start end_ :
  sorted_postings position count -> start <= end_ <= count ->
  (N.to_nat (end_ - start) <= fuel)%nat ->
  exists r, lower_bound fuel position target start end_ = Ok r.
Proof using Type.
  intros [Hin _]. revert start end_. induction fuel as [|fuel IH]; intros start end_ Hb Hf;
    cbn [lower_bound]; destruct (N.ltb_spec start end_) as [Hse|]; cbn [negb]; try by eauto.
  { lia. }
  cbn zeta. pose proof (middle_bounds _ _ Hse) as Hm. revert Hm.
  generalize (start + (end_ - start) / 2). intros m Hm.
  destruct (Hin m) as (v&->&_); [lia|]. cbn [mbind outcome_bind].
  destruct (v <? target); apply IH; lia.
Qed.

(** The search finds the target exactly when it is listed. *)
Lemma lower_bound_finds position count target :
  sorted_postings position count ->
  exists r, lower_bound (N.to_nat count) position target 0 count = Ok r /\ r <= count /\
    (r < count -> exists v, position r = Ok v /\ (v = target <-> listed position count target)) /\
    (r = count -> ~ listed position count target).
Proof using Type.
  intros Hs. destruct (lower_bound_total position count target (N.to_nat count) 0 count Hs) as [r Hr];
    [lia|lia|].
  destruct (lower_bound_correct _ _ _ _ _ _ _ Hs (conj (N.le_0_l _) (N.le_refl _)) 
    ltac:(intros; lia) ltac:(intros; lia) Hr) as (Hb&Hlo&Hhi).
  exists r. split; [done|]. split; [done|]. split.
  - intros Hlt. destruct (proj1 Hs r Hlt) as (v&Hv&_). exists v. split; [done|]. split.
    + intros ->. by exists r.
    + intros (j&Hj&Hjv). pose proof (Hhi r v ltac:(lia) Hv).
      destruct (N.lt_trichotomy j r) as [Hjr|[->|Hjr]].
      * pose proof (Hlo j _ Hjr Hjv). lia.
      * congruence.
      * pose proof (proj2 Hs r j v target Hjr Hj Hv Hjv). lia.
  - intros -> (j&Hj&Hjv). pose proof (Hlo j _ Hj Hjv). lia.
Qed.
End order.

(** ** The whole validation *)

Section generic.
Context (self : DirectColumns).

Instance validate_scope_map_row_transparent st row : Transparent (validate_scope_map_row st row).
Proof using Type. unfold validate_scope_map_row. solve_transparent. Qed.
Instance validate_scope_maps_transparent : Transparent (validate_scope_maps self).
Proof using Type. unfold validate_scope_maps. solve_transparent. Qed.
Instance validate_offsets_transparent : Transparent (validate_offsets self).
Proof using Type. unfold validate_offsets. solve_transparent. Qed.
Instance validate_roots_transparent : Transparent (validate_roots self).
Proof using Type. unfold validate_roots. solve_transparent. Qed.
Instance validate_postings_transparent p position base m :
  Transparent (validate_postings self p position base m).
Proof using Type. unfold validate_postings. solve_transparent. Qed.
Instance validate_fields_transparent : Transparent (validate_fields self).
Proof using Type. unfold validate_fields. solve_transparent. Qed.

Lemma validate_generic_transparent : Transparent (validate_generic self).
Proof using Type. unfold validate_generic. repeat (apply transparent_bind; [apply _|intros _]). apply _. Qed.

Lemma run_validate_fields :
  run (validate_fields self) =
  ('(item_cursor, scalar_cursor) ← foldM (validate_field self) (0, 0) (range 0 (field_count self));
   if negb (item_cursor =? item_count self) then
     Err (malformed "encoded collection offsets do not cover every item") else
   if negb (scalar_cursor =? len self.(scalar_bytes)) then
     Err (malformed "encoded scalar offsets do not cover the byte arena")
   else Ok tt).
Proof using Type.
  unfold validate_fields. rewrite run_bind by solve_transparent.
  rewrite (run_foldM_checked (fun i => i)). apply bind_ext. intros [ic sc] _.
  destruct (negb (ic =? item_count self)); [done|].
  by destruct (negb (sc =? len (scalar_bytes self))).
Qed.

Lemma run_validate_generic :
  run (validate_generic self) =
  (_ ← validate_widths self;
   _ ← validate_scope_map_widths self;
   _ ← validate_root_lengths self;
   _ ← run (validate_scope_maps self);
   _ ← validate_lengths self;
   _ ← run (validate_offsets self);
   _ ← run (validate_roots self);
   _ ← run (validate_postings self self.(included_root_ids) (included_root_position self) 0
        "encoded included-root postings are not sorted unique in-range positions");
   _ ← run (validate_postings self self.(excluded_root_ids) (excluded_root_position self)
        (len self.(included_root_ids) / 4)
        "encoded excluded-root postings are not sorted unique in-range positions");
   run (validate_fields self)).
Proof using Type.
  unfold validate_generic.
  do 9 (rewrite run_bind; [|apply _|intros _; repeat (apply transparent_bind; [apply _|intros _]); apply _];
        rewrite ?run_lift; apply bind_ext; intros _ _). done.
Qed.

Lemma validate_scope_maps_safe : safe (run (validate_scope_maps self)).
Proof using Type.
  unfold validate_scope_maps. rewrite run_bind by solve_transparent.
  apply safe_bind; [|intros; apply safe_Ok]. rewrite run_foldM by solve_transparent.
  apply foldM_safe_all. intros rows_ i. run_steps. apply safe_bind; [apply safe_ok_or|].
  intros m _. run_steps. apply safe_bind; [|intros [? ?] _; apply safe_Ok].
  rewrite run_foldM by solve_transparent. apply foldM_safe_all. intros [previous n] row.
  unfold validate_scope_map_row. run_steps. apply safe_bind; [apply safe_ok_or|]. intros n' _.
  destruct (bool_decide _); [apply safe_Err|].
  destruct previous as [p|]; [destruct (is_lt _)|]; done.
Qed.

Lemma validate_widths_Ok : validate_widths self = Ok tt ->
  forall name width buffer, (name, width, buffer) ∈ column_widths self -> len buffer mod width = 0.
Proof using Type.
  unfold validate_widths. rewrite forM_Ok, Forall_forall. intros H name width buffer Hin.
  specialize (H _ Hin). cbn in H. destruct (N.eqb_spec (len buffer mod width) 0); [done|discriminate].
Qed.

Lemma validate_lengths_Ok : validate_lengths self = Ok tt ->
  len self.(node_field_offsets) / 8 = node_count self + 1 /\
  len self.(field_values) / 8 = field_count self /\
  len self.(field_lengths) / 8 = field_count self /\
  len self.(item_values) / 8 = item_count self /\
  len self.(item_lengths) / 8 = item_count self.
Proof using Type.
  unfold validate_lengths. intros H.
  destruct (N.eqb_spec (len (node_field_offsets self) / 8) (node_count self + 1)); cbn [negb] in H; [|done].
  destruct (N.eqb_spec (len (field_values self) / 8) (field_count self)); cbn [negb orb] in H; [|done].
  destruct (N.eqb_spec (len (field_lengths self) / 8) (field_count self)); cbn [negb orb] in H; [|done].
  destruct (N.eqb_spec (len (item_values self) / 8) (item_count self)); cbn [negb orb] in H; [|done].
  destruct (N.eqb_spec (len (item_lengths self) / 8) (item_count self)); cbn [negb orb] in H; done.
Qed.

(** On hostile columns the pass returns or fails; it never panics. *)
Lemma validate_generic_safe : resident self -> safe (run (validate_generic self)).
Proof using Type.
  intros Hr. rewrite run_validate_generic.
  apply safe_bind; [apply forM_safe_all; intros [[name w] b]; solve_safe|intros _ _].
  apply safe_bind; [apply forM_safe_all; intros i; unfold scope_map_or_truncated; solve_safe|intros _ _].
  apply safe_bind; [unfold validate_root_lengths; solve_safe|intros _ _].
  apply safe_bind; [apply validate_scope_maps_safe|intros _ _].
  apply safe_bind; [unfold validate_lengths; solve_safe|intros _ _].
  apply safe_bind; [apply validate_offsets_safe|intros _ _].
  apply safe_bind; [apply validate_roots_safe|intros _ _].
  apply safe_bind; [apply validate_postings_safe; intros; apply read_u32_safe|intros _ _].
  apply safe_bind; [apply validate_postings_safe; intros; apply read_u32_safe|intros _ _].
  rewrite run_validate_fields.
  apply safe_bind; [|intros [ic sc] _; solve_safe].
  eapply validate_fields_loop; [done|]. split; cbn; lia.
Qed.

Lemma field_range_Ok n start end_ : field_range self n = Ok (start, end_) ->
  1 <= n <= node_count self /\
  read_usize self.(node_field_offsets) (n - 1) "node_field_offsets" = Ok start /\
  read_usize self.(node_field_offsets) n "node_field_offsets" = Ok end_.
Proof using Type.
  unfold field_range. intros (m&Hm&H)%bind_Ok. apply checked_node_id_Ok in Hm as [-> Hn].
  apply bind_Ok in H as (s&Hs&H). apply bind_Ok in H as (e&He&H). destruct (_ && _); [|done].
  by injection H as <- <-.
Qed.

Lemma validate_generic_Ok : resident self -> run (validate_generic self) = Ok tt ->
  well_formed self /\
  sorted_postings self (included_root_position self) (len self.(included_root_ids) / 4) /\
  sorted_postings self (excluded_root_position self) (len self.(excluded_root_ids) / 4) /\
  (self.(included_root_ids) = [] \/ self.(excluded_root_ids) = []) /\
  (forall name width buffer, (name, width, buffer) ∈ column_widths self -> len buffer mod width = 0).
Proof using Type.
  intros Hr. rewrite run_validate_generic.
  intros ([]&Hw&H)%bind_Ok. apply bind_Ok in H as ([]&_&H).
  apply bind_Ok in H as ([]&Hroots&H). apply bind_Ok in H as ([]&_&H).
  apply bind_Ok in H as ([]&_&H). apply bind_Ok in H as ([]&Ho&H).
  apply bind_Ok in H as ([]&Hk&H). apply bind_Ok in H as ([]&Hi&H).
  apply bind_Ok in H as ([]&He&H).
  apply validate_offsets_Ok in Ho as (Hfirst&Hlast&Htotal&Hmono).
  apply validate_roots_Ok in Hk as [Hroot Horder].
  apply validate_postings_Ok in Hi, He.
  split; [|split; [done|split; [done|split; [|by apply validate_widths_Ok]]]].
  2: { unfold validate_root_lengths in Hroots. destruct (negb (_ =? _)); [done|].
       destruct (included_root_ids self), (excluded_root_ids self); cbn in Hroots; auto; done. }
  rewrite run_validate_fields in H. apply bind_Ok in H as ([ic sc]&Hf&_).
  destruct (validate_fields_loop self (range 0 (field_count self)) (0, 0) Hr) as [_ Hloop];
    [split; cbn; lia|].
  destruct (Hloop _ Hf) as [_ Hfields].
  split.
  - intros n Hn. destruct (Htotal (n - 1)) as (s&Hs&_); [lia|]. destruct (Htotal n) as (e&He'&Hle); [lia|].
    exists s, e. unfold field_range.
    rewrite (proj2 (checked_node_id_Ok self n n) (conj eq_refl Hn)). cbn [mbind outcome_bind].
    rewrite Hs. cbn [mbind outcome_bind]. rewrite He'. cbn [mbind outcome_bind].
    assert (s <= e) by (apply (Hmono (n - 1) n s e); [lia|lia|done|done]).
    destruct (N.leb_spec s e); [|lia]. by destruct (N.leb_spec e (field_count self)); [|lia].
  - intros n s e (_&Hs&_)%field_range_Ok ->. change (1 - 1) with 0 in Hs. congruence.
  - intros n s e s' e' (_&_&H1)%field_range_Ok (_&H2&_)%field_range_Ok.
    replace (n + 1 - 1) with n in H2 by lia. congruence.
  - intros n s e (_&_&H1)%field_range_Ok ->. congruence.
  - intros i Hif. apply Hfields, elem_of_range. lia.
  - intros i Hir. destruct (Hroot i Hir) as ([k n]&Hk). apply root_key_Ok in Hk. by exists k, n.
  - intros i j ki kj ni nj Hij Hki Hni Hkj Hnj.
    assert (Hj : j < root_count self).
    { unfold root_kind in Hkj. apply map_ok_Ok in Hkj as (b&Hb%ok_or_Ok&_). by eapply get_Some_lt. }
    destruct (Hroot i ltac:(lia)) as ([k1 n1]&H1). destruct (Hroot j Hj) as ([k2 n2]&H2).
    pose proof (Horder i j _ _ Hij Hj H1 H2) as Hlt.
    apply root_key_Ok in H1 as (E1&E2&_). apply root_key_Ok in H2 as (E3&E4&_).
    rewrite Hki in E1. rewrite Hni in E2. rewrite Hkj in E3. rewrite Hnj in E4.
    injection E1 as ->. injection E2 as ->. injection E3 as ->. injection E4 as ->. exact Hlt.
Qed.
End generic.
