(* ===== verification/Reach.v ===== *)
(** * Root selection and reachability over validated columns

    The include/exclude postings as the set of roots they select: the binary
    search of [root_is_selected] decides it, and [selected_root_count] counts
    it.  On columns that passed [validate_generic] the worklist passes never panic
    (they index [item_kinds] without a check), visit each node once, and mark
    exactly the nodes reachable through node references. *)

From stdpp Require Import relations.
From S2P Require Import Prelude Errors Tags Text Readers Columns Nodes Samples Properties Classes Generic Swrl Safety.
From S2P Require Import Graphs Search Cycles Structure.
Local Open Scope string_scope.
Local Open Scope list_scope.
Local Open Scope N_scope.

Section selection.
Context (self : DirectColumns).

(** The posting list in force, and the reading of its positions. *)
Definition posting_count (included : bool) : usize :=
  len (if included then self.(included_root_ids) else self.(excluded_root_ids)) / 4.
Definition posting_position (included : bool) : usize -> outcome usize :=
  if included then included_root_position self else excluded_root_position self.

(** Specification: 0-based root [i] is selected when its 1-based position is
    included, or when nothing is included and it is not excluded. *)
Definition selected (i : usize) : Prop :=
  if is_empty self.(included_root_ids)
  then ~ listed (posting_position false) (posting_count false) (i + 1)
  else listed (posting_position true) (posting_count true) (i + 1).

(** The postings passed validation, and the roots can be numbered from 1. *)
Record postings_ok : Prop := {
  postings_included : sorted_postings self (posting_position true) (posting_count true);
  postings_excluded : sorted_postings self (posting_position false) (posting_count false);
  postings_roots : root_count self < usize_max;
}.

Lemma root_is_selected_unfold i : i + 1 <= usize_max ->
  root_is_selected self i =
  let included := negb (is_empty self.(included_root_ids)) in
  let count := posting_count included in
  start ← lower_bound (N.to_nat count) (posting_position included) (i + 1) 0 count;
  if start =? count then Ok (negb included)
  else value ← posting_position included start;
       Ok (if included then value =? i + 1 else negb (value =? i + 1)).
Proof using Type.
  intros Hi. unfold root_is_selected. rewrite (proj2 (checked_add_Some i 1 _) (conj eq_refl Hi)).
  cbn [ok_or mbind outcome_bind]. by destruct (is_empty self.(included_root_ids)).
Qed.

(** The binary search decides the selection of every root. *)
Lemma root_is_selected_spec i : postings_ok -> i < root_count self ->
  exists b, root_is_selected self i = Ok b /\ (b = true <-> selected i).
Proof using Type.
  intros [Hi He Hr] Hroot. rewrite root_is_selected_unfold by lia. cbn zeta. unfold selected.
  destruct (is_empty self.(included_root_ids)) eqn:Hempty; cbn [negb].
  all: [> pose proof He as Hs | pose proof Hi as Hs ].
  all: destruct (lower_bound_finds self _ _ (i + 1) Hs) as (r&->&Hrc&Hin&Hout).
  all: cbn [mbind outcome_bind];
    match goal with |- context [?r =? ?c] => destruct (N.eqb_spec r c) as [E|E] end.
  - exists true. split; [done|]. split; [intros _; by apply Hout|done].
  - destruct Hin as (v&->&Hv); [lia|]. cbn [mbind outcome_bind]. eexists. split; [done|].
    rewrite <- Hv. destruct (N.eqb_spec v (i + 1)); naive_solver.
  - exists false. split; [done|]. split; [done|]. intros H. by destruct (Hout E).
  - destruct Hin as (v&->&Hv); [lia|]. cbn [mbind outcome_bind]. eexists. split; [done|].
    rewrite <- Hv. apply N.eqb_eq.
Qed.

(** ** Counting *)

(** The positions of a posting list, read in order. *)
Definition positions (included : bool) : list usize :=
  omap (fun j => match posting_position included j with Ok v => Some v | _ => None end)
    (range 0 (posting_count included)).

Lemma elem_of_positions included v :
  v ∈ positions included <-> listed (posting_position included) (posting_count included) v.
Proof using Type.
  unfold positions, listed. rewrite list_elem_of_omap. split.
  - intros (j&Hj%elem_of_range&Hv). exists j. split; [lia|].
    destruct (posting_position included j); congruence.
  - intros (j&Hj&Hv). exists j. split; [apply elem_of_range; lia|]. by rewrite Hv.
Qed.

(** A sorted list reads as many distinct positions as it has rows. *)
Lemma positions_sorted included (Hs : sorted_postings self (posting_position included)
    (posting_count included)) :
  NoDup (positions included) /\
  length (positions included) = N.to_nat (posting_count included).
Proof using Type.
  destruct Hs as [Hin Hlt]. unfold positions, range. rewrite N.sub_0_r.
  assert (H : forall n a, a + N.of_nat n <= posting_count included ->
    let l := omap (fun j => match posting_position included j with Ok v => Some v | _ => None end)
               (range_from a n) in NoDup l /\ length l = n /\
    forall v, v ∈ l -> exists j, a <= j < a + N.of_nat n /\ posting_position included j = Ok v).
  { induction n as [|n IH]; intros a Ha; cbn [range_from omap list_omap] in *.
    { split; [apply NoDup_nil_2|]. split; [done|]. by intros v ?%elem_of_nil. }
    destruct (Hin a) as (v&Hv&_); [lia|]. rewrite Hv. destruct (IH (a + 1)) as (H1&H2&H3); [lia|].
    split; [|split].
    - apply NoDup_cons. split; [|done]. intros (j&Hj&Hjv)%H3.
      pose proof (Hlt a j v v ltac:(lia) ltac:(lia) Hv Hjv). lia.
    - cbn. by rewrite H2.
    - intros w [->|Hw]%elem_of_cons; [exists a; split; [lia|done]|].
      destruct (H3 w Hw) as (j&?&?). exists j. split; [lia|done]. }
  destruct (H (N.to_nat (posting_count included)) 0) as (H1&H2&_); [lia|]. done.
Qed.

(** The roots the model of the loops selects. *)
Definition selected_roots : list usize :=
  filter (fun i => root_is_selected self i = Ok true) (range 0 (root_count self)).

Lemma length_listed_roots included :
  sorted_postings self (posting_position included) (posting_count included) ->
  length (filter (fun i => i + 1 ∈ positions included) (range 0 (root_count self)))
    = N.to_nat (posting_count included).
Proof using Type.
  intros Hs. destruct (positions_sorted included Hs) as [Hnd <-].
  rewrite <- (length_fmap N.succ). apply Permutation_length, NoDup_Permutation; [|done|].
  - apply NoDup_fmap_2; [intros ? ?; lia|]. apply NoDup_filter, NoDup_range.
  - intros v. rewrite list_elem_of_fmap. split.
    + intros (i&->&[Hi _]%list_elem_of_filter). by rewrite <- N.add_1_r.
    + intros Hv. pose proof Hv as (j&Hj&Hjv)%elem_of_positions.
      destruct (proj1 Hs j Hj) as (w&Hw&Hb). rewrite Hjv in Hw. injection Hw as <-.
      exists (v - 1). split; [lia|]. apply list_elem_of_filter.
      replace (v - 1 + 1) with v by lia. split; [done|]. apply elem_of_range. lia.
Qed.

Lemma filter_ext_in {A} (P Q : A -> Prop) `{!forall x, Decision (P x), !forall x, Decision (Q x)} (l : list A) :
  (forall x, x ∈ l -> P x <-> Q x) -> filter P l = filter Q l.
Proof using Type.
  induction l as [|x l IH]; intros HPQ; [done|]. rewrite !filter_cons.
  rewrite IH by (intros y Hy; apply HPQ; by right).
  pose proof (HPQ x (list_elem_of_here _ _)). destruct (decide (P x)), (decide (Q x)); tauto.
Qed.

Lemma length_filter_not {A} (P : A -> Prop) `{!forall x, Decision (P x)} (l : list A) :
  (length (filter (fun x => ~ P x) l) + length (filter P l) = length l)%nat.
Proof using Type.
  induction l as [|x l IH]; [done|]. rewrite !filter_cons.
  destruct (decide (P x)), (decide (~ P x)); cbn; try tauto; lia.
Qed.

(** [selected_root_count] counts the roots [root_is_selected] selects. *)
Lemma selected_root_count_spec : postings_ok ->
  selected_root_count self = Ok (len selected_roots).
Proof using Type.
  intros Hok. pose proof Hok as [Hi He Hr].
  assert (Hiff : forall i, i ∈ range 0 (root_count self) ->
    root_is_selected self i = Ok true <-> selected i).
  { intros i Hin%elem_of_range.
    destruct (root_is_selected_spec i Hok) as (b&->&Hb); [lia|]. rewrite <- Hb. naive_solver. }
  unfold selected_root_count, selected_roots, selected in *.
  destruct (is_empty self.(included_root_ids)) eqn:Hempty; cbn [negb].
  - assert (Hf : filter (fun i => root_is_selected self i = Ok true) (range 0 (root_count self)) =
                 filter (fun i => i + 1 ∉ positions false) (range 0 (root_count self))).
    { apply filter_ext_in. intros i Hin. by rewrite Hiff, elem_of_positions. }
    rewrite Hf. pose proof (length_listed_roots false He) as Hl.
    pose proof (length_filter_not (fun i => i + 1 ∈ positions false) (range 0 (root_count self))) as Hn.
    rewrite length_range, N.sub_0_r in Hn. rewrite Hl in Hn.
    change (len (excluded_root_ids self) / 4) with (posting_count false).
    unfold checked_sub. destruct (N.leb_spec (posting_count false) (root_count self)); [|lia].
    cbn [ok_or]. f_equal. unfold len. revert Hn.
    generalize (length (filter (fun i => i + 1 ∉ positions false) (range 0 (root_count self)))). lia.
  - assert (Hf : filter (fun i => root_is_selected self i = Ok true) (range 0 (root_count self)) =
                 filter (fun i => i + 1 ∈ positions true) (range 0 (root_count self))).
    { apply filter_ext_in. intros i Hin. by rewrite Hiff, elem_of_positions. }
    rewrite Hf. f_equal. unfold len at 2. by rewrite (length_listed_roots true Hi), N2Nat.id.
Qed.
End selection.

Section reach.
Context (self : DirectColumns) (resident_self : resident self) (wf : well_formed self).

(** ** The reference relation *)

Definition field_refers (i c : usize) : Prop :=
  (field_kind self i = Ok COMPONENT_NODE /\ field_node self i = Ok c) \/
  exists kind start length j,
    field_kind self i = Ok kind /\ kind ∈ [COMPONENT_SET; COMPONENT_SEQUENCE] /\
    field_value self i = Ok start /\ field_length self i = Ok length /\
    start <= j < start + length /\
    map_ok u8_of_byte (index self.(item_kinds) j) = Ok COMPONENT_NODE /\ item_node self j = Ok c.

Definition refers (n c : usize) : Prop :=
  exists start end_ i, field_range self n = Ok (start, end_) /\ start <= i < end_ /\ field_refers i c.

(** ** Marks and queue *)

Definition marked (r : list bool) (n : usize) : Prop := get r n = Some true.
Definition unmarked (r : list bool) : nat := length (filter (fun b => b = false) r).

Lemma unmarked_insert r i : r !! i = Some false -> (unmarked (<[i := true]> r) + 1)%nat = unmarked r.
Proof using Type.
  unfold unmarked. revert i. induction r as [|b r IH]; intros [|i] H; [done..| |].
  - injection H as ->. change (<[0%nat := true]> (false :: r)) with (true :: r).
    rewrite !filter_cons, decide_False, decide_True by done. cbn [length]. lia.
  - change (<[S i := true]> (b :: r)) with (b :: <[i := true]> r).
    rewrite !filter_cons. specialize (IH i H). destruct (decide (b = false)); cbn [length]; lia.
Qed.

(** [st'] is [st] after the nodes of [C] were queued. *)
Record queued (C : usize -> Prop) (st st' : list usize * list bool) : Prop := {
  q_len : len st'.2 = len st.2;
  q_mark n : marked st'.2 n <-> marked st.2 n \/ C n;
  q_stack n : n ∈ st'.1 <-> n ∈ st.1 \/ (C n /\ ~ marked st.2 n);
  q_count : (length st'.1 + unmarked st'.2 = length st.1 + unmarked st.2)%nat;
}.

#[export] Instance marked_dec r n : Decision (marked r n).
Proof using Type. unfold marked. apply _. Defined.

Lemma queued_none st : queued (fun _ => False) st st.
Proof using Type. split; naive_solver. Qed.

Lemma queued_trans C D a b c : queued C a b -> queued D b c -> queued (fun n => C n \/ D n) a c.
Proof using Type.
  intros H1 H2. split.
  - rewrite (q_len _ _ _ H2). apply H1.
  - intros n. rewrite (q_mark _ _ _ H2), (q_mark _ _ _ H1). tauto.
  - intros n. rewrite (q_stack _ _ _ H2), (q_stack _ _ _ H1), (q_mark _ _ _ H1).
    pose proof (q_mark _ _ _ H1 n). destruct (decide (marked b.2 n)); tauto.
  - rewrite (q_count _ _ _ H2). apply H1.
Qed.

Lemma queued_iff C D a b : (forall n, C n <-> D n) -> queued C a b -> queued D a b.
Proof using Type.
  intros H Hq. split; try apply Hq; intros n; rewrite <- H; apply Hq.
Qed.

Lemma queue_reachable_node_spec st c :
  c < len st.2 -> exists st', queue_reachable_node st c = Ok st' /\ queued (eq c) st st'.
Proof using Type.
  destruct st as [stack r]. cbn [snd]. intros Hc. unfold queue_reachable_node.
  destruct (index_lt r c Hc) as [b Hb]. rewrite Hb. cbn [mbind outcome_bind].
  apply index_Ok in Hb. destruct b.
  - eexists. split; [done|]. split; cbn; try done.
    + intros n. split; [auto|]. by intros [?|<-].
    + intros n. split; [auto|]. intros [?|[<- ?]]; done.
  - destruct (store_lt r c true Hc) as [k Hk]. rewrite Hk. cbn [mbind outcome_bind].
    eexists. split; [done|]. pose proof (store_Ok _ _ _ _ Hk) as (_&Hlen&Hget).
    split; cbn [fst snd length]; [done| | |].
    + intros n. unfold marked. rewrite Hget. destruct (N.eqb_spec n c); naive_solver.
    + intros n. rewrite elem_of_cons. unfold marked. split.
      * intros [->|?]; [right; split; [done|]; by rewrite Hb|by left].
      * intros [?|[<- _]]; auto.
    + unfold store in Hk. destruct (c <? len r); [|done]. injection Hk as <-.
      rewrite get_lookup in Hb. pose proof (unmarked_insert r _ Hb). lia.
Qed.

(** A loop that queues what each element refers to. *)
Lemma queue_loop {A} (f : list usize * list bool -> A -> outcome (list usize * list bool))
    (C : A -> usize -> Prop) n0 l st :
  len st.2 = n0 ->
  (forall st x, x ∈ l -> len st.2 = n0 -> exists st', f st x = Ok st' /\ queued (C x) st st') ->
  exists st', foldM f st l = Ok st' /\ queued (fun n => exists x, x ∈ l /\ C x n) st st'.
Proof using Type.
  revert st. induction l as [|x l IH]; intros st Hst Hf; cbn [foldM].
  { exists st. split; [done|]. eapply queued_iff; [|apply queued_none].
    intros n. split; [done|]. by intros (x&?%elem_of_nil&_). }
  destruct (Hf st x (list_elem_of_here _ _) Hst) as (st1&->&Hq1). cbn [mbind outcome_bind].
  destruct (IH st1) as (st2&->&Hq2); [by rewrite (q_len _ _ _ Hq1)|intros; apply Hf; [by right|done]|].
  exists st2. split; [done|]. eapply queued_iff; [|by eapply queued_trans].
  intros n. cbn. setoid_rewrite elem_of_cons. naive_solver.
Qed.

Definition table_size : usize := node_count self + 1.

Lemma queue_node st c : len st.2 = table_size -> 1 <= c <= node_count self ->
  exists st', queue_reachable_node st c = Ok st' /\ queued (eq c) st st'.
Proof using Type. intros H Hc. apply queue_reachable_node_spec. unfold table_size in H. lia. Qed.

Lemma queue_field_spec st i : i < field_count self -> len st.2 = table_size ->
  exists st', queue_field self st i = Ok st' /\ queued (field_refers i) st st'.
Proof using wf resident_self.
  intros Hi Hst. destruct (wf_field self wf i Hi) as (kind&value&length&Hk&Hv&Hl&Hcase).
  unfold queue_field. rewrite Hk. cbn [mbind outcome_bind].
  destruct (N.eqb_spec kind COMPONENT_NODE) as [->|Hnode].
  - destruct Hcase as [(Hset&_)|Hleaf]; [by vm_compute in Hset; set_solver|].
    destruct Hleaf as [[[=] _]|[(_&->&Hr)|[Hs _]]]; [|by vm_compute in Hs; set_solver].
    assert (Hnode : field_node self i = Ok value).
    { unfold field_node. rewrite Hk. cbn [mbind outcome_bind].
      change (negb (COMPONENT_NODE =? COMPONENT_NODE)) with false. cbn iota.
      rewrite Hl. cbn [mbind outcome_bind N.eqb negb]. rewrite Hv. cbn [mbind outcome_bind].
      by apply checked_node_id_Ok. }
    rewrite Hnode. cbn [mbind outcome_bind].
    destruct (queue_node st value Hst Hr) as (st'&Hq&Hqd). exists st'. split; [done|].
    eapply queued_iff; [|exact Hqd]. intros n. split.
    + intros <-. by left.
    + intros [[_ H]|(k&s&l&j&Hk'&Hin&_)]; [congruence|].
      rewrite Hk in Hk'. injection Hk' as <-. by vm_compute in Hin; set_solver.
  - destruct (contains [COMPONENT_SET; COMPONENT_SEQUENCE] kind) eqn:Hc; cbn [negb].
    + apply contains_true in Hc.
      destruct Hcase as [(_&Hb&Hitems&_)|Hleaf].
      2: { exfalso. destruct Hleaf as [[-> _]|[[-> _]|[Hs _]]]; vm_compute in Hc; [set_solver|done|].
           vm_compute in Hs. set_solver. }
      rewrite Hv. cbn [mbind outcome_bind]. rewrite Hl. cbn [mbind outcome_bind].
      pose proof (resident_item_kinds _ resident_self) as Hsz. unfold sized, item_count in *.
      rewrite (wrapping_add_small value length) by (unfold item_count in *; lia).
      destruct (queue_loop (fun st j =>
          k ← index self.(item_kinds) j;
          if u8_of_byte k =? COMPONENT_NODE then
            child ← item_node self j; queue_reachable_node st child
          else Ok st)
        (fun j c => map_ok u8_of_byte (index self.(item_kinds) j) = Ok COMPONENT_NODE /\
                    item_node self j = Ok c) table_size (range value (value + length)) st Hst)
        as (st'&Hf&Hq).
      { intros st1 j Hj%elem_of_range Hst1. destruct (Hitems j Hj) as (ik&iv&il&Hik&Hiv&Hil&Hleaf).
        pose proof Hik as (b&Hb1&->)%map_ok_Ok. rewrite Hb1. cbn [mbind outcome_bind].
        destruct (N.eqb_spec (u8_of_byte b) COMPONENT_NODE) as [E|E].
        - destruct Hleaf as [[E' _]|[(_&->&Hr)|[Hs _]]]; [by rewrite E in E'| |].
          2: { rewrite E in Hs. by vm_compute in Hs; set_solver. }
          assert (Hn : item_node self j = Ok iv).
          { unfold item_node. apply index_Ok in Hb1. rewrite Hb1. cbn [ok_or mbind outcome_bind].
            rewrite E. change (negb (COMPONENT_NODE =? COMPONENT_NODE)) with false. cbn iota.
            rewrite Hil. cbn [mbind outcome_bind N.eqb negb]. rewrite Hiv. cbn [mbind outcome_bind].
            by apply checked_node_id_Ok. }
          rewrite Hn. cbn [mbind outcome_bind].
          destruct (queue_node st1 iv Hst1 Hr) as (st2&H2&Hq2). exists st2. split; [done|].
          eapply queued_iff; [|exact Hq2]. intros n. cbn. rewrite E. split; [by intros <-|].
          by intros [_ [= ->]].
        - exists st1. split; [done|]. eapply queued_iff; [|apply queued_none].
          intros n. cbn. split; [done|]. by intros [[= ?] _]. }
      exists st'. split; [exact Hf|]. eapply queued_iff; [|exact Hq].
      intros n. split.
      * intros (j&Hj%elem_of_range&Hj1&Hj2). right. exists kind, value, length, j. eauto 10.
      * intros [[Hk' _]|(k&s&l&j&Hk'&_&Hs&Hl'&Hj&Hj1&Hj2)]; [congruence|].
        rewrite Hv in Hs. rewrite Hl in Hl'. injection Hs as <-. injection Hl' as <-.
        exists j. split; [by apply elem_of_range|done].
    + exists st. split; [done|]. eapply queued_iff; [|apply queued_none].
      intros n. split; [done|]. apply contains_false in Hc.
      intros [[H _]|(k&s&l&j&Hk'&Hin&_)]; [congruence|]. rewrite Hk in Hk'. by injection Hk' as <-.
Qed.

Lemma field_range_bounds n start end_ :
  field_range self n = Ok (start, end_) -> start <= end_ <= field_count self.
Proof using Type.
  unfold field_range. intros (?&_&H)%bind_Ok. apply bind_Ok in H as (s&_&H).
  apply bind_Ok in H as (e&_&H). destruct (_ && _) eqn:E; [|done]. injection H as <- <-.
  apply andb_true_iff in E as [?%N.leb_le ?%N.leb_le]. done.
Qed.

Lemma queue_fields_spec st n : 1 <= n <= node_count self -> len st.2 = table_size ->
  exists st', queue_fields self st n = Ok st' /\ queued (refers n) st st'.
Proof using wf resident_self.
  intros Hn Hst. destruct (wf_offsets self wf n Hn) as (s&e&Hr). unfold queue_fields.
  rewrite Hr. cbn [mbind outcome_bind].
  destruct (queue_loop (queue_field self) field_refers table_size (range s e) st Hst) as (st'&Hf&Hq).
  { intros st1 i Hi%elem_of_range Hst1. apply queue_field_spec; [|done].
    pose proof (field_range_bounds _ _ _ Hr). lia. }
  exists st'. split; [done|]. eapply queued_iff; [|exact Hq]. intros c. unfold refers. split.
  - intros (i&Hi%elem_of_range&?). by exists s, e, i.
  - intros (s'&e'&i&Hr'&Hi&?). rewrite Hr in Hr'. injection Hr' as <- <-.
    exists i. split; [by apply elem_of_range|done].
Qed.

Lemma refers_bound n c : refers n c -> 1 <= c <= node_count self.
Proof using Type.
  intros (s&e&i&_&_&[[_ H]|(?&?&?&?&_&_&_&_&_&_&H)]); [by eapply field_node_bound|by eapply item_node_bound].
Qed.

(** ** The worklist *)

Instance reach_transparent fuel found st : Transparent (reach self fuel found st).
Proof using Type.
  revert st. induction fuel as [|fuel IH]; intros [[|n stack] r]; cbn [reach]; try apply _.
  solve_transparent.
Qed.

Context (found : usize -> outcome bool).
Context (found_total : forall n, 1 <= n <= node_count self -> exists b, found n = Ok b).
(** The nodes the traversal starts from. *)
Context (starts : usize -> Prop).

Definition reachable_from (n : usize) : Prop := exists s, starts s /\ rtc refers s n.

Record reach_inv (st : list usize * list bool) : Prop := {
  ri_len : len st.2 = table_size;
  ri_stack n : n ∈ st.1 -> marked st.2 n;
  ri_bound n : marked st.2 n -> 1 <= n <= node_count self;
  ri_done n : marked st.2 n -> n ∉ st.1 ->
    found n = Ok false /\ forall c, refers n c -> marked st.2 c;
  ri_reach n : marked st.2 n -> reachable_from n;
  ri_start n : starts n -> marked st.2 n;
}.

Lemma run_reach_step fuel n stack r :
  run (reach self (S fuel) found (n :: stack, r)) =
  (stop ← found n;
   if (stop : bool) then Ok (Return tt) else
   st ← queue_fields self (stack, r) n;
   run (reach self fuel found st)).
Proof using Type.
  cbn [reach]. rewrite run_bind by solve_transparent. rewrite run_check_cancel.
  cbn [mbind outcome_bind]. rewrite run_bind by solve_transparent. rewrite run_lift.
  apply bind_ext. intros [] _; [done|]. rewrite run_bind by solve_transparent. by rewrite run_lift.
Qed.

Lemma reach_inv_step n stack r st' :
  reach_inv (n :: stack, r) -> found n = Ok false -> queued (refers n) (stack, r) st' ->
  reach_inv st'.
Proof using wf resident_self.
  intros I Hf Hq. assert (Hn : marked r n) by (eapply (ri_stack _ I); by left).
  split.
  - rewrite (q_len _ _ _ Hq). apply (ri_len _ I).
  - intros m [Hm|[Hm _]]%(q_stack _ _ _ Hq); apply (q_mark _ _ _ Hq); [left|by right].
    apply (ri_stack _ I). by right.
  - intros m [Hm|Hm]%(q_mark _ _ _ Hq); [by apply (ri_bound _ I)|by eapply refers_bound].
  - intros m Hm Hnot. rewrite (q_stack _ _ _ Hq) in Hnot. cbn in Hnot.
    assert (Hm' : marked r m).
    { apply (q_mark _ _ _ Hq) in Hm as [?|?]; [done|]. destruct (decide (marked r m)); tauto. }
    destruct (N.eq_dec m n) as [->|Hmn].
    + split; [done|]. intros c Hc. apply (q_mark _ _ _ Hq). by right.
    + destruct (ri_done _ I m Hm') as [H1 H2]; [cbn; rewrite elem_of_cons; tauto|].
      split; [done|]. intros c Hc. apply (q_mark _ _ _ Hq). left. by apply H2.
  - intros m [Hm|Hm]%(q_mark _ _ _ Hq); [by apply (ri_reach _ I)|].
    destruct (ri_reach _ I n Hn) as (s&Hs&Hsn). exists s. split; [done|]. by eapply rtc_r.
  - intros m Hm. apply (q_mark _ _ _ Hq). left. by apply (ri_start _ I).
Qed.

Lemma reach_inv_done r : reach_inv ([], r) ->
  len r = table_size /\
  forall n, (marked r n <-> reachable_from n) /\ (reachable_from n -> found n = Ok false).
Proof using Type.
  intros I. split; [apply (ri_len _ I)|].
  assert (Hm : forall n, marked r n <-> reachable_from n).
  { intros n. split; [apply (ri_reach _ I)|]. intros (s&Hs&Hsn).
    pose proof (ri_start _ I s Hs) as Hms. clear Hs. revert Hms.
    induction Hsn as [|s m n Hsm _ IH]; [done|]. intros Hms. apply IH.
    by apply (ri_done _ I s Hms (not_elem_of_nil s)). }
  intros n. split; [done|]. intros Hn%Hm. by apply (ri_done _ I n Hn), not_elem_of_nil.
Qed.

(** The marks left are the reachable nodes; an early exit found one of them. *)
Lemma reach_correct fuel st :
  reach_inv st -> (length st.1 + unmarked st.2 <= fuel)%nat ->
  exists c, run (reach self fuel found st) = Ok c /\
    match c with
    | Continue r => len r = table_size /\
        forall n, (marked r n <-> reachable_from n) /\ (reachable_from n -> found n = Ok false)
    | Return _ => exists n, reachable_from n /\ found n = Ok true
    end.
Proof using wf resident_self found_total.
  revert st. induction fuel as [|fuel IH]; intros [[|n stack] r] I Hfuel.
  1, 3: exists (Continue r); split; [done|by apply reach_inv_done].
  { cbn in Hfuel. lia. }
  rewrite run_reach_step.
  assert (Hn : marked r n) by (eapply (ri_stack _ I); by left).
  destruct (found_total n (ri_bound _ I n Hn)) as [[] Hf]; rewrite Hf; cbn [mbind outcome_bind].
  - exists (Return tt). split; [done|]. exists n. split; [by apply (ri_reach _ I)|done].
  - destruct (queue_fields_spec (stack, r) n (ri_bound _ I n Hn) (ri_len _ I)) as (st'&->&Hq).
    cbn [mbind outcome_bind]. apply IH; [by eapply reach_inv_step|].
    rewrite (q_count _ _ _ Hq). cbn in *. lia.
Qed.
End reach.

(** ** The three passes *)

Section passes.
Context (self : DirectColumns) (resident_self : resident self) (wf : well_formed self).
Context (room : node_count self < usize_max).

Lemma unmarked_replicate n : unmarked (replicate n false) = n.
Proof using Type.
  unfold unmarked. induction n as [|n IH]; [done|]. cbn [replicate].
  rewrite filter_cons, decide_True by done. cbn [length]. by rewrite IH.
Qed.

Lemma not_marked_replicate m n : ~ marked (replicate m false) n.
Proof using Type. unfold marked. rewrite get_lookup. by intros [? _]%lookup_replicate. Qed.

Lemma reachable_table_Ok :
  reachable_table self = Ok (replicate (N.to_nat (table_size self)) false).
Proof using room.
  unfold reachable_table, table_size.
  destruct (checked_add (node_count self) 1) as [l|] eqn:E.
  - by apply checked_add_Some in E as [-> _].
  - apply checked_add_None in E. lia.
Qed.

(** The state after queuing the start nodes into an empty table. *)
Lemma reach_inv_initial found (starts : usize -> Prop) st :
  (forall n, starts n -> 1 <= n <= node_count self) ->
  queued starts ([], replicate (N.to_nat (table_size self)) false) st ->
  reach_inv self found starts st /\ (length st.1 + unmarked st.2 <= reach_fuel self)%nat.
Proof using Type.
  clear room.
  intros Hs Hq. split.
  - split.
    + rewrite (q_len _ _ _ Hq). cbn. unfold len. rewrite length_replicate. lia.
    + intros n [?%elem_of_nil|[? _]]%(q_stack _ _ _ Hq); [done|]. apply (q_mark _ _ _ Hq). by right.
    + intros n [?%not_marked_replicate|?]%(q_mark _ _ _ Hq); [done|auto].
    + intros n [?%not_marked_replicate|?]%(q_mark _ _ _ Hq) Hn; [done|]. exfalso. apply Hn.
      apply (q_stack _ _ _ Hq). right. split; [done|apply not_marked_replicate].
    + intros n [?%not_marked_replicate|?]%(q_mark _ _ _ Hq); [done|]. exists n. split; [done|apply rtc_refl].
    + intros n Hn. apply (q_mark _ _ _ Hq). by right.
  - rewrite (q_count _ _ _ Hq). cbn [fst snd length]. rewrite unmarked_replicate.
    unfold reach_fuel, table_size. lia.
Qed.

Definition is_anonymous (n : usize) : Prop := node_tag self n = Ok TAG_ANONYMOUS_INDIVIDUAL.

(** On validated columns [root_contains_anonymous_individual] answers, and
    answers [true] exactly when the root reaches an anonymous individual. *)
Lemma root_contains_anonymous_individual_spec root :
  1 <= root <= node_count self ->
  exists b, run (root_contains_anonymous_individual self root) = Ok b /\
    (b = true <-> exists n, rtc (refers self) root n /\ is_anonymous n).
Proof using resident_self wf room.
  intros Hroot. unfold root_contains_anonymous_individual.
  pose proof (reach_transparent self) as Htr. run_steps. rewrite reachable_table_Ok. run_steps.
  destruct (queue_node self ([], replicate (N.to_nat (table_size self)) false) root) as (st&->&Hq).
  { cbn. unfold len. rewrite length_replicate. lia. }
  { done. }
  run_steps.
  set (found := fun node_id => tag ← node_tag self node_id; Ok (tag =? TAG_ANONYMOUS_INDIVIDUAL)).
  assert (Htotal : forall n, 1 <= n <= node_count self -> exists b, found n = Ok b).
  { intros n Hn. unfold found. destruct (node_tag_total self n (resident_tags _ resident_self) Hn) as [t ->].
    cbn. eauto. }
  destruct (reach_inv_initial found (eq root) st) as [I Hfuel]; [by intros n <-|done|].
  destruct (reach_correct self resident_self wf found Htotal (eq root) _ st I Hfuel) as (c&->&Hc).
  cbn [mbind outcome_bind]. rewrite run_ret.
  assert (Hfound : forall n b, found n = Ok b -> b = true <-> is_anonymous n).
  { intros n b. unfold found, is_anonymous. intros (t&->&[= <-])%bind_Ok. rewrite N.eqb_eq.
    split; [by intros ->|by intros [= ->]]. }
  destruct c as [r|[]].
  - exists false. split; [done|]. split; [done|]. intros (n&Hn&Ha). destruct Hc as [_ Hc].
    destruct (Hc n) as [_ Hf]. by apply (Hfound n false) in Ha; [|apply Hf; exists root].
  - exists true. split; [done|]. split; [|done]. intros _. destruct Hc as (n&(s&<-&Hn)&Hf).
    exists n. split; [done|]. by apply (Hfound n true).
Qed.
End passes.
