(* ===== verification/Validated.v ===== *)
(** * The validated columns

    [Validated] is what [prepare_direct] knows of its columns once
    [validate_generic] has accepted them.  The passes after it are specified
    against this interface; the theorems here discharge it. *)

From stdpp Require Import relations.
From S2P Require Import Prelude Errors Tags Text Readers Columns Nodes Generic Safety Graphs Search.
From S2P Require Import Cycles Structure Reach Samples.
Local Open Scope string_scope.
Local Open Scope list_scope.
Local Open Scope N_scope.

Class Validated (self : DirectColumns) : Prop := {
  validated_resident : resident self;
  validated_accepted : run (validate_generic self) = Ok tt;
}.

(** ** What acceptance promises *)

Section validated.
Context (self : DirectColumns) {V : Validated self}.

Lemma validated_well_formed : well_formed self.
Proof using V. by apply validate_generic_Ok; [apply validated_resident|apply validated_accepted]. Qed.

Lemma validated_node_room : node_count self < usize_max.
Proof using V.
  pose proof (resident_tags _ validated_resident) as H. unfold sized, node_count in *.
  assert (len (node_tags self) / 2 <= usize_max / 2) by (apply N.Div0.div_le_mono; done).
  assert (usize_max / 2 < usize_max) by (vm_compute; reflexivity). lia.
Qed.

Lemma validated_root_room : root_count self < usize_max.
Proof using V.
  pose proof validated_accepted as H. rewrite run_validate_generic in H.
  apply bind_Ok in H as ([]&_&H). apply bind_Ok in H as ([]&_&H). apply bind_Ok in H as ([]&Hr&_).
  unfold validate_root_lengths in Hr.
  destruct (N.eqb_spec (len (root_ids self) / 4) (root_count self)) as [<-|]; cbn [negb] in Hr; [|done].
  pose proof (resident_root_ids _ validated_resident) as Hs. unfold sized in Hs.
  assert (len (root_ids self) / 4 <= usize_max / 4) by (apply N.Div0.div_le_mono; done).
  assert (usize_max / 4 < usize_max) by (vm_compute; reflexivity). lia.
Qed.

Lemma validated_postings : postings_ok self.
Proof using V.
  destruct (validate_generic_Ok self validated_resident validated_accepted) as (_&Hi&He&_).
  split; [exact Hi|exact He|apply validated_root_room].
Qed.
End validated.

(** C2: On columns resident in memory, acceptance by [validate_generic]
    establishes the whole contract of the later passes: offsets, fields, items,
    scalars and roots can be read in their ranges, canonical sets and roots are
    strictly sorted, fields abut and cover the field column, the include and
    exclude postings are sorted lists of root positions, and at most one of the
    two is present. *)
Theorem validate_generic_establishes self :
  resident self -> run (validate_generic self) = Ok tt ->
  well_formed self /\ postings_ok self /\
  (self.(included_root_ids) = [] \/ self.(excluded_root_ids) = []).
Proof.
  intros Hr Ha. assert (V : Validated self) by (by split).
  split; [apply (validated_well_formed self)|]. split; [apply (validated_postings self)|].
  by apply (validate_generic_Ok self Hr Ha).
Qed.

(** C33: [validate_generic] is total on hostile columns: whatever the bytes and
    whatever a concurrent [cancel] does, it returns success or an error and
    never panics; a call nobody cancels gives the same verdict. *)
Theorem validate_generic_returns self obs :
  resident self ->
  safe (fst (validate_generic self obs 0%nat)) /\
  (fst (validate_generic self obs 0%nat) = Err Cancelled \/
   fst (validate_generic self obs 0%nat) = run (validate_generic self)).
Proof.
  intros Hr. pose proof (validate_generic_transparent self) as Ht.
  pose proof (@transparent_obs _ _ Ht obs 0%nat) as Hobs. split; [|done].
  destruct Hobs as [->| ->]; [done|by apply validate_generic_safe].
Qed.

(** C32: The binary search of [root_is_selected] answers for every root of
    validated columns, and decides membership in the selection: listed when
    INCLUDE postings are present, not listed otherwise. *)
Theorem root_is_selected_correct self i :
  Validated self -> i < root_count self ->
  exists b, root_is_selected self i = Ok b /\ (b = true <-> selected self i).
Proof. intros V. apply root_is_selected_spec, (validated_postings self). Qed.

(** [selected_root_count] is the number of roots [root_is_selected]
    selects, for INCLUDE postings, EXCLUDE postings and neither. *)
Theorem selected_root_count_correct self :
  Validated self -> selected_root_count self = Ok (len (selected_roots self)).
Proof. intros V. apply selected_root_count_spec, (validated_postings self). Qed.

(** On validated columns [root_contains_anonymous_individual] answers, and
    answers [true] exactly when the root reaches an anonymous individual
    through node references; a cancelled call reports the cancellation. *)
Theorem root_contains_anonymous_individual_correct self root obs :
  Validated self -> 1 <= root <= node_count self ->
  exists b, run (root_contains_anonymous_individual self root) = Ok b /\
    (b = true <-> exists n, rtc (refers self) root n /\ is_anonymous self n) /\
    (fst (root_contains_anonymous_individual self root obs 0%nat) = Err Cancelled \/
     fst (root_contains_anonymous_individual self root obs 0%nat) = Ok b).
Proof.
  intros V Hroot.
  destruct (root_contains_anonymous_individual_spec self validated_resident
    (validated_well_formed self) (validated_node_room self) root Hroot) as (b&Hb&Hiff).
  exists b. split; [done|]. split; [done|]. rewrite <- Hb.
  pose proof (reach_transparent self) as Htr. apply transparent_obs.
Qed.

(** ** Marking into a shared table

    [mark_root_reachable] adds to the marks of earlier roots. *)

(** The marks of a table are nodes and are closed under references. *)
Record marks_closed (self : DirectColumns) (r : list bool) : Prop := {
  mc_len : len r = table_size self;
  mc_bound n : marked r n -> 1 <= n <= node_count self;
  mc_refers n c : marked r n -> refers self n c -> marked r c;
}.

Lemma marks_closed_rtc self r n c :
  marks_closed self r -> marked r n -> rtc (refers self) n c -> marked r c.
Proof. intros [_ _ Hr] Hn Hc. induction Hc; [done|]. eauto. Qed.

Lemma unmarked_le r : (unmarked r <= length r)%nat.
Proof. unfold unmarked. apply length_filter. Qed.

Lemma mark_root_reachable_spec self root r :
  Validated self -> marks_closed self r -> 1 <= root <= node_count self ->
  exists r', run (mark_root_reachable self root r) = Ok r' /\ marks_closed self r' /\
    forall n, marked r' n <-> marked r n \/ rtc (refers self) root n.
Proof.
  intros V Hr Hroot. unfold mark_root_reachable.
  pose proof (reach_transparent self) as Htr. run_steps.
  pose proof (validated_node_room self) as Hroom.
  rewrite (proj2 (checked_add_Some (node_count self) 1 (node_count self + 1)) ltac:(lia)).
  cbn [ok_or mbind outcome_bind]. rewrite (mc_len _ _ Hr). unfold table_size at 1.
  rewrite N.eqb_refl. cbn [negb]. run_steps.
  destruct (queue_node self ([], r) root (mc_len _ _ Hr) Hroot) as (st&->&Hq). run_steps.
  assert (I : reach_inv self never (fun n => marked r n \/ n = root) st).
  { split.
    - rewrite (q_len _ _ _ Hq). apply (mc_len _ _ Hr).
    - intros n [?%elem_of_nil|[-> _]]%(q_stack _ _ _ Hq); [done|]. apply (q_mark _ _ _ Hq). by right.
    - intros n [?| <-]%(q_mark _ _ _ Hq); [by apply (mc_bound _ _ Hr)|done].
    - intros n Hn Hs. rewrite (q_stack _ _ _ Hq) in Hs. rewrite (q_mark _ _ _ Hq) in Hn.
      assert (Hm : marked r n).
      { destruct Hn as [?| <-]; [done|]. destruct (decide (marked r root)); [done|].
        exfalso. apply Hs. by right. }
      split; [done|]. intros c Hc. apply (q_mark _ _ _ Hq). left. by eapply (mc_refers _ _ Hr).
    - intros n [?| <-]%(q_mark _ _ _ Hq); [exists n|exists root]; (split; [tauto|apply rtc_refl]).
    - intros n [?| ->]; apply (q_mark _ _ _ Hq); [by left|by right]. }
  destruct (reach_correct self validated_resident (validated_well_formed self) never
    ltac:(intros; by exists false) _ (reach_fuel self) st I) as (c&->&Hc).
  { rewrite (q_count _ _ _ Hq). cbn [fst snd length]. pose proof (unmarked_le r).
    pose proof (mc_len _ _ Hr) as Hl. unfold len, table_size, reach_fuel in *. lia. }
  cbn [mbind outcome_bind]. rewrite run_ret.
  destruct c as [r'|[]]; [|by destruct Hc as (?&_&?)]. destruct Hc as [Hlen Hc].
  assert (Hm : forall n, marked r' n <-> marked r n \/ rtc (refers self) root n).
  { intros n. rewrite (proj1 (Hc n)). split.
    - intros (s&[Hs| ->]&Hn); [left; by eapply marks_closed_rtc|by right].
    - intros [Hn|Hn]; [exists n|exists root]; eauto using rtc_refl. }
  exists r'. split; [done|]. split; [|done]. split; [done| |].
  - intros n [Hn|Hn]%Hm; [by apply (mc_bound _ _ Hr)|].
    apply rtc_inv_r in Hn as [ <- |(m&_&Hmn)]; [done|by eapply refers_bound].
  - intros n c Hn Hnc. apply Hm. apply Hm in Hn as [Hn|Hn].
    + left. by eapply (mc_refers _ _ Hr).
    + right. by eapply rtc_r.
Qed.

(** C27: Marking a root into a shared table of closed marks adds exactly the
    nodes the root reaches and keeps the table closed, so marking the roots of
    a selection one after another marks their union. *)
Theorem mark_root_reachable_correct self root r :
  Validated self -> marks_closed self r -> 1 <= root <= node_count self ->
  exists r', run (mark_root_reachable self root r) = Ok r' /\ marks_closed self r' /\
    forall n, marked r' n <-> marked r n \/ rtc (refers self) root n.
Proof. apply mark_root_reachable_spec. Qed.

(** ** Closed instances *)

Lemma resident_of_small self :
  forallb (fun b => len b <=? usize_max)
    (self.(included_root_ids) :: self.(excluded_root_ids) :: buffers self) = true -> resident self.
Proof.
  cbn. rewrite !andb_true_iff, !N.leb_le. intros H. split; unfold sized; tauto.
Qed.

Lemma sample_validated : Validated sample.
Proof. split; [apply resident_of_small; by vm_compute|by vm_compute]. Qed.

Lemma excluding_sample_validated : Validated excluding_sample.
Proof. split; [apply resident_of_small; by vm_compute|by vm_compute]. Qed.

Lemma no_marks_closed self : marks_closed self (replicate (N.to_nat (table_size self)) false).
Proof.
  split.
  - unfold len. rewrite length_replicate. lia.
  - intros n H. by apply not_marked_replicate in H.
  - intros n c H. by apply not_marked_replicate in H.
Qed.

Lemma validate_generic_establishes_witness :
  resident sample /\ run (validate_generic sample) = Ok tt /\ well_formed sample.
Proof.
  split; [apply (@validated_resident _ sample_validated)|]. split; [by vm_compute|].
  apply (validate_generic_establishes sample); [apply (@validated_resident _ sample_validated)|by vm_compute].
Defined.

Lemma validate_generic_returns_witness :
  resident sample /\
  safe (fst (validate_generic sample (fun _ => STATE_CANCELLED) 0%nat)).
Proof.
  split; [apply (@validated_resident _ sample_validated)|].
  exact (proj1 (validate_generic_returns sample (fun _ => STATE_CANCELLED) (@validated_resident _ sample_validated))).
Defined.

Lemma root_is_selected_correct_witness :
  1 < root_count excluding_sample /\ root_is_selected excluding_sample 1 = Ok false /\
  exists b, root_is_selected excluding_sample 1 = Ok b /\ (b = true <-> selected excluding_sample 1).
Proof.
  split; [by vm_compute|]. split; [by vm_compute|].
  apply (root_is_selected_correct excluding_sample 1); [apply excluding_sample_validated|by vm_compute].
Defined.

Lemma selected_root_count_correct_witness :
  selected_root_count excluding_sample = Ok 2 /\
  selected_root_count excluding_sample = Ok (len (selected_roots excluding_sample)).
Proof.
  split; [by vm_compute|]. apply (selected_root_count_correct excluding_sample excluding_sample_validated).
Defined.

Lemma root_contains_anonymous_individual_correct_witness :
  1 <= 14 <= node_count sample /\
  exists b, run (root_contains_anonymous_individual sample 14) = Ok b /\
    (b = true <-> exists n, rtc (refers sample) 14 n /\ is_anonymous sample n) /\
    (fst (root_contains_anonymous_individual sample 14 quiet 0%nat) = Err Cancelled \/
     fst (root_contains_anonymous_individual sample 14 quiet 0%nat) = Ok b).
Proof.
  split; [by vm_compute|].
  apply (root_contains_anonymous_individual_correct sample 14 quiet); [apply sample_validated|by vm_compute].
Defined.

Lemma mark_root_reachable_correct_witness :
  let none := replicate (N.to_nat (table_size sample)) false in
  1 <= 14 <= node_count sample /\ marks_closed sample none /\
  exists r, run (mark_root_reachable sample 14 none) = Ok r /\ marks_closed sample r /\
    forall n, marked r n <-> marked none n \/ rtc (refers sample) 14 n.
Proof.
  cbn zeta. split; [by vm_compute|]. split; [apply no_marks_closed|].
  apply (mark_root_reachable_correct sample 14); [apply sample_validated|apply no_marks_closed|by vm_compute].
Defined.
