(* ===== verification/Scopes.v ===== *)
(** * Anonymous-scope maps

    [remap_anonymous_scope] follows a chain of scope maps, each a sorted table
    of 64-byte rows searched by its first 32 bytes.  On validated columns the
    chain is the composition of the maps' lookup functions. *)

From S2P Require Import Prelude Errors Tags Text Readers Columns Nodes Generic Safety Graphs Search.
From S2P Require Import Cycles Structure Reach Validated Samples.
Local Open Scope string_scope.
Local Open Scope list_scope.
Local Open Scope N_scope.

(** ** Rows *)

Definition scope_rows (scope_map : bytes) : list bytes := chunks_exact 64 scope_map.
Definition row_source (row : bytes) : bytes := take 32 row.
Definition row_target (row : bytes) : bytes := drop 32 row.

(** Specification: the target of the row whose source is the scope, else the
    scope itself. *)
Definition remap_once (scope_map current : bytes) : bytes :=
  match list_find (fun row => row_source row = current) (scope_rows scope_map) with
  | Some (_, row) => row_target row
  | None => current
  end.

(** Sources strictly increase and no row maps a scope to itself. *)
Definition scope_map_ok (scope_map : bytes) : Prop :=
  (forall i j a b, i < j -> get (scope_rows scope_map) i = Some a ->
     get (scope_rows scope_map) j = Some b -> bytes_cmp (row_source a) (row_source b) = Lt) /\
  (forall row, row ∈ scope_rows scope_map -> row_source row <> row_target row).

Lemma len_scope_rows m : len (scope_rows m) = len m / 64.
Proof.
  unfold scope_rows, chunks_exact. unfold len at 1.
  by rewrite length_fmap, length_range, N.sub_0_r, N2Nat.id.
Qed.

Lemma range_from_lookup a n i : (i < n)%nat -> range_from a n !! i = Some (a + N.of_nat i).
Proof.
  revert a i. induction n as [|n IH]; intros a [|i] H; [lia..|cbn; f_equal; lia|].
  change (range_from a (S n) !! S i) with (range_from (a + 1) n !! i).
  rewrite IH by lia. f_equal. lia.
Qed.

Lemma get_scope_rows m j row : get (scope_rows m) j = Some row <->
  j < len m / 64 /\ row = take 64 (drop (N.to_nat (j * 64)) m).
Proof.
  rewrite get_lookup. unfold scope_rows, chunks_exact. rewrite list_lookup_fmap.
  unfold range. rewrite N.sub_0_r.
  destruct (decide (j < len m / 64)) as [Hj|Hj].
  - rewrite range_from_lookup by lia. cbn. rewrite N2Nat.id, N.add_0_l.
    change (Pos.to_nat 64) with 64%nat. split; [by intros [= <-]|by intros [_ ->]].
  - rewrite lookup_ge_None_2 by (rewrite length_range_from; lia). cbn. naive_solver.
Qed.

(** The reads of the search are the halves of a row. *)
Lemma read_source m j row : sized m -> get (scope_rows m) j = Some row ->
  checked_mul j 64 = Some (j * 64) /\
  get_range m (j * 64) (j * 64 +w 32) = Some (row_source row) /\
  get_range m (j * 64 +w 32) (j * 64 +w 64) = Some (row_target row).
Proof.
  intros Hs [Hj ->]%get_scope_rows. unfold sized in Hs.
  assert (Hend : (j + 1) * 64 <= len m).
  { pose proof (N.Div0.mul_div_le (len m) 64). assert (j + 1 <= len m / 64) as H1 by lia.
    revert H H1. generalize (len m / 64). lia. }
  rewrite !wrapping_add_small by lia. split; [apply checked_mul_Some; lia|]. split.
  - apply get_range_Some. split; [lia|]. split; [lia|].
    unfold row_source. rewrite take_take. do 2 f_equal. lia.
  - apply get_range_Some. split; [lia|]. split; [lia|]. unfold row_target.
    rewrite skipn_firstn_comm, skipn_skipn. f_equal; [lia|]. f_equal. lia.
Qed.

(** ** The search *)

Section search.
Context (m : bytes) (Hm : sized m) (ok : scope_map_ok m) (current : bytes).

Lemma remap_once_found j row : get (scope_rows m) j = Some row -> row_source row = current ->
  remap_once m current = row_target row.
Proof using ok.
  intros Hj Hr. unfold remap_once. destruct (list_find _ _) as [[i r]|] eqn:E.
  - apply list_find_Some in E as (Hi&Hs&_). destruct ok as [Hlt _].
    assert (Hi' : get (scope_rows m) (N.of_nat i) = Some r) by (by rewrite get_lookup, Nat2N.id).
    destruct (N.lt_trichotomy (N.of_nat i) j) as [H|[H|H]].
    + pose proof (Hlt _ _ _ _ H Hi' Hj) as Hc. by rewrite Hs, Hr, (cmp_refl bytes_cmp) in Hc.
    + congruence.
    + pose proof (Hlt _ _ _ _ H Hj Hi') as Hc. by rewrite Hs, Hr, (cmp_refl bytes_cmp) in Hc.
  - apply list_find_None in E. rewrite Forall_forall in E. exfalso.
    apply (E row); [by eapply get_elem_of|done].
Qed.

Lemma remap_once_absent :
  (forall j row, get (scope_rows m) j = Some row -> row_source row <> current) ->
  remap_once m current = current.
Proof using Type.
  intros H. unfold remap_once. destruct (list_find _ _) as [[i r]|] eqn:E; [|done].
  apply list_find_Some in E as (Hi&Hs&_). exfalso. apply (H (N.of_nat i) r); [|done].
  by rewrite get_lookup, Nat2N.id.
Qed.

Lemma scope_map_search_correct fuel start end_ :
  start <= end_ <= len (scope_rows m) -> (N.to_nat (end_ - start) <= fuel)%nat ->
  (forall j row, j < start -> get (scope_rows m) j = Some row -> bytes_cmp (row_source row) current = Lt) ->
  (forall j row, end_ <= j -> get (scope_rows m) j = Some row -> bytes_cmp (row_source row) current = Gt) ->
  exists found, scope_map_search fuel m current start end_ = Ok found /\
    default current found = remap_once m current.
Proof using Hm ok.
  revert start end_. induction fuel as [|fuel IH]; intros start end_ Hb Hf Hlo Hhi;
    cbn [scope_map_search]; destruct (N.ltb_spec start end_) as [Hse|Hse]; cbn [negb]; try lia.
  1, 3: exists None; split; [done|]; cbn; symmetry; apply remap_once_absent; intros j row Hj Hs;
    (destruct (N.lt_ge_cases j start) as [H|H]; [pose proof (Hlo j row H Hj) as Hc
      |pose proof (Hhi j row ltac:(lia) Hj) as Hc]); rewrite Hs, (cmp_refl bytes_cmp) in Hc; done.
  cbn zeta. pose proof (middle_bounds _ _ Hse) as Hmid. revert Hmid.
  generalize (start + (end_ - start) / 2). intros mid Hmid.
  destruct (get_lt_Some (scope_rows m) mid) as [row Hrow]; [lia|].
  destruct (read_source m mid row Hm Hrow) as (->&Hs&Ht). cbn [ok_or mbind outcome_bind].
  rewrite Hs. cbn [ok_or mbind outcome_bind]. destruct ok as [Hlt _].
  destruct (bytes_cmp (row_source row) current) eqn:E.
  - rewrite Ht. cbn [ok_or mbind outcome_bind]. eexists. split; [done|]. cbn. symmetry.
    eapply remap_once_found; [done|]. by apply (cmp_eq bytes_cmp).
  - apply IH; [lia|lia| |done]. intros j r Hj Hr.
    destruct (N.lt_trichotomy j mid) as [H|[->|H]]; [|congruence|lia].
    eapply (cmp_lt_trans bytes_cmp); [exact (Hlt _ _ _ _ H Hr Hrow)|done].
  - apply IH; [lia|lia|done|]. intros j r Hj Hr.
    destruct (N.lt_trichotomy j mid) as [H|[->|H]]; [lia|congruence|].
    apply (cmp_gt_lt bytes_cmp). apply (cmp_gt_lt bytes_cmp) in E.
    eapply (cmp_lt_trans bytes_cmp); [exact E|exact (Hlt _ _ _ _ H Hrow Hr)].
Qed.
End search.

(** ** What validation promises of the chain *)

Definition source_lt (a b : bytes) : Prop := bytes_cmp (row_source a) (row_source b) = Lt.

Lemma validate_rows_Ok rows st st' :
  run (foldM validate_scope_map_row st rows) = Ok st' ->
  StronglySorted source_lt rows /\ Forall (fun row => row_source row <> row_target row) rows /\
  match st.1 with
  | Some previous => Forall (fun row => bytes_cmp previous (row_source row) = Lt) rows
  | None => True
  end.
Proof.
  rewrite run_foldM by (intros [? ?] ?; unfold validate_scope_map_row; solve_transparent).
  revert st. induction rows as [|row rows IH]; intros [previous n] H; cbn [foldM] in H.
  { split; [constructor|]. split; [constructor|]. by destruct previous; cbn. }
  apply bind_Ok in H as (st1&H1&H). destruct (IH _ H) as (Hs&Hne&Hall).
  unfold validate_scope_map_row in H1. revert H1. run_steps. intros (n'&_&H1)%bind_Ok.
  fold (row_source row) (row_target row) in H1. cbn zeta in H1.
  destruct (bool_decide_reflect (row_source row = row_target row)) as [|Hrow]; [done|].
  destruct (match previous with Some p => negb (is_lt (bytes_cmp p (row_source row))) | None => false end)
    eqn:Hp; [done|].
  injection H1 as <-. cbn [fst] in Hall.
  split; [by constructor|]. split; [by constructor|]. destruct previous as [p|]; cbn [fst]; [|done].
  apply negb_false_iff, is_lt_true in Hp. constructor; [done|].
  eapply Forall_impl; [exact Hall|]. intros r Hr. by eapply (cmp_lt_trans bytes_cmp).
Qed.

Lemma validate_scope_maps_Ok self : run (validate_scope_maps self) = Ok tt ->
  forall i, i < scope_map_count self -> exists m, scope_map_at self i = Some m /\ scope_map_ok m.
Proof.
  intros H i Hi. unfold validate_scope_maps in H. revert H.
  assert (Ht : forall st row, Transparent (validate_scope_map_row st row))
    by (intros [? ?] ?; unfold validate_scope_map_row; solve_transparent).
  rewrite run_bind by solve_transparent. intros (st&H&_)%bind_Ok. revert H.
  rewrite run_foldM by solve_transparent. assert (Hin : i ∈ range 0 (scope_map_count self))
    by (apply elem_of_range; lia). revert Hin. generalize 0 at 2.
  induction (range 0 (scope_map_count self)) as [|j l IH]; intros n Hin H; [by apply elem_of_nil in Hin|].
  cbn [foldM] in H. apply bind_Ok in H as (n'&Hj&H).
  apply elem_of_cons in Hin as [->|Hin]; [|by apply (IH n')]. clear IH H.
  revert Hj. run_steps. intros (m&Hm&Hr)%bind_Ok. apply ok_or_Ok in Hm. exists m. split; [done|].
  revert Hr. run_steps. intros ([p c]&Hr&_)%bind_Ok.
  apply validate_rows_Ok in Hr as (Hs&Hne&_). split; [|by apply Forall_forall].
  intros a b ra rb. exact (StronglySorted_get source_lt _ a b ra rb Hs).
Qed.

Lemma validated_scope_maps self : Validated self ->
  forall i, i < scope_map_count self -> exists m, scope_map_at self i = Some m /\ scope_map_ok m.
Proof.
  intros V. apply validate_scope_maps_Ok. pose proof (validated_accepted (self := self)) as H.
  rewrite run_validate_generic in H. apply bind_Ok in H as ([]&_&H). apply bind_Ok in H as ([]&_&H).
  apply bind_Ok in H as ([]&_&H). by apply bind_Ok in H as ([]&?&_).
Qed.

(** ** Theorems *)

(** The maps of the chain, in order. *)
Definition scope_maps (self : DirectColumns) : list bytes :=
  omap (scope_map_at self) (range 0 (scope_map_count self)).

(** C28: On validated columns, remapping an anonymous scope composes the lookups
    of the chain's maps in order: each binary search finds the row of its
    scope exactly when there is one, and an unlisted scope is kept. *)
Theorem remap_anonymous_scope_correct self scope :
  Validated self -> (forall i m, scope_map_at self i = Some m -> sized m) ->
  remap_anonymous_scope self scope =
  Ok (fold_left (fun current m => remap_once m current) (scope_maps self) scope).
Proof.
  intros V Hsized. unfold remap_anonymous_scope, scope_maps.
  pose proof (validated_scope_maps self V) as Hok.
  assert (Hall : forall i, i ∈ range 0 (scope_map_count self) -> i < scope_map_count self)
    by (intros i ?%elem_of_range; lia). revert Hall scope.
  induction (range 0 (scope_map_count self)) as [|i l IH]; intros Hall scope; [done|].
  destruct (Hok i (Hall i (list_elem_of_here _ _))) as (m&Hm&Hmok).
  cbn [foldM omap list_omap]. rewrite Hm. cbn [ok_or mbind outcome_bind fold_left].
  rewrite <- len_scope_rows.
  destruct (scope_map_search_correct m (Hsized i m Hm) Hmok scope (N.to_nat (len (scope_rows m))) 0
    (len (scope_rows m))) as (found&->&Hf).
  - lia.
  - lia.
  - intros j row Hj. lia.
  - intros j row Hj Hr. apply get_Some_lt in Hr. lia.
  - cbn [mbind outcome_bind]. rewrite Hf. apply IH. intros j Hj. apply Hall. by right.
Qed.

(** ** Closed instance *)

(** [sample] with the scope of its individual renamed through two maps. *)
Definition remapping_sample : DirectColumns :=
  with_anonymous_scope_map_chain sample (RetainedAnonymousScopeMaps
    [ replicate 32 (byte_of_u8 3) ++ replicate 32 (byte_of_u8 1) ++
      replicate 32 (byte_of_u8 7) ++ replicate 32 (byte_of_u8 5);
      replicate 32 (byte_of_u8 5) ++ replicate 32 (byte_of_u8 9) ]).

Lemma remapping_sample_validated : Validated remapping_sample.
Proof. split; [apply resident_of_small; by vm_compute|by vm_compute]. Qed.

Lemma remap_anonymous_scope_correct_witness :
  remap_anonymous_scope remapping_sample (replicate 32 (byte_of_u8 7)) =
    Ok (replicate 32 (byte_of_u8 9)) /\
  remap_anonymous_scope remapping_sample (replicate 32 (byte_of_u8 7)) =
  Ok (fold_left (fun current m => remap_once m current) (scope_maps remapping_sample)
        (replicate 32 (byte_of_u8 7))).
Proof.
  split; [by vm_compute|].
  apply (remap_anonymous_scope_correct remapping_sample); [apply remapping_sample_validated|].
  intros i m H. cbn in H. apply get_elem_of in H.
  repeat (apply elem_of_cons in H as [->|H]; [by vm_compute|]). by apply elem_of_nil in H.
Defined.
