(* ===== verification/Anonymous.v ===== *)
(** * Anonymous individuals

    The identifiers of anonymous individuals: [axiom_anonymous_ids] collects
    the anonymous individuals the selected axioms reach, in canonical order,
    and [AnonymousIds::render] names each by its position. *)

From Stdlib Require Import Sorting.Sorted.
From stdpp Require Import relations.
From S2P Require Import Prelude Lists Errors Tags Text Rendering Readers Columns Nodes Generic Safety.
From S2P Require Import Graphs Search Cycles Structure Reach Validated Samples.
Local Open Scope string_scope.
Local Open Scope list_scope.
Local Open Scope N_scope.

(** [node_ids.binary_search(&x)]. *)
Definition binary_search (l : list N) (x : N) : option usize :=
  match binary_search_by (fun y => y ?= x) l with inl i => Some i | inr _ => None end.

(** [AnonymousIds::render]. *)
Definition render (self : AnonymousIds) (node_id : usize) : outcome text :=
  local_position ← ok_or (binary_search self.(node_ids) node_id)
    (malformed "encoded anonymous individual lost its axiom-derived identifier");
  position ← match self.(global_positions), self.(single_position) with
    | Some positions, None =>
        ok_or (get positions local_position)
          (malformed "encoded anonymous individual lost its global identifier position")
    | Some _, Some _ =>
        Err (malformed "encoded anonymous identifier has conflicting position plans")
    | None, Some position =>
        if len self.(node_ids) =? 1 then Ok position else
        Err (malformed "encoded anonymous identifier override requires exactly one individual")
    | None, None => Ok local_position
    end;
  render_anonymous_identifier position.

(** ** The bisection *)

Definition ascending (l : list N) : Prop :=
  forall i j a b, i < j -> get l i = Some a -> get l j = Some b -> a < b.

Lemma ascending_bisected l x : ascending l -> bisected (fun y => y ?= x) l.
Proof. intros Hs i j a b Hij Ha Hb Hax. pose proof (Hs _ _ _ _ Hij Ha Hb). rewrite N.compare_gt_iff.
  rewrite N.compare_lt_iff in Hax. lia. Qed.

Lemma binary_search_Some l x i :
  ascending l -> binary_search l x = Some i <-> get l i = Some x.
Proof.
  intros Hs%(fun H => ascending_bisected l x H). unfold binary_search. split.
  - intros H. pose proof (binary_search_by_spec _ l Hs) as E.
    destruct (binary_search_by _ l) as [k|k]; [|done]. injection H as ->.
    destruct E as (y&Hy& ->%N.compare_eq_iff). done.
  - intros H. rewrite (binary_search_by_found _ _ i x Hs H); [done|apply N.compare_refl].
Qed.

Lemma binary_search_None l x : ascending l -> binary_search l x = None <-> x ∉ l.
Proof.
  intros Hs. destruct (binary_search l x) as [i|] eqn:E; split; try done.
  - apply (binary_search_Some l x i Hs), get_elem_of in E. done.
  - intros _ Hx. destruct (elem_of_get l x Hx) as [i Hi].
    apply (binary_search_Some l x i Hs) in Hi. congruence.
Qed.

(** ** Identifiers *)

Lemma str_inj a b : str a = str b -> a = b.
Proof.
  unfold str. intros H. rewrite <- (String.string_of_list_byte_of_string a), H.
  apply String.string_of_list_byte_of_string.
Qed.

Lemma render_anonymous_identifier_Ok position t :
  render_anonymous_identifier position = Ok t <->
  2147483648 + position <= usize_max /\ t = str "_:genid" ++ str (pretty (2147483648 + position)).
Proof.
  unfold render_anonymous_identifier.
  destruct (checked_add 2147483648 position) as [n|] eqn:E; cbn.
  - apply checked_add_Some in E as [-> H]. split; [by intros [= <-]|by intros [_ ->]].
  - apply checked_add_None in E. split; [done|lia].
Qed.

Lemma render_anonymous_identifier_inj p q t :
  render_anonymous_identifier p = Ok t -> render_anonymous_identifier q = Ok t -> p = q.
Proof.
  intros (_&->)%render_anonymous_identifier_Ok (_&H)%render_anonymous_identifier_Ok.
  apply app_inv_head, str_inj in H.
  apply (inj (pretty (A := N))) in H. lia.
Qed.

Lemma render_plain ids position n :
  ids.(global_positions) = None -> ids.(single_position) = None -> ascending ids.(node_ids) ->
  get ids.(node_ids) position = Some n -> render ids n = render_anonymous_identifier position.
Proof.
  intros Hg Hs Ha Hn. unfold render. rewrite Hg, Hs.
  apply (binary_search_Some _ _ _ Ha) in Hn. by rewrite Hn.
Qed.

(** ** The collection *)

Section axiom_ids.
Context (self : DirectColumns) {V : Validated self}.

(** The node a selected axiom root denotes. *)
Definition selected_axiom (n : usize) : Prop :=
  exists i, i < root_count self /\ root_is_selected self i = Ok true /\
    root_kind self i = Ok ROOT_AXIOM /\ root_id self i = Ok n.

(** The anonymous individuals the selected axioms reach. *)
Definition axiom_anonymous (n : usize) : Prop :=
  is_anonymous self n /\ exists root, selected_axiom root /\ rtc (refers self) root n.

(** The canonical order of anonymous individuals. *)
Definition canonically_before (a b : usize) : Prop := compare_anonymous_nodes self a b = Ok Lt.

(** The loop over the roots. *)
Lemma run_queue_selected_axioms r :
  run (queue_selected_axioms self r) =
  foldM (fun st i =>
    selected ← root_is_selected self i;
    if negb selected then Ok st else
    kind ← root_kind self i;
    if negb (kind =? ROOT_AXIOM) then Ok st else
    root ← root_id self i;
    queue_reachable_node st root) ([], r) (range 0 (root_count self)).
Proof using Type.
  unfold queue_selected_axioms. rewrite run_foldM by solve_transparent.
  apply foldM_ext. intros st i. run_steps. apply bind_ext. intros [] _; cbn [negb]; [|done].
  run_steps. apply bind_ext. intros k _. destruct (negb (k =? ROOT_AXIOM)); [done|].
  run_steps. done.
Qed.

Lemma queue_selected_axioms_Ok :
  exists st, run (queue_selected_axioms self (replicate (N.to_nat (table_size self)) false)) = Ok st /\
    queued selected_axiom ([], replicate (N.to_nat (table_size self)) false) st.
Proof using V.
  rewrite run_queue_selected_axioms.
  destruct (queue_loop (fun st i =>
      selected ← root_is_selected self i;
      if negb selected then Ok st else
      kind ← root_kind self i;
      if negb (kind =? ROOT_AXIOM) then Ok st else
      root ← root_id self i;
      queue_reachable_node st root)
    (fun i n => root_is_selected self i = Ok true /\ root_kind self i = Ok ROOT_AXIOM /\
                root_id self i = Ok n)
    (table_size self) (range 0 (root_count self))
    ([], replicate (N.to_nat (table_size self)) false)) as (st&Hf&Hq).
  - cbn. unfold len. rewrite length_replicate. lia.
  - intros st i Hi%elem_of_range Hst.
    destruct (root_is_selected_spec self i (validated_postings self)) as (b&Hb&_); [lia|].
    destruct (wf_root _ (validated_well_formed self) i ltac:(lia)) as (k&n&Hk&Hn&_&Hr).
    rewrite Hb, Hk, Hn. cbn [mbind outcome_bind].
    destruct b; cbn [negb].
    + destruct (N.eqb_spec k ROOT_AXIOM) as [->|E]; cbn [negb].
      * destruct (queue_node self st n Hst Hr) as (st'&Hs'&Hq'). exists st'. split; [done|].
        eapply queued_iff; [|exact Hq']. intros m. naive_solver.
      * exists st. split; [done|]. eapply queued_iff; [|apply queued_none]. naive_solver.
    + exists st. split; [done|]. eapply queued_iff; [|apply queued_none]. naive_solver.
  - exists st. split; [done|]. eapply queued_iff; [|exact Hq]. intros n. unfold selected_axiom.
    split; intros (i&Hi&?); exists i; (split; [|done]); apply elem_of_range in Hi || apply elem_of_range; lia.
Qed.

(** The marks after the traversal. *)
Lemma axiom_reach :
  exists st r,
    run (queue_selected_axioms self (replicate (N.to_nat (table_size self)) false)) = Ok st /\
    run (reach self (reach_fuel self) never st) = Ok (Continue r) /\
    len r = table_size self /\
    forall n, marked r n <-> exists root, selected_axiom root /\ rtc (refers self) root n.
Proof using V.
  destruct queue_selected_axioms_Ok as (st&Hst&Hq).
  destruct (reach_inv_initial self never selected_axiom st) as [I Hfuel].
  { intros n (i&_&_&_&Hn). unfold root_id in Hn. apply bind_Ok in Hn as (v&_&Hv).
    by apply checked_node_id_Ok in Hv as [-> ?]. }
  { done. }
  destruct (reach_correct self validated_resident (validated_well_formed self) never
    ltac:(intros; by exists false) _ _ st I Hfuel) as ([r|[]]&Hr&Hc).
  - destruct Hc as [Hlen Hc]. exists st, r. split; [done|]. split; [done|]. split; [done|].
    intros n. apply (Hc n).
  - by destruct Hc as (?&_&?).
Qed.

(** Is [n] marked and anonymous? *)
Definition present (r : list bool) (n : usize) : bool :=
  match is_reachable_anonymous self r n with Ok b => b | _ => false end.

Lemma is_reachable_anonymous_Ok r n : len r = table_size self -> 1 <= n <= node_count self ->
  is_reachable_anonymous self r n = Ok (present r n) /\
  (present r n = true <-> marked r n /\ is_anonymous self n).
Proof using V.
  intros Hlen Hn. unfold present, is_reachable_anonymous, marked, is_anonymous.
  destruct (get_lt_Some r n) as [b Hb]; [unfold table_size in Hlen; lia|].
  rewrite (proj2 (index_Ok r n b) Hb), Hb. cbn [mbind outcome_bind].
  destruct b; [|split; [done|naive_solver]].
  destruct (node_tag_total self n (resident_tags _ validated_resident) Hn) as [t ->].
  cbn [mbind outcome_bind]. split; [done|]. rewrite N.eqb_eq. naive_solver.
Qed.

(** What the order check leaves behind. *)
Lemma check_anonymous_order_Ok r l st st' :
  len r = table_size self -> (forall n, n ∈ l -> 1 <= n <= node_count self) ->
  run (foldM (check_anonymous_order self r) st l) = Ok st' ->
  Sorted canonically_before (filter (fun n => present r n = true) l) /\
  match st.1 with
  | Some previous => HdRel canonically_before previous (filter (fun n => present r n = true) l)
  | None => True
  end.
Proof using V.
  intros Hlen. revert st. induction l as [|n l IH]; intros [previous count] Hl H.
  { cbn. split; [constructor|]. destruct previous; [constructor|done]. }
  rewrite run_foldM in H by (intros [? ?] ?; unfold check_anonymous_order; solve_transparent).
  cbn [foldM] in H. apply bind_Ok in H as (st1&H1&H).
  rewrite <- run_foldM in H by (intros [? ?] ?; unfold check_anonymous_order; solve_transparent).
  destruct (is_reachable_anonymous_Ok r n Hlen (Hl n (list_elem_of_here _ _))) as [Hp _].
  assert (Hl' : forall m, m ∈ l -> 1 <= m <= node_count self) by (intros m Hm; apply Hl; by right).
  unfold check_anonymous_order in H1. revert H1. run_steps. rewrite Hp. cbn [mbind outcome_bind].
  rewrite filter_cons. destruct (present r n) eqn:E; cbn [negb].
  - rewrite decide_True by done. run_steps. cbn [fst]. intros ([]&Hc&H1)%bind_Ok.
    revert H1. run_steps. intros (c&_&[= <-])%bind_Ok.
    destruct (IH _ Hl' H) as [Hs Hh]. cbn [fst] in Hh. split; [by constructor|].
    destruct previous as [p|]; [|done]. constructor. apply bind_Ok in Hc as (o&Ho&Hc).
    unfold canonically_before. destruct o; try done.
  - rewrite decide_False by done. run_steps. intros [= <-]. apply (IH _ Hl' H).
Qed.

(** The sub-list the collecting loop builds. *)
Lemma collect_present r l acc :
  len r = table_size self -> (forall n, n ∈ l -> 1 <= n <= node_count self) ->
  foldM (fun node_ids n =>
    present ← is_reachable_anonymous self r n;
    Ok (if present : bool then node_ids ++ [n] else node_ids)) acc l =
  Ok (acc ++ filter (fun n => present r n = true) l).
Proof using V.
  intros Hlen. revert acc. induction l as [|n l IH]; intros acc Hl; cbn [foldM].
  { by rewrite app_nil_r. }
  destruct (is_reachable_anonymous_Ok r n Hlen (Hl n (list_elem_of_here _ _))) as [-> _].
  cbn [mbind outcome_bind]. rewrite IH by (intros m Hm; apply Hl; by right). f_equal.
  rewrite filter_cons. destruct (present r n); [|by rewrite decide_False by done].
  rewrite decide_True by done. by rewrite <- app_assoc.
Qed.

Lemma sorted_ascending l : StronglySorted N.lt l -> ascending l.
Proof using Type. intros Hs i j a b. by apply StronglySorted_get. Qed.

(** ** No panic *)

Lemma scalar_payload_len i k p : scalar_payload self i k = Ok p -> len p <= usize_max.
Proof using V.
  unfold scalar_payload. intros (a&_&H)%bind_Ok. destruct (negb _); [done|].
  apply bind_Ok in H as (s&_&H). apply bind_Ok in H as (l&_&H). apply bind_Ok in H as (e&_&H).
  apply ok_or_Ok in H. pose proof (get_range_len _ _ _ _ H). apply get_range_Some in H as (_&He&_).
  pose proof (resident_scalars _ validated_resident). unfold sized in *. lia.
Qed.

Lemma compare_anonymous_nodes_safe a b : safe (compare_anonymous_nodes self a b).
Proof using V.
  unfold compare_anonymous_nodes.
  assert (Hkey : forall n scope key, anonymous_parts self n = Ok (scope, key) -> len key <= usize_max).
  { intros n scope key. unfold anonymous_parts. intros (?&_&H)%bind_Ok.
    apply bind_Ok in H as (?&_&H). apply bind_Ok in H as (?&_&H). apply bind_Ok in H as (?&_&H).
    apply bind_Ok in H as (k&Hk&[= _ <-]). by eapply scalar_payload_len. }
  apply safe_bind; [apply anonymous_parts_safe|]. intros [sa ka] Ha%Hkey.
  apply safe_bind; [apply anonymous_parts_safe|]. intros [sb kb] Hb%Hkey.
  destruct (bytes_cmp sa sb); try done.
  apply safe_bind; [by apply compare_canonical_varints_safe|]. by intros [].
Qed.

Lemma check_anonymous_order_safe r l st :
  len r = table_size self -> (forall n, n ∈ l -> 1 <= n <= node_count self) ->
  safe (run (foldM (check_anonymous_order self r) st l)).
Proof using V.
  intros Hlen Hl. rewrite run_foldM by (intros [? ?] ?; unfold check_anonymous_order; solve_transparent).
  apply (foldM_safe (fun s x => run (check_anonymous_order self r s x)) (fun _ => True)); [done|].
  intros [previous count] n Hn _. split; [|done]. unfold check_anonymous_order. run_steps.
  destruct (is_reachable_anonymous_Ok r n Hlen (Hl n Hn)) as [-> _]. cbn [mbind outcome_bind].
  destruct (negb (present r n)); [done|]. run_steps.
  apply safe_bind; [|intros [] _; run_steps; apply safe_bind; [apply safe_ok_or|done]].
  destruct previous as [p|]; [|done].
  apply safe_bind; [apply compare_anonymous_nodes_safe|]. intros o _. by destruct (negb _).
Qed.

Lemma axiom_anonymous_bound n : axiom_anonymous n -> 1 <= n <= node_count self.
Proof using Type.
  intros (_&root&(i&_&_&_&Hi)&Hn). apply rtc_inv_r in Hn as [<- |(m&_&Hm)].
  - unfold root_id in Hi. apply bind_Ok in Hi as (v&_&Hv). by apply checked_node_id_Ok in Hv as [-> ?].
  - by eapply refers_bound.
Qed.

(** The passes of [axiom_anonymous_ids] when some node is anonymous. *)
Lemma run_axiom_anonymous_ids :
  exists r, len r = table_size self /\
    (forall n, marked r n <-> exists root, selected_axiom root /\ rtc (refers self) root n) /\
    run (axiom_anonymous_ids self) =
    (has ← run (scan_nodes self (fun n => tag ← node_tag self n; Ok (tag =? TAG_ANONYMOUS_INDIVIDUAL)));
     if negb has then Ok AnonymousIds_default else
     _ ← run (foldM (check_anonymous_order self r) (None, 0) (range 1 (len r)));
     Ok {| node_ids := filter (fun n => present r n = true) (range 1 (len r));
           global_positions := None; single_position := None |}).
Proof using V.
  destruct axiom_reach as (st&r&Hst&Hr&Hlen&Hm). exists r. split; [done|]. split; [done|].
  pose proof (reach_transparent self) as Htr.
  assert (Hq : forall r, Transparent (queue_selected_axioms self r))
    by (intros; unfold queue_selected_axioms; solve_transparent).
  assert (Hc : forall r st n, Transparent (check_anonymous_order self r st n))
    by (intros ? [? ?] ?; unfold check_anonymous_order; solve_transparent).
  unfold axiom_anonymous_ids. run_steps. apply bind_ext. intros has _.
  destruct (negb has); [done|]. run_steps.
  rewrite (reachable_table_Ok self (validated_node_room self)). cbn [mbind outcome_bind]. run_steps.
  rewrite Hst. cbn [mbind outcome_bind]. run_steps. rewrite Hr. cbn [mbind outcome_bind]. run_steps.
  apply bind_ext. intros _ _. run_steps.
  rewrite collect_present; [done|done|]. intros n Hn%elem_of_range.
  rewrite Hlen in Hn. unfold table_size in Hn. lia.
Qed.

Lemma axiom_anonymous_ids_spec :
  safe (run (axiom_anonymous_ids self)) /\
  forall ids, run (axiom_anonymous_ids self) = Ok ids ->
    ids.(global_positions) = None /\ ids.(single_position) = None /\
    StronglySorted N.lt ids.(node_ids) /\ Sorted canonically_before ids.(node_ids) /\
    (forall n, n ∈ ids.(node_ids) <-> axiom_anonymous n).
Proof using V.
  destruct run_axiom_anonymous_ids as (r&Hlen&Hm&->).
  assert (Hl : forall n, n ∈ range 1 (len r) -> 1 <= n <= node_count self).
  { intros n Hn%elem_of_range. rewrite Hlen in Hn. unfold table_size in Hn. lia. }
  split.
  { apply safe_bind; [apply scan_nodes_safe; intros; apply safe_bind; [auto with safe|done]|].
    intros [] _; [|done]. apply safe_bind; [by apply check_anonymous_order_safe|done]. }
  intros ids (has&Hscan&H)%bind_Ok. destruct has; cbn [negb] in H.
  - apply bind_Ok in H as (st&Hst&[= <-]). cbn [node_ids global_positions single_position].
    apply (check_anonymous_order_Ok r _ _ _ Hlen Hl) in Hst as [Hs _].
    split; [done|]. split; [done|]. split; [apply filter_sorted, range_from_sorted|]. split; [done|].
    intros n. rewrite list_elem_of_filter. split.
    + intros [Hp Hn%Hl]. apply (is_reachable_anonymous_Ok r n Hlen Hn) in Hp as [Hmk Ha].
      split; [done|]. by apply Hm.
    + intros Hn. pose proof (axiom_anonymous_bound n Hn) as Hb. destruct Hn as [Ha Hr].
      split; [apply (is_reachable_anonymous_Ok r n Hlen Hb); split; [by apply Hm|done]|].
      apply elem_of_range. rewrite Hlen. unfold table_size. lia.
  - injection H as <-. cbn. split; [done|]. split; [done|]. split; [constructor|]. split; [constructor|].
    intros n. split; [by intros ?%elem_of_nil|]. intros Hn.
    pose proof (scan_nodes_false _ _ Hscan n (axiom_anonymous_bound n Hn)) as Hf.
    destruct Hn as [Ha _]. unfold is_anonymous in Ha. cbn beta in Hf. rewrite Ha in Hf. done.
Qed.
End axiom_ids.

(** ** Theorems *)

Lemma ascending_index l i x : ascending l -> get l i = Some x -> i <= x.
Proof.
  intros Ha. revert x. induction i as [|i IH] using N.peano_ind; intros x Hx; [lia|].
  destruct (get_lt_Some l i) as [y Hy]; [apply get_Some_lt in Hx; lia|].
  pose proof (Ha i (N.succ i) y x ltac:(lia) Hy Hx). specialize (IH y Hy). lia.
Qed.

(** The identifier of the [i]-th collected individual. *)
Definition identifier (position : usize) : text := str "_:genid" ++ str (pretty (2147483648 + position)).

Lemma render_member self ids n i : Validated self ->
  run (axiom_anonymous_ids self) = Ok ids -> get ids.(node_ids) i = Some n ->
  render ids n = Ok (identifier i).
Proof.
  intros V Hids Hi.
  destruct (proj2 (axiom_anonymous_ids_spec self) ids Hids) as (Hg&Hs&Hsort&_&Hm).
  apply sorted_ascending in Hsort. rewrite (render_plain ids i n Hg Hs Hsort Hi).
  apply render_anonymous_identifier_Ok. split; [|done].
  pose proof (ascending_index _ _ _ Hsort Hi).
  assert (Hn : n <= node_count self) by (by apply (axiom_anonymous_bound self), Hm, (get_elem_of _ i)).
  assert (Hc : node_count self <= usize_max / 2).
  { apply N.Div0.div_le_mono. apply (resident_tags _ validated_resident). }
  assert (2147483648 + usize_max / 2 <= usize_max) by (vm_compute; discriminate). lia.
Qed.

Lemma axiom_anonymous_ids_transparent self : Transparent (axiom_anonymous_ids self).
Proof.
  pose proof (reach_transparent self) as Htr.
  unfold axiom_anonymous_ids, queue_selected_axioms, check_anonymous_order. solve_transparent.
Qed.

(** C22: On validated columns [axiom_anonymous_ids] never panics, and when it
    succeeds it returns, in ascending node order and in strict canonical order
    of (scope, key), exactly the anonymous individuals that the selected axiom
    roots reach; a concurrent cancellation is reported or has no effect. *)
Theorem axiom_anonymous_ids_correct self obs :
  Validated self ->
  safe (run (axiom_anonymous_ids self)) /\
  (forall ids, run (axiom_anonymous_ids self) = Ok ids ->
    StronglySorted N.lt ids.(node_ids) /\ Sorted (canonically_before self) ids.(node_ids) /\
    forall n, n ∈ ids.(node_ids) <->
      is_anonymous self n /\ exists root, selected_axiom self root /\ rtc (refers self) root n) /\
  (fst (axiom_anonymous_ids self obs 0%nat) = Err Cancelled \/
   fst (axiom_anonymous_ids self obs 0%nat) = run (axiom_anonymous_ids self)).
Proof.
  intros V. destruct (axiom_anonymous_ids_spec self) as [Hsafe Hspec].
  split; [done|]. split; [intros ids (_&_&?&?&?)%Hspec; done|].
  pose proof (axiom_anonymous_ids_transparent self). apply transparent_obs.
Qed.

(** After [axiom_anonymous_ids], [render] names every collected
    individual: the [i]-th is [_:genid(2147483648 + i)], two individuals never
    share a name, and a node that was not collected is rejected. *)
Theorem render_correct self ids :
  Validated self -> run (axiom_anonymous_ids self) = Ok ids ->
  (forall i n, get ids.(node_ids) i = Some n -> render ids n = Ok (identifier i)) /\
  (forall n m t, render ids n = Ok t -> render ids m = Ok t -> n = m) /\
  (forall n, ~ axiom_anonymous self n ->
     render ids n =
     Err (malformed "encoded anonymous individual lost its axiom-derived identifier")).
Proof.
  intros V Hids. destruct (proj2 (axiom_anonymous_ids_spec self) ids Hids) as (Hg&Hs&Hsort&_&Hm).
  apply sorted_ascending in Hsort.
  assert (Hout : forall n, n ∉ ids.(node_ids) -> render ids n =
    Err (malformed "encoded anonymous individual lost its axiom-derived identifier")).
  { intros n Hn. unfold render. by rewrite (proj2 (binary_search_None _ n Hsort) Hn). }
  split; [intros i n; by apply (render_member self)|]. split.
  - intros n m t Hn Ht.
    destruct (decide (n ∈ ids.(node_ids))) as [[i Hi]%elem_of_get|E]; [|by rewrite Hout in Hn].
    destruct (decide (m ∈ ids.(node_ids))) as [[j Hj]%elem_of_get|E]; [|by rewrite Hout in Ht].
    rewrite (render_plain ids i n Hg Hs Hsort Hi) in Hn.
    rewrite (render_plain ids j m Hg Hs Hsort Hj) in Ht.
    assert (i = j) as -> by (by eapply render_anonymous_identifier_inj). congruence.
  - intros n Hn. apply Hout. by rewrite Hm.
Qed.

Lemma axiom_anonymous_ids_correct_witness :
  (exists ids, run (axiom_anonymous_ids sample) = Ok ids /\ ids.(node_ids) = [9]) /\
  safe (run (axiom_anonymous_ids sample)).
Proof.
  split; [eexists; split; [by vm_compute|done]|].
  exact (proj1 (axiom_anonymous_ids_correct sample quiet sample_validated)).
Defined.

Lemma render_correct_witness :
  let ids := {| node_ids := [9]; global_positions := None; single_position := None |} in
  run (axiom_anonymous_ids sample) = Ok ids /\
  render ids 9 = Ok (str "_:genid2147483648") /\
  forall n m t, render ids n = Ok t -> render ids m = Ok t -> n = m.
Proof.
  cbn zeta. split; [by vm_compute|]. split; [by vm_compute|].
  apply (render_correct sample); [apply sample_validated|by vm_compute].
Defined.
