(* ===== verification/Sort.v ===== *)
(** * Cancellable sorting and filtering

    [cancellable_sort_unstable_by] (a heap sort that polls the cancellation
    flag) and [cancellable_retain] of native/src/encoded_direct.rs, on a list
    as the slice they mutate. *)

From Stdlib Require Import Sorting.Sorted.
From S2P Require Import Prelude Errors Partial.
Local Open Scope string_scope.
Local Open Scope list_scope.
Local Open Scope N_scope.

(** [values.swap(i, j)]. *)
Definition swap {A} (values : list A) (i j : usize) : outcome (list A) :=
  a ← index values i;
  b ← index values j;
  values ← store values i b;
  store values j a.

Section sort.
Context {A : Type} (compare : A -> A -> comparison).

(** [poll_work]: the new value of the counter. *)
Definition poll_work (work : usize) : Cx usize :=
  work ← !ok_or (checked_add work 1) (resource "encoded sort-work counter overflow");
  _ ← check_cancel work;
  mret work.

(** [sift_down]; [root] grows in each round, so [end_] rounds are enough. *)
Fixpoint sift_down (fuel : nat) (values : list A) (root end_ work : usize)
    : Cx (list A * usize) :=
  match fuel with
  | O => !OutOfFuel
  | S fuel =>
      let overflow := resource "encoded sort index overflow" in
      left ← !ok_or (i ← checked_mul root 2; checked_add i 1) overflow;
      if end_ <=? left then mret (values, work) else
      right ← !ok_or (checked_add left 1) overflow;
      '(child, work) ←
        (if right <? end_ then
           work ← poll_work work;
           l ← !index values left;
           r ← !index values right;
           mret (if is_lt (compare l r) then right else left, work)
         else mret (left, work));
      work ← poll_work work;
      parent ← !index values root;
      largest ← !index values child;
      if negb (is_lt (compare parent largest)) then mret (values, work) else
      values ← !swap values root child;
      sift_down fuel values child end_ work
  end.

(** [sift_down(values, root, length, ..)] while the heap is built. *)
Definition build_step (length : usize) (st : list A * usize) (root : usize)
    : Cx (list A * usize) :=
  let '(values, work) := st in sift_down (S (N.to_nat length)) values root length work.

(** [values.swap(0, end); sift_down(values, 0, end, ..)]. *)
Definition extract_step (length : usize) (st : list A * usize) (end_ : usize)
    : Cx (list A * usize) :=
  let '(values, work) := st in
  values ← !swap values 0 end_;
  sift_down (S (N.to_nat length)) values 0 end_ work.

Definition cancellable_sort_unstable_by (values : list A) : Cx (list A) :=
  _ ← check_cancel 0;
  let length := len values in
  if length <? 2 then mret values else
  '(values, work) ← foldM (build_step length) (values, 0) (reverse (range 0 (length / 2)));
  '(values, _) ← foldM (extract_step length) (values, work) (reverse (range 1 length));
  _ ← check_cancel 0;
  mret values.

(** [cancellable_retain]: the kept values are swapped to the front. *)
Definition retain_step (retain : A -> bool) (st : list A * usize) (read : usize)
    : Cx (list A * usize) :=
  let '(values, write) := st in
  _ ← check_cancel read;
  value ← !index values read;
  if negb (retain value) then mret (values, write) else
  values ← (if negb (read =? write) then !swap values read write else mret values);
  write ← !ok_or (checked_add write 1) (resource "encoded retain counter overflow");
  mret (values, write).

Definition cancellable_retain (retain : A -> bool) (values : list A) : Cx (list A) :=
  '(values, write) ← foldM (retain_step retain) (values, 0) (range 0 (len values));
  let values := take (N.to_nat write) values in
  _ ← check_cancel 0;
  mret values.
End sort.

(** ** Comparators

    What the callers' comparisons are: a total preorder. *)
Class CmpPreorder {A} (cmp : A -> A -> comparison) : Prop := {
  pre_opp x y : cmp y x = CompOpp (cmp x y);
  pre_trans x y z : cmp x y <> Gt -> cmp y z <> Gt -> cmp x z <> Gt;
}.

#[export] Instance OrdLaws_preorder {A} (cmp : A -> A -> comparison) :
  OrdLaws cmp -> CmpPreorder cmp.
Proof.
  intros H. split; [apply (cmp_opp cmp)|]. intros x y z. apply (cmp_le_trans cmp x y z).
Qed.

Section correct.
Context {A : Type} (compare : A -> A -> comparison) {pre : CmpPreorder compare}.

Definition le (x y : A) : Prop := compare x y <> Gt.

Lemma le_refl x : le x x.
Proof using pre. unfold le. pose proof (pre_opp x x) as H. by destruct (compare x x). Qed.

Lemma le_trans x y z : le x y -> le y z -> le x z.
Proof using pre. apply pre_trans. Qed.

Lemma not_lt_le x y : is_lt (compare x y) = false -> le y x.
Proof using pre. unfold le. rewrite (pre_opp x y). by destruct (compare x y). Qed.

Lemma lt_le x y : is_lt (compare x y) = true -> le x y.
Proof using Type. unfold le. by destruct (compare x y). Qed.

(** [v] at index [i]. *)
Abbreviation at_ l i := (@get A l i).

(** Parent [p] of [c] in the implicit tree. *)
Definition child_of (p c : N) : Prop := c = 2 * p + 1 \/ c = 2 * p + 2.

(** A heap on [k..end_) but for the children of [hole]. *)
Definition heap_but (l : list A) (k end_ hole : N) : Prop :=
  (forall p c x y, k <= p -> p <> hole -> c < end_ -> child_of p c ->
     at_ l p = Some x -> at_ l c = Some y -> le y x) /\
  (forall p c x y, k <= p -> child_of p hole -> child_of hole c -> c < end_ ->
     at_ l p = Some x -> at_ l c = Some y -> le y x).

Definition heap (l : list A) (k end_ : N) : Prop :=
  forall p c x y, k <= p -> c < end_ -> child_of p c ->
    at_ l p = Some x -> at_ l c = Some y -> le y x.

(** The slice [0..end_) is permuted, the rest kept. *)
Definition permuted (end_ : N) (l l' : list A) : Prop :=
  take (N.to_nat end_) l' ≡ₚ take (N.to_nat end_) l /\
  drop (N.to_nat end_) l' = drop (N.to_nat end_) l.

Lemma permuted_refl e l : permuted e l l.
Proof using Type. done. Qed.

Lemma permuted_trans e l1 l2 l3 : permuted e l1 l2 -> permuted e l2 l3 -> permuted e l1 l3.
Proof using Type. intros [H1 H2] [H3 H4]. split; [by rewrite H3|congruence]. Qed.

Lemma permuted_len e l l' : permuted e l l' -> len l' = len l.
Proof using Type.
  intros [H1 H2]. unfold len. f_equal.
  rewrite <- (take_drop (N.to_nat e) l), <- (take_drop (N.to_nat e) l'), !length_app.
  by rewrite H1, H2.
Qed.

Lemma permuted_perm e l l' : permuted e l l' -> l' ≡ₚ l.
Proof using Type.
  intros [H1 H2]. rewrite <- (take_drop (N.to_nat e) l), <- (take_drop (N.to_nat e) l').
  by rewrite H1, H2.
Qed.

Lemma permuted_weaken e e' l l' : e <= e' -> permuted e l l' -> permuted e' l l'.
Proof using Type.
  intros He [H1 H2]. 
  assert (Hsplit : forall k : list A, take (N.to_nat e') k =
    take (N.to_nat e) k ++ take (N.to_nat e' - N.to_nat e) (drop (N.to_nat e) k)).
  { intros k. rewrite take_drop_commute.
    replace (N.to_nat e + (N.to_nat e' - N.to_nat e))%nat with (N.to_nat e') by lia.
    rewrite <- (take_drop (N.to_nat e) (take (N.to_nat e') k)) at 1.
    by rewrite take_take, Nat.min_l by lia. }
  split; [by rewrite (Hsplit l), (Hsplit l'), H1, H2|].
  replace (N.to_nat e') with (N.to_nat e + (N.to_nat e' - N.to_nat e))%nat by lia.
  by rewrite <- !drop_drop, H2.
Qed.

(** ** Swapping *)

Lemma swap_Ok (l : list A) i j a b : at_ l i = Some a -> at_ l j = Some b ->
  exists l', swap l i j = Ok l' /\
    (forall m, at_ l' m = if m =? j then Some a else if m =? i then Some b else at_ l m) /\
    (forall e, i < e -> j < e -> permuted e l l').
Proof using Type.
  intros Hi Hj. unfold swap. rewrite (proj2 (index_Ok _ _ _) Hi), (proj2 (index_Ok _ _ _) Hj).
  cbn [mbind outcome_bind]. unfold store.
  pose proof (get_Some_lt _ _ _ Hi). pose proof (get_Some_lt _ _ _ Hj).
  destruct (N.ltb_spec i (len l)); [|lia]. cbn [mbind outcome_bind].
  assert (len (<[N.to_nat i:=b]> l) = len l) as -> by (unfold len; by rewrite length_insert).
  destruct (N.ltb_spec j (len l)); [|lia]. eexists. split; [done|].
  rewrite get_lookup in Hi, Hj. unfold len in *. split.
  - intros m. rewrite !get_lookup. destruct (N.eqb_spec m j) as [->|].
    + apply list_lookup_insert_eq. rewrite length_insert. lia.
    + rewrite list_lookup_insert_ne by lia. destruct (N.eqb_spec m i) as [->|].
      * apply list_lookup_insert_eq. lia.
      * by rewrite list_lookup_insert_ne by lia.
  - intros e He1 He2. split.
    + rewrite !take_insert_lt by lia.
      apply Permutation_insert_swap; by rewrite lookup_take_lt by lia.
    + by rewrite !drop_insert_lt by lia.
Qed.

(** ** Sifting down *)

#[local] Instance sift_down_transparent fuel (l : list A) root e work :
  Transparent (sift_down compare fuel l root e work).
Proof using Type.
  revert l root work. induction fuel as [|fuel IH]; intros; cbn [sift_down]; [apply _|].
  unfold poll_work. solve_transparent.
Qed.

Lemma run_poll_work w : w < usize_max -> run (poll_work w) = Ok (w + 1).
Proof using Type.
  intros Hw. unfold poll_work. run_steps.
  rewrite (proj2 (checked_add_Some w 1 (w + 1)) ltac:(lia)). cbn [ok_or mbind outcome_bind].
  by run_steps.
Qed.

Lemma heap_but_leaf l k e root : heap_but l k e root -> e <= 2 * root + 1 -> heap l k e.
Proof using Type.
  intros [H _] He p c x y Hk Hc Hpc. destruct (N.eq_dec p root) as [->|]; [|by apply (H p c)].
  unfold child_of in Hpc. lia.
Qed.

Lemma heap_but_done l k e root x :
  heap_but l k e root -> at_ l root = Some x ->
  (forall c y, child_of root c -> c < e -> at_ l c = Some y -> le y x) -> heap l k e.
Proof using Type.
  intros [H _] Hx Hc p c x' y Hk He Hpc Hx' Hy.
  destruct (N.eq_dec p root) as [->|]; [|by apply (H p c)].
  rewrite Hx in Hx'. injection Hx' as <-. by apply (Hc c).
Qed.

(** Exchanging the hole with its largest child moves the hole there. *)
Lemma heap_but_swap l l' k e root child x y :
  heap_but l k e root -> child_of root child -> child < e -> k <= root ->
  at_ l root = Some x -> at_ l child = Some y -> le x y ->
  (forall c z, child_of root c -> c < e -> at_ l c = Some z -> le z y) ->
  (forall m, at_ l' m = if m =? child then Some x else if m =? root then Some y else at_ l m) ->
  heap_but l' k e child.
Proof using Type.
  intros [H1 H2] Hch Hce Hk Hx Hy Hxy Hmax Hget. unfold child_of in *. split.
  - intros p c u v Hkp Hp Hc Hpc. unfold child_of in Hpc. rewrite !Hget.
    destruct (N.eqb_spec p child); [done|].
    destruct (N.eqb_spec p root) as [->|Hpr].
    + intros [= <-]. destruct (N.eqb_spec c child) as [->|]; [by intros [= <-]|].
      destruct (N.eqb_spec c root); [lia|]. intros Hv. by apply (Hmax c).
    + destruct (N.eqb_spec c child) as [->|]; [lia|]. intros Hu.
      destruct (N.eqb_spec c root) as [->|]; [|by apply (H1 p c)].
      intros [= <-]. by apply (H2 p child).
  - intros p c u v Hkp Hpc Hcc Hc. unfold child_of in Hpc, Hcc. rewrite !Hget. assert (p = root) as -> by lia.
    destruct (N.eqb_spec root child); [lia|]. rewrite N.eqb_refl. intros [= <-].
    destruct (N.eqb_spec c child); [lia|]. destruct (N.eqb_spec c root); [lia|].
    intros Hv. by apply (H1 child c y v); try lia.
Qed.

(** The index arithmetic of a slice never overflows: a Rust slice holds at
    most [isize::MAX] elements. *)
Definition slice_len (l : list A) : Prop := 2 * len l + 2 <= usize_max.

(** What one round finds in the children of [root]. *)
Lemma largest_child (l : list A) root e work x :
  slice_len l -> e <= len l -> 2 * root + 1 < e -> work < usize_max ->
  at_ l root = Some x ->
  exists child y work',
    run (if 2 * root + 2 <? e then
           work ← poll_work work;
           l_ ← !index l (2 * root + 1);
           r ← !index l (2 * root + 2);
           mret (if is_lt (compare l_ r) then 2 * root + 2 else 2 * root + 1, work)
         else mret (2 * root + 1, work)) = Ok (child, work') /\
    child_of root child /\ child < e /\ at_ l child = Some y /\
    (forall c z, child_of root c -> c < e -> at_ l c = Some z -> le z y) /\
    work <= work' <= work + 1.
Proof using pre.
  intros Hl He Hleft Hw Hx. unfold child_of.
  destruct (get_lt_Some l (2 * root + 1)) as [a Ha]; [lia|].
  destruct (N.ltb_spec (2 * root + 2) e) as [Hr|Hr].
  - destruct (get_lt_Some l (2 * root + 2)) as [b Hb]; [lia|].
    run_steps. rewrite run_poll_work by done. run_steps.
    rewrite (proj2 (index_Ok _ _ _) Ha). run_steps. rewrite (proj2 (index_Ok _ _ _) Hb). run_steps.
    destruct (is_lt (compare a b)) eqn:Hab.
    + exists (2 * root + 2), b, (work + 1). split; [done|]. split; [lia|]. split; [done|]. split; [done|].
      split; [|lia]. intros c z [->| ->] _ Hz; [|rewrite Hb in Hz; injection Hz as <-; apply le_refl].
      rewrite Ha in Hz. injection Hz as <-. by apply lt_le.
    + exists (2 * root + 1), a, (work + 1). split; [done|]. split; [lia|]. split; [done|]. split; [done|].
      split; [|lia]. intros c z [->| ->] _ Hz; [rewrite Ha in Hz; injection Hz as <-; apply le_refl|].
      rewrite Hb in Hz. injection Hz as <-. by apply not_lt_le.
  - exists (2 * root + 1), a, work. split; [done|]. split; [lia|]. split; [lia|]. split; [done|].
    split; [|lia]. intros c z [->| ->] Hc Hz; [|lia]. rewrite Ha in Hz. injection Hz as <-. apply le_refl.
Qed.

Lemma sift_down_correct fuel (l : list A) root e work k :
  slice_len l -> e <= len l -> k <= root -> root < e ->
  heap_but l k e root -> (N.to_nat (e - root) < fuel)%nat -> work + 2 * (e - root) < usize_max ->
  exists l' work', run (sift_down compare fuel l root e work) = Ok (l', work') /\
    heap l' k e /\ permuted e l l' /\ work' <= work + 2 * (e - root).
Proof using pre.
  revert l root work. induction fuel as [|fuel IH]; intros l root work Hl He Hk Hroot Hheap Hf Hw; [lia|].
  cbn [sift_down]. cbn zeta. unfold slice_len in Hl.
  run_steps. rewrite (proj2 (checked_mul_Some root 2 (2 * root)) ltac:(lia)). cbn [mbind option_bind].
  rewrite (proj2 (checked_add_Some (2 * root) 1 (2 * root + 1)) ltac:(lia)). cbn [ok_or mbind outcome_bind].
  destruct (N.leb_spec e (2 * root + 1)) as [Hleaf|Hleft].
  { rewrite run_ret. exists l, work. split; [done|]. split; [by eapply heap_but_leaf|].
    split; [apply permuted_refl|lia]. }
  run_steps. rewrite (proj2 (checked_add_Some (2 * root + 1) 1 (2 * root + 2)) ltac:(lia)).
  cbn [ok_or mbind outcome_bind].
  destruct (get_lt_Some l root) as [x Hx]; [lia|].
  destruct (largest_child l root e work x Hl He Hleft ltac:(lia) Hx)
    as (child&y&w1&Hrun&Hch&Hce&Hy&Hmax&Hw1).
  rewrite run_bind; [|unfold poll_work; solve_transparent|unfold poll_work; solve_transparent].
  rewrite Hrun. cbn [mbind outcome_bind]. run_steps.
  rewrite run_poll_work by lia. run_steps.
  rewrite (proj2 (index_Ok _ _ _) Hx). run_steps. rewrite (proj2 (index_Ok _ _ _) Hy). run_steps.
  assert (Hgrow : root < child) by (unfold child_of in Hch; lia).
  destruct (is_lt (compare x y)) eqn:Hxy; cbn [negb].
  - run_steps. destruct (swap_Ok l root child x y Hx Hy) as (l1&Hsw&Hget&Hperm). rewrite Hsw.
    cbn [mbind outcome_bind].
    assert (Hlen : len l1 = len l) by (eapply permuted_len, (Hperm e); lia).
    destruct (IH l1 child (w1 + 1)) as (l'&w'&Hr&Hh&Hp&Hb).
    + unfold slice_len. by rewrite Hlen.
    + by rewrite Hlen.
    + lia.
    + done.
    + eapply heap_but_swap; eauto using lt_le.
    + lia.
    + lia.
    + exists l', w'. split; [done|]. split; [done|]. split; [|lia].
      eapply permuted_trans; [|exact Hp]. apply Hperm; lia.
  - rewrite run_ret. exists l, (w1 + 1). split; [done|].
    split; [|split; [apply permuted_refl|lia]].
    eapply heap_but_done; [done|exact Hx|]. intros c z Hc Hce' Hz.
    apply le_trans with y; [by apply (Hmax c)|by apply not_lt_le].
Qed.

(** ** Building the heap *)

#[local] Instance build_step_transparent n st r : Transparent (build_step compare n st r).
Proof using Type. destruct st. apply _. Qed.

Lemma reverse_range_snoc a b : a <= b -> reverse (range a (b + 1)) = b :: reverse (range a b).
Proof using Type. intros H. by rewrite range_snoc, reverse_app. Qed.

Lemma build_correct n m (l : list A) w :
  slice_len l -> len l = n -> N.of_nat m <= n / 2 -> heap l (N.of_nat m) n ->
  w + N.of_nat m * (2 * n) < usize_max ->
  exists l' w', run (foldM (build_step compare n) (l, w) (reverse (range 0 (N.of_nat m)))) = Ok (l', w') /\
    heap l' 0 n /\ l' ≡ₚ l /\ w' <= w + N.of_nat m * (2 * n).
Proof using pre.
  revert l w. induction m as [|m IH]; intros l w Hl Hn Hm Hheap Hw.
  { exists l, w. rewrite range_empty by lia. split; [done|]. split; [done|]. split; [done|lia]. }
  rewrite Nat2N.inj_succ, <- N.add_1_r in *. rewrite reverse_range_snoc by lia.
  cbn [foldM]. rewrite run_bind by solve_transparent.
  assert (Hmn : N.of_nat m < n).
  { pose proof (N.Div0.mul_div_le n 2) as Hd. revert Hm Hd. generalize (n / 2). lia. }
  destruct (sift_down_correct (S (N.to_nat n)) l (N.of_nat m) n w (N.of_nat m)) as (l1&w1&Hr&Hh&Hp&Hb).
  - done.
  - lia.
  - lia.
  - done.
  - split.
    + intros p c x y Hk Hpr Hc Hpc. apply (Hheap p c x y); [lia|done|done].
    + intros p c x y Hk Hpc. unfold child_of in Hpc. lia.
  - lia.
  - nia.
  - cbn [build_step]. rewrite Hr. cbn [mbind outcome_bind].
    assert (Hlen : len l1 = len l) by (by eapply permuted_len).
    destruct (IH l1 w1) as (l2&w2&Hr2&Hh2&Hp2&Hb2).
    + unfold slice_len. by rewrite Hlen.
    + lia.
    + revert Hm. generalize (n / 2). lia.
    + done.
    + nia.
    + exists l2, w2. split; [done|]. split; [done|]. split; [|nia].
      rewrite Hp2. by eapply permuted_perm.
Qed.

Lemma heap_root l e i x y : heap l 0 e -> i < e -> e <= len l ->
  at_ l 0 = Some x -> at_ l i = Some y -> le y x.
Proof using pre.
  intros Hh Hi He Hx. revert y. induction i as [i IH] using (well_founded_induction N.lt_wf_0).
  intros y Hy. destruct (N.eq_dec i 0) as [->|Hi0]; [rewrite Hx in Hy; injection Hy as <-; apply le_refl|].
  assert (exists p, child_of p i /\ p < i) as (p&Hp&Hpi).
  { exists ((i - 1) / 2). unfold child_of. pose proof (N.div_mod (i - 1) 2 ltac:(lia)) as Hd.
    pose proof (N.mod_lt (i - 1) 2 ltac:(lia)) as Hm. revert Hd Hm.
    generalize ((i - 1) / 2) as q, ((i - 1) mod 2) as r. lia. }
  destruct (get_lt_Some l p) as [z Hz]; [lia|].
  apply le_trans with z; [by apply (Hh p i); [lia|..]|]. by apply (IH p); [|lia|].
Qed.

(** ** Extracting the maxima *)

#[local] Instance extract_step_transparent n st r : Transparent (extract_step compare n st r).
Proof using Type. destruct st. unfold extract_step. solve_transparent. Qed.

(** From [e] on the slice is sorted, above everything before it. *)
Definition sorted_from (l : list A) (e : N) : Prop :=
  forall i j x y, i < j -> e <= j -> at_ l i = Some x -> at_ l j = Some y -> le x y.

(** One extraction: the maximum goes to [e]. *)
Lemma extract_one n (l : list A) w e :
  slice_len l -> len l = n -> 1 <= e < n -> heap l 0 (e + 1) -> sorted_from l (e + 1) ->
  w + 2 * n < usize_max ->
  exists l' w', run (extract_step compare n (l, w) e) = Ok (l', w') /\
    heap l' 0 e /\ sorted_from l' e /\ l' ≡ₚ l /\ w' <= w + 2 * n.
Proof using pre.
  intros Hl Hn He Hh Hs Hw. unfold extract_step.
  destruct (get_lt_Some l 0) as [x Hx]; [lia|]. destruct (get_lt_Some l e) as [z Hz]; [lia|].
  destruct (swap_Ok l 0 e x z Hx Hz) as (l1&Hsw&Hget&Hperm). run_steps. rewrite Hsw. run_steps.
  assert (Hp1 : permuted (e + 1) l l1) by (apply Hperm; lia).
  assert (Hlen1 : len l1 = len l) by (by eapply permuted_len).
  destruct (sift_down_correct (S (N.to_nat n)) l1 0 e w 0) as (l2&w2&Hr&Hh2&Hp2&Hb).
  - unfold slice_len. by rewrite Hlen1.
  - lia.
  - lia.
  - lia.
  - split.
    + intros p c a b _ Hp0 Hc Hpc. pose proof Hpc as Hpc'. unfold child_of in Hpc'. rewrite !Hget.
      destruct (N.eqb_spec p e), (N.eqb_spec c e); try lia.
      destruct (N.eqb_spec p 0), (N.eqb_spec c 0); try lia.
      by apply (Hh p c); try lia.
    + intros p c a b _ Hpc. unfold child_of in Hpc. lia.
  - lia.
  - lia.
  - exists l2, w2. split; [done|]. split; [done|]. split; [|split; [|lia]].
    2: { rewrite (permuted_perm e l1 l2 Hp2). by eapply permuted_perm. }
    assert (Hkeep : forall j, e <= j -> at_ l2 j = at_ l1 j).
    { intros j Hj. destruct Hp2 as [_ Hd]. rewrite !get_lookup.
      replace (N.to_nat j) with (N.to_nat e + (N.to_nat j - N.to_nat e))%nat by lia.
      rewrite <- !lookup_drop. by rewrite Hd. }
    assert (Hfrom : forall i a, i < e -> at_ l2 i = Some a -> exists i', i' <= e /\ at_ l i' = Some a).
    { intros i a Hi Ha. assert (Hin : a ∈ take (N.to_nat e) l1).
      { destruct Hp2 as [Hpt _]. rewrite <- Hpt. apply list_elem_of_lookup. exists (N.to_nat i).
        rewrite lookup_take_lt by lia. by rewrite <- get_lookup. }
      apply list_elem_of_lookup in Hin as (i'&Hi'%lookup_take_Some). destruct Hi' as [Ha' Hlt].
      assert (Hg : at_ l1 (N.of_nat i') = Some a) by (by rewrite get_lookup, Nat2N.id).
      rewrite Hget in Hg. destruct (N.eqb_spec (N.of_nat i') e); [lia|].
      destruct (N.eqb_spec (N.of_nat i') 0); [|exists (N.of_nat i'); split; [lia|done]].
      injection Hg as <-. exists e. split; [lia|done]. }
    intros i j a b Hij Hj Ha Hb'. rewrite (Hkeep j Hj) in Hb'. rewrite Hget in Hb'.
    destruct (N.eqb_spec j e) as [->|Hje].
    + injection Hb' as <-. destruct (Hfrom i a Hij Ha) as (i'&Hi'&Ha').
      by apply (heap_root l (e + 1) i'); [done|lia|lia|..].
    + destruct (N.eqb_spec j 0); [lia|]. destruct (N.lt_ge_cases i e) as [Hie|Hie].
      * destruct (Hfrom i a Hie Ha) as (i'&Hi'&Ha'). apply (Hs i' j); [lia|lia|done|done].
      * rewrite (Hkeep i Hie), Hget in Ha. destruct (N.eqb_spec i e) as [->|].
        -- injection Ha as <-. apply (Hs 0 j); [lia|lia|done|done].
        -- destruct (N.eqb_spec i 0); [lia|]. apply (Hs i j); [lia|lia|done|done].
Qed.

Lemma extract_correct n m (l : list A) w :
  slice_len l -> len l = n -> (1 <= m)%nat -> N.of_nat m <= n ->
  heap l 0 (N.of_nat m) -> sorted_from l (N.of_nat m) ->
  w + N.of_nat m * (2 * n) < usize_max ->
  exists l' w', run (foldM (extract_step compare n) (l, w) (reverse (range 1 (N.of_nat m)))) = Ok (l', w') /\
    sorted_from l' 1 /\ l' ≡ₚ l.
Proof using pre.
  revert l w. induction m as [|m IH]; intros l w Hl Hn Hm Hmn Hheap Hs Hw; [lia|].
  destruct m as [|m].
  { exists l, w. rewrite range_empty by lia. done. }
  rewrite Nat2N.inj_succ, <- N.add_1_r in Hmn, Hheap, Hs, Hw |- *. rewrite reverse_range_snoc by lia.
  cbn [foldM]. rewrite run_bind by solve_transparent.
  destruct (extract_one n l w (N.of_nat (S m))) as (l1&w1&->&Hh1&Hs1&Hp1&Hb1); try done; try nia.
  cbn [mbind outcome_bind].
  assert (Hlen : len l1 = len l) by (unfold len; by rewrite Hp1).
  destruct (IH l1 w1) as (l2&w2&Hr&Hs2&Hp2).
  - unfold slice_len. by rewrite Hlen.
  - lia.
  - lia.
  - lia.
  - done.
  - done.
  - nia.
  - exists l2, w2. split; [done|]. split; [done|]. by rewrite Hp2.
Qed.

Lemma get_cons_succ (x : A) l i : at_ (x :: l) (i + 1) = at_ l i.
Proof using Type.
  rewrite !get_lookup. by replace (N.to_nat (i + 1)) with (S (N.to_nat i)) by lia.
Qed.

Lemma sorted_from_StronglySorted l : sorted_from l 1 -> StronglySorted le l.
Proof using Type.
  induction l as [|x l IH]; intros H; constructor.
  - apply IH. intros i j a b Hij Hj Ha Hb. apply (H (i + 1) (j + 1)); [lia|lia|..];
      by rewrite get_cons_succ.
  - apply Forall_forall. intros y (i&Hi)%elem_of_get.
    apply (H 0 (i + 1)); [lia|lia|done|]. by rewrite get_cons_succ.
Qed.

Lemma cancellable_sort_transparent (l : list A) :
  Transparent (cancellable_sort_unstable_by compare l).
Proof using Type.
  unfold cancellable_sort_unstable_by. cbn zeta. apply transparent_bind; [apply _|]. intros _.
  destruct (len l <? 2); [apply _|].
  apply transparent_bind; [apply _|].
  intros [v w]. apply transparent_bind; [apply _|].
  intros [v' w']. apply transparent_bind; apply _.
Qed.

Lemma sort_correct (l : list A) :
  slice_len l -> 4 * len l * len l < usize_max ->
  exists l', run (cancellable_sort_unstable_by compare l) = Ok l' /\
    StronglySorted le l' /\ l' ≡ₚ l.
Proof using pre.
  intros Hl Hw. unfold cancellable_sort_unstable_by. cbn zeta.
  assert (Ht : forall v w, Transparent
    ('(values, _) ← foldM (extract_step compare (len l)) (v, w) (reverse (range 1 (len l)));
     _ ← check_cancel 0; mret values)).
  { intros v w. apply transparent_bind; [apply _|]. intros [v' w']. apply transparent_bind; apply _. }
  rewrite run_bind; [rewrite run_check_cancel; cbn [mbind outcome_bind]|apply _|].
  2: { intros _. destruct (len l <? 2); [apply _|].
       apply transparent_bind; [apply _|].
       intros [v w]. apply Ht. }
  destruct (N.ltb_spec (len l) 2) as [Hsmall|Hbig].
  { exists l. split; [done|]. split; [|done]. destruct l as [|x [|y l]].
    - constructor.
    - constructor; [constructor|by apply Forall_nil].
    - rewrite !len_cons in Hsmall. lia. }
  pose proof (N.Div0.mul_div_le (len l) 2) as Hd. pose proof (N.Div0.div_mod (len l) 2) as Hdm.
  pose proof (N.mod_lt (len l) 2 ltac:(lia)) as Hml.
  destruct (build_correct (len l) (N.to_nat (len l / 2)) l 0) as (l1&w1&Hr1&Hh1&Hp1&Hb1).
  - done.
  - done.
  - lia.
  - intros p c x y Hp Hc Hpc. exfalso. unfold child_of in Hpc. rewrite N2Nat.id in Hp.
    revert Hp Hdm Hml. generalize (len l / 2) as q, (len l mod 2) as r. lia.
  - rewrite N2Nat.id. revert Hd. generalize (len l / 2). nia.
  - rewrite N2Nat.id in *. rewrite run_bind; [|apply _|intros [v w]; apply Ht]. rewrite Hr1. cbn [mbind outcome_bind].
    assert (Hlen : len l1 = len l) by (unfold len; by rewrite Hp1).
    destruct (extract_correct (len l) (N.to_nat (len l)) l1 w1) as (l2&w2&Hr2&Hs2&Hp2).
    + unfold slice_len. by rewrite Hlen.
    + done.
    + lia.
    + lia.
    + by rewrite N2Nat.id.
    + rewrite N2Nat.id. intros i j x y Hij Hj Hx Hy. apply get_Some_lt in Hy. lia.
    + rewrite N2Nat.id. revert Hb1 Hd. generalize (len l / 2). nia.
    + rewrite N2Nat.id in Hr2. rewrite run_bind; [|apply _|intros [v w]; solve_transparent].
      rewrite Hr2. cbn [mbind outcome_bind]. run_steps.
      exists l2. split; [done|]. split; [by apply sorted_from_StronglySorted|]. by rewrite Hp2.
Qed.
End correct.

(** ** Retain *)

Section retain.
Context {A : Type} (retain : A -> bool).

#[local] Instance retain_step_transparent st i : Transparent (retain_step retain st i).
Proof using Type. destruct st. unfold retain_step. solve_transparent. Qed.

Lemma cancellable_retain_transparent (l : list A) : Transparent (cancellable_retain retain l).
Proof using Type.
  unfold cancellable_retain. apply transparent_bind; [apply _|]. intros [v w]. solve_transparent.
Qed.

(** After [i] reads the kept values of the prefix are at the front, and the
    unread tail is untouched. *)
Record retain_inv (l : list A) (i : N) (st : list A * usize) : Prop := {
  rt_front : take (N.to_nat st.2) st.1 = List.filter retain (take (N.to_nat i) l);
  rt_tail : drop (N.to_nat i) st.1 = drop (N.to_nat i) l;
  rt_len : len st.1 = len l;
  rt_write : st.2 <= i;
}.

Lemma take_snoc (l : list A) i x : get l i = Some x ->
  take (N.to_nat (i + 1)) l = take (N.to_nat i) l ++ [x].
Proof using Type.
  rewrite get_lookup. intros H. replace (N.to_nat (i + 1)) with (S (N.to_nat i)) by lia.
  by apply take_S_r.
Qed.

Lemma filter_snoc (l : list A) x :
  List.filter retain (l ++ [x]) = List.filter retain l ++ (if retain x then [x] else []).
Proof using Type. rewrite List.filter_app. cbn. by destruct (retain x). Qed.

Lemma drop_succ_eq (l k : list A) i : drop (N.to_nat i) l = drop (N.to_nat i) k ->
  get l i = get k i /\ drop (N.to_nat (i + 1)) l = drop (N.to_nat (i + 1)) k.
Proof using Type.
  intros H. replace (N.to_nat (i + 1)) with (N.to_nat i + 1)%nat by lia.
  rewrite <- !drop_drop, H. split; [|done]. rewrite !get_lookup.
  replace (N.to_nat i) with (N.to_nat i + 0)%nat by lia. by rewrite <- !lookup_drop, H.
Qed.

Lemma retain_step_correct (l : list A) i st :
  len l <= usize_max -> i < len l -> retain_inv l i st ->
  exists st', run (retain_step retain st i) = Ok st' /\ retain_inv l (i + 1) st'.
Proof using Type.
  intros Hsz Hi [Hf Ht Hl Hw]. destruct st as [v w]. cbn [fst snd] in *.
  destruct (get_lt_Some l i Hi) as [x Hx]. destruct (drop_succ_eq v l i Ht) as [Hg Hd].
  rewrite Hx in Hg. unfold retain_step. run_steps.
  rewrite (proj2 (index_Ok v i x) Hg). run_steps.
  assert (Hstep : List.filter retain (take (N.to_nat (i + 1)) l) =
    take (N.to_nat w) v ++ (if retain x then [x] else [])).
  { by rewrite (take_snoc l i x Hx), filter_snoc, <- Hf. }
  destruct (retain x); cbn [negb]; cycle 1.
  { rewrite run_ret. eexists. split; [done|]. split; cbn [fst snd]; [|done|done|lia].
    by rewrite Hstep, app_nil_r. }
  destruct (N.eqb_spec i w) as [->|Hiw]; cbn [negb]; run_steps.
  - rewrite (proj2 (checked_add_Some w 1 (w + 1)) ltac:(lia)). cbn [ok_or]. run_steps. eexists. split; [done|]. split; cbn [fst snd]; [|done|done|lia].
    by rewrite Hstep, (take_snoc v w x Hg).
  - destruct (get_lt_Some v w) as [y Hy]; [lia|].
    destruct (swap_Ok v i w x y Hg Hy) as (v'&->&Hget&Hperm). cbn [mbind outcome_bind].
    rewrite (proj2 (checked_add_Some w 1 (w + 1)) ltac:(lia)). cbn [ok_or]. run_steps. eexists. split; [done|].
    pose proof (Hperm (i + 1) ltac:(lia) ltac:(lia)) as Hp.
    split; cbn [fst snd]; [| | |lia].
    + rewrite Hstep, (take_snoc v' w x) by (by rewrite Hget, N.eqb_refl). f_equal.
      apply list_eq_same_length with (n := length (take (N.to_nat w) v)); [done| |].
      * pose proof (permuted_len _ _ _ Hp) as Hlen. unfold len in Hlen. rewrite !length_take. lia.
      * intros j a b Hj Ha Hb. rewrite length_take in Hj. rewrite lookup_take_lt in Ha, Hb by lia.
        assert (Hgj : get v' (N.of_nat j) = get v (N.of_nat j)).
        { rewrite Hget. destruct (N.eqb_spec (N.of_nat j) w); [lia|].
          by destruct (N.eqb_spec (N.of_nat j) i); [lia|]. }
        rewrite !get_lookup, Nat2N.id in Hgj. congruence.
    + destruct Hp as [_ Hp]. by rewrite Hp.
    + by rewrite (permuted_len _ _ _ Hp).
Qed.

(** The pass keeps the values [retain] accepts, in their order. *)
Lemma retain_correct (l : list A) : len l <= usize_max ->
  run (cancellable_retain retain l) = Ok (List.filter retain l).
Proof using Type.
  intros Hsz. unfold cancellable_retain.
  assert (Hloop : forall n, N.of_nat n <= len l -> exists st,
    run (foldM (retain_step retain) (l, 0) (range 0 (N.of_nat n))) = Ok st /\
    retain_inv l (N.of_nat n) st).
  { induction n as [|n IH]; intros Hn.
    { exists (l, 0). split; [done|]. split; cbn; by rewrite ?take_0. }
    destruct IH as ([v w]&Hr&I); [lia|].
    destruct (retain_step_correct l (N.of_nat n) (v, w) Hsz ltac:(lia) I) as (st'&Hs&I').
    exists st'. rewrite Nat2N.inj_succ, <- N.add_1_r. split; [|done].
    rewrite range_snoc by lia. rewrite run_foldM in Hr |- * by apply _.
    rewrite foldM_app, Hr. cbn [mbind outcome_bind foldM]. by rewrite Hs. }
  destruct (Hloop (N.to_nat (len l))) as ([v w]&Hr&[Hf _ _ _]); [lia|].
  rewrite N2Nat.id in Hr, Hf. rewrite run_bind; [|apply _|intros [? ?]; solve_transparent].
  rewrite Hr. cbn [mbind outcome_bind]. run_steps. f_equal. cbn [fst snd] in Hf. rewrite Hf.
  unfold len. rewrite Nat2N.id. by rewrite firstn_all.
Qed.
End retain.

(** ** Permutation, without any bound *)

Lemma swap_permutes {A} (l : list A) i j : ensures (fun l' => l' ≡ₚ l) (swap l i j).
Proof.
  unfold swap, store. intros l'. intros (a&Ha&H)%bind_Ok. apply bind_Ok in H as (b&Hb&H).
  apply index_Ok in Ha, Hb. pose proof (get_Some_lt _ _ _ Ha) as Hi.
  pose proof (get_Some_lt _ _ _ Hb) as Hj. rewrite get_lookup in Ha, Hb.
  destruct (N.ltb_spec i (len l)); [|lia]. cbn [mbind outcome_bind] in H.
  destruct (N.ltb_spec j (len (<[N.to_nat i:=b]> l))); [|done]. injection H as <-.
  by apply Permutation_insert_swap.
Qed.

Lemma sift_down_permutes {A} (compare : A -> A -> comparison) fuel l root end_ work :
  post (fun st => st.1 ≡ₚ l) (sift_down compare fuel l root end_ work).
Proof.
  revert l root work. induction fuel as [|fuel IH]; intros l root work; cbn [sift_down]; [by apply post_lift|].
  eapply (post_bind (fun _ => True)); [apply post_trivial|]. intros left _.
  destruct (end_ <=? left); [by apply post_ret|].
  eapply (post_bind (fun _ => True)); [apply post_trivial|]. intros right _.
  eapply (post_bind (fun _ => True)); [apply post_trivial|]. intros [child work'] _.
  do 3 (eapply (post_bind (fun _ => True)); [apply post_trivial|]; intros ? _).
  destruct (negb _); [by apply post_ret|].
  eapply post_bind; [apply post_lift, swap_permutes|]. intros l' Hl.
  eapply post_mono; [|apply IH]. intros st ->. done.
Qed.

Lemma sort_permutes {A} (compare : A -> A -> comparison) l :
  post (fun l' => l' ≡ₚ l) (cancellable_sort_unstable_by compare l).
Proof.
  unfold cancellable_sort_unstable_by. eapply (post_bind (fun _ => True)); [apply post_trivial|].
  intros _ _. cbn zeta. destruct (len l <? 2); [by apply post_ret|].
  eapply (post_bind (fun st => st.1 ≡ₚ l)).
  { apply post_foldM; [done|]. intros [values work] root _ Hv. eapply post_mono; [|apply sift_down_permutes].
    intros st ->. exact Hv. }
  intros [values work] Hv. cbn in Hv. eapply (post_bind (fun st => st.1 ≡ₚ l)).
  { apply post_foldM; [done|]. intros [values' work'] end_ _ Hv'. cbn in Hv'. unfold extract_step.
    eapply post_bind; [apply post_lift, swap_permutes|]. intros l' Hl'.
    eapply post_mono; [|apply sift_down_permutes]. intros st ->. by rewrite Hl'. }
  intros [values' work'] Hv'. eapply (post_bind (fun _ => True)); [apply post_trivial|].
  intros _ _. by apply post_ret.
Qed.

(** ** Theorems *)

(** C29: [cancellable_sort_unstable_by] terminates and returns a sorted
    permutation of the slice for every total preorder the callers compare
    with; observing a cancellation aborts it, and it is observed even when the
    slice is empty. *)
Theorem cancellable_sort_sorts {A} (compare : A -> A -> comparison) (l : list A) obs :
  CmpPreorder compare -> slice_len l -> 4 * len l * len l < usize_max ->
  (exists l', run (cancellable_sort_unstable_by compare l) = Ok l' /\
     StronglySorted (le compare) l' /\ l' ≡ₚ l /\
     (fst (cancellable_sort_unstable_by compare l obs 0%nat) = Err Cancelled \/
      fst (cancellable_sort_unstable_by compare l obs 0%nat) = Ok l')) /\
  fst (cancellable_sort_unstable_by compare l (fun _ => STATE_CANCELLED) 0%nat) = Err Cancelled.
Proof.
  intros Hc Hl Hw. split; [|done].
  destruct (sort_correct compare l Hl Hw) as (l'&Hr&Hs&Hp). exists l'. repeat split; [done..|].
  rewrite <- Hr. pose proof (cancellable_sort_transparent compare l). apply transparent_obs.
Qed.

(** [cancellable_retain] keeps exactly the accepted values in their order,
    like [Vec::retain], unless a cancellation is reported. *)
Theorem cancellable_retain_filters {A} (retain : A -> bool) (l : list A) obs :
  len l <= usize_max ->
  run (cancellable_retain retain l) = Ok (List.filter retain l) /\
  (fst (cancellable_retain retain l obs 0%nat) = Err Cancelled \/
   fst (cancellable_retain retain l obs 0%nat) = Ok (List.filter retain l)).
Proof.
  intros Hl. rewrite <- (retain_correct retain l Hl). split; [done|].
  pose proof (cancellable_retain_transparent retain l). apply transparent_obs.
Qed.

Lemma cancellable_sort_sorts_witness :
  run (cancellable_sort_unstable_by N.compare [5; 3; 9; 3; 1]) = Ok [1; 3; 3; 5; 9] /\
  exists l', run (cancellable_sort_unstable_by N.compare [5; 3; 9; 3; 1]) = Ok l' /\
    StronglySorted (le N.compare) l' /\ l' ≡ₚ [5; 3; 9; 3; 1] /\
    (fst (cancellable_sort_unstable_by N.compare [5; 3; 9; 3; 1] quiet 0%nat) = Err Cancelled \/
     fst (cancellable_sort_unstable_by N.compare [5; 3; 9; 3; 1] quiet 0%nat) = Ok l').
Proof.
  split; [by vm_compute|].
  apply (cancellable_sort_sorts N.compare [5; 3; 9; 3; 1] quiet); [apply _|by vm_compute..].
Defined.

Lemma cancellable_retain_filters_witness :
  run (cancellable_retain N.even [5; 4; 9; 2; 1]) = Ok [4; 2].
Proof. apply (cancellable_retain_filters N.even [5; 4; 9; 2; 1] quiet). by vm_compute. Defined.
