(* ===== verification/Stats.v ===== *)
(** * Options, statistics and root counters

    [DirectCompileOptions], [DirectCompileStats], [RootCounts] and
    [RootCounter] of native/src/encoded_direct.rs.  Every counter is a [usize]
    and is only ever incremented through [checked_add]. *)

From S2P Require Import Prelude Errors.
Local Open Scope string_scope.
Local Open Scope list_scope.
Local Open Scope N_scope.

Record DirectCompileOptions := {
  bidirectional : bool;
  asserted_taxonomy_only : bool;
  only_taxonomy : bool;
  include_literals : bool;
  max_edges : usize;
  max_iri_bytes : usize;
}.

(** [DirectCompileStats]. *)
Module Stats.

Record DirectCompileStats := {
  roots : usize;
  nodes : usize;
  anonymous_individuals : usize;
  ontology_annotations : usize;
  swrl_rules : usize;
  declarations : usize;
  subclasses : usize;
  restriction_subclasses : usize;
  ignored_subclasses : usize;
  equivalents : usize;
  aggregate_equivalents : usize;
  equivalent_base_edges : usize;
  ignored_equivalents : usize;
  disjoint_classes : usize;
  disjoint_unions : usize;
  has_keys : usize;
  same_individuals : usize;
  different_individuals : usize;
  class_assertions : usize;
  ignored_class_assertions : usize;
  object_property_assertions : usize;
  negative_object_property_assertions : usize;
  sub_object_properties : usize;
  object_property_chains : usize;
  equivalent_object_properties : usize;
  disjoint_object_properties : usize;
  inverse_object_properties : usize;
  functional_object_properties : usize;
  inverse_functional_object_properties : usize;
  reflexive_object_properties : usize;
  irreflexive_object_properties : usize;
  symmetric_object_properties : usize;
  asymmetric_object_properties : usize;
  transitive_object_properties : usize;
  sub_data_properties : usize;
  equivalent_data_properties : usize;
  disjoint_data_properties : usize;
  data_property_domains : usize;
  data_property_ranges : usize;
  functional_data_properties : usize;
  datatype_definitions : usize;
  data_property_assertions : usize;
  negative_data_property_assertions : usize;
  annotation_assertions : usize;
  selected_annotation_assertions : usize;
  sub_annotation_properties : usize;
  annotation_property_domains : usize;
  annotation_property_ranges : usize;
  annotation_edges : usize;
  non_string_literal_renderings : usize;
  skipped_axioms : usize;
  object_property_domains : usize;
  object_property_ranges : usize;
  ignored_object_property_domains : usize;
  ignored_object_property_ranges : usize;
  domain_range_edges : usize;
  role_expansion_edges : usize;
  edges : usize;
  buffer_bytes : usize;
  root_provenance_buffer_bytes : usize;
}.

#[global] Instance eta_t : Eta DirectCompileStats := fun r =>
  {| roots := r.(roots);
     nodes := r.(nodes);
     anonymous_individuals := r.(anonymous_individuals);
     ontology_annotations := r.(ontology_annotations);
     swrl_rules := r.(swrl_rules);
     declarations := r.(declarations);
     subclasses := r.(subclasses);
     restriction_subclasses := r.(restriction_subclasses);
     ignored_subclasses := r.(ignored_subclasses);
     equivalents := r.(equivalents);
     aggregate_equivalents := r.(aggregate_equivalents);
     equivalent_base_edges := r.(equivalent_base_edges);
     ignored_equivalents := r.(ignored_equivalents);
     disjoint_classes := r.(disjoint_classes);
     disjoint_unions := r.(disjoint_unions);
     has_keys := r.(has_keys);
     same_individuals := r.(same_individuals);
     different_individuals := r.(different_individuals);
     class_assertions := r.(class_assertions);
     ignored_class_assertions := r.(ignored_class_assertions);
     object_property_assertions := r.(object_property_assertions);
     negative_object_property_assertions := r.(negative_object_property_assertions);
     sub_object_properties := r.(sub_object_properties);
     object_property_chains := r.(object_property_chains);
     equivalent_object_properties := r.(equivalent_object_properties);
     disjoint_object_properties := r.(disjoint_object_properties);
     inverse_object_properties := r.(inverse_object_properties);
     functional_object_properties := r.(functional_object_properties);
     inverse_functional_object_properties := r.(inverse_functional_object_properties);
     reflexive_object_properties := r.(reflexive_object_properties);
     irreflexive_object_properties := r.(irreflexive_object_properties);
     symmetric_object_properties := r.(symmetric_object_properties);
     asymmetric_object_properties := r.(asymmetric_object_properties);
     transitive_object_properties := r.(transitive_object_properties);
     sub_data_properties := r.(sub_data_properties);
     equivalent_data_properties := r.(equivalent_data_properties);
     disjoint_data_properties := r.(disjoint_data_properties);
     data_property_domains := r.(data_property_domains);
     data_property_ranges := r.(data_property_ranges);
     functional_data_properties := r.(functional_data_properties);
     datatype_definitions := r.(datatype_definitions);
     data_property_assertions := r.(data_property_assertions);
     negative_data_property_assertions := r.(negative_data_property_assertions);
     annotation_assertions := r.(annotation_assertions);
     selected_annotation_assertions := r.(selected_annotation_assertions);
     sub_annotation_properties := r.(sub_annotation_properties);
     annotation_property_domains := r.(annotation_property_domains);
     annotation_property_ranges := r.(annotation_property_ranges);
     annotation_edges := r.(annotation_edges);
     non_string_literal_renderings := r.(non_string_literal_renderings);
     skipped_axioms := r.(skipped_axioms);
     object_property_domains := r.(object_property_domains);
     object_property_ranges := r.(object_property_ranges);
     ignored_object_property_domains := r.(ignored_object_property_domains);
     ignored_object_property_ranges := r.(ignored_object_property_ranges);
     domain_range_edges := r.(domain_range_edges);
     role_expansion_edges := r.(role_expansion_edges);
     edges := r.(edges);
     buffer_bytes := r.(buffer_bytes);
     root_provenance_buffer_bytes := r.(root_provenance_buffer_bytes) |}.

(** [derive(Default)] / the zero of every counter. *)
Definition zero : DirectCompileStats :=
  {| roots := 0;
     nodes := 0;
     anonymous_individuals := 0;
     ontology_annotations := 0;
     swrl_rules := 0;
     declarations := 0;
     subclasses := 0;
     restriction_subclasses := 0;
     ignored_subclasses := 0;
     equivalents := 0;
     aggregate_equivalents := 0;
     equivalent_base_edges := 0;
     ignored_equivalents := 0;
     disjoint_classes := 0;
     disjoint_unions := 0;
     has_keys := 0;
     same_individuals := 0;
     different_individuals := 0;
     class_assertions := 0;
     ignored_class_assertions := 0;
     object_property_assertions := 0;
     negative_object_property_assertions := 0;
     sub_object_properties := 0;
     object_property_chains := 0;
     equivalent_object_properties := 0;
     disjoint_object_properties := 0;
     inverse_object_properties := 0;
     functional_object_properties := 0;
     inverse_functional_object_properties := 0;
     reflexive_object_properties := 0;
     irreflexive_object_properties := 0;
     symmetric_object_properties := 0;
     asymmetric_object_properties := 0;
     transitive_object_properties := 0;
     sub_data_properties := 0;
     equivalent_data_properties := 0;
     disjoint_data_properties := 0;
     data_property_domains := 0;
     data_property_ranges := 0;
     functional_data_properties := 0;
     datatype_definitions := 0;
     data_property_assertions := 0;
     negative_data_property_assertions := 0;
     annotation_assertions := 0;
     selected_annotation_assertions := 0;
     sub_annotation_properties := 0;
     annotation_property_domains := 0;
     annotation_property_ranges := 0;
     annotation_edges := 0;
     non_string_literal_renderings := 0;
     skipped_axioms := 0;
     object_property_domains := 0;
     object_property_ranges := 0;
     ignored_object_property_domains := 0;
     ignored_object_property_ranges := 0;
     domain_range_edges := 0;
     role_expansion_edges := 0;
     edges := 0;
     buffer_bytes := 0;
     root_provenance_buffer_bytes := 0 |}.

End Stats.

(** [RootCounts]. *)
Module Counts.

Record RootCounts := {
  ontology_annotations : usize;
  swrl_rules : usize;
  declarations : usize;
  subclasses : usize;
  restriction_subclasses : usize;
  ignored_subclasses : usize;
  equivalents : usize;
  aggregate_equivalents : usize;
  disjoint_classes : usize;
  disjoint_unions : usize;
  has_keys : usize;
  same_individuals : usize;
  different_individuals : usize;
  class_assertions : usize;
  ignored_class_assertions : usize;
  object_property_assertions : usize;
  negative_object_property_assertions : usize;
  sub_object_properties : usize;
  object_property_chains : usize;
  equivalent_object_properties : usize;
  disjoint_object_properties : usize;
  inverse_object_properties : usize;
  functional_object_properties : usize;
  inverse_functional_object_properties : usize;
  reflexive_object_properties : usize;
  irreflexive_object_properties : usize;
  symmetric_object_properties : usize;
  asymmetric_object_properties : usize;
  transitive_object_properties : usize;
  sub_data_properties : usize;
  equivalent_data_properties : usize;
  disjoint_data_properties : usize;
  data_property_domains : usize;
  data_property_ranges : usize;
  functional_data_properties : usize;
  datatype_definitions : usize;
  data_property_assertions : usize;
  negative_data_property_assertions : usize;
  annotation_assertions : usize;
  sub_annotation_properties : usize;
  annotation_property_domains : usize;
  annotation_property_ranges : usize;
  object_property_domains : usize;
  object_property_ranges : usize;
  ignored_object_property_domains : usize;
  ignored_object_property_ranges : usize;
}.

#[global] Instance eta_t : Eta RootCounts := fun r =>
  {| ontology_annotations := r.(ontology_annotations);
     swrl_rules := r.(swrl_rules);
     declarations := r.(declarations);
     subclasses := r.(subclasses);
     restriction_subclasses := r.(restriction_subclasses);
     ignored_subclasses := r.(ignored_subclasses);
     equivalents := r.(equivalents);
     aggregate_equivalents := r.(aggregate_equivalents);
     disjoint_classes := r.(disjoint_classes);
     disjoint_unions := r.(disjoint_unions);
     has_keys := r.(has_keys);
     same_individuals := r.(same_individuals);
     different_individuals := r.(different_individuals);
     class_assertions := r.(class_assertions);
     ignored_class_assertions := r.(ignored_class_assertions);
     object_property_assertions := r.(object_property_assertions);
     negative_object_property_assertions := r.(negative_object_property_assertions);
     sub_object_properties := r.(sub_object_properties);
     object_property_chains := r.(object_property_chains);
     equivalent_object_properties := r.(equivalent_object_properties);
     disjoint_object_properties := r.(disjoint_object_properties);
     inverse_object_properties := r.(inverse_object_properties);
     functional_object_properties := r.(functional_object_properties);
     inverse_functional_object_properties := r.(inverse_functional_object_properties);
     reflexive_object_properties := r.(reflexive_object_properties);
     irreflexive_object_properties := r.(irreflexive_object_properties);
     symmetric_object_properties := r.(symmetric_object_properties);
     asymmetric_object_properties := r.(asymmetric_object_properties);
     transitive_object_properties := r.(transitive_object_properties);
     sub_data_properties := r.(sub_data_properties);
     equivalent_data_properties := r.(equivalent_data_properties);
     disjoint_data_properties := r.(disjoint_data_properties);
     data_property_domains := r.(data_property_domains);
     data_property_ranges := r.(data_property_ranges);
     functional_data_properties := r.(functional_data_properties);
     datatype_definitions := r.(datatype_definitions);
     data_property_assertions := r.(data_property_assertions);
     negative_data_property_assertions := r.(negative_data_property_assertions);
     annotation_assertions := r.(annotation_assertions);
     sub_annotation_properties := r.(sub_annotation_properties);
     annotation_property_domains := r.(annotation_property_domains);
     annotation_property_ranges := r.(annotation_property_ranges);
     object_property_domains := r.(object_property_domains);
     object_property_ranges := r.(object_property_ranges);
     ignored_object_property_domains := r.(ignored_object_property_domains);
     ignored_object_property_ranges := r.(ignored_object_property_ranges) |}.

(** [derive(Default)] / the zero of every counter. *)
Definition zero : RootCounts :=
  {| ontology_annotations := 0;
     swrl_rules := 0;
     declarations := 0;
     subclasses := 0;
     restriction_subclasses := 0;
     ignored_subclasses := 0;
     equivalents := 0;
     aggregate_equivalents := 0;
     disjoint_classes := 0;
     disjoint_unions := 0;
     has_keys := 0;
     same_individuals := 0;
     different_individuals := 0;
     class_assertions := 0;
     ignored_class_assertions := 0;
     object_property_assertions := 0;
     negative_object_property_assertions := 0;
     sub_object_properties := 0;
     object_property_chains := 0;
     equivalent_object_properties := 0;
     disjoint_object_properties := 0;
     inverse_object_properties := 0;
     functional_object_properties := 0;
     inverse_functional_object_properties := 0;
     reflexive_object_properties := 0;
     irreflexive_object_properties := 0;
     symmetric_object_properties := 0;
     asymmetric_object_properties := 0;
     transitive_object_properties := 0;
     sub_data_properties := 0;
     equivalent_data_properties := 0;
     disjoint_data_properties := 0;
     data_property_domains := 0;
     data_property_ranges := 0;
     functional_data_properties := 0;
     datatype_definitions := 0;
     data_property_assertions := 0;
     negative_data_property_assertions := 0;
     annotation_assertions := 0;
     sub_annotation_properties := 0;
     annotation_property_domains := 0;
     annotation_property_ranges := 0;
     object_property_domains := 0;
     object_property_ranges := 0;
     ignored_object_property_domains := 0;
     ignored_object_property_ranges := 0 |}.

End Counts.

(** [RootCounter]. *)
Module RootCounter.

Inductive RootCounter :=
  | OntologyAnnotations
  | SwrlRules
  | Declarations
  | Subclasses
  | Equivalents
  | DisjointClasses
  | DisjointUnions
  | HasKeys
  | SameIndividuals
  | DifferentIndividuals
  | ClassAssertions
  | ObjectPropertyAssertions
  | NegativeObjectPropertyAssertions
  | SubObjectProperties
  | EquivalentObjectProperties
  | DisjointObjectProperties
  | InverseObjectProperties
  | FunctionalObjectProperties
  | InverseFunctionalObjectProperties
  | ReflexiveObjectProperties
  | IrreflexiveObjectProperties
  | SymmetricObjectProperties
  | AsymmetricObjectProperties
  | TransitiveObjectProperties
  | SubDataProperties
  | EquivalentDataProperties
  | DisjointDataProperties
  | DataPropertyDomains
  | DataPropertyRanges
  | FunctionalDataProperties
  | DatatypeDefinitions
  | DataPropertyAssertions
  | NegativeDataPropertyAssertions
  | AnnotationAssertions
  | SubAnnotationProperties
  | AnnotationPropertyDomains
  | AnnotationPropertyRanges
  | ObjectPropertyDomains
  | ObjectPropertyRanges.

#[global] Instance t_eq_dec : EqDecision RootCounter.
Proof. solve_decision. Defined.

Definition all : list RootCounter :=
  [ OntologyAnnotations;
    SwrlRules;
    Declarations;
    Subclasses;
    Equivalents;
    DisjointClasses;
    DisjointUnions;
    HasKeys;
    SameIndividuals;
    DifferentIndividuals;
    ClassAssertions;
    ObjectPropertyAssertions;
    NegativeObjectPropertyAssertions;
    SubObjectProperties;
    EquivalentObjectProperties;
    DisjointObjectProperties;
    InverseObjectProperties;
    FunctionalObjectProperties;
    InverseFunctionalObjectProperties;
    ReflexiveObjectProperties;
    IrreflexiveObjectProperties;
    SymmetricObjectProperties;
    AsymmetricObjectProperties;
    TransitiveObjectProperties;
    SubDataProperties;
    EquivalentDataProperties;
    DisjointDataProperties;
    DataPropertyDomains;
    DataPropertyRanges;
    FunctionalDataProperties;
    DatatypeDefinitions;
    DataPropertyAssertions;
    NegativeDataPropertyAssertions;
    AnnotationAssertions;
    SubAnnotationProperties;
    AnnotationPropertyDomains;
    AnnotationPropertyRanges;
    ObjectPropertyDomains;
    ObjectPropertyRanges ].

End RootCounter.

(** [*counter = counter.checked_add(1).ok_or_else(..)?]. *)
Definition bump {R} (counter : usize) (message : string) (set : usize -> R) : outcome R :=
  value ← ok_or (checked_add counter 1) (resource message);
  Ok (set value).

(** [RootCounter::increment]. *)
Definition increment (self : RootCounter.RootCounter) (counts : Counts.RootCounts) : outcome Counts.RootCounts :=
  match self with
  | RootCounter.OntologyAnnotations =>
      bump counts.(Counts.ontology_annotations) "encoded ontology-annotation count overflow"
        (fun value => counts <| Counts.ontology_annotations := value |>)
  | RootCounter.SwrlRules =>
      bump counts.(Counts.swrl_rules) "encoded SWRL-rule count overflow"
        (fun value => counts <| Counts.swrl_rules := value |>)
  | RootCounter.Declarations =>
      bump counts.(Counts.declarations) "encoded declaration-count overflow"
        (fun value => counts <| Counts.declarations := value |>)
  | RootCounter.Subclasses =>
      bump counts.(Counts.subclasses) "encoded subclass-count overflow"
        (fun value => counts <| Counts.subclasses := value |>)
  | RootCounter.Equivalents =>
      bump counts.(Counts.equivalents) "encoded equivalent-class count overflow"
        (fun value => counts <| Counts.equivalents := value |>)
  | RootCounter.DisjointClasses =>
      bump counts.(Counts.disjoint_classes) "encoded disjoint-class count overflow"
        (fun value => counts <| Counts.disjoint_classes := value |>)
  | RootCounter.DisjointUnions =>
      bump counts.(Counts.disjoint_unions) "encoded disjoint-union count overflow"
        (fun value => counts <| Counts.disjoint_unions := value |>)
  | RootCounter.HasKeys =>
      bump counts.(Counts.has_keys) "encoded has-key count overflow"
        (fun value => counts <| Counts.has_keys := value |>)
  | RootCounter.SameIndividuals =>
      bump counts.(Counts.same_individuals) "encoded same-individual count overflow"
        (fun value => counts <| Counts.same_individuals := value |>)
  | RootCounter.DifferentIndividuals =>
      bump counts.(Counts.different_individuals) "encoded different-individual count overflow"
        (fun value => counts <| Counts.different_individuals := value |>)
  | RootCounter.ClassAssertions =>
      bump counts.(Counts.class_assertions) "encoded class-assertion count overflow"
        (fun value => counts <| Counts.class_assertions := value |>)
  | RootCounter.ObjectPropertyAssertions =>
      bump counts.(Counts.object_property_assertions) "encoded object-property-assertion count overflow"
        (fun value => counts <| Counts.object_property_assertions := value |>)
  | RootCounter.NegativeObjectPropertyAssertions =>
      bump counts.(Counts.negative_object_property_assertions) "encoded negative-object-property-assertion count overflow"
        (fun value => counts <| Counts.negative_object_property_assertions := value |>)
  | RootCounter.SubObjectProperties =>
      bump counts.(Counts.sub_object_properties) "encoded sub-object-property count overflow"
        (fun value => counts <| Counts.sub_object_properties := value |>)
  | RootCounter.EquivalentObjectProperties =>
      bump counts.(Counts.equivalent_object_properties) "encoded equivalent-object-property count overflow"
        (fun value => counts <| Counts.equivalent_object_properties := value |>)
  | RootCounter.DisjointObjectProperties =>
      bump counts.(Counts.disjoint_object_properties) "encoded disjoint-object-property count overflow"
        (fun value => counts <| Counts.disjoint_object_properties := value |>)
  | RootCounter.InverseObjectProperties =>
      bump counts.(Counts.inverse_object_properties) "encoded inverse-object-property count overflow"
        (fun value => counts <| Counts.inverse_object_properties := value |>)
  | RootCounter.FunctionalObjectProperties =>
      bump counts.(Counts.functional_object_properties) "encoded functional-object-property count overflow"
        (fun value => counts <| Counts.functional_object_properties := value |>)
  | RootCounter.InverseFunctionalObjectProperties =>
      bump counts.(Counts.inverse_functional_object_properties) "encoded inverse-functional-object-property count overflow"
        (fun value => counts <| Counts.inverse_functional_object_properties := value |>)
  | RootCounter.ReflexiveObjectProperties =>
      bump counts.(Counts.reflexive_object_properties) "encoded reflexive-object-property count overflow"
        (fun value => counts <| Counts.reflexive_object_properties := value |>)
  | RootCounter.IrreflexiveObjectProperties =>
      bump counts.(Counts.irreflexive_object_properties) "encoded irreflexive-object-property count overflow"
        (fun value => counts <| Counts.irreflexive_object_properties := value |>)
  | RootCounter.SymmetricObjectProperties =>
      bump counts.(Counts.symmetric_object_properties) "encoded symmetric-object-property count overflow"
        (fun value => counts <| Counts.symmetric_object_properties := value |>)
  | RootCounter.AsymmetricObjectProperties =>
      bump counts.(Counts.asymmetric_object_properties) "encoded asymmetric-object-property count overflow"
        (fun value => counts <| Counts.asymmetric_object_properties := value |>)
  | RootCounter.TransitiveObjectProperties =>
      bump counts.(Counts.transitive_object_properties) "encoded transitive-object-property count overflow"
        (fun value => counts <| Counts.transitive_object_properties := value |>)
  | RootCounter.SubDataProperties =>
      bump counts.(Counts.sub_data_properties) "encoded sub-data-property count overflow"
        (fun value => counts <| Counts.sub_data_properties := value |>)
  | RootCounter.EquivalentDataProperties =>
      bump counts.(Counts.equivalent_data_properties) "encoded equivalent-data-property count overflow"
        (fun value => counts <| Counts.equivalent_data_properties := value |>)
  | RootCounter.DisjointDataProperties =>
      bump counts.(Counts.disjoint_data_properties) "encoded disjoint-data-property count overflow"
        (fun value => counts <| Counts.disjoint_data_properties := value |>)
  | RootCounter.DataPropertyDomains =>
      bump counts.(Counts.data_property_domains) "encoded data-property-domain count overflow"
        (fun value => counts <| Counts.data_property_domains := value |>)
  | RootCounter.DataPropertyRanges =>
      bump counts.(Counts.data_property_ranges) "encoded data-property-range count overflow"
        (fun value => counts <| Counts.data_property_ranges := value |>)
  | RootCounter.FunctionalDataProperties =>
      bump counts.(Counts.functional_data_properties) "encoded functional-data-property count overflow"
        (fun value => counts <| Counts.functional_data_properties := value |>)
  | RootCounter.DatatypeDefinitions =>
      bump counts.(Counts.datatype_definitions) "encoded datatype-definition count overflow"
        (fun value => counts <| Counts.datatype_definitions := value |>)
  | RootCounter.DataPropertyAssertions =>
      bump counts.(Counts.data_property_assertions) "encoded data-property-assertion count overflow"
        (fun value => counts <| Counts.data_property_assertions := value |>)
  | RootCounter.NegativeDataPropertyAssertions =>
      bump counts.(Counts.negative_data_property_assertions) "encoded negative-data-property-assertion count overflow"
        (fun value => counts <| Counts.negative_data_property_assertions := value |>)
  | RootCounter.AnnotationAssertions =>
      bump counts.(Counts.annotation_assertions) "encoded annotation-assertion count overflow"
        (fun value => counts <| Counts.annotation_assertions := value |>)
  | RootCounter.SubAnnotationProperties =>
      bump counts.(Counts.sub_annotation_properties) "encoded sub-annotation-property count overflow"
        (fun value => counts <| Counts.sub_annotation_properties := value |>)
  | RootCounter.AnnotationPropertyDomains =>
      bump counts.(Counts.annotation_property_domains) "encoded annotation-property-domain count overflow"
        (fun value => counts <| Counts.annotation_property_domains := value |>)
  | RootCounter.AnnotationPropertyRanges =>
      bump counts.(Counts.annotation_property_ranges) "encoded annotation-property-range count overflow"
        (fun value => counts <| Counts.annotation_property_ranges := value |>)
  | RootCounter.ObjectPropertyDomains =>
      bump counts.(Counts.object_property_domains) "encoded object-property-domain count overflow"
        (fun value => counts <| Counts.object_property_domains := value |>)
  | RootCounter.ObjectPropertyRanges =>
      bump counts.(Counts.object_property_ranges) "encoded object-property-range count overflow"
        (fun value => counts <| Counts.object_property_ranges := value |>)
  end.

(** [RootCounter::increment_statistics]. *)
Definition increment_statistics (self : RootCounter.RootCounter) (statistics : Stats.DirectCompileStats) : outcome Stats.DirectCompileStats :=
  match self with
  | RootCounter.OntologyAnnotations =>
      bump statistics.(Stats.ontology_annotations) "encoded ontology-annotation count overflow"
        (fun value => statistics <| Stats.ontology_annotations := value |>)
  | RootCounter.SwrlRules =>
      bump statistics.(Stats.swrl_rules) "encoded SWRL-rule count overflow"
        (fun value => statistics <| Stats.swrl_rules := value |>)
  | RootCounter.Declarations =>
      bump statistics.(Stats.declarations) "encoded declaration-count overflow"
        (fun value => statistics <| Stats.declarations := value |>)
  | RootCounter.Subclasses =>
      bump statistics.(Stats.subclasses) "encoded subclass-count overflow"
        (fun value => statistics <| Stats.subclasses := value |>)
  | RootCounter.Equivalents =>
      bump statistics.(Stats.equivalents) "encoded equivalent-class count overflow"
        (fun value => statistics <| Stats.equivalents := value |>)
  | RootCounter.DisjointClasses =>
      bump statistics.(Stats.disjoint_classes) "encoded disjoint-class count overflow"
        (fun value => statistics <| Stats.disjoint_classes := value |>)
  | RootCounter.DisjointUnions =>
      bump statistics.(Stats.disjoint_unions) "encoded disjoint-union count overflow"
        (fun value => statistics <| Stats.disjoint_unions := value |>)
  | RootCounter.HasKeys =>
      bump statistics.(Stats.has_keys) "encoded has-key count overflow"
        (fun value => statistics <| Stats.has_keys := value |>)
  | RootCounter.SameIndividuals =>
      bump statistics.(Stats.same_individuals) "encoded same-individual count overflow"
        (fun value => statistics <| Stats.same_individuals := value |>)
  | RootCounter.DifferentIndividuals =>
      bump statistics.(Stats.different_individuals) "encoded different-individuals count overflow"
        (fun value => statistics <| Stats.different_individuals := value |>)
  | RootCounter.ClassAssertions =>
      bump statistics.(Stats.class_assertions) "encoded class-assertion count overflow"
        (fun value => statistics <| Stats.class_assertions := value |>)
  | RootCounter.ObjectPropertyAssertions =>
      bump statistics.(Stats.object_property_assertions) "encoded object-property-assertion count overflow"
        (fun value => statistics <| Stats.object_property_assertions := value |>)
  | RootCounter.NegativeObjectPropertyAssertions =>
      bump statistics.(Stats.negative_object_property_assertions) "encoded negative-object-property-assertion count overflow"
        (fun value => statistics <| Stats.negative_object_property_assertions := value |>)
  | RootCounter.SubObjectProperties =>
      bump statistics.(Stats.sub_object_properties) "encoded sub-object-property count overflow"
        (fun value => statistics <| Stats.sub_object_properties := value |>)
  | RootCounter.EquivalentObjectProperties =>
      bump statistics.(Stats.equivalent_object_properties) "encoded equivalent-object-properties count overflow"
        (fun value => statistics <| Stats.equivalent_object_properties := value |>)
  | RootCounter.DisjointObjectProperties =>
      bump statistics.(Stats.disjoint_object_properties) "encoded disjoint-object-properties count overflow"
        (fun value => statistics <| Stats.disjoint_object_properties := value |>)
  | RootCounter.InverseObjectProperties =>
      bump statistics.(Stats.inverse_object_properties) "encoded inverse-object-properties count overflow"
        (fun value => statistics <| Stats.inverse_object_properties := value |>)
  | RootCounter.FunctionalObjectProperties =>
      bump statistics.(Stats.functional_object_properties) "encoded functional-object-property count overflow"
        (fun value => statistics <| Stats.functional_object_properties := value |>)
  | RootCounter.InverseFunctionalObjectProperties =>
      bump statistics.(Stats.inverse_functional_object_properties) "encoded inverse-functional-object-property count overflow"
        (fun value => statistics <| Stats.inverse_functional_object_properties := value |>)
  | RootCounter.ReflexiveObjectProperties =>
      bump statistics.(Stats.reflexive_object_properties) "encoded reflexive-object-property count overflow"
        (fun value => statistics <| Stats.reflexive_object_properties := value |>)
  | RootCounter.IrreflexiveObjectProperties =>
      bump statistics.(Stats.irreflexive_object_properties) "encoded irreflexive-object-property count overflow"
        (fun value => statistics <| Stats.irreflexive_object_properties := value |>)
  | RootCounter.SymmetricObjectProperties =>
      bump statistics.(Stats.symmetric_object_properties) "encoded symmetric-object-property count overflow"
        (fun value => statistics <| Stats.symmetric_object_properties := value |>)
  | RootCounter.AsymmetricObjectProperties =>
      bump statistics.(Stats.asymmetric_object_properties) "encoded asymmetric-object-property count overflow"
        (fun value => statistics <| Stats.asymmetric_object_properties := value |>)
  | RootCounter.TransitiveObjectProperties =>
      bump statistics.(Stats.transitive_object_properties) "encoded transitive-object-property count overflow"
        (fun value => statistics <| Stats.transitive_object_properties := value |>)
  | RootCounter.SubDataProperties =>
      bump statistics.(Stats.sub_data_properties) "encoded sub-data-property count overflow"
        (fun value => statistics <| Stats.sub_data_properties := value |>)
  | RootCounter.EquivalentDataProperties =>
      bump statistics.(Stats.equivalent_data_properties) "encoded equivalent-data-property count overflow"
        (fun value => statistics <| Stats.equivalent_data_properties := value |>)
  | RootCounter.DisjointDataProperties =>
      bump statistics.(Stats.disjoint_data_properties) "encoded disjoint-data-property count overflow"
        (fun value => statistics <| Stats.disjoint_data_properties := value |>)
  | RootCounter.DataPropertyDomains =>
      bump statistics.(Stats.data_property_domains) "encoded data-property-domain count overflow"
        (fun value => statistics <| Stats.data_property_domains := value |>)
  | RootCounter.DataPropertyRanges =>
      bump statistics.(Stats.data_property_ranges) "encoded data-property-range count overflow"
        (fun value => statistics <| Stats.data_property_ranges := value |>)
  | RootCounter.FunctionalDataProperties =>
      bump statistics.(Stats.functional_data_properties) "encoded functional-data-property count overflow"
        (fun value => statistics <| Stats.functional_data_properties := value |>)
  | RootCounter.DatatypeDefinitions =>
      bump statistics.(Stats.datatype_definitions) "encoded datatype-definition count overflow"
        (fun value => statistics <| Stats.datatype_definitions := value |>)
  | RootCounter.DataPropertyAssertions =>
      bump statistics.(Stats.data_property_assertions) "encoded data-property-assertion count overflow"
        (fun value => statistics <| Stats.data_property_assertions := value |>)
  | RootCounter.NegativeDataPropertyAssertions =>
      bump statistics.(Stats.negative_data_property_assertions) "encoded negative-data-property-assertion count overflow"
        (fun value => statistics <| Stats.negative_data_property_assertions := value |>)
  | RootCounter.AnnotationAssertions =>
      bump statistics.(Stats.annotation_assertions) "encoded annotation-assertion count overflow"
        (fun value => statistics <| Stats.annotation_assertions := value |>)
  | RootCounter.SubAnnotationProperties =>
      bump statistics.(Stats.sub_annotation_properties) "encoded sub-annotation-property count overflow"
        (fun value => statistics <| Stats.sub_annotation_properties := value |>)
  | RootCounter.AnnotationPropertyDomains =>
      bump statistics.(Stats.annotation_property_domains) "encoded annotation-property-domain count overflow"
        (fun value => statistics <| Stats.annotation_property_domains := value |>)
  | RootCounter.AnnotationPropertyRanges =>
      bump statistics.(Stats.annotation_property_ranges) "encoded annotation-property-range count overflow"
        (fun value => statistics <| Stats.annotation_property_ranges := value |>)
  | RootCounter.ObjectPropertyDomains =>
      bump statistics.(Stats.object_property_domains) "encoded object-property-domain count overflow"
        (fun value => statistics <| Stats.object_property_domains := value |>)
  | RootCounter.ObjectPropertyRanges =>
      bump statistics.(Stats.object_property_ranges) "encoded object-property-range count overflow"
        (fun value => statistics <| Stats.object_property_ranges := value |>)
  end.

(** [RootCounter::statistics_count]. *)
Definition statistics_count (self : RootCounter.RootCounter) (statistics : Stats.DirectCompileStats) : usize :=
  match self with
  | RootCounter.OntologyAnnotations => statistics.(Stats.ontology_annotations)
  | RootCounter.SwrlRules => statistics.(Stats.swrl_rules)
  | RootCounter.Declarations => statistics.(Stats.declarations)
  | RootCounter.Subclasses => statistics.(Stats.subclasses)
  | RootCounter.Equivalents => statistics.(Stats.equivalents)
  | RootCounter.DisjointClasses => statistics.(Stats.disjoint_classes)
  | RootCounter.DisjointUnions => statistics.(Stats.disjoint_unions)
  | RootCounter.HasKeys => statistics.(Stats.has_keys)
  | RootCounter.SameIndividuals => statistics.(Stats.same_individuals)
  | RootCounter.DifferentIndividuals => statistics.(Stats.different_individuals)
  | RootCounter.ClassAssertions => statistics.(Stats.class_assertions)
  | RootCounter.ObjectPropertyAssertions => statistics.(Stats.object_property_assertions)
  | RootCounter.NegativeObjectPropertyAssertions => statistics.(Stats.negative_object_property_assertions)
  | RootCounter.SubObjectProperties => statistics.(Stats.sub_object_properties)
  | RootCounter.EquivalentObjectProperties => statistics.(Stats.equivalent_object_properties)
  | RootCounter.DisjointObjectProperties => statistics.(Stats.disjoint_object_properties)
  | RootCounter.InverseObjectProperties => statistics.(Stats.inverse_object_properties)
  | RootCounter.FunctionalObjectProperties => statistics.(Stats.functional_object_properties)
  | RootCounter.InverseFunctionalObjectProperties => statistics.(Stats.inverse_functional_object_properties)
  | RootCounter.ReflexiveObjectProperties => statistics.(Stats.reflexive_object_properties)
  | RootCounter.IrreflexiveObjectProperties => statistics.(Stats.irreflexive_object_properties)
  | RootCounter.SymmetricObjectProperties => statistics.(Stats.symmetric_object_properties)
  | RootCounter.AsymmetricObjectProperties => statistics.(Stats.asymmetric_object_properties)
  | RootCounter.TransitiveObjectProperties => statistics.(Stats.transitive_object_properties)
  | RootCounter.SubDataProperties => statistics.(Stats.sub_data_properties)
  | RootCounter.EquivalentDataProperties => statistics.(Stats.equivalent_data_properties)
  | RootCounter.DisjointDataProperties => statistics.(Stats.disjoint_data_properties)
  | RootCounter.DataPropertyDomains => statistics.(Stats.data_property_domains)
  | RootCounter.DataPropertyRanges => statistics.(Stats.data_property_ranges)
  | RootCounter.FunctionalDataProperties => statistics.(Stats.functional_data_properties)
  | RootCounter.DatatypeDefinitions => statistics.(Stats.datatype_definitions)
  | RootCounter.DataPropertyAssertions => statistics.(Stats.data_property_assertions)
  | RootCounter.NegativeDataPropertyAssertions => statistics.(Stats.negative_data_property_assertions)
  | RootCounter.AnnotationAssertions => statistics.(Stats.annotation_assertions)
  | RootCounter.SubAnnotationProperties => statistics.(Stats.sub_annotation_properties)
  | RootCounter.AnnotationPropertyDomains => statistics.(Stats.annotation_property_domains)
  | RootCounter.AnnotationPropertyRanges => statistics.(Stats.annotation_property_ranges)
  | RootCounter.ObjectPropertyDomains => statistics.(Stats.object_property_domains)
  | RootCounter.ObjectPropertyRanges => statistics.(Stats.object_property_ranges)
  end.

(** [RootCounts::role_axioms]. *)
Definition role_axioms (self : Counts.RootCounts) : outcome usize :=
  ok_or (checked_add self.(Counts.sub_object_properties) self.(Counts.inverse_object_properties))
    (resource "encoded role-axiom count overflow").
