(* ===== verification/Rules.v ===== *)
(** * The root rule table

    [ROOT_RULES] of native/src/encoded_direct.rs, one row per (root kind,
    constructor tag), the enumerations its columns range over, and the
    resolution of a root to its rule. *)

From S2P Require Import Prelude Errors Tags Nodes Stats.
Local Open Scope string_scope.
Local Open Scope list_scope.
Local Open Scope N_scope.

Module RootRuleHandler.
Inductive RootRuleHandler := Declaration | Subclass | EquivalentClasses | DisjointClasses | DisjointUnion |
  HasKey | SubObjectProperty | ObjectPropertySet | InverseObjectProperties | ObjectPropertyClass
  | ClassAssertion | ObjectPropertyAssertion | NegativeObjectPropertyAssertion |
  ObjectPropertyCharacteristic | BinaryDataProperty | DataPropertySet | DataPropertyDomain |
  DataPropertyRange | FunctionalDataProperty | DatatypeDefinition | DataPropertyAssertion |
  IndividualSet | AnnotationAssertion | SubAnnotationProperty | AnnotationPropertyIri |
  OntologyAnnotation | SwrlRule.
#[global] Instance t_eq_dec : EqDecision RootRuleHandler.
Proof. solve_decision. Defined.
End RootRuleHandler.

Module RootModeDisposition.
Inductive RootModeDisposition := Project | FamilyDefined | LiteralConditional | SkipDiagnostic | ValidateOnly.
#[global] Instance t_eq_dec : EqDecision RootModeDisposition.
Proof. solve_decision. Defined.
End RootModeDisposition.

Module RootLiteralPolicy.
Inductive RootLiteralPolicy := Never | RootScopedAnnotation.
#[global] Instance t_eq_dec : EqDecision RootLiteralPolicy.
Proof. solve_decision. Defined.
End RootLiteralPolicy.

Module RootAnnotationPolicy.
Inductive RootAnnotationPolicy := AxiomAnnotations | NestedAnnotation | RuleAnnotations.
#[global] Instance t_eq_dec : EqDecision RootAnnotationPolicy.
Proof. solve_decision. Defined.
End RootAnnotationPolicy.

Module RootAnonymousScopePolicy.
Inductive RootAnonymousScopePolicy := AxiomDerived | ExcludedFromAxiomIds.
#[global] Instance t_eq_dec : EqDecision RootAnonymousScopePolicy.
Proof. solve_decision. Defined.
End RootAnonymousScopePolicy.

Module RootRoleEffect.
Inductive RootRoleEffect := None | SubPropertyOrChain | InverseProperties.
#[global] Instance t_eq_dec : EqDecision RootRoleEffect.
Proof. solve_decision. Defined.
End RootRoleEffect.

Module RootDomainRangeEffect.
Inductive RootDomainRangeEffect := None | Domain | Range.
#[global] Instance t_eq_dec : EqDecision RootDomainRangeEffect.
Proof. solve_decision. Defined.
End RootDomainRangeEffect.

Module DynamicRootAction.
Inductive DynamicRootAction := General | Declaration | AnnotationAssertion.
#[global] Instance t_eq_dec : EqDecision DynamicRootAction.
Proof. solve_decision. Defined.
End DynamicRootAction.

Module EmissionPhase.
Inductive EmissionPhase := Subclasses | Equivalents | Annotations | ClassAssertions | ObjectAssertions |
  DomainRanges | Finished.
#[global] Instance t_eq_dec : EqDecision EmissionPhase.
Proof. solve_decision. Defined.
End EmissionPhase.

Module LocalProjectionMode.
Inductive LocalProjectionMode := Normal | TaxonomyOnly | AssertedTaxonomy.
#[global] Instance t_eq_dec : EqDecision LocalProjectionMode.
Proof. solve_decision. Defined.
End LocalProjectionMode.

Module RootStatsEffect.
Inductive RootStatsEffect :=
  | Silent (counter : RootCounter.RootCounter)
  | Projecting (counter : RootCounter.RootCounter)
  | Skipped (counter : RootCounter.RootCounter)
  | ShapeClassified (counter : RootCounter.RootCounter).
#[global] Instance t_eq_dec : EqDecision RootStatsEffect.
Proof. solve_decision. Defined.

Definition counter (self : RootStatsEffect) : RootCounter.RootCounter :=
  match self with
  | Silent counter | Projecting counter | Skipped counter | ShapeClassified counter => counter
  end.
End RootStatsEffect.

Record RootRule := {
  rule_root_kind : u8;
  rule_tag : u16;
  rule_constructor : string;
  handler : RootRuleHandler.RootRuleHandler;
  phase : EmissionPhase.EmissionPhase;
  mode_disposition : list RootModeDisposition.RootModeDisposition;
  literal_policy : RootLiteralPolicy.RootLiteralPolicy;
  annotation_policy : RootAnnotationPolicy.RootAnnotationPolicy;
  anonymous_scope_policy : RootAnonymousScopePolicy.RootAnonymousScopePolicy;
  stats_effect : RootStatsEffect.RootStatsEffect;
  role_effect : RootRoleEffect.RootRoleEffect;
  domain_range_effect : RootDomainRangeEffect.RootDomainRangeEffect;
  dynamic_action : DynamicRootAction.DynamicRootAction;
}.

#[export] Instance RootRule_eq_dec : EqDecision RootRule.
Proof. solve_decision. Defined.

Definition ROOT_MODES_SILENT : list RootModeDisposition.RootModeDisposition :=
  [RootModeDisposition.ValidateOnly; RootModeDisposition.ValidateOnly; RootModeDisposition.ValidateOnly].
Definition ROOT_MODES_FAMILY : list RootModeDisposition.RootModeDisposition :=
  [RootModeDisposition.FamilyDefined; RootModeDisposition.FamilyDefined; RootModeDisposition.FamilyDefined].
Definition ROOT_MODES_ROLE : list RootModeDisposition.RootModeDisposition :=
  [RootModeDisposition.FamilyDefined; RootModeDisposition.FamilyDefined; RootModeDisposition.ValidateOnly].
Definition ROOT_MODES_PROJECT_NONASSERTED : list RootModeDisposition.RootModeDisposition :=
  [RootModeDisposition.Project; RootModeDisposition.Project; RootModeDisposition.ValidateOnly].
Definition ROOT_MODES_LITERAL : list RootModeDisposition.RootModeDisposition :=
  [RootModeDisposition.LiteralConditional; RootModeDisposition.LiteralConditional; RootModeDisposition.ValidateOnly].
Definition ROOT_MODES_SKIPPED : list RootModeDisposition.RootModeDisposition :=
  [RootModeDisposition.SkipDiagnostic; RootModeDisposition.SkipDiagnostic; RootModeDisposition.ValidateOnly].

(** The macro [root_rule!]. *)
Definition root_rule root_kind tag constructor handler phase modes literal annotations anonymous
    stats role domain_range dynamic : RootRule :=
  {| rule_root_kind := root_kind; rule_tag := tag; rule_constructor := constructor;
     handler := handler; phase := phase; mode_disposition := modes; literal_policy := literal;
     annotation_policy := annotations; anonymous_scope_policy := anonymous;
     stats_effect := stats; role_effect := role; domain_range_effect := domain_range;
     dynamic_action := dynamic |}.

Definition ROOT_RULES_1 : list RootRule :=
  [ root_rule ROOT_AXIOM TAG_DECLARATION "Declaration"
      RootRuleHandler.Declaration EmissionPhase.ObjectAssertions ROOT_MODES_SILENT
      RootLiteralPolicy.Never RootAnnotationPolicy.AxiomAnnotations
      RootAnonymousScopePolicy.AxiomDerived (RootStatsEffect.Silent RootCounter.Declarations)
      RootRoleEffect.None RootDomainRangeEffect.None DynamicRootAction.Declaration;
    root_rule ROOT_AXIOM TAG_SUB_CLASS_OF "SubClassOf"
      RootRuleHandler.Subclass EmissionPhase.Subclasses ROOT_MODES_FAMILY
      RootLiteralPolicy.Never RootAnnotationPolicy.AxiomAnnotations
      RootAnonymousScopePolicy.AxiomDerived (RootStatsEffect.ShapeClassified RootCounter.Subclasses)
      RootRoleEffect.None RootDomainRangeEffect.None DynamicRootAction.General;
    root_rule ROOT_AXIOM TAG_EQUIVALENT_CLASSES "EquivalentClasses"
      RootRuleHandler.EquivalentClasses EmissionPhase.Equivalents ROOT_MODES_FAMILY
      RootLiteralPolicy.Never RootAnnotationPolicy.AxiomAnnotations
      RootAnonymousScopePolicy.AxiomDerived (RootStatsEffect.ShapeClassified RootCounter.Equivalents)
      RootRoleEffect.None RootDomainRangeEffect.None DynamicRootAction.General;
    root_rule ROOT_AXIOM TAG_DISJOINT_CLASSES "DisjointClasses"
      RootRuleHandler.DisjointClasses EmissionPhase.ObjectAssertions ROOT_MODES_SKIPPED
      RootLiteralPolicy.Never RootAnnotationPolicy.AxiomAnnotations
      RootAnonymousScopePolicy.AxiomDerived (RootStatsEffect.Skipped RootCounter.DisjointClasses)
      RootRoleEffect.None RootDomainRangeEffect.None DynamicRootAction.General;
    root_rule ROOT_AXIOM TAG_DISJOINT_UNION "DisjointUnion"
      RootRuleHandler.DisjointUnion EmissionPhase.ObjectAssertions ROOT_MODES_SKIPPED
      RootLiteralPolicy.Never RootAnnotationPolicy.AxiomAnnotations
      RootAnonymousScopePolicy.AxiomDerived (RootStatsEffect.Skipped RootCounter.DisjointUnions)
      RootRoleEffect.None RootDomainRangeEffect.None DynamicRootAction.General;
    root_rule ROOT_AXIOM TAG_HAS_KEY "HasKey"
      RootRuleHandler.HasKey EmissionPhase.ObjectAssertions ROOT_MODES_SKIPPED
      RootLiteralPolicy.Never RootAnnotationPolicy.AxiomAnnotations
      RootAnonymousScopePolicy.AxiomDerived (RootStatsEffect.Skipped RootCounter.HasKeys)
      RootRoleEffect.None RootDomainRangeEffect.None DynamicRootAction.General;
    root_rule ROOT_AXIOM TAG_SUB_OBJECT_PROPERTY_OF "SubObjectPropertyOf"
      RootRuleHandler.SubObjectProperty EmissionPhase.ObjectAssertions ROOT_MODES_ROLE
      RootLiteralPolicy.Never RootAnnotationPolicy.AxiomAnnotations
      RootAnonymousScopePolicy.AxiomDerived (RootStatsEffect.Silent RootCounter.SubObjectProperties)
      RootRoleEffect.SubPropertyOrChain RootDomainRangeEffect.None DynamicRootAction.General;
    root_rule ROOT_AXIOM TAG_EQUIVALENT_OBJECT_PROPERTIES "EquivalentObjectProperties"
      RootRuleHandler.ObjectPropertySet EmissionPhase.ObjectAssertions ROOT_MODES_SKIPPED
      RootLiteralPolicy.Never RootAnnotationPolicy.AxiomAnnotations
      RootAnonymousScopePolicy.AxiomDerived (RootStatsEffect.Skipped RootCounter.EquivalentObjectProperties)
      RootRoleEffect.None RootDomainRangeEffect.None DynamicRootAction.General;
    root_rule ROOT_AXIOM TAG_DISJOINT_OBJECT_PROPERTIES "DisjointObjectProperties"
      RootRuleHandler.ObjectPropertySet EmissionPhase.ObjectAssertions ROOT_MODES_SKIPPED
      RootLiteralPolicy.Never RootAnnotationPolicy.AxiomAnnotations
      RootAnonymousScopePolicy.AxiomDerived (RootStatsEffect.Skipped RootCounter.DisjointObjectProperties)
      RootRoleEffect.None RootDomainRangeEffect.None DynamicRootAction.General ].

Definition ROOT_RULES_2 : list RootRule :=
  [ root_rule ROOT_AXIOM TAG_INVERSE_OBJECT_PROPERTIES "InverseObjectProperties"
      RootRuleHandler.InverseObjectProperties EmissionPhase.ObjectAssertions ROOT_MODES_ROLE
      RootLiteralPolicy.Never RootAnnotationPolicy.AxiomAnnotations
      RootAnonymousScopePolicy.AxiomDerived (RootStatsEffect.Silent RootCounter.InverseObjectProperties)
      RootRoleEffect.InverseProperties RootDomainRangeEffect.None DynamicRootAction.General;
    root_rule ROOT_AXIOM TAG_OBJECT_PROPERTY_DOMAIN "ObjectPropertyDomain"
      RootRuleHandler.ObjectPropertyClass EmissionPhase.DomainRanges ROOT_MODES_FAMILY
      RootLiteralPolicy.Never RootAnnotationPolicy.AxiomAnnotations
      RootAnonymousScopePolicy.AxiomDerived (RootStatsEffect.ShapeClassified RootCounter.ObjectPropertyDomains)
      RootRoleEffect.None RootDomainRangeEffect.Domain DynamicRootAction.General;
    root_rule ROOT_AXIOM TAG_OBJECT_PROPERTY_RANGE "ObjectPropertyRange"
      RootRuleHandler.ObjectPropertyClass EmissionPhase.DomainRanges ROOT_MODES_FAMILY
      RootLiteralPolicy.Never RootAnnotationPolicy.AxiomAnnotations
      RootAnonymousScopePolicy.AxiomDerived (RootStatsEffect.ShapeClassified RootCounter.ObjectPropertyRanges)
      RootRoleEffect.None RootDomainRangeEffect.Range DynamicRootAction.General;
    root_rule ROOT_AXIOM TAG_CLASS_ASSERTION "ClassAssertion"
      RootRuleHandler.ClassAssertion EmissionPhase.ClassAssertions ROOT_MODES_PROJECT_NONASSERTED
      RootLiteralPolicy.Never RootAnnotationPolicy.AxiomAnnotations
      RootAnonymousScopePolicy.AxiomDerived (RootStatsEffect.ShapeClassified RootCounter.ClassAssertions)
      RootRoleEffect.None RootDomainRangeEffect.None DynamicRootAction.General;
    root_rule ROOT_AXIOM TAG_OBJECT_PROPERTY_ASSERTION "ObjectPropertyAssertion"
      RootRuleHandler.ObjectPropertyAssertion EmissionPhase.ObjectAssertions ROOT_MODES_PROJECT_NONASSERTED
      RootLiteralPolicy.Never RootAnnotationPolicy.AxiomAnnotations
      RootAnonymousScopePolicy.AxiomDerived (RootStatsEffect.Projecting RootCounter.ObjectPropertyAssertions)
      RootRoleEffect.None RootDomainRangeEffect.None DynamicRootAction.General;
    root_rule ROOT_AXIOM TAG_NEGATIVE_OBJECT_PROPERTY_ASSERTION "NegativeObjectPropertyAssertion"
      RootRuleHandler.NegativeObjectPropertyAssertion EmissionPhase.ObjectAssertions ROOT_MODES_SKIPPED
      RootLiteralPolicy.Never RootAnnotationPolicy.AxiomAnnotations
      RootAnonymousScopePolicy.AxiomDerived (RootStatsEffect.Skipped RootCounter.NegativeObjectPropertyAssertions)
      RootRoleEffect.None RootDomainRangeEffect.None DynamicRootAction.General;
    root_rule ROOT_AXIOM TAG_FUNCTIONAL_OBJECT_PROPERTY "FunctionalObjectProperty"
      RootRuleHandler.ObjectPropertyCharacteristic EmissionPhase.ObjectAssertions ROOT_MODES_SKIPPED
      RootLiteralPolicy.Never RootAnnotationPolicy.AxiomAnnotations
      RootAnonymousScopePolicy.AxiomDerived (RootStatsEffect.Skipped RootCounter.FunctionalObjectProperties)
      RootRoleEffect.None RootDomainRangeEffect.None DynamicRootAction.General;
    root_rule ROOT_AXIOM TAG_INVERSE_FUNCTIONAL_OBJECT_PROPERTY "InverseFunctionalObjectProperty"
      RootRuleHandler.ObjectPropertyCharacteristic EmissionPhase.ObjectAssertions ROOT_MODES_SKIPPED
      RootLiteralPolicy.Never RootAnnotationPolicy.AxiomAnnotations
      RootAnonymousScopePolicy.AxiomDerived (RootStatsEffect.Skipped RootCounter.InverseFunctionalObjectProperties)
      RootRoleEffect.None RootDomainRangeEffect.None DynamicRootAction.General;
    root_rule ROOT_AXIOM TAG_REFLEXIVE_OBJECT_PROPERTY "ReflexiveObjectProperty"
      RootRuleHandler.ObjectPropertyCharacteristic EmissionPhase.ObjectAssertions ROOT_MODES_SKIPPED
      RootLiteralPolicy.Never RootAnnotationPolicy.AxiomAnnotations
      RootAnonymousScopePolicy.AxiomDerived (RootStatsEffect.Skipped RootCounter.ReflexiveObjectProperties)
      RootRoleEffect.None RootDomainRangeEffect.None DynamicRootAction.General ].

Definition ROOT_RULES_3 : list RootRule :=
  [ root_rule ROOT_AXIOM TAG_IRREFLEXIVE_OBJECT_PROPERTY "IrreflexiveObjectProperty"
      RootRuleHandler.ObjectPropertyCharacteristic EmissionPhase.ObjectAssertions ROOT_MODES_SKIPPED
      RootLiteralPolicy.Never RootAnnotationPolicy.AxiomAnnotations
      RootAnonymousScopePolicy.AxiomDerived (RootStatsEffect.Skipped RootCounter.IrreflexiveObjectProperties)
      RootRoleEffect.None RootDomainRangeEffect.None DynamicRootAction.General;
    root_rule ROOT_AXIOM TAG_SYMMETRIC_OBJECT_PROPERTY "SymmetricObjectProperty"
      RootRuleHandler.ObjectPropertyCharacteristic EmissionPhase.ObjectAssertions ROOT_MODES_SKIPPED
      RootLiteralPolicy.Never RootAnnotationPolicy.AxiomAnnotations
      RootAnonymousScopePolicy.AxiomDerived (RootStatsEffect.Skipped RootCounter.SymmetricObjectProperties)
      RootRoleEffect.None RootDomainRangeEffect.None DynamicRootAction.General;
    root_rule ROOT_AXIOM TAG_ASYMMETRIC_OBJECT_PROPERTY "AsymmetricObjectProperty"
      RootRuleHandler.ObjectPropertyCharacteristic EmissionPhase.ObjectAssertions ROOT_MODES_SKIPPED
      RootLiteralPolicy.Never RootAnnotationPolicy.AxiomAnnotations
      RootAnonymousScopePolicy.AxiomDerived (RootStatsEffect.Skipped RootCounter.AsymmetricObjectProperties)
      RootRoleEffect.None RootDomainRangeEffect.None DynamicRootAction.General;
    root_rule ROOT_AXIOM TAG_TRANSITIVE_OBJECT_PROPERTY "TransitiveObjectProperty"
      RootRuleHandler.ObjectPropertyCharacteristic EmissionPhase.ObjectAssertions ROOT_MODES_SKIPPED
      RootLiteralPolicy.Never RootAnnotationPolicy.AxiomAnnotations
      RootAnonymousScopePolicy.AxiomDerived (RootStatsEffect.Skipped RootCounter.TransitiveObjectProperties)
      RootRoleEffect.None RootDomainRangeEffect.None DynamicRootAction.General;
    root_rule ROOT_AXIOM TAG_SUB_DATA_PROPERTY_OF "SubDataPropertyOf"
      RootRuleHandler.BinaryDataProperty EmissionPhase.ObjectAssertions ROOT_MODES_SKIPPED
      RootLiteralPolicy.Never RootAnnotationPolicy.AxiomAnnotations
      RootAnonymousScopePolicy.AxiomDerived (RootStatsEffect.Skipped RootCounter.SubDataProperties)
      RootRoleEffect.None RootDomainRangeEffect.None DynamicRootAction.General;
    root_rule ROOT_AXIOM TAG_EQUIVALENT_DATA_PROPERTIES "EquivalentDataProperties"
      RootRuleHandler.DataPropertySet EmissionPhase.ObjectAssertions ROOT_MODES_SKIPPED
      RootLiteralPolicy.Never RootAnnotationPolicy.AxiomAnnotations
      RootAnonymousScopePolicy.AxiomDerived (RootStatsEffect.Skipped RootCounter.EquivalentDataProperties)
      RootRoleEffect.None RootDomainRangeEffect.None DynamicRootAction.General;
    root_rule ROOT_AXIOM TAG_DISJOINT_DATA_PROPERTIES "DisjointDataProperties"
      RootRuleHandler.DataPropertySet EmissionPhase.ObjectAssertions ROOT_MODES_SKIPPED
      RootLiteralPolicy.Never RootAnnotationPolicy.AxiomAnnotations
      RootAnonymousScopePolicy.AxiomDerived (RootStatsEffect.Skipped RootCounter.DisjointDataProperties)
      RootRoleEffect.None RootDomainRangeEffect.None DynamicRootAction.General;
    root_rule ROOT_AXIOM TAG_DATA_PROPERTY_DOMAIN "DataPropertyDomain"
      RootRuleHandler.DataPropertyDomain EmissionPhase.ObjectAssertions ROOT_MODES_SKIPPED
      RootLiteralPolicy.Never RootAnnotationPolicy.AxiomAnnotations
      RootAnonymousScopePolicy.AxiomDerived (RootStatsEffect.Skipped RootCounter.DataPropertyDomains)
      RootRoleEffect.None RootDomainRangeEffect.None DynamicRootAction.General;
    root_rule ROOT_AXIOM TAG_DATA_PROPERTY_RANGE "DataPropertyRange"
      RootRuleHandler.DataPropertyRange EmissionPhase.ObjectAssertions ROOT_MODES_SKIPPED
      RootLiteralPolicy.Never RootAnnotationPolicy.AxiomAnnotations
      RootAnonymousScopePolicy.AxiomDerived (RootStatsEffect.Skipped RootCounter.DataPropertyRanges)
      RootRoleEffect.None RootDomainRangeEffect.None DynamicRootAction.General ].

Definition ROOT_RULES_4 : list RootRule :=
  [ root_rule ROOT_AXIOM TAG_FUNCTIONAL_DATA_PROPERTY "FunctionalDataProperty"
      RootRuleHandler.FunctionalDataProperty EmissionPhase.ObjectAssertions ROOT_MODES_SKIPPED
      RootLiteralPolicy.Never RootAnnotationPolicy.AxiomAnnotations
      RootAnonymousScopePolicy.AxiomDerived (RootStatsEffect.Skipped RootCounter.FunctionalDataProperties)
      RootRoleEffect.None RootDomainRangeEffect.None DynamicRootAction.General;
    root_rule ROOT_AXIOM TAG_DATATYPE_DEFINITION "DatatypeDefinition"
      RootRuleHandler.DatatypeDefinition EmissionPhase.ObjectAssertions ROOT_MODES_SKIPPED
      RootLiteralPolicy.Never RootAnnotationPolicy.AxiomAnnotations
      RootAnonymousScopePolicy.AxiomDerived (RootStatsEffect.Skipped RootCounter.DatatypeDefinitions)
      RootRoleEffect.None RootDomainRangeEffect.None DynamicRootAction.General;
    root_rule ROOT_AXIOM TAG_SAME_INDIVIDUAL "SameIndividual"
      RootRuleHandler.IndividualSet EmissionPhase.ObjectAssertions ROOT_MODES_SKIPPED
      RootLiteralPolicy.Never RootAnnotationPolicy.AxiomAnnotations
      RootAnonymousScopePolicy.AxiomDerived (RootStatsEffect.Skipped RootCounter.SameIndividuals)
      RootRoleEffect.None RootDomainRangeEffect.None DynamicRootAction.General;
    root_rule ROOT_AXIOM TAG_DIFFERENT_INDIVIDUALS "DifferentIndividuals"
      RootRuleHandler.IndividualSet EmissionPhase.ObjectAssertions ROOT_MODES_SKIPPED
      RootLiteralPolicy.Never RootAnnotationPolicy.AxiomAnnotations
      RootAnonymousScopePolicy.AxiomDerived (RootStatsEffect.Skipped RootCounter.DifferentIndividuals)
      RootRoleEffect.None RootDomainRangeEffect.None DynamicRootAction.General;
    root_rule ROOT_AXIOM TAG_DATA_PROPERTY_ASSERTION "DataPropertyAssertion"
      RootRuleHandler.DataPropertyAssertion EmissionPhase.ObjectAssertions ROOT_MODES_SKIPPED
      RootLiteralPolicy.Never RootAnnotationPolicy.AxiomAnnotations
      RootAnonymousScopePolicy.AxiomDerived (RootStatsEffect.Skipped RootCounter.DataPropertyAssertions)
      RootRoleEffect.None RootDomainRangeEffect.None DynamicRootAction.General;
    root_rule ROOT_AXIOM TAG_NEGATIVE_DATA_PROPERTY_ASSERTION "NegativeDataPropertyAssertion"
      RootRuleHandler.DataPropertyAssertion EmissionPhase.ObjectAssertions ROOT_MODES_SKIPPED
      RootLiteralPolicy.Never RootAnnotationPolicy.AxiomAnnotations
      RootAnonymousScopePolicy.AxiomDerived (RootStatsEffect.Skipped RootCounter.NegativeDataPropertyAssertions)
      RootRoleEffect.None RootDomainRangeEffect.None DynamicRootAction.General;
    root_rule ROOT_AXIOM TAG_ANNOTATION_ASSERTION "AnnotationAssertion"
      RootRuleHandler.AnnotationAssertion EmissionPhase.Annotations ROOT_MODES_LITERAL
      RootLiteralPolicy.RootScopedAnnotation RootAnnotationPolicy.AxiomAnnotations
      RootAnonymousScopePolicy.AxiomDerived (RootStatsEffect.Projecting RootCounter.AnnotationAssertions)
      RootRoleEffect.None RootDomainRangeEffect.None DynamicRootAction.AnnotationAssertion;
    root_rule ROOT_AXIOM TAG_SUB_ANNOTATION_PROPERTY_OF "SubAnnotationPropertyOf"
      RootRuleHandler.SubAnnotationProperty EmissionPhase.ObjectAssertions ROOT_MODES_SKIPPED
      RootLiteralPolicy.Never RootAnnotationPolicy.AxiomAnnotations
      RootAnonymousScopePolicy.AxiomDerived (RootStatsEffect.Skipped RootCounter.SubAnnotationProperties)
      RootRoleEffect.None RootDomainRangeEffect.None DynamicRootAction.General;
    root_rule ROOT_AXIOM TAG_ANNOTATION_PROPERTY_DOMAIN "AnnotationPropertyDomain"
      RootRuleHandler.AnnotationPropertyIri EmissionPhase.ObjectAssertions ROOT_MODES_SKIPPED
      RootLiteralPolicy.Never RootAnnotationPolicy.AxiomAnnotations
      RootAnonymousScopePolicy.AxiomDerived (RootStatsEffect.Skipped RootCounter.AnnotationPropertyDomains)
      RootRoleEffect.None RootDomainRangeEffect.None DynamicRootAction.General ].

Definition ROOT_RULES_5 : list RootRule :=
  [ root_rule ROOT_AXIOM TAG_ANNOTATION_PROPERTY_RANGE "AnnotationPropertyRange"
      RootRuleHandler.AnnotationPropertyIri EmissionPhase.ObjectAssertions ROOT_MODES_SKIPPED
      RootLiteralPolicy.Never RootAnnotationPolicy.AxiomAnnotations
      RootAnonymousScopePolicy.AxiomDerived (RootStatsEffect.Skipped RootCounter.AnnotationPropertyRanges)
      RootRoleEffect.None RootDomainRangeEffect.None DynamicRootAction.General;
    root_rule ROOT_ONTOLOGY_ANNOTATION TAG_ANNOTATION "ontology Annotation"
      RootRuleHandler.OntologyAnnotation EmissionPhase.ObjectAssertions ROOT_MODES_SILENT
      RootLiteralPolicy.Never RootAnnotationPolicy.NestedAnnotation
      RootAnonymousScopePolicy.ExcludedFromAxiomIds (RootStatsEffect.Silent RootCounter.OntologyAnnotations)
      RootRoleEffect.None RootDomainRangeEffect.None DynamicRootAction.General;
    root_rule ROOT_EXTENSION TAG_SWRL_RULE "SWRLRule"
      RootRuleHandler.SwrlRule EmissionPhase.ObjectAssertions ROOT_MODES_SILENT
      RootLiteralPolicy.Never RootAnnotationPolicy.RuleAnnotations
      RootAnonymousScopePolicy.ExcludedFromAxiomIds (RootStatsEffect.Silent RootCounter.SwrlRules)
      RootRoleEffect.None RootDomainRangeEffect.None DynamicRootAction.General ].

Definition ROOT_RULES : list RootRule :=
  ROOT_RULES_1 ++ ROOT_RULES_2 ++ ROOT_RULES_3 ++ ROOT_RULES_4 ++ ROOT_RULES_5.

Definition mode_from_options (options : DirectCompileOptions) : LocalProjectionMode.LocalProjectionMode :=
  if options.(asserted_taxonomy_only) then LocalProjectionMode.AssertedTaxonomy
  else if options.(only_taxonomy) then LocalProjectionMode.TaxonomyOnly
  else LocalProjectionMode.Normal.

Definition mode_index (self : LocalProjectionMode.LocalProjectionMode) : usize :=
  match self with
  | LocalProjectionMode.Normal => 0
  | LocalProjectionMode.TaxonomyOnly => 1
  | LocalProjectionMode.AssertedTaxonomy => 2
  end.

(** [iter().position(..)]. *)
Fixpoint position {A} (p : A -> bool) (l : list A) : option usize :=
  match l with
  | [] => None
  | x :: l => if p x then Some 0 else N.succ <$> position p l
  end.

Definition resolve_index (root_kind : u8) (tag : u16) : outcome u8 :=
  match position (fun rule => (rule.(rule_root_kind) =? root_kind) && (rule.(rule_tag) =? tag))
          ROOT_RULES with
  | Some table_index =>
      if table_index + 1 <=? 255 then Ok (table_index + 1)
      else Err (resource "encoded structural root-rule table is too large")
  | None =>
      let mismatch := Err (malformed "encoded root kind does not match its constructor tag") in
      if root_kind =? ROOT_AXIOM then
        if contains [TAG_ANNOTATION; TAG_SWRL_RULE] tag then mismatch
        else if is_schema_tag tag then
          Err (unsupported ("direct native slice does not support axiom tag " +:+ pretty tag))
        else mismatch
      else mismatch
  end.

(** [RootRule::resolve]. *)
Definition resolve (root_kind : u8) (tag : u16) : outcome RootRule :=
  encoded_index ← resolve_index root_kind tag;
  ok_or (get ROOT_RULES (encoded_index - 1))
    (malformed "encoded structural root-rule index is invalid").

Definition disposition (self : RootRule) (options : DirectCompileOptions)
    : outcome RootModeDisposition.RootModeDisposition :=
  index self.(mode_disposition) (mode_index (mode_from_options options)).

Definition is_skipped (effect : RootStatsEffect.RootStatsEffect) : bool :=
  match effect with RootStatsEffect.Skipped _ => true | _ => false end.

Definition apply_statistics (self : RootRule) (statistics : Stats.DirectCompileStats)
    (options : DirectCompileOptions) : outcome Stats.DirectCompileStats :=
  statistics ← increment_statistics (RootStatsEffect.counter self.(stats_effect)) statistics;
  if is_skipped self.(stats_effect) then
    disposition ← disposition self options;
    if bool_decide (disposition = RootModeDisposition.SkipDiagnostic) then
      bump statistics.(Stats.skipped_axioms) "encoded skipped-axiom count overflow"
        (fun value => statistics <| Stats.skipped_axioms := value |>)
    else Ok statistics
  else Ok statistics.
