(* ===== verification/Table.v ===== *)
(** * The rule table and its counters

    Facts about the whole of [ROOT_RULES]: its keys are unique and resolve to
    themselves, every axiom constructor has a rule, and the counters a rule
    increments are its own. *)

From S2P Require Import Prelude Errors Tags Nodes Stats Rules.
Local Open Scope string_scope.
Local Open Scope list_scope.
Local Open Scope N_scope.

(** ** The counters *)

(** The number a counter contributes when it is counted once more. *)
Definition counted (c c' : RootCounter.RootCounter) : N := if bool_decide (c = c') then 1 else 0.

Lemma bump_Ok {S} value message (k : usize -> S) :
  value < usize_max -> bump value message k = Ok (k (value + 1)).
Proof.
  intros H. unfold bump. by rewrite (proj2 (checked_add_Some value 1 (value + 1)) ltac:(lia)).
Qed.

Lemma bump_inv {S} value message (k : usize -> S) s :
  bump value message k = Ok s -> s = k (value + 1).
Proof. unfold bump. intros (v&Hv&[= <-])%bind_Ok. by apply ok_or_Ok, checked_add_Some in Hv as [-> _]. Qed.

Lemma bump_Err {S} value message (k : usize -> S) :
  usize_max <= value -> bump value message k = Err (resource message).
Proof. intros H. unfold bump. by rewrite (proj2 (checked_add_None value 1) ltac:(lia)). Qed.

Lemma increment_statistics_Ok c statistics :
  statistics_count c statistics < usize_max ->
  exists statistics', increment_statistics c statistics = Ok statistics' /\
    (forall c', statistics_count c' statistics' = statistics_count c' statistics + counted c c') /\
    statistics'.(Stats.skipped_axioms) = statistics.(Stats.skipped_axioms) /\
    statistics'.(Stats.edges) = statistics.(Stats.edges).
Proof.
  intros H. destruct c; cbn [statistics_count] in H; unfold increment_statistics;
    (rewrite bump_Ok by done); eexists; (split; [done|]);
    (split; [|done]); intros []; cbn; rewrite ?N.add_0_r; done.
Qed.

(** Incrementing a counter of the statistics adds one to that counter and
    to no other, leaves the skipped and edge totals alone, and at the end of
    [usize] is an error, never a wrap-around. *)
Theorem increment_statistics_exact c statistics :
  (statistics_count c statistics < usize_max ->
   exists statistics', increment_statistics c statistics = Ok statistics' /\
     (forall c', statistics_count c' statistics' = statistics_count c' statistics + counted c c') /\
     statistics'.(Stats.skipped_axioms) = statistics.(Stats.skipped_axioms) /\
     statistics'.(Stats.edges) = statistics.(Stats.edges)) /\
  (usize_max <= statistics_count c statistics ->
   exists message, increment_statistics c statistics = Err (resource message)).
Proof.
  split; [apply increment_statistics_Ok|].
  intros H. destruct c; cbn [statistics_count] in H; unfold increment_statistics;
    rewrite bump_Err by done; by eexists.
Qed.

(** ** The table *)

Definition rule_key (rule : RootRule) : u8 * u16 := (rule.(rule_root_kind), rule.(rule_tag)).
Definition rule_counter (rule : RootRule) : RootCounter.RootCounter := RootStatsEffect.counter rule.(stats_effect).

Lemma rule_keys_unique : NoDup (rule_key <$> ROOT_RULES).
Proof. apply (bool_decide_unpack _). by vm_compute. Qed.

Lemma rule_counters_unique : NoDup (rule_counter <$> ROOT_RULES).
Proof. apply (bool_decide_unpack _). by vm_compute. Qed.

Lemma position_Some {A} (p : A -> bool) l i :
  position p l = Some i -> exists x, get l i = Some x /\ p x = true.
Proof.
  revert i. induction l as [|x l IH]; intros i H; cbn in H; [done|].
  destruct (p x) eqn:E; [injection H as <-; by exists x|].
  apply fmap_Some in H as (j&Hj&->). destruct (IH j Hj) as (y&Hy&Hp). exists y. split; [|done].
  rewrite get_lookup in Hy |- *. by rewrite N2Nat.inj_succ.
Qed.

Lemma position_None {A} (p : A -> bool) l : position p l = None -> forall x, x ∈ l -> p x = false.
Proof.
  induction l as [|y l IH]; intros H x Hx; [by apply elem_of_nil in Hx|]. cbn in H.
  destruct (p y) eqn:E; [done|]. apply fmap_None in H.
  apply elem_of_cons in Hx as [->|Hx]; [done|auto].
Qed.

Lemma rule_of_key rule rule' : rule ∈ ROOT_RULES -> rule' ∈ ROOT_RULES ->
  rule_key rule = rule_key rule' -> rule = rule'.
Proof.
  intros [i Hi]%list_elem_of_lookup [j Hj]%list_elem_of_lookup Hk.
  assert (i = j) as ->; [|congruence].
  apply (NoDup_lookup (rule_key <$> ROOT_RULES) i j (rule_key rule) rule_keys_unique);
    rewrite list_lookup_fmap; [by rewrite Hi|by rewrite Hj, Hk].
Qed.

Lemma resolve_index_Ok kind tag i : resolve_index kind tag = Ok i ->
  1 <= i <= len ROOT_RULES /\
  exists rule, get ROOT_RULES (i - 1) = Some rule /\ rule_key rule = (kind, tag).
Proof.
  unfold resolve_index. destruct (position _ ROOT_RULES) as [j|] eqn:E.
  - intros H. destruct (N.leb_spec (j + 1) 255); [|done]. injection H as <-.
    apply position_Some in E as (rule&Hr&Hk).
    apply andb_true_iff in Hk as [Hk1%N.eqb_eq Hk2%N.eqb_eq].
    pose proof (get_Some_lt _ _ _ Hr). split; [lia|]. exists rule. replace (j + 1 - 1) with j by lia.
    split; [done|]. unfold rule_key. congruence.
  - cbn zeta. intros H. repeat case_match; done.
Qed.

Lemma resolve_index_complete rule : rule ∈ ROOT_RULES ->
  exists i, resolve_index rule.(rule_root_kind) rule.(rule_tag) = Ok i /\ get ROOT_RULES (i - 1) = Some rule.
Proof.
  intros Hin. unfold resolve_index. destruct (position _ ROOT_RULES) as [j|] eqn:E.
  - pose proof E as (rule'&Hr&Hk)%position_Some.
    apply andb_true_iff in Hk as [Hk1%N.eqb_eq Hk2%N.eqb_eq].
    assert (rule' = rule) as -> by (apply rule_of_key; [by eapply get_elem_of|done|unfold rule_key; congruence]).
    pose proof (get_Some_lt _ _ _ Hr) as Hlt. change (len ROOT_RULES) with 39 in Hlt.
    destruct (N.leb_spec (j + 1) 255); [|lia]. exists (j + 1). split; [done|].
    by replace (j + 1 - 1) with j by lia.
  - pose proof (position_None _ _ E rule Hin) as H. cbn beta in H. by rewrite !N.eqb_refl in H.
Qed.

(** [resolve_index] is a function of the table: it answers exactly for the
    (kind, tag) pairs some rule has, with the one-based index, below 256, of
    the only rule with that pair; any other pair is an error. *)
Theorem resolve_index_correct kind tag :
  (forall i, resolve_index kind tag = Ok i ->
     1 <= i <= len ROOT_RULES /\ len ROOT_RULES < 256 /\
     exists rule, get ROOT_RULES (i - 1) = Some rule /\ rule_key rule = (kind, tag) /\
       forall rule', rule' ∈ ROOT_RULES -> rule_key rule' = (kind, tag) -> rule' = rule) /\
  ((exists rule, rule ∈ ROOT_RULES /\ rule_key rule = (kind, tag)) <->
   exists i, resolve_index kind tag = Ok i) /\
  safe (resolve_index kind tag).
Proof.
  split; [|split].
  - intros i H. destruct (resolve_index_Ok _ _ _ H) as (Hb&rule&Hr&Hk).
    split; [done|]. split; [done|]. exists rule. split; [done|]. split; [done|].
    intros rule' Hin Hk'. apply rule_of_key; [done|by eapply get_elem_of|congruence].
  - split.
    + intros (rule&Hin&[= <- <-]). destruct (resolve_index_complete rule Hin) as (i&Hi&_). by exists i.
    + intros (i&Hi). destruct (resolve_index_Ok _ _ _ Hi) as (_&rule&Hr&Hk). exists rule.
      split; [by eapply get_elem_of|done].
  - unfold resolve_index. cbn zeta. repeat case_match; done.
Qed.

(** Every constructor of an axiom in the schema has a rule, every rule's
    tag is in the schema, and the rules' counters are the counters, each used
    by exactly one rule. *)
Theorem root_rules_cover_schema :
  (forall tag, tag ∈ SCHEMA_TAGS -> TAG_DECLARATION <= tag <= TAG_ANNOTATION_PROPERTY_RANGE ->
     exists i, resolve_index ROOT_AXIOM tag = Ok i) /\
  (forall rule, rule ∈ ROOT_RULES -> rule.(rule_tag) ∈ SCHEMA_TAGS) /\
  NoDup (rule_counter <$> ROOT_RULES) /\
  (forall c, c ∈ rule_counter <$> ROOT_RULES).
Proof.
  split; [|split; [|split; [apply rule_counters_unique|]]].
  - intros tag Htag Hrange.
    assert (H : Forall (fun tag => TAG_DECLARATION <= tag <= TAG_ANNOTATION_PROPERTY_RANGE ->
      match resolve_index ROOT_AXIOM tag with Ok _ => true | _ => false end = true) SCHEMA_TAGS).
    { repeat (apply Forall_cons; split; [vm_compute; tauto || (intros [? ?]; congruence)|]).
      by apply Forall_nil. }
    rewrite Forall_forall in H. specialize (H tag Htag Hrange).
    destruct (resolve_index ROOT_AXIOM tag) as [i| | |]; [by exists i|done..].
  - apply Forall_forall. repeat (apply Forall_cons; split; [apply contains_true; by vm_compute|]).
    by apply Forall_nil.
  - intros c. apply (bool_decide_unpack _). by destruct c; vm_compute.
Qed.

(** ** The statistics of a rule *)

Lemma skipped_rules rule : rule ∈ ROOT_RULES -> is_skipped rule.(stats_effect) = true ->
  rule.(mode_disposition) = ROOT_MODES_SKIPPED.
Proof.
  assert (H : Forall (fun rule => is_skipped rule.(stats_effect) = true ->
    rule.(mode_disposition) = ROOT_MODES_SKIPPED) ROOT_RULES).
  { repeat (apply Forall_cons; split; [vm_compute; congruence|]). by apply Forall_nil. }
  rewrite Forall_forall in H. apply H.
Qed.

(** Does the rule count a skipped axiom under the options? *)
Definition counts_skipped (rule : RootRule) (options : DirectCompileOptions) : bool :=
  is_skipped rule.(stats_effect) && negb options.(asserted_taxonomy_only).

(** C36: Applying a rule of the table to the statistics adds one to the rule's
    own counter and to no other, and one to the skipped axioms exactly when the
    rule is a skipped one and the asserted-taxonomy mode is off; the mode table
    is never indexed out of range. *)
Theorem apply_statistics_exact rule statistics options :
  rule ∈ ROOT_RULES ->
  statistics_count (rule_counter rule) statistics < usize_max ->
  statistics.(Stats.skipped_axioms) < usize_max ->
  exists statistics', apply_statistics rule statistics options = Ok statistics' /\
    (forall c, statistics_count c statistics' =
               statistics_count c statistics + counted (rule_counter rule) c) /\
    statistics'.(Stats.skipped_axioms) =
      statistics.(Stats.skipped_axioms) + (if counts_skipped rule options then 1 else 0).
Proof.
  intros Hin Hc Hs. unfold apply_statistics, counts_skipped.
  destruct (increment_statistics_Ok _ _ Hc) as (s1&Hs1&Hcount&Hskip&_). unfold rule_counter in Hs1.
  rewrite Hs1. cbn [mbind outcome_bind].
  destruct (is_skipped (stats_effect rule)) eqn:E; cbn [andb].
  - unfold disposition. rewrite (skipped_rules rule Hin E). unfold mode_from_options.
    assert (Hbump : bump s1.(Stats.skipped_axioms) "encoded skipped-axiom count overflow"
        (fun value => s1 <| Stats.skipped_axioms := value |>) =
      Ok (s1 <| Stats.skipped_axioms := s1.(Stats.skipped_axioms) + 1 |>))
      by (apply bump_Ok; by rewrite Hskip).
    assert (Hset : forall v c, statistics_count c (s1 <| Stats.skipped_axioms := v |>) = statistics_count c s1)
      by (intros v []; done).
    destruct (asserted_taxonomy_only options); [|destruct (only_taxonomy options)]; cbn -[bump].
    + exists s1. split; [done|]. split; [done|]. by rewrite N.add_0_r.
    + rewrite Hbump. eexists. split; [done|]. split; [intros c; by rewrite Hset|].
      cbn. by rewrite Hskip.
    + rewrite Hbump. eexists. split; [done|]. split; [intros c; by rewrite Hset|].
      cbn. by rewrite Hskip.
  - exists s1. split; [done|]. split; [done|]. by rewrite N.add_0_r.
Qed.

(** ** Closed instances *)

Lemma increment_statistics_exact_witness :
  exists statistics', increment_statistics RootCounter.HasKeys Stats.zero = Ok statistics' /\
    statistics_count RootCounter.HasKeys statistics' = 1 /\
    statistics_count RootCounter.Subclasses statistics' = 0.
Proof.
  destruct (increment_statistics_exact RootCounter.HasKeys Stats.zero) as [H _].
  destruct H as (s'&Hs&Hc&_); [by vm_compute|]. exists s'. split; [done|].
  by rewrite !Hc.
Defined.

(** [DisjointClasses], a skipped constructor. *)
Definition disjoint_rule : RootRule := default (root_rule 0 0 "none" RootRuleHandler.Declaration
  EmissionPhase.Finished [] RootLiteralPolicy.Never RootAnnotationPolicy.AxiomAnnotations
  RootAnonymousScopePolicy.AxiomDerived (RootStatsEffect.Silent RootCounter.Declarations)
  RootRoleEffect.None RootDomainRangeEffect.None DynamicRootAction.General) (get ROOT_RULES 3).

Definition demo_options : DirectCompileOptions :=
  {| bidirectional := true; only_taxonomy := false; include_literals := true;
     asserted_taxonomy_only := false; max_edges := 10; max_iri_bytes := 100 |}.

Lemma apply_statistics_exact_witness :
  rule_counter disjoint_rule = RootCounter.DisjointClasses /\
  exists statistics', apply_statistics disjoint_rule Stats.zero demo_options = Ok statistics' /\
    (forall c, statistics_count c statistics' =
               statistics_count c Stats.zero + counted (rule_counter disjoint_rule) c) /\
    statistics'.(Stats.skipped_axioms) =
      Stats.zero.(Stats.skipped_axioms) + (if counts_skipped disjoint_rule demo_options then 1 else 0).
Proof.
  split; [by vm_compute|]. apply (apply_statistics_exact disjoint_rule Stats.zero demo_options).
  - apply (get_elem_of _ 3). by vm_compute.
  - by vm_compute.
  - by vm_compute.
Defined.
