(* ===== verification/Planning.v ===== *)
(** * The plan of the selected roots

    [RootRule::classify], [plan_root_shape] and
    [populate_selected_root_rule_plan] of native/src/encoded_direct.rs: one
    pass over the selected roots that resolves each to its rule, projects its
    shape, and records, in flat arenas, the node coordinates emission reads
    again.  A workspace, when there is one, is charged for every row pushed to
    the vectors of the plan. *)

From S2P Require Import Prelude Lists Errors Tags Text Readers Columns Nodes Properties Classes Sort.
From S2P Require Import Stats Rules Partial Workspace.
Local Open Scope string_scope.
Local Open Scope list_scope.
Local Open Scope N_scope.

(** ** Data *)

Inductive PlannedRoleEffect :=
  | PropertyChain
  | Row (row : RoleAxiom).

Record PlannedRoleRoot := {
  role_root_index : usize;
  effect : PlannedRoleEffect;
}.

Module PlannedRootShape.
Inductive PlannedRootShape :=
  | Subclass (projection : SubclassProjection)
  | Equivalent (projection : EquivalentProjection)
  | ObjectPropertyClass (projection : option (text * text))
  | ClassAssertion (projection : ClassAssertionProjection)
  | ObjectPropertyAssertion (source : IndividualValue) (relation : text)
      (destination : IndividualValue).
End PlannedRootShape.

Record PlannedShapeRoot := {
  shape_root_index : usize;
  root_shape : PlannedRootShape.PlannedRootShape;
}.

Module PlannedEmissionShape.
Inductive PlannedEmissionShape :=
  | SubclassTaxonomy (source_node destination_node : usize)
  | SubclassRestriction (source_node : usize) (restriction : PlannedRestrictionCoordinate)
  | SubclassIgnored
  | EquivalentPair (source_node destination_node : usize)
  | EquivalentAggregate (source_node aggregate_plan_index : usize)
  | EquivalentIgnored
  | ObjectPropertyClassProjected (property_node class_node : usize)
  | ObjectPropertyClassIgnored
  | ClassAssertionEdge (individual_node class_node : usize)
  | ClassAssertionIgnored
  | ObjectPropertyAssertion (property_node : usize)
      (source destination : PlannedIndividualCoordinate).
End PlannedEmissionShape.

Record PlannedEmissionRoot := {
  emission_root_index : usize;
  emission_shape : PlannedEmissionShape.PlannedEmissionShape;
}.

Record PlannedAggregateRange := {
  range_start : usize;
  range_length : usize;
}.

Record PlannedAggregateRoot := {
  aggregate_root_index : usize;
  named : PlannedAggregateRange;
  restrictions : PlannedAggregateRange;
  ignored_shapes : usize;
}.

Record PlannedAggregateNamedOperand := {
  named_node_id : usize;
  named_iri : text;
}.

Record PlannedAggregateRestrictionOperand := {
  restriction_node_id : usize;
  restriction_tag : u16;
  item_order : usize;
  restriction_projected : option (text * text);
  coordinate : option PlannedRestrictionCoordinate;
}.

#[export] Instance IndividualValue_eq_dec : EqDecision IndividualValue.
Proof. solve_decision. Defined.
#[export] Instance PlannedRootShape_eq_dec : EqDecision PlannedRootShape.PlannedRootShape.
Proof. solve_decision. Defined.

(** The flat arenas of the aggregate class expressions, and the workspace that
    the vectors of the plan are charged to. *)
Record Arenas := {
  aggregate_roots : list PlannedAggregateRoot;
  named_operands : list PlannedAggregateNamedOperand;
  restriction_operands : list PlannedAggregateRestrictionOperand;
  emission_named_nodes : list usize;
  emission_restrictions : list (option PlannedRestrictionCoordinate);
  charged : option LocalOverlayWorkspace;
}.

#[export] Instance Arenas_eta : Eta Arenas := fun a =>
  {| aggregate_roots := a.(aggregate_roots); named_operands := a.(named_operands);
     restriction_operands := a.(restriction_operands);
     emission_named_nodes := a.(emission_named_nodes);
     emission_restrictions := a.(emission_restrictions); charged := a.(charged) |}.

Definition Arenas_default : Arenas :=
  {| aggregate_roots := []; named_operands := []; restriction_operands := [];
     emission_named_nodes := []; emission_restrictions := []; charged := None |}.

Record SelectedRootRulePlan := {
  rule_indexes : list u8;
  shape_roots : list PlannedShapeRoot;
  emission_roots : list PlannedEmissionRoot;
  arenas : Arenas;
  role_roots : list PlannedRoleRoot;
  counts : Counts.RootCounts;
  selected_roots_planned : usize;
}.

#[export] Instance SelectedRootRulePlan_eta : Eta SelectedRootRulePlan := fun p =>
  {| rule_indexes := p.(rule_indexes); shape_roots := p.(shape_roots);
     emission_roots := p.(emission_roots); arenas := p.(arenas); role_roots := p.(role_roots);
     counts := p.(counts); selected_roots_planned := p.(selected_roots_planned) |}.

(** ** Reading a plan *)

Definition resolved_root_rule_at (rule_indexes : list u8) (root_index : usize)
    : outcome RootRule :=
  let lost := malformed "encoded selected root lost its resolved structural rule" in
  encoded_index ← ok_or (get rule_indexes root_index) lost;
  table_index ← ok_or (checked_sub encoded_index 1) lost;
  ok_or (get ROOT_RULES table_index)
    (malformed "encoded selected root has an invalid structural rule index").

Definition checked_plan_slice {A} (values : list A) (range : PlannedAggregateRange)
    (message : string) : outcome (list A) :=
  end_ ← ok_or (checked_add range.(range_start) range.(range_length)) (malformed message);
  ok_or (get_range values range.(range_start) end_) (malformed message).

(** [binary_search_by_key(&root_index, key).ok().map(..)]. *)
Definition find_root {A} (key : A -> usize) (roots : list A) (root_index : usize) : option A :=
  match binary_search_by (fun planned => key planned ?= root_index) roots with
  | inl i => get roots i
  | inr _ => None
  end.

Section plan.
Context (self : SelectedRootRulePlan).

Definition rule_at (root_index : usize) : outcome RootRule :=
  resolved_root_rule_at self.(rule_indexes) root_index.

Definition shape_at (root_index : usize) : option PlannedRootShape.PlannedRootShape :=
  root_shape <$> find_root shape_root_index self.(shape_roots) root_index.

Definition aggregate_at (root_index : usize) : option PlannedAggregateRoot :=
  find_root aggregate_root_index self.(arenas).(aggregate_roots) root_index.

Definition aggregate_named_operands (plan : PlannedAggregateRoot)
    : outcome (list PlannedAggregateNamedOperand) :=
  checked_plan_slice self.(arenas).(named_operands) plan.(named)
    "encoded aggregate named-operand plan is out of bounds".

Definition aggregate_restriction_operands (plan : PlannedAggregateRoot)
    : outcome (list PlannedAggregateRestrictionOperand) :=
  checked_plan_slice self.(arenas).(restriction_operands) plan.(restrictions)
    "encoded aggregate restriction-operand plan is out of bounds".

Definition skipped_step (options : DirectCompileOptions) (st : usize * usize) (encoded_index : u8)
    : Cx (usize * usize) :=
  let '(count, root_index) := st in
  _ ← check_cancel root_index;
  let next := root_index + 1 in
  if encoded_index =? 0 then mret (count, next) else
  rule ← !ok_or (get ROOT_RULES (encoded_index - 1))
    (malformed "encoded selected root has an invalid structural rule index");
  if is_skipped rule.(stats_effect) then
    disposition ← !disposition rule options;
    if bool_decide (disposition = RootModeDisposition.SkipDiagnostic) then
      count ← !ok_or (checked_add count 1) (resource "encoded skipped-axiom count overflow");
      mret (count, next)
    else mret (count, next)
  else mret (count, next).

Definition skipped_axioms (options : DirectCompileOptions) : Cx usize :=
  '(count, _) ← foldM (skipped_step options) (0, 0) self.(rule_indexes);
  mret count.

Definition role_effect_at (root_index : usize) : option PlannedRoleEffect :=
  effect <$> find_root role_root_index self.(role_roots) root_index.
End plan.

(** The part of a plan that emission keeps. *)
Record PreparedEmissionPlan := {
  prepared_rule_indexes : list u8;
  prepared_emission_roots : list PlannedEmissionRoot;
  prepared_aggregate_roots : list PlannedAggregateRoot;
  prepared_named_nodes : list usize;
  prepared_restrictions : list (option PlannedRestrictionCoordinate);
}.

Definition check_aggregate_ranges (self : Arenas) (aggregate_index : usize)
    (aggregate : PlannedAggregateRoot) : Cx usize :=
  _ ← check_cancel aggregate_index;
  _ ← !checked_plan_slice self.(emission_named_nodes) aggregate.(named)
         "encoded aggregate named-emission plan is out of bounds";
  _ ← !checked_plan_slice self.(emission_restrictions) aggregate.(restrictions)
         "encoded aggregate restriction-emission plan is out of bounds";
  mret (aggregate_index + 1).

Definition check_emission_root (self : Arenas) (emission_index : usize)
    (planned : PlannedEmissionRoot) : Cx usize :=
  _ ← check_cancel emission_index;
  match planned.(emission_shape) with
  | PlannedEmissionShape.EquivalentAggregate _ aggregate_plan_index =>
      aggregate ← !ok_or (get self.(aggregate_roots) aggregate_plan_index)
        (malformed "encoded aggregate emission root references an unknown operand plan");
      if negb (aggregate.(aggregate_root_index) =? planned.(emission_root_index)) then
        !Err (malformed "encoded aggregate emission root references another root's operand plan")
      else mret (emission_index + 1)
  | _ => mret (emission_index + 1)
  end.

(** [take_emission_plan]; the arenas it takes are left empty. *)
Definition take_emission_plan (self : SelectedRootRulePlan) : Cx PreparedEmissionPlan :=
  let a := self.(arenas) in
  _ ← foldM (check_aggregate_ranges a) 0 a.(aggregate_roots);
  _ ← foldM (check_emission_root a) 0 self.(emission_roots);
  mret {| prepared_rule_indexes := self.(rule_indexes);
          prepared_emission_roots := self.(emission_roots);
          prepared_aggregate_roots := a.(aggregate_roots);
          prepared_named_nodes := a.(emission_named_nodes);
          prepared_restrictions := a.(emission_restrictions) |}.

(** ** The order of class expressions *)

Record PlannedExpressionKey := {
  key_node_id : usize;
  key_rank : u16;
  key_named_iri : option text;
}.

Definition precedes (self other : PlannedExpressionKey) : bool :=
  if negb (self.(key_rank) =? other.(key_rank)) then self.(key_rank) <? other.(key_rank) else
  match self.(key_named_iri), other.(key_named_iri) with
  | Some iri, Some other_iri =>
      keyed_lt (iri, self.(key_node_id)) (other_iri, other.(key_node_id))
  | _, _ => self.(key_node_id) <? other.(key_node_id)
  end.

Section planning.
Context `{LowercaseTable} (columns : DirectColumns) (maximum_iri : usize).

Definition planned_expression_key (node_id : usize) : outcome PlannedExpressionKey :=
  tag ← node_tag columns node_id;
  '(rank, named_iri) ←
    (if tag =? TAG_ENTITY then
       iri ← named_class_iri columns node_id maximum_iri; Ok (1001, Some iri)
     else if tag =? TAG_OBJECT_INTERSECTION_OF then Ok (3001, None)
     else if tag =? TAG_OBJECT_UNION_OF then Ok (3002, None)
     else if tag =? TAG_OBJECT_SOME_VALUES_FROM then Ok (3005, None)
     else if tag =? TAG_OBJECT_ALL_VALUES_FROM then Ok (3006, None)
     else if tag =? TAG_OBJECT_MIN_CARDINALITY then Ok (3008, None)
     else if tag =? TAG_OBJECT_MAX_CARDINALITY then Ok (3010, None)
     else if is_nonprojecting_class_tag tag then Ok (3999, None)
     else if is_schema_tag tag then
       Err (unsupported "direct native equivalent expression is outside the bounded class envelope")
     else Err (outside_schema "encoded equivalent expression tag" tag));
  Ok {| key_node_id := node_id; key_rank := rank; key_named_iri := named_iri |}.

(** The two first expressions in the order of [precedes]. *)
Definition select_step (best : option PlannedExpressionKey * option PlannedExpressionKey)
    (item_index : usize) : Cx (option PlannedExpressionKey * option PlannedExpressionKey) :=
  let '(first, second) := best in
  _ ← check_cancel item_index;
  expression ← !item_node columns item_index;
  candidate ← !planned_expression_key expression;
  mret (match first with
        | None => (Some candidate, second)
        | Some current =>
            if precedes candidate current then (Some candidate, first)
            else if match second with
                    | None => true
                    | Some current => precedes candidate current
                    end
            then (first, Some candidate)
            else (first, second)
        end).

Definition aggregate_operand_range (node_id : usize) : outcome (usize * usize) :=
  tag ← node_tag columns node_id;
  if negb (is_aggregate_tag tag) then
    Err (malformed "encoded aggregate cursor has the wrong constructor tag") else
  start ← exact_fields columns node_id 1;
  node_set_range columns start 2.

(** One operand of an aggregate: a named class, a restriction, or an ignored
    shape; the state is the arenas and the number of ignored shapes. *)
Definition operand_step (aggregate_start : usize) (st : Arenas * usize) (item_index : usize)
    : Cx (Arenas * usize) :=
  let '(a, ignored_shapes) := st in
  _ ← check_cancel item_index;
  let ignored := ok_or (checked_add ignored_shapes 1)
                   (resource "encoded equivalent ignored-shape count overflow") in
  operand_id ← !item_node columns item_index;
  tag ← !node_tag columns operand_id;
  if tag =? TAG_ENTITY then
    iri ← !named_class_iri columns operand_id maximum_iri;
    let operand := {| named_node_id := operand_id; named_iri := iri |} in
    workspace ← !push_planned a.(charged) (@size_of_named_operand);
    workspace ← !push_planned workspace (fun _ => size_of_usize);
    mret (a <| named_operands := a.(named_operands) ++ [operand] |>
            <| emission_named_nodes := a.(emission_named_nodes) ++ [operand_id] |>
            <| charged := workspace |>, ignored_shapes)
  else if is_restriction_tag tag then
    projection ← !restriction_projection columns operand_id maximum_iri;
    coordinate ← !(match projection with
                   | Some _ => coordinate ← planned_restriction_coordinate columns operand_id;
                               Ok (Some coordinate)
                   | None => Ok None
                   end);
    ignored_shapes ← !(if projection then Ok ignored_shapes else ignored);
    let operand :=
      {| restriction_node_id := operand_id; restriction_tag := tag;
         item_order := item_index - aggregate_start; restriction_projected := projection;
         coordinate := coordinate |} in
    workspace ← !push_planned a.(charged) (@size_of_restriction_operand);
    workspace ← !push_planned workspace (@size_of_coordinate_option);
    mret (a <| restriction_operands := a.(restriction_operands) ++ [operand] |>
            <| emission_restrictions := a.(emission_restrictions) ++ [coordinate] |>
            <| charged := workspace |>, ignored_shapes)
  else if is_nonprojecting_class_tag tag || is_aggregate_tag tag then
    ignored_shapes ← !ignored;
    mret (a, ignored_shapes)
  else !Err (malformed "encoded aggregate operand changed after successful preflight").

Definition named_operand_cmp (left right : PlannedAggregateNamedOperand) : comparison :=
  then_with (bytes_cmp left.(named_iri) right.(named_iri))
    (left.(named_node_id) ?= right.(named_node_id)).

Definition tag_order (tag : u16) : u8 :=
  if tag =? TAG_OBJECT_SOME_VALUES_FROM then 0
  else if tag =? TAG_OBJECT_ALL_VALUES_FROM then 1
  else if tag =? TAG_OBJECT_MIN_CARDINALITY then 2
  else if tag =? TAG_OBJECT_MAX_CARDINALITY then 3
  else 255.

Definition restriction_operand_cmp (left right : PlannedAggregateRestrictionOperand) : comparison :=
  then_with (tag_order left.(restriction_tag) ?= tag_order right.(restriction_tag))
    (left.(item_order) ?= right.(item_order)).

(** [values[start..]] is sorted in place. *)
Definition sort_tail {A} (cmp : A -> A -> comparison) (start : usize) (values : list A)
    : Cx (list A) :=
  tail ← cancellable_sort_unstable_by cmp (drop (N.to_nat start) values);
  mret (take (N.to_nat start) values ++ tail).

(** [for (i, (target, operand)) in targets[start..].iter_mut().zip(&operands[start..])
    { *target = f(operand) }]. *)
Definition align_tail {A B} (f : B -> A) (start : usize) (targets : list A) (operands : list B)
    : Cx (list A) :=
  let amount := N.min (len targets) (len operands) - start in
  foldM (fun targets alignment_index =>
    _ ← check_cancel alignment_index;
    operand ← !index operands (start + alignment_index);
    !store targets (start + alignment_index) (f operand)) targets (range 0 amount).

Definition plan_aggregate (root_index aggregate_id : usize) (a : Arenas) : Cx (Arenas * usize) :=
  '(aggregate_start, aggregate_length) ← !aggregate_operand_range aggregate_id;
  let named_start := len a.(named_operands) in
  let restriction_start := len a.(restriction_operands) in
  '(a, ignored_shapes) ← foldM (operand_step aggregate_start) (a, 0)
      (range aggregate_start (aggregate_start +w aggregate_length));
  sorted_named ← sort_tail named_operand_cmp named_start a.(named_operands);
  named_nodes ← align_tail named_node_id named_start a.(emission_named_nodes) sorted_named;
  sorted_restrictions ←
    sort_tail restriction_operand_cmp restriction_start a.(restriction_operands);
  coordinates ←
    align_tail coordinate restriction_start a.(emission_restrictions) sorted_restrictions;
  let planned :=
    {| aggregate_root_index := root_index;
       named := {| range_start := named_start; range_length := len sorted_named - named_start |};
       restrictions := {| range_start := restriction_start;
                          range_length := len sorted_restrictions - restriction_start |};
       ignored_shapes := ignored_shapes |} in
  workspace ← !push_planned a.(charged) (@size_of_aggregate_root);
  mret ({| aggregate_roots := a.(aggregate_roots) ++ [planned]; named_operands := sorted_named;
           restriction_operands := sorted_restrictions; emission_named_nodes := named_nodes;
           emission_restrictions := coordinates; charged := workspace |}, len a.(aggregate_roots)).

Definition planned_shapes : Type :=
  PlannedRootShape.PlannedRootShape * PlannedEmissionShape.PlannedEmissionShape.

Definition plan_equivalent_shape (root_index node_id : usize) (a : Arenas)
    : Cx (planned_shapes * Arenas) :=
  let ignored := (PlannedRootShape.Equivalent EquivalentIgnored,
                  PlannedEmissionShape.EquivalentIgnored) in
  start ← !exact_fields columns node_id 2;
  '(item_start, length) ← !node_set_range columns start 2;
  best ← foldM select_step (None, None) (range item_start (item_start +w length));
  _ ← !validate_annotation_set columns (start +w 1);
  match best with
  | (Some first, Some second) =>
      match first.(key_named_iri), second.(key_named_iri) with
      | None, _ => mret (ignored, a)
      | Some source, Some destination =>
          mret ((PlannedRootShape.Equivalent
                   (Pair source first.(key_node_id) destination second.(key_node_id)),
                 PlannedEmissionShape.EquivalentPair first.(key_node_id) second.(key_node_id)), a)
      | Some source, None =>
          tag ← !node_tag columns second.(key_node_id);
          if negb (is_aggregate_tag tag) then mret (ignored, a) else
          '(a, aggregate_plan_index) ← plan_aggregate root_index second.(key_node_id) a;
          mret ((PlannedRootShape.Equivalent
                   (Aggregate source first.(key_node_id) second.(key_node_id)),
                 PlannedEmissionShape.EquivalentAggregate first.(key_node_id)
                   aggregate_plan_index), a)
      end
  | _ => !Err (malformed "encoded EquivalentClasses has too few expressions")
  end.

Definition plan_subclass (node_id : usize) : outcome planned_shapes :=
  projection ← subclass_projection columns node_id maximum_iri;
  start ← exact_fields columns node_id 3;
  sub_node ← field_node columns start;
  super_node ← field_node columns (start +w 1);
  emission ←
    match projection with
    | Taxonomy _ _ => Ok (PlannedEmissionShape.SubclassTaxonomy sub_node super_node)
    | Restriction _ _ _ =>
        sub_tag ← node_tag columns sub_node;
        let '(source_node, restriction_node) :=
          if sub_tag =? TAG_ENTITY then (sub_node, super_node) else (super_node, sub_node) in
        restriction ← planned_restriction_coordinate columns restriction_node;
        Ok (PlannedEmissionShape.SubclassRestriction source_node restriction)
    | SubclassIgnored => Ok PlannedEmissionShape.SubclassIgnored
    end;
  Ok (PlannedRootShape.Subclass projection, emission).

Definition plan_object_property_class (tag : u16) (node_id : usize) : outcome planned_shapes :=
  projection ← object_property_class_projection columns node_id tag maximum_iri;
  emission ←
    (if projection then
       start ← exact_fields columns node_id 3;
       property_node ← field_node columns start;
       class_node ← field_node columns (start +w 1);
       Ok (PlannedEmissionShape.ObjectPropertyClassProjected property_node class_node)
     else Ok PlannedEmissionShape.ObjectPropertyClassIgnored);
  Ok (PlannedRootShape.ObjectPropertyClass projection, emission).

Definition plan_class_assertion (node_id : usize) : outcome planned_shapes :=
  projection ← class_assertion_projection columns node_id maximum_iri;
  Ok (PlannedRootShape.ClassAssertion projection,
      match projection with
      | Edge_ _ individual_node _ class_node =>
          PlannedEmissionShape.ClassAssertionEdge individual_node class_node
      | ClassAssertionIgnored => PlannedEmissionShape.ClassAssertionIgnored
      end).

Definition plan_object_property_assertion (node_id : usize) : outcome planned_shapes :=
  '(source, relation, destination) ← object_property_assertion_parts columns node_id maximum_iri;
  start ← exact_fields columns node_id 4;
  source_node ← field_node columns (start +w 1);
  destination_node ← field_node columns (start +w 2);
  property_node ← field_node columns start;
  source_coordinate ← planned_individual_coordinate columns source source_node;
  destination_coordinate ← planned_individual_coordinate columns destination destination_node;
  Ok (PlannedRootShape.ObjectPropertyAssertion source relation destination,
      PlannedEmissionShape.ObjectPropertyAssertion property_node source_coordinate
        destination_coordinate).

Definition plan_root_shape (rule : RootRule) (root_index node_id : usize) (a : Arenas)
    : Cx (option planned_shapes * Arenas) :=
  match rule.(handler) with
  | RootRuleHandler.Subclass => planned ← !plan_subclass node_id; mret (Some planned, a)
  | RootRuleHandler.EquivalentClasses =>
      '(planned, a) ← plan_equivalent_shape root_index node_id a; mret (Some planned, a)
  | RootRuleHandler.ObjectPropertyClass =>
      planned ← !plan_object_property_class rule.(rule_tag) node_id; mret (Some planned, a)
  | RootRuleHandler.ClassAssertion =>
      planned ← !plan_class_assertion node_id; mret (Some planned, a)
  | RootRuleHandler.ObjectPropertyAssertion =>
      planned ← !plan_object_property_assertion node_id; mret (Some planned, a)
  | _ => mret (None, a)
  end.

(** ** Classification *)

(** [RootRule::classify]; the counters are those it leaves behind, and a
    reached [unreachable!()] is a panic. *)
Definition classify (self : RootRule) (node_id : usize) (counts : Counts.RootCounts)
    (canonical_order : usize) (planned_shape : option PlannedRootShape.PlannedRootShape)
    : outcome (option PlannedRoleEffect * option PlannedRootShape.PlannedRootShape
               * Counts.RootCounts) :=
  counts ← increment (RootStatsEffect.counter self.(stats_effect)) counts;
  '(planned_effect, counts) ←
    match self.(handler) with
    | RootRuleHandler.Subclass =>
        match planned_shape with
        | Some (PlannedRootShape.Subclass projection) =>
            counts ← match projection with
              | Restriction _ _ _ =>
                  bump counts.(Counts.restriction_subclasses)
                    "encoded restriction-subclass count overflow"
                    (fun value => counts <| Counts.restriction_subclasses := value |>)
              | SubclassIgnored =>
                  bump counts.(Counts.ignored_subclasses) "encoded ignored-subclass count overflow"
                    (fun value => counts <| Counts.ignored_subclasses := value |>)
              | Taxonomy _ _ => Ok counts
              end;
            Ok (None, counts)
        | _ => Err (malformed "encoded subclass root lost its planned semantic shape")
        end
    | RootRuleHandler.EquivalentClasses =>
        match planned_shape with
        | Some (PlannedRootShape.Equivalent projection) =>
            counts ← match projection with
              | Aggregate _ _ _ =>
                  bump counts.(Counts.aggregate_equivalents)
                    "encoded aggregate-equivalent count overflow"
                    (fun value => counts <| Counts.aggregate_equivalents := value |>)
              | _ => Ok counts
              end;
            Ok (None, counts)
        | _ => Err (malformed "encoded equivalent root lost its planned semantic shape")
        end
    | RootRuleHandler.SubObjectProperty =>
        field_start ← exact_fields columns node_id 3;
        first ← field_node columns field_start;
        first_tag ← node_tag columns first;
        if first_tag =? TAG_OBJECT_PROPERTY_CHAIN then
          _ ← validate_sub_object_property_of columns node_id maximum_iri;
          counts ← bump counts.(Counts.object_property_chains)
            "encoded object-property-chain count overflow"
            (fun value => counts <| Counts.object_property_chains := value |>);
          Ok (Some PropertyChain, counts)
        else
          row ← role_axiom_row columns node_id self.(rule_tag) maximum_iri canonical_order 1;
          Ok (Some (Row row), counts)
    | RootRuleHandler.InverseObjectProperties =>
        row ← role_axiom_row columns node_id self.(rule_tag) maximum_iri canonical_order 1;
        Ok (Some (Row row), counts)
    | RootRuleHandler.ObjectPropertyClass =>
        match planned_shape with
        | Some (PlannedRootShape.ObjectPropertyClass projection) =>
            counts ← match projection with
              | Some _ => Ok counts
              | None =>
                  let overflow := "encoded ignored-object-property class count overflow" in
                  match self.(domain_range_effect) with
                  | RootDomainRangeEffect.Domain =>
                      bump counts.(Counts.ignored_object_property_domains) overflow
                        (fun value => counts <| Counts.ignored_object_property_domains := value |>)
                  | RootDomainRangeEffect.Range =>
                      bump counts.(Counts.ignored_object_property_ranges) overflow
                        (fun value => counts <| Counts.ignored_object_property_ranges := value |>)
                  | RootDomainRangeEffect.None => Panic
                  end
              end;
            Ok (None, counts)
        | _ => Err (malformed "encoded object-property class root lost its planned semantic shape")
        end
    | RootRuleHandler.ClassAssertion =>
        match planned_shape with
        | Some (PlannedRootShape.ClassAssertion projection) =>
            counts ← match projection with
              | ClassAssertionIgnored =>
                  bump counts.(Counts.ignored_class_assertions)
                    "encoded ignored-class-assertion count overflow"
                    (fun value => counts <| Counts.ignored_class_assertions := value |>)
              | _ => Ok counts
              end;
            Ok (None, counts)
        | _ => Err (malformed "encoded class-assertion root lost its planned semantic shape")
        end
    | RootRuleHandler.ObjectPropertyAssertion =>
        match planned_shape with
        | Some (PlannedRootShape.ObjectPropertyAssertion _ _ _) => Ok (None, counts)
        | _ => Err (malformed "encoded object-property assertion lost its planned semantic shape")
        end
    | _ => Ok (None, counts)
    end;
  if negb (Bool.eqb (bool_decide (self.(role_effect) = RootRoleEffect.None))
             (match planned_effect with None => true | Some _ => false end)) then
    Err (malformed "encoded structural root rule lost its planned role effect")
  else Ok (planned_effect, planned_shape, counts).

(** ** The pass over the roots *)

Definition push_some {A B} (f : A -> B) (l : list B) (x : option A) : list B :=
  match x with Some x => l ++ [f x] | None => l end.

(** The charge of such a push. *)
Definition push_charge {A} (size : Layout -> usize) (x : option A)
    (workspace : option LocalOverlayWorkspace) : outcome (option LocalOverlayWorkspace) :=
  match x with Some _ => push_planned workspace size | None => Ok workspace end.

(** One root of [populate_selected_root_rule_plan]. *)
Definition populate_step (plan : SelectedRootRulePlan) (root_index : usize)
    : Cx SelectedRootRulePlan :=
  _ ← check_cancel root_index;
  selected ← !root_is_selected columns root_index;
  if negb selected then mret plan else
  node_id ← !root_id columns root_index;
  kind ← !root_kind columns root_index;
  tag ← !node_tag columns node_id;
  encoded_index ← !resolve_index kind tag;
  rule ← !ok_or (get ROOT_RULES (encoded_index - 1))
    (malformed "encoded structural root-rule index is invalid");
  '(planned, arenas) ← plan_root_shape rule root_index node_id plan.(arenas);
  let planned_shape := fst <$> planned in
  let emission_shape := snd <$> planned in
  '(planned_effect, classified_shape, counts) ←
    !classify rule node_id plan.(counts) root_index planned_shape;
  if negb (bool_decide (classified_shape = planned_shape)) then
    !Err (malformed "encoded structural root changed its planned semantic shape") else
  workspace ← !push_charge (@size_of_role_root) planned_effect arenas.(charged);
  workspace ← !push_charge (@size_of_shape_root) planned_shape workspace;
  workspace ← !push_charge (@size_of_emission_root) emission_shape workspace;
  rule_indexes ← !store plan.(rule_indexes) root_index encoded_index;
  selected ← !ok_or (checked_add plan.(selected_roots_planned) 1)
    (resource "encoded selected-root count overflow");
  mret {|
    rule_indexes := rule_indexes;
    shape_roots := push_some (fun shape =>
      {| shape_root_index := root_index; root_shape := shape |}) plan.(shape_roots) planned_shape;
    emission_roots := push_some (fun shape =>
      {| emission_root_index := root_index; emission_shape := shape |})
      plan.(emission_roots) emission_shape;
    arenas := arenas <| charged := workspace |>;
    role_roots := push_some (fun effect =>
      {| role_root_index := root_index; effect := effect |}) plan.(role_roots) planned_effect;
    counts := counts;
    selected_roots_planned := selected;
  |}.

Definition empty_plan (rule_indexes : list u8) (workspace : option LocalOverlayWorkspace)
    : SelectedRootRulePlan := {|
  rule_indexes := rule_indexes; shape_roots := []; emission_roots := [];
  arenas := Arenas_default <| charged := workspace |>; role_roots := []; counts := Counts.zero;
  selected_roots_planned := 0 |}.

Definition populate_selected_root_rule_plan (rule_indexes : list u8)
    (workspace : option LocalOverlayWorkspace) : Cx SelectedRootRulePlan :=
  plan ← foldM populate_step (empty_plan rule_indexes workspace) (range 0 (len rule_indexes));
  expected ← !selected_root_count columns;
  if negb (plan.(selected_roots_planned) =? expected) then
    !Err (malformed "encoded structural root-rule plan lost a selected root")
  else mret plan.

Definition resolve_selected_root_rule_plan_unbounded : Cx SelectedRootRulePlan :=
  populate_selected_root_rule_plan (replicate (N.to_nat (root_count columns)) 0) None.

(** The plan, and the workspace it was charged to. *)
Definition populate_owned (rule_indexes : list u8) : Owned SelectedRootRulePlan := fun workspace =>
  plan ← populate_selected_root_rule_plan rule_indexes (Some workspace);
  mret (plan <| arenas := plan.(arenas) <| charged := None |> |>,
        default workspace plan.(arenas).(charged)).

Definition resolve_selected_root_rule_plan : Owned SelectedRootRulePlan :=
  _ ← reserve_owned (fun _ => size_of_u8) (root_count columns);
  populate_owned (replicate (N.to_nat (root_count columns)) 0).
End planning.
