(* ===== verification/Plans.v ===== *)
(** * What a plan denotes

    The plan of a root is its projection twice: the shape, with its texts, that
    the counting passes read, and the emission shape, the node coordinates that
    emission reads again.  The two agree: re-reading the coordinates gives the
    texts of the shape. *)

From stdpp Require Import sorting.
From S2P Require Import Prelude Lists Errors Partial Tags Text Readers Columns Nodes Properties Classes.
From S2P Require Import Sort Reach Stats Rules Table Planning.
Local Open Scope string_scope.
Local Open Scope list_scope.
Local Open Scope N_scope.

(** Two computations that make the same calls, followed side by side. *)
Ltac follow_both :=
  repeat (inv_ok; match goal with
  | H1 : ?m = Ok _, H2 : ?m = Ok _ |- _ => rewrite H1 in H2; injection H2 as H2
  | H : (if ?b then _ else _) = Ok _ |- _ => destruct b eqn:?
  | H : match ?x with _ => _ end = Ok _ |- _ => destruct x eqn:?
  end); inv_ok.

(** Replays calls with known results. *)
Ltac replay :=
  repeat match goal with H : ?m = Ok _ |- context [?m] => rewrite H; cbn [mbind outcome_bind] end.

Section denotes.
Context `{LowercaseTable} (columns : DirectColumns) (maximum : usize).

(** ** Coordinates *)

Inductive restriction_denotes : option (text * text) -> option PlannedRestrictionCoordinate -> Prop :=
  | denotes_no_restriction : restriction_denotes None None
  | denotes_restriction parts coordinate :
      planned_restriction_parts columns coordinate maximum = Ok parts ->
      restriction_denotes (Some parts) (Some coordinate).

(** An individual of the axiom [node]. *)
Inductive individual_denotes (node : usize) : IndividualValue -> PlannedIndividualCoordinate -> Prop :=
  | denotes_named iri n :
      named_individual_iri columns n maximum = Ok iri ->
      individual_denotes node (Named iri) (NamedCoordinate n)
  | denotes_anonymous n :
      refers columns node n -> is_anonymous columns n ->
      individual_denotes node (Anonymous n) (AnonymousCoordinate n).

Inductive denotes (node : usize)
  : PlannedRootShape.PlannedRootShape -> PlannedEmissionShape.PlannedEmissionShape -> Prop :=
  | denotes_taxonomy source destination source_node destination_node :
      named_class_iri columns source_node maximum = Ok source ->
      named_class_iri columns destination_node maximum = Ok destination ->
      denotes node (PlannedRootShape.Subclass (Taxonomy source destination))
        (PlannedEmissionShape.SubclassTaxonomy source_node destination_node)
  | denotes_subclass_restriction source relation destination source_node coordinate :
      named_class_iri columns source_node maximum = Ok source ->
      planned_restriction_parts columns coordinate maximum = Ok (relation, destination) ->
      denotes node (PlannedRootShape.Subclass (Restriction source relation destination))
        (PlannedEmissionShape.SubclassRestriction source_node coordinate)
  | denotes_subclass_ignored :
      denotes node (PlannedRootShape.Subclass SubclassIgnored) PlannedEmissionShape.SubclassIgnored
  | denotes_pair source destination source_node destination_node :
      named_class_iri columns source_node maximum = Ok source ->
      named_class_iri columns destination_node maximum = Ok destination ->
      denotes node (PlannedRootShape.Equivalent (Pair source source_node destination destination_node))
        (PlannedEmissionShape.EquivalentPair source_node destination_node)
  | denotes_aggregate source source_node aggregate plan_index :
      named_class_iri columns source_node maximum = Ok source ->
      denotes node (PlannedRootShape.Equivalent (Aggregate source source_node aggregate))
        (PlannedEmissionShape.EquivalentAggregate source_node plan_index)
  | denotes_equivalent_ignored :
      denotes node (PlannedRootShape.Equivalent EquivalentIgnored) PlannedEmissionShape.EquivalentIgnored
  | denotes_object_property_class property class property_node class_node :
      named_object_property_iri columns property_node maximum = Ok property ->
      named_class_iri columns class_node maximum = Ok class ->
      denotes node (PlannedRootShape.ObjectPropertyClass (Some (property, class)))
        (PlannedEmissionShape.ObjectPropertyClassProjected property_node class_node)
  | denotes_object_property_class_ignored :
      denotes node (PlannedRootShape.ObjectPropertyClass None)
        PlannedEmissionShape.ObjectPropertyClassIgnored
  | denotes_class_assertion individual class individual_node class_node :
      named_individual_iri columns individual_node maximum = Ok individual ->
      named_class_iri columns class_node maximum = Ok class ->
      denotes node (PlannedRootShape.ClassAssertion (Edge_ individual individual_node class class_node))
        (PlannedEmissionShape.ClassAssertionEdge individual_node class_node)
  | denotes_class_assertion_ignored :
      denotes node (PlannedRootShape.ClassAssertion ClassAssertionIgnored)
        PlannedEmissionShape.ClassAssertionIgnored
  | denotes_object_property_assertion source relation destination property_node sc dc :
      named_object_property_iri columns property_node maximum = Ok relation ->
      individual_denotes node source sc -> individual_denotes node destination dc ->
      denotes node (PlannedRootShape.ObjectPropertyAssertion source relation destination)
        (PlannedEmissionShape.ObjectPropertyAssertion property_node sc dc).

(** ** Restrictions *)

Lemma restriction_planned node parts coordinate :
  restriction_projection columns node maximum = Ok (Some parts) ->
  planned_restriction_coordinate columns node = Ok coordinate ->
  planned_restriction_parts columns coordinate maximum = Ok parts.
Proof using Type.
  unfold restriction_projection, restriction_indexes, object_property_expression_iri,
    object_inverse_iri, planned_restriction_coordinate, planned_restriction_parts.
  intros Hp Hc. follow_both; cbn [property_node filler_node] in *; by replay.
Qed.

(** ** Shapes *)

Lemma subclass_planned node shape emission :
  plan_subclass columns maximum node = Ok (shape, emission) -> denotes node shape emission.
Proof using Type.
  unfold plan_subclass, subclass_projection, restriction_subclass. intros Hp. follow_both.
  all: try match goal with
       | Hs : (?a && ?b)%bool = false, Ha : ?a = true, Hr : (_ && ?b)%bool = true |- _ =>
           apply andb_true_iff in Hr as [_ Hr]; rewrite Ha, Hr in Hs; discriminate
       | Hs : (?a && _)%bool = true, Ha : ?a = false |- _ => rewrite Ha in Hs; discriminate
       end.
  all: try match goal with H : match ?x with Some _ => _ | None => _ end = _ |- _ =>
         destruct x as [[? ?]|]; simplify_eq/= end.
  all: eauto using denotes, restriction_planned.
Qed.

Lemma object_property_class_planned tag node shape emission :
  plan_object_property_class columns maximum tag node = Ok (shape, emission) ->
  denotes node shape emission.
Proof using Type.
  unfold plan_object_property_class, object_property_class_projection, zip_option. intros Hp.
  follow_both. all: simplify_eq/=. all: eauto using denotes.
Qed.

Lemma class_assertion_planned node shape emission :
  plan_class_assertion columns maximum node = Ok (shape, emission) -> denotes node shape emission.
Proof using Type.
  unfold plan_class_assertion, class_assertion_projection. intros Hp.
  follow_both. all: eauto using denotes.
Qed.

(** The fields of a node are the nodes it refers to. *)
Lemma field_refers_node node arity start k c :
  exact_fields columns node arity = Ok start -> field_count columns <= usize_max -> k < arity ->
  field_node columns (start +w k) = Ok c -> refers columns node c.
Proof using Type.
  unfold exact_fields. intros ([s e]&Hr&Hs)%bind_Ok Hc Hk Hn.
  destruct (N.eqb_spec (e - s) arity); [|done]. injection Hs as ->.
  exists start, e, (start + k).
  assert (e <= field_count columns).
  { unfold field_range in Hr. follow_both. apply andb_true_iff in Heqb as [_ Hb%N.leb_le].  done. }
  rewrite wrapping_add_small in Hn by lia. split_and!; [done|lia..|]. left. split; [|done].
  unfold field_node in Hn. follow_both. apply negb_false_iff, N.eqb_eq in Heqb. congruence.
Qed.

Lemma individual_planned node value coordinate arity start k c :
  exact_fields columns node arity = Ok start -> field_count columns <= usize_max -> k < arity ->
  field_node columns (start +w k) = Ok c ->
  individual_value columns c maximum = Ok value ->
  planned_individual_coordinate columns value c = Ok coordinate ->
  individual_denotes node value coordinate.
Proof using Type.
  unfold individual_value, planned_individual_coordinate. intros Hs Hc Hk Hn Hv Hp.
  follow_both. all: eauto using individual_denotes.
  constructor; [by eapply field_refers_node|].
  unfold is_anonymous. match goal with H : (?t =? TAG_ANONYMOUS_INDIVIDUAL) = true |- _ =>
    apply N.eqb_eq in H; congruence end.
Qed.

Lemma object_property_assertion_planned node shape emission :
  field_count columns <= usize_max ->
  plan_object_property_assertion columns maximum node = Ok (shape, emission) ->
  denotes node shape emission.
Proof using Type.
  unfold plan_object_property_assertion, object_property_assertion_parts. intros Hc Hp.
  follow_both. simplify_eq. constructor; [done|..].
  - by eapply (individual_planned _ _ _ 4 _ 1); eauto; lia.
  - by eapply (individual_planned _ _ _ 4 _ 2); eauto; lia.
Qed.

(** ** Tails of the arenas *)

Lemma sort_tail_permutes {A} (cmp : A -> A -> comparison) start (values : list A) :
  post (fun l => take (N.to_nat start) l = take (N.to_nat start) values /\ l ≡ₚ values)
    (sort_tail cmp start values).
Proof using Type.
  unfold sort_tail. eapply post_bind; [apply sort_permutes|]. intros tail Ht. apply post_ret. split.
  - rewrite take_app, take_take, Nat.min_id, length_take.
    destruct (Nat.le_gt_cases (length values) (N.to_nat start)).
    + apply Permutation_length in Ht. rewrite length_drop in Ht.
      destruct tail; [by rewrite take_nil, app_nil_r|cbn in Ht; lia].
    + rewrite Nat.min_l, Nat.sub_diag by lia. by rewrite take_0, app_nil_r.
  - by rewrite Ht, take_drop.
Qed.

(** A tail aligned with the sorted operands continues an aligned prefix. *)
Lemma align_tail_aligns {A B} (f : B -> A) start targets (operands : list B) :
  length targets = length operands ->
  take (N.to_nat start) targets = f <$> take (N.to_nat start) operands ->
  post (fun l => l = f <$> operands) (align_tail f start targets operands).
Proof using Type.
  intros Hlen Hpre. unfold align_tail.
  set (amount := N.min (len targets) (len operands) - start).
  eapply post_mono; [|apply (post_foldM_ind (fun visited l => length l = length operands /\
    forall j, (N.of_nat j < start \/ N.of_nat j - start ∈ visited) -> l !! j = f <$> operands !! j))].
  - intros l [Hl Hj]. apply list_eq. intros j. rewrite list_lookup_fmap.
    destruct (N.lt_ge_cases (N.of_nat j) start); [apply Hj; by left|].
    destruct (Nat.lt_ge_cases j (length operands)).
    + apply Hj. right. apply elem_of_range. unfold amount, len. lia.
    + rewrite !lookup_ge_None_2 by lia. done.
  - split; [done|]. intros j [Hj|Hj%elem_of_nil]; [|done].
    rewrite <- (lookup_take_lt targets (N.to_nat start) j), Hpre, list_lookup_fmap by lia.
    by rewrite lookup_take_lt by lia.
  - intros visited x rest l Hx [Hl Hj].
    eapply post_bind; [apply post_trivial|intros _ _].
    eapply post_bind; [apply post_lift, ensures_index|]. intros b Hb.
    apply post_lift. unfold store. destruct (N.ltb_spec (start + x) (len l)); [|done].
    apply ensures_Ok. split; [by rewrite length_insert|].
    intros j Hv. rewrite get_lookup in Hb.
    destruct (decide (j = N.to_nat (start + x))) as [->|Hne].
    + rewrite Hb. cbn. apply list_lookup_insert_eq. unfold len in *. lia.
    + rewrite list_lookup_insert_ne by done. apply Hj. destruct Hv as [?|Hv]; [by left|].
      apply elem_of_app in Hv as [?|Hv%list_elem_of_singleton]; [by right|].
      left. lia.
Qed.

(** ** Aggregates *)

(** The emission arenas are the operand arenas seen through their coordinates,
    and every operand denotes its texts. *)
Record arenas_ok (a : Arenas) : Prop := {
  named_aligned : a.(emission_named_nodes) = named_node_id <$> a.(named_operands);
  restrictions_aligned : a.(emission_restrictions) = coordinate <$> a.(restriction_operands);
  named_denote : Forall (fun operand =>
    named_class_iri columns operand.(named_node_id) maximum = Ok operand.(named_iri))
    a.(named_operands);
  restrictions_denote : Forall (fun operand =>
    restriction_denotes operand.(restriction_projected) operand.(coordinate))
    a.(restriction_operands);
}.

Lemma operand_step_ok aggregate_start a ignored item :
  arenas_ok a ->
  post (fun st => arenas_ok st.1 /\ st.1.(aggregate_roots) = a.(aggregate_roots))
    (operand_step columns maximum aggregate_start (a, ignored) item).
Proof using Type.
  intros Ha. unfold operand_step.
  eapply post_bind; [apply post_trivial|intros _ _].
  eapply post_bind; [apply post_trivial|intros operand_id _].
  eapply post_bind; [apply post_trivial|intros tag _].
  destruct (tag =? TAG_ENTITY).
  { eapply post_bind; [apply post_lift, ensures_self|]. intros iri Hiri.
    do 2 skip_step. apply post_ret. split; [|done]. destruct Ha as [Hn Hr Hnd Hrd].
    constructor; cbn; rewrite ?fmap_app, ?Hn; [done..| |done].
    apply Forall_app. split; [done|]. by apply Forall_singleton. }
  destruct (is_restriction_tag tag).
  { eapply post_bind; [apply post_lift, ensures_self|]. intros projection Hp.
    eapply post_bind; [apply post_lift, ensures_self|]. intros c Hc.
    eapply post_bind; [apply post_trivial|intros ignored' _].
    do 2 skip_step. apply post_ret. split; [|done]. destruct Ha as [Hn Hr Hnd Hrd].
    constructor; cbn; rewrite ?fmap_app, ?Hr; [done..|].
    apply Forall_app. split; [done|]. apply Forall_singleton. cbn.
    destruct projection; [|by inv_ok; constructor]. apply bind_Ok in Hc as (c'&Hc&[= <-]).
    constructor. by eapply restriction_planned. }
  destruct (_ || _); [|by apply post_lift].
  eapply post_bind; [apply post_trivial|intros ignored' _]. by apply post_ret.
Qed.

(** Nothing is planned, or the operands of the aggregate of the root. *)
Definition grown (root : usize) (a a' : Arenas) : Prop :=
  a'.(aggregate_roots) = a.(aggregate_roots) \/
  exists planned, a'.(aggregate_roots) = a.(aggregate_roots) ++ [planned] /\
    planned.(aggregate_root_index) = root.

Lemma charge_arenas root a a' w : arenas_ok a' /\ grown root a a' ->
  arenas_ok (a' <| charged := w |>) /\ grown root a (a' <| charged := w |>).
Proof using Type. intros [[Hn Hr Hnd Hrd] Hg]. by split. Qed.

Lemma plan_aggregate_ok root aggregate_id a :
  arenas_ok a ->
  post (fun st => arenas_ok st.1 /\ grown root a st.1)
    (plan_aggregate columns maximum root aggregate_id a).
Proof using Type.
  intros Ha. unfold plan_aggregate.
  eapply post_bind; [apply post_trivial|intros [start length_] _].
  eapply post_bind.
  { apply (post_foldM (fun st => arenas_ok st.1 /\ st.1.(aggregate_roots) = a.(aggregate_roots))).
    - done.
    - intros [a1 ignored] item _ [H1 H2]. cbn in H2. rewrite <- H2. by apply operand_step_ok. }
  intros [a1 ignored] [[Hn Hr Hnd Hrd] Hroots]. cbn in *.
  eapply post_bind; [apply sort_tail_permutes|intros sorted_named [Hpn Hn']].
  eapply post_bind.
  { apply (align_tail_aligns named_node_id); [by rewrite Hn, length_fmap, Hn'|].
    by rewrite Hn, Hpn, fmap_take. }
  intros nodes ->.
  eapply post_bind; [apply sort_tail_permutes|intros sorted_restrictions [Hpr Hr']].
  eapply post_bind.
  { apply (align_tail_aligns coordinate); [by rewrite Hr, length_fmap, Hr'|].
    by rewrite Hr, Hpr, fmap_take. }
  intros coordinates ->. skip_step. apply post_ret. split.
  - constructor; cbn; [done..| |]; [by rewrite Hn'|by rewrite Hr'].
  - right. eexists. cbn. by rewrite Hroots.
Qed.

(** ** Equivalent classes *)

Definition key_denotes (key : PlannedExpressionKey) : Prop :=
  forall iri, key.(key_named_iri) = Some iri ->
    named_class_iri columns key.(key_node_id) maximum = Ok iri.

Lemma expression_key_denotes node key :
  planned_expression_key columns maximum node = Ok key -> key_denotes key.
Proof using Type.
  unfold planned_expression_key. intros Hk iri Hi. follow_both; cbn in *; by simplify_eq.
Qed.

Lemma plan_equivalent_ok root node a :
  arenas_ok a ->
  post (fun st => arenas_ok st.2 /\ grown root a st.2 /\ denotes node st.1.1 st.1.2)
    (plan_equivalent_shape columns maximum root node a).
Proof using Type.
  intros Ha. unfold plan_equivalent_shape.
  eapply post_bind; [apply post_trivial|intros start _].
  eapply post_bind; [apply post_trivial|intros [item_start length_] _].
  set (both := fun best : option PlannedExpressionKey * option PlannedExpressionKey =>
    from_option key_denotes True best.1 /\ from_option key_denotes True best.2).
  eapply (post_bind both).
  { apply post_foldM; [done|]. intros [first second] item _ [Hf Hs]. cbn in Hf, Hs.
    unfold select_step. eapply post_bind; [apply post_trivial|intros _ _].
    eapply post_bind; [apply post_trivial|intros expression _].
    eapply post_bind; [apply post_lift, ensures_self|]. intros key Hk%expression_key_denotes.
    apply post_ret. destruct first as [first|]; [|by split].
    destruct (precedes key first); [by split|]. destruct second as [second|]; [|by split].
    by destruct (precedes key second). }
  intros best [Hf Hs]. eapply post_bind; [apply post_trivial|intros _ _].
  assert (G : grown root a a) by (by left).
  destruct best as [[first|] [second|]]; cbn in Hf, Hs; try by apply post_lift.
  destruct (key_named_iri first) as [source|] eqn:E1;
    [|apply post_ret; split_and!; [done..|apply denotes_equivalent_ignored]].
  destruct (key_named_iri second) as [destination|] eqn:E2.
  { apply post_ret. split_and!; [done..|]. apply denotes_pair; [by apply Hf|by apply Hs]. }
  eapply post_bind; [apply post_trivial|intros tag _].
  destruct (negb _); [apply post_ret; split_and!; [done..|apply denotes_equivalent_ignored]|].
  eapply post_bind; [by apply plan_aggregate_ok|]. intros [a' i] [Ha' Hg]. apply post_ret.
  split_and!; [done..|]. apply denotes_aggregate. by apply Hf.
Qed.

(** The plan of a root, by its rule. *)
Lemma plan_root_shape_ok rule root node a :
  field_count columns <= usize_max -> arenas_ok a ->
  post (fun st => arenas_ok st.2 /\ grown root a st.2 /\
      match st.1 with Some (shape, emission) => denotes node shape emission | None => True end)
    (plan_root_shape columns maximum rule root node a).
Proof using Type.
  intros Hc Ha. assert (G : grown root a a) by (by left). unfold plan_root_shape.
  destruct rule.(handler); try by apply post_ret.
  all: eapply post_bind; [first [by apply plan_equivalent_ok|apply post_lift, ensures_self]|].
  all: intros [shape emission] Hp; try (apply post_ret; split_and!; [done..|]).
  - by apply subclass_planned.
  - destruct Hp as (?&?&?). destruct shape. by apply post_ret.
  - by eapply object_property_class_planned.
  - by apply class_assertion_planned.
  - by apply object_property_assertion_planned.
Qed.

(** The shape of a root has the constructor of its rule's handler. *)
Definition fits (rule : RootRule) (shape : option PlannedRootShape.PlannedRootShape) : Prop :=
  match rule.(handler), shape with
  | RootRuleHandler.Subclass, Some (PlannedRootShape.Subclass _)
  | RootRuleHandler.EquivalentClasses, Some (PlannedRootShape.Equivalent _)
  | RootRuleHandler.ObjectPropertyClass, Some (PlannedRootShape.ObjectPropertyClass _)
  | RootRuleHandler.ClassAssertion, Some (PlannedRootShape.ClassAssertion _)
  | RootRuleHandler.ObjectPropertyAssertion, Some (PlannedRootShape.ObjectPropertyAssertion _ _ _) =>
      True
  | RootRuleHandler.Subclass, _ | RootRuleHandler.EquivalentClasses, _
  | RootRuleHandler.ObjectPropertyClass, _ | RootRuleHandler.ClassAssertion, _
  | RootRuleHandler.ObjectPropertyAssertion, _ => False
  | _, shape => shape = None
  end.

Lemma plan_equivalent_constructor root node a :
  post (fun st => exists projection, st.1.1 = PlannedRootShape.Equivalent projection)
    (plan_equivalent_shape columns maximum root node a).
Proof using Type.
  unfold plan_equivalent_shape. skip_post. all: by eexists.
Qed.

Lemma plan_root_shape_fits rule root node a :
  post (fun st => fits rule (fst <$> st.1)) (plan_root_shape columns maximum rule root node a).
Proof using Type.
  unfold plan_root_shape, fits. destruct rule.(handler); try by apply post_ret.
  all: eapply post_bind; [first [apply plan_equivalent_constructor|apply post_lift, ensures_self]|].
  all: intros [shape emission] Hp; try apply post_ret.
  - unfold plan_subclass in Hp. by inv_ok; simplify_eq/=.
  - destruct shape as [shape shape']. destruct Hp as [p Hp]. cbn in Hp. by subst shape.
  - unfold plan_object_property_class in Hp. by inv_ok; simplify_eq/=.
  - unfold plan_class_assertion in Hp. by inv_ok; simplify_eq/=.
  - unfold plan_object_property_assertion in Hp. by inv_ok; simplify_eq/=.
Qed.
End denotes.
