(* ===== verification/Populate.v ===== *)
(** * The populated plan

    [populate_selected_root_rule_plan] against a log of the selected roots: one
    entry per root, in root order, with its rule and what was planned for it.
    The plan's vectors, its rule indexes and its counters are functions of the
    log. *)

From stdpp Require Import sorting.
From S2P Require Import Prelude Lists Errors Partial Tags Text Readers Columns Nodes Properties Classes.
From S2P Require Import Sort Reach Stats Rules Table Planning Plans.
Local Open Scope string_scope.
Local Open Scope list_scope.
Local Open Scope N_scope.

(** ** Lookups by root *)

Definition keyed {A} (key : A -> usize) (l : list A) : Prop := StronglySorted N.lt (key <$> l).

Lemma keyed_bisected {A} (key : A -> usize) l i : keyed key l -> bisected (fun x => key x ?= i) l.
Proof.
  intros Hk j k a b Hjk Ha Hb Hai.
  assert (key a < key b).
  { eapply (StronglySorted_get N.lt _ j k); [exact Hk|exact Hjk|..];
      rewrite get_lookup, list_lookup_fmap, <- get_lookup; [by rewrite Ha|by rewrite Hb]. }
  rewrite N.compare_gt_iff. rewrite N.compare_lt_iff in Hai. lia.
Qed.

Lemma find_root_found {A} (key : A -> usize) l x :
  keyed key l -> x ∈ l -> find_root key l (key x) = Some x.
Proof.
  intros Hk [k Hx]%elem_of_get. unfold find_root.
  rewrite (binary_search_by_found _ l k x); [done|by apply keyed_bisected|done|apply N.compare_refl].
Qed.

Lemma find_root_absent {A} (key : A -> usize) l i : i ∉ key <$> l -> find_root key l i = None.
Proof.
  intros Hi. unfold find_root.
  destruct (binary_search_by_absent (fun x => key x ?= i) l) as [k ->]; [|done].
  intros x Hx E%N.compare_eq_iff. apply Hi. rewrite <- E. by apply list_elem_of_fmap_2.
Qed.

Lemma find_root_Some {A} (key : A -> usize) l i x :
  keyed key l -> find_root key l i = Some x -> x ∈ l /\ key x = i.
Proof.
  intros Hk. unfold find_root. pose proof (binary_search_by_spec _ l (keyed_bisected key l i Hk)) as H.
  destruct (binary_search_by _ l) as [k|]; [|done]. destruct H as (y&Hy&E%N.compare_eq_iff).
  rewrite Hy. intros [= <-]. split; [by eapply get_elem_of|done].
Qed.

Lemma keyed_inj {A} (key : A -> usize) l x y :
  keyed key l -> x ∈ l -> y ∈ l -> key x = key y -> x = y.
Proof.
  intros Hk Hx Hy E. pose proof (find_root_found key l x Hk Hx) as Fx.
  rewrite E, (find_root_found key l y Hk Hy) in Fx. congruence.
Qed.

(** A subsequence of a keyed list, by an optional projection. *)
Lemma omap_keyed {A B} (key : A -> usize) (key' : B -> usize) (f : A -> option B) l :
  (forall x y, f x = Some y -> key' y = key x) -> keyed key l -> keyed key' (omap f l).
Proof.
  intros Hf. unfold keyed. induction l as [|x l IH]; cbn; [done|].
  inversion 1 as [|? ? Hs Hx]; subst. destruct (f x) as [y|] eqn:E; [|by apply IH].
  cbn. constructor; [by apply IH|]. rewrite Forall_forall in Hx |- *.
  intros i (z&->&Hz)%list_elem_of_fmap. apply list_elem_of_omap in Hz as (w&Hw&Ez).
  rewrite (Hf _ _ E), (Hf _ _ Ez). apply Hx. by apply list_elem_of_fmap_2.
Qed.

(** A root's entry in the subsequence, if it has one. *)
Lemma find_entry {A B} (key : A -> usize) (key' : B -> usize) (f : A -> option B) l x :
  (forall x y, f x = Some y -> key' y = key x) -> keyed key l -> x ∈ l ->
  find_root key' (omap f l) (key x) = f x.
Proof.
  intros Hf Hk Hx. destruct (f x) as [y|] eqn:E.
  - rewrite <- (Hf _ _ E). apply find_root_found; [by eapply omap_keyed|].
    apply list_elem_of_omap. eauto.
  - apply find_root_absent. intros (y&Hy&(z&Hz&Ez)%list_elem_of_omap)%list_elem_of_fmap.
    rewrite (Hf _ _ Ez) in Hy. rewrite <- (keyed_inj key l x z Hk Hx Hz Hy) in Ez. congruence.
Qed.

(** ** The log *)

Record Logged := {
  logged_root : usize;
  logged_node : usize;
  logged_rule : RootRule;
  logged_plan : option planned_shapes;
}.

Definition shape_entry (r : Logged) : option PlannedShapeRoot :=
  planned ← r.(logged_plan);
  Some {| shape_root_index := r.(logged_root); root_shape := planned.1 |}.

Definition emission_entry (r : Logged) : option PlannedEmissionRoot :=
  planned ← r.(logged_plan);
  Some {| emission_root_index := r.(logged_root); emission_shape := planned.2 |}.

Definition is_handler (expected : RootRuleHandler.RootRuleHandler) (r : Logged) : bool :=
  bool_decide (r.(logged_rule).(handler) = expected).

Definition is_restriction (r : Logged) : bool :=
  match r.(logged_plan) with
  | Some (PlannedRootShape.Subclass (Restriction _ _ _), _) => true
  | _ => false
  end.
Definition is_ignored_subclass (r : Logged) : bool :=
  match r.(logged_plan) with
  | Some (PlannedRootShape.Subclass SubclassIgnored, _) => true
  | _ => false
  end.
Definition is_ignored_assertion (r : Logged) : bool :=
  match r.(logged_plan) with
  | Some (PlannedRootShape.ClassAssertion ClassAssertionIgnored, _) => true
  | _ => false
  end.

Definition tally (p : Logged -> bool) (log : list Logged) : N := len (List.filter p log).

Lemma tally_snoc p log r : tally p (log ++ [r]) = tally p log + (if p r then 1 else 0).
Proof.
  unfold tally. rewrite List.filter_app, len_app. cbn. destruct (p r); cbn; [|by rewrite len_nil].
  by rewrite len_cons, len_nil.
Qed.

(** The counters the edge count reads are tallies of the log. *)
Record counted (log : list Logged) (counts : Counts.RootCounts) : Prop := {
  counted_subclasses :
    counts.(Counts.subclasses) = tally (is_handler RootRuleHandler.Subclass) log;
  counted_restrictions : counts.(Counts.restriction_subclasses) = tally is_restriction log;
  counted_ignored : counts.(Counts.ignored_subclasses) = tally is_ignored_subclass log;
  counted_class_assertions :
    counts.(Counts.class_assertions) = tally (is_handler RootRuleHandler.ClassAssertion) log;
  counted_ignored_assertions :
    counts.(Counts.ignored_class_assertions) = tally is_ignored_assertion log;
  counted_object_assertions :
    counts.(Counts.object_property_assertions)
    = tally (is_handler RootRuleHandler.ObjectPropertyAssertion) log;
}.

Lemma counted_nil : counted [] Counts.zero.
Proof. done. Qed.

(** What the table says of the counters and effects of a rule. *)
Definition rule_consistent (rule : RootRule) : bool :=
  let counts (c : RootCounter.RootCounter) (h : RootRuleHandler.RootRuleHandler) :=
    Bool.eqb (bool_decide (RootStatsEffect.counter rule.(stats_effect) = c))
      (bool_decide (rule.(handler) = h)) in
  counts RootCounter.Subclasses RootRuleHandler.Subclass
  && counts RootCounter.ClassAssertions RootRuleHandler.ClassAssertion
  && counts RootCounter.ObjectPropertyAssertions RootRuleHandler.ObjectPropertyAssertion
  && Bool.eqb (negb (bool_decide (rule.(domain_range_effect) = RootDomainRangeEffect.None)))
       (bool_decide (rule.(handler) = RootRuleHandler.ObjectPropertyClass))
  && (negb (bool_decide (rule.(handler) = RootRuleHandler.ObjectPropertyAssertion)
            || bool_decide (rule.(handler) = RootRuleHandler.AnnotationAssertion))
      || (rule.(rule_root_kind) =? ROOT_AXIOM)).

Lemma rules_consistent rule : rule ∈ ROOT_RULES -> rule_consistent rule = true.
Proof.
  intros Hr. assert (H : forallb rule_consistent ROOT_RULES = true) by (by vm_compute).
  rewrite forallb_forall in H. apply H. by apply list_elem_of_In.
Qed.

Definition one (b : bool) : N := if b then 1 else 0.

Lemma increment_spec c counts counts' :
  increment c counts = Ok counts' ->
  counts'.(Counts.subclasses)
    = counts.(Counts.subclasses) + one (bool_decide (c = RootCounter.Subclasses)) /\
  counts'.(Counts.class_assertions)
    = counts.(Counts.class_assertions) + one (bool_decide (c = RootCounter.ClassAssertions)) /\
  counts'.(Counts.object_property_assertions)
    = counts.(Counts.object_property_assertions)
      + one (bool_decide (c = RootCounter.ObjectPropertyAssertions)) /\
  counts'.(Counts.restriction_subclasses) = counts.(Counts.restriction_subclasses) /\
  counts'.(Counts.ignored_subclasses) = counts.(Counts.ignored_subclasses) /\
  counts'.(Counts.ignored_class_assertions) = counts.(Counts.ignored_class_assertions).
Proof.
  destruct c; cbn [increment]; intros ->%bump_inv; cbn; rewrite ?N.add_0_r; split_and!; done.
Qed.

(** Takes a count update apart. *)
Ltac settle :=
  repeat (inv_ok; match goal with
  | H : bump _ _ _ = Ok _ |- _ => apply bump_inv in H
  | H : match ?x with _ => _ end = Ok _ |- _ => destruct x eqn:?
  end); inv_ok; simplify_eq/=; rewrite ?N.add_0_r.

Section classify.
Context `{LowercaseTable} (columns : DirectColumns) (maximum : usize).

Lemma classify_counted rule root node counts order planned effect shape counts' log :
  rule ∈ ROOT_RULES -> fits rule (fst <$> planned) ->
  classify columns maximum rule node counts order (fst <$> planned) = Ok (effect, shape, counts') ->
  counted log counts ->
  counted (log ++ [{| logged_root := root; logged_node := node; logged_rule := rule;
                      logged_plan := planned |}]) counts'.
Proof using Type.
  intros Hr%rules_consistent Hfit Hc [H1 H2 H3 H4 H5 H6]. unfold classify in Hc.
  apply bind_Ok in Hc as (c1&Hi&Hc). apply increment_spec in Hi as (I1&I2&I3&I4&I5&I6).
  apply bind_Ok in Hc as ([planned_effect c2]&Hm&Hc).
  assert (c2 = counts') as -> by (by destruct (negb _) in Hc; simplify_eq). clear Hc.
  unfold rule_consistent in Hr. rewrite !andb_true_iff in Hr. destruct Hr as [[[[C1 C2] C3] _] _].
  apply eqb_prop in C1, C2, C3.
  set (r := {| logged_root := root |}).
  assert (counts'.(Counts.subclasses) = c1.(Counts.subclasses) /\
    counts'.(Counts.class_assertions) = c1.(Counts.class_assertions) /\
    counts'.(Counts.object_property_assertions) = c1.(Counts.object_property_assertions) /\
    counts'.(Counts.restriction_subclasses) = c1.(Counts.restriction_subclasses) + one (is_restriction r) /\
    counts'.(Counts.ignored_subclasses) = c1.(Counts.ignored_subclasses) + one (is_ignored_subclass r) /\
    counts'.(Counts.ignored_class_assertions)
      = c1.(Counts.ignored_class_assertions) + one (is_ignored_assertion r))
    as (J1&J2&J3&J4&J5&J6).
  { clear -Hm Hfit. subst r. unfold fits in Hfit.
    unfold is_restriction, is_ignored_subclass, is_ignored_assertion. cbn [logged_plan].
    destruct planned as [[p e]|]; cbn [fmap option_fmap option_map fst] in *.
    - destruct (handler rule); try done; destruct p as [[]|?|?|[]|]; try done; by settle.
    - destruct (handler rule); try done; by settle. }
  split; rewrite tally_snoc.
  - rewrite J1, I1, H1, C1. done.
  - rewrite J4, I4, H2. done.
  - rewrite J5, I5, H3. done.
  - rewrite J2, I2, H4, C2. done.
  - rewrite J6, I6, H5. done.
  - rewrite J3, I3, H6, C3. done.
Qed.
End classify.

(** ** The invariant *)

Section populate.
Context `{LowercaseTable} (columns : DirectColumns) (maximum : usize).

Definition is_selected (i : usize) : Prop := root_is_selected columns i = Ok true.
#[export] Instance is_selected_dec i : Decision (is_selected i).
Proof. unfold is_selected. apply _. Defined.

Record logged_ok (rule_indexes : list u8) (r : Logged) : Prop := {
  logged_id : root_id columns r.(logged_root) = Ok r.(logged_node);
  logged_kind : root_kind columns r.(logged_root) = Ok r.(logged_rule).(rule_root_kind);
  logged_in : r.(logged_rule) ∈ ROOT_RULES;
  logged_index : resolved_root_rule_at rule_indexes r.(logged_root) = Ok r.(logged_rule);
  logged_fits : fits r.(logged_rule) (fst <$> r.(logged_plan));
  logged_denotes :
    match r.(logged_plan) with
    | Some (shape, emission) => denotes columns maximum r.(logged_node) shape emission
    | None => True
    end;
}.

(** The plan after the first [k] roots. *)
Record populated (k : usize) (plan : SelectedRootRulePlan) (log : list Logged) : Prop := {
  populated_len : len plan.(rule_indexes) = root_count columns;
  populated_total i : i < k -> exists b, root_is_selected columns i = Ok b;
  populated_roots : logged_root <$> log = filter is_selected (range 0 k);
  populated_logged : Forall (logged_ok plan.(rule_indexes)) log;
  populated_shapes : plan.(shape_roots) = omap shape_entry log;
  populated_emissions : plan.(emission_roots) = omap emission_entry log;
  populated_arenas : arenas_ok columns maximum plan.(arenas);
  populated_keyed : keyed aggregate_root_index plan.(arenas).(aggregate_roots);
  populated_bound :
    Forall (fun aggregate => aggregate.(aggregate_root_index) < k) plan.(arenas).(aggregate_roots);
  populated_counts : counted log plan.(counts);
}.

Lemma populated_empty rule_indexes workspace :
  len rule_indexes = root_count columns -> populated 0 (empty_plan rule_indexes workspace) [].
Proof using Type.
  intros Hl. constructor; cbn; try done.
  - intros i Hi. lia.
  - constructor.
Qed.

Lemma logged_before k log r plan :
  populated k plan log -> r ∈ log -> r.(logged_root) < k /\ is_selected r.(logged_root).
Proof using Type.
  intros Hp Hr. assert (Hin : r.(logged_root) ∈ logged_root <$> log) by (by apply list_elem_of_fmap_2).
  rewrite (populated_roots _ _ _ Hp) in Hin.
  apply list_elem_of_filter in Hin as [Hs ?%elem_of_range]. split; [lia|done].
Qed.

Lemma resolved_store rule_indexes k v l i rule :
  store rule_indexes k v = Ok l -> i <> k ->
  resolved_root_rule_at rule_indexes i = Ok rule -> resolved_root_rule_at l i = Ok rule.
Proof using Type.
  unfold store, resolved_root_rule_at. destruct (k <? len rule_indexes); [|done].
  intros [= <-] Hne. rewrite !get_lookup, list_lookup_insert_ne by lia. done.
Qed.

Lemma resolved_stored rule_indexes k i l rule :
  store rule_indexes k i = Ok l -> 1 <= i -> get ROOT_RULES (i - 1) = Some rule ->
  resolved_root_rule_at l k = Ok rule.
Proof using Type.
  unfold store, resolved_root_rule_at. destruct (N.ltb_spec k (len rule_indexes)); [|done].
  intros [= <-] Hi Hr. rewrite get_lookup, list_lookup_insert_eq by (unfold len in *; lia).
  cbn [ok_or mbind outcome_bind].
  rewrite (proj2 (checked_sub_Some i 1 (i - 1)) (conj eq_refl Hi)).
  cbn [ok_or mbind outcome_bind]. by rewrite Hr.
Qed.

(** An unselected root leaves the plan as it is. *)
Lemma populated_skip k plan log :
  root_is_selected columns k = Ok false -> populated k plan log -> populated (k + 1) plan log.
Proof using Type.
  intros Hs [H1 H2 H3 H4 H5 H6 H7 H8 H9 H10]. constructor; try done.
  - intros i Hi. destruct (decide (i = k)) as [->|]; [by exists false|]. apply H2. lia.
  - rewrite range_snoc, filter_app, H3, filter_cons, decide_False by (try lia; unfold is_selected; congruence).
    by rewrite filter_nil, app_nil_r.
  - eapply Forall_impl; [exact H9|]. cbn. lia.
Qed.

Lemma omap_snoc {A B} (f : A -> option B) l x : omap f (l ++ [x]) = omap f l ++ option_list (f x).
Proof using Type. rewrite omap_app. cbn. by destruct (f x). Qed.

Lemma push_entry {A B} (f : A -> B) l (o : option A) : push_some f l o = l ++ option_list (f <$> o).
Proof using Type. by destruct o; [|rewrite app_nil_r]. Qed.

Lemma grown_keyed k a a' :
  grown k a a' -> keyed aggregate_root_index a.(aggregate_roots) ->
  Forall (fun aggregate => aggregate.(aggregate_root_index) < k) a.(aggregate_roots) ->
  keyed aggregate_root_index a'.(aggregate_roots) /\
  Forall (fun aggregate => aggregate.(aggregate_root_index) < k + 1) a'.(aggregate_roots).
Proof using Type.
  intros Hg Hk Hb. assert (Hb' := Forall_impl _ (fun x => x.(aggregate_root_index) < k + 1) _ Hb
    ltac:(cbn; lia)).
  destruct Hg as [->|(planned&->&Hr)]; [done|]. split.
  - unfold keyed in *. rewrite fmap_app. apply StronglySorted_app_2; [|done|by repeat constructor].
    intros x y (z&->&Hz)%list_elem_of_fmap ->%list_elem_of_singleton. rewrite Hr.
    rewrite Forall_forall in Hb. by apply Hb.
  - apply Forall_app. split; [done|]. apply Forall_singleton. lia.
Qed.

Lemma logged_ok_store rule_indexes k v l r :
  store rule_indexes k v = Ok l -> r.(logged_root) < k ->
  logged_ok rule_indexes r -> logged_ok l r.
Proof using Type.
  intros Hs Hk [H1 H2 H3 H4 H5 H6]. constructor; try done.
  eapply resolved_store; [done|clear -Hk; lia|done].
Qed.

(** A selected root adds its entry. *)
Lemma populated_add k plan log node rule planned index_ stored a counts' role_roots_ selected_ :
  populated k plan log -> is_selected k ->
  root_id columns k = Ok node -> root_kind columns k = Ok rule.(rule_root_kind) ->
  1 <= index_ -> get ROOT_RULES (index_ - 1) = Some rule ->
  store plan.(rule_indexes) k index_ = Ok stored ->
  fits rule (fst <$> planned) ->
  match planned with
  | Some (shape, emission) => denotes columns maximum node shape emission
  | None => True
  end ->
  arenas_ok columns maximum a -> grown k plan.(arenas) a ->
  let r := {| logged_root := k; logged_node := node; logged_rule := rule; logged_plan := planned |} in
  counted (log ++ [r]) counts' ->
  populated (k + 1) {|
    rule_indexes := stored;
    shape_roots := push_some (fun shape =>
      {| shape_root_index := k; root_shape := shape |}) plan.(shape_roots) (fst <$> planned);
    emission_roots := push_some (fun shape =>
      {| emission_root_index := k; emission_shape := shape |}) plan.(emission_roots) (snd <$> planned);
    arenas := a; role_roots := role_roots_; counts := counts';
    selected_roots_planned := selected_ |} (log ++ [r]).
Proof using Type.
  intros Hp Hs Hid Hkind Hi Hrule Hst Hfit Hden Ha Hg r Hc.
  pose proof (fun r Hr => proj1 (logged_before _ _ r _ Hp Hr)) as Hbefore.
  destruct Hp as [H1 H2 H3 H4 H5 H6 H7 H8 H9 H10].
  destruct (grown_keyed _ _ _ Hg H8 H9) as [Hk' Hb'].
  constructor; cbn [rule_indexes shape_roots emission_roots arenas counts]; try done.
  - rewrite <- H1. unfold store in Hst. destruct (k <? _); [|done]. injection Hst as <-.
    unfold len. by rewrite length_insert.
  - intros i Hi'. destruct (decide (i = k)) as [->|]; [by exists true|]. apply H2. lia.
  - rewrite fmap_app, H3, range_snoc, filter_app, (filter_cons _ k), decide_True by (try lia; done).
    done.
  - apply Forall_app. split.
    + rewrite Forall_forall in H4 |- *. intros x Hx. eapply logged_ok_store; eauto.
    + apply Forall_singleton. constructor; cbn [r logged_root logged_node logged_rule logged_plan];
        try done; [by eapply get_elem_of|by eapply resolved_stored].
  - rewrite push_entry, H5, omap_snoc. by destruct planned.
  - rewrite push_entry, H6, omap_snoc. by destruct planned.
Qed.

Context (small : field_count columns <= usize_max).

Lemma populate_step_ok k plan log :
  populated k plan log ->
  post (fun plan' => exists log', populated (k + 1) plan' log') (populate_step columns maximum plan k).
Proof using All.
  intros Hp. unfold populate_step.
  eapply post_bind; [apply post_trivial|intros _ _].
  eapply post_bind; [apply post_lift, ensures_self|intros selected Hsel].
  destruct selected; cbn [negb]; [|apply post_ret; exists log; by apply populated_skip].
  eapply post_bind; [apply post_lift, ensures_self|intros node Hnode].
  eapply post_bind; [apply post_lift, ensures_self|intros kind Hkind].
  eapply post_bind; [apply post_lift, ensures_self|intros tag Htag].
  eapply post_bind; [apply post_lift, ensures_self|intros index_ Hindex].
  apply resolve_index_Ok in Hindex as (Hi&rule&Hrule&Hkey).
  eapply post_bind; [apply post_lift, ensures_self|intros rule' Hrule'].
  rewrite Hrule in Hrule'. apply ok_or_Ok in Hrule' as [= <-].
  eapply post_bind; [apply post_and; [apply plan_root_shape_ok; [done|apply Hp]|apply plan_root_shape_fits]|].
  intros [planned a] [(Ha&Hg&Hden) Hfit]. cbn [fst snd] in *.
  eapply post_bind; [apply post_lift, ensures_self|intros [[effect shape] counts'] Hclass].
  destruct (negb _); [by apply post_lift|]. do 2 skip_step.
  eapply post_bind; [apply post_trivial|intros workspace _].
  destruct (charge_arenas columns maximum k plan.(arenas) a workspace (conj Ha Hg)) as [Ha' Hg'].
  eapply post_bind; [apply post_lift, ensures_self|intros stored Hstored].
  eapply post_bind; [apply post_trivial|intros selected _]. apply post_ret.
  eexists. eapply (populated_add k plan log node rule planned index_); try done.
  - rewrite Hkind. f_equal. unfold rule_key in Hkey. congruence.
  - apply Hi.
  - eapply classify_counted; [by eapply get_elem_of|done|done|apply Hp].
Qed.

(** The whole pass. *)
Lemma populate_ok rule_indexes workspace :
  len rule_indexes = root_count columns ->
  post (fun plan => exists log, populated (root_count columns) plan log)
    (populate_selected_root_rule_plan columns maximum rule_indexes workspace).
Proof using All.
  intros Hl. unfold populate_selected_root_rule_plan.
  eapply (post_bind (fun plan => exists log, populated (root_count columns) plan log)).
  - eapply post_mono; [|apply (post_foldM_ind (fun visited plan =>
      exists log, populated (len visited) plan log))].
    + cbn beta. intros plan. replace (len (range 0 (len rule_indexes))) with (root_count columns); [done|].
      unfold len at 1. rewrite length_range. lia.
    + exists []. by apply populated_empty.
    + intros visited k rest plan Hk [log Hlog]. rewrite len_app. change (len [k]) with 1.
      assert (k = len visited) as ->.
      { apply range_from_split in Hk. lia. }
      by eapply populate_step_ok.
  - intros plan Hp. eapply post_bind; [apply post_trivial|intros expected _].
    destruct (negb _); [by apply post_lift|by apply post_ret].
Qed.
End populate.
