(* ===== verification/Provenance.v ===== *)
(** * Structural equality across tables

    [structurally_equal_node] and [select_root_annotation_nodes] of
    native/src/encoded_direct.rs: the annotation assertions of the root
    document are found again in the closure's table, whose node ids and arena
    offsets differ, by an iterative walk over pairs of nodes. *)

From S2P Require Import Prelude Errors Tags Readers Columns Rules Planning.
Local Open Scope string_scope.
Local Open Scope list_scope.
Local Open Scope N_scope.

Section equality.
Context (self other : DirectColumns).

Abbreviation pair := (usize * usize)%type.

(** The walk: the pairs still to compare (top first) and those compared. *)
Record Walk := {
  pending_pairs : list pair;
  visited : list pair;
}.

Definition queue_pair (w : Walk) (p : pair) : Walk :=
  if contains w.(visited) p || contains w.(pending_pairs) p then w
  else {| pending_pairs := p :: w.(pending_pairs); visited := w.(visited) |}.

(** [Return tt] is [return Ok(false)]. *)
Definition Compared : Type := control Walk unit.
Definition differ : outcome Compared := Ok (Return tt).

(** The leaf components, of a field or of a collection's item. *)
Definition compare_leaf (w : Walk) (kind : u8)
    (left_value right_value left_length right_length : usize) (invalid : string)
    : outcome Compared :=
  if kind =? COMPONENT_NONE then
    if negb (left_value =? 0) || negb (right_value =? 0) then differ else Ok (Continue w)
  else if kind =? COMPONENT_NODE then
    left ← checked_node_id self left_value;
    right ← checked_node_id other right_value;
    Ok (Continue (queue_pair w (left, right)))
  else if contains [COMPONENT_TEXT; COMPONENT_BYTES; COMPONENT_INTEGER; COMPONENT_ENUM] kind then
    left ← scalar_range self left_value left_length;
    right ← scalar_range other right_value right_length;
    if bool_decide (left = right) then Ok (Continue w) else differ
  else Err (malformed invalid).

Definition compare_item (left_value right_value : usize) (w : Walk) (item_offset : usize)
    : outcome Compared :=
  let out_of_range := malformed "encoded provenance collection item is out of range" in
  let left_item := left_value +w item_offset in
  let right_item := right_value +w item_offset in
  item_kind ← ok_or (get self.(item_kinds) left_item) out_of_range;
  other_kind ← ok_or (get other.(item_kinds) right_item) out_of_range;
  if negb (bool_decide (item_kind = other_kind)) then differ else
  left_item_value ← read_usize self.(item_values) left_item "item_values";
  right_item_value ← read_usize other.(item_values) right_item "item_values";
  left_item_length ← read_usize self.(item_lengths) left_item "item_lengths";
  right_item_length ← read_usize other.(item_lengths) right_item "item_lengths";
  if negb (left_item_length =? right_item_length) then differ else
  compare_leaf w (u8_of_byte item_kind) left_item_value right_item_value left_item_length
    right_item_length "encoded provenance collection item kind is invalid".

Definition compare_field (left_start right_start : usize) (w : Walk) (offset : usize)
    : outcome Compared :=
  let left_field := left_start +w offset in
  let right_field := right_start +w offset in
  kind ← field_kind self left_field;
  other_kind ← field_kind other right_field;
  if negb (kind =? other_kind) then differ else
  left_value ← field_value self left_field;
  right_value ← field_value other right_field;
  left_length ← field_length self left_field;
  right_length ← field_length other right_field;
  if negb (left_length =? right_length) then differ else
  if contains [COMPONENT_SET; COMPONENT_SEQUENCE] kind then
    fold_until (compare_item left_value right_value) w (range 0 left_length)
  else compare_leaf w kind left_value right_value left_length right_length
         "encoded provenance component kind is invalid".

Definition compare_nodes (w : Walk) (left right : usize) : outcome Compared :=
  left_tag ← node_tag self left;
  right_tag ← node_tag other right;
  if negb (left_tag =? right_tag) then differ else
  '(left_start, left_end) ← field_range self left;
  '(right_start, right_end) ← field_range other right;
  if negb (left_end - left_start =? right_end - right_start) then differ else
  fold_until (compare_field left_start right_start) w (range 0 (left_end - left_start)).

(** [while let Some((left, right)) = pending.pop()]. *)
Fixpoint walk (fuel : nat) (w : Walk) : Cx bool :=
  match w.(pending_pairs) with
  | [] => mret true
  | (l, r) :: rest =>
      match fuel with
      | O => !OutOfFuel
      | S fuel =>
          _ ← check_cancel (len w.(visited));
          if contains w.(visited) (l, r) then
            walk fuel {| pending_pairs := rest; visited := w.(visited) |}
          else
            compared ← !compare_nodes
              {| pending_pairs := rest; visited := w.(visited) ++ [(l, r)] |} l r;
            match compared with
            | Return _ => mret false
            | Continue w => walk fuel w
            end
      end
  end.

(** A pair is queued once, so there are at most as many rounds as pairs. *)
Definition walk_fuel : nat := S (N.to_nat (node_count self) * N.to_nat (node_count other)).

Definition structurally_equal_node (left_node right_node : usize) : Cx bool :=
  walk walk_fuel {| pending_pairs := [(left_node, right_node)]; visited := [] |}.
End equality.

(** ** The annotations of the root document *)

Section provenance.
Context (self : DirectColumns) (closure_rule_indexes : list u8).
Context (root_columns : DirectColumns) (root_rule_indexes : list u8).

(** The next selected annotation assertion of the closure that is structurally
    the root document's; the second result is [closure_index] after it. *)
Fixpoint find_closure_node (fuel : nat) (root_node closure_index : usize)
    : Cx (option usize * usize) :=
  if negb (closure_index <? root_count self) then mret (None, closure_index) else
  match fuel with
  | O => !OutOfFuel
  | S fuel =>
      let next := closure_index +w 1 in
      selected ← !root_is_selected self closure_index;
      if negb selected then find_closure_node fuel root_node next else
      candidate ← !root_id self closure_index;
      rule ← !resolved_root_rule_at closure_rule_indexes closure_index;
      if negb (bool_decide (rule.(handler) = RootRuleHandler.AnnotationAssertion)) then
        find_closure_node fuel root_node next
      else
        equal ← structurally_equal_node self root_columns candidate root_node;
        if equal : bool then mret (Some candidate, next)
        else find_closure_node fuel root_node next
  end.

Definition select_annotation_step (st : list usize * usize) (root_index : usize)
    : Cx (list usize * usize) :=
  let '(selected, closure_index) := st in
  _ ← check_cancel root_index;
  is_selected ← !root_is_selected root_columns root_index;
  if negb is_selected then mret (selected, closure_index) else
  root_rule ← !resolved_root_rule_at root_rule_indexes root_index;
  root_node ← !root_id root_columns root_index;
  if negb (bool_decide (root_rule.(handler) = RootRuleHandler.AnnotationAssertion)) then
    mret (selected, closure_index)
  else
    '(matched, closure_index) ←
      find_closure_node (N.to_nat (root_count self - closure_index)) root_node closure_index;
    candidate ← !ok_or matched
      (malformed "encoded root annotation assertion is absent from the closure selection");
    mret (selected ++ [candidate], closure_index).

Definition select_root_annotation_nodes : Cx (list usize) :=
  '(selected, _) ← foldM select_annotation_step ([], 0) (range 0 (root_count root_columns));
  mret selected.
End provenance.
