(* ===== verification/Roles.v ===== *)
(** * Role state

    [OwnedRoleState], [RoleState] and [build_role_state_from_rows] of
    native/src/encoded_direct.rs: the sub-role lists and inverses a projection
    expands relations with, kept as association lists in first-insertion
    order.  [Cow] is erased: an owned and a borrowed state are the same data. *)

From Stdlib Require Import Sorting.Sorted.
From stdpp Require Import sorting.
From S2P Require Import Prelude Errors Lists Tags Text Properties Sort.
Local Open Scope string_scope.
Local Open Scope list_scope.
Local Open Scope N_scope.

Record RoleState := {
  subroles : list (text * list text);
  inverses : list (text * text);
}.

#[export] Instance RoleState_eta : Eta RoleState := fun s =>
  {| subroles := s.(subroles); inverses := s.(inverses) |}.

Definition RoleState_default : RoleState := {| subroles := []; inverses := [] |}.

(** [iter().find_map(|(key, v)| (key == property).then_some(v))]. *)
Fixpoint find_key {V} (l : list (text * V)) (property : text) : option V :=
  match l with
  | [] => None
  | (key, v) :: l => if bool_decide (key = property) then Some v else find_key l property
  end.

(** [iter_mut().find(..)] and overwrite, else push at the end. *)
Fixpoint set_key {V} (l : list (text * V)) (property : text) (v : V) : list (text * V) :=
  match l with
  | [] => [(property, v)]
  | (key, current) :: l =>
      if bool_decide (key = property) then (key, v) :: l
      else (key, current) :: set_key l property v
  end.

Definition subrole_count (self : RoleState) : usize := len self.(subroles).
Definition inverse_count (self : RoleState) : usize := len self.(inverses).

Definition subroles_for (self : RoleState) (property : text) : list text :=
  default [] (find_key self.(subroles) property).

Definition inverse_for (self : RoleState) (property : text) : option text :=
  find_key self.(inverses) property.

Definition edge_count (self : RoleState) (property : text) : outcome usize :=
  ok_or (count ← checked_add 1 (len (subroles_for self property));
         checked_add count (if inverse_for self property then 1 else 0))
    (resource "encoded role-expansion edge-count overflow").

Definition set_subroles (self : RoleState) (property : text) (values : list text) : RoleState :=
  self <| subroles := set_key self.(subroles) property values |>.
Definition set_inverse (self : RoleState) (property inverse : text) : RoleState :=
  self <| inverses := set_key self.(inverses) property inverse |>.

(** The historical defect is kept: the new list of the super-property is the
    sub-property and the sub-property's own list; the super-property's
    previous list is dropped. *)
Definition apply (self : RoleState) (axiom : RoleAxiom) : outcome RoleState :=
  if axiom.(role_tag) =? TAG_SUB_OBJECT_PROPERTY_OF then
    let previous := subroles_for self axiom.(role_first) in
    _ ← ok_or (checked_add (len previous) 1) (resource "encoded subrole list overflow");
    Ok (set_subroles self axiom.(role_second) (axiom.(role_first) :: previous))
  else if axiom.(role_tag) =? TAG_INVERSE_OBJECT_PROPERTIES then
    let self := set_inverse self axiom.(role_first) axiom.(role_second) in
    Ok (set_inverse self axiom.(role_second) axiom.(role_first))
  else Err (malformed "encoded role-state row has the wrong constructor tag").

(** [for x in l { values.push(f(x)?) }]. *)
Definition collect {A B} (f : A -> outcome B) (l : list A) : outcome (list B) :=
  foldM (fun values x => value ← f x; Ok (values ++ [value])) [] l.

Definition clone_pair {V W} (f : text -> outcome text) (g : V -> outcome W) (p : text * V)
    : outcome (text * W) :=
  value ← g p.2;
  property ← f p.1;
  Ok (property, value).

Definition snapshot (self : RoleState) : outcome (list (text * list text) * list (text * text)) :=
  subroles ← collect (clone_pair clone_text (collect clone_text)) self.(subroles);
  inverses ← collect (fun p =>
    property ← clone_text p.1; inverse ← clone_text p.2; Ok (property, inverse)) self.(inverses);
  Ok (subroles, inverses).

Definition try_clone (self : RoleState) : outcome RoleState :=
  '(subroles, inverses) ← snapshot self;
  Ok {| subroles := subroles; inverses := inverses |}.

(** [RoleState::to_owned]. *)
Definition to_owned (self : RoleState) : outcome RoleState :=
  subroles ← collect (clone_pair clone_text (collect clone_text)) self.(subroles);
  inverses ← collect (fun p =>
    property ← clone_text p.1; inverse ← clone_text p.2; Ok (property, inverse)) self.(inverses);
  Ok {| subroles := subroles; inverses := inverses |}.

Definition with_capacity (retained : option RoleState)
    (subrole_axioms inverse_axioms maximum_iri : usize) : outcome RoleState :=
  inverse_capacity ← ok_or (checked_mul inverse_axioms 2)
    (resource "encoded inverse-role capacity overflow");
  let retained_subroles := match retained with Some r => len r.(subroles) | None => 0 end in
  let retained_inverses := match retained with Some r => len r.(inverses) | None => 0 end in
  _ ← ok_or (checked_add retained_subroles subrole_axioms)
        (resource "encoded subrole capacity overflow");
  _ ← ok_or (checked_add retained_inverses inverse_capacity)
        (resource "encoded inverse-role capacity overflow");
  match retained with
  | None => Ok RoleState_default
  | Some retained =>
      let clone iri := clone_retained_role_iri iri maximum_iri in
      subroles ← collect (clone_pair clone (collect clone)) retained.(subroles);
      inverses ← collect (fun p =>
        property ← clone p.1; inverse ← clone p.2; Ok (property, inverse)) retained.(inverses);
      Ok {| subroles := subroles; inverses := inverses |}
  end.

(** ** The OWLAPI hash-table order *)

(** [while role_axiom_count > capacity / 4 * 3 { capacity *= 2 }]: the
    capacity doubles, so 64 rounds reach the overflow of a 64-bit [usize]. *)
Fixpoint table_capacity (fuel : nat) (role_axiom_count capacity : usize) : outcome usize :=
  if negb (capacity / 4 * 3 <? role_axiom_count) then Ok capacity else
  match fuel with
  | O => OutOfFuel
  | S fuel =>
      capacity ← ok_or (checked_mul capacity 2)
        (resource "encoded role-table capacity overflow");
      table_capacity fuel role_axiom_count capacity
  end.

(** The key [(bucket, spread, canonical_order, source_order)]. *)
Definition role_key (capacity : usize) (row : RoleAxiom) : list N :=
  [ N.land row.(spread) (capacity - 1); row.(spread); row.(canonical_order); row.(source_order) ].

Definition role_cmp (capacity : usize) (left right : RoleAxiom) : comparison :=
  slice_cmp N.compare (role_key capacity left) (role_key capacity right).

(** [for (index, row) in rows.into_iter().enumerate()]. *)
Definition apply_indexed (st : RoleState * usize) (row : RoleAxiom) : Cx (RoleState * usize) :=
  let '(role_state, index) := st in
  _ ← check_cancel index;
  role_state ← !apply role_state row;
  mret (role_state, index + 1).

Definition build_role_state_from_rows (rows : list RoleAxiom)
    (role_axiom_count subrole_axioms inverse_axioms : usize) (retained : option RoleState)
    (maximum_iri : usize) : Cx RoleState :=
  capacity ← !table_capacity 64 role_axiom_count 16;
  rows ← cancellable_sort_unstable_by (role_cmp capacity) rows;
  role_state ← !with_capacity retained subrole_axioms inverse_axioms maximum_iri;
  '(role_state, _) ← foldM apply_indexed (role_state, 0) rows;
  mret role_state.

(** ** Lookups *)

Lemma find_set_key {V} (l : list (text * V)) p q v :
  find_key (set_key l p v) q = if bool_decide (p = q) then Some v else find_key l q.
Proof.
  induction l as [|[k w] l IH]; cbn; [done|].
  destruct (bool_decide_reflect (k = p)) as [->|E]; cbn.
  - by destruct (bool_decide (p = q)).
  - rewrite IH. destruct (bool_decide_reflect (k = q)) as [->|]; [|done].
    by rewrite bool_decide_eq_false_2 by congruence.
Qed.

Lemma set_key_keys {V} (l : list (text * V)) p v :
  (set_key l p v).*1 = if bool_decide (p ∈ l.*1) then l.*1 else l.*1 ++ [p].
Proof.
  induction l as [|[k w] l IH]; cbn; [done|].
  destruct (bool_decide_reflect (k = p)) as [->|E]; cbn.
  - by rewrite bool_decide_eq_true_2 by by left.
  - rewrite IH. rewrite (bool_decide_ext (p ∈ k :: l.*1) (p ∈ l.*1)); [by destruct (bool_decide _)|].
    rewrite elem_of_cons. naive_solver.
Qed.

Lemma set_key_NoDup {V} (l : list (text * V)) p v : NoDup l.*1 -> NoDup (set_key l p v).*1.
Proof.
  intros H. rewrite set_key_keys. case_bool_decide as E; [done|].
  apply NoDup_app. split; [done|]. split; [|apply NoDup_singleton].
  by intros x Hx ->%list_elem_of_singleton.
Qed.

Lemma subroles_set_subroles s p v q :
  subroles_for (set_subroles s p v) q = if bool_decide (p = q) then v else subroles_for s q.
Proof. unfold subroles_for, set_subroles. cbn. rewrite find_set_key. by case_bool_decide. Qed.

Lemma inverse_set_inverse s p v q :
  inverse_for (set_inverse s p v) q = if bool_decide (p = q) then Some v else inverse_for s q.
Proof. unfold inverse_for, set_inverse. cbn. apply find_set_key. Qed.

(** ** The specification: two finite functions *)

Record RoleSpec := {
  spec_subroles : text -> list text;
  spec_inverse : text -> option text;
}.

Definition update {V} (f : text -> V) (p : text) (v : V) : text -> V :=
  fun q => if bool_decide (p = q) then v else f q.

(** [subRoles(super) = sub :: subRoles.getOrElse(sub, Nil)] and
    [inverse(p) = q, inverse(q) = p], the historical rules. *)
Definition spec_apply (s : RoleSpec) (axiom : RoleAxiom) : RoleSpec :=
  if axiom.(role_tag) =? TAG_SUB_OBJECT_PROPERTY_OF then
    {| spec_subroles := update s.(spec_subroles) axiom.(role_second)
                          (axiom.(role_first) :: s.(spec_subroles) axiom.(role_first));
       spec_inverse := s.(spec_inverse) |}
  else
    {| spec_subroles := s.(spec_subroles);
       spec_inverse := update (update s.(spec_inverse) axiom.(role_first) (Some axiom.(role_second)))
                         axiom.(role_second) (Some axiom.(role_first)) |}.

(** The state stands for the two functions, each key held once. *)
Record refines (s : RoleState) (spec : RoleSpec) : Prop := {
  refines_subroles p : subroles_for s p = spec.(spec_subroles) p;
  refines_inverse p : inverse_for s p = spec.(spec_inverse) p;
  refines_keys : NoDup s.(subroles).*1 /\ NoDup s.(inverses).*1;
}.

Definition role_row (axiom : RoleAxiom) : Prop :=
  axiom.(role_tag) = TAG_SUB_OBJECT_PROPERTY_OF \/ axiom.(role_tag) = TAG_INVERSE_OBJECT_PROPERTIES.

(** Every list of the state is short enough to grow. *)
Definition lists_fit (s : RoleState) (extra : N) : Prop :=
  forall p, len (subroles_for s p) + extra <= usize_max.

Lemma apply_refines s spec axiom :
  refines s spec -> role_row axiom -> lists_fit s 1 ->
  exists s', apply s axiom = Ok s' /\ refines s' (spec_apply spec axiom) /\
    forall n, lists_fit s (n + 1) -> lists_fit s' n.
Proof.
  intros [Hs Hi [Hk1 Hk2]] Hrow Hfit. unfold apply, spec_apply.
  destruct Hrow as [-> | ->].
  - rewrite N.eqb_refl. pose proof (Hfit (role_first axiom)) as Hf.
    rewrite (proj2 (checked_add_Some (len (subroles_for s (role_first axiom))) 1 _) (conj eq_refl Hf)).
    cbn [ok_or mbind outcome_bind]. eexists. split; [done|]. split; [split|].
    + intros p. rewrite subroles_set_subroles. unfold update. cbn. by rewrite <- !Hs.
    + intros p. cbn. by rewrite <- Hi.
    + split; [by apply set_key_NoDup|done].
    + intros n Hn p. rewrite subroles_set_subroles. case_bool_decide; [|specialize (Hn p); lia].
      rewrite len_cons. specialize (Hn (role_first axiom)). lia.
  - change (TAG_INVERSE_OBJECT_PROPERTIES =? TAG_SUB_OBJECT_PROPERTY_OF) with false.
    rewrite N.eqb_refl. cbn iota zeta. eexists. split; [done|]. split; [split|].
    + intros p. apply Hs.
    + intros p. rewrite !inverse_set_inverse. unfold update. cbn. by rewrite <- Hi.
    + split; [done|]. by do 2 apply set_key_NoDup.
    + intros n Hn p. specialize (Hn p). unfold subroles_for in *. cbn. lia.
Qed.

(** Applying the rows in order is folding the historical rules. *)
Lemma apply_all_refines rows s spec :
  refines s spec -> Forall role_row rows -> lists_fit s (len rows) ->
  exists s', foldM apply s rows = Ok s' /\ refines s' (fold_left spec_apply rows spec).
Proof.
  revert s spec. induction rows as [|row rows IH]; intros s spec Href Hrows Hfit; cbn [foldM fold_left].
  { by exists s. }
  apply Forall_cons_iff in Hrows as [Hrow Hrows].
  destruct (apply_refines s spec row Href Hrow) as (s1&->&Href1&Hfit1).
  { intros p. specialize (Hfit p). rewrite len_cons in Hfit. lia. }
  cbn [mbind outcome_bind]. apply IH; [done|done|]. apply Hfit1.
  intros p. specialize (Hfit p). rewrite len_cons in Hfit. lia.
Qed.

(** ** Copies *)

Lemma collect_Ok {A B} (f : A -> outcome B) (g : A -> B) l :
  (forall x, x ∈ l -> f x = Ok (g x)) -> collect f l = Ok (g <$> l).
Proof.
  intros H. unfold collect.
  enough (G : forall acc, foldM (fun values x => value ← f x; Ok (values ++ [value])) acc l
              = Ok (acc ++ (g <$> l))) by apply (G []).
  induction l as [|x l IH]; intros acc; cbn [foldM]; [by rewrite app_nil_r|].
  rewrite (H x (list_elem_of_here _ _)). cbn [mbind outcome_bind].
  rewrite IH by (intros y Hy; apply H; by right). by rewrite <- app_assoc.
Qed.

Lemma collect_id {A} (f : A -> outcome A) l : (forall x, x ∈ l -> f x = Ok x) -> collect f l = Ok l.
Proof. intros H. rewrite (collect_Ok f id) by done. by rewrite list_fmap_id. Qed.

Lemma clone_texts_id l : collect clone_text l = Ok l.
Proof. by apply collect_id. Qed.

Lemma clone_subroles_id l : collect (clone_pair clone_text (collect clone_text)) l = Ok l.
Proof.
  apply collect_id. intros [p v] _. unfold clone_pair. cbn [snd fst].
  by rewrite clone_texts_id.
Qed.

Lemma snapshot_id s : snapshot s = Ok (s.(subroles), s.(inverses)).
Proof.
  unfold snapshot. rewrite clone_subroles_id. cbn [mbind outcome_bind].
  by rewrite collect_id by by intros [? ?].
Qed.

Lemma to_owned_id s : to_owned s = Ok s.
Proof.
  unfold to_owned. rewrite clone_subroles_id. cbn [mbind outcome_bind].
  rewrite collect_id by by intros [? ?]. by destruct s.
Qed.

(** Every IRI a retained state holds is within the limit. *)
Definition iris_within (s : RoleState) (maximum : usize) : Prop :=
  (forall p l, (p, l) ∈ s.(subroles) -> len p <= maximum /\ forall q, q ∈ l -> len q <= maximum) /\
  (forall p q, (p, q) ∈ s.(inverses) -> len p <= maximum /\ len q <= maximum).

Lemma clone_within iri maximum : len iri <= maximum -> clone_retained_role_iri iri maximum = Ok iri.
Proof.
  intros H. unfold clone_retained_role_iri. by destruct (N.ltb_spec maximum (len iri)); [lia|].
Qed.

(** What the retained state and the rows to come may take. *)
Definition capacity_fits (retained : option RoleState) (subrole_axioms inverse_axioms maximum : usize) : Prop :=
  2 * inverse_axioms <= usize_max /\
  match retained with
  | None => subrole_axioms <= usize_max
  | Some r => len r.(subroles) + subrole_axioms <= usize_max /\
              len r.(inverses) + 2 * inverse_axioms <= usize_max /\ iris_within r maximum
  end.

Lemma with_capacity_Ok retained a b maximum :
  capacity_fits retained a b maximum ->
  with_capacity retained a b maximum = Ok (default RoleState_default retained).
Proof.
  intros [Hb Hr]. unfold with_capacity.
  rewrite (proj2 (checked_mul_Some b 2 (2 * b)) ltac:(lia)). cbn [ok_or mbind outcome_bind].
  destruct retained as [r|]; cbn [default].
  - destruct Hr as (H1&H2&Hw1&Hw2).
    rewrite (proj2 (checked_add_Some (len r.(subroles)) a _) (conj eq_refl H1)).
    cbn [ok_or mbind outcome_bind].
    rewrite (proj2 (checked_add_Some (len r.(inverses)) (2 * b) _) (conj eq_refl H2)).
    cbn [ok_or mbind outcome_bind]. cbn zeta.
    rewrite (collect_id _ r.(subroles)).
    2: { intros [p l] Hp. destruct (Hw1 p l Hp) as [Hp1 Hl]. unfold clone_pair. cbn [fst snd].
         rewrite collect_id by (intros q Hq; apply clone_within; auto).
         cbn [mbind outcome_bind]. by rewrite clone_within. }
    cbn [mbind outcome_bind]. rewrite (collect_id _ r.(inverses)); [by destruct r|].
    intros [p q] Hp. destruct (Hw2 p q Hp). cbn [fst snd]. by rewrite !clone_within.
  - cbn in Hr. rewrite (proj2 (checked_add_Some 0 a a) ltac:(lia)). cbn [ok_or mbind outcome_bind].
    by rewrite (proj2 (checked_add_Some 0 (2 * b) (2 * b)) ltac:(lia)).
Qed.

(** ** The capacity loop *)

(** The least table of [16 * 2 ^ k] buckets that is at most three quarters full. *)
Definition table_size (count capacity : usize) : Prop :=
  exists k : nat, capacity = 16 * 2 ^ N.of_nat k /\ 4 * count <= 3 * capacity /\
    (k = O \/ 3 * (capacity / 2) < 4 * count).

Lemma table_threshold k : 16 * 2 ^ N.of_nat k / 4 * 3 = 12 * 2 ^ N.of_nat k.
Proof.
  replace (16 * 2 ^ N.of_nat k) with (4 * 2 ^ N.of_nat k * 4) by lia. rewrite N.div_mul by done. lia.
Qed.

Lemma table_double k : 16 * 2 ^ N.of_nat (S k) = 16 * 2 ^ N.of_nat k * 2.
Proof. rewrite Nat2N.inj_succ, N.pow_succ_r'. lia. Qed.

Lemma table_capacity_spec fuel j steps count :
  count <= 12 * 2 ^ N.of_nat (j + steps) -> 16 * 2 ^ N.of_nat (j + steps) <= usize_max ->
  (steps <= fuel)%nat -> (j = O \/ 3 * (16 * 2 ^ N.of_nat j / 2) < 4 * count) ->
  exists capacity, table_capacity fuel count (16 * 2 ^ N.of_nat j) = Ok capacity /\ table_size count capacity.
Proof.
  revert j fuel. induction steps as [|steps IH]; intros j fuel Hc Hm Hf Hj.
  - rewrite Nat.add_0_r in *. exists (16 * 2 ^ N.of_nat j). split; [|exists j; split_and!; [done|lia|done]].
    destruct fuel; cbn [table_capacity]; rewrite table_threshold;
      by destruct (N.ltb_spec (12 * 2 ^ N.of_nat j) count); [lia|].
  - destruct fuel as [|fuel]; [lia|]. cbn [table_capacity]. rewrite table_threshold.
    destruct (N.ltb_spec (12 * 2 ^ N.of_nat j) count) as [Hlt|Hge]; cbn [negb].
    2: { exists (16 * 2 ^ N.of_nat j). split; [done|]. exists j. split_and!; [done|lia|done]. }
    assert (Hle : 16 * 2 ^ N.of_nat (S j) <= 16 * 2 ^ N.of_nat (j + S steps))
      by (apply N.mul_le_mono_l, N.pow_le_mono_r; lia).
    rewrite (proj2 (checked_mul_Some (16 * 2 ^ N.of_nat j) 2 (16 * 2 ^ N.of_nat (S j))))
      by (rewrite table_double in *; lia).
    cbn [ok_or mbind outcome_bind].
    apply IH; [by rewrite Nat.add_succ_comm|by rewrite Nat.add_succ_comm|lia|].
    right. rewrite table_double, N.div_mul by done. lia.
Qed.

(** The bound under which the capacity does not overflow. *)
Definition role_count_bound : N := 12 * 2 ^ 59.

Lemma table_capacity_total count : count <= role_count_bound ->
  exists capacity, table_capacity 64 count 16 = Ok capacity /\ table_size count capacity.
Proof.
  intros H. apply (table_capacity_spec 64 0 59 count); [exact H|vm_compute; discriminate|lia|by left].
Qed.

(** ** The traversal of the hash table *)

(** The order within a bucket: the hash, then the canonical order, then the
    position of the row. *)
Definition chain_order (x y : RoleAxiom) : Prop :=
  x.(spread) < y.(spread) \/ x.(spread) = y.(spread) /\
    (x.(canonical_order) < y.(canonical_order) \/ x.(canonical_order) = y.(canonical_order) /\
      x.(source_order) <= y.(source_order)).

(** The buckets one after the other, each with the rows whose hash falls into it. *)
Definition hash_traversal (capacity : usize) (rows ordered : list RoleAxiom) : Prop :=
  exists chains, ordered = concat chains /\ len chains = capacity /\
    forall (b : nat) chain, chains !! b = Some chain ->
      chain ≡ₚ filter (fun row => row.(spread) mod capacity = N.of_nat b) rows /\
      StronglySorted chain_order chain.

Lemma bucket_mod count capacity hash :
  table_size count capacity -> N.land hash (capacity - 1) = hash mod capacity /\ hash mod capacity < capacity.
Proof.
  intros (k&->&_&_). assert (H : 16 * 2 ^ N.of_nat k = 2 ^ (4 + N.of_nat k)) by (by rewrite N.pow_add_r).
  rewrite H. split; [|apply N.mod_lt, N.pow_nonzero; lia].
  rewrite <- N.land_ones. f_equal. rewrite N.ones_equiv. lia.
Qed.

Lemma role_cmp_le capacity x y : le (role_cmp capacity) x y ->
  N.land x.(spread) (capacity - 1) < N.land y.(spread) (capacity - 1) \/
  N.land x.(spread) (capacity - 1) = N.land y.(spread) (capacity - 1) /\ chain_order x y.
Proof.
  unfold le, role_cmp, role_key, chain_order. cbn [slice_cmp].
  destruct (N.compare_spec (N.land x.(spread) (capacity - 1)) (N.land y.(spread) (capacity - 1))); [|by left|done].
  intros Hle. right. split; [done|]. revert Hle.
  destruct (N.compare_spec x.(spread) y.(spread)); [|by left|done]. intros Hle. right. split; [done|]. revert Hle.
  destruct (N.compare_spec x.(canonical_order) y.(canonical_order)); [|by left|done].
  intros Hle. right. split; [done|]. revert Hle.
  destruct (N.compare_spec x.(source_order) y.(source_order)); [lia|lia|done].
Qed.

Lemma sorted_hash_traversal count capacity rows ordered :
  table_size count capacity -> ordered ≡ₚ rows -> StronglySorted (le (role_cmp capacity)) ordered ->
  hash_traversal capacity rows ordered.
Proof.
  intros Hsize Hperm Hsorted. set (key row := N.to_nat (row.(spread) mod capacity)).
  pose proof (fun hash => bucket_mod count capacity hash Hsize) as Hb.
  exists ((fun b => filter (fun row => key row = b) ordered) <$> seq 0 (N.to_nat capacity)). split_and!.
  - symmetry. apply sorted_concat_filters.
    + eapply StronglySorted_mono; [|exact Hsorted]. intros x y Hxy%role_cmp_le.
      rewrite !(proj1 (Hb _)) in Hxy. unfold key. lia.
    + apply Forall_forall. intros. lia.
    + apply Forall_forall. intros row _. unfold key. pose proof (proj2 (Hb row.(spread))). lia.
  - unfold len. rewrite length_fmap, length_seq. lia.
  - intros b chain Hchain. apply list_lookup_fmap_Some in Hchain as (b'&->&[-> Hlt]%lookup_seq). cbn [Nat.add].
    split.
    + rewrite <- Hperm. erewrite list_filter_iff; [reflexivity|]. intros row. unfold key. cbn. lia.
    + eapply StronglySorted_filter_in; [exact Hsorted|]. intros x y Hx Hy Hxy%role_cmp_le.
      rewrite !(proj1 (Hb _)) in Hxy. unfold key in *. destruct Hxy as [Hxy|[_ Hxy]]; [lia|done].
Qed.

(** ** The whole construction *)

#[export] Instance role_cmp_preorder capacity : CmpPreorder (role_cmp capacity).
Proof.
  split.
  - intros x y. unfold role_cmp. apply (cmp_opp (slice_cmp N.compare)).
  - intros x y z. unfold role_cmp.
    apply (cmp_le_trans (slice_cmp N.compare) (role_key capacity x) (role_key capacity y)).
Qed.

Lemma run_apply_indexed rows s i :
  run (foldM apply_indexed (s, i) rows) = (s' ← foldM apply s rows; Ok (s', i + len rows)).
Proof.
  assert (Ht : forall st row, Transparent (apply_indexed st row))
    by (intros [? ?] ?; unfold apply_indexed; solve_transparent).
  rewrite run_foldM by done. revert s i. induction rows as [|row rows IH]; intros s i; cbn [foldM].
  { cbn. by rewrite len_nil, N.add_0_r. }
  assert (Hstep : run (apply_indexed (s, i) row) = (s' ← apply s row; Ok (s', i + 1)))
    by (unfold apply_indexed; by run_steps).
  rewrite Hstep. destruct (apply s row) as [s1|e| |]; cbn [mbind outcome_bind]; [|done..].
  rewrite IH, len_cons.
  by replace (i + 1 + len rows) with (i + (1 + len rows)) by lia.
Qed.

Lemma run_build_role_state rows count a b retained maximum :
  run (build_role_state_from_rows rows count a b retained maximum) =
  (capacity ← table_capacity 64 count 16;
   rows ← run (cancellable_sort_unstable_by (role_cmp capacity) rows);
   role_state ← with_capacity retained a b maximum;
   foldM apply role_state rows).
Proof.
  assert (Ht : forall st row, Transparent (apply_indexed st row))
    by (intros [? ?] ?; unfold apply_indexed; solve_transparent).
  assert (Hloop : forall (s : RoleState) rows, Transparent (
    '(role_state, _) ← foldM apply_indexed (s, 0) rows; mret role_state)).
  { intros s rows'. apply transparent_bind; [apply _|]. intros [? ?]. apply _. }
  unfold build_role_state_from_rows.
  rewrite run_bind; [rewrite run_lift; apply bind_ext; intros capacity _|apply _|].
  2: { intros capacity. apply transparent_bind; [apply cancellable_sort_transparent|]. intros rows'.
       apply transparent_bind; [apply _|]. intros s. apply (Hloop s rows'). }
  rewrite run_bind; [apply bind_ext; intros rows' _|apply cancellable_sort_transparent|].
  2: { intros rows'. apply transparent_bind; [apply _|]. intros s. apply (Hloop s rows'). }
  rewrite run_bind; [rewrite run_lift; apply bind_ext; intros s _|apply _|intros s; apply (Hloop s rows')].
  change (run ('(role_state, _) ← foldM apply_indexed (s, 0) rows'; mret role_state) = foldM apply s rows').
  rewrite run_bind; [|apply _|intros [? ?]; apply _]. rewrite run_apply_indexed, bind_assoc.
  by destruct (foldM apply s rows').
Qed.

(** C21: [build_role_state_from_rows] applies the rows in the order in which a hash
    table of OWLAPI is traversed, of the least capacity [16 * 2 ^ k] that is at most
    three quarters full: the buckets one after the other, in each the rows whose
    hash modulo the capacity is the bucket, by hash, canonical order and position.
    Its result stands for the fold of the historical rules over that order,
    starting from the two functions of the retained state. *)
Theorem build_role_state_correct rows count a b retained maximum spec :
  slice_len rows -> 4 * len rows * len rows < usize_max -> count <= role_count_bound ->
  Forall role_row rows -> capacity_fits retained a b maximum ->
  refines (default RoleState_default retained) spec ->
  lists_fit (default RoleState_default retained) (len rows) ->
  exists capacity ordered s,
    table_capacity 64 count 16 = Ok capacity /\ table_size count capacity /\
    ordered ≡ₚ rows /\ hash_traversal capacity rows ordered /\
    run (build_role_state_from_rows rows count a b retained maximum) = Ok s /\
    refines s (fold_left spec_apply ordered spec).
Proof.
  intros Hl Hw Hc Hrows Hcap Href Hfit.
  destruct (table_capacity_total count Hc) as (capacity&Hk&Hsize).
  destruct (sort_correct (role_cmp capacity) rows Hl Hw) as (ordered&Hsort&Hsorted&Hperm).
  destruct (apply_all_refines ordered (default RoleState_default retained) spec) as (s&Hs&Hrs);
    [done|by rewrite Hperm|unfold len; by rewrite Hperm|].
  exists capacity, ordered, s. split_and!; [done..|by eapply sorted_hash_traversal| |done].
  rewrite run_build_role_state, Hk. cbn [mbind outcome_bind].
  rewrite Hsort. cbn [mbind outcome_bind]. by rewrite (with_capacity_Ok _ _ _ _ Hcap).
Qed.

(** The order the rows were collected in does not matter: rows with
    distinct (canonical, source) positions produce the same role state, or the
    same error, in every collection order. *)
Theorem build_role_state_permutation rows rows' count a b retained maximum :
  slice_len rows -> 4 * len rows * len rows < usize_max ->
  rows ≡ₚ rows' ->
  NoDup ((fun row => (row.(canonical_order), row.(source_order))) <$> rows) ->
  run (build_role_state_from_rows rows count a b retained maximum) =
  run (build_role_state_from_rows rows' count a b retained maximum).
Proof.
  intros Hl Hw Hperm Hnd. rewrite !run_build_role_state. apply bind_ext. intros capacity _.
  assert (Hlen : len rows' = len rows) by (unfold len; by rewrite Hperm).
  destruct (sort_correct (role_cmp capacity) rows Hl Hw) as (o1&->&Hs1&Hp1).
  destruct (sort_correct (role_cmp capacity) rows') as (o2&->&Hs2&Hp2).
  { unfold slice_len. by rewrite Hlen. }
  { by rewrite Hlen. }
  cbn [mbind outcome_bind]. replace o2 with o1; [done|].
  eapply (StronglySorted_unique_strong (le (role_cmp capacity))); [|done|done|by rewrite Hp1, Hp2, Hperm].
  intros x y Hx Hy Hxy Hyx. unfold le in *.
  pose proof (pre_opp (cmp:=role_cmp capacity) x y) as Hop.
  assert (Heq : role_cmp capacity x y = Eq) by (destruct (role_cmp capacity x y); cbn in *; congruence).
  unfold role_cmp in Heq. apply (cmp_eq (slice_cmp N.compare)) in Heq. unfold role_key in Heq.
  injection Heq as _ _ Hc Hso. rewrite Hp1 in Hx.
  assert (Hy' : y ∈ rows) by (rewrite Hperm, <- Hp2; done).
  apply list_elem_of_lookup in Hx as [i Hi]. apply list_elem_of_lookup in Hy' as [j Hj].
  assert (i = j) as ->; [|congruence].
  eapply (NoDup_lookup _ i j (x.(canonical_order), x.(source_order)) Hnd);
    rewrite list_lookup_fmap; [by rewrite Hi|rewrite Hj; cbn; by rewrite Hc, Hso].
Qed.

(** ** Closed instances *)

(** [p ⊑ q], [q ⊑ r] and [p ≡ s⁻], with colliding buckets. *)
Definition demo_rows : list RoleAxiom :=
  [ {| role_tag := TAG_SUB_OBJECT_PROPERTY_OF; role_first := str "q"; role_second := str "r";
       canonical_order := 2; source_order := 0; spread := 19 |};
    {| role_tag := TAG_SUB_OBJECT_PROPERTY_OF; role_first := str "p"; role_second := str "q";
       canonical_order := 1; source_order := 0; spread := 3 |};
    {| role_tag := TAG_INVERSE_OBJECT_PROPERTIES; role_first := str "p"; role_second := str "s";
       canonical_order := 3; source_order := 0; spread := 1 |} ].

(** Rows on a retained state. The bucket of [q ⊑ r] is the first, although its hash
    is the largest, so [r] takes the retained list of [q] before [x ⊑ q] drops it. *)
Definition retained_state : RoleState :=
  {| subroles := [(str "q", [str "p"])]; inverses := [(str "m", str "n")] |}.

Definition retained_rows : list RoleAxiom :=
  [ {| role_tag := TAG_SUB_OBJECT_PROPERTY_OF; role_first := str "x"; role_second := str "q";
       canonical_order := 1; source_order := 0; spread := 3 |};
    {| role_tag := TAG_SUB_OBJECT_PROPERTY_OF; role_first := str "q"; role_second := str "r";
       canonical_order := 2; source_order := 1; spread := 16 |};
    {| role_tag := TAG_INVERSE_OBJECT_PROPERTIES; role_first := str "p"; role_second := str "s";
       canonical_order := 3; source_order := 2; spread := 1 |} ].

(** The two functions of a state. *)
Definition spec_of (s : RoleState) : RoleSpec :=
  {| spec_subroles := subroles_for s; spec_inverse := inverse_for s |}.

Lemma build_role_state_correct_witness :
  run (build_role_state_from_rows retained_rows 3 2 1 (Some retained_state) 100) =
    Ok {| subroles := [(str "q", [str "x"]); (str "r", [str "q"; str "p"])];
          inverses := [(str "m", str "n"); (str "p", str "s"); (str "s", str "p")] |} /\
  exists capacity ordered s,
    table_capacity 64 3 16 = Ok capacity /\ table_size 3 capacity /\
    ordered ≡ₚ retained_rows /\ hash_traversal capacity retained_rows ordered /\
    run (build_role_state_from_rows retained_rows 3 2 1 (Some retained_state) 100) = Ok s /\
    refines s (fold_left spec_apply ordered (spec_of retained_state)).
Proof.
  split; [by vm_compute|].
  apply (build_role_state_correct retained_rows 3 2 1 (Some retained_state) 100 (spec_of retained_state)).
  - by vm_compute.
  - by vm_compute.
  - by vm_compute.
  - repeat (apply Forall_cons; split; [first [by left|by right]|]). by apply Forall_nil.
  - split; [by vm_compute|]. split; [by vm_compute|]. split; [by vm_compute|]. split.
    + intros p l [= -> ->]%list_elem_of_singleton. split; [by vm_compute|].
      intros q ->%list_elem_of_singleton. by vm_compute.
    + intros p q [= -> ->]%list_elem_of_singleton. by vm_compute.
  - split; [done|done|]. split; apply NoDup_singleton.
  - intros p. unfold subroles_for. cbn [default id retained_state subroles find_key].
    case_bool_decide; by vm_compute.
Defined.

Lemma build_role_state_permutation_witness :
  run (build_role_state_from_rows demo_rows 3 2 1 None 100) =
  run (build_role_state_from_rows (rev demo_rows) 3 2 1 None 100).
Proof.
  apply build_role_state_permutation; try (by vm_compute).
  - apply Permutation_rev.
  - cbn. apply (bool_decide_unpack _). by vm_compute.
Defined.
