(* ===== verification/Emission.v ===== *)
(** * Edge expansion

    The units of emission of native/src/encoded_direct.rs: a pending taxonomy or
    role expansion, which yields its edges one at a time, and the edges of
    annotations and planned individuals. *)

From S2P Require Import Prelude Errors Tags Text Columns Nodes Properties Graphs Anonymous Roles.
Local Open Scope string_scope.
Local Open Scope list_scope.
Local Open Scope N_scope.

Record DirectEdge := {
  edge_source : text;
  edge_relation : text;
  edge_destination : text;
}.

Inductive PendingExpansion :=
  | Taxonomy (source destination : text) (next_direction : usize) (bidirectional : bool)
  | Role (source relation destination : text) (next_relation : usize).

Definition clone_edge (source relation destination : text) : outcome DirectEdge :=
  source ← clone_text source;
  relation ← clone_text relation;
  destination ← clone_text destination;
  Ok {| edge_source := source; edge_relation := relation; edge_destination := destination |}.

Definition try_clone_pending (self : PendingExpansion) : outcome PendingExpansion :=
  match self with
  | Taxonomy source destination next_direction bidirectional =>
      source ← clone_text source;
      destination ← clone_text destination;
      Ok (Taxonomy source destination next_direction bidirectional)
  | Role source relation destination next_relation =>
      source ← clone_text source;
      relation ← clone_text relation;
      destination ← clone_text destination;
      Ok (Role source relation destination next_relation)
  end.

Definition some_edge (edge : outcome DirectEdge) : outcome (option DirectEdge) :=
  edge ← edge; Ok (Some edge).

(** [PendingExpansion::next_edge]; the mutated expansion is returned. *)
Definition next_edge (self : PendingExpansion) (role_state : RoleState)
    : outcome (option DirectEdge * PendingExpansion) :=
  match self with
  | Taxonomy source destination next_direction bidirectional =>
      edge ← (if next_direction =? 0 then some_edge (clone_edge source SUBCLASS_OF destination)
              else if (next_direction =? 1) && bidirectional then
                some_edge (clone_edge destination SUPERCLASS_OF source)
              else Ok None);
      next_direction ← ok_or (checked_add next_direction 1)
        (resource "encoded taxonomy emission cursor overflow");
      Ok (edge, Taxonomy source destination next_direction bidirectional)
  | Role source relation destination next_relation =>
      let subroles := subroles_for role_state relation in
      edge ← (if next_relation =? 0 then some_edge (clone_edge source relation destination)
              else if next_relation <=? len subroles then
                subrole ← index subroles (next_relation - 1);
                some_edge (clone_edge source subrole destination)
              else if next_relation =? len subroles +w 1 then
                match inverse_for role_state relation with
                | Some inverse => some_edge (clone_edge destination inverse source)
                | None => Ok None
                end
              else Ok None);
      next_relation ← ok_or (checked_add next_relation 1)
        (resource "encoded role emission cursor overflow");
      Ok (edge, Role source relation destination next_relation)
  end.

(** [set_taxonomy] and [set_role]: the fresh expansions. *)
Definition set_taxonomy (source destination : text) (bidirectional : bool)
    : outcome PendingExpansion :=
  source ← clone_text source;
  destination ← clone_text destination;
  Ok (Taxonomy source destination 0 bidirectional).

Definition set_role (source relation destination : text) : outcome PendingExpansion :=
  source ← clone_text source;
  relation ← clone_text relation;
  destination ← clone_text destination;
  Ok (Role source relation destination 0).

(** [publish]: the edge is returned and counted. *)
Definition publish (emitted : usize) : outcome usize :=
  ok_or (checked_add emitted 1) (resource "encoded emitted-edge counter overflow").

(** [annotation_edge] and [render_planned_individual]. *)
Definition annotation_edge (projection : AnnotationProjection) (anonymous_ids : AnonymousIds)
    : outcome DirectEdge :=
  destination ← match projection.(annotation_projected) with
    | Borrowed value => clone_text value
    | AnonymousValue node_id => render anonymous_ids node_id
    | Typed lexical datatype => render_typed_annotation_literal lexical datatype
    end;
  clone_edge projection.(annotation_source) projection.(annotation_relation) destination.

Definition render_planned_individual (self : DirectColumns)
    (coordinate : PlannedIndividualCoordinate) (anonymous_ids : AnonymousIds) (maximum : usize)
    : outcome text :=
  match coordinate with
  | NamedCoordinate node_id => iri ← named_individual_iri self node_id maximum; clone_text iri
  | AnonymousCoordinate node_id => render anonymous_ids node_id
  end.

(** ** Specification: the edges of an expansion *)

Definition edge (source relation destination : text) : DirectEdge :=
  {| edge_source := source; edge_relation := relation; edge_destination := destination |}.

Definition taxonomy_edges (source destination : text) (bidirectional : bool) : list DirectEdge :=
  edge source SUBCLASS_OF destination ::
  (if bidirectional then [edge destination SUPERCLASS_OF source] else []).

(** The relation itself, its sub-relations in order, and its inverse with the
    ends exchanged. *)
Definition role_edges (role_state : RoleState) (source relation destination : text)
    : list DirectEdge :=
  edge source relation destination ::
  ((fun subrole => edge source subrole destination) <$> subroles_for role_state relation) ++
  match inverse_for role_state relation with
  | Some inverse => [edge destination inverse source]
  | None => []
  end.

(** The list of a role has room for the cursor. *)
Definition role_fits (role_state : RoleState) (relation : text) : Prop :=
  len (subroles_for role_state relation) + 2 <= usize_max.

Lemma get_cons {A} (x : A) l k : get (x :: l) k = if k =? 0 then Some x else get l (k - 1).
Proof.
  rewrite !get_lookup. destruct (N.eqb_spec k 0) as [->|]; [done|].
  replace (N.to_nat k) with (S (N.to_nat (k - 1))) by lia. done.
Qed.

Lemma get_nil {A} k : get (@nil A) k = None.
Proof. by rewrite get_lookup, lookup_nil. Qed.

Lemma get_app {A} (l m : list A) k : get (l ++ m) k = if k <? len l then get l k else get m (k - len l).
Proof.
  rewrite !get_lookup. unfold len. destruct (N.ltb_spec k (N.of_nat (length l))).
  - by rewrite lookup_app_l by lia.
  - rewrite lookup_app_r by lia. f_equal. lia.
Qed.

Lemma next_edge_taxonomy rs source destination k b : k + 1 <= usize_max ->
  next_edge (Taxonomy source destination k b) rs =
  Ok (get (taxonomy_edges source destination b) k, Taxonomy source destination (k + 1) b).
Proof.
  intros Hk. unfold next_edge, taxonomy_edges.
  rewrite (proj2 (checked_add_Some k 1 _) (conj eq_refl Hk)), get_cons.
  destruct (N.eqb_spec k 0) as [->|]; [done|].
  destruct b; rewrite ?andb_true_r, ?andb_false_r; [|by rewrite get_nil].
  rewrite get_cons, get_nil. destruct (N.eqb_spec k 1) as [->|]; [done|].
  by destruct (N.eqb_spec (k - 1) 0); [lia|].
Qed.

Lemma next_edge_role rs source relation destination k :
  k + 1 <= usize_max -> role_fits rs relation ->
  next_edge (Role source relation destination k) rs =
  Ok (get (role_edges rs source relation destination) k, Role source relation destination (k + 1)).
Proof.
  intros Hk Hfit. unfold role_fits in Hfit. unfold next_edge, role_edges. cbn zeta.
  rewrite (proj2 (checked_add_Some k 1 _) (conj eq_refl Hk)), get_cons.
  destruct (N.eqb_spec k 0) as [->|Hk0]; [done|].
  set (subs := subroles_for rs relation) in *. rewrite get_app.
  assert (Hlen : len ((fun subrole => edge source subrole destination) <$> subs) = len subs)
    by (unfold len; by rewrite length_fmap).
  rewrite Hlen, wrapping_add_small by lia.
  destruct (N.leb_spec k (len subs)).
  - destruct (N.ltb_spec (k - 1) (len subs)); [|lia].
    destruct (get_lt_Some subs (k - 1)) as [sub Hsub]; [lia|].
    rewrite (proj2 (index_Ok _ _ _) Hsub). rewrite get_lookup, list_lookup_fmap, <- get_lookup, Hsub. done.
  - destruct (N.ltb_spec (k - 1) (len subs)); [lia|].
    destruct (N.eqb_spec k (len subs + 1)) as [->|].
    + replace (len subs + 1 - 1 - len subs) with 0 by lia. by destruct (inverse_for rs relation).
    + destruct (inverse_for rs relation); [|by rewrite get_nil].
      rewrite get_cons, get_nil. by destruct (N.eqb_spec (k - 1 - len subs) 0); [lia|].
Qed.

Lemma len_role_edges rs source relation destination :
  len (role_edges rs source relation destination) =
  1 + len (subroles_for rs relation) + (if inverse_for rs relation then 1 else 0).
Proof.
  unfold role_edges. rewrite len_cons, len_app. unfold len at 1. rewrite length_fmap.
  change (N.of_nat (length (subroles_for rs relation))) with (len (subroles_for rs relation)).
  destruct (inverse_for rs relation); rewrite ?len_cons, ?len_nil; lia.
Qed.

Lemma len_taxonomy_edges source destination b :
  len (taxonomy_edges source destination b) = if b then 2 else 1.
Proof. by destruct b. Qed.

Lemma edge_count_role_edges rs source relation destination :
  role_fits rs relation ->
  edge_count rs relation = Ok (len (role_edges rs source relation destination)).
Proof.
  unfold role_fits. intros Hfit. rewrite len_role_edges. unfold edge_count.
  set (n := len (subroles_for rs relation)) in *.
  rewrite (proj2 (checked_add_Some 1 n (1 + n)) ltac:(lia)). cbn [mbind option_bind].
  set (i := if inverse_for rs relation then 1 else 0) in *.
  assert (i <= 1) by (unfold i; destruct (inverse_for rs relation); lia).
  by rewrite (proj2 (checked_add_Some (1 + n) i (1 + n + i)) ltac:(lia)).
Qed.

Lemma edge_count_Ok rs source relation destination n :
  edge_count rs relation = Ok n -> n = len (role_edges rs source relation destination).
Proof.
  unfold edge_count. rewrite len_role_edges, ok_or_Ok.
  destruct (checked_add 1 _) as [k|] eqn:E; cbn [mbind option_bind]; [|done].
  apply checked_add_Some in E as [-> _]. intros [-> _]%checked_add_Some. done.
Qed.
