(* ===== verification/Overlay.v ===== *)
(** * Local overlay deltas

    The roots a local overlay inserts into the base ontology's emission, as
    [OwnedOverlayDeltaProjection] of native/src/encoded_direct.rs keeps them:
    owned projections with their place in the scan, the edges each adds and the
    statistics it changes. *)

From S2P Require Import Prelude Errors Tags Text Stats Rules Roles Sort Emission.
Local Open Scope string_scope.
Local Open Scope list_scope.
Local Open Scope N_scope.

Module ObjectPropertyClassRuleKind.
Inductive ObjectPropertyClassRuleKind := Domain | Range.
#[global] Instance t_eq_dec : EqDecision ObjectPropertyClassRuleKind.
Proof. solve_decision. Defined.

Definition from_effect (effect : RootDomainRangeEffect.RootDomainRangeEffect)
    : option ObjectPropertyClassRuleKind :=
  match effect with
  | RootDomainRangeEffect.Domain => Some Domain
  | RootDomainRangeEffect.Range => Some Range
  | RootDomainRangeEffect.None => None
  end.
End ObjectPropertyClassRuleKind.

Record OwnedEquivalentRestriction := {
  owned_relation : text;
  owned_destination : text;
}.

Module OwnedOverlayDeltaProjection.
Inductive OwnedOverlayDeltaProjection :=
  | Taxonomy (source destination : text)
  | Restriction (source relation destination : text)
  | EquivalentPair (source destination : text)
  | EquivalentAggregate (source : text) (named_destinations : list text)
      (restrictions : list OwnedEquivalentRestriction) (ignored_shapes : usize)
  | IgnoredEquivalent
  | ClassAssertion (individual class : text)
  | IgnoredClassAssertion (anonymous_individuals : usize)
  | IgnoredSubclass (anonymous_individuals : usize)
  | IgnoredObjectPropertyClass (kind : ObjectPropertyClassRuleKind.ObjectPropertyClassRuleKind)
      (anonymous_individuals : usize)
  | ObjectPropertyAssertion (source relation destination : text) (anonymous_individuals : usize)
  | IgnoredNegativeObjectPropertyAssertion (anonymous_individuals : usize)
  | IgnoredDataPropertyAssertion (anonymous_individuals : usize) (negative : bool)
  | IgnoredIndividualSet (anonymous_individuals : usize) (different : bool)
  | IgnoredAnnotationAssertion (anonymous_individuals : usize)
  | SilentRoot (rule : RootRule)
  | SilentDeclaration
  | SilentOntologyAnnotation
  | SilentSwrl.
End OwnedOverlayDeltaProjection.

Record OwnedOverlayDelta := {
  projection : OwnedOverlayDeltaProjection.OwnedOverlayDeltaProjection;
  insertion_scan_index : usize;
  local_canonical_index : usize;
}.

Definition delta_phase (self : OwnedOverlayDeltaProjection.OwnedOverlayDeltaProjection)
    : EmissionPhase.EmissionPhase :=
  match self with
  | OwnedOverlayDeltaProjection.Taxonomy _ _
  | OwnedOverlayDeltaProjection.Restriction _ _ _
  | OwnedOverlayDeltaProjection.IgnoredSubclass _ => EmissionPhase.Subclasses
  | OwnedOverlayDeltaProjection.EquivalentPair _ _
  | OwnedOverlayDeltaProjection.EquivalentAggregate _ _ _ _
  | OwnedOverlayDeltaProjection.IgnoredEquivalent => EmissionPhase.Equivalents
  | OwnedOverlayDeltaProjection.ClassAssertion _ _
  | OwnedOverlayDeltaProjection.IgnoredClassAssertion _ => EmissionPhase.ClassAssertions
  | OwnedOverlayDeltaProjection.SilentRoot rule => rule.(phase)
  | _ => EmissionPhase.ObjectAssertions
  end.

(** [derive(Ord)] of [EmissionPhase]: the order of the variants. *)
Definition phase_index (p : EmissionPhase.EmissionPhase) : N :=
  match p with
  | EmissionPhase.Subclasses => 0
  | EmissionPhase.Equivalents => 1
  | EmissionPhase.Annotations => 2
  | EmissionPhase.ClassAssertions => 3
  | EmissionPhase.ObjectAssertions => 4
  | EmissionPhase.DomainRanges => 5
  | EmissionPhase.Finished => 6
  end.

Definition overlay_delta_cmp (left right : OwnedOverlayDelta) : comparison :=
  then_with (phase_index (delta_phase left.(projection)) ?=
             phase_index (delta_phase right.(projection)))
    (then_with (left.(insertion_scan_index) ?= right.(insertion_scan_index))
       (left.(local_canonical_index) ?= right.(local_canonical_index))).

Definition canonicalize_overlay_delta_plan (plan : list OwnedOverlayDelta)
    : Cx (list OwnedOverlayDelta) := cancellable_sort_unstable_by overlay_delta_cmp plan.

Definition directions (options : DirectCompileOptions) : usize :=
  1 +w (if options.(bidirectional) then 1 else 0).

(** One restriction of an owned aggregate; the state is the two counts and the
    restriction's index. *)
Definition restriction_counts (role_state : RoleState) (st : usize * usize * usize)
    (restriction : OwnedEquivalentRestriction) : Cx (usize * usize * usize) :=
  let '(edges, role_expansion_edges, restriction_index) := st in
  _ ← check_cancel restriction_index;
  expanded ← !edge_count role_state restriction.(owned_relation);
  edges ← !ok_or (checked_add edges expanded) (resource "encoded edge-count overflow");
  extra ← !ok_or (checked_sub expanded 1)
    (malformed "encoded equivalent restriction edge count is inconsistent");
  role_expansion_edges ← !ok_or (checked_add role_expansion_edges extra)
    (resource "encoded role-expansion edge-count overflow");
  mret (edges, role_expansion_edges, restriction_index + 1).

(** The edges a delta adds, and those of them that role expansion added. *)
Definition edge_counts (self : OwnedOverlayDeltaProjection.OwnedOverlayDeltaProjection)
    (role_state : RoleState) (options : DirectCompileOptions) : Cx (usize * usize) :=
  let overflow := resource "encoded edge-count overflow" in
  let asserted := options.(asserted_taxonomy_only) in
  let one_direction :=
    edges ← ok_or (checked_add 1 (if options.(bidirectional) then 1 else 0)) overflow;
    Ok (edges, 0) in
  match self with
  | OwnedOverlayDeltaProjection.Taxonomy _ _ => !one_direction
  | OwnedOverlayDeltaProjection.Restriction _ relation _ =>
      if negb asserted && negb options.(only_taxonomy) then
        edges ← !edge_count role_state relation;
        extra ← !ok_or (checked_sub edges 1)
          (malformed "encoded local restriction edge count is inconsistent");
        mret (edges, extra)
      else mret (0, 0)
  | OwnedOverlayDeltaProjection.EquivalentPair _ _ =>
      if negb asserted then !one_direction else mret (0, 0)
  | OwnedOverlayDeltaProjection.EquivalentAggregate _ named_destinations restrictions _ =>
      if negb asserted then
        edges ← !ok_or (checked_mul (len named_destinations) (directions options)) overflow;
        if negb options.(only_taxonomy) then
          '(edges, role_expansion_edges, _) ←
            foldM (restriction_counts role_state) (edges, 0, 0) restrictions;
          mret (edges, role_expansion_edges)
        else mret (edges, 0)
      else mret (0, 0)
  | OwnedOverlayDeltaProjection.ClassAssertion _ _
  | OwnedOverlayDeltaProjection.ObjectPropertyAssertion _ _ _ _ =>
      if negb asserted then mret (1, 0) else mret (0, 0)
  | _ => mret (0, 0)
  end.

(** [*counter = counter.checked_add(amount).ok_or_else(..)?]. *)
Definition add_to {R} (counter amount : usize) (message : string) (set : usize -> R) : outcome R :=
  value ← ok_or (checked_add counter amount) (resource message);
  Ok (set value).

(** [OwnedOverlayDeltaProjection::apply_statistics]. *)
Definition apply_delta_statistics (self : OwnedOverlayDeltaProjection.OwnedOverlayDeltaProjection)
    (statistics : Stats.DirectCompileStats) (options : DirectCompileOptions)
    : outcome Stats.DirectCompileStats :=
  let asserted := options.(asserted_taxonomy_only) in
  match self with
  | OwnedOverlayDeltaProjection.Taxonomy _ _ =>
    bump statistics.(Stats.subclasses) "encoded subclass-count overflow"
      (fun value => statistics <| Stats.subclasses := value |>)
  | OwnedOverlayDeltaProjection.Restriction _ _ _ =>
    statistics ← bump statistics.(Stats.subclasses) "encoded subclass-count overflow"
      (fun value => statistics <| Stats.subclasses := value |>);
    bump statistics.(Stats.restriction_subclasses) "encoded restriction-subclass count overflow"
      (fun value => statistics <| Stats.restriction_subclasses := value |>)
  | OwnedOverlayDeltaProjection.EquivalentPair _ _ =>
    statistics ← bump statistics.(Stats.equivalents) "encoded equivalent-class count overflow"
      (fun value => statistics <| Stats.equivalents := value |>);
    if asserted then Ok statistics else
    add_to statistics.(Stats.equivalent_base_edges) (directions options) "encoded equivalent base-edge count overflow"
      (fun value => statistics <| Stats.equivalent_base_edges := value |>)
  | OwnedOverlayDeltaProjection.EquivalentAggregate _ named_destinations restrictions ignored_shapes =>
    statistics ← bump statistics.(Stats.equivalents) "encoded equivalent-class count overflow"
      (fun value => statistics <| Stats.equivalents := value |>);
    statistics ← bump statistics.(Stats.aggregate_equivalents) "encoded aggregate-equivalent count overflow"
      (fun value => statistics <| Stats.aggregate_equivalents := value |>);
    if asserted then Ok statistics else
    let overflow := resource "encoded equivalent base-edge count overflow" in
    named_edges ← ok_or (checked_mul (len named_destinations) (directions options)) overflow;
    let restriction_edges := if options.(only_taxonomy) then 0 else len restrictions in
    base_edges ← ok_or (count ← checked_add statistics.(Stats.equivalent_base_edges) named_edges;
                        checked_add count restriction_edges) overflow;
    let statistics := statistics <| Stats.equivalent_base_edges := base_edges |> in
    if options.(only_taxonomy) then Ok statistics else
    add_to statistics.(Stats.ignored_equivalents) ignored_shapes "encoded ignored-equivalent count overflow"
      (fun value => statistics <| Stats.ignored_equivalents := value |>)
  | OwnedOverlayDeltaProjection.IgnoredEquivalent =>
    statistics ← bump statistics.(Stats.equivalents) "encoded equivalent-class count overflow"
      (fun value => statistics <| Stats.equivalents := value |>);
    if asserted then Ok statistics else
    bump statistics.(Stats.ignored_equivalents) "encoded ignored-equivalent count overflow"
      (fun value => statistics <| Stats.ignored_equivalents := value |>)
  | OwnedOverlayDeltaProjection.IgnoredSubclass anonymous_individuals =>
    statistics ← bump statistics.(Stats.subclasses) "encoded subclass-count overflow"
      (fun value => statistics <| Stats.subclasses := value |>);
    statistics ← bump statistics.(Stats.ignored_subclasses) "encoded ignored-subclass count overflow"
      (fun value => statistics <| Stats.ignored_subclasses := value |>);
    add_to statistics.(Stats.anonymous_individuals) anonymous_individuals "encoded anonymous-individual count overflow"
      (fun value => statistics <| Stats.anonymous_individuals := value |>)
  | OwnedOverlayDeltaProjection.IgnoredObjectPropertyClass kind anonymous_individuals =>
    statistics ← match kind with
      | ObjectPropertyClassRuleKind.Domain =>
          statistics ← bump statistics.(Stats.object_property_domains) "encoded object-property-domain count overflow"
      (fun value => statistics <| Stats.object_property_domains := value |>);
          bump statistics.(Stats.ignored_object_property_domains) "encoded ignored-object-property-domain count overflow"
      (fun value => statistics <| Stats.ignored_object_property_domains := value |>)
      | ObjectPropertyClassRuleKind.Range =>
          statistics ← bump statistics.(Stats.object_property_ranges) "encoded object-property-range count overflow"
      (fun value => statistics <| Stats.object_property_ranges := value |>);
          bump statistics.(Stats.ignored_object_property_ranges) "encoded ignored-object-property-range count overflow"
      (fun value => statistics <| Stats.ignored_object_property_ranges := value |>)
      end;
    add_to statistics.(Stats.anonymous_individuals) anonymous_individuals "encoded anonymous-individual count overflow"
      (fun value => statistics <| Stats.anonymous_individuals := value |>)
  | OwnedOverlayDeltaProjection.ClassAssertion _ _ =>
    bump statistics.(Stats.class_assertions) "encoded class-assertion count overflow"
      (fun value => statistics <| Stats.class_assertions := value |>)
  | OwnedOverlayDeltaProjection.IgnoredClassAssertion anonymous_individuals =>
    statistics ← bump statistics.(Stats.class_assertions) "encoded class-assertion count overflow"
      (fun value => statistics <| Stats.class_assertions := value |>);
    statistics ← bump statistics.(Stats.ignored_class_assertions) "encoded ignored-class-assertion count overflow"
      (fun value => statistics <| Stats.ignored_class_assertions := value |>);
    add_to statistics.(Stats.anonymous_individuals) anonymous_individuals "encoded anonymous-individual count overflow"
      (fun value => statistics <| Stats.anonymous_individuals := value |>)
  | OwnedOverlayDeltaProjection.ObjectPropertyAssertion _ _ _ anonymous_individuals =>
    statistics ← bump statistics.(Stats.object_property_assertions) "encoded object-property-assertion count overflow"
      (fun value => statistics <| Stats.object_property_assertions := value |>);
    add_to statistics.(Stats.anonymous_individuals) anonymous_individuals "encoded anonymous-individual count overflow"
      (fun value => statistics <| Stats.anonymous_individuals := value |>)
  | OwnedOverlayDeltaProjection.IgnoredNegativeObjectPropertyAssertion anonymous_individuals =>
    statistics ← bump statistics.(Stats.negative_object_property_assertions) "encoded negative-object-property-assertion count overflow"
      (fun value => statistics <| Stats.negative_object_property_assertions := value |>);
    statistics ← add_to statistics.(Stats.anonymous_individuals) anonymous_individuals "encoded anonymous-individual count overflow"
      (fun value => statistics <| Stats.anonymous_individuals := value |>);
    if asserted then Ok statistics else
    bump statistics.(Stats.skipped_axioms) "encoded skipped-axiom count overflow"
      (fun value => statistics <| Stats.skipped_axioms := value |>)
  | OwnedOverlayDeltaProjection.IgnoredDataPropertyAssertion anonymous_individuals negative =>
    statistics ←
      (if negative : bool then
         bump statistics.(Stats.negative_data_property_assertions) "encoded negative-data-property-assertion count overflow"
      (fun value => statistics <| Stats.negative_data_property_assertions := value |>)
       else
         bump statistics.(Stats.data_property_assertions) "encoded data-property-assertion count overflow"
      (fun value => statistics <| Stats.data_property_assertions := value |>));
    statistics ← add_to statistics.(Stats.anonymous_individuals) anonymous_individuals "encoded anonymous-individual count overflow"
      (fun value => statistics <| Stats.anonymous_individuals := value |>);
    if asserted then Ok statistics else
    bump statistics.(Stats.skipped_axioms) "encoded skipped-axiom count overflow"
      (fun value => statistics <| Stats.skipped_axioms := value |>)
  | OwnedOverlayDeltaProjection.IgnoredIndividualSet anonymous_individuals different =>
    statistics ←
      (if different : bool then
         bump statistics.(Stats.different_individuals) "encoded different-individuals count overflow"
      (fun value => statistics <| Stats.different_individuals := value |>)
       else
         bump statistics.(Stats.same_individuals) "encoded same-individual count overflow"
      (fun value => statistics <| Stats.same_individuals := value |>));
    statistics ← add_to statistics.(Stats.anonymous_individuals) anonymous_individuals "encoded anonymous-individual count overflow"
      (fun value => statistics <| Stats.anonymous_individuals := value |>);
    if asserted then Ok statistics else
    bump statistics.(Stats.skipped_axioms) "encoded skipped-axiom count overflow"
      (fun value => statistics <| Stats.skipped_axioms := value |>)
  | OwnedOverlayDeltaProjection.IgnoredAnnotationAssertion anonymous_individuals =>
    statistics ← bump statistics.(Stats.annotation_assertions) "encoded annotation-assertion count overflow"
      (fun value => statistics <| Stats.annotation_assertions := value |>);
    add_to statistics.(Stats.anonymous_individuals) anonymous_individuals "encoded anonymous-individual count overflow"
      (fun value => statistics <| Stats.anonymous_individuals := value |>)
  | OwnedOverlayDeltaProjection.SilentRoot rule => apply_statistics rule statistics options
  | OwnedOverlayDeltaProjection.SilentDeclaration =>
    bump statistics.(Stats.declarations) "encoded declaration-count overflow"
      (fun value => statistics <| Stats.declarations := value |>)
  | OwnedOverlayDeltaProjection.SilentOntologyAnnotation =>
    bump statistics.(Stats.ontology_annotations) "encoded ontology-annotation count overflow"
      (fun value => statistics <| Stats.ontology_annotations := value |>)
  | OwnedOverlayDeltaProjection.SilentSwrl =>
    bump statistics.(Stats.swrl_rules) "encoded SWRL-rule count overflow"
      (fun value => statistics <| Stats.swrl_rules := value |>)
  end.
