(* ===== verification/Preparation.v ===== *)
(** * The preparation emission reads

    [DirectPreparation] of native/src/encoded_direct.rs: the plan and the
    preflight results an emission cursor reads, with the lookups of domain and
    range axioms merged with a local overlay's. *)

From S2P Require Import Prelude Lists Errors Tags Text Readers Columns Nodes Properties Graphs.
From S2P Require Import Stats Rules Planning Roles Emission Overlay.
Local Open Scope string_scope.
Local Open Scope list_scope.
Local Open Scope N_scope.

Record OwnedLocalObjectPropertyClass := {
  local_kind : ObjectPropertyClassRuleKind.ObjectPropertyClassRuleKind;
  local_property : text;
  local_class : text;
  insertion_position : usize;
}.

Record PreparedObjectPropertyClassGroup := {
  group_property : text;
  base_domains : usize;
  base_ranges : usize;
  local_domains : usize;
  local_ranges : usize;
  domain_positions : list usize;
  range_positions : list usize;
}.

Definition has_pair (self : PreparedObjectPropertyClassGroup) : bool :=
  (negb (self.(base_domains) =? 0) || negb (self.(local_domains) =? 0))
  && (negb (self.(base_ranges) =? 0) || negb (self.(local_ranges) =? 0)).

Record CompositeRootCoordinate := {
  coordinate_table : usize;
  coordinate_root_index : usize;
  coordinate_node_id : usize;
  coordinate_root_kind : u8;
  coordinate_tag : u16;
  coordinate_order : usize;
}.

Record CompositeNodeCoordinate := {
  node_table : usize;
  composite_node_id : usize;
  canonical_node_order : usize;
}.

Record DirectPreparation := {
  preparation_roles : RoleState;
  emission_plan : PreparedEmissionPlan;
  anonymous_ids : AnonymousIds;
  selected_annotation_nodes : option (list usize);
  composite_annotation_roots : list CompositeRootCoordinate;
  composite_class_nodes : list CompositeNodeCoordinate;
  composite_anonymous_nodes : list CompositeNodeCoordinate;
  overlay_deltas : list OwnedOverlayDelta;
  local_object_property_classes : list OwnedLocalObjectPropertyClass;
  local_object_property_class_positions : list usize;
  paired_object_property_class_groups : list PreparedObjectPropertyClassGroup;
  options : DirectCompileOptions;
  statistics : Stats.DirectCompileStats;
}.

#[export] Instance DirectPreparation_eta : Eta DirectPreparation := fun p =>
  {| preparation_roles := p.(preparation_roles); emission_plan := p.(emission_plan);
     anonymous_ids := p.(anonymous_ids); selected_annotation_nodes := p.(selected_annotation_nodes);
     composite_annotation_roots := p.(composite_annotation_roots);
     composite_class_nodes := p.(composite_class_nodes);
     composite_anonymous_nodes := p.(composite_anonymous_nodes); overlay_deltas := p.(overlay_deltas);
     local_object_property_classes := p.(local_object_property_classes);
     local_object_property_class_positions := p.(local_object_property_class_positions);
     paired_object_property_class_groups := p.(paired_object_property_class_groups);
     options := p.(options); statistics := p.(statistics) |}.

Notation class_entry :=
  (ObjectPropertyClassRuleKind.ObjectPropertyClassRuleKind * text * text)%type (only parsing).

Section preparation.
Context (self : DirectPreparation).

Definition root_rule_at (root_index : usize) : outcome RootRule :=
  resolved_root_rule_at self.(emission_plan).(prepared_rule_indexes) root_index.

Definition emission_shape_at (root_index : usize) : option PlannedEmissionShape.PlannedEmissionShape :=
  emission_shape <$>
    find_root emission_root_index self.(emission_plan).(prepared_emission_roots) root_index.

Definition aggregate_emission_at (aggregate_plan_index : usize) : outcome PlannedAggregateRoot :=
  ok_or (get self.(emission_plan).(prepared_aggregate_roots) aggregate_plan_index)
    (malformed "encoded aggregate emission cursor lost its planned operands").

Definition aggregate_emission_named_nodes (aggregate : PlannedAggregateRoot)
    : outcome (list usize) :=
  checked_plan_slice self.(emission_plan).(prepared_named_nodes) aggregate.(named)
    "encoded aggregate named-emission plan is out of bounds".

Definition aggregate_emission_restrictions (aggregate : PlannedAggregateRoot)
    : outcome (list (option PlannedRestrictionCoordinate)) :=
  checked_plan_slice self.(emission_plan).(prepared_restrictions) aggregate.(restrictions)
    "encoded aggregate restriction-emission plan is out of bounds".

(** ** Domains and ranges *)

(** [binary_search_by] with a comparison that can panic: only the elements the
    bisection visits are read. *)
Fixpoint try_bisect {A} (f : A -> outcome comparison) (fuel : nat) (l : list A) (base size : N)
    : outcome N :=
  match fuel with
  | O => Ok base
  | S fuel =>
      if size <=? 1 then Ok base else
      let half := size / 2 in
      let mid := base + half in
      x ← index l mid;
      order ← f x;
      try_bisect f fuel l (match order with Gt => base | _ => mid end) (size - half)
  end.

Definition try_binary_search_by {A} (f : A -> outcome comparison) (l : list A) : outcome (N + N) :=
  if len l =? 0 then Ok (inr 0) else
  i ← try_bisect f (length l) l 0 (len l);
  x ← index l i;
  order ← f x;
  Ok (match order with Eq => inl i | Lt => inr (i + 1) | Gt => inr i end).

Definition has_local_classes : bool :=
  match self.(local_object_property_classes) with [] => false | _ => true end.

Definition positions_prepared : outcome unit :=
  if negb (len self.(local_object_property_class_positions)
           =? len self.(local_object_property_classes)) then
    Err (malformed "encoded local domain/range position index was not prepared")
  else Ok tt.

Definition base_object_property_class_at (columns : DirectColumns) (position : usize)
    : outcome (option class_entry) :=
  let inconsistent :=
    Err (malformed "encoded structural root rule has an inconsistent domain/range effect") in
  selected ← root_is_selected columns position;
  if negb selected then Ok None else
  rule ← root_rule_at position;
  let kind := ObjectPropertyClassRuleKind.from_effect rule.(domain_range_effect) in
  let maximum := self.(options).(max_iri_bytes) in
  if bool_decide (rule.(handler) = RootRuleHandler.ObjectPropertyClass) then
    match kind with
    | None => inconsistent
    | Some kind =>
        match emission_shape_at position with
        | Some (PlannedEmissionShape.ObjectPropertyClassProjected property_node class_node) =>
            property ← named_object_property_iri columns property_node maximum;
            class ← named_class_iri columns class_node maximum;
            Ok (Some (kind, property, class))
        | Some PlannedEmissionShape.ObjectPropertyClassIgnored => Ok None
        | _ => Err (malformed "encoded object-property class root lost its prepared emission shape")
        end
    end
  else if kind then inconsistent else Ok None.

Definition object_property_class_scan_len (columns : DirectColumns) : outcome usize :=
  ok_or (checked_add (root_count columns) (len self.(local_object_property_classes)))
    (resource "encoded local domain/range scan overflow").

(** A local entry at its merged position, or the base root shifted by the
    local entries inserted before it. *)
Definition object_property_class_at (columns : DirectColumns) (position : usize)
    : Cx (option class_entry) :=
  let base_count := root_count columns in
  let exceeded := malformed "encoded local domain/range scan exceeded its merged root table" in
  scan_len ← !object_property_class_scan_len columns;
  if scan_len <=? position then
    !Err (malformed "encoded domain/range scan exceeded its merged root table") else
  if negb has_local_classes then !base_object_property_class_at columns position else
  _ ← check_cancel position;
  _ ← !positions_prepared;
  position_result ← !try_binary_search_by (fun local_index =>
      entry ← index self.(local_object_property_classes) local_index;
      Ok (entry.(insertion_position) ?= position))
    self.(local_object_property_class_positions);
  match position_result with
  | inl index_position =>
      local_index ← !index self.(local_object_property_class_positions) index_position;
      local ← !ok_or (get self.(local_object_property_classes) local_index)
        (malformed "encoded local domain/range position index is out of bounds");
      mret (Some (local.(local_kind), local.(local_property), local.(local_class)))
  | inr inserted_before =>
      base_position ← !ok_or (checked_sub position inserted_before)
        (malformed "encoded local domain/range scan underflow");
      if base_count <=? base_position then !Err exceeded
      else !base_object_property_class_at columns base_position
  end.

Definition base_has_object_property_class_for_property (columns : DirectColumns)
    (expected_effect : RootDomainRangeEffect.RootDomainRangeEffect) (property : text) : Cx bool :=
  expected_kind ← !ok_or (ObjectPropertyClassRuleKind.from_effect expected_effect)
    (malformed "encoded object-property class match has the wrong constructor tag");
  found ← fold_until (fun '() root_index =>
    _ ← check_cancel root_index;
    entry ← !base_object_property_class_at columns root_index;
    mret (match entry with
          | Some (kind, candidate, _) =>
              if bool_decide (kind = expected_kind) && bool_decide (candidate = property)
              then Return tt else Continue tt
          | None => Continue tt
          end)) tt (range 0 (root_count columns));
  mret (match found with Return _ => true | Continue _ => false end).

(** One round of the search for the first group after [previous]. *)
Fixpoint group_search (fuel : nat) (previous : text) (lower upper step : usize) : Cx usize :=
  if negb (lower <? upper) then mret lower else
  match fuel with
  | O => !OutOfFuel
  | S fuel =>
      _ ← check_cancel step;
      step ← !ok_or (checked_add step 1) (resource "encoded domain/range search-work overflow");
      let middle := lower + (upper - lower) / 2 in
      group ← !index self.(paired_object_property_class_groups) middle;
      if is_le (bytes_cmp group.(group_property) previous) then
        lower ← !ok_or (checked_add middle 1)
          (resource "encoded domain/range search index overflow");
        group_search fuel previous lower upper step
      else group_search fuel previous lower middle step
  end.

(** One root of the scan for the least paired property after [after]. *)
Definition paired_step (columns : DirectColumns) (after : option text) (base : option text)
    (root_index : usize) : Cx (option text) :=
  _ ← check_cancel root_index;
  entry ← !base_object_property_class_at columns root_index;
  match entry with
  | None => mret base
  | Some (kind, property, _) =>
      if negb (bool_decide (kind = ObjectPropertyClassRuleKind.Domain))
         || match after with Some previous => is_le (bytes_cmp property previous) | None => false end
         || match base with Some current => negb (is_lt (bytes_cmp property current)) | None => false end
      then mret base else
      paired ← base_has_object_property_class_for_property columns RootDomainRangeEffect.Range
                 property;
      mret (if paired : bool then Some property else base)
  end.

Definition next_paired_property (columns : DirectColumns) (after : option text)
    : Cx (option text) :=
  if has_local_classes then
    _ ← !positions_prepared;
    let upper := len self.(paired_object_property_class_groups) in
    lower ← match after with
            | Some previous => group_search (N.to_nat upper) previous 0 upper 0
            | None => mret 0
            end;
    mret (group_property <$> get self.(paired_object_property_class_groups) lower)
  else foldM (paired_step columns after) None (range 0 (root_count columns)).

Definition paired_property_positions (property : text)
    (kind : ObjectPropertyClassRuleKind.ObjectPropertyClassRuleKind) : outcome (list usize) :=
  if negb has_local_classes then
    Err (malformed "encoded local domain/range property index is not active") else
  _ ← positions_prepared;
  match binary_search_by (fun group => bytes_cmp group.(group_property) property)
          self.(paired_object_property_class_groups) with
  | inr _ => Err (malformed "encoded local domain/range cursor lost its prepared property group")
  | inl group_index =>
      group ← index self.(paired_object_property_class_groups) group_index;
      Ok (match kind with
          | ObjectPropertyClassRuleKind.Domain => group.(domain_positions)
          | ObjectPropertyClassRuleKind.Range => group.(range_positions)
          end)
  end.

(** One group of [local_object_property_class_edge_counts]: the pairs that
    involve a local axiom. *)
Definition group_counts (st : usize * usize * usize) (group : PreparedObjectPropertyClassGroup)
    : Cx (usize * usize * usize) :=
  let '(products, edges, group_index) := st in
  let product_overflow := resource "encoded local domain/range product-count overflow" in
  let edge_overflow := resource "encoded local domain/range edge-count overflow" in
  _ ← check_cancel group_index;
  total_domains ← !ok_or (checked_add group.(base_domains) group.(local_domains))
    (resource "encoded domain/range domain-count overflow");
  total_ranges ← !ok_or (checked_add group.(base_ranges) group.(local_ranges))
    (resource "encoded domain/range range-count overflow");
  all_products ← !ok_or (checked_mul total_domains total_ranges) product_overflow;
  base_products ← !ok_or (checked_mul group.(base_domains) group.(base_ranges)) product_overflow;
  local_products ← !ok_or (checked_sub all_products base_products)
    (malformed "encoded local domain/range counts are inconsistent");
  products ← !ok_or (checked_add products local_products) product_overflow;
  count ← !edge_count self.(preparation_roles) group.(group_property);
  local_edges ← !ok_or (checked_mul local_products count) edge_overflow;
  edges ← !ok_or (checked_add edges local_edges) edge_overflow;
  mret (products, edges, group_index + 1).

Definition local_object_property_class_edge_counts : Cx (usize * usize) :=
  if negb has_local_classes then mret (0, 0) else
  _ ← !(if negb (len self.(local_object_property_class_positions)
                 =? len self.(local_object_property_classes)) then
          Err (malformed "encoded local domain/range property index was not prepared")
        else Ok tt);
  '(products, edges, _) ←
    foldM group_counts (0, 0, 0) self.(paired_object_property_class_groups);
  mret (products, edges).
End preparation.

(** ** Composite annotations *)

Definition coordinate_cmp (table node_id : usize) (c : CompositeNodeCoordinate) : comparison :=
  then_with (c.(node_table) ?= table) (c.(composite_node_id) ?= node_id).

Definition composite_anonymous_position (coordinates : list CompositeNodeCoordinate)
    (table node_id : usize) (missing_message : string) : outcome usize :=
  match binary_search_by (coordinate_cmp table node_id) coordinates with
  | inl i => coordinate ← index coordinates i; Ok coordinate.(canonical_node_order)
  | inr _ => Err (malformed missing_message)
  end.

Section composite.
Context `{LowercaseTable} (columns : list DirectColumns).

Definition composite_contains_class_iri (class_nodes : list CompositeNodeCoordinate)
    (target : text) (maximum_iri : usize) : Cx bool :=
  found ← fold_until (fun index coordinate =>
    _ ← check_cancel index;
    member ← !ok_or (get columns coordinate.(node_table))
      (malformed "encoded class coordinate references an unknown table");
    let node_id := coordinate.(composite_node_id) in
    tag ← !node_tag member node_id;
    if negb (tag =? TAG_ENTITY) then
      !Err (malformed "encoded class coordinate no longer references an Entity") else
    '(kind, iri_id) ← !entity member node_id;
    if bool_decide (kind = str "class") then
      value ← !iri member iri_id maximum_iri;
      mret (if bool_decide (value = target) then Return tt else Continue (index + 1))
    else mret (Continue (index + 1))) 0 class_nodes;
  mret (match found with Return _ => true | Continue _ => false end).

Definition composite_annotation_projection (coordinate : CompositeRootCoordinate)
    (class_nodes : list CompositeNodeCoordinate) (maximum_iri : usize)
    : Cx (option AnnotationProjection) :=
  member ← !ok_or (get columns coordinate.(coordinate_table))
    (malformed "encoded annotation coordinate references an unknown table");
  let node_id := coordinate.(coordinate_node_id) in
  changed ← !(if negb (coordinate.(coordinate_root_kind) =? ROOT_AXIOM)
                 || negb (coordinate.(coordinate_tag) =? TAG_ANNOTATION_ASSERTION) then Ok true else
              root ← root_id member coordinate.(coordinate_root_index);
              if negb (root =? node_id) then Ok true else
              tag ← node_tag member node_id;
              Ok (negb (tag =? TAG_ANNOTATION_ASSERTION)));
  if changed : bool then
    !Err (malformed "encoded annotation coordinate changed after canonical preflight") else
  start ← !exact_fields member node_id 4;
  property_id ← !field_node member start;
  property ← !named_annotation_property_iri member property_id maximum_iri;
  if negb (contains ANNOTATION_PROPERTIES property) then mret None else
  subject_id ← !field_node member (start +w 1);
  subject_tag ← !node_tag member subject_id;
  if subject_tag =? TAG_ANONYMOUS_INDIVIDUAL then
    _ ← !validate_anonymous_individual member subject_id; mret None
  else if negb (subject_tag =? TAG_IRI) then
    !Err (malformed "encoded annotation subject changed after canonical preflight")
  else
    source ← !iri member subject_id maximum_iri;
    is_class ← composite_contains_class_iri class_nodes source maximum_iri;
    if negb is_class then mret None else
    value_id ← !field_node member (start +w 2);
    value ← !annotation_value member value_id maximum_iri;
    mret (Some {| annotation_source := source;
                  annotation_relation := annotation_relation_of property;
                  annotation_projected := value |}).

Definition composite_annotation_edge (projection : AnnotationProjection) (table : usize)
    (anonymous_nodes : list CompositeNodeCoordinate) : outcome DirectEdge :=
  destination ← match projection.(annotation_projected) with
    | Borrowed value => clone_text value
    | AnonymousValue node_id =>
        position ← composite_anonymous_position anonymous_nodes table node_id
          "encoded anonymous annotation value lost its closure-wide identifier";
        render_anonymous_identifier position
    | Typed lexical datatype => render_typed_annotation_literal lexical datatype
    end;
  clone_edge projection.(annotation_source) projection.(annotation_relation) destination.
End composite.

(** ** Cancellation *)

#[export] Instance transparent_contains_class_iri self target maximum_iri :
  Transparent (contains_class_iri self target maximum_iri).
Proof. unfold contains_class_iri. solve_transparent. Qed.
#[export] Instance transparent_annotation_projection `{LowercaseTable} self node_id maximum_iri :
  Transparent (annotation_projection self node_id maximum_iri).
Proof. unfold annotation_projection. solve_transparent. Qed.
#[export] Instance transparent_object_property_class_at self columns position :
  Transparent (object_property_class_at self columns position).
Proof. unfold object_property_class_at. solve_transparent. Qed.
#[export] Instance transparent_base_has self columns effect property :
  Transparent (base_has_object_property_class_for_property self columns effect property).
Proof. unfold base_has_object_property_class_for_property. solve_transparent. Qed.
#[export] Instance transparent_group_search self fuel previous lower upper step :
  Transparent (group_search self fuel previous lower upper step).
Proof. revert lower upper step. induction fuel; cbn [group_search]; solve_transparent. Qed.
#[export] Instance transparent_paired_step self columns after base root_index :
  Transparent (paired_step self columns after base root_index).
Proof. unfold paired_step. solve_transparent. Qed.
#[export] Instance transparent_next_paired_property self columns after :
  Transparent (next_paired_property self columns after).
Proof. unfold next_paired_property. solve_transparent. Qed.
#[export] Instance transparent_group_counts self st group : Transparent (group_counts self st group).
Proof. unfold group_counts. solve_transparent. Qed.
#[export] Instance transparent_local_edge_counts self :
  Transparent (local_object_property_class_edge_counts self).
Proof. unfold local_object_property_class_edge_counts. solve_transparent. Qed.
#[export] Instance transparent_composite_contains columns class_nodes target maximum_iri :
  Transparent (composite_contains_class_iri columns class_nodes target maximum_iri).
Proof. unfold composite_contains_class_iri. solve_transparent. Qed.
#[export] Instance transparent_composite_projection `{LowercaseTable} columns coordinate class_nodes maximum_iri :
  Transparent (composite_annotation_projection columns coordinate class_nodes maximum_iri).
Proof. unfold composite_annotation_projection. solve_transparent. Qed.
