(* ===== verification/LocalIndex.v ===== *)
(** * The index of local domains and ranges

    [DirectPreparation::prepare_local_object_property_class_index] and
    [PreparedObjectPropertyClassGroup] of native/src/encoded_direct.rs: the
    domain and range axioms of the base table and of an overlay, grouped by
    property, with their positions in the merged scan. *)

From S2P Require Import Prelude Errors Tags Text Readers Columns Sort Partial Workspace.
From S2P Require Import Stats Rules Planning Roles Emission Overlay Preparation.
Local Open Scope string_scope.
Local Open Scope list_scope.
Local Open Scope N_scope.

Abbreviation rule_kind := ObjectPropertyClassRuleKind.ObjectPropertyClassRuleKind (only parsing).

Record PreparedObjectPropertyClassOccurrence := {
  occurrence_property : text;
  occurrence_kind : rule_kind;
  occurrence_local : bool;
  merged_position : usize;
}.

(** ** Groups *)

#[export] Instance PreparedObjectPropertyClassGroup_eta : Eta PreparedObjectPropertyClassGroup := fun g =>
  {| group_property := g.(group_property); base_domains := g.(base_domains);
     base_ranges := g.(base_ranges); local_domains := g.(local_domains);
     local_ranges := g.(local_ranges); domain_positions := g.(domain_positions);
     range_positions := g.(range_positions) |}.

Definition group_new (property : text) : PreparedObjectPropertyClassGroup :=
  {| group_property := property; base_domains := 0; base_ranges := 0; local_domains := 0;
     local_ranges := 0; domain_positions := []; range_positions := [] |}.

Definition push_occurrence (self : PreparedObjectPropertyClassGroup) (kind : rule_kind) (local : bool)
    (merged_position : usize) : Owned PreparedObjectPropertyClassGroup :=
  let next counter := ok_or (checked_add counter 1) (resource "encoded domain/range count overflow") in
  self ← ⇑(match kind, local with
    | ObjectPropertyClassRuleKind.Domain, false =>
        value ← next self.(base_domains); Ok (self <| base_domains := value |>)
    | ObjectPropertyClassRuleKind.Range, false =>
        value ← next self.(base_ranges); Ok (self <| base_ranges := value |>)
    | ObjectPropertyClassRuleKind.Domain, true =>
        value ← next self.(local_domains); Ok (self <| local_domains := value |>)
    | ObjectPropertyClassRuleKind.Range, true =>
        value ← next self.(local_ranges); Ok (self <| local_ranges := value |>)
    end);
  _ ← charge (fun workspace => push_owned workspace (fun _ => size_of_usize));
  mret (match kind with
        | ObjectPropertyClassRuleKind.Domain =>
            self <| domain_positions := self.(domain_positions) ++ [merged_position] |>
        | ObjectPropertyClassRuleKind.Range =>
            self <| range_positions := self.(range_positions) ++ [merged_position] |>
        end).

(** ** The positions of the local axioms *)

Section positions.
Context (classes : list OwnedLocalObjectPropertyClass).

(** [self.local_object_property_classes[i].insertion_position]; the indexes are
    those of the list. *)
Definition position_of (local_index : usize) : usize :=
  from_option insertion_position 0 (get classes local_index).

Definition local_position_cmp (left right : usize) : comparison :=
  then_with (position_of left ?= position_of right) (left ?= right).

Definition check_position (scan_len : usize) (st : option usize * usize) (local_index : usize)
    : Cx (option usize * usize) :=
  let '(previous_position, position_index) := st in
  _ ← check_cancel position_index;
  local ← !ok_or (get classes local_index)
    (malformed "encoded local domain/range position index is out of bounds");
  if scan_len <=? local.(insertion_position) then
    !Err (malformed "encoded local domain/range insertion is out of range")
  else if bool_decide (previous_position = Some local.(insertion_position)) then
    !Err (malformed "encoded local domain/range insertions share one merged position")
  else mret (Some local.(insertion_position), position_index + 1).

(** The local axioms inserted before the next root of the base. *)
Fixpoint skip_locals (fuel : nat) (positions : list usize) (local_position_cursor merged_position : usize)
    : Cx (usize * usize) :=
  match get positions local_position_cursor with
  | None => mret (local_position_cursor, merged_position)
  | Some local_index =>
      match fuel with
      | O => !OutOfFuel
      | S fuel =>
          _ ← check_cancel local_position_cursor;
          local ← !index classes local_index;
          if negb (local.(insertion_position) =? merged_position) then
            mret (local_position_cursor, merged_position)
          else
            local_position_cursor ← !ok_or (checked_add local_position_cursor 1)
              (resource "encoded local domain/range position-index overflow");
            merged_position ← !ok_or (checked_add merged_position 1)
              (resource "encoded local domain/range position overflow");
            skip_locals fuel positions local_position_cursor merged_position
      end
  end.
End positions.

(** ** The occurrences *)

Section index.
Context `{LowercaseTable} (self : DirectPreparation) (columns : DirectColumns).

Abbreviation classes := self.(local_object_property_classes).

(** A root of the base, after the local axioms before it; the state is the next
    local axiom, the merged position and the occurrences. *)
Definition base_occurrence (positions : list usize)
    (st : usize * usize * list PreparedObjectPropertyClassOccurrence) (root_index : usize)
    : Owned (usize * usize * list PreparedObjectPropertyClassOccurrence) :=
  let '(local_position_cursor, merged_position, occurrences) := st in
  _ ← uncharged (check_cancel root_index);
  '(local_position_cursor, root_position) ←
    uncharged (skip_locals classes (length positions) positions local_position_cursor merged_position);
  merged_position ← ⇑ok_or (checked_add root_position 1)
    (resource "encoded local domain/range position overflow");
  entry ← ⇑base_object_property_class_at self columns root_index;
  match entry with
  | None => mret (local_position_cursor, merged_position, occurrences)
  | Some (kind, property, _) =>
      property ← own_text property;
      mret (local_position_cursor, merged_position, occurrences ++ [
        {| occurrence_property := property; occurrence_kind := kind; occurrence_local := false;
           merged_position := root_position |}])
  end.

Definition local_occurrence (st : list PreparedObjectPropertyClassOccurrence * usize)
    (local : OwnedLocalObjectPropertyClass) : Owned (list PreparedObjectPropertyClassOccurrence * usize) :=
  let '(occurrences, local_index) := st in
  _ ← uncharged (check_cancel local_index);
  property ← own_text local.(local_property);
  mret (occurrences ++ [
    {| occurrence_property := property; occurrence_kind := local.(local_kind);
       occurrence_local := true; merged_position := local.(insertion_position) |}], local_index + 1).

Definition occurrence_cmp (left right : PreparedObjectPropertyClassOccurrence) : comparison :=
  then_with (bytes_cmp left.(occurrence_property) right.(occurrence_property))
    (left.(merged_position) ?= right.(merged_position)).

(** ** The groups *)

Definition count_occurrence (grouped_occurrences : usize) : Owned usize :=
  _ ← uncharged (check_cancel grouped_occurrences);
  ⇑ok_or (checked_add grouped_occurrences 1)
    (resource "encoded domain/range occurrence-count overflow").

(** The occurrences that follow with the property of the group. *)
Fixpoint fill_group (group : PreparedObjectPropertyClassGroup) (grouped_occurrences : usize)
    (occurrences : list PreparedObjectPropertyClassOccurrence)
    : Owned (PreparedObjectPropertyClassGroup * usize * list PreparedObjectPropertyClassOccurrence) :=
  match occurrences with
  | [] => mret (group, grouped_occurrences, [])
  | next :: rest =>
      if bool_decide (next.(occurrence_property) = group.(group_property)) then
        grouped_occurrences ← count_occurrence grouped_occurrences;
        group ← push_occurrence group next.(occurrence_kind) next.(occurrence_local)
          next.(merged_position);
        fill_group group grouped_occurrences rest
      else mret (group, grouped_occurrences, occurrences)
  end.

(** Every round takes an occurrence, so their number is enough fuel. *)
Fixpoint group_occurrences (fuel : nat) (groups : list PreparedObjectPropertyClassGroup)
    (group_index grouped_occurrences : usize)
    (occurrences : list PreparedObjectPropertyClassOccurrence)
    : Owned (list PreparedObjectPropertyClassGroup) :=
  match occurrences, fuel with
  | [], _ => mret groups
  | _ :: _, O => ⇑OutOfFuel
  | first :: rest, S fuel =>
      grouped_occurrences ← count_occurrence grouped_occurrences;
      group ← push_occurrence (group_new first.(occurrence_property)) first.(occurrence_kind)
        first.(occurrence_local) first.(merged_position);
      '(group, grouped_occurrences, rest) ← fill_group group grouped_occurrences rest;
      let groups := if has_pair group then groups ++ [group] else groups in
      group_index ← ⇑ok_or (checked_add group_index 1)
        (resource "encoded domain/range group-count overflow");
      group_occurrences fuel groups group_index grouped_occurrences rest
  end.

(** ** The index *)

Definition prepare_local_object_property_class_index : Owned DirectPreparation :=
  let local_count := len classes in
  if local_count =? 0 then
    mret (self <| local_object_property_class_positions := [] |>
               <| paired_object_property_class_groups := [] |>)
  else
    scan_len ← ⇑ok_or (checked_add (root_count columns) local_count)
      (resource "encoded local domain/range scan overflow");
    _ ← reserve_owned (fun _ => size_of_usize) local_count;
    _ ← uncharged (forM (range 0 local_count) check_cancel);
    positions ← uncharged (cancellable_sort_unstable_by (local_position_cmp classes)
      (range 0 local_count));
    _ ← uncharged (foldM (check_position classes scan_len) (None, 0) positions);
    maximum_occurrences ← ⇑ok_or (checked_add (root_count columns) local_count)
      (resource "encoded domain/range group-count overflow");
    _ ← reserve_owned (@size_of_occurrence) maximum_occurrences;
    '(_, _, occurrences) ← foldM (base_occurrence positions) (0, 0, []) (range 0 (root_count columns));
    '(occurrences, _) ← foldM local_occurrence (occurrences, 0) classes;
    occurrences ← uncharged (cancellable_sort_unstable_by occurrence_cmp occurrences);
    _ ← reserve_owned (@size_of_group) maximum_occurrences;
    groups ← group_occurrences (length occurrences) [] 0 0 occurrences;
    mret (self <| local_object_property_class_positions := positions |>
               <| paired_object_property_class_groups := groups |>).
End index.
