(* ===== verification/Scoped.v ===== *)
(** * Composite members with remapped anonymous scopes

    [DirectColumns::validate_scope_mapped_composite_table] of
    native/src/encoded_direct.rs: a member of a composite whose anonymous
    individual is renamed by scope maps carries exactly one construct with it,
    of the kinds the composite can own, next to named class axioms. *)

From S2P Require Import Prelude Errors Tags Text Readers Columns Nodes Properties Classes Swrl Graphs.
From S2P Require Import Stats Rules Planning Overlay.
Local Open Scope string_scope.
Local Open Scope list_scope.
Local Open Scope N_scope.

Module ScopeMappedCompositeKind.
Inductive ScopeMappedCompositeKind :=
  | IgnoredSubclass
  | IgnoredObjectPropertyDomain
  | IgnoredObjectPropertyRange
  | IgnoredClass
  | PositiveObject
  | NegativeObject
  | PositiveData
  | NegativeData
  | SameIndividual
  | DifferentIndividuals
  | SilentAnnotation
  | SilentOntologyAnnotation
  | SilentSwrl.
#[global] Instance t_eq_dec : EqDecision ScopeMappedCompositeKind.
Proof. solve_decision. Defined.
End ScopeMappedCompositeKind.
Abbreviation scope_kind := ScopeMappedCompositeKind.ScopeMappedCompositeKind (only parsing).

(** [matches!((source, destination), (Anonymous(node), Named(_)) | (Named(_),
    Anonymous(node)) if node == anonymous_node)]; any node without one. *)
Definition one_anonymous_endpoint (anonymous_node : option usize) (source destination : IndividualValue) : bool :=
  match source, destination with
  | Anonymous node, Named _ | Named _, Anonymous node => matches_expected (Some node) anonymous_node
  | _, _ => false
  end.

Section scoped.
Context `{LowercaseTable} (self : DirectColumns) (root_rule_plan : SelectedRootRulePlan) (maximum_iri : usize).

(** The anonymous individual of the member. *)
Definition sole_anonymous_step (anonymous_node : option usize) (node_id : usize) : Cx (option usize) :=
  _ ← check_cancel node_id;
  tag ← !node_tag self node_id;
  if tag =? TAG_ANONYMOUS_INDIVIDUAL then
    match anonymous_node with
    | Some _ => !Err (unsupported "bounded anonymous-scope composite requires one anonymous individual per member")
    | None => mret (Some node_id)
    end
  else mret anonymous_node.

(** A root that is not selected. *)
Definition validate_exclusion (root_index root : usize) : outcome unit :=
  let only_subclasses := unsupported "bounded anonymous-scope mapped-member exclusions support only named SubClassOf roots" in
  kind ← root_kind self root_index;
  if negb (kind =? ROOT_AXIOM) then Err only_subclasses else
  tag ← node_tag self root;
  if negb (tag =? TAG_SUB_CLASS_OF) then Err only_subclasses else
  projection ← subclass_projection self root maximum_iri;
  match projection with
  | Taxonomy _ _ =>
      start ← exact_fields self root 3;
      '(_, annotation_count) ← node_set_range self (start +w 2) 0;
      if negb (annotation_count =? 0) then
        Err (unsupported "bounded anonymous-scope mapped-member exclusions require unannotated named SubClassOf roots")
      else Ok tt
  | _ => Err only_subclasses
  end.

Section construct.
Context (anonymous_node : usize).

Definition mapped_ontology_annotation (root : usize) : outcome scope_kind :=
  _ ← validate_annotation self root maximum_iri;
  start ← exact_fields self root 3;
  _ ← node_set_range self (start +w 2) 0;
  value ← field_node self (start +w 1);
  if negb (value =? anonymous_node) then
    Err (unsupported "bounded anonymous-scope ontology Annotation requires its anonymous value")
  else Ok ScopeMappedCompositeKind.SilentOntologyAnnotation.

Definition mapped_swrl (root : usize) : Cx scope_kind :=
  _ ← !validate_swrl_rule self root;
  anonymous ← root_contains_anonymous_individual self root;
  if negb anonymous then
    !Err (unsupported "bounded anonymous-scope SWRLRule must carry the member anonymous individual")
  else mret ScopeMappedCompositeKind.SilentSwrl.

(** A named class axiom leaves the construct as it is. *)
Definition mapped_subclass (root_index root : usize) (construct_kind : option scope_kind)
    : outcome (option scope_kind) :=
  let envelope := Err (unsupported "bounded anonymous-scope composite supports named SubClassOf siblings and one unannotated ignored SubClassOf pairing a named class with a singleton anonymous nominal or named-property ObjectHasValue carrying the anonymous individual") in
  match shape_at root_rule_plan root_index with
  | Some (PlannedRootShape.Subclass (Taxonomy _ _)) => Ok construct_kind
  | Some (PlannedRootShape.Subclass SubclassIgnored) =>
      match construct_kind with
      | Some _ => envelope
      | None =>
          ignored ← is_scope_mapped_ignored_subclass self root (Some anonymous_node) maximum_iri;
          if ignored : bool then Ok (Some ScopeMappedCompositeKind.IgnoredSubclass) else envelope
      end
  | Some (PlannedRootShape.Subclass (Restriction _ _ _)) => envelope
  | _ => Err (malformed "encoded subclass root lost its planned semantic shape")
  end.

Definition mapped_object_property_class (rule : RootRule) (root_index root : usize) : outcome scope_kind :=
  kind ← ok_or (ObjectPropertyClassRuleKind.from_effect rule.(domain_range_effect))
    (malformed "encoded object-property class rule lost its domain/range effect");
  projection ← match shape_at root_rule_plan root_index with
    | Some (PlannedRootShape.ObjectPropertyClass projection) => Ok projection
    | _ => Err (malformed "encoded object-property class root lost its planned semantic shape")
    end;
  ignored ← match projection with
    | Some _ => Ok false
    | None => is_scope_mapped_ignored_object_property_class self root rule.(rule_tag)
                (Some anonymous_node) maximum_iri
    end;
  if negb ignored then
    Err (unsupported "bounded anonymous-scope composite requires one unannotated ObjectPropertyDomain or ObjectPropertyRange with a named outer property and a singleton anonymous nominal or named-property ObjectHasValue carrying the anonymous individual")
  else Ok (match kind with
    | ObjectPropertyClassRuleKind.Domain => ScopeMappedCompositeKind.IgnoredObjectPropertyDomain
    | ObjectPropertyClassRuleKind.Range => ScopeMappedCompositeKind.IgnoredObjectPropertyRange
    end).

Definition mapped_class_assertion (root_index root : usize) : outcome scope_kind :=
  projection ← match shape_at root_rule_plan root_index with
    | Some (PlannedRootShape.ClassAssertion projection) => Ok projection
    | _ => Err (malformed "encoded class-assertion root lost its planned semantic shape")
    end;
  ignored ← match projection with
    | ClassAssertionIgnored =>
        is_scope_mapped_ignored_class_assertion self root (Some anonymous_node) maximum_iri
    | _ => Ok false
    end;
  if negb ignored then
    Err (unsupported "bounded anonymous-scope composite requires one unannotated named-class assertion over its anonymous individual, singleton anonymous nominal over a named individual, or named-property ObjectHasValue with an anonymous value over a named individual")
  else Ok ScopeMappedCompositeKind.IgnoredClass.

Definition mapped_object_assertion (root_index root : usize) : outcome scope_kind :=
  start ← exact_fields self root 4;
  '(_, annotation_count) ← node_set_range self (start +w 3) 0;
  match shape_at root_rule_plan root_index with
  | Some (PlannedRootShape.ObjectPropertyAssertion source _ destination) =>
      if negb (annotation_count =? 0)
         || negb (one_anonymous_endpoint (Some anonymous_node) source destination) then
        Err (unsupported "bounded anonymous-scope composite requires one unannotated ObjectPropertyAssertion with exactly one anonymous endpoint")
      else Ok ScopeMappedCompositeKind.PositiveObject
  | _ => Err (malformed "encoded object-property assertion lost its planned semantic shape")
  end.

Definition mapped_negative_object_assertion (root : usize) : outcome scope_kind :=
  start ← exact_fields self root 4;
  '(_, annotation_count) ← node_set_range self (start +w 3) 0;
  property ← field_node self start;
  _ ← named_object_property_iri self property maximum_iri;
  source_node ← field_node self (start +w 1);
  source ← individual_value self source_node maximum_iri;
  destination_node ← field_node self (start +w 2);
  destination ← individual_value self destination_node maximum_iri;
  if negb (annotation_count =? 0)
     || negb (one_anonymous_endpoint (Some anonymous_node) source destination) then
    Err (unsupported "bounded anonymous-scope composite requires one unannotated NegativeObjectPropertyAssertion with exactly one anonymous endpoint")
  else Ok ScopeMappedCompositeKind.NegativeObject.

Definition mapped_data_assertion (rule : RootRule) (root : usize) : outcome scope_kind :=
  start ← exact_fields self root 4;
  '(_, annotation_count) ← node_set_range self (start +w 3) 0;
  property ← field_node self start;
  _ ← named_data_property_iri self property maximum_iri;
  source_node ← field_node self (start +w 1);
  source ← individual_value self source_node maximum_iri;
  literal ← field_node self (start +w 2);
  _ ← validate_literal self literal maximum_iri;
  if negb (annotation_count =? 0)
     || match source with Anonymous node => negb (node =? anonymous_node) | Named _ => true end then
    Err (unsupported "bounded anonymous-scope composite requires one unannotated data-property assertion over its anonymous individual")
  else match RootStatsEffect.counter rule.(stats_effect) with
    | RootCounter.DataPropertyAssertions => Ok ScopeMappedCompositeKind.PositiveData
    | RootCounter.NegativeDataPropertyAssertions => Ok ScopeMappedCompositeKind.NegativeData
    | _ => Err (malformed "encoded data-property assertion rule lost its constructor counter")
    end.

Definition set_member_step (st : usize * usize) (item_index : usize) : outcome (usize * usize) :=
  let '(anonymous_count, named_count) := st in
  item ← item_node self item_index;
  value ← individual_value self item maximum_iri;
  match value with
  | Anonymous node =>
      if node =? anonymous_node then Ok (anonymous_count +w 1, named_count)
      else Err (unsupported "bounded anonymous-scope individual set contains an unrelated anonymous individual")
  | Named _ => Ok (anonymous_count, named_count +w 1)
  end.

Definition mapped_individual_set (rule : RootRule) (root : usize) : outcome scope_kind :=
  _ ← validate_individual_set_axiom self root rule.(rule_tag) maximum_iri;
  start ← exact_fields self root 2;
  '(item_start, item_count) ← node_set_range self start 2;
  '(_, annotation_count) ← node_set_range self (start +w 1) 0;
  '(anonymous_count, named_count) ← foldM set_member_step (0, 0) (range item_start (item_start +w item_count));
  if negb (item_count =? 2) || negb (annotation_count =? 0) || negb (anonymous_count =? 1)
     || negb (named_count =? 1) then
    Err (unsupported "bounded anonymous-scope composite requires one unannotated binary individual set with one anonymous member")
  else match RootStatsEffect.counter rule.(stats_effect) with
    | RootCounter.SameIndividuals => Ok ScopeMappedCompositeKind.SameIndividual
    | RootCounter.DifferentIndividuals => Ok ScopeMappedCompositeKind.DifferentIndividuals
    | _ => Err (malformed "encoded individual-set rule lost its constructor counter")
    end.

Definition mapped_annotation_assertion (root : usize) : outcome scope_kind :=
  _ ← validate_annotation_assertion self root maximum_iri;
  start ← exact_fields self root 4;
  _ ← node_set_range self (start +w 3) 0;
  subject ← field_node self (start +w 1);
  value ← field_node self (start +w 2);
  if Bool.eqb (subject =? anonymous_node) (value =? anonymous_node) then
    Err (unsupported "bounded anonymous-scope composite requires one AnnotationAssertion with exactly one anonymous subject or value")
  else Ok ScopeMappedCompositeKind.SilentAnnotation.

(** The construct of a handler that only a member without one may have. *)
Definition sole_construct (construct_kind : option scope_kind) (m : Cx scope_kind)
    : Cx (option scope_kind) :=
  match construct_kind with
  | Some _ => !Err (unsupported "bounded anonymous-scope composite requires exactly one remapped construct per member")
  | None => kind ← m; mret (Some kind)
  end.

(** [match (rule.root_kind, rule.handler)]. *)
Definition mapped_construct (rule : RootRule) (root_index root : usize) (construct_kind : option scope_kind)
    : Cx (option scope_kind) :=
  let unmapped := !Err (unsupported "bounded anonymous-scope composite supports only named SubClassOf and one supported anonymous construct") in
  let sole m := sole_construct construct_kind m in
  if rule.(rule_root_kind) =? ROOT_ONTOLOGY_ANNOTATION then
    match rule.(handler) with
    | RootRuleHandler.OntologyAnnotation => sole (!mapped_ontology_annotation root)
    | _ => unmapped
    end
  else if rule.(rule_root_kind) =? ROOT_EXTENSION then
    match rule.(handler) with
    | RootRuleHandler.SwrlRule => sole (mapped_swrl root)
    | _ => unmapped
    end
  else if rule.(rule_root_kind) =? ROOT_AXIOM then
    match rule.(handler) with
    | RootRuleHandler.Subclass => !mapped_subclass root_index root construct_kind
    | RootRuleHandler.ObjectPropertyClass => sole (!mapped_object_property_class rule root_index root)
    | RootRuleHandler.ClassAssertion => sole (!mapped_class_assertion root_index root)
    | RootRuleHandler.ObjectPropertyAssertion => sole (!mapped_object_assertion root_index root)
    | RootRuleHandler.NegativeObjectPropertyAssertion => sole (!mapped_negative_object_assertion root)
    | RootRuleHandler.DataPropertyAssertion => sole (!mapped_data_assertion rule root)
    | RootRuleHandler.IndividualSet => sole (!mapped_individual_set rule root)
    | RootRuleHandler.AnnotationAssertion => sole (!mapped_annotation_assertion root)
    | _ => unmapped
    end
  else unmapped.

Definition mapped_root (construct_kind : option scope_kind) (root_index : usize) : Cx (option scope_kind) :=
  _ ← check_cancel root_index;
  root ← !root_id self root_index;
  selected ← !root_is_selected self root_index;
  if negb selected then _ ← !validate_exclusion root_index root; mret construct_kind else
  rule ← !rule_at root_rule_plan root_index;
  kind ← !root_kind self root_index;
  changed ← !(if negb (kind =? rule.(rule_root_kind)) then Ok true
              else tag ← node_tag self root; Ok (negb (tag =? rule.(rule_tag))));
  if changed : bool then
    !Err (malformed "encoded selected root changed after structural rule preflight")
  else mapped_construct rule root_index root construct_kind.
End construct.

Definition validate_scope_mapped_composite_table : Cx (scope_kind * bytes * bytes) :=
  if negb (is_empty self.(included_root_ids)) || negb (has_anonymous_scope_map self) then
    !Err (unsupported "bounded anonymous-scope composite requires a retained bytes32 remap chain and ALL roots or named-taxonomy exclusions per mapped member")
  else
    anonymous_node ← foldM sole_anonymous_step None (range 1 (node_count self + 1));
    anonymous_node ← !ok_or anonymous_node
      (unsupported "bounded anonymous-scope composite requires one anonymous individual per member");
    anonymous_start ← !exact_fields self anonymous_node 2;
    source_scope ← !scalar_payload self anonymous_start COMPONENT_BYTES;
    target_scope ← !remap_anonymous_scope self source_scope;
    if bool_decide (source_scope = target_scope) then
      !Err (malformed "encoded anonymous scope-map chain does not bind the member source scope")
    else
      construct_kind ← foldM (mapped_root anonymous_node) None (range 0 (root_count self));
      construct_kind ← !ok_or construct_kind
        (unsupported "bounded anonymous-scope composite requires exactly one remapped construct per member");
      mret (construct_kind, source_scope, target_scope).
End scoped.
