(* ===== verification/Tail.v ===== *)
(** * The projections a composite owns

    [own_composite_tail_projection] of native/src/encoded_direct.rs and the
    functions it calls: a root of a table after the first is copied into an
    [OwnedOverlayDeltaProjection], with the identifiers its anonymous individuals
    have in the whole composite. *)

From S2P Require Import Prelude Errors Tags Text Readers Columns Nodes Properties Classes Swrl Graphs.
From S2P Require Import Sort Stats Rules Partial Workspace Planning Overlay Preparation Scoped.
Local Open Scope string_scope.
Local Open Scope list_scope.
Local Open Scope N_scope.

Abbreviation Projection := OwnedOverlayDeltaProjection.OwnedOverlayDeltaProjection (only parsing).

Definition LOCAL_EMITTING_OVERLAY_REQUIREMENT : string :=
  "bounded local-overlay emitting segment requires only supported SubClassOf, EquivalentClasses, ClassAssertion, or ObjectPropertyAssertion roots".

(** ** Projections of a local overlay *)

Section local.
Context (root_rule_plan : SelectedRootRulePlan) (root_index : usize) (columns : DirectColumns) (root : usize).

Definition validate_local_annotation_scope (annotation_field : usize) (constructor : string) : Cx unit :=
  '(_, annotation_count) ← !node_set_range columns annotation_field 0;
  if annotation_count =? 0 then mret tt else
  anonymous ← root_contains_anonymous_individual columns root;
  if anonymous : bool then
    !Err (unsupported ("bounded local-overlay " +:+ constructor
      +:+ " root annotations require no anonymous individuals or local scope remap"))
  else mret tt.

Definition own_local_subclass_projection (constructor : string) (projection : SubclassProjection)
    : Owned Projection :=
  field_start ← ⇑exact_fields columns root 3;
  _ ← uncharged (validate_local_annotation_scope (field_start +w 2) constructor);
  match projection with
  | Taxonomy source destination =>
      source ← own_text source;
      destination ← own_text destination;
      mret (OwnedOverlayDeltaProjection.Taxonomy source destination)
  | Restriction source relation destination =>
      source ← own_text source;
      relation ← own_text relation;
      destination ← own_text destination;
      mret (OwnedOverlayDeltaProjection.Restriction source relation destination)
  | SubclassIgnored => ⇑Err (unsupported LOCAL_EMITTING_OVERLAY_REQUIREMENT)
  end.

Definition own_local_class_assertion_projection (constructor : string) (projection : ClassAssertionProjection)
    : Owned Projection :=
  field_start ← ⇑exact_fields columns root 3;
  _ ← uncharged (validate_local_annotation_scope (field_start +w 2) constructor);
  match projection with
  | Edge_ individual _ class _ =>
      individual ← own_text individual;
      class ← own_text class;
      mret (OwnedOverlayDeltaProjection.ClassAssertion individual class)
  | ClassAssertionIgnored => ⇑Err (unsupported LOCAL_EMITTING_OVERLAY_REQUIREMENT)
  end.

Definition own_local_object_property_assertion_projection (constructor : string)
    (source : IndividualValue) (relation : text) (destination : IndividualValue) : Owned Projection :=
  field_start ← ⇑exact_fields columns root 4;
  _ ← uncharged (validate_local_annotation_scope (field_start +w 3) constructor);
  match source, destination with
  | Named source, Named destination =>
      source ← own_text source;
      relation ← own_text relation;
      destination ← own_text destination;
      mret (OwnedOverlayDeltaProjection.ObjectPropertyAssertion source relation destination 0)
  | _, _ =>
      ⇑Err (unsupported "bounded local-overlay ObjectPropertyAssertion root requires a named property and named individuals")
  end.

(** The operands of an aggregate; the state is the copies and the position. *)
Definition own_named_operand (st : list text * usize) (operand : PlannedAggregateNamedOperand)
    : Owned (list text * usize) :=
  let '(destinations, operand_index) := st in
  _ ← uncharged (check_cancel operand_index);
  destination ← own_text operand.(named_iri);
  mret (destinations ++ [destination], operand_index + 1).

Definition own_restriction_operand (st : list OwnedEquivalentRestriction * usize)
    (operand : PlannedAggregateRestrictionOperand) : Owned (list OwnedEquivalentRestriction * usize) :=
  let '(restrictions, restriction_index) := st in
  _ ← uncharged (check_cancel restriction_index);
  match operand.(restriction_projected) with
  | None => mret (restrictions, restriction_index + 1)
  | Some (relation, destination) =>
      relation ← own_text relation;
      destination ← own_text destination;
      mret (restrictions ++ [{| owned_relation := relation; owned_destination := destination |}],
            restriction_index + 1)
  end.

Definition own_local_equivalent_projection (constructor : string) (projection : EquivalentProjection)
    : Owned Projection :=
  field_start ← ⇑exact_fields columns root 2;
  _ ← uncharged (validate_local_annotation_scope (field_start +w 1) constructor);
  anonymous ← uncharged (root_contains_anonymous_individual columns root);
  if anonymous : bool then
    ⇑Err (unsupported "bounded local-overlay EquivalentClasses root requires no anonymous individuals or local scope remap")
  else
    match projection with
    | Pair source _ destination _ =>
        source ← own_text source;
        destination ← own_text destination;
        mret (OwnedOverlayDeltaProjection.EquivalentPair source destination)
    | EquivalentIgnored => mret OwnedOverlayDeltaProjection.IgnoredEquivalent
    | Aggregate source _ _ =>
        aggregate ← ⇑ok_or (aggregate_at root_rule_plan root_index)
          (malformed "encoded aggregate equivalent lost its planned operands");
        planned_named ← ⇑aggregate_named_operands root_rule_plan aggregate;
        planned_restrictions ← ⇑aggregate_restriction_operands root_rule_plan aggregate;
        _ ← reserve_owned (fun _ => size_of_String) (len planned_named);
        '(named_destinations, _) ← foldM own_named_operand ([], 0) planned_named;
        _ ← reserve_owned (@size_of_restriction) (len planned_restrictions);
        '(restrictions, _) ← foldM own_restriction_operand ([], 0) planned_restrictions;
        source ← own_text source;
        mret (OwnedOverlayDeltaProjection.EquivalentAggregate source named_destinations restrictions
                aggregate.(ignored_shapes))
    end.

Definition own_local_emitting_projection (rule : RootRule)
    (planned_shape : option PlannedRootShape.PlannedRootShape) : Owned Projection :=
  let constructor := rule.(rule_constructor) in
  match rule.(phase), rule.(handler), planned_shape with
  | EmissionPhase.Subclasses, RootRuleHandler.Subclass, Some (PlannedRootShape.Subclass projection) =>
      own_local_subclass_projection constructor projection
  | EmissionPhase.Equivalents, RootRuleHandler.EquivalentClasses,
    Some (PlannedRootShape.Equivalent projection) =>
      own_local_equivalent_projection constructor projection
  | EmissionPhase.ClassAssertions, RootRuleHandler.ClassAssertion,
    Some (PlannedRootShape.ClassAssertion projection) =>
      own_local_class_assertion_projection constructor projection
  | EmissionPhase.ObjectAssertions, RootRuleHandler.ObjectPropertyAssertion,
    Some (PlannedRootShape.ObjectPropertyAssertion source relation destination) =>
      own_local_object_property_assertion_projection constructor source relation destination
  | _, _, _ => ⇑Err (unsupported LOCAL_EMITTING_OVERLAY_REQUIREMENT)
  end.
End local.

(** ** Projections of a composite *)

Record DynamicTailContext := {
  scope_mapped_construct : option (scope_kind * usize);
  context_table : usize;
  context_anonymous_nodes : list CompositeNodeCoordinate;
}.

Definition own_composite_individual (value : IndividualValue) (table : usize)
    (composite_anonymous_nodes : list CompositeNodeCoordinate) : Owned text :=
  match value with
  | Named iri => own_text iri
  | Anonymous node_id =>
      position ← ⇑composite_anonymous_position composite_anonymous_nodes table node_id
        "encoded composite anonymous individual lost its global position";
      anonymous_identifier position
  end.

Section tail.
Context `{LowercaseTable} (rule : RootRule) (planned_shape : option PlannedRootShape.PlannedRootShape).
Context (root_rule_plan : SelectedRootRulePlan) (root_index : usize).
Context (columns : DirectColumns) (root max_iri_bytes : usize).

Definition lost_subclass : KernelError :=
  malformed "encoded subclass root lost its planned semantic shape".
Definition lost_property_class : KernelError :=
  malformed "encoded object-property class root lost its planned semantic shape".
Definition lost_object_assertion : KernelError :=
  malformed "encoded object-property assertion lost its planned semantic shape".
Definition lost_class_assertion : KernelError :=
  malformed "encoded class-assertion root lost its planned semantic shape".

(** The policies of a rule whose construct is remapped. *)
Definition valid_envelope : bool :=
  ((rule.(rule_root_kind) =? ROOT_AXIOM)
   && bool_decide (rule.(annotation_policy) = RootAnnotationPolicy.AxiomAnnotations)
   && bool_decide (rule.(anonymous_scope_policy) = RootAnonymousScopePolicy.AxiomDerived))
  || ((rule.(rule_root_kind) =? ROOT_ONTOLOGY_ANNOTATION)
   && bool_decide (rule.(handler) = RootRuleHandler.OntologyAnnotation)
   && bool_decide (rule.(annotation_policy) = RootAnnotationPolicy.NestedAnnotation)
   && bool_decide (rule.(anonymous_scope_policy) = RootAnonymousScopePolicy.ExcludedFromAxiomIds))
  || ((rule.(rule_root_kind) =? ROOT_EXTENSION)
   && bool_decide (rule.(handler) = RootRuleHandler.SwrlRule)
   && bool_decide (rule.(annotation_policy) = RootAnnotationPolicy.RuleAnnotations)
   && bool_decide (rule.(anonymous_scope_policy) = RootAnonymousScopePolicy.ExcludedFromAxiomIds)).

(** *** The remapped constructs *)

Definition own_mapped_annotation : outcome Projection :=
  _ ← validate_annotation columns root max_iri_bytes;
  start ← exact_fields columns root 3;
  value ← field_node columns (start +w 1);
  _ ← node_set_range columns (start +w 2) 0;
  tag ← node_tag columns value;
  if negb (tag =? TAG_ANONYMOUS_INDIVIDUAL) then
    Err (unsupported "bounded anonymous-scope ontology Annotation requires its anonymous value")
  else Ok OwnedOverlayDeltaProjection.SilentOntologyAnnotation.

Definition own_mapped_swrl : Cx Projection :=
  _ ← !validate_swrl_rule columns root;
  anonymous ← root_contains_anonymous_individual columns root;
  if negb anonymous then
    !Err (unsupported "bounded anonymous-scope SWRLRule must carry the member anonymous individual")
  else mret OwnedOverlayDeltaProjection.SilentSwrl.

(** Nothing for a named class axiom, which is owned as in an unmapped table. *)
Definition own_mapped_subclass : outcome (option Projection) :=
  let envelope := Err (unsupported "bounded anonymous-scope SubClassOf requires one named class and a singleton anonymous nominal or named-property ObjectHasValue carrying the anonymous individual") in
  match planned_shape with
  | Some (PlannedRootShape.Subclass (Taxonomy _ _)) => Ok None
  | Some (PlannedRootShape.Subclass SubclassIgnored) =>
      ignored ← is_scope_mapped_ignored_subclass columns root None max_iri_bytes;
      if ignored : bool then Ok (Some (OwnedOverlayDeltaProjection.IgnoredSubclass 1)) else envelope
  | Some (PlannedRootShape.Subclass (Restriction _ _ _)) => envelope
  | _ => Err lost_subclass
  end.

Definition own_mapped_property_class (kind : ObjectPropertyClassRuleKind.ObjectPropertyClassRuleKind)
    : outcome Projection :=
  projection ← match planned_shape with
    | Some (PlannedRootShape.ObjectPropertyClass projection) => Ok projection
    | _ => Err lost_property_class
    end;
  ignored ← match projection with
    | Some _ => Ok false
    | None => is_scope_mapped_ignored_object_property_class columns root rule.(rule_tag) None max_iri_bytes
    end;
  if negb ignored then
    Err (unsupported "bounded anonymous-scope object-property domain/range requires a named outer property and a singleton anonymous nominal or named-property ObjectHasValue carrying the anonymous individual")
  else Ok (OwnedOverlayDeltaProjection.IgnoredObjectPropertyClass kind 1).

(** A set of annotations that must be empty. *)
Definition no_annotations (annotation_field : usize) (message : string) : outcome unit :=
  '(_, annotation_count) ← node_set_range columns annotation_field 0;
  if negb (annotation_count =? 0) then Err (unsupported message) else Ok tt.

Definition own_mapped_object_assertion (position : usize) : Owned Projection :=
  field_start ← ⇑exact_fields columns root 4;
  _ ← ⇑no_annotations (field_start +w 3)
    "bounded anonymous-scope ObjectPropertyAssertion requires an empty annotation set";
  match planned_shape with
  | Some (PlannedRootShape.ObjectPropertyAssertion source relation destination) =>
      '(source, destination) ←
        match source, destination with
        | Anonymous _, Named destination =>
            source ← anonymous_identifier position;
            destination ← own_text destination;
            mret (source, destination)
        | Named source, Anonymous _ =>
            source ← own_text source;
            destination ← anonymous_identifier position;
            mret (source, destination)
        | _, _ =>
            ⇑Err (unsupported "bounded anonymous-scope ObjectPropertyAssertion requires exactly one anonymous endpoint")
        end;
      relation ← own_text relation;
      mret (OwnedOverlayDeltaProjection.ObjectPropertyAssertion source relation destination 1)
  | _ => ⇑Err lost_object_assertion
  end.

Definition own_mapped_negative_assertion : outcome Projection :=
  field_start ← exact_fields columns root 4;
  _ ← no_annotations (field_start +w 3)
    "bounded anonymous-scope NegativeObjectPropertyAssertion requires an empty annotation set";
  property ← field_node columns field_start;
  _ ← named_object_property_iri columns property max_iri_bytes;
  source_node ← field_node columns (field_start +w 1);
  source ← individual_value columns source_node max_iri_bytes;
  destination_node ← field_node columns (field_start +w 2);
  destination ← individual_value columns destination_node max_iri_bytes;
  if negb (one_anonymous_endpoint None source destination) then
    Err (unsupported "bounded anonymous-scope NegativeObjectPropertyAssertion requires exactly one anonymous endpoint")
  else Ok (OwnedOverlayDeltaProjection.IgnoredNegativeObjectPropertyAssertion 1).

Definition own_mapped_data_assertion : outcome Projection :=
  field_start ← exact_fields columns root 4;
  _ ← no_annotations (field_start +w 3)
    "bounded anonymous-scope data-property assertion requires an empty annotation set";
  property ← field_node columns field_start;
  _ ← named_data_property_iri columns property max_iri_bytes;
  source_node ← field_node columns (field_start +w 1);
  source ← individual_value columns source_node max_iri_bytes;
  literal ← field_node columns (field_start +w 2);
  _ ← validate_literal columns literal max_iri_bytes;
  match source with
  | Named _ =>
      Err (unsupported "bounded anonymous-scope data-property assertion requires an anonymous source")
  | Anonymous _ =>
      Ok (OwnedOverlayDeltaProjection.IgnoredDataPropertyAssertion 1
            (bool_decide (RootStatsEffect.counter rule.(stats_effect)
                          = RootCounter.NegativeDataPropertyAssertions)))
  end.

Definition member_count_step (st : usize * usize) (item_index : usize) : outcome (usize * usize) :=
  let '(anonymous_count, named_count) := st in
  item ← item_node columns item_index;
  value ← individual_value columns item max_iri_bytes;
  Ok (match value with
      | Anonymous _ => (anonymous_count +w 1, named_count)
      | Named _ => (anonymous_count, named_count +w 1)
      end).

Definition own_mapped_individual_set : outcome Projection :=
  _ ← validate_individual_set_axiom columns root rule.(rule_tag) max_iri_bytes;
  field_start ← exact_fields columns root 2;
  '(item_start, item_count) ← node_set_range columns field_start 2;
  '(_, annotation_count) ← node_set_range columns (field_start +w 1) 0;
  '(anonymous_count, named_count) ←
    foldM member_count_step (0, 0) (range item_start (item_start +w item_count));
  if negb (item_count =? 2) || negb (annotation_count =? 0) || negb (anonymous_count =? 1)
     || negb (named_count =? 1) then
    Err (unsupported "bounded anonymous-scope individual set requires one anonymous and one named member")
  else Ok (OwnedOverlayDeltaProjection.IgnoredIndividualSet 1
             (bool_decide (RootStatsEffect.counter rule.(stats_effect)
                           = RootCounter.DifferentIndividuals))).

Definition own_mapped_annotation_assertion : outcome Projection :=
  _ ← validate_annotation_assertion columns root max_iri_bytes;
  field_start ← exact_fields columns root 4;
  _ ← node_set_range columns (field_start +w 3) 0;
  subject ← field_node columns (field_start +w 1);
  subject_tag ← node_tag columns subject;
  value ← field_node columns (field_start +w 2);
  value_tag ← node_tag columns value;
  if Bool.eqb (subject_tag =? TAG_ANONYMOUS_INDIVIDUAL) (value_tag =? TAG_ANONYMOUS_INDIVIDUAL) then
    Err (unsupported "bounded anonymous-scope AnnotationAssertion requires exactly one anonymous subject or value")
  else Ok (OwnedOverlayDeltaProjection.IgnoredAnnotationAssertion 1).

Definition own_mapped_class_assertion : Owned Projection :=
  field_start ← ⇑exact_fields columns root 3;
  _ ← ⇑no_annotations (field_start +w 2)
    "bounded anonymous-scope ClassAssertion requires an empty annotation set";
  match planned_shape with
  | Some (PlannedRootShape.ClassAssertion (Edge_ individual _ class _)) =>
      individual ← own_text individual;
      class ← own_text class;
      mret (OwnedOverlayDeltaProjection.ClassAssertion individual class)
  | Some (PlannedRootShape.ClassAssertion ClassAssertionIgnored) =>
      ignored ← ⇑is_scope_mapped_ignored_class_assertion columns root None max_iri_bytes;
      if ignored : bool then mret (OwnedOverlayDeltaProjection.IgnoredClassAssertion 1)
      else ⇑Err (unsupported "bounded anonymous-scope composite supports only named-class assertions over one anonymous individual, singleton anonymous nominals over a named individual, or named-property ObjectHasValue expressions with an anonymous value over a named individual")
  | _ => ⇑Err lost_class_assertion
  end.

(** *** Other roots *)

Definition own_unmapped (context : DynamicTailContext) : Owned Projection :=
  match rule.(handler), planned_shape with
  | RootRuleHandler.ObjectPropertyClass, _ =>
      kind ← ⇑ok_or (ObjectPropertyClassRuleKind.from_effect rule.(domain_range_effect))
        (malformed "encoded object-property class rule lost its domain/range effect");
      match planned_shape with
      | Some (PlannedRootShape.ObjectPropertyClass (Some _)) =>
          mret (OwnedOverlayDeltaProjection.SilentRoot rule)
      | Some (PlannedRootShape.ObjectPropertyClass None) =>
          mret (OwnedOverlayDeltaProjection.IgnoredObjectPropertyClass kind 0)
      | _ => ⇑Err lost_property_class
      end
  | RootRuleHandler.ObjectPropertyAssertion,
    Some (PlannedRootShape.ObjectPropertyAssertion source relation destination) =>
      let own value := own_composite_individual value context.(context_table)
                         context.(context_anonymous_nodes) in
      source ← own source;
      relation ← own_text relation;
      destination ← own destination;
      mret (OwnedOverlayDeltaProjection.ObjectPropertyAssertion source relation destination 0)
  | RootRuleHandler.ObjectPropertyAssertion, _ => ⇑Err lost_object_assertion
  | RootRuleHandler.Subclass, Some (PlannedRootShape.Subclass SubclassIgnored) =>
      mret (OwnedOverlayDeltaProjection.IgnoredSubclass 0)
  | RootRuleHandler.ClassAssertion, Some (PlannedRootShape.ClassAssertion ClassAssertionIgnored) =>
      mret (OwnedOverlayDeltaProjection.IgnoredClassAssertion 0)
  | (RootRuleHandler.Subclass | RootRuleHandler.EquivalentClasses | RootRuleHandler.ClassAssertion), _ =>
      own_local_emitting_projection root_rule_plan root_index columns root rule planned_shape
  | _, _ => mret (OwnedOverlayDeltaProjection.SilentRoot rule)
  end.

(** The handler of the remapped construct, and what it owns. *)
Definition own_mapped (construct : scope_kind) (position : usize) : option (Owned (option Projection)) :=
  let whole (m : Owned Projection) : option (Owned (option Projection)) :=
    Some (projection ← m; mret (Some projection)) in
  match construct, rule.(handler) with
  | ScopeMappedCompositeKind.SilentOntologyAnnotation, RootRuleHandler.OntologyAnnotation =>
      whole (⇑own_mapped_annotation)
  | ScopeMappedCompositeKind.SilentSwrl, RootRuleHandler.SwrlRule => whole (uncharged own_mapped_swrl)
  | ScopeMappedCompositeKind.IgnoredSubclass, RootRuleHandler.Subclass => Some (⇑own_mapped_subclass)
  | ScopeMappedCompositeKind.PositiveObject, RootRuleHandler.ObjectPropertyAssertion =>
      whole (own_mapped_object_assertion position)
  | ScopeMappedCompositeKind.NegativeObject, RootRuleHandler.NegativeObjectPropertyAssertion =>
      whole (⇑own_mapped_negative_assertion)
  | (ScopeMappedCompositeKind.PositiveData | ScopeMappedCompositeKind.NegativeData),
    RootRuleHandler.DataPropertyAssertion => whole (⇑own_mapped_data_assertion)
  | (ScopeMappedCompositeKind.SameIndividual | ScopeMappedCompositeKind.DifferentIndividuals),
    RootRuleHandler.IndividualSet => whole (⇑own_mapped_individual_set)
  | ScopeMappedCompositeKind.SilentAnnotation, RootRuleHandler.AnnotationAssertion =>
      whole (⇑own_mapped_annotation_assertion)
  | ScopeMappedCompositeKind.IgnoredClass, RootRuleHandler.ClassAssertion =>
      whole own_mapped_class_assertion
  | ScopeMappedCompositeKind.IgnoredObjectPropertyDomain, _ =>
      match rule.(domain_range_effect) with
      | RootDomainRangeEffect.Domain => whole (⇑own_mapped_property_class ObjectPropertyClassRuleKind.Domain)
      | _ => None
      end
  | ScopeMappedCompositeKind.IgnoredObjectPropertyRange, _ =>
      match rule.(domain_range_effect) with
      | RootDomainRangeEffect.Range => whole (⇑own_mapped_property_class ObjectPropertyClassRuleKind.Range)
      | _ => None
      end
  | _, _ => None
  end.

Definition own_composite_tail_projection (context : DynamicTailContext) : Owned Projection :=
  let construct := context.(scope_mapped_construct) in
  if match construct with Some _ => negb valid_envelope | None => false end then
    ⇑Err (malformed "encoded structural root rule has the wrong annotation or anonymous-scope policy")
  else
    let general :=
      match construct with
      | None => own_unmapped context
      | Some (kind, position) =>
          match own_mapped kind position with
          | None => own_unmapped context
          | Some owned =>
              projection ← owned;
              match projection with Some projection => mret projection | None => own_unmapped context end
          end
      end in
    match rule.(dynamic_action), construct with
    | DynamicRootAction.Declaration, _ => mret OwnedOverlayDeltaProjection.SilentDeclaration
    | DynamicRootAction.AnnotationAssertion, Some (ScopeMappedCompositeKind.SilentAnnotation, _)
    | DynamicRootAction.General, _ => general
    | DynamicRootAction.AnnotationAssertion, _ =>
        _ ← ⇑validate_annotation_assertion columns root max_iri_bytes;
        mret (OwnedOverlayDeltaProjection.IgnoredAnnotationAssertion 0)
    end.
End tail.
