(* ===== verification/LocalRules.v ===== *)
(** * The rules of a local root

    [LocalRuleContext], [LocalAnonymousScopePolicy] and the three rule plans of
    native/src/encoded_direct.rs, and what
    [prepare_two_table_batches_uncommitted] asks of the single root of a local
    table that emits nothing, one definition per branch. *)

From S2P Require Import Prelude Errors Tags Text Readers Columns Nodes Properties Classes Graphs.
From S2P Require Import Stats Rules Planning Overlay Preparation Tail.
Local Open Scope string_scope.
Local Open Scope list_scope.
Local Open Scope N_scope.

Abbreviation class_kind := ObjectPropertyClassRuleKind.ObjectPropertyClassRuleKind (only parsing).

Record LocalRuleContext := {
  context_mode : LocalProjectionMode.LocalProjectionMode;
  context_include_literals : bool;
  context_max_iri_bytes : usize;
  local_scope_remap_available : bool;
}.

(** [LocalRuleContext::new]. *)
Definition local_rule_context (options : DirectCompileOptions) (remap_available : bool) : LocalRuleContext :=
  {| context_mode := mode_from_options options; context_include_literals := options.(include_literals);
     context_max_iri_bytes := options.(max_iri_bytes); local_scope_remap_available := remap_available |}.

Inductive LocalAnonymousScopePolicy := ExcludedByGrammar | RejectWithoutRemap.

(** [LocalAnonymousScopePolicy::validate]. *)
Definition validate_scope_policy (self : LocalAnonymousScopePolicy) (columns : DirectColumns) (root : usize)
    (context : LocalRuleContext) (root_description : string) : Cx unit :=
  match self with
  | ExcludedByGrammar => mret tt
  | RejectWithoutRemap =>
      if context.(local_scope_remap_available) then mret tt else
      anonymous ← root_contains_anonymous_individual columns root;
      if anonymous : bool then
        !Err (unsupported ("bounded local-overlay " +:+ root_description
          +:+ " root requires no anonymous individuals or local scope remap"))
      else mret tt
  end.

(** ** Domains and ranges *)

Definition is_ignored (self : class_kind) (counts : Counts.RootCounts) : bool :=
  match self with
  | ObjectPropertyClassRuleKind.Domain => counts.(Counts.ignored_object_property_domains) =? 1
  | ObjectPropertyClassRuleKind.Range => counts.(Counts.ignored_object_property_ranges) =? 1
  end.

Definition scope_description (self : class_kind) : string :=
  match self with
  | ObjectPropertyClassRuleKind.Domain => "ignored ObjectPropertyDomain"
  | ObjectPropertyClassRuleKind.Range => "ignored ObjectPropertyRange"
  end.

Record ObjectPropertyClassRulePlan := {
  class_root_rule : RootRule;
  class_rule_kind : class_kind;
  class_ignored : bool;
  retain_ignored_counter : bool;
}.

Definition class_from_root_rule (root_rule : RootRule) (counts : Counts.RootCounts)
    : option ObjectPropertyClassRulePlan :=
  if negb (bool_decide (root_rule.(handler) = RootRuleHandler.ObjectPropertyClass)) then None else
  kind ← ObjectPropertyClassRuleKind.from_effect root_rule.(domain_range_effect);
  Some {| class_root_rule := root_rule; class_rule_kind := kind; class_ignored := is_ignored kind counts;
          retain_ignored_counter := true |}.

(** A root must have no annotations. *)
Definition unannotated (columns : DirectColumns) (annotation_field : usize) (description : string)
    : outcome unit :=
  no_annotations columns annotation_field
    ("bounded local-overlay " +:+ description +:+ " root must be unannotated").

(** [ObjectPropertyClassRulePlan::validate]. *)
Definition validate_class_rule (self : ObjectPropertyClassRulePlan) (columns : DirectColumns) (root : usize)
    (projection : option (text * text)) (context : LocalRuleContext)
    : Cx (option (class_kind * text * text)) :=
  field_start ← !exact_fields columns root 3;
  _ ← !unannotated columns (field_start +w 2) self.(class_root_rule).(rule_constructor);
  if self.(class_ignored) then
    match projection with
    | Some _ => !Err (malformed "encoded local object-property class rule changed after classification")
    | None =>
        _ ← validate_scope_policy RejectWithoutRemap columns root context
              (scope_description self.(class_rule_kind));
        mret None
    end
  else
    match projection with
    | None => !Err (malformed "encoded local object-property class projection changed after classification")
    | Some (property, class) => mret (Some (self.(class_rule_kind), property, class))
    end.

(** [ObjectPropertyClassRulePlan::apply_statistics]. *)
Definition apply_class_statistics (self : ObjectPropertyClassRulePlan) (statistics : Stats.DirectCompileStats)
    : outcome Stats.DirectCompileStats :=
  statistics ← increment_statistics (RootStatsEffect.counter self.(class_root_rule).(stats_effect)) statistics;
  if self.(class_ignored) && self.(retain_ignored_counter) then
    match self.(class_rule_kind) with
    | ObjectPropertyClassRuleKind.Domain =>
        bump statistics.(Stats.ignored_object_property_domains)
          "encoded ignored-object-property-domain count overflow"
          (fun value => statistics <| Stats.ignored_object_property_domains := value |>)
    | ObjectPropertyClassRuleKind.Range =>
        bump statistics.(Stats.ignored_object_property_ranges)
          "encoded ignored-object-property-range count overflow"
          (fun value => statistics <| Stats.ignored_object_property_ranges := value |>)
    end
  else Ok statistics.

(** ** Roles *)

Inductive LocalRoleRuleKind := SimpleSubProperty | LocalPropertyChain | LocalInverseProperties.

Record LocalRoleRulePlan := {
  role_root_rule : RootRule;
  role_rule_kind : LocalRoleRuleKind;
  mutates_role_state : bool;
  retain_constructor_counter : bool;
  retain_chain_counter : bool;
}.

Definition role_from_root_rule (root_rule : RootRule) (counts : Counts.RootCounts) : option LocalRoleRulePlan :=
  let plan kind chain := Some {| role_root_rule := root_rule; role_rule_kind := kind;
    mutates_role_state := negb chain; retain_constructor_counter := true; retain_chain_counter := chain |} in
  match root_rule.(role_effect) with
  | RootRoleEffect.None => None
  | RootRoleEffect.SubPropertyOrChain =>
      if counts.(Counts.object_property_chains) =? 1 then plan LocalPropertyChain true
      else plan SimpleSubProperty false
  | RootRoleEffect.InverseProperties => plan LocalInverseProperties false
  end.

(** [LocalRoleRulePlan::validate]. *)
Definition validate_role_rule (self : LocalRoleRulePlan) (columns : DirectColumns) (root : usize)
    (planned_effect : option PlannedRoleEffect) (context : LocalRuleContext) : Cx (option RoleAxiom) :=
  field_start ← !exact_fields columns root 3;
  let constructor := self.(role_root_rule).(rule_constructor) in
  _ ← validate_local_annotation_scope columns root (field_start +w 2) constructor;
  _ ← validate_scope_policy ExcludedByGrammar columns root context constructor;
  match self.(mutates_role_state), planned_effect with
  | true, Some (Row row) =>
      mret (Some {| role_tag := row.(role_tag); role_first := row.(role_first);
                    role_second := row.(role_second); spread := row.(spread);
                    canonical_order := 0; source_order := 0 |})
  | false, Some PropertyChain => mret None
  | _, _ => !Err (malformed "encoded local role root lost its planned semantic effect")
  end.

(** [LocalRoleRulePlan::apply_statistics]. *)
Definition apply_role_statistics (self : LocalRoleRulePlan) (statistics : Stats.DirectCompileStats)
    : outcome Stats.DirectCompileStats :=
  statistics ←
    (if self.(retain_constructor_counter) then
       increment_statistics (RootStatsEffect.counter self.(role_root_rule).(stats_effect)) statistics
     else Ok statistics);
  if self.(retain_chain_counter) then
    bump statistics.(Stats.object_property_chains) "encoded object-property-chain count overflow"
      (fun value => statistics <| Stats.object_property_chains := value |>)
  else Ok statistics.

(** ** Annotations *)

Inductive LocalAnnotationRuleKind := LocalOntologyAnnotation | LocalAssertion.

Record LocalAnnotationRulePlan := {
  annotation_root_rule : RootRule;
  annotation_rule_kind : LocalAnnotationRuleKind;
  retain_counter : bool;
}.

Definition annotation_from_root_rule (root_rule : RootRule) : option LocalAnnotationRulePlan :=
  let plan kind := Some {| annotation_root_rule := root_rule; annotation_rule_kind := kind;
                           retain_counter := true |} in
  match root_rule.(handler) with
  | RootRuleHandler.OntologyAnnotation => plan LocalOntologyAnnotation
  | RootRuleHandler.AnnotationAssertion => plan LocalAssertion
  | _ => None
  end.

(** [LocalAnnotationRulePlan::validate]. *)
Definition validate_annotation_rule (self : LocalAnnotationRulePlan) (columns : DirectColumns) (root : usize)
    (context : LocalRuleContext) : Cx unit :=
  let constructor := self.(annotation_root_rule).(rule_constructor) in
  if context.(context_include_literals) then
    !Err (unsupported ("bounded local-overlay " +:+ constructor
      +:+ " root requires literal projection to remain disabled"))
  else
    let '(field_count, annotation_field_offset) :=
      match self.(annotation_rule_kind) with
      | LocalOntologyAnnotation => (3, 2)
      | LocalAssertion => (4, 3)
      end in
    field_start ← !exact_fields columns root field_count;
    annotation_field ← !ok_or (checked_add field_start annotation_field_offset)
      (resource "encoded local annotation field offset overflow");
    _ ← !node_set_range columns annotation_field 0;
    validate_scope_policy RejectWithoutRemap columns root context constructor.

(** [LocalAnnotationRulePlan::apply_statistics]. *)
Definition apply_annotation_statistics (self : LocalAnnotationRulePlan) (statistics : Stats.DirectCompileStats)
    : outcome Stats.DirectCompileStats :=
  if negb self.(retain_counter) then Ok statistics else
  statistics ← increment_statistics (RootStatsEffect.counter self.(annotation_root_rule).(stats_effect)) statistics;
  match self.(annotation_rule_kind) with
  | LocalOntologyAnnotation => Ok statistics
  | LocalAssertion =>
      bump statistics.(Stats.selected_annotation_assertions)
        "encoded selected-annotation-assertion count overflow"
        (fun value => statistics <| Stats.selected_annotation_assertions := value |>)
  end.

(** ** Silent roots *)

Section silent.
Context `{LowercaseTable} (columns : DirectColumns) (plan : SelectedRootRulePlan) (rule : RootRule).
Context (root_index root maximum : usize).

Abbreviation constructor := rule.(rule_constructor).
Abbreviation counter := (RootStatsEffect.counter rule.(stats_effect)).

Definition silent_declaration : Cx unit :=
  field_start ← !exact_fields columns root 2;
  entity_id ← !field_node columns field_start;
  '(_, iri_id) ← !entity columns entity_id;
  _ ← !iri columns iri_id maximum;
  validate_local_annotation_scope columns root (field_start +w 1) constructor.

(** A root of an ignored shape without anonymous individuals. *)
Definition no_anonymous_ids (description : string) : Cx unit :=
  ids ← axiom_anonymous_ids columns;
  if negb (is_empty ids.(node_ids)) then
    !Err (unsupported ("bounded local-overlay ignored " +:+ description
      +:+ " root requires no anonymous individuals or local scope remap"))
  else mret tt.

Definition silent_ignored_class : Cx unit :=
  field_start ← !exact_fields columns root 3;
  _ ← !unannotated columns (field_start +w 2) constructor;
  _ ← !(match rule.(handler), shape_at plan root_index with
        | RootRuleHandler.Subclass, Some (PlannedRootShape.Subclass SubclassIgnored)
        | RootRuleHandler.ClassAssertion, Some (PlannedRootShape.ClassAssertion ClassAssertionIgnored) => Ok tt
        | RootRuleHandler.Subclass, _ =>
            Err (malformed "encoded local-overlay ignored SubClassOf root changed projection")
        | RootRuleHandler.ClassAssertion, _ =>
            Err (malformed "encoded local-overlay ignored ClassAssertion root changed projection")
        | _, _ => Panic
        end);
  no_anonymous_ids constructor.

Definition silent_ignored_equivalent : Cx unit :=
  field_start ← !exact_fields columns root 2;
  '(_, item_count) ← !node_set_range columns field_start 2;
  if 3 <? item_count then
    !Err (unsupported "bounded local-overlay EquivalentClasses root requires a canonical binary or ternary ignored class-expression set")
  else
    _ ← !unannotated columns (field_start +w 1) "EquivalentClasses";
    match shape_at plan root_index with
    | Some (PlannedRootShape.Equivalent EquivalentIgnored) => no_anonymous_ids "EquivalentClasses"
    | _ => !Err (unsupported "bounded local-overlay EquivalentClasses root requires an ignored complete direct projection")
    end.

Definition silent_negative_assertion : outcome unit :=
  field_start ← exact_fields columns root 4;
  _ ← unannotated columns (field_start +w 3) "NegativeObjectPropertyAssertion";
  property ← field_node columns field_start;
  _ ← object_property_expression_iri columns property maximum;
  source_node ← field_node columns (field_start +w 1);
  source ← individual_value columns source_node maximum;
  destination_node ← field_node columns (field_start +w 2);
  destination ← individual_value columns destination_node maximum;
  match source, destination with
  | Named _, Named _ => Ok tt
  | _, _ =>
      Err (unsupported "bounded local-overlay NegativeObjectPropertyAssertion root requires named individuals")
  end.

(** A set of at most three items. *)
Definition small_set (field : usize) (items : string) : outcome (usize * usize) :=
  '(item_start, item_count) ← node_set_range columns field 2;
  if 3 <? item_count then
    Err (unsupported ("bounded local-overlay " +:+ constructor
      +:+ " root requires a canonical binary or ternary " +:+ items +:+ " set"))
  else Ok (item_start, item_count).

Definition silent_object_property : outcome unit :=
  field_start ← exact_fields columns root 2;
  _ ← (if bool_decide (counter ∈ [RootCounter.EquivalentObjectProperties; RootCounter.DisjointObjectProperties])
       then
         '(item_start, item_count) ← small_set field_start "object-property-expression";
         for_items columns item_start item_count (fun item =>
           ignore (object_property_expression columns item maximum))
       else
         property ← field_node columns field_start;
         ignore (object_property_expression columns property maximum));
  unannotated columns (field_start +w 1) constructor.

Definition silent_annotation_property : Cx unit :=
  _ ← !(match counter with
        | RootCounter.SubAnnotationProperties => validate_sub_annotation_property_of columns root maximum
        | RootCounter.AnnotationPropertyDomains =>
            validate_annotation_property_iri_axiom columns root TAG_ANNOTATION_PROPERTY_DOMAIN maximum
        | RootCounter.AnnotationPropertyRanges =>
            validate_annotation_property_iri_axiom columns root TAG_ANNOTATION_PROPERTY_RANGE maximum
        | _ => Panic
        end);
  field_start ← !exact_fields columns root 3;
  validate_local_annotation_scope columns root (field_start +w 2) constructor.

Definition silent_disjointness : outcome unit :=
  '(item_count, annotation_field) ←
    match counter with
    | RootCounter.DisjointClasses =>
        _ ← validate_disjoint_classes columns root maximum;
        field_start ← exact_fields columns root 2;
        '(_, item_count) ← node_set_range columns field_start 2;
        Ok (item_count, field_start +w 1)
    | RootCounter.DisjointUnions =>
        _ ← validate_disjoint_union columns root maximum;
        field_start ← exact_fields columns root 3;
        '(_, item_count) ← node_set_range columns (field_start +w 1) 2;
        Ok (item_count, field_start +w 2)
    | _ => Panic
    end;
  if 3 <? item_count then
    Err (unsupported ("bounded local-overlay " +:+ constructor
      +:+ " root requires a canonical binary or ternary class-expression set"))
  else unannotated columns annotation_field constructor.

Definition silent_data_assertion : outcome unit :=
  let description :=
    if bool_decide (counter = RootCounter.DataPropertyAssertions) then "DataPropertyAssertion"
    else "NegativeDataPropertyAssertion" in
  field_start ← exact_fields columns root 4;
  _ ← unannotated columns (field_start +w 3) description;
  property ← field_node columns field_start;
  _ ← named_data_property_iri columns property maximum;
  source_node ← field_node columns (field_start +w 1);
  source ← individual_value columns source_node maximum;
  match source with
  | Anonymous _ =>
      Err (unsupported ("bounded local-overlay " +:+ description +:+ " root requires a named individual"))
  | Named _ =>
      literal ← field_node columns (field_start +w 2);
      validate_literal columns literal maximum
  end.

Definition silent_sub_data_property : outcome unit :=
  field_start ← exact_fields columns root 3;
  _ ← unannotated columns (field_start +w 2) "SubDataPropertyOf";
  sub ← field_node columns field_start;
  _ ← named_data_property_iri columns sub maximum;
  super ← field_node columns (field_start +w 1);
  ignore (named_data_property_iri columns super maximum).

Definition silent_data_property_set (description : string) : outcome unit :=
  field_start ← exact_fields columns root 2;
  '(item_start, item_count) ← node_set_range columns field_start 2;
  _ ← unannotated columns (field_start +w 1) description;
  for_items columns item_start item_count (fun item => ignore (named_data_property_iri columns item maximum)).

Definition silent_data_domain : outcome unit :=
  field_start ← exact_fields columns root 3;
  property ← field_node columns field_start;
  _ ← named_data_property_iri columns property maximum;
  class ← field_node columns (field_start +w 1);
  _ ← class_expression_rank columns class maximum;
  unannotated columns (field_start +w 2) "DataPropertyDomain".

Definition silent_data_range : outcome unit :=
  field_start ← exact_fields columns root 3;
  property ← field_node columns field_start;
  _ ← named_data_property_iri columns property maximum;
  data_range ← field_node columns (field_start +w 1);
  _ ← validate_data_range_node columns data_range maximum;
  unannotated columns (field_start +w 2) "DataPropertyRange".

Definition silent_functional_data : outcome unit :=
  field_start ← exact_fields columns root 2;
  property ← field_node columns field_start;
  _ ← named_data_property_iri columns property maximum;
  unannotated columns (field_start +w 1) "FunctionalDataProperty".

Definition silent_datatype : outcome unit :=
  field_start ← exact_fields columns root 3;
  datatype ← field_node columns field_start;
  _ ← named_datatype_iri columns datatype maximum;
  data_range ← field_node columns (field_start +w 1);
  _ ← validate_data_range_node columns data_range maximum;
  unannotated columns (field_start +w 2) "DatatypeDefinition".

Definition silent_has_key : outcome unit :=
  field_start ← exact_fields columns root 4;
  class ← field_node columns field_start;
  _ ← class_expression_rank columns class maximum;
  '(object_start, object_count) ← node_set_range columns (field_start +w 1) 0;
  _ ← for_items columns object_start object_count (fun item =>
        ignore (object_property_expression columns item maximum));
  '(data_start, data_count) ← node_set_range columns (field_start +w 2) 0;
  _ ← for_items columns data_start data_count (fun item =>
        ignore (named_data_property_iri columns item maximum));
  if (object_count =? 0) && (data_count =? 0) then
    Err (malformed "encoded HasKey requires at least one property")
  else unannotated columns (field_start +w 3) "HasKey".

Definition silent_individual_set : outcome unit :=
  field_start ← exact_fields columns root 2;
  '(item_start, item_count) ← small_set field_start "named-individual";
  _ ← unannotated columns (field_start +w 1) constructor;
  for_items columns item_start item_count (fun item =>
    value ← individual_value columns item maximum;
    match value with
    | Named _ => Ok tt
    | Anonymous _ =>
        Err (unsupported ("bounded local-overlay " +:+ constructor +:+ " root requires named individuals"))
    end).

(** The branches after the rule plans, in the code's order. *)
Definition silent_root : Cx unit :=
  if bool_decide (rule.(handler) = RootRuleHandler.NegativeObjectPropertyAssertion) then
    !silent_negative_assertion
  else if bool_decide (counter ∈ [RootCounter.EquivalentObjectProperties; RootCounter.DisjointObjectProperties;
      RootCounter.FunctionalObjectProperties; RootCounter.InverseFunctionalObjectProperties;
      RootCounter.ReflexiveObjectProperties; RootCounter.IrreflexiveObjectProperties;
      RootCounter.SymmetricObjectProperties; RootCounter.AsymmetricObjectProperties;
      RootCounter.TransitiveObjectProperties]) then !silent_object_property
  else if bool_decide (counter ∈ [RootCounter.SubAnnotationProperties; RootCounter.AnnotationPropertyDomains;
      RootCounter.AnnotationPropertyRanges]) then silent_annotation_property
  else if bool_decide (counter ∈ [RootCounter.DisjointClasses; RootCounter.DisjointUnions]) then
    !silent_disjointness
  else if bool_decide (rule.(handler) = RootRuleHandler.DataPropertyAssertion) then !silent_data_assertion
  else match counter with
    | RootCounter.SubDataProperties => !silent_sub_data_property
    | RootCounter.EquivalentDataProperties => !silent_data_property_set "EquivalentDataProperties"
    | RootCounter.DisjointDataProperties => !silent_data_property_set "DisjointDataProperties"
    | RootCounter.DataPropertyDomains => !silent_data_domain
    | RootCounter.DataPropertyRanges => !silent_data_range
    | RootCounter.FunctionalDataProperties => !silent_functional_data
    | RootCounter.DatatypeDefinitions => !silent_datatype
    | RootCounter.HasKeys => !silent_has_key
    | _ =>
        if bool_decide (rule.(handler) = RootRuleHandler.IndividualSet) then !silent_individual_set
        else !Err (unsupported "bounded local-overlay root must be one supported state-neutral ontology Annotation or AnnotationAssertion, unannotated Declaration, supported named or ignored-shape SubClassOf, named or ignored-shape ClassAssertion, ignored-shape EquivalentClasses, named or ignored-shape ObjectPropertyDomain or ObjectPropertyRange, supported local SubObjectPropertyOf or InverseObjectProperties, named ObjectPropertyAssertion, named-individual NegativeObjectPropertyAssertion, supported silent object-property axiom, supported silent annotation-property axiom, supported silent class-disjointness axiom, named-source data-property assertion, named SubDataPropertyOf, named EquivalentDataProperties, named DisjointDataProperties, named-property DataPropertyDomain, named-property DataPropertyRange, named FunctionalDataProperty, named DatatypeDefinition, supported HasKey, named SameIndividual, or named DifferentIndividuals axiom")
    end.
End silent.
