(* ===== verification/Preflight.v ===== *)
(** * The preflight: edge counts and the preparation of a batch run

    The counting passes of native/src/encoded_direct.rs and [prepare_direct],
    which validates the columns, plans the roots, builds the role state and
    counts every edge before one is emitted. *)

From S2P Require Import Prelude Errors Tags Text Readers Columns Nodes Properties Classes Generic.
From S2P Require Import Graphs Sort Stats Rules Planning Provenance Roles Emission Overlay Preparation.
Local Open Scope string_scope.
Local Open Scope list_scope.
Local Open Scope N_scope.

Record EquivalentEdgeCounts := {
  equivalent_edges : usize;
  base_role_edges : usize;
  expanded_role_edges : usize;
  equivalent_ignored_shapes : usize;
}.

#[export] Instance EquivalentEdgeCounts_eta : Eta EquivalentEdgeCounts := fun c =>
  {| equivalent_edges := c.(equivalent_edges); base_role_edges := c.(base_role_edges);
     expanded_role_edges := c.(expanded_role_edges);
     equivalent_ignored_shapes := c.(equivalent_ignored_shapes) |}.

Definition EquivalentEdgeCounts_default : EquivalentEdgeCounts :=
  {| equivalent_edges := 0; base_role_edges := 0; expanded_role_edges := 0;
     equivalent_ignored_shapes := 0 |}.

Record AnnotationEdgeCounts := {
  annotation_edges : usize;
  non_string_literals : usize;
}.

Definition AnnotationEdgeCounts_default : AnnotationEdgeCounts :=
  {| annotation_edges := 0; non_string_literals := 0 |}.

(** [for (index, x) in l.iter().enumerate()] with a poll per element. *)
Definition enumerate_checked {A S} (f : S -> A -> Cx S) (s : S) (l : list A) : Cx S :=
  '(s, _) ← foldM (fun st x =>
    let '(s, index) := st in
    _ ← check_cancel index;
    s ← f s x;
    mret (s, index + 1)) (s, 0) l;
  mret s.

Section preflight.
Context `{LowercaseTable} (self : DirectColumns).

(** ** The role state *)

Definition collect_row (rows : list RoleAxiom) (planned : PlannedRoleRoot) : Cx (list RoleAxiom) :=
  mret (match planned.(effect) with PropertyChain => rows | Row row => rows ++ [row] end).

Definition is_tag (local_axiom : option RoleAxiom) (tag : u16) : bool :=
  match local_axiom with Some axiom => axiom.(role_tag) =? tag | None => false end.

(** [DirectColumns::build_role_state]. *)
Definition build_role_state (counts : Counts.RootCounts) (maximum_iri : usize)
    (retained : option RoleState) (plan : SelectedRootRulePlan) (local_axiom : option RoleAxiom)
    : Cx RoleState :=
  planned_axioms ← !role_axioms counts;
  role_axiom_count ← !ok_or (checked_add planned_axioms (if local_axiom then 1 else 0))
    (resource "encoded role-axiom count overflow");
  rows ← enumerate_checked collect_row [] plan.(role_roots);
  let rows := match local_axiom with Some axiom => rows ++ [axiom] | None => rows end in
  row_count ← !ok_or (checked_add (len rows) counts.(Counts.object_property_chains))
    (resource "encoded role-row count overflow");
  if negb (row_count =? role_axiom_count) then
    !Err (malformed "encoded role-axiom count changed after successful preflight") else
  let local_subrole_axioms := if is_tag local_axiom TAG_SUB_OBJECT_PROPERTY_OF then 1 else 0 in
  let local_inverse_axioms := if is_tag local_axiom TAG_INVERSE_OBJECT_PROPERTIES then 1 else 0 in
  subrole_axioms ← !ok_or
    (count ← checked_sub counts.(Counts.sub_object_properties) counts.(Counts.object_property_chains);
     checked_add count local_subrole_axioms)
    (malformed "encoded role counters are inconsistent");
  inverse_axioms ← !ok_or (checked_add counts.(Counts.inverse_object_properties) local_inverse_axioms)
    (resource "encoded inverse-role capacity overflow");
  build_role_state_from_rows rows role_axiom_count subrole_axioms inverse_axioms retained maximum_iri.

(** ** Equivalent classes *)

Definition add_edges (counts : EquivalentEdgeCounts) (amount : usize) (message : string)
    : outcome EquivalentEdgeCounts :=
  edges ← ok_or (checked_add counts.(equivalent_edges) amount) (resource message);
  Ok (counts <| equivalent_edges := edges |>).

Definition add_ignored (counts : EquivalentEdgeCounts) (amount : usize)
    : outcome EquivalentEdgeCounts :=
  ignored ← ok_or (checked_add counts.(equivalent_ignored_shapes) amount)
    (resource "encoded equivalent ignored-shape count overflow");
  Ok (counts <| equivalent_ignored_shapes := ignored |>).

Definition restriction_operand_count (role_state : RoleState) (counts : EquivalentEdgeCounts)
    (operand : PlannedAggregateRestrictionOperand) : Cx EquivalentEdgeCounts :=
  match operand.(restriction_projected) with
  | None => mret counts
  | Some (relation, _) =>
      expanded ← !edge_count role_state relation;
      counts ← !add_edges counts expanded "encoded aggregate restriction edge-count overflow";
      base ← !ok_or (checked_add counts.(base_role_edges) 1)
        (resource "encoded aggregate base-role count overflow");
      total ← !ok_or (checked_add counts.(expanded_role_edges) expanded)
        (resource "encoded aggregate expanded-role count overflow");
      mret (counts <| base_role_edges := base |> <| expanded_role_edges := total |>)
  end.

Definition aggregate_count (plan : SelectedRootRulePlan) (role_state : RoleState)
    (directions : usize) (only_taxonomy : bool) (counts : EquivalentEdgeCounts)
    (aggregate : PlannedAggregateRoot) : Cx EquivalentEdgeCounts :=
  named_operands ← !aggregate_named_operands plan aggregate;
  counts ← enumerate_checked (fun counts _ =>
    !add_edges counts directions "encoded aggregate taxonomy edge-count overflow")
    counts named_operands;
  if only_taxonomy then mret counts else
  counts ← !add_ignored counts aggregate.(ignored_shapes);
  restriction_operands ← !aggregate_restriction_operands plan aggregate;
  enumerate_checked (restriction_operand_count role_state) counts restriction_operands.

(** A pass over the selected roots whose rule [wanted] accepts. *)
Definition for_selected {S} (plan : SelectedRootRulePlan) (wanted : RootRule -> bool)
    (f : S -> usize -> option PlannedRootShape.PlannedRootShape -> Cx S) (s : S) : Cx S :=
  foldM (fun s root_index =>
    _ ← check_cancel root_index;
    selected ← !root_is_selected self root_index;
    if negb selected then mret s else
    rule ← !rule_at plan root_index;
    if negb (wanted rule) then mret s else f s root_index (shape_at plan root_index))
    s (range 0 (root_count self)).

Definition has_handler (expected : RootRuleHandler.RootRuleHandler) (rule : RootRule) : bool :=
  bool_decide (rule.(handler) = expected).

Definition equivalent_edge_counts (plan : SelectedRootRulePlan) (role_state : RoleState)
    (directions : usize) (only_taxonomy : bool) : Cx EquivalentEdgeCounts :=
  for_selected plan (has_handler RootRuleHandler.EquivalentClasses) (fun counts root_index shape =>
    match shape with
    | Some (PlannedRootShape.Equivalent projection) =>
        match projection with
        | Pair _ _ _ _ =>
            !add_edges counts directions "encoded equivalent edge-count overflow"
        | Aggregate _ _ _ =>
            aggregate ← !ok_or (aggregate_at plan root_index)
              (malformed "encoded aggregate equivalent lost its planned operands");
            aggregate_count plan role_state directions only_taxonomy counts aggregate
        | EquivalentIgnored => !add_ignored counts 1
        end
    | _ => !Err (malformed "encoded equivalent root lost its planned semantic shape")
    end) EquivalentEdgeCounts_default.

(** ** Annotations *)

Definition count_annotation (counts : AnnotationEdgeCounts) (projection : option AnnotationProjection)
    : outcome AnnotationEdgeCounts :=
  match projection with
  | None => Ok counts
  | Some projection =>
      edges ← ok_or (checked_add counts.(annotation_edges) 1)
        (resource "encoded annotation edge-count overflow");
      literals ←
        match projection.(annotation_projected) with
        | Typed _ _ => ok_or (checked_add counts.(non_string_literals) 1)
                         (resource "encoded non-string annotation-literal count overflow")
        | _ => Ok counts.(non_string_literals)
        end;
      Ok {| annotation_edges := edges; non_string_literals := literals |}
  end.

Definition annotation_edge_counts (rule_indexes : list u8) (maximum_iri : usize)
    : Cx AnnotationEdgeCounts :=
  foldM (fun counts root_index =>
    _ ← check_cancel root_index;
    selected ← !root_is_selected self root_index;
    if negb selected then mret counts else
    node_id ← !root_id self root_index;
    rule ← !resolved_root_rule_at rule_indexes root_index;
    if negb (has_handler RootRuleHandler.AnnotationAssertion rule) then mret counts else
    projection ← annotation_projection self node_id maximum_iri;
    !count_annotation counts projection) AnnotationEdgeCounts_default (range 0 (root_count self)).

Definition selected_annotation_edge_counts (selected_roots : list usize) (maximum_iri : usize)
    : Cx AnnotationEdgeCounts :=
  enumerate_checked (fun counts node_id =>
    projection ← annotation_projection self node_id maximum_iri;
    !count_annotation counts projection) AnnotationEdgeCounts_default selected_roots.

(** ** Restrictions, domains and ranges *)

Definition restriction_role_edge_count (plan : SelectedRootRulePlan) (role_state : RoleState)
    : Cx usize :=
  for_selected plan (has_handler RootRuleHandler.Subclass) (fun count root_index shape =>
    match shape with
    | Some (PlannedRootShape.Subclass projection) =>
        match projection with
        | Restriction _ relation _ =>
            edges ← !edge_count role_state relation;
            !ok_or (checked_add count edges) (resource "encoded restriction edge-count overflow")
        | _ => mret count
        end
    | _ => !Err (malformed "encoded subclass root lost its planned semantic shape")
    end) 0.

Definition has_effect (expected : RootDomainRangeEffect.RootDomainRangeEffect) (rule : RootRule)
    : bool := bool_decide (rule.(domain_range_effect) = expected).

(** The pairs of a domain and a range axiom of one property, and their edges. *)
Definition domain_range_edge_count (plan : SelectedRootRulePlan) (role_state : RoleState)
    : Cx (usize * usize) :=
  let overflow := resource "encoded domain/range edge-count overflow" in
  for_selected plan (has_effect RootDomainRangeEffect.Domain) (fun st domain_index shape =>
    match shape with
    | Some (PlannedRootShape.ObjectPropertyClass None) => mret st
    | Some (PlannedRootShape.ObjectPropertyClass (Some (domain_property, _))) =>
        for_selected plan (has_effect RootDomainRangeEffect.Range) (fun st range_index shape =>
          match shape with
          | Some (PlannedRootShape.ObjectPropertyClass None) => mret st
          | Some (PlannedRootShape.ObjectPropertyClass (Some (range_property, _))) =>
              if negb (bool_decide (domain_property = range_property)) then mret st else
              let '(products, edges) := (st : usize * usize) in
              products ← !ok_or (checked_add products 1) overflow;
              count ← !edge_count role_state domain_property;
              edges ← !ok_or (checked_add edges count) overflow;
              mret (products, edges)
          | _ => !Err (malformed "encoded object-property range lost its planned semantic shape")
          end) st
    | _ => !Err (malformed "encoded object-property domain lost its planned semantic shape")
    end) (0, 0).
End preflight.

(** ** [prepare_direct] *)

Section prepare.
Context `{LowercaseTable} (self : DirectColumns).

(** The plan given, checked against its table, or a new one. *)
Definition root_plan (maximum : usize) (preclassified : option SelectedRootRulePlan)
    : Cx SelectedRootRulePlan :=
  match preclassified with
  | Some plan =>
      let mismatch :=
        Err (malformed "encoded structural root-rule plan does not match its base table") in
      !(if negb (len plan.(rule_indexes) =? root_count self) then mismatch else
        selected ← selected_root_count self;
        if negb (plan.(selected_roots_planned) =? selected) then mismatch else Ok plan)
  | None => resolve_selected_root_rule_plan_unbounded self maximum
  end.

(** The annotation assertions of the root document, in the closure's table. *)
Definition root_annotations (maximum : usize) (plan : SelectedRootRulePlan)
    (root_annotation_columns : option DirectColumns) : Cx (option (list usize)) :=
  match root_annotation_columns with
  | None => mret None
  | Some root_columns =>
      _ ← validate_generic root_columns;
      _ ← validate_supported_nodes root_columns maximum;
      root_plan ← resolve_selected_root_rule_plan_unbounded root_columns maximum;
      selected ← select_root_annotation_nodes self plan.(rule_indexes) root_columns
                   root_plan.(rule_indexes);
      if negb (len selected =? root_plan.(counts).(Counts.annotation_assertions)) then
        !Err (malformed "encoded root annotation selection count changed after preflight")
      else mret (Some selected)
  end.

Definition prepare_role_state (options : DirectCompileOptions) (plan : SelectedRootRulePlan)
    (retained role_state_override : option RoleState) (local_role_axiom : option RoleAxiom)
    : Cx RoleState :=
  if options.(asserted_taxonomy_only) then mret RoleState_default else
  match role_state_override with
  | Some role_state =>
      if local_role_axiom then
        !Err (malformed "encoded role-state override cannot carry a local role row")
      else mret role_state
  | None => build_role_state plan.(counts) options.(max_iri_bytes) retained plan local_role_axiom
  end.

Definition prepare_annotation_counts (options : DirectCompileOptions) (plan : SelectedRootRulePlan)
    (selected_annotation_nodes : option (list usize)) : Cx AnnotationEdgeCounts :=
  if options.(asserted_taxonomy_only) || negb options.(include_literals) then
    mret AnnotationEdgeCounts_default else
  match selected_annotation_nodes with
  | Some selected => selected_annotation_edge_counts self selected options.(max_iri_bytes)
  | None => annotation_edge_counts self plan.(rule_indexes) options.(max_iri_bytes)
  end.

(** What the counting passes found, before it is added up. *)
Record EdgeTotals := {
  direct_taxonomy_edges : usize;
  equivalent_totals : EquivalentEdgeCounts;
  subclass_restriction_edges : usize;
  annotation_totals : AnnotationEdgeCounts;
  class_assertion_edges : usize;
  object_assertion_edges : usize;
  domain_range_products : usize;
  expanded_domain_range_edges : usize;
  skipped_axioms_total : usize;
}.

Definition count_edges (options : DirectCompileOptions) (plan : SelectedRootRulePlan)
    (role_state : RoleState) (selected_annotation_nodes : option (list usize))
    : Cx EdgeTotals :=
  let counts := plan.(counts) in
  let asserted := options.(asserted_taxonomy_only) in
  let taxonomy := options.(only_taxonomy) in
  let directions := directions options in
  direct_subclasses ← !ok_or
    (count ← checked_sub counts.(Counts.subclasses) counts.(Counts.restriction_subclasses);
     checked_sub count counts.(Counts.ignored_subclasses))
    (malformed "encoded subclass counters are inconsistent");
  direct_taxonomy ← !ok_or (checked_mul direct_subclasses directions)
    (resource "encoded edge-count overflow");
  equivalent ← (if asserted then mret EquivalentEdgeCounts_default
                else equivalent_edge_counts self plan role_state directions taxonomy);
  _ ← !(equivalent_role_expansion ← ok_or
          (checked_sub equivalent.(expanded_role_edges) equivalent.(base_role_edges))
          (malformed "encoded equivalent role-edge counters are inconsistent");
        ok_or (checked_sub equivalent.(equivalent_edges) equivalent_role_expansion)
          (malformed "encoded equivalent edge counters are inconsistent"));
  restrictions ← (if asserted || taxonomy then mret 0
                  else restriction_role_edge_count self plan role_state);
  class_assertions ← !(if asserted then Ok 0 else
    ok_or (checked_sub counts.(Counts.class_assertions) counts.(Counts.ignored_class_assertions))
      (malformed "encoded class-assertion counters are inconsistent"));
  annotations ← prepare_annotation_counts options plan selected_annotation_nodes;
  skipped ← (if asserted then mret 0 else skipped_axioms plan options);
  '(products, expanded) ←
    (if asserted then mret (0, 0) else domain_range_edge_count self plan role_state);
  mret {| direct_taxonomy_edges := direct_taxonomy; equivalent_totals := equivalent;
          subclass_restriction_edges := restrictions; annotation_totals := annotations;
          class_assertion_edges := class_assertions;
          object_assertion_edges :=
            if asserted then 0 else counts.(Counts.object_property_assertions);
          domain_range_products := products; expanded_domain_range_edges := expanded;
          skipped_axioms_total := skipped |}.

(** The edges that role expansion added to the base relations. *)
Definition role_expansion_total (options : DirectCompileOptions) (counts : Counts.RootCounts)
    (totals : EdgeTotals) : outcome usize :=
  base ←
    (if options.(asserted_taxonomy_only) then Ok 0 else
     ok_or (count ← checked_add totals.(domain_range_products)
                      (if options.(only_taxonomy) then 0
                       else counts.(Counts.restriction_subclasses));
            checked_add count totals.(equivalent_totals).(base_role_edges))
       (resource "encoded base role-edge count overflow"));
  expanded ← ok_or
    (count ← checked_add totals.(subclass_restriction_edges) totals.(expanded_domain_range_edges);
     checked_add count totals.(equivalent_totals).(expanded_role_edges))
    (resource "encoded expanded role-edge count overflow");
  ok_or (checked_sub expanded base) (malformed "encoded role-expansion counters are inconsistent").

Definition projected_edges (totals : EdgeTotals) : outcome usize :=
  ok_or
    (total ← checked_add totals.(direct_taxonomy_edges) totals.(equivalent_totals).(equivalent_edges);
     total ← checked_add total totals.(subclass_restriction_edges);
     total ← checked_add total totals.(annotation_totals).(annotation_edges);
     total ← checked_add total totals.(class_assertion_edges);
     total ← checked_add total totals.(object_assertion_edges);
     checked_add total totals.(expanded_domain_range_edges))
    (resource "encoded edge-count overflow").

Definition direct_statistics (roots : usize) (anonymous_ids : AnonymousIds)
    (counts : Counts.RootCounts) (totals : EdgeTotals)
    (selected_annotation_assertions role_expansion_edges projected buffer_bytes
     root_provenance_buffer_bytes : usize) : Stats.DirectCompileStats :=
  let equivalent_counts := totals.(equivalent_totals) in
  let annotation_counts := totals.(annotation_totals) in
  let equivalent_base_edges :=
    equivalent_counts.(equivalent_edges)
    - (equivalent_counts.(expanded_role_edges) - equivalent_counts.(base_role_edges)) in
  let skipped_axioms := totals.(skipped_axioms_total) in
  let domain_range_edges := totals.(domain_range_products) in
  {|
    Stats.roots := roots;
    Stats.nodes := node_count self;
    Stats.anonymous_individuals := len anonymous_ids.(node_ids);
    Stats.ontology_annotations := counts.(Counts.ontology_annotations);
    Stats.swrl_rules := counts.(Counts.swrl_rules);
    Stats.declarations := counts.(Counts.declarations);
    Stats.subclasses := counts.(Counts.subclasses);
    Stats.restriction_subclasses := counts.(Counts.restriction_subclasses);
    Stats.ignored_subclasses := counts.(Counts.ignored_subclasses);
    Stats.equivalents := counts.(Counts.equivalents);
    Stats.aggregate_equivalents := counts.(Counts.aggregate_equivalents);
    Stats.equivalent_base_edges := equivalent_base_edges;
    Stats.ignored_equivalents := equivalent_counts.(equivalent_ignored_shapes);
    Stats.disjoint_classes := counts.(Counts.disjoint_classes);
    Stats.disjoint_unions := counts.(Counts.disjoint_unions);
    Stats.has_keys := counts.(Counts.has_keys);
    Stats.same_individuals := counts.(Counts.same_individuals);
    Stats.different_individuals := counts.(Counts.different_individuals);
    Stats.class_assertions := counts.(Counts.class_assertions);
    Stats.ignored_class_assertions := counts.(Counts.ignored_class_assertions);
    Stats.object_property_assertions := counts.(Counts.object_property_assertions);
    Stats.negative_object_property_assertions := counts.(Counts.negative_object_property_assertions);
    Stats.sub_object_properties := counts.(Counts.sub_object_properties);
    Stats.object_property_chains := counts.(Counts.object_property_chains);
    Stats.equivalent_object_properties := counts.(Counts.equivalent_object_properties);
    Stats.disjoint_object_properties := counts.(Counts.disjoint_object_properties);
    Stats.inverse_object_properties := counts.(Counts.inverse_object_properties);
    Stats.functional_object_properties := counts.(Counts.functional_object_properties);
    Stats.inverse_functional_object_properties := counts.(Counts.inverse_functional_object_properties);
    Stats.reflexive_object_properties := counts.(Counts.reflexive_object_properties);
    Stats.irreflexive_object_properties := counts.(Counts.irreflexive_object_properties);
    Stats.symmetric_object_properties := counts.(Counts.symmetric_object_properties);
    Stats.asymmetric_object_properties := counts.(Counts.asymmetric_object_properties);
    Stats.transitive_object_properties := counts.(Counts.transitive_object_properties);
    Stats.sub_data_properties := counts.(Counts.sub_data_properties);
    Stats.equivalent_data_properties := counts.(Counts.equivalent_data_properties);
    Stats.disjoint_data_properties := counts.(Counts.disjoint_data_properties);
    Stats.data_property_domains := counts.(Counts.data_property_domains);
    Stats.data_property_ranges := counts.(Counts.data_property_ranges);
    Stats.functional_data_properties := counts.(Counts.functional_data_properties);
    Stats.datatype_definitions := counts.(Counts.datatype_definitions);
    Stats.data_property_assertions := counts.(Counts.data_property_assertions);
    Stats.negative_data_property_assertions := counts.(Counts.negative_data_property_assertions);
    Stats.annotation_assertions := counts.(Counts.annotation_assertions);
    Stats.selected_annotation_assertions := selected_annotation_assertions;
    Stats.sub_annotation_properties := counts.(Counts.sub_annotation_properties);
    Stats.annotation_property_domains := counts.(Counts.annotation_property_domains);
    Stats.annotation_property_ranges := counts.(Counts.annotation_property_ranges);
    Stats.annotation_edges := annotation_counts.(annotation_edges);
    Stats.non_string_literal_renderings := annotation_counts.(non_string_literals);
    Stats.skipped_axioms := skipped_axioms;
    Stats.object_property_domains := counts.(Counts.object_property_domains);
    Stats.object_property_ranges := counts.(Counts.object_property_ranges);
    Stats.ignored_object_property_domains := counts.(Counts.ignored_object_property_domains);
    Stats.ignored_object_property_ranges := counts.(Counts.ignored_object_property_ranges);
    Stats.domain_range_edges := domain_range_edges;
    Stats.role_expansion_edges := role_expansion_edges;
    Stats.edges := projected;
    Stats.buffer_bytes := buffer_bytes;
    Stats.root_provenance_buffer_bytes := root_provenance_buffer_bytes
  |}.

Definition prepare_direct (root_annotation_columns : option DirectColumns)
    (options : DirectCompileOptions) (retained role_state_override : option RoleState)
    (preclassified : option SelectedRootRulePlan) (local_role_axiom : option RoleAxiom)
    : Cx DirectPreparation :=
  let maximum := options.(max_iri_bytes) in
  _ ← check_cancel 0;
  _ ← validate_generic self;
  _ ← validate_supported_nodes self maximum;
  plan ← root_plan maximum preclassified;
  selected_annotation_nodes ← root_annotations maximum plan root_annotation_columns;
  let selected_annotation_assertions :=
    match selected_annotation_nodes with
    | Some nodes => len nodes
    | None => plan.(counts).(Counts.annotation_assertions)
    end in
  anonymous_ids ← axiom_anonymous_ids self;
  bytes ← !buffer_bytes self;
  root_provenance_buffer_bytes ←
    !(match root_annotation_columns with Some root => buffer_bytes root | None => Ok 0 end);
  role_state ← prepare_role_state options plan retained role_state_override local_role_axiom;
  totals ← count_edges options plan role_state selected_annotation_nodes;
  role_expansion ← !role_expansion_total options plan.(counts) totals;
  projected ← !projected_edges totals;
  if options.(max_edges) <? projected then
    !Err (resource ("encoded direct batch requires " +:+ pretty (projected : N)
           +:+ " edges; configured limit is " +:+ pretty (options.(max_edges) : N))) else
  roots ← !selected_root_count self;
  let statistics := direct_statistics roots anonymous_ids plan.(counts) totals
    selected_annotation_assertions role_expansion projected bytes root_provenance_buffer_bytes in
  emission_plan ← take_emission_plan plan;
  owned ← !to_owned role_state;
  mret {|
    preparation_roles := owned; emission_plan := emission_plan; anonymous_ids := anonymous_ids;
    selected_annotation_nodes := selected_annotation_nodes; composite_annotation_roots := [];
    composite_class_nodes := []; composite_anonymous_nodes := []; overlay_deltas := [];
    local_object_property_classes := []; local_object_property_class_positions := [];
    paired_object_property_class_groups := []; options := options; statistics := statistics |}.
End prepare.
