(* ===== verification/Cursor.v ===== *)
(** * The emission cursor

    [DirectEmissionCursor] and [PreparedDirectBatches] of
    native/src/encoded_direct.rs: the resumable scan that publishes one edge per
    call, phase by phase, and the batches Python drains.  [step] is one round of
    the loop of [next_edge]; an error leaves no cursor, because the caller works
    on a copy and commits it on success only. *)

From S2P Require Import Prelude Errors Tags Text Readers Columns Nodes Properties Graphs Anonymous.
From S2P Require Import Stats Rules Planning Roles Emission Overlay Preparation.
Local Open Scope string_scope.
Local Open Scope list_scope.
Local Open Scope N_scope.

Record EquivalentAggregateCursor := {
  aggregate_source : text;
  aggregate_plan_index : usize;
  named_index : usize;
  restriction_index : usize;
}.

Record OwnedEquivalentAggregateCursor := {
  delta_index : usize;
  owned_named_index : usize;
  owned_restriction_index : usize;
}.

Record DirectEmissionCursor := {
  cursor_phase : EmissionPhase.EmissionPhase;
  scan_index : usize;
  overlay_delta_index : usize;
  pending : option PendingExpansion;
  aggregate : option EquivalentAggregateCursor;
  owned_aggregate : option OwnedEquivalentAggregateCursor;
  previous_property : option text;
  active_property : option text;
  current_domain : option text;
  domain_index : usize;
  range_index : usize;
  emitted : usize;
}.

#[export] Instance DirectEmissionCursor_eta : Eta DirectEmissionCursor := fun c =>
  {| cursor_phase := c.(cursor_phase); scan_index := c.(scan_index);
     overlay_delta_index := c.(overlay_delta_index); pending := c.(pending);
     aggregate := c.(aggregate); owned_aggregate := c.(owned_aggregate);
     previous_property := c.(previous_property); active_property := c.(active_property);
     current_domain := c.(current_domain); domain_index := c.(domain_index);
     range_index := c.(range_index); emitted := c.(emitted) |}.
#[export] Instance EquivalentAggregateCursor_eta : Eta EquivalentAggregateCursor := fun c =>
  {| aggregate_source := c.(aggregate_source); aggregate_plan_index := c.(aggregate_plan_index);
     named_index := c.(named_index); restriction_index := c.(restriction_index) |}.
#[export] Instance OwnedEquivalentAggregateCursor_eta : Eta OwnedEquivalentAggregateCursor := fun c =>
  {| delta_index := c.(delta_index); owned_named_index := c.(owned_named_index);
     owned_restriction_index := c.(owned_restriction_index) |}.

Definition DirectEmissionCursor_default : DirectEmissionCursor := {|
  cursor_phase := EmissionPhase.Subclasses; scan_index := 0; overlay_delta_index := 0;
  pending := None; aggregate := None; owned_aggregate := None; previous_property := None;
  active_property := None; current_domain := None; domain_index := 0; range_index := 0;
  emitted := 0 |}.

Definition clone_option {A} (f : A -> outcome A) (o : option A) : outcome (option A) :=
  match o with Some a => a ← f a; Ok (Some a) | None => Ok None end.

(** [DirectEmissionCursor::try_clone]. *)
Definition try_clone_cursor (self : DirectEmissionCursor) : outcome DirectEmissionCursor :=
  p ← clone_option try_clone_pending self.(pending);
  a ← clone_option (fun a =>
    source ← clone_text a.(aggregate_source); Ok (a <| aggregate_source := source |>))
    self.(aggregate);
  previous ← clone_option clone_text self.(previous_property);
  active ← clone_option clone_text self.(active_property);
  domain ← clone_option clone_text self.(current_domain);
  Ok (self <| pending := p |> <| aggregate := a |> <| previous_property := previous |>
        <| active_property := active |> <| current_domain := domain |>).

(** The outcome of a round: go on with the loop, or return from the call. *)
Definition Round : Type :=
  control DirectEmissionCursor (option DirectEdge * DirectEmissionCursor).
Definition continue (self : DirectEmissionCursor) : Round := Continue self.

(** [self.publish(edge, preparation)]. *)
Definition publish_edge (self : DirectEmissionCursor) (edge : DirectEdge) : outcome Round :=
  count ← publish self.(emitted);
  Ok (Return (Some edge, self <| emitted := count |>)).

(** [DirectEmissionCursor::set_taxonomy] and [set_role]. *)
Definition start_taxonomy (self : DirectEmissionCursor) (source destination : text)
    (bidirectional : bool) : outcome DirectEmissionCursor :=
  expansion ← set_taxonomy source destination bidirectional;
  Ok (self <| pending := Some expansion |>).

Definition start_role (self : DirectEmissionCursor) (source relation destination : text)
    : outcome DirectEmissionCursor :=
  expansion ← set_role source relation destination;
  Ok (self <| pending := Some expansion |>).

Section cursor.
Context `{LowercaseTable} (columns : DirectColumns) (composite_columns : option (list DirectColumns)).
Context (preparation : DirectPreparation).

Definition maximum : usize := preparation.(options).(max_iri_bytes).
Definition bidirectional_mode : bool := preparation.(options).(bidirectional).
Definition role_edges_enabled : bool :=
  negb preparation.(options).(asserted_taxonomy_only)
  && negb preparation.(options).(only_taxonomy).

(** ** Overlay deltas *)

Definition next_overlay_delta_index (self : DirectEmissionCursor) : outcome (option usize) :=
  match get preparation.(overlay_deltas) self.(overlay_delta_index) with
  | None => Ok None
  | Some delta =>
      let order := phase_index (delta_phase delta.(projection)) ?= phase_index self.(cursor_phase) in
      if is_lt order || is_eq order && (delta.(insertion_scan_index) <? self.(scan_index)) then
        Err (malformed "encoded local-overlay plan is behind its emission cursor")
      else Ok (if is_eq order && (delta.(insertion_scan_index) =? self.(scan_index))
               then Some self.(overlay_delta_index) else None)
  end.

Definition advance_overlay (self : DirectEmissionCursor) : outcome DirectEmissionCursor :=
  next ← ok_or (checked_add self.(overlay_delta_index) 1)
    (resource "encoded local-overlay cursor overflow");
  Ok (self <| overlay_delta_index := next |>).

(** The delta at the cursor, handled by [handle]; [None]: the round goes on
    with the scan. *)
Definition overlay_round {R} (self : DirectEmissionCursor)
    (handle : usize -> OwnedOverlayDeltaProjection.OwnedOverlayDeltaProjection -> outcome (option R))
    : outcome (option R) :=
  next ← next_overlay_delta_index self;
  match next with
  | None => Ok None
  | Some i => delta ← index preparation.(overlay_deltas) i; handle i delta.(projection)
  end.

Definition handled (m : outcome DirectEmissionCursor) : outcome (option Round) :=
  self ← m; Ok (Some (continue self)).

(** ** The scan over the roots *)

(** The next root of the scan, if it is selected and has the handler; the scan
    ends in the phase [next]. *)
Definition scan_round (self : DirectEmissionCursor) (next : EmissionPhase.EmissionPhase)
    (expected : RootRuleHandler.RootRuleHandler)
    (emit : DirectEmissionCursor -> option PlannedEmissionShape.PlannedEmissionShape -> outcome Round)
    : Cx Round :=
  if self.(scan_index) =? root_count columns then
    mret (continue (self <| scan_index := 0 |> <| cursor_phase := next |>)) else
  let i := self.(scan_index) in
  let self := self <| scan_index := i +w 1 |> in
  _ ← check_cancel i;
  selected ← !root_is_selected columns i;
  if negb selected then mret (continue self) else
  rule ← !root_rule_at preparation i;
  if negb (bool_decide (rule.(handler) = expected)) then mret (continue self)
  else !emit self (emission_shape_at preparation i).

Definition or_scan (overlay : outcome (option Round)) (scan : Cx Round) : Cx Round :=
  handled ← !overlay;
  match handled with Some round => mret round | None => scan end.

(** ** [EmissionPhase::Subclasses] *)

Definition subclass_delta (self : DirectEmissionCursor) (i : usize)
    (projection : OwnedOverlayDeltaProjection.OwnedOverlayDeltaProjection)
    : outcome (option Round) :=
  match projection with
  | OwnedOverlayDeltaProjection.Taxonomy source destination =>
      handled (self ← advance_overlay self;
               start_taxonomy self source destination bidirectional_mode)
  | OwnedOverlayDeltaProjection.Restriction source relation destination =>
      handled (self ← advance_overlay self;
               if role_edges_enabled then start_role self source relation destination else Ok self)
  | OwnedOverlayDeltaProjection.IgnoredSubclass _ => handled (advance_overlay self)
  | _ => Ok None
  end.

Definition emit_subclass (self : DirectEmissionCursor)
    (shape : option PlannedEmissionShape.PlannedEmissionShape) : outcome Round :=
  match shape with
  | Some (PlannedEmissionShape.SubclassTaxonomy source_node destination_node) =>
      source ← named_class_iri columns source_node maximum;
      destination ← named_class_iri columns destination_node maximum;
      self ← start_taxonomy self source destination bidirectional_mode;
      Ok (continue self)
  | Some (PlannedEmissionShape.SubclassRestriction source_node restriction) =>
      if role_edges_enabled then
        source ← named_class_iri columns source_node maximum;
        '(relation, destination) ← planned_restriction_parts columns restriction maximum;
        self ← start_role self source relation destination;
        Ok (continue self)
      else Ok (continue self)
  | Some PlannedEmissionShape.SubclassIgnored => Ok (continue self)
  | _ => Err (malformed "encoded subclass root lost its prepared emission shape")
  end.

Definition subclasses_round (self : DirectEmissionCursor) : Cx Round :=
  or_scan (overlay_round self (subclass_delta self))
    (scan_round self
       (if preparation.(options).(asserted_taxonomy_only) then EmissionPhase.Finished
        else EmissionPhase.Equivalents)
       RootRuleHandler.Subclass emit_subclass).

(** ** [EmissionPhase::Equivalents] *)

(** The owned aggregate of a delta; the cursor comes with its
    [owned_aggregate] taken.  [None]: it is exhausted. *)
Definition owned_aggregate_round (self : DirectEmissionCursor)
    (cursor : OwnedEquivalentAggregateCursor) : outcome (option Round) :=
  let overflow := resource "encoded owned-equivalent cursor overflow" in
  delta ← ok_or (get preparation.(overlay_deltas) cursor.(delta_index))
    (malformed "encoded owned-equivalent cursor lost its local root");
  match delta.(projection) with
  | OwnedOverlayDeltaProjection.EquivalentAggregate source named_destinations restrictions _ =>
      match get named_destinations cursor.(owned_named_index) with
      | Some destination =>
          next ← ok_or (checked_add cursor.(owned_named_index) 1) overflow;
          handled (self ← start_taxonomy self source destination bidirectional_mode;
                   Ok (self <| owned_aggregate := Some (cursor <| owned_named_index := next |>) |>))
      | None =>
          if preparation.(options).(only_taxonomy) then Ok None else
          match get restrictions cursor.(owned_restriction_index) with
          | Some restriction =>
              next ← ok_or (checked_add cursor.(owned_restriction_index) 1) overflow;
              handled (self ← start_role self source restriction.(owned_relation)
                                restriction.(owned_destination);
                       Ok (self <| owned_aggregate :=
                                     Some (cursor <| owned_restriction_index := next |>) |>))
          | None => Ok None
          end
      end
  | _ => Err (malformed "encoded owned-equivalent cursor references another projection")
  end.

(** The restrictions of an aggregate from the cursor on: the first one that is
    projected. *)
Fixpoint next_restriction (start : usize) (l : list (option PlannedRestrictionCoordinate))
    (index : usize) : Cx (option (text * text) * usize) :=
  match l with
  | [] => mret (None, index)
  | coordinate :: l =>
      let overflow := resource "encoded aggregate restriction-emission cursor overflow" in
      work_index ← !ok_or (checked_add start index) overflow;
      _ ← check_cancel work_index;
      next ← !ok_or (checked_add index 1) overflow;
      match coordinate with
      | None => next_restriction start l next
      | Some coordinate =>
          parts ← !planned_restriction_parts columns coordinate maximum;
          mret (Some parts, next)
      end
  end.

(** The aggregate of a base root; the cursor comes with its [aggregate] taken. *)
Definition aggregate_round (self : DirectEmissionCursor) (cursor : EquivalentAggregateCursor)
    : Cx Round :=
  let overflow := resource "encoded aggregate named-emission cursor overflow" in
  plan ← !aggregate_emission_at preparation cursor.(aggregate_plan_index);
  named_nodes ← !aggregate_emission_named_nodes preparation plan;
  match get named_nodes cursor.(named_index) with
  | Some destination_node =>
      work_index ← !ok_or (checked_add plan.(named).(range_start) cursor.(named_index)) overflow;
      _ ← check_cancel work_index;
      next ← !ok_or (checked_add cursor.(named_index) 1) overflow;
      destination ← !named_class_iri columns destination_node maximum;
      self ← !start_taxonomy self cursor.(aggregate_source) destination bidirectional_mode;
      mret (continue (self <| aggregate := Some (cursor <| named_index := next |>) |>))
  | None =>
      if preparation.(options).(only_taxonomy) then mret (continue self) else
      coordinates ← !aggregate_emission_restrictions preparation plan;
      '(selected, next) ←
        next_restriction plan.(restrictions).(range_start)
          (drop (N.to_nat cursor.(restriction_index)) coordinates) cursor.(restriction_index);
      match selected with
      | Some (relation, destination) =>
          self ← !start_role self cursor.(aggregate_source) relation destination;
          mret (continue (self <| aggregate := Some (cursor <| restriction_index := next |>) |>))
      | None => mret (continue self)
      end
  end.

Definition equivalent_delta (self : DirectEmissionCursor) (i : usize)
    (projection : OwnedOverlayDeltaProjection.OwnedOverlayDeltaProjection)
    : outcome (option Round) :=
  match projection with
  | OwnedOverlayDeltaProjection.EquivalentPair source destination =>
      handled (self ← advance_overlay self;
               start_taxonomy self source destination bidirectional_mode)
  | OwnedOverlayDeltaProjection.EquivalentAggregate _ _ _ _ =>
      handled (self ← advance_overlay self;
               Ok (self <| owned_aggregate :=
                     Some {| delta_index := i; owned_named_index := 0;
                             owned_restriction_index := 0 |} |>))
  | OwnedOverlayDeltaProjection.IgnoredEquivalent => handled (advance_overlay self)
  | _ => Ok None
  end.

Definition emit_equivalent (self : DirectEmissionCursor)
    (shape : option PlannedEmissionShape.PlannedEmissionShape) : outcome Round :=
  match shape with
  | Some (PlannedEmissionShape.EquivalentPair source_node destination_node) =>
      source ← named_class_iri columns source_node maximum;
      destination ← named_class_iri columns destination_node maximum;
      self ← start_taxonomy self source destination bidirectional_mode;
      Ok (continue self)
  | Some (PlannedEmissionShape.EquivalentAggregate source_node aggregate_plan_index) =>
      source ← named_class_iri columns source_node maximum;
      source ← clone_text source;
      Ok (continue (self <| aggregate :=
        Some {| aggregate_source := source; aggregate_plan_index := aggregate_plan_index;
                named_index := 0; restriction_index := 0 |} |>))
  | Some PlannedEmissionShape.EquivalentIgnored => Ok (continue self)
  | _ => Err (malformed "encoded equivalent root lost its prepared emission shape")
  end.

Definition equivalents_scan (self : DirectEmissionCursor) : Cx Round :=
  or_scan (overlay_round self (equivalent_delta self))
    (scan_round self EmissionPhase.Annotations RootRuleHandler.EquivalentClasses emit_equivalent).

Definition equivalents_round (self : DirectEmissionCursor) : Cx Round :=
  let owned := self.(owned_aggregate) in
  let self := self <| owned_aggregate := None |> in
  or_scan (match owned with Some cursor => owned_aggregate_round self cursor | None => Ok None end)
    (let base := self.(aggregate) in
     let self := self <| aggregate := None |> in
     match base with
     | Some cursor => aggregate_round self cursor
     | None => equivalents_scan self
     end).

(** ** [EmissionPhase::Annotations] *)

Definition leave_annotations (self : DirectEmissionCursor) : Round :=
  continue (self <| scan_index := 0 |> <| cursor_phase := EmissionPhase.ClassAssertions |>).

(** The next selected annotation-assertion root, and the scan index after it. *)
Fixpoint next_annotation (fuel : nat) (scan_index : usize) : Cx (option usize * usize) :=
  if negb (scan_index <? root_count columns) then mret (None, scan_index) else
  match fuel with
  | O => !OutOfFuel
  | S fuel =>
      let next := scan_index +w 1 in
      _ ← check_cancel scan_index;
      selected ← !root_is_selected columns scan_index;
      if negb selected then next_annotation fuel next else
      candidate ← !root_id columns scan_index;
      rule ← !root_rule_at preparation scan_index;
      if bool_decide (rule.(handler) = RootRuleHandler.AnnotationAssertion)
      then mret (Some candidate, next) else next_annotation fuel next
  end.

Definition composite_annotation_round (self : DirectEmissionCursor)
    (tables : list DirectColumns) : Cx Round :=
  if self.(scan_index) =? len preparation.(composite_annotation_roots) then
    mret (leave_annotations self) else
  coordinate ← !index preparation.(composite_annotation_roots) self.(scan_index);
  let self := self <| scan_index := self.(scan_index) +w 1 |> in
  projection ← composite_annotation_projection tables coordinate
                 preparation.(composite_class_nodes) maximum;
  match projection with
  | Some projection =>
      edge ← !composite_annotation_edge projection coordinate.(coordinate_table)
                preparation.(composite_anonymous_nodes);
      !publish_edge self edge
  | None => mret (continue self)
  end.

Definition annotations_round (self : DirectEmissionCursor) : Cx Round :=
  if negb preparation.(options).(include_literals) then mret (leave_annotations self) else
  match composite_columns with
  | Some tables => composite_annotation_round self tables
  | None =>
      '(node, self) ←
        match preparation.(selected_annotation_nodes) with
        | Some nodes =>
            if self.(scan_index) =? len nodes then mret (None, self) else
            node_id ← !index nodes self.(scan_index);
            mret (Some node_id, self <| scan_index := self.(scan_index) +w 1 |>)
        | None =>
            '(node, next) ← next_annotation
              (N.to_nat (root_count columns - self.(scan_index))) self.(scan_index);
            mret (node, self <| scan_index := next |>)
        end;
      match node with
      | None => mret (leave_annotations self)
      | Some node_id =>
          projection ← annotation_projection columns node_id maximum;
          match projection with
          | Some projection =>
              edge ← !annotation_edge projection preparation.(anonymous_ids);
              !publish_edge self edge
          | None => mret (continue self)
          end
      end
  end.

(** ** [EmissionPhase::ClassAssertions] *)

Definition class_assertion_delta (self : DirectEmissionCursor) (i : usize)
    (projection : OwnedOverlayDeltaProjection.OwnedOverlayDeltaProjection)
    : outcome (option Round) :=
  match projection with
  | OwnedOverlayDeltaProjection.ClassAssertion individual class =>
      self ← advance_overlay self;
      edge ← clone_edge individual RDF_TYPE class;
      round ← publish_edge self edge;
      Ok (Some round)
  | OwnedOverlayDeltaProjection.IgnoredClassAssertion _ => handled (advance_overlay self)
  | _ => Ok None
  end.

Definition emit_class_assertion (self : DirectEmissionCursor)
    (shape : option PlannedEmissionShape.PlannedEmissionShape) : outcome Round :=
  match shape with
  | Some (PlannedEmissionShape.ClassAssertionEdge individual_node class_node) =>
      individual ← named_individual_iri columns individual_node maximum;
      class ← named_class_iri columns class_node maximum;
      edge ← clone_edge individual RDF_TYPE class;
      publish_edge self edge
  | Some PlannedEmissionShape.ClassAssertionIgnored => Ok (continue self)
  | _ => Err (malformed "encoded class assertion lost its prepared emission shape")
  end.

Definition class_assertions_round (self : DirectEmissionCursor) : Cx Round :=
  or_scan (overlay_round self (class_assertion_delta self))
    (scan_round self EmissionPhase.ObjectAssertions RootRuleHandler.ClassAssertion
       emit_class_assertion).

(** ** [EmissionPhase::ObjectAssertions] *)

Definition object_assertion_delta (self : DirectEmissionCursor) (i : usize)
    (projection : OwnedOverlayDeltaProjection.OwnedOverlayDeltaProjection)
    : outcome (option Round) :=
  match projection with
  | OwnedOverlayDeltaProjection.ObjectPropertyAssertion source relation destination _ =>
      self ← advance_overlay self;
      edge ← clone_edge source relation destination;
      round ← publish_edge self edge;
      Ok (Some round)
  | OwnedOverlayDeltaProjection.IgnoredNegativeObjectPropertyAssertion _
  | OwnedOverlayDeltaProjection.IgnoredObjectPropertyClass _ _
  | OwnedOverlayDeltaProjection.IgnoredDataPropertyAssertion _ _
  | OwnedOverlayDeltaProjection.IgnoredIndividualSet _ _
  | OwnedOverlayDeltaProjection.IgnoredAnnotationAssertion _
  | OwnedOverlayDeltaProjection.SilentRoot _
  | OwnedOverlayDeltaProjection.SilentDeclaration
  | OwnedOverlayDeltaProjection.SilentOntologyAnnotation
  | OwnedOverlayDeltaProjection.SilentSwrl => handled (advance_overlay self)
  | _ => Ok None
  end.

Definition emit_object_assertion (self : DirectEmissionCursor)
    (shape : option PlannedEmissionShape.PlannedEmissionShape) : outcome Round :=
  match shape with
  | Some (PlannedEmissionShape.ObjectPropertyAssertion property_node source destination) =>
      relation ← named_object_property_iri columns property_node maximum;
      source ← render_planned_individual columns source preparation.(anonymous_ids) maximum;
      relation ← clone_text relation;
      destination ←
        render_planned_individual columns destination preparation.(anonymous_ids) maximum;
      publish_edge self
        {| edge_source := source; edge_relation := relation; edge_destination := destination |}
  | _ => Err (malformed "encoded object property assertion lost its prepared emission shape")
  end.

Definition object_assertions_round (self : DirectEmissionCursor) : Cx Round :=
  or_scan (overlay_round self (object_assertion_delta self))
    (scan_round self EmissionPhase.DomainRanges RootRuleHandler.ObjectPropertyAssertion
       emit_object_assertion).

(** ** [EmissionPhase::DomainRanges] *)

Abbreviation Kind := ObjectPropertyClassRuleKind.ObjectPropertyClassRuleKind.

(** The scan for the next class of the kind and property; it returns the class
    and the position after it. *)
Fixpoint scan_classes (fuel : nat) (kind : Kind) (property : text) (overflow : string)
    (scan_len position : usize) : Cx (option text * usize) :=
  if negb (position <? scan_len) then mret (None, position) else
  match fuel with
  | O => !OutOfFuel
  | S fuel =>
      next ← !ok_or (checked_add position 1) (resource overflow);
      _ ← check_cancel position;
      entry ← object_property_class_at preparation columns position;
      match entry with
      | Some (candidate_kind, candidate, class) =>
          if bool_decide (candidate_kind = kind) && bool_decide (candidate = property)
          then mret (Some class, next)
          else scan_classes fuel kind property overflow scan_len next
      | None => scan_classes fuel kind property overflow scan_len next
      end
  end.

(** The next class of a prepared span. *)
Definition span_class (kind : Kind) (property : text) (overflow silent changed : string)
    (span_index : usize) : Cx (option text * usize) :=
  positions ← !paired_property_positions preparation property kind;
  match get positions span_index with
  | None => mret (None, span_index)
  | Some position =>
      _ ← check_cancel span_index;
      next ← !ok_or (checked_add span_index 1) (resource overflow);
      entry ← object_property_class_at preparation columns position;
      match entry with
      | None => !Err (malformed silent)
      | Some (candidate_kind, candidate, class) =>
          if negb (bool_decide (candidate_kind = kind)) || negb (bool_decide (candidate = property))
          then !Err (malformed changed) else mret (Some class, next)
      end
  end.

Definition next_class (kind : Kind) (property : text) (overflow silent changed : string)
    (position : usize) : Cx (option text * usize) :=
  if has_local_classes preparation then span_class kind property overflow silent changed position
  else
    scan_len ← !object_property_class_scan_len preparation columns;
    scan_classes (N.to_nat (scan_len - position)) kind property overflow scan_len position.

Definition next_domain (property : text) : usize -> Cx (option text * usize) :=
  next_class ObjectPropertyClassRuleKind.Domain property
    "encoded domain/range domain cursor overflow"
    "encoded domain/range domain span references a silent root"
    "encoded domain/range domain span changed after preparation".

Definition next_range (property : text) : usize -> Cx (option text * usize) :=
  next_class ObjectPropertyClassRuleKind.Range property
    "encoded domain/range range cursor overflow"
    "encoded domain/range range span references a silent root"
    "encoded domain/range range span changed after preparation".

(** The pairs of the active property: the domain is fixed while its ranges are
    scanned. *)
Definition pair_round (self : DirectEmissionCursor) (property : text) : Cx Round :=
  '(domain, self) ←
    match self.(current_domain) with
    | Some domain => mret (Some domain, self)
    | None =>
        '(selected, next) ← next_domain property self.(domain_index);
        let self := self <| domain_index := next |> in
        mret (selected,
              match selected with
              | Some domain => self <| current_domain := Some domain |> <| range_index := 0 |>
              | None => self
              end)
    end;
  match domain with
  | None => mret (continue (self <| active_property := None |>))
  | Some domain =>
      '(selected, next) ← next_range property self.(range_index);
      let self := self <| range_index := next |> in
      match selected with
      | Some range =>
          self ← !start_role self domain property range;
          mret (continue self)
      | None => mret (continue (self <| current_domain := None |>))
      end
  end.

Definition domain_ranges_round (self : DirectEmissionCursor) : Cx Round :=
  match self.(active_property) with
  | Some property => pair_round self property
  | None =>
      next ← next_paired_property preparation columns self.(previous_property);
      match next with
      | None => mret (continue (self <| cursor_phase := EmissionPhase.Finished |>))
      | Some property =>
          pair_round
            (self <| previous_property := Some property |> <| active_property := Some property |>
                  <| current_domain := None |> <| domain_index := 0 |> <| range_index := 0 |>)
            property
      end
  end.

(** ** [next_edge] *)

Definition pending_round (self : DirectEmissionCursor) (expansion : PendingExpansion)
    : outcome Round :=
  '(edge, expansion) ← next_edge expansion preparation.(preparation_roles);
  match edge with
  | Some edge => publish_edge (self <| pending := Some expansion |>) edge
  | None => Ok (continue (self <| pending := None |>))
  end.

Definition step (self : DirectEmissionCursor) : Cx Round :=
  _ ← check_cancel self.(emitted);
  match self.(pending) with
  | Some expansion => !pending_round self expansion
  | None =>
      match self.(cursor_phase) with
      | EmissionPhase.Subclasses => subclasses_round self
      | EmissionPhase.Equivalents => equivalents_round self
      | EmissionPhase.Annotations => annotations_round self
      | EmissionPhase.ClassAssertions => class_assertions_round self
      | EmissionPhase.ObjectAssertions => object_assertions_round self
      | EmissionPhase.DomainRanges => domain_ranges_round self
      | EmissionPhase.Finished => mret (Return (None, self))
      end
  end.

(** [DirectEmissionCursor::next_edge]; the fuel bounds the silent rounds
    before the edge. *)
Fixpoint next_cursor_edge (fuel : nat) (self : DirectEmissionCursor)
    : Cx (option DirectEdge * DirectEmissionCursor) :=
  match fuel with
  | O => !OutOfFuel
  | S fuel =>
      round ← step self;
      match round with
      | Return result => mret result
      | Continue self => next_cursor_edge fuel self
      end
  end.

(** ** [PreparedDirectBatches] *)

Definition remaining_edges (cursor : DirectEmissionCursor) : usize :=
  saturating_sub preparation.(statistics).(Stats.edges) cursor.(emitted).

(** [while edges.len() < amount]. *)
Fixpoint batch_edges (fuel amount : nat) (edges : list DirectEdge) (cursor : DirectEmissionCursor)
    : Cx (list DirectEdge * DirectEmissionCursor) :=
  match amount with
  | O => mret (edges, cursor)
  | S amount =>
      '(edge, cursor) ← next_cursor_edge fuel cursor;
      edge ← !ok_or edge
        (malformed "encoded direct output ended before its preflight edge count");
      batch_edges fuel amount (edges ++ [edge]) cursor
  end.

(** [prepare_next_batch]; the caller commits the returned cursor. *)
Definition prepare_next_batch (fuel : nat) (cursor : DirectEmissionCursor) (batch : usize)
    : Cx (list DirectEdge * DirectEmissionCursor) :=
  let amount := N.min (remaining_edges cursor) batch in
  cursor ← !try_clone_cursor cursor;
  batch_edges fuel (N.to_nat amount) [] cursor.
End cursor.

(** [prepare_next_composite_batch]: the first table is the base. *)
Definition prepare_next_composite_batch `{LowercaseTable} (tables : list DirectColumns)
    (preparation : DirectPreparation) (fuel : nat) (cursor : DirectEmissionCursor) (batch : usize)
    : Cx (list DirectEdge * DirectEmissionCursor) :=
  base ← !ok_or (head tables) (malformed "encoded composite output lost its base table");
  prepare_next_batch base (Some tables) preparation fuel cursor batch.

(** ** Cancellation *)

Section transparency.
Context `{LowercaseTable} (columns : DirectColumns) (tables : option (list DirectColumns)).
Context (P : DirectPreparation).

#[export] Instance transparent_or_scan overlay scan :
  Transparent scan -> Transparent (or_scan overlay scan).
Proof. intros. unfold or_scan. solve_transparent. Qed.
#[export] Instance transparent_scan_round self next expected emit :
  Transparent (scan_round columns P self next expected emit).
Proof. unfold scan_round. solve_transparent. Qed.
#[export] Instance transparent_next_restriction start l i :
  Transparent (next_restriction columns P start l i).
Proof. revert i. induction l as [|[c|] l IH]; cbn [next_restriction]; solve_transparent. Qed.
#[export] Instance transparent_aggregate_round self cursor :
  Transparent (aggregate_round columns P self cursor).
Proof. unfold aggregate_round. solve_transparent. Qed.
#[export] Instance transparent_equivalents_round self : Transparent (equivalents_round columns P self).
Proof.
  unfold equivalents_round, equivalents_scan. apply transparent_or_scan.
  cbn [set_field aggregate]. destruct (aggregate _); [apply _|]. apply transparent_or_scan, _.
Qed.
#[export] Instance transparent_next_annotation fuel i : Transparent (next_annotation columns P fuel i).
Proof. revert i. induction fuel; cbn [next_annotation]; solve_transparent. Qed.
#[export] Instance transparent_annotations_round self :
  Transparent (annotations_round columns tables P self).
Proof. unfold annotations_round, composite_annotation_round. solve_transparent. Qed.
#[export] Instance transparent_scan_classes fuel kind property overflow scan_len position :
  Transparent (scan_classes columns P fuel kind property overflow scan_len position).
Proof. revert position. induction fuel; cbn [scan_classes]; solve_transparent. Qed.
#[export] Instance transparent_next_class kind property overflow silent changed position :
  Transparent (next_class columns P kind property overflow silent changed position).
Proof. unfold next_class, span_class. solve_transparent. Qed.
#[export] Instance transparent_pair_round self property : Transparent (pair_round columns P self property).
Proof. unfold pair_round, next_domain, next_range. solve_transparent. Qed.
#[export] Instance transparent_domain_ranges_round self : Transparent (domain_ranges_round columns P self).
Proof. unfold domain_ranges_round. solve_transparent. Qed.
#[export] Instance transparent_step self : Transparent (step columns tables P self).
Proof.
  unfold step, subclasses_round, class_assertions_round, object_assertions_round.
  apply transparent_bind; [apply _|]. intros _.
  destruct (pending self); [apply _|]. destruct (cursor_phase self); apply _.
Qed.
#[export] Instance transparent_next_cursor_edge fuel self :
  Transparent (next_cursor_edge columns tables P fuel self).
Proof. revert self. induction fuel; cbn [next_cursor_edge]; solve_transparent. Qed.
#[export] Instance transparent_batch_edges fuel amount edges cursor :
  Transparent (batch_edges columns tables P fuel amount edges cursor).
Proof. revert edges cursor. induction amount; cbn [batch_edges]; solve_transparent. Qed.
#[export] Instance transparent_prepare_next_batch fuel cursor batch :
  Transparent (prepare_next_batch columns tables P fuel cursor batch).
Proof. unfold prepare_next_batch. solve_transparent. Qed.
End transparency.
