(* ===== verification/Emit.v ===== *)
(** * The cursor refines a batch program

    Every round of [next_edge] that goes on keeps [emitted], every edge it
    returns increases it by one, and it reports the end only in the finished
    phase, with the cursor unchanged: with or without a local overlay or
    composite tables, and under every interleaving of a cancellation.

    [direct_edges] is the emission as one program: the phases in order, each a
    pass over its roots that returns a list.  The resumable cursor emits
    exactly this list, one edge per call, for a preparation without a local
    overlay ([Direct]). *)

From stdpp Require Import sorting.
From S2P Require Import Prelude Errors Partial Lists Tags Text Readers Columns Nodes Properties Graphs Anonymous.
From S2P Require Import Stats Rules Planning Roles Emission Overlay Preparation Cursor.
Local Open Scope string_scope.
Local Open Scope list_scope.
Local Open Scope N_scope.

(** ** What a round does to the counter *)

Definition same_count (c c1 : DirectEmissionCursor) : Prop := c1.(emitted) = c.(emitted).

Definition counted (c : DirectEmissionCursor) (r : Round) : Prop :=
  match r with
  | Continue c1 => same_count c c1
  | Return (Some _, c1) => c1.(emitted) = c.(emitted) + 1
  | Return (None, c1) => c1 = c /\ c.(pending) = None /\ c.(cursor_phase) = EmissionPhase.Finished
  end.

Definition counted_some (c : DirectEmissionCursor) (r : option Round) : Prop :=
  match r with Some r => counted c r | None => True end.

Section count.
Context `{LowercaseTable} (columns : DirectColumns) (tables : option (list DirectColumns)).
Context (P : DirectPreparation).

Lemma count_publish c c1 edge : same_count c c1 -> ensures (counted c) (publish_edge c1 edge).
Proof using Type.
  intros Hc r. unfold publish_edge, publish. intros (n&Hn&Hr)%bind_Ok. injection Hr as <-.
  apply ok_or_Ok, checked_add_Some in Hn as [-> _]. unfold same_count in Hc. cbn. by rewrite Hc.
Qed.

Lemma count_taxonomy c c1 source destination b :
  same_count c c1 -> ensures (same_count c) (start_taxonomy c1 source destination b).
Proof using Type. intros Hc c2 [= <-]. exact Hc. Qed.

Lemma count_role c c1 source relation destination :
  same_count c c1 -> ensures (same_count c) (start_role c1 source relation destination).
Proof using Type. intros Hc c2 [= <-]. exact Hc. Qed.

Lemma count_overlay c c1 : same_count c c1 -> ensures (same_count c) (advance_overlay c1).
Proof using Type. intros Hc c2 (n&_&Hn)%bind_Ok. injection Hn as <-. exact Hc. Qed.

Lemma count_handled c m : ensures (same_count c) m -> ensures (counted_some c) (handled m).
Proof using Type. intros Hm r (c1&Hc&Hr)%bind_Ok. injection Hr as <-. by apply Hm. Qed.

Hint Resolve count_publish count_taxonomy count_role count_overlay count_handled : count.
Hint Extern 1 (same_count _ _) => first [assumption | reflexivity] : count.

(** The computation either passes the counter on or computes a plain value. *)
Ltac solve_count :=
  repeat (step_post; try (done || solve [eauto with count]);
    match goal with
    | |- ensures _ (handled _) => apply count_handled
    | |- ensures _ (mbind _ _) =>
        first [ eapply (ensures_bind (same_count _)); [solve [eauto with count]|]
              | eapply (ensures_bind (counted _)); [solve [eauto with count]|]
              | eapply (ensures_bind (fun _ => True)); [apply ensures_trivial|] ]
    | |- post _ (mbind _ _) =>
        first [ eapply (post_bind (same_count _)); [solve [apply post_lift; eauto with count]|]
              | eapply (post_bind (fun _ => True)); [apply post_trivial|] ]
    end).

Lemma count_scan_round c c1 next expected emit : same_count c c1 ->
  (forall c1 shape, same_count c c1 -> ensures (counted c) (emit c1 shape)) ->
  post (counted c) (scan_round columns P c1 next expected emit).
Proof using Type.
  intros Hc He. unfold scan_round. solve_count.
Qed.

Lemma count_or_scan c o scan : ensures (counted_some c) o -> post (counted c) scan ->
  post (counted c) (or_scan o scan).
Proof using Type.
  intros Ho Hs. unfold or_scan. eapply (post_bind (counted_some c)); [by apply post_lift|].
  intros [r|] Hr; [by apply post_ret|done].
Qed.

Lemma count_overlay_round {R} (Q : option R -> Prop) c h : Q None ->
  (forall i projection, ensures Q (h i projection)) -> ensures Q (overlay_round P c h).
Proof using Type. intros HQ Hh. unfold overlay_round. solve_count. Qed.

Lemma count_subclasses c : post (counted c) (subclasses_round columns P c).
Proof using Type.
  unfold subclasses_round. apply count_or_scan.
  - apply count_overlay_round; [done|]. intros i projection. unfold subclass_delta. solve_count.
  - apply count_scan_round; [done|]. intros c1 shape Hc. unfold emit_subclass. solve_count.
Qed.

Lemma count_class_assertions c : post (counted c) (class_assertions_round columns P c).
Proof using Type.
  unfold class_assertions_round. apply count_or_scan.
  - apply count_overlay_round; [done|]. intros i projection. unfold class_assertion_delta. solve_count.
  - apply count_scan_round; [done|]. intros c1 shape Hc. unfold emit_class_assertion. solve_count.
Qed.

Lemma count_object_assertions c : post (counted c) (object_assertions_round columns P c).
Proof using Type.
  unfold object_assertions_round. apply count_or_scan.
  - apply count_overlay_round; [done|]. intros i projection. unfold object_assertion_delta. solve_count.
  - apply count_scan_round; [done|]. intros c1 shape Hc. unfold emit_object_assertion. solve_count.
Qed.

Lemma count_equivalents c : post (counted c) (equivalents_round columns P c).
Proof using Type.
  unfold equivalents_round. apply count_or_scan.
  - unfold owned_aggregate_round. solve_count.
  - cbn zeta. set (c1 := c <| owned_aggregate := None |>). assert (Hc : same_count c c1) by done.
    clearbody c1. destruct (aggregate c1) as [cursor|].
    + unfold aggregate_round. solve_count.
    + unfold equivalents_scan. apply count_or_scan.
      * apply count_overlay_round; [done|]. intros i projection. unfold equivalent_delta. solve_count.
      * apply count_scan_round; [done|]. intros c2 shape Hc2. unfold emit_equivalent. solve_count.
Qed.

(** Loops that thread the cursor beside a value. *)
Definition same_count_snd {A} (c : DirectEmissionCursor) (r : A * DirectEmissionCursor) : Prop :=
  same_count c r.2.

Lemma count_annotations c : post (counted c) (annotations_round columns tables P c).
Proof using Type.
  unfold annotations_round. destruct (negb _); [by apply post_ret|].
  destruct tables as [l|]; [unfold composite_annotation_round; solve_count|].
  eapply (post_bind (same_count_snd c)).
  - destruct (selected_annotation_nodes P) as [nodes|]; solve_count.
  - intros [[node|] c1] Hc; [|by apply post_ret]. cbn in Hc. solve_count.
Qed.

Lemma count_pair c c0 property : same_count c0 c -> post (counted c0) (pair_round columns P c property).
Proof using Type.
  intros Hc. unfold pair_round. eapply (post_bind (same_count_snd c0)).
  - destruct (current_domain c) as [domain|]; [by apply post_ret|].
    eapply (post_bind (fun _ => True)); [apply post_trivial|].
    intros [[domain|] next] _; by apply post_ret.
  - intros [[domain|] c1] Hc1; [|by apply post_ret]. cbn in Hc1. solve_count.
Qed.

Lemma count_domain_ranges c : post (counted c) (domain_ranges_round columns P c).
Proof using Type.
  unfold domain_ranges_round. destruct (active_property c); [by apply count_pair|].
  eapply (post_bind (fun _ => True)); [apply post_trivial|].
  intros [property|] _; [by apply count_pair|by apply post_ret].
Qed.

Lemma count_step c : post (counted c) (step columns tables P c).
Proof using Type.
  unfold step. eapply (post_bind (fun _ => True)); [apply post_trivial|]. intros _ _.
  destruct (pending c) as [expansion|] eqn:Hp.
  - apply post_lift. unfold pending_round. solve_count.
  - destruct (cursor_phase c) eqn:Hc.
    + apply count_subclasses.
    + apply count_equivalents.
    + apply count_annotations.
    + apply count_class_assertions.
    + apply count_object_assertions.
    + apply count_domain_ranges.
    + by apply post_ret.
Qed.

(** ** A whole call *)

Definition call_counted (c : DirectEmissionCursor) (r : option DirectEdge * DirectEmissionCursor) :=
  match r with
  | (Some _, c1) => c1.(emitted) = c.(emitted) + 1
  | (None, c1) =>
      same_count c c1 /\ c1.(pending) = None /\ c1.(cursor_phase) = EmissionPhase.Finished
  end.

Lemma count_call fuel c : post (call_counted c) (next_cursor_edge columns tables P fuel c).
Proof using Type.
  revert c. induction fuel as [|fuel IH]; intros c; cbn [next_cursor_edge]; [by apply post_lift|].
  eapply post_bind; [apply count_step|]. intros [c1|[[edge|] c1]] Hr; cbn in Hr.
  - eapply post_mono; [|apply IH]. unfold same_count in Hr.
    intros [[e|] c2]; unfold call_counted, same_count; rewrite Hr; done.
  - by apply post_ret.
  - apply post_ret. destruct Hr as (->&?&?). by split_and!.
Qed.

(** A batch of edges, and the counter after it. *)
Definition batch_counted (c : DirectEmissionCursor) (n : nat) (edges : list DirectEdge)
    (r : list DirectEdge * DirectEmissionCursor) : Prop :=
  length r.1 = (length edges + n)%nat /\ r.2.(emitted) = c.(emitted) + N.of_nat n.

Lemma count_batch fuel n c edges :
  post (batch_counted c n edges) (batch_edges columns tables P fuel n edges c).
Proof using Type.
  revert c edges. induction n as [|n IH]; intros c edges; cbn [batch_edges].
  { apply post_ret. split; cbn; lia. }
  eapply post_bind; [apply count_call|]. intros [[edge|] c1] Hc; cbn in Hc;
    [|eapply (post_bind (fun _ => False)); [by apply post_lift|done]].
  eapply (post_bind (fun _ => True)); [apply post_trivial|]. intros e _.
  eapply post_mono; [|apply IH]. intros [l c2] [Hl He]. cbn in Hl, He. rewrite length_app in Hl.
  cbn in Hl. split; cbn; lia.
Qed.

Lemma clone_same_count c : ensures (same_count c) (try_clone_cursor c).
Proof using Type. intros c1. unfold try_clone_cursor. intros Hc. by inv_ok. Qed.

(** C31: A batch that is returned has exactly the requested size, or all the
    edges that are left if these are fewer, and the cursor's counter advances
    by that number: with or without a local overlay or composite tables, and
    whatever a concurrent cancellation does. *)
Theorem batch_size fuel c batch obs k edges c1 :
  fst (prepare_next_batch columns tables P fuel c batch obs k) = Ok (edges, c1) ->
  len edges = N.min (remaining_edges P c) batch /\
  c1.(emitted) = c.(emitted) + len edges /\
  remaining_edges P c1 = remaining_edges P c - len edges.
Proof using Type.
  intros Hr. set (n := N.to_nat (N.min (remaining_edges P c) batch)).
  assert (Hb : post (batch_counted c n []) (prepare_next_batch columns tables P fuel c batch)).
  { unfold prepare_next_batch. eapply post_bind; [apply post_lift, clone_same_count|].
    intros c2 Hc. unfold same_count in Hc. eapply post_mono; [|apply count_batch].
    intros r [Hl He]. split; [exact Hl|]. by rewrite He, Hc. }
  destruct (Hb obs k _ Hr) as [Hl He]. cbn in Hl, He. subst n.
  unfold remaining_edges, saturating_sub, len in *. rewrite Hl in *. lia.
Qed.
End count.

(** No overlay, and a vector of annotations that fits: what [prepare_direct]
    returns. *)
Class Direct (P : DirectPreparation) : Prop := {
  direct_deltas : P.(overlay_deltas) = [];
  direct_local : P.(local_object_property_classes) = [];
  direct_annotations nodes :
    P.(selected_annotation_nodes) = Some nodes -> len nodes <= usize_max;
}.

(** ** The batch program *)

Section batch.
Context `{LowercaseTable} (columns : DirectColumns) (P : DirectPreparation).

Abbreviation maximum := (Cursor.maximum P).
Abbreviation bidirectional := (bidirectional_mode P).
Abbreviation roles := P.(preparation_roles).
Abbreviation Shape := PlannedEmissionShape.PlannedEmissionShape.

(** The edges of one root in the phase of a handler. *)
Definition root_edges (expected : RootRuleHandler.RootRuleHandler)
    (shape_edges : option Shape -> outcome (list DirectEdge)) (i : usize)
    : outcome (list DirectEdge) :=
  selected ← root_is_selected columns i;
  if negb selected then Ok [] else
  rule ← root_rule_at P i;
  if negb (bool_decide (rule.(handler) = expected)) then Ok []
  else shape_edges (emission_shape_at P i).

Definition phase_edges (expected : RootRuleHandler.RootRuleHandler)
    (shape_edges : option Shape -> outcome (list DirectEdge)) : outcome (list DirectEdge) :=
  concatM (root_edges expected shape_edges) (range 0 (root_count columns)).

Definition subclass_edges (shape : option Shape) : outcome (list DirectEdge) :=
  match shape with
  | Some (PlannedEmissionShape.SubclassTaxonomy source_node destination_node) =>
      source ← named_class_iri columns source_node maximum;
      destination ← named_class_iri columns destination_node maximum;
      Ok (taxonomy_edges source destination bidirectional)
  | Some (PlannedEmissionShape.SubclassRestriction source_node restriction) =>
      if role_edges_enabled P then
        source ← named_class_iri columns source_node maximum;
        '(relation, destination) ← planned_restriction_parts columns restriction maximum;
        Ok (role_edges roles source relation destination)
      else Ok []
  | Some PlannedEmissionShape.SubclassIgnored => Ok []
  | _ => Err (malformed "encoded subclass root lost its prepared emission shape")
  end.

Definition restriction_edges (source : text) (coordinate : option PlannedRestrictionCoordinate)
    : outcome (list DirectEdge) :=
  match coordinate with
  | Some coordinate =>
      '(relation, destination) ← planned_restriction_parts columns coordinate maximum;
      Ok (role_edges roles source relation destination)
  | None => Ok []
  end.

Definition named_operand_edges (source : text) (node : usize) : outcome (list DirectEdge) :=
  destination ← named_class_iri columns node maximum;
  Ok (taxonomy_edges source destination bidirectional).

Definition aggregate_edges (source : text) (plan_index : usize) : outcome (list DirectEdge) :=
  plan ← aggregate_emission_at P plan_index;
  nodes ← aggregate_emission_named_nodes P plan;
  taxonomy ← concatM (named_operand_edges source) nodes;
  if P.(options).(only_taxonomy) then Ok taxonomy else
  coordinates ← aggregate_emission_restrictions P plan;
  relations ← concatM (restriction_edges source) coordinates;
  Ok (taxonomy ++ relations).

Definition equivalent_edges (shape : option Shape) : outcome (list DirectEdge) :=
  match shape with
  | Some (PlannedEmissionShape.EquivalentPair source_node destination_node) =>
      source ← named_class_iri columns source_node maximum;
      destination ← named_class_iri columns destination_node maximum;
      Ok (taxonomy_edges source destination bidirectional)
  | Some (PlannedEmissionShape.EquivalentAggregate source_node plan_index) =>
      source ← named_class_iri columns source_node maximum;
      aggregate_edges source plan_index
  | Some PlannedEmissionShape.EquivalentIgnored => Ok []
  | _ => Err (malformed "encoded equivalent root lost its prepared emission shape")
  end.

Definition class_assertion_edges (shape : option Shape) : outcome (list DirectEdge) :=
  match shape with
  | Some (PlannedEmissionShape.ClassAssertionEdge individual_node class_node) =>
      individual ← named_individual_iri columns individual_node maximum;
      class ← named_class_iri columns class_node maximum;
      Ok [edge individual RDF_TYPE class]
  | Some PlannedEmissionShape.ClassAssertionIgnored => Ok []
  | _ => Err (malformed "encoded class assertion lost its prepared emission shape")
  end.

Definition object_assertion_edges (shape : option Shape) : outcome (list DirectEdge) :=
  match shape with
  | Some (PlannedEmissionShape.ObjectPropertyAssertion property_node source destination) =>
      relation ← named_object_property_iri columns property_node maximum;
      source ← render_planned_individual columns source P.(anonymous_ids) maximum;
      destination ← render_planned_individual columns destination P.(anonymous_ids) maximum;
      Ok [edge source relation destination]
  | _ => Err (malformed "encoded object property assertion lost its prepared emission shape")
  end.

(** ** Annotations *)

Definition annotation_edges_of (node_id : usize) : outcome (list DirectEdge) :=
  projection ← run (annotation_projection columns node_id maximum);
  match projection with
  | Some projection => edge ← annotation_edge projection P.(anonymous_ids); Ok [edge]
  | None => Ok []
  end.

(** The assertion at a root of the closure, if the root is one. *)
Definition annotation_root_edges (i : usize) : outcome (list DirectEdge) :=
  selected ← root_is_selected columns i;
  if negb selected then Ok [] else
  node_id ← root_id columns i;
  rule ← root_rule_at P i;
  if bool_decide (rule.(handler) = RootRuleHandler.AnnotationAssertion)
  then annotation_edges_of node_id else Ok [].

Definition all_annotation_edges : outcome (list DirectEdge) :=
  if negb P.(options).(include_literals) then Ok [] else
  match P.(selected_annotation_nodes) with
  | Some nodes => concatM annotation_edges_of nodes
  | None => concatM annotation_root_edges (range 0 (root_count columns))
  end.

(** ** Domains and ranges *)

Definition class_entries : outcome (list class_entry) :=
  concatM (fun i =>
    entry ← base_object_property_class_at P columns i;
    Ok (match entry with Some entry => [entry] | None => [] end))
    (range 0 (root_count columns)).

Abbreviation Kind := ObjectPropertyClassRuleKind.ObjectPropertyClassRuleKind.

(** The classes of one kind of axiom about a property, in root order. *)
Definition classes_of (kind : Kind) (property : text) (entries : list class_entry) : list text :=
  omap (fun '(k, p, class) =>
    if bool_decide (k = kind) && bool_decide (p = property) then Some class else None) entries.

Definition text_le : text -> text -> Prop := cmp_le bytes_cmp.

#[export] Instance text_le_dec : RelDecision text_le.
Proof. intros a b. unfold text_le, cmp_le. apply _. Defined.

(** The domains of properties that also have a range, in root order. *)
Definition paired_entry (entries : list class_entry) (entry : class_entry) : option text :=
  let '(k, p, _) := entry in
  if bool_decide (k = ObjectPropertyClassRuleKind.Domain)
     && negb (bool_decide (classes_of ObjectPropertyClassRuleKind.Range p entries = []))
  then Some p else None.
Definition paired_list (entries : list class_entry) : list text :=
  omap (paired_entry entries) entries.

(** The properties with a domain and a range, each once, in byte order. *)
Definition paired_properties (entries : list class_entry) : list text :=
  merge_sort text_le (remove_dups (paired_list entries)).

Definition property_edges (entries : list class_entry) (property : text) : list DirectEdge :=
  domain ← classes_of ObjectPropertyClassRuleKind.Domain property entries;
  range ← classes_of ObjectPropertyClassRuleKind.Range property entries;
  role_edges roles domain property range.

Definition domain_range_edges : outcome (list DirectEdge) :=
  entries ← class_entries;
  Ok (paired_properties entries ≫= property_edges entries).

(** ** The whole emission *)

Definition direct_edges : outcome (list DirectEdge) :=
  subclasses ← phase_edges RootRuleHandler.Subclass subclass_edges;
  if P.(options).(asserted_taxonomy_only) then Ok subclasses else
  equivalents ← phase_edges RootRuleHandler.EquivalentClasses equivalent_edges;
  annotations ← all_annotation_edges;
  class_assertions ← phase_edges RootRuleHandler.ClassAssertion class_assertion_edges;
  object_assertions ← phase_edges RootRuleHandler.ObjectPropertyAssertion object_assertion_edges;
  domain_ranges ← domain_range_edges;
  Ok (subclasses ++ equivalents ++ annotations ++ class_assertions ++ object_assertions
      ++ domain_ranges).
End batch.

(** ** Rounds of the cursor *)

Section emits.
Context `{LowercaseTable} (columns : DirectColumns) (P : DirectPreparation).

Abbreviation round_of := (step columns None P).

(** [emits c l c']: rounds from [c] publish the edges [l] and lead to [c']. *)
Inductive emits : DirectEmissionCursor -> list DirectEdge -> DirectEmissionCursor -> Prop :=
  | emits_refl c : emits c [] c
  | emits_silent c c1 l c' :
      run (round_of c) = Ok (Continue c1) -> emits c1 l c' -> emits c l c'
  | emits_edge c e c1 l c' :
      run (round_of c) = Ok (Return (Some e, c1)) -> emits c1 l c' -> emits c (e :: l) c'.

Lemma emits_app c l c' k c'' : emits c l c' -> emits c' k c'' -> emits c (l ++ k) c''.
Proof using Type. induction 1; cbn; intros; eauto using emits. Qed.

Lemma emits_one c c' : run (round_of c) = Ok (Continue c') -> emits c [] c'.
Proof using Type. eauto using emits. Qed.

Lemma emits_publish c e c' : run (round_of c) = Ok (Return (Some e, c')) -> emits c [e] c'.
Proof using Type. eauto using emits. Qed.

Lemma run_next fuel c :
  run (next_cursor_edge columns None P (S fuel) c) =
  (round ← run (round_of c);
   match round with
   | Return result => Ok result
   | Continue c => run (next_cursor_edge columns None P fuel c)
   end).
Proof using Type.
  cbn [next_cursor_edge]. rewrite run_bind by (first [apply _ | intros []; apply _]).
  apply bind_ext. by intros [] _.
Qed.

(** Enough fuel for a call: the silent rounds before its edge. *)
Lemma emits_next c e l c' : emits c (e :: l) c' ->
  exists c1 n, emits c1 l c' /\
    forall fuel, (n <= fuel)%nat -> run (next_cursor_edge columns None P fuel c) = Ok (Some e, c1).
Proof using Type.
  intros E. remember (e :: l) as k eqn:Hk. revert e l Hk.
  induction E as [c|c c1 k c' Hs E IH|c e0 c1 k c' Hs E IH]; intros e l Hk; [done| |].
  - destruct (IH e l Hk) as (c2&n&E2&Hf). exists c2, (S n). split; [done|].
    intros [|fuel] Hfuel; [lia|]. rewrite run_next, Hs. cbn. apply Hf. lia.
  - injection Hk as -> ->. exists c1, 1%nat. split; [done|].
    intros [|fuel] Hfuel; [lia|]. rewrite run_next, Hs. done.
Qed.

(** ** Expansions *)

Definition idle (c : DirectEmissionCursor) : Prop :=
  c.(pending) = None /\ c.(aggregate) = None /\ c.(owned_aggregate) = None.

Definition advance (c : DirectEmissionCursor) (n : usize) : DirectEmissionCursor :=
  c <| emitted := c.(emitted) + n |>.

Lemma run_step c :
  run (round_of c) =
  match c.(pending) with
  | Some expansion => pending_round P c expansion
  | None =>
      match c.(cursor_phase) with
      | EmissionPhase.Subclasses => run (subclasses_round columns P c)
      | EmissionPhase.Equivalents => run (equivalents_round columns P c)
      | EmissionPhase.Annotations => run (annotations_round columns None P c)
      | EmissionPhase.ClassAssertions => run (class_assertions_round columns P c)
      | EmissionPhase.ObjectAssertions => run (object_assertions_round columns P c)
      | EmissionPhase.DomainRanges => run (domain_ranges_round columns P c)
      | EmissionPhase.Finished => Ok (Return (None, c))
      end
  end.
Proof using Type.
  unfold step. rewrite run_bind; [|apply _|].
  - rewrite run_check_cancel. cbn. destruct (pending c); [done|]. by destruct (cursor_phase c).
  - intros _. destruct (pending c); [apply _|].
    destruct (cursor_phase c); unfold subclasses_round, class_assertions_round,
      object_assertions_round; apply _.
Qed.

(** A pending expansion whose cursor reads the list [l]. *)
Lemma emits_pending c (E : usize -> PendingExpansion) l k :
  (forall k, k <= len l -> next_edge (E k) P.(preparation_roles) = Ok (get l k, E (k + 1))) ->
  k <= len l -> c.(emitted) + (len l - k) <= usize_max ->
  emits (c <| pending := Some (E k) |>) (drop (N.to_nat k) l)
    (c <| pending := None |> <| emitted := c.(emitted) + (len l - k) |>).
Proof using Type.
  intros HE. remember (N.to_nat (len l - k)) as n eqn:Hn. revert c k Hn.
  induction n as [|n IH]; intros c k Hn Hk Hm.
  - assert (k = len l) as -> by lia. rewrite drop_ge by (unfold len; lia).
    apply emits_one. rewrite run_step. cbn [set_field pending]. unfold pending_round.
    rewrite HE by lia. rewrite (proj2 (get_None l (len l))) by lia. cbn.
    rewrite N.sub_diag, N.add_0_r. done.
  - destruct (get_lt_Some l k) as [e He]; [lia|].
    rewrite (drop_S l e) by (by rewrite <- get_lookup).
    eapply emits_edge.
    + rewrite run_step. cbn [set_field pending]. unfold pending_round. rewrite HE, He by lia.
      cbn [mbind outcome_bind]. unfold publish_edge, publish. cbn [set_field emitted].
      rewrite (proj2 (checked_add_Some (emitted c) 1 (emitted c + 1)) ltac:(lia)). cbn. done.
    + replace (S (N.to_nat k)) with (N.to_nat (k + 1)) by lia.
      specialize (IH (c <| emitted := c.(emitted) + 1 |>) (k + 1)). cbn in IH.
      replace (emitted c + (len l - k)) with (emitted c + 1 + (len l - (k + 1))) by lia.
      apply IH; lia.
Qed.

Lemma emits_expansion c (E : usize -> PendingExpansion) l :
  (forall k, k <= len l -> next_edge (E k) P.(preparation_roles) = Ok (get l k, E (k + 1))) ->
  c.(pending) = None -> c.(emitted) + len l <= usize_max ->
  emits (c <| pending := Some (E 0) |>) l (advance c (len l)).
Proof using Type.
  intros HE Hp Hm. pose proof (emits_pending c E l 0 HE) as H0. rewrite N.sub_0_r in H0.
  specialize (H0 (N.le_0_l _) Hm). destruct c. cbn in *. by subst.
Qed.

Lemma emits_taxonomy c source destination b :
  c.(pending) = None -> c.(emitted) + len (taxonomy_edges source destination b) <= usize_max ->
  exists c1, start_taxonomy c source destination b = Ok c1 /\
    emits c1 (taxonomy_edges source destination b)
      (advance c (len (taxonomy_edges source destination b))).
Proof using Type.
  intros Hp Hm. eexists. split; [done|].
  apply (emits_expansion c (fun k => Taxonomy source destination k b)); [|done|done].
  intros k Hk. apply next_edge_taxonomy. rewrite len_taxonomy_edges in Hk.
  unfold usize_max; destruct b; lia.
Qed.

Lemma emits_role c source relation destination :
  let l := role_edges P.(preparation_roles) source relation destination in
  c.(pending) = None -> c.(emitted) + len l < usize_max ->
  exists c1, start_role c source relation destination = Ok c1 /\ emits c1 l (advance c (len l)).
Proof using Type.
  intros l Hp Hm. eexists. split; [done|].
  pose proof (len_role_edges P.(preparation_roles) source relation destination) as Hl. fold l in Hl.
  apply (emits_expansion c (Role source relation destination)); [|done|lia].
  intros k Hk. apply next_edge_role; [lia|]. unfold role_fits. lia.
Qed.

(** ** Scans over the roots *)

(** What a round leads to. *)
Definition leads (o : outcome Round) (l : list DirectEdge) (c' : DirectEmissionCursor) : Prop :=
  match o with
  | Ok (Continue c) => emits c l c'
  | Ok (Return (Some e, c)) => exists k, l = e :: k /\ emits c k c'
  | _ => False
  end.

Lemma leads_emits c l c' : leads (run (round_of c)) l c' -> emits c l c'.
Proof using Type.
  unfold leads. destruct (run (round_of c)) as [[c1|[[e|] c1]]| | |] eqn:E; try done.
  - by apply emits_silent.
  - intros (k&->&Hk). by eapply emits_edge.
Qed.

Lemma leads_app o l c' k c'' : leads o l c' -> emits c' k c'' -> leads o (l ++ k) c''.
Proof using Type.
  unfold leads. destruct o as [[c1|[[e|] c1]]| | |]; try done.
  - eauto using emits_app.
  - intros (k0&->&Hk) E. exists (k0 ++ k). split; [done|]. eauto using emits_app.
Qed.

Lemma advance_0 c : advance c 0 = c.
Proof using Type. destruct c. unfold advance. cbn. by rewrite N.add_0_r. Qed.

Lemma advance_advance c n m : advance (advance c n) m = advance c (n + m).
Proof using Type. destruct c. unfold advance. cbn. by rewrite N.add_assoc. Qed.

Lemma idle_advance c n : idle c -> idle (advance c n).
Proof using Type. done. Qed.

Section scan.
Context (p next : EmissionPhase.EmissionPhase) (expected : RootRuleHandler.RootRuleHandler).
Context (emit : DirectEmissionCursor -> option PlannedEmissionShape.PlannedEmissionShape -> outcome Round).
Context (shape_edges : option PlannedEmissionShape.PlannedEmissionShape -> outcome (list DirectEdge)).

(** The phase is the scan, and [emit] publishes the edges of its shape. *)
Context (is_scan : forall c, idle c -> c.(cursor_phase) = p ->
  run (round_of c) = run (scan_round columns P c next expected emit)).
Context (emit_leads : forall c shape l, idle c -> c.(cursor_phase) = p ->
  shape_edges shape = Ok l -> c.(emitted) + len l < usize_max -> leads (emit c shape) l (advance c (len l))).
Context (small : root_count columns <= usize_max).

Lemma scan_root c i l : idle c -> c.(cursor_phase) = p -> c.(scan_index) = i ->
  i < root_count columns -> root_edges columns P expected shape_edges i = Ok l ->
  c.(emitted) + len l < usize_max ->
  emits c l (advance (c <| scan_index := i + 1 |>) (len l)).
Proof using All.
  intros Hi Hp Hs Hlt Hl Hm. apply leads_emits. rewrite is_scan by done. unfold scan_round.
  rewrite Hs. destruct (N.eqb_spec i (root_count columns)); [lia|].
  rewrite wrapping_add_small by lia. cbn zeta. run_steps.
  unfold root_edges in Hl. apply bind_Ok in Hl as (selected&->&Hl). cbn [mbind outcome_bind].
  assert (Hidle : idle (c <| scan_index := i + 1 |>)) by (by destruct c).
  destruct selected; cbn [negb] in *.
  2: { injection Hl as <-. rewrite len_nil, advance_0. run_steps. apply emits_refl. }
  run_steps. apply bind_Ok in Hl as (rule&->&Hl). cbn [mbind outcome_bind].
  destruct (bool_decide (handler rule = expected)); cbn [negb] in *.
  - run_steps. by apply emit_leads.
  - injection Hl as <-. rewrite len_nil, advance_0. run_steps. apply emits_refl.
Qed.

Lemma scan_from n c i l : n = N.to_nat (root_count columns - i) -> i <= root_count columns ->
  idle c -> c.(cursor_phase) = p -> c.(scan_index) = i ->
  concatM (root_edges columns P expected shape_edges) (range i (root_count columns)) = Ok l ->
  c.(emitted) + len l < usize_max ->
  emits c l (advance (c <| scan_index := 0 |> <| cursor_phase := next |>) (len l)).
Proof using All.
  revert c i l. induction n as [|n IH]; intros c i l Hn Hle Hi Hp Hs Hl Hm.
  - rewrite range_empty in Hl by lia. injection Hl as <-. change (len []) with 0. rewrite advance_0.
    apply emits_one. rewrite is_scan by done. unfold scan_round. rewrite Hs.
    destruct (N.eqb_spec i (root_count columns)); [done|lia].
  - rewrite range_cons in Hl by lia. apply concatM_cons_Ok in Hl as (part&rest&Hpart&Hrest&->).
    rewrite len_app in Hm. eapply emits_app.
    + apply (scan_root c i); try done; lia.
    + rewrite len_app. apply (IH (advance (c <| scan_index := i + 1 |>) (len part)) (i + 1)) in Hrest;
        [|lia|lia|by destruct c|by destruct c|done|destruct c; cbn in *; lia].
      destruct c. unfold advance in *. cbn in *. by rewrite N.add_assoc.
Qed.

Lemma scan_phase c l : idle c -> c.(cursor_phase) = p -> c.(scan_index) = 0 ->
  phase_edges columns P expected shape_edges = Ok l -> c.(emitted) + len l < usize_max ->
  emits c l (advance (c <| cursor_phase := next |>) (len l)).
Proof using All.
  intros Hi Hp Hs Hl Hm.
  pose proof (scan_from _ c 0 l eq_refl ltac:(lia) Hi Hp Hs Hl Hm) as E.
  destruct c. cbn in *. by subst.
Qed.
End scan.
End emits.
