(* ===== verification/Exact.v ===== *)
(** * The preflight is exact

    The counting passes and the phases of the batch program both walk the
    selected roots; against a populated plan they are passes over its log, and
    what they count are sums over it.  The edge count of the preflight, read from
    the shapes of the plan, is the number of edges of the batch program, which
    reads the columns again through the coordinates of the plan; and the batch
    program does not fail. *)

From stdpp Require Import sorting relations.
From S2P Require Import Prelude Errors Partial Lists Tags Text Readers Columns Nodes Properties Classes Graphs.
From S2P Require Import Structure Reach Validated Anonymous Sort Stats Rules Table Planning Plans Populate Roles.
From S2P Require Import Emission Overlay Preparation Preflight Cursor Emit.
Local Open Scope string_scope.
Local Open Scope list_scope.
Local Open Scope N_scope.

(** ** Tallies *)

Lemma tally_sum (p : Logged -> bool) log : tally p log = sum (fun r => one (p r)) log.
Proof.
  unfold tally. induction log as [|r log IH]; [done|]. rewrite sum_cons, <- IH. cbn.
  destruct (p r); [apply len_cons|done].
Qed.

(** ** Loops that answer *)

Lemma enumerate_post {A S} (f : S -> A -> Cx S) (I : list A -> S -> Prop) s l :
  I [] s ->
  (forall visited x rest s, l = visited ++ x :: rest -> I visited s -> post (I (visited ++ [x])) (f s x)) ->
  post (I l) (enumerate_checked f s l).
Proof.
  intros H0 Hf. unfold enumerate_checked.
  eapply (post_bind (fun st => I l st.1)).
  - apply (post_foldM_ind (fun visited st => I visited st.1)); [done|].
    intros visited x rest [s' i] Hl Hs.
    eapply post_bind; [apply post_trivial|intros _ _].
    eapply post_bind; [by eapply Hf|]. intros s'' Hs''. by apply post_ret.
  - intros [s' i] Hs. by apply post_ret.
Qed.

Section log.
Context `{LowercaseTable} (columns : DirectColumns) (maximum : usize).
Context (plan : SelectedRootRulePlan) (log : list Logged).
Context (planned : populated columns maximum (root_count columns) plan log).

(** ** Lookups *)

Lemma log_keyed : keyed logged_root log.
Proof using planned.
  unfold keyed. rewrite (populated_roots _ _ _ _ _ planned). apply filter_sorted, range_sorted.
Qed.

Lemma log_ok r : r ∈ log -> logged_ok columns maximum plan.(rule_indexes) r.
Proof using planned.
  pose proof (populated_logged _ _ _ _ _ planned) as Hl. rewrite Forall_forall in Hl. apply Hl.
Qed.

Lemma log_rule r : r ∈ log -> rule_at plan r.(logged_root) = Ok r.(logged_rule).
Proof using planned. intros Hr. apply (logged_index _ _ _ _ (log_ok r Hr)). Qed.

Lemma log_shape r : r ∈ log -> shape_at plan r.(logged_root) = fst <$> r.(logged_plan).
Proof using planned.
  intros Hr. unfold shape_at. rewrite (populated_shapes _ _ _ _ _ planned).
  rewrite (find_entry logged_root); [|by intros [? ? ? [[? ?]|]] ? [= <-]|apply log_keyed|done].
  unfold shape_entry. by destruct (logged_plan r) as [[? ?]|].
Qed.

Lemma log_emission r : r ∈ log ->
  emission_shape <$> find_root emission_root_index plan.(emission_roots) r.(logged_root)
  = snd <$> r.(logged_plan).
Proof using planned.
  intros Hr. rewrite (populated_emissions _ _ _ _ _ planned).
  rewrite (find_entry logged_root); [|by intros [? ? ? [[? ?]|]] ? [= <-]|apply log_keyed|done].
  unfold emission_entry. by destruct (logged_plan r) as [[? ?]|].
Qed.

(** ** Passes over the roots *)

(** A loop whose body works on the selected roots only. *)
Lemma selected_loop {S} (I : list Logged -> S -> Prop) (g : S -> usize -> Cx S) s :
  I [] s ->
  (forall visited r rest s, log = visited ++ r :: rest -> I visited s ->
     post (I (visited ++ [r])) (g s r.(logged_root))) ->
  post (I log) (foldM (fun s i =>
    _ ← check_cancel i;
    selected ← !root_is_selected columns i;
    if negb selected then mret s else g s i) s (range 0 (root_count columns))).
Proof using planned.
  intros H0 Hg. pose proof (populated_roots _ _ _ _ _ planned) as Hroots.
  set (J := fun roots s => exists visited rest, log = visited ++ rest /\
    logged_root <$> visited = filter (is_selected columns) roots /\ I visited s).
  eapply (post_mono (J (range 0 (root_count columns)))).
  { intros s' (visited&rest&Hl&Hv&HI). rewrite <- Hroots, Hl, fmap_app in Hv.
    apply (f_equal length) in Hv. rewrite length_app in Hv.
    destruct rest as [|r rest]; [by rewrite Hl, app_nil_r|]. cbn in Hv. lia. }
  apply post_foldM_ind; [by exists [], log|].
  intros roots i after s' Hrange (visited&rest&Hl&Hv&HI).
  rewrite Hrange, filter_app, filter_cons, <- Hv, Hl, fmap_app in Hroots. apply app_inv_head in Hroots.
  unfold J. eapply post_bind; [apply post_trivial|intros _ _].
  eapply post_bind; [apply post_lift, ensures_self|intros b Hb]. cbn beta in Hb.
  destruct b; cbn [negb].
  - rewrite decide_True in Hroots by done. destruct rest as [|r rest]; [done|].
    injection Hroots as <- _. eapply post_mono; [|by eapply Hg].
    intros s'' HI''. exists (visited ++ [r]), rest. split_and!; [by rewrite <- app_assoc| |done].
    rewrite filter_app, filter_cons, decide_True, fmap_app, Hv by done. done.
  - apply post_ret. exists visited, rest. split_and!; [done| |done].
    rewrite filter_app, filter_cons, decide_False, filter_nil, app_nil_r by (unfold is_selected; congruence).
    done.
Qed.

Lemma for_selected_post {S} (I : list Logged -> S -> Prop) (wanted : RootRule -> bool)
    (f : S -> usize -> option PlannedRootShape.PlannedRootShape -> Cx S) s :
  I [] s ->
  (forall visited r rest s, log = visited ++ r :: rest -> I visited s ->
     if wanted r.(logged_rule)
     then post (I (visited ++ [r])) (f s r.(logged_root) (fst <$> r.(logged_plan)))
     else I (visited ++ [r]) s) ->
  post (I log) (for_selected columns plan wanted f s).
Proof using planned.
  intros H0 Hf. unfold for_selected.
  apply (selected_loop I (fun s i => rule ← !rule_at plan i;
    if negb (wanted rule) then mret s else f s i (shape_at plan i))); [done|].
  intros visited r rest s' Hl HI. assert (Hr : r ∈ log) by (rewrite Hl; set_solver).
  specialize (Hf visited r rest s' Hl HI). rewrite (log_rule r Hr), (log_shape r Hr).
  eapply post_bind; [apply post_lift, ensures_self|]. intros rule [= <-].
  destruct (wanted _); cbn [negb]; [done|by apply post_ret].
Qed.

(** A pass of the batch program. *)
Lemma concatM_log {B} (f : usize -> outcome (list B)) :
  (forall i, root_is_selected columns i = Ok false -> f i = Ok []) ->
  concatM f (range 0 (root_count columns)) = concatM (fun r => f r.(logged_root)) log.
Proof using planned.
  intros Hf. rewrite (concatM_filter f (is_selected columns)).
  - by rewrite <- (populated_roots _ _ _ _ _ planned), concatM_fmap.
  - intros i Hi%elem_of_range Hs. apply Hf.
    destruct (populated_total _ _ _ _ _ planned i) as [[] Hb]; [lia|done|done].
Qed.
End log.

(** What [prepare_direct] hands from the plan to the preparation. *)
Record prepared_from (plan : SelectedRootRulePlan) (P : DirectPreparation) : Prop := {
  from_rules : P.(emission_plan).(prepared_rule_indexes) = plan.(rule_indexes);
  from_emissions : P.(emission_plan).(prepared_emission_roots) = plan.(emission_roots);
  from_aggregates : P.(emission_plan).(prepared_aggregate_roots) = plan.(arenas).(aggregate_roots);
  from_named : P.(emission_plan).(prepared_named_nodes) = plan.(arenas).(emission_named_nodes);
  from_restrictions :
    P.(emission_plan).(prepared_restrictions) = plan.(arenas).(emission_restrictions);
  from_ranges aggregate : aggregate ∈ plan.(arenas).(aggregate_roots) ->
    (exists nodes, aggregate_emission_named_nodes P aggregate = Ok nodes) /\
    (exists coordinates, aggregate_emission_restrictions P aggregate = Ok coordinates);
  from_roots root : root ∈ plan.(emission_roots) ->
    match root.(emission_shape) with
    | PlannedEmissionShape.EquivalentAggregate _ i => exists aggregate,
        get plan.(arenas).(aggregate_roots) i = Some aggregate /\
        aggregate.(aggregate_root_index) = root.(emission_root_index)
    | _ => True
    end;
}.

(** A slice of the emission arena is the slice of the operand arena seen
    through the coordinates. *)
Lemma checked_plan_slice_fmap {A B} (f : A -> B) values range message message' k :
  checked_plan_slice (f <$> values) range message = Ok k ->
  exists l, checked_plan_slice values range message' = Ok l /\ k = f <$> l /\
    forall x, x ∈ l -> x ∈ values.
Proof.
  unfold checked_plan_slice. intros (e&He&Hk)%bind_Ok. apply ok_or_Ok in He.
  rewrite He. cbn [ok_or mbind outcome_bind].
  rewrite ok_or_Ok in Hk. apply get_range_Some in Hk as (Hb&Hl&->).
  eexists. rewrite ok_or_Ok, get_range_Some. split; [|split; [by rewrite <- !fmap_drop, <- !fmap_take|]].
  - split_and!; [done| |done]. unfold len in *. by rewrite length_fmap in Hl.
  - intros x (i&Hi&_)%elem_of_take. rewrite lookup_drop in Hi. by eapply list_elem_of_lookup_2.
Qed.

(** A loop that checks every element. *)
Lemma post_check {A S} (f : S -> A -> Cx S) (Q : A -> Prop) s l :
  (forall s x, post (fun _ => Q x) (f s x)) -> post (fun _ => forall x, x ∈ l -> Q x) (foldM f s l).
Proof.
  intros Hf. apply (post_foldM_ind (fun visited _ => forall x, x ∈ visited -> Q x)).
  - by intros x ?%elem_of_nil.
  - intros visited x rest s' _ HQ. eapply post_mono; [|apply Hf]. intros s'' Hx y Hy. set_solver.
Qed.

Lemma take_emission_plan_ok plan :
  post (fun taken => forall P, P.(emission_plan) = taken -> prepared_from plan P)
    (take_emission_plan plan).
Proof.
  unfold take_emission_plan.
  eapply post_bind.
  { apply (post_check _ (fun aggregate => forall P,
      P.(emission_plan).(prepared_named_nodes) = plan.(arenas).(emission_named_nodes) ->
      P.(emission_plan).(prepared_restrictions) = plan.(arenas).(emission_restrictions) ->
      (exists nodes, aggregate_emission_named_nodes P aggregate = Ok nodes) /\
      (exists coordinates, aggregate_emission_restrictions P aggregate = Ok coordinates))).
    intros i aggregate. unfold check_aggregate_ranges.
    eapply post_bind; [apply post_trivial|intros _ _].
    eapply post_bind; [apply post_lift, ensures_self|intros nodes Hn].
    eapply post_bind; [apply post_lift, ensures_self|intros coordinates Hc]. apply post_ret.
    intros P Hp1 Hp2. unfold aggregate_emission_named_nodes, aggregate_emission_restrictions.
    rewrite Hp1, Hp2. split; [by exists nodes|by exists coordinates]. }
  intros i1 Hranges. eapply post_bind.
  { apply (post_check _ (fun root => match root.(emission_shape) with
      | PlannedEmissionShape.EquivalentAggregate _ i => exists aggregate,
          get plan.(arenas).(aggregate_roots) i = Some aggregate /\
          aggregate.(aggregate_root_index) = root.(emission_root_index)
      | _ => True
      end)).
    intros i root. unfold check_emission_root.
    eapply post_bind; [apply post_trivial|intros _ _].
    destruct (emission_shape root); try by apply post_trivial.
    eapply post_bind; [apply post_lift, ensures_self|intros aggregate Ha%ok_or_Ok].
    destruct (N.eqb_spec aggregate.(aggregate_root_index) root.(emission_root_index)) as [E|];
      cbn [negb]; [|by apply post_lift]. apply post_ret. by eexists. }
  intros i2 Hroots. apply post_ret. intros P HP.
  constructor; rewrite ?HP; try done. intros aggregate Ha. apply Hranges; by rewrite ?HP.
Qed.

(** ** Roles *)

(** The edges of a relation: the count does not depend on the ends. *)
Definition role_count (rs : RoleState) (relation : text) : N := len (role_edges rs [] relation []).

Lemma role_count_edges rs source relation destination :
  len (role_edges rs source relation destination) = role_count rs relation.
Proof. unfold role_count. by rewrite !len_role_edges. Qed.

Lemma edge_count_role rs relation n : edge_count rs relation = Ok n -> n = role_count rs relation.
Proof. apply edge_count_Ok. Qed.

Lemma taxonomy_count P source destination :
  len (taxonomy_edges source destination (bidirectional_mode P)) = directions P.(options).
Proof. unfold directions, bidirectional_mode. by destruct (bidirectional _). Qed.

Section exact.
Context `{LowercaseTable} (columns : DirectColumns) (P : DirectPreparation).
Context (plan : SelectedRootRulePlan) (log : list Logged).

Abbreviation max := (Cursor.maximum P).
Abbreviation roles := P.(preparation_roles).

Context (planned : populated columns max (root_count columns) plan log).
Context (from : prepared_from plan P).

(** ** Reading a root again *)

Lemma entry_rule r : r ∈ log -> root_rule_at P r.(logged_root) = Ok r.(logged_rule).
Proof using planned from.
  intros Hr. unfold root_rule_at. rewrite (from_rules _ _ from). by eapply log_rule.
Qed.

Lemma entry_emission r : r ∈ log -> emission_shape_at P r.(logged_root) = snd <$> r.(logged_plan).
Proof using planned from.
  intros Hr. unfold emission_shape_at. rewrite (from_emissions _ _ from). by eapply log_emission.
Qed.

Lemma entry_selected r : r ∈ log -> root_is_selected columns r.(logged_root) = Ok true.
Proof using planned. intros Hr. by eapply logged_before. Qed.

(** A phase over the shapes is a pass over the entries of its handler. *)
Lemma phase_edges_log expected shape_edges :
  phase_edges columns P expected shape_edges =
  concatM (fun r => if is_handler expected r then shape_edges (snd <$> r.(logged_plan)) else Ok []) log.
Proof using planned from.
  unfold phase_edges. rewrite (concatM_log _ _ _ _ planned).
  - apply concatM_ext. intros r Hr. unfold root_edges.
    rewrite entry_selected by done. cbn [mbind outcome_bind negb].
    rewrite entry_rule by done. cbn [mbind outcome_bind]. unfold is_handler.
    destruct (bool_decide _); cbn [negb]; [|done]. by rewrite entry_emission.
  - intros i Hi. unfold root_edges. by rewrite Hi.
Qed.

Lemma phase_edges_sum expected shape_edges (w : Logged -> N) :
  (forall r, r ∈ log -> is_handler expected r = true ->
     exists part, shape_edges (snd <$> r.(logged_plan)) = Ok part /\ len part = w r) ->
  (forall r, r ∈ log -> is_handler expected r = false -> w r = 0) ->
  exists l, phase_edges columns P expected shape_edges = Ok l /\ len l = sum w log.
Proof using planned from.
  intros Hw H0. rewrite phase_edges_log. apply concatM_sum. intros r Hr.
  destruct (is_handler expected r) eqn:E; [by apply Hw|]. exists []. by rewrite H0.
Qed.

(** ** Subclasses *)

Definition restriction_weight (r : Logged) : N :=
  match r.(logged_plan) with
  | Some (PlannedRootShape.Subclass (Restriction _ relation _), _) => role_count roles relation
  | _ => 0
  end.

Definition is_taxonomy (r : Logged) : bool :=
  match r.(logged_plan) with
  | Some (PlannedRootShape.Subclass (Classes.Taxonomy _ _), _) => true
  | _ => false
  end.

Definition subclass_weight (r : Logged) : N :=
  one (is_taxonomy r) * directions P.(options)
  + (if role_edges_enabled P then restriction_weight r else 0).

(** The planned shape and its denotation, from the handler. *)
Ltac by_handler r Hr :=
  pose proof (logged_fits _ _ _ _ (log_ok _ _ _ _ planned r Hr)) as Hfit;
  pose proof (logged_denotes _ _ _ _ (log_ok _ _ _ _ planned r Hr)) as Hden;
  unfold is_handler, fits in *;
  destruct r as [? ? ? [[[] ?]|]]; cbn [logged_plan logged_rule logged_node logged_root
    fmap option_fmap option_map fst snd] in *.

Lemma subclass_edges_sum :
  exists l, phase_edges columns P RootRuleHandler.Subclass (subclass_edges columns P) = Ok l /\
    len l = sum subclass_weight log.
Proof using planned from.
  apply phase_edges_sum; intros r Hr Hh; unfold subclass_weight, restriction_weight, is_taxonomy.
  - apply bool_decide_eq_true in Hh. by_handler r Hr; rewrite Hh in Hfit; try done.
    inversion Hden; subst; cbn; replay.
    + eexists. split; [done|]. rewrite taxonomy_count. by destruct (role_edges_enabled P); lia.
    + destruct (role_edges_enabled P); replay; eexists; (split; [done|]); [|done].
      by rewrite role_count_edges.
    + eexists. split; [done|]. by destruct (role_edges_enabled P).
  - apply bool_decide_eq_false in Hh. by_handler r Hr; try by destruct (role_edges_enabled P).
    by destruct (handler logged_rule).
Qed.

(** Every root of the handler is a taxonomy axiom, a restriction or ignored. *)
Lemma subclass_weight_sum :
  sum subclass_weight log =
  (tally (is_handler RootRuleHandler.Subclass) log - tally is_restriction log
   - tally is_ignored_subclass log) * directions P.(options)
  + (if role_edges_enabled P then sum restriction_weight log else 0).
Proof using planned.
  assert (E : tally (is_handler RootRuleHandler.Subclass) log =
    tally is_restriction log + tally is_ignored_subclass log + tally is_taxonomy log).
  { rewrite !tally_sum, <- !sum_plus. apply sum_ext. intros r Hr.
    unfold is_restriction, is_ignored_subclass, is_taxonomy. by_handler r Hr.
    all: destruct (handler logged_rule); try done. all: by destruct projection. }
  rewrite E. unfold subclass_weight. rewrite sum_plus, sum_mult, tally_sum.
  replace (_ + _ + _ - _ - _) with (tally is_taxonomy log) by lia. rewrite tally_sum.
  f_equal. destruct (role_edges_enabled P); [done|apply sum_zero].
Qed.

Lemma restriction_count_post :
  post (fun count => count = sum restriction_weight log)
    (restriction_role_edge_count columns plan roles).
Proof using planned from.
  unfold restriction_role_edge_count.
  apply (for_selected_post _ _ _ _ planned (fun visited count => count = sum restriction_weight visited));
    [done|].
  intros visited r rest count Hl ->. assert (Hr : r ∈ log) by (rewrite Hl; set_solver).
  rewrite sum_snoc. unfold has_handler, restriction_weight.
  destruct (bool_decide _) eqn:Hh.
  - apply bool_decide_eq_true in Hh. by_handler r Hr; rewrite Hh in Hfit; try done.
    destruct projection; try (apply post_ret; lia).
    eapply post_bind; [apply post_lift, ensures_self|intros edges He%edge_count_role].
    apply post_lift. intros total [-> _]%ok_or_Ok%checked_add_Some. by subst edges.
  - apply bool_decide_eq_false in Hh. by_handler r Hr; try lia. by destruct (handler logged_rule).
Qed.

(** ** Equivalent classes *)

Definition operand_weight (operand : PlannedAggregateRestrictionOperand) : N :=
  match operand.(restriction_projected) with
  | Some (relation, _) => role_count roles relation
  | None => 0
  end.

Definition named_weight (aggregate : PlannedAggregateRoot) : N :=
  match aggregate_named_operands plan aggregate with
  | Ok operands => len operands * directions P.(options)
  | _ => 0
  end.

Definition aggregate_weight (aggregate : PlannedAggregateRoot) : N :=
  named_weight aggregate +
  (if P.(options).(only_taxonomy) then 0 else
   match aggregate_restriction_operands plan aggregate with
   | Ok operands => sum operand_weight operands
   | _ => 0
   end).

Definition equivalent_weight (r : Logged) : N :=
  match r.(logged_plan) with
  | Some (PlannedRootShape.Equivalent (Pair _ _ _ _), _) => directions P.(options)
  | Some (PlannedRootShape.Equivalent (Aggregate _ _ _), _) =>
      match aggregate_at plan r.(logged_root) with
      | Some aggregate => aggregate_weight aggregate
      | None => 0
      end
  | _ => 0
  end.

Lemma add_edges_post counts amount message :
  ensures (fun c => c.(Preflight.equivalent_edges) = counts.(Preflight.equivalent_edges) + amount)
    (add_edges counts amount message).
Proof using Type.
  unfold add_edges. intros c (v&[-> _]%ok_or_Ok%checked_add_Some&[= <-])%bind_Ok. done.
Qed.

Lemma add_ignored_post counts amount :
  ensures (fun c => c.(Preflight.equivalent_edges) = counts.(Preflight.equivalent_edges)) (add_ignored counts amount).
Proof using Type. unfold add_ignored. by intros c (v&_&[= <-])%bind_Ok. Qed.

Lemma restriction_operand_post counts operand :
  post (fun c => c.(Preflight.equivalent_edges) = counts.(Preflight.equivalent_edges) + operand_weight operand)
    (restriction_operand_count roles counts operand).
Proof using Type.
  unfold restriction_operand_count, operand_weight.
  destruct (restriction_projected operand) as [[relation ?]|]; [|apply post_ret; by rewrite N.add_0_r].
  eapply post_bind; [apply post_lift, ensures_self|intros expanded ->%edge_count_role].
  eapply post_bind; [apply post_lift, add_edges_post|intros c Hc]. cbn beta in Hc.
  eapply post_bind; [apply post_trivial|intros base _].
  eapply post_bind; [apply post_trivial|intros total _]. by apply post_ret.
Qed.

Lemma aggregate_count_post counts aggregate :
  post (fun c => c.(Preflight.equivalent_edges) = counts.(Preflight.equivalent_edges) + aggregate_weight aggregate)
    (aggregate_count plan roles (directions P.(options)) P.(options).(only_taxonomy) counts aggregate).
Proof using Type.
  unfold aggregate_count, aggregate_weight, named_weight.
  eapply post_bind; [apply post_lift, ensures_self|intros named Hn]. cbn beta in Hn. rewrite Hn.
  eapply (post_bind (fun c => c.(Preflight.equivalent_edges)
    = counts.(Preflight.equivalent_edges) + len named * directions P.(options))).
  { apply (enumerate_post _ (fun visited c =>
      c.(Preflight.equivalent_edges) = counts.(Preflight.equivalent_edges) + len visited * directions P.(options))).
    - by rewrite N.mul_0_l, N.add_0_r.
    - intros visited x rest c _ Hc. apply post_lift.
      eapply ensures_mono; [|apply add_edges_post]. intros c' ->. rewrite Hc, len_app, len_cons, len_nil.
      lia. }
  intros c Hc. destruct (only_taxonomy _); [apply post_ret; lia|].
  eapply post_bind; [apply post_lift, add_ignored_post|intros c1 Hc1]. cbn beta in Hc1.
  eapply post_bind; [apply post_lift, ensures_self|intros operands Ho]. cbn beta in Ho. rewrite Ho.
  eapply post_mono; [|apply (enumerate_post _ (fun visited c' =>
      c'.(Preflight.equivalent_edges) = c1.(Preflight.equivalent_edges) + sum operand_weight visited))].
  - intros c' ->. rewrite Hc1, Hc. lia.
  - by rewrite N.add_0_r.
  - intros visited x rest c' _ Hc'. eapply post_mono; [|apply restriction_operand_post].
    intros c'' ->. rewrite Hc', sum_snoc. lia.
Qed.

Lemma equivalent_count_post :
  post (fun counts => counts.(Preflight.equivalent_edges) = sum equivalent_weight log)
    (equivalent_edge_counts columns plan roles (directions P.(options)) P.(options).(only_taxonomy)).
Proof using planned from.
  unfold equivalent_edge_counts.
  apply (for_selected_post _ _ _ _ planned
    (fun visited counts => counts.(Preflight.equivalent_edges) = sum equivalent_weight visited)); [done|].
  intros visited r rest counts Hl Hc. assert (Hr : r ∈ log) by (rewrite Hl; set_solver).
  rewrite sum_snoc, <- Hc. unfold has_handler, equivalent_weight.
  destruct (bool_decide _) eqn:Hh.
  - apply bool_decide_eq_true in Hh. by_handler r Hr; rewrite Hh in Hfit; try done.
    destruct projection.
    + apply post_lift, add_edges_post.
    + eapply post_bind; [apply post_lift, ensures_self|intros aggregate Ha%ok_or_Ok].
      rewrite Ha. apply aggregate_count_post.
    + rewrite N.add_0_r. apply post_lift, add_ignored_post.
  - apply bool_decide_eq_false in Hh. by_handler r Hr; try lia. by destruct (handler logged_rule).
Qed.

Lemma aggregate_edges_sum source aggregate i :
  get plan.(arenas).(aggregate_roots) i = Some aggregate ->
  exists l, aggregate_edges columns P source i = Ok l /\ len l = aggregate_weight aggregate.
Proof using planned from.
  intros Hi. unfold aggregate_edges, aggregate_weight, named_weight, aggregate_emission_at.
  rewrite (from_aggregates _ _ from), Hi. cbn [ok_or mbind outcome_bind].
  destruct (from_ranges _ _ from aggregate) as [[nodes Hn] [coordinates Hc]]; [by eapply get_elem_of|].
  destruct (populated_arenas _ _ _ _ _ planned) as [An Ar Dn Dr]. rewrite Forall_forall in Dn. rewrite Forall_forall in Dr.
  rewrite Hn. cbn [mbind outcome_bind].
  unfold aggregate_emission_named_nodes in Hn. rewrite (from_named _ _ from), An in Hn.
  eapply checked_plan_slice_fmap in Hn as (operands&Ho&->&Hin).
  unfold aggregate_named_operands. rewrite Ho, concatM_fmap.
  destruct (concatM_sum (fun operand => named_operand_edges columns P source operand.(named_node_id))
    (fun _ => 1 * directions P.(options)) operands) as (taxonomy&Ht&Hl).
  { intros operand Hop. unfold named_operand_edges. rewrite (Dn operand (Hin _ Hop)).
    eexists. split; [done|]. rewrite taxonomy_count. lia. }
  rewrite Ht. cbn [mbind outcome_bind].
  assert (El : len taxonomy = len operands * directions P.(options)).
  { rewrite Hl, sum_mult. f_equal. clear. induction operands; [done|]. rewrite sum_cons, IHoperands.
    by rewrite len_cons. }
  destruct (only_taxonomy (options P)); [exists taxonomy; split; [done|lia]|].
  rewrite Hc. cbn [mbind outcome_bind].
  unfold aggregate_emission_restrictions in Hc. rewrite (from_restrictions _ _ from), Ar in Hc.
  eapply checked_plan_slice_fmap in Hc as (restricted&Ho'&->&Hin').
  unfold aggregate_restriction_operands. rewrite Ho', concatM_fmap.
  destruct (concatM_sum (fun operand => restriction_edges columns P source operand.(coordinate))
    operand_weight restricted) as (relations&Hr&Hl').
  { intros operand Hop. specialize (Dr operand (Hin' _ Hop)).
    unfold restriction_edges, operand_weight.
    inversion Dr as [E1 E2|[relation destination] c Hc E1 E2]; [by exists []|].
    rewrite Hc. eexists. split; [done|]. by rewrite role_count_edges. }
  rewrite Hr. cbn [mbind outcome_bind]. eexists. split; [done|]. rewrite len_app. lia.
Qed.

Lemma equivalent_edges_sum :
  exists l, phase_edges columns P RootRuleHandler.EquivalentClasses (equivalent_edges columns P) = Ok l /\
    len l = sum equivalent_weight log.
Proof using planned from.
  apply phase_edges_sum; intros r Hr Hh; unfold equivalent_weight.
  - apply bool_decide_eq_true in Hh. pose proof Hr as Hentry. by_handler r Hr; rewrite Hh in Hfit; try done.
    inversion Hden; subst; cbn; replay.
    + eexists. split; [done|]. by rewrite taxonomy_count.
    + destruct (from_roots _ _ from {| emission_root_index := logged_root;
          emission_shape := PlannedEmissionShape.EquivalentAggregate source_node plan_index |})
        as (aggregate'&Ha&Hroot).
      { rewrite (populated_emissions _ _ _ _ _ planned). apply list_elem_of_omap.
        eexists. split; [exact Hentry|done]. }
      unfold aggregate_at. cbn in Hroot. rewrite <- Hroot.
      rewrite (find_root_found aggregate_root_index);
        [|apply (populated_keyed _ _ _ _ _ planned)|by eapply get_elem_of].
      by apply aggregate_edges_sum.
    + by exists [].
  - apply bool_decide_eq_false in Hh. by_handler r Hr; try done. by destruct (handler logged_rule).
Qed.

(** ** Assertions *)

Definition is_edge (r : Logged) : bool :=
  match r.(logged_plan) with
  | Some (PlannedRootShape.ClassAssertion (Edge_ _ _ _ _), _) => true
  | _ => false
  end.

Lemma class_assertion_edges_sum :
  exists l, phase_edges columns P RootRuleHandler.ClassAssertion (class_assertion_edges columns P) = Ok l /\
    len l = tally (is_handler RootRuleHandler.ClassAssertion) log - tally is_ignored_assertion log.
Proof using planned from.
  destruct (phase_edges_sum RootRuleHandler.ClassAssertion (class_assertion_edges columns P)
    (fun r => one (is_edge r))) as (l&Hl&Hs).
  - intros r Hr Hh%bool_decide_eq_true. unfold is_edge. by_handler r Hr; rewrite Hh in Hfit; try done.
    inversion Hden; subst; cbn; replay; by eexists.
  - intros r Hr Hh%bool_decide_eq_false. unfold is_edge. by_handler r Hr; try done.
    by destruct (handler logged_rule).
  - exists l. split; [done|]. rewrite Hs, <- tally_sum.
    assert (E : tally (is_handler RootRuleHandler.ClassAssertion) log =
      tally is_ignored_assertion log + tally is_edge log); [|lia].
    rewrite !tally_sum, <- sum_plus. apply sum_ext. intros r Hr.
    unfold is_ignored_assertion, is_edge. by_handler r Hr.
    all: destruct (handler logged_rule); try done. all: by destruct projection.
Qed.

(** The anonymous individuals an axiom mentions have an identifier. *)
Context {V : Validated columns}.
Context (ids : run (axiom_anonymous_ids columns) = Ok P.(anonymous_ids)).

Lemma log_below r : r ∈ log -> r.(logged_root) < root_count columns.
Proof using planned. intros Hr. by eapply logged_before. Qed.

Lemma renders r n :
  r ∈ log ->
  is_handler RootRuleHandler.ObjectPropertyAssertion r = true \/
    is_handler RootRuleHandler.AnnotationAssertion r = true ->
  refers columns r.(logged_node) n -> is_anonymous columns n ->
  exists t, render P.(anonymous_ids) n = Ok t.
Proof using planned V ids.
  intros Hr Hh Hn Ha. pose proof (log_ok _ _ _ _ planned r Hr) as Hok.
  assert (Hin : n ∈ P.(anonymous_ids).(node_ids)).
  { apply (axiom_anonymous_ids_spec columns); [exact ids|]. split; [done|].
    exists r.(logged_node). split; [|by apply rtc_once]. exists r.(logged_root).
    split_and!; [by apply log_below|by apply entry_selected| |apply Hok].
    rewrite (logged_kind _ _ _ _ Hok). f_equal.
    pose proof (rules_consistent _ (logged_in _ _ _ _ Hok)) as Hc. unfold rule_consistent in Hc.
    apply andb_true_iff in Hc as [_ Hc]. unfold is_handler in Hh.
    destruct Hh as [Hh|Hh]; rewrite Hh in Hc; [|rewrite orb_true_r in Hc]; by apply N.eqb_eq in Hc. }
  apply elem_of_get in Hin as [i Hi]. exists (identifier i). by apply (render_member columns).
Qed.

Lemma individual_renders r value coordinate :
  r ∈ log -> is_handler RootRuleHandler.ObjectPropertyAssertion r = true ->
  individual_denotes columns max r.(logged_node) value coordinate ->
  exists t, render_planned_individual columns coordinate P.(anonymous_ids) max = Ok t.
Proof using planned V ids.
  intros Hr Hh Hd. destruct Hd as [iri n Hn|n Hn Ha]; cbn.
  - rewrite Hn. by eexists.
  - eapply renders; eauto.
Qed.

Lemma object_assertion_edges_sum :
  exists l, phase_edges columns P RootRuleHandler.ObjectPropertyAssertion
      (object_assertion_edges columns P) = Ok l /\
    len l = tally (is_handler RootRuleHandler.ObjectPropertyAssertion) log.
Proof using planned from V ids.
  rewrite tally_sum. apply phase_edges_sum.
  - intros r Hr Hh. rewrite Hh. pose proof (individual_renders r) as Hind.
    pose proof Hh as Hh'%bool_decide_eq_true. by_handler r Hr; rewrite Hh' in Hfit; try done.
    inversion Hden; subst; cbn.
    destruct (Hind source sc) as [t Ht]; [done..|]. destruct (Hind destination dc) as [t' Ht']; [done..|].
    replay. by eexists.
  - intros r Hr Hh. by rewrite Hh.
Qed.
End exact.
