(* ===== verification/Products.v ===== *)
(** * Annotations, domains and ranges are counted exactly

    The counting passes and the emission read each annotation assertion the
    same way; what is left to show is that its value can be rendered.  The
    preflight multiplies the domains and ranges of a property in the order of
    the domain axioms; emission groups the same pairs by property in byte
    order. *)

From stdpp Require Import sorting relations.
From S2P Require Import Prelude Errors Partial Lists Tags Text Readers Columns Nodes Properties Classes Graphs.
From S2P Require Import Structure Reach Validated Anonymous Sort Stats Rules Table Planning Plans Populate Provenance.
From S2P Require Import Roles Emission Overlay Preparation Preflight Cursor Emit Exact.
Local Open Scope string_scope.
Local Open Scope list_scope.
Local Open Scope N_scope.

(** ** The text of an annotation value *)

Section values.
Context `{LowercaseTable} (columns : DirectColumns) (maximum : usize).

Lemma scalar_payload_within i kind payload :
  scalar_payload columns i kind = Ok payload -> len payload <= len columns.(scalar_bytes).
Proof using Type.
  unfold scalar_payload. intros Hp. follow_both.
  match goal with H : get_range _ _ _ = Some _ |- _ =>
    pose proof (get_range_len _ _ _ _ H); apply get_range_Some in H as (_&?&_) end. lia.
Qed.

Lemma from_utf8_payload payload error t : from_utf8 payload error = Ok t -> t = payload.
Proof using Type. unfold from_utf8. by destruct (utf8_decode payload); intros [= <-]. Qed.

Lemma iri_within n t : iri columns n maximum = Ok t -> len t <= len columns.(scalar_bytes).
Proof using Type.
  unfold iri. intros Hi. follow_both.
  match goal with H : from_utf8 _ _ = Ok _ |- _ => apply from_utf8_payload in H as -> end.
  by eapply scalar_payload_within.
Qed.

Lemma datatype_within n t :
  named_datatype_iri columns n maximum = Ok t -> len t <= len columns.(scalar_bytes).
Proof using Type. unfold named_datatype_iri, named_entity_iri. intros Hi. follow_both. by eapply iri_within. Qed.

Lemma literal_within n lexical datatype :
  literal_parts columns n maximum = Ok (lexical, datatype) ->
  len lexical <= len columns.(scalar_bytes) /\ len datatype <= len columns.(scalar_bytes).
Proof using Type.
  unfold literal_parts. intros (tag&_&Hl)%bind_Ok. destruct (negb _); [done|].
  apply bind_Ok in Hl as (start&_&Hl). apply bind_Ok in Hl as (payload&Hp&Hl).
  apply bind_Ok in Hl as (t&Ht%from_utf8_payload&Hl). subst t.
  apply bind_Ok in Hl as (datatype_id&_&Hl). apply bind_Ok in Hl as (t&Ht&Hl).
  apply bind_Ok in Hl as (kind&_&Hl). apply bind_Ok in Hl as (u&_&[= <- <-]).
  split; [by eapply scalar_payload_within|by eapply datatype_within].
Qed.

(** A value of the assertion [node] that can be rendered. *)
Definition value_of (node : usize) (v : AnnotationValue) : Prop :=
  match v with
  | Borrowed _ => True
  | AnonymousValue n => refers columns node n /\ is_anonymous columns n
  | Typed lexical datatype =>
      len lexical <= len columns.(scalar_bytes) /\ len datatype <= len columns.(scalar_bytes)
  end.

Context (small : field_count columns <= usize_max).

Lemma annotation_value_of node arity start k c v :
  exact_fields columns node arity = Ok start -> k < arity ->
  field_node columns (start +w k) = Ok c ->
  annotation_value columns c maximum = Ok v -> value_of node v.
Proof using small.
  intros Hs Hk Hc. unfold annotation_value. intros Hv. follow_both; cbn; try done.
  - split; [by eapply field_refers_node|]. unfold is_anonymous.
    match goal with H : (?t =? TAG_ANONYMOUS_INDIVIDUAL) = true |- _ => apply N.eqb_eq in H; congruence end.
  - by eapply literal_within.
Qed.

Lemma annotation_projection_value node :
  post (fun o => match o with Some p => value_of node p.(annotation_projected) | None => True end)
    (annotation_projection columns node maximum).
Proof using small.
  unfold annotation_projection.
  eapply post_bind; [apply post_trivial|intros tag _]. destruct (negb _); [by apply post_lift|].
  eapply post_bind; [apply post_lift, ensures_self|intros start Hs].
  eapply post_bind; [apply post_trivial|intros property_id _].
  eapply post_bind; [apply post_trivial|intros property _]. destruct (negb _); [by apply post_ret|].
  eapply post_bind; [apply post_trivial|intros subject_id _].
  eapply post_bind; [apply post_trivial|intros subject_tag _].
  destruct (subject_tag =? _); [eapply post_bind; [apply post_trivial|by intros; apply post_ret]|].
  destruct (negb _); [by apply post_lift|].
  eapply post_bind; [apply post_trivial|intros source _].
  eapply post_bind; [apply post_trivial|intros is_class _]. destruct (negb _); [by apply post_ret|].
  eapply post_bind; [apply post_lift, ensures_self|intros value_id Hv].
  eapply post_bind; [apply post_lift, ensures_self|intros value Hval]. apply post_ret.
  apply (annotation_value_of node 4 start 2 value_id); [done|lia|done|done].
Qed.
End values.

(** ** The annotations of a root document *)

Section documents.
Context `{LowercaseTable} (columns : DirectColumns) (maximum : usize).
Context (plan : SelectedRootRulePlan) (log : list Logged).
Context (planned : populated columns maximum (root_count columns) plan log).

(** An annotation assertion among the selected roots. *)
Definition annotation_node (n : usize) : Prop :=
  exists r, r ∈ log /\ is_handler RootRuleHandler.AnnotationAssertion r = true /\ r.(logged_node) = n.

Lemma log_at i n rule :
  root_is_selected columns i = Ok true -> root_id columns i = Ok n -> i < root_count columns ->
  resolved_root_rule_at plan.(rule_indexes) i = Ok rule ->
  rule.(handler) = RootRuleHandler.AnnotationAssertion -> annotation_node n.
Proof using planned.
  intros Hs Hn Hi Hrule Hh.
  assert (Hin : i ∈ logged_root <$> log).
  { rewrite (populated_roots _ _ _ _ _ planned). apply list_elem_of_filter. split; [done|].
    apply elem_of_range. lia. }
  apply list_elem_of_fmap in Hin as (r&->&Hr). exists r.
  pose proof (log_ok _ _ _ _ planned r Hr) as Hok. split; [done|]. split.
  - apply bool_decide_eq_true. pose proof (logged_index _ _ _ _ Hok). congruence.
  - pose proof (logged_id _ _ _ _ Hok). congruence.
Qed.

Lemma find_closure_node_post root_columns fuel root_node closure_index :
  post (fun found => forall n, found.1 = Some n -> annotation_node n)
    (find_closure_node columns plan.(rule_indexes) root_columns fuel root_node closure_index).
Proof using planned.
  revert closure_index. induction fuel as [|fuel IH]; intros i; cbn [find_closure_node].
  { destruct (negb _); [by apply post_ret|by apply post_lift]. }
  destruct (N.ltb_spec i (root_count columns)); cbn [negb]; [|by apply post_ret].
  eapply post_bind; [apply post_lift, ensures_self|intros b Hb]. cbn beta in Hb.
  destruct b; cbn [negb]; [|apply IH].
  eapply post_bind; [apply post_lift, ensures_self|intros n Hn].
  eapply post_bind; [apply post_lift, ensures_self|intros rule Hrule].
  destruct (bool_decide _) eqn:Hh; cbn [negb]; [|apply IH].
  eapply post_bind; [apply post_trivial|intros b _].
  destruct b; [|apply IH]. apply post_ret. intros n' [= <-].
  apply bool_decide_eq_true in Hh. by apply (log_at i n rule).
Qed.

Lemma select_root_annotation_nodes_post root_columns root_rule_indexes :
  post (fun nodes => len nodes <= root_count root_columns /\ forall n, n ∈ nodes -> annotation_node n)
    (select_root_annotation_nodes columns plan.(rule_indexes) root_columns root_rule_indexes).
Proof using planned.
  unfold select_root_annotation_nodes.
  eapply (post_bind (fun st => len st.1 <= root_count root_columns /\
    forall n, n ∈ st.1 -> annotation_node n)); [|intros [nodes i] Hn; by apply post_ret].
  eapply post_mono; [|apply (post_foldM_ind (fun visited st => len st.1 <= len visited /\
    forall n, n ∈ st.1 -> annotation_node n))].
  - intros st [Hl Hn]. split; [|done]. unfold len in Hl at 2. rewrite length_range in Hl. lia.
  - split; [done|by intros n ?%elem_of_nil].
  - intros visited x rest [nodes i] _ [Hl Hn]. cbn [fst] in Hl, Hn. unfold select_annotation_step.
    assert (Hskip : len nodes <= len (visited ++ [x])) by (rewrite len_app; lia).
    eapply post_bind; [apply post_trivial|intros _ _].
    eapply post_bind; [apply post_trivial|intros b _]. destruct (negb b); [by apply post_ret|].
    eapply post_bind; [apply post_trivial|intros rule _].
    eapply post_bind; [apply post_trivial|intros root_node _]. destruct (negb _); [by apply post_ret|].
    eapply post_bind; [apply find_closure_node_post|intros [found i'] Hf].
    eapply post_bind; [apply post_lift, ensures_self|intros n Hfound%ok_or_Ok]. apply post_ret. cbn. split.
    + rewrite !len_app, !len_cons. lia.
    + intros n' [?| ->%list_elem_of_singleton]%elem_of_app; [by apply Hn|by apply Hf].
Qed.
End documents.

(** ** Annotation assertions *)

Section annotated.
Context `{LowercaseTable} (columns : DirectColumns) (P : DirectPreparation).
Context (plan : SelectedRootRulePlan) (log : list Logged).

Abbreviation max := (Cursor.maximum P).

Context (planned : populated columns max (root_count columns) plan log).

Definition node_weight (n : usize) : N :=
  match run (annotation_projection columns n max) with Ok (Some _) => 1 | _ => 0 end.

Definition readable (n : usize) : Prop :=
  exists o, run (annotation_projection columns n max) = Ok o.

(** ** The counting passes *)

Lemma count_annotation_post counts projection :
  ensures (fun c => c.(annotation_edges)
      = counts.(annotation_edges) + match projection with Some _ => 1 | None => 0 end)
    (count_annotation counts projection).
Proof using Type.
  unfold count_annotation. destruct projection as [p|]; [|apply ensures_Ok; by rewrite N.add_0_r].
  intros c (v&[-> _]%ok_or_Ok%checked_add_Some&(u&_&[= <-])%bind_Ok)%bind_Ok. done.
Qed.

Lemma count_node_post counts n :
  post (fun c => c.(annotation_edges) = counts.(annotation_edges) + node_weight n /\ readable n)
    (projection ← annotation_projection columns n max; !count_annotation counts projection).
Proof using Type.
  eapply post_bind; [apply post_transparent, _|intros o Ho]. cbn beta in Ho.
  apply post_lift. eapply ensures_mono; [|apply count_annotation_post].
  intros c ->. unfold node_weight. rewrite Ho. split; [by destruct o|by exists o].
Qed.

Definition annotation_weight (r : Logged) : N :=
  if is_handler RootRuleHandler.AnnotationAssertion r then node_weight r.(logged_node) else 0.

Lemma annotation_count_post :
  post (fun counts => counts.(annotation_edges) = sum annotation_weight log /\
      forall r, r ∈ log -> is_handler RootRuleHandler.AnnotationAssertion r = true ->
        readable r.(logged_node))
    (annotation_edge_counts columns plan.(rule_indexes) max).
Proof using planned.
  unfold annotation_edge_counts.
  apply (selected_loop _ _ _ _ planned (fun visited counts =>
    counts.(annotation_edges) = sum annotation_weight visited /\
    forall r, r ∈ visited -> is_handler RootRuleHandler.AnnotationAssertion r = true ->
      readable r.(logged_node))); [split; [done|by intros r ?%elem_of_nil]|].
  intros visited r rest counts Hl [Hc Hread]. assert (Hr : r ∈ log) by (rewrite Hl; set_solver).
  pose proof (log_ok _ _ _ _ planned r Hr) as Hok. rewrite sum_snoc. unfold annotation_weight at 2.
  eapply post_bind; [apply post_lift, ensures_self|intros n Hn]. cbn beta in Hn.
  rewrite (logged_id _ _ _ _ Hok) in Hn. injection Hn as <-.
  eapply post_bind; [apply post_lift, ensures_self|intros rule Hrule]. cbn beta in Hrule.
  rewrite (logged_index _ _ _ _ Hok) in Hrule. injection Hrule as <-.
  change (has_handler RootRuleHandler.AnnotationAssertion (logged_rule r))
    with (is_handler RootRuleHandler.AnnotationAssertion r).
  destruct (is_handler _ r) eqn:Hh; cbn [negb].
  - eapply post_mono; [|apply count_node_post]. intros c [-> Hn]. split; [by rewrite Hc|].
    intros r' [?| ->%list_elem_of_singleton]%elem_of_app ?; [by apply Hread|done].
  - apply post_ret. split; [by rewrite N.add_0_r|].
    intros r' [?| ->%list_elem_of_singleton]%elem_of_app ?; [by apply Hread|congruence].
Qed.

Lemma selected_count_post nodes :
  post (fun counts => counts.(annotation_edges) = sum node_weight nodes /\
      forall n, n ∈ nodes -> readable n)
    (selected_annotation_edge_counts columns nodes max).
Proof using Type.
  unfold selected_annotation_edge_counts.
  apply (enumerate_post _ (fun visited counts => counts.(annotation_edges) = sum node_weight visited /\
    forall n, n ∈ visited -> readable n)); [split; [done|by intros n ?%elem_of_nil]|].
  intros visited n rest counts _ [Hc Hread]. eapply post_mono; [|apply count_node_post].
  intros c [-> Hn]. split; [by rewrite Hc, sum_snoc|].
  intros n' [?| ->%list_elem_of_singleton]%elem_of_app; [by apply Hread|done].
Qed.

(** ** The edges *)

Context (from : prepared_from plan P).
Context {V : Validated columns}.
Context (ids : run (axiom_anonymous_ids columns) = Ok P.(anonymous_ids)).
Context (small : field_count columns <= usize_max).
Context (roomy : 2 * len columns.(scalar_bytes) + 8 <= usize_max).

Lemma annotation_edges_one n : annotation_node log n -> readable n ->
  exists l, annotation_edges_of columns P n = Ok l /\ len l = node_weight n.
Proof using planned V ids small roomy.
  intros (r&Hr&Hh&<-) [o Ho]. unfold annotation_edges_of, node_weight. rewrite Ho. cbn [mbind outcome_bind].
  pose proof (post_run _ _ _ (annotation_projection_value columns max small _) Ho) as Hv.
  destruct o as [p|]; [|by exists []].
  assert (Hd : exists t, match p.(annotation_projected) with
    | Borrowed value => clone_text value
    | AnonymousValue node_id => render P.(anonymous_ids) node_id
    | Typed lexical datatype => render_typed_annotation_literal lexical datatype
    end = Ok t).
  { destruct (annotation_projected p) as [|n|lexical datatype]; cbn in Hv.
    - by eexists.
    - destruct Hv. eapply (renders columns P plan log planned ids); eauto.
    - unfold render_typed_annotation_literal.
      rewrite (proj2 (checked_add_Some (len datatype) 5 (len datatype + 5)) ltac:(lia)).
      cbn [ok_or mbind outcome_bind].
      rewrite (proj2 (checked_add_Some (len lexical) 3 (len lexical + 3)) ltac:(lia)).
      cbn [mbind option_bind].
      rewrite (proj2 (checked_add_Some (len lexical + 3) (len datatype + 5)
        (len lexical + 3 + (len datatype + 5))) ltac:(lia)).
      by eexists. }
  destruct Hd as [t Ht]. unfold annotation_edge. rewrite Ht. by eexists.
Qed.

(** What the preflight counts is what the phase emits. *)
Lemma annotations_post :
  (forall nodes, P.(selected_annotation_nodes) = Some nodes -> forall n, n ∈ nodes -> annotation_node log n) ->
  post (fun counts =>
      if P.(options).(asserted_taxonomy_only) then counts.(annotation_edges) = 0 else
      exists l, all_annotation_edges columns P = Ok l /\ len l = counts.(annotation_edges))
    (prepare_annotation_counts columns P.(options) plan P.(selected_annotation_nodes)).
Proof using planned from V ids small roomy.
  intros Hnodes. unfold prepare_annotation_counts, all_annotation_edges.
  destruct (asserted_taxonomy_only _); cbn [orb]; [by apply post_ret|].
  destruct (include_literals _); cbn [negb]; [|apply post_ret; by exists []].
  destruct (selected_annotation_nodes P) as [nodes|] eqn:Hsel.
  - eapply post_mono; [|apply selected_count_post]. intros counts [-> Hread].
    apply concatM_sum. intros n Hn. apply annotation_edges_one; [by eapply Hnodes|by apply Hread].
  - eapply post_mono; [|apply annotation_count_post]. intros counts [-> Hread].
    rewrite (concatM_log _ _ _ _ planned); [|intros i Hi; unfold annotation_root_edges; by rewrite Hi].
    apply concatM_sum. intros r Hr. unfold annotation_root_edges, annotation_weight.
    rewrite (entry_selected columns P plan log planned r Hr). cbn [mbind outcome_bind negb].
    rewrite (logged_id _ _ _ _ (log_ok _ _ _ _ planned r Hr)). cbn [mbind outcome_bind].
    rewrite (entry_rule columns P plan log planned from r Hr). cbn [mbind outcome_bind].
    unfold is_handler. destruct (bool_decide _) eqn:Hh; [|by exists []].
    apply annotation_edges_one; [by exists r|by apply Hread].
Qed.
End annotated.

(** ** Counting by value *)

Definition count {A} `{EqDecision A} (x : A) (l : list A) : N := sum (fun y => one (bool_decide (y = x))) l.

Lemma sum_at {A} `{EqDecision A} (w : A -> N) x l : NoDup l ->
  sum (fun y => one (bool_decide (x = y)) * w y) l = if bool_decide (x ∈ l) then w x else 0.
Proof.
  induction 1 as [|y l Hy _ IH]; [by rewrite bool_decide_eq_false_2 by set_solver|].
  rewrite sum_cons, IH. destruct (decide (x = y)) as [->|Hne].
  - rewrite bool_decide_eq_true_2, bool_decide_eq_false_2, bool_decide_eq_true_2 by set_solver.
    cbn [one]. lia.
  - rewrite (bool_decide_eq_false_2 (x = y)) by done. cbn [one].
    destruct (decide (x ∈ l)).
    + rewrite !bool_decide_eq_true_2 by set_solver. lia.
    + rewrite !bool_decide_eq_false_2 by set_solver. lia.
Qed.

(** A sum over a list is the sum over its values, each as often as it occurs. *)
Lemma sum_by_value {A} `{EqDecision A} (w : A -> N) (values l : list A) : NoDup values ->
  (forall x, x ∈ l -> x ∉ values -> w x = 0) ->
  sum w l = sum (fun v => count v l * w v) values.
Proof.
  intros Hd. unfold count. induction l as [|x l IH]; intros Hw.
  - rewrite <- (sum_zero values) at 1. by apply sum_ext.
  - rewrite sum_cons, IH by set_solver.
    transitivity (sum (fun v => one (bool_decide (x = v)) * w v
      + sum (fun y => one (bool_decide (y = v))) l * w v) values).
    2: { apply sum_ext. intros v _. rewrite sum_cons. lia. }
    rewrite sum_plus, sum_at by done. f_equal.
    destruct (decide (x ∈ values)); [by rewrite bool_decide_eq_true_2|].
    rewrite bool_decide_eq_false_2 by done. apply Hw; set_solver.
Qed.

Lemma sum_Permutation {A} (w : A -> N) l k : l ≡ₚ k -> sum w l = sum w k.
Proof. induction 1; rewrite ?sum_cons; lia. Qed.

Lemma sum_omap {A B} (f : A -> option B) (w : B -> N) l :
  sum w (omap f l) = sum (fun x => match f x with Some y => w y | None => 0 end) l.
Proof.
  induction l as [|x l IH]; [done|]. rewrite sum_cons, <- IH. cbn. by destruct (f x).
Qed.

Lemma len_sum {A} (l : list A) : len l = sum (fun _ => 1) l.
Proof. induction l; [done|]. rewrite sum_cons, <- IHl. apply len_cons. Qed.

Lemma len_bind {A B} (f : A -> list B) l : len (l ≫= f) = sum (fun x => len (f x)) l.
Proof. induction l as [|x l IH]; [done|]. cbn [mbind list_bind]. by rewrite len_app, IH. Qed.

Lemma concatM_omap {A B} (g : A -> option B) l :
  concatM (fun x => Ok (match g x with Some y => [y] | None => [] end)) l = Ok (omap g l).
Proof.
  induction l as [|x l IH]; [done|]. rewrite concatM_cons, IH. cbn. by destruct (g x).
Qed.

Section products.
Context `{LowercaseTable} (columns : DirectColumns) (P : DirectPreparation).
Context (plan : SelectedRootRulePlan) (log : list Logged).

Abbreviation max := (Cursor.maximum P).
Abbreviation roles := P.(preparation_roles).
Abbreviation Domain := ObjectPropertyClassRuleKind.Domain.
Abbreviation Range := ObjectPropertyClassRuleKind.Range.

Context (planned : populated columns max (root_count columns) plan log).

(** ** The entries of the log *)

Definition entry_of (r : Logged) : option class_entry :=
  match r.(logged_plan), ObjectPropertyClassRuleKind.from_effect r.(logged_rule).(domain_range_effect) with
  | Some (PlannedRootShape.ObjectPropertyClass (Some (property, class)), _), Some kind =>
      Some (kind, property, class)
  | _, _ => None
  end.

Definition entries : list class_entry := omap entry_of log.

(** A rule has a domain or range effect exactly when its handler is that of
    the domain and range axioms. *)
Lemma effect_handler r : r ∈ log ->
  is_handler RootRuleHandler.ObjectPropertyClass r =
  match ObjectPropertyClassRuleKind.from_effect r.(logged_rule).(domain_range_effect) with
  | Some _ => true | None => false
  end.
Proof using planned.
  intros Hr. pose proof (log_ok _ _ _ _ planned r Hr) as Hok.
  pose proof (rules_consistent _ (logged_in _ _ _ _ Hok)) as Hc. unfold rule_consistent in Hc.
  apply andb_true_iff in Hc as [Hc _]. apply andb_true_iff in Hc as [_ Hc].
  apply eqb_prop in Hc. unfold is_handler. rewrite <- Hc.
  by destruct (domain_range_effect (logged_rule r)).
Qed.

Lemma class_entries_log : prepared_from plan P -> class_entries columns P = Ok entries.
Proof using planned.
  intros from. unfold class_entries, entries. rewrite (concatM_log _ _ _ _ planned).
  - rewrite <- concatM_omap. apply concatM_ext. intros r Hr. f_equal.
    pose proof (effect_handler r Hr) as Heff.
    enough (E : base_object_property_class_at P columns r.(logged_root) = Ok (entry_of r)) by (by rewrite E).
    unfold base_object_property_class_at, entry_of.
    rewrite (entry_selected columns P plan log planned r Hr). cbn [mbind outcome_bind negb].
    rewrite (entry_rule columns P plan log planned from r Hr). cbn [mbind outcome_bind].
    rewrite (entry_emission columns P plan log planned from r Hr).
    unfold is_handler in Heff. rewrite Heff.
    pose proof (logged_fits _ _ _ _ (log_ok _ _ _ _ planned r Hr)) as Hfit.
    pose proof (logged_denotes _ _ _ _ (log_ok _ _ _ _ planned r Hr)) as Hden.
    destruct (ObjectPropertyClassRuleKind.from_effect _) as [kind|].
    + apply bool_decide_eq_true in Heff. unfold fits in Hfit. rewrite Heff in Hfit.
      destruct (logged_plan r) as [[[] ?]|]; try done. inversion Hden; subst; cbn; [|done].
      change (max_iri_bytes (options P)) with max. by replay.
    + by destruct (logged_plan r) as [[[| |[[]|]| |] ?]|].
  - intros i Hi. unfold base_object_property_class_at. by rewrite Hi.
Qed.

(** ** The count *)

Definition matching (kind : ObjectPropertyClassRuleKind.ObjectPropertyClassRuleKind) (property : text)
    (entry : class_entry) : bool :=
  let '(k, p, _) := entry in bool_decide (k = kind) && bool_decide (p = property).

Lemma len_classes_of kind property l :
  len (classes_of kind property l) = sum (fun entry => one (matching kind property entry)) l.
Proof using Type.
  unfold classes_of. rewrite len_sum, sum_omap. apply sum_ext. intros [[k p] class] _. cbn.
  by destruct (bool_decide _ && bool_decide _).
Qed.

Definition range_weight (property : text) (r : Logged) : N :=
  match entry_of r with
  | Some entry => one (matching Range property entry) * role_count roles property
  | None => 0
  end.

(** The pairs a domain axiom is in, in edges. *)
Definition pair_weight (property : text) : N :=
  len (classes_of Range property entries) * role_count roles property.

Definition domain_weight (r : Logged) : N :=
  match entry_of r with
  | Some (ObjectPropertyClassRuleKind.Domain, property, _) => pair_weight property
  | _ => 0
  end.

Lemma range_weight_sum property : sum (range_weight property) log = pair_weight property.
Proof using Type.
  unfold pair_weight. rewrite len_classes_of, <- sum_mult. unfold entries. by rewrite sum_omap.
Qed.

(** The shape the counting pass meets for an effect. *)
Lemma effect_shape r expected : r ∈ log -> has_effect expected r.(logged_rule) = true ->
  expected <> RootDomainRangeEffect.None ->
  exists projection, fst <$> r.(logged_plan) = Some (PlannedRootShape.ObjectPropertyClass projection) /\
    entry_of r = match projection, ObjectPropertyClassRuleKind.from_effect expected with
                 | Some (property, class), Some kind => Some (kind, property, class)
                 | _, _ => None
                 end.
Proof using planned.
  intros Hr He%bool_decide_eq_true Hne. pose proof (effect_handler r Hr) as Hh. rewrite He in Hh.
  destruct expected; [done|..]; apply bool_decide_eq_true in Hh; unfold entry_of; rewrite He;
    pose proof (logged_fits _ _ _ _ (log_ok _ _ _ _ planned r Hr)) as Hfit;
    unfold fits in Hfit; rewrite Hh in Hfit;
    destruct (logged_plan r) as [[[] ?]|]; try done; eexists; (split; [done|]);
    by destruct projection as [[? ?]|].
Qed.

Lemma effect_absent r kind property class :
  r ∈ log -> entry_of r = Some (kind, property, class) ->
  ObjectPropertyClassRuleKind.from_effect r.(logged_rule).(domain_range_effect) = Some kind.
Proof using Type.
  intros _. unfold entry_of. destruct (logged_plan r) as [[[| |[[]|]| |] ?]|]; try done.
  by destruct (ObjectPropertyClassRuleKind.from_effect _); intros [= <- _ _].
Qed.

Lemma range_count_post property st :
  post (fun st' => st'.2 = st.2 + pair_weight property)
    (for_selected columns plan (has_effect RootDomainRangeEffect.Range) (fun st range_index shape =>
      match shape with
      | Some (PlannedRootShape.ObjectPropertyClass None) => mret st
      | Some (PlannedRootShape.ObjectPropertyClass (Some (range_property, _))) =>
          if negb (bool_decide (property = range_property)) then mret st else
          let '(products, edges) := (st : usize * usize) in
          products ← !ok_or (checked_add products 1) (resource "encoded domain/range edge-count overflow");
          count ← !edge_count roles property;
          edges ← !ok_or (checked_add edges count) (resource "encoded domain/range edge-count overflow");
          mret (products, edges)
      | _ => !Err (malformed "encoded object-property range lost its planned semantic shape")
      end) st).
Proof using planned.
  rewrite <- range_weight_sum.
  apply (for_selected_post _ _ _ _ planned (fun visited (st' : usize * usize) =>
    st'.2 = st.2 + sum (range_weight property) visited)); [by rewrite N.add_0_r|].
  intros visited r rest st' Hl Hst. assert (Hr : r ∈ log) by (rewrite Hl; set_solver).
  rewrite sum_snoc, N.add_assoc, <- Hst. unfold range_weight.
  destruct (has_effect _ _) eqn:He.
  - destruct (effect_shape r _ Hr He) as (projection&->&->); [done|].
    destruct projection as [[p class]|]; [|apply post_ret; by rewrite N.add_0_r].
    cbn [ObjectPropertyClassRuleKind.from_effect matching].
    rewrite (bool_decide_eq_true_2 (Range = Range)) by done. cbn [andb].
    destruct (decide (property = p)) as [->|Hne].
    + rewrite !bool_decide_eq_true_2 by done. cbn [negb one]. destruct st' as [products edges].
      eapply post_bind; [apply post_trivial|intros products' _].
      eapply post_bind; [apply post_lift, ensures_self|intros n Hn%edge_count_role].
      eapply post_bind; [apply post_lift, ensures_self|intros edges' [-> _]%ok_or_Ok%checked_add_Some].
      apply post_ret. cbn. by rewrite Hn, N.mul_1_l.
    + rewrite !bool_decide_eq_false_2 by done. apply post_ret. by rewrite N.add_0_r.
  - destruct (entry_of r) as [[[k p] class]|] eqn:E; [|by rewrite N.add_0_r].
    apply effect_absent in E; [|done]. unfold has_effect in He. apply bool_decide_eq_false in He.
    cbn [matching]. rewrite bool_decide_eq_false_2; [by rewrite N.add_0_r|].
    intros ->. by destruct (domain_range_effect _).
Qed.

Lemma domain_count_post :
  post (fun st => st.2 = sum domain_weight log) (domain_range_edge_count columns plan roles).
Proof using planned.
  unfold domain_range_edge_count.
  apply (for_selected_post _ _ _ _ planned (fun visited (st : usize * usize) =>
    st.2 = sum domain_weight visited)); [done|].
  intros visited r rest st Hl Hst. assert (Hr : r ∈ log) by (rewrite Hl; set_solver).
  rewrite sum_snoc, <- Hst. unfold domain_weight.
  destruct (has_effect _ _) eqn:He.
  - destruct (effect_shape r _ Hr He) as (projection&->&->); [done|].
    destruct projection as [[p class]|]; [|apply post_ret; by rewrite N.add_0_r].
    apply range_count_post.
  - destruct (entry_of r) as [[[k p] class]|] eqn:E; [|by rewrite N.add_0_r].
    apply effect_absent in E; [|done]. unfold has_effect in He. apply bool_decide_eq_false in He.
    destruct k; [|by rewrite N.add_0_r]. by destruct (domain_range_effect _).
Qed.

(** ** The emission *)

Lemma property_edges_len l property :
  len (property_edges P l property)
  = len (classes_of Domain property l) * (len (classes_of Range property l) * role_count roles property).
Proof using Type.
  unfold property_edges. rewrite len_bind.
  rewrite (sum_ext _ (fun _ => 1 * (len (classes_of Range property l) * role_count roles property))).
  - by rewrite sum_mult, <- len_sum.
  - intros d _. rewrite len_bind, N.mul_1_l.
    rewrite (sum_ext _ (fun _ => 1 * role_count roles property)); [by rewrite sum_mult, <- len_sum|].
    intros range _. by rewrite role_count_edges, N.mul_1_l.
Qed.

Lemma domain_range_edges_sum : prepared_from plan P ->
  exists l, domain_range_edges columns P = Ok l /\ len l = sum domain_weight log.
Proof using planned.
  intros from. unfold domain_range_edges. rewrite (class_entries_log from). cbn [mbind outcome_bind].
  eexists. split; [done|]. rewrite len_bind.
  set (domains := omap (fun entry : class_entry =>
    let '(k, p, _) := entry in if bool_decide (k = Domain) then Some p else None) entries).
  assert (E1 : sum domain_weight log = sum pair_weight domains).
  { unfold domains, entries. rewrite !sum_omap. apply sum_ext. intros r _. unfold domain_weight.
    destruct (entry_of r) as [[[[] p] class]|]; done. }
  rewrite E1, (sum_by_value pair_weight (paired_properties entries)).
  - apply sum_ext. intros p _. rewrite property_edges_len. unfold pair_weight. f_equal.
    rewrite len_classes_of. unfold count, domains. rewrite sum_omap. apply sum_ext.
    intros [[k p'] class] _. cbn. by destruct (bool_decide (k = Domain)).
  - unfold paired_properties. rewrite merge_sort_Permutation. apply NoDup_remove_dups.
  - intros p Hp Hnot. unfold pair_weight.
    destruct (decide (classes_of Range p entries = [])) as [->|Hne]; [done|]. exfalso. apply Hnot.
    unfold paired_properties. rewrite merge_sort_Permutation, elem_of_remove_dups.
    apply list_elem_of_omap in Hp as ([[k p'] class]&Hin&Hk). apply list_elem_of_omap.
    exists (k, p', class). split; [done|]. unfold paired_entry.
    destruct (bool_decide (k = Domain)); [|done]. injection Hk as ->.
    by rewrite bool_decide_eq_false_2.
Qed.
End products.
