(* ===== verification/Phases.v ===== *)
(** * The phases of the cursor without a local overlay

    Each phase of [next_edge] emits the edges of its pass in [direct_edges] and
    leaves the cursor at the start of the next phase.  Without local classes,
    [next_paired_property] enumerates the properties with a domain and a range in
    byte order, and the rounds of an active property emit the edges of each of
    its domains with each of its ranges. *)

From stdpp Require Import sorting.
From S2P Require Import Prelude Errors Lists Tags Text Readers Columns Nodes Properties Graphs Anonymous Stats Rules.
From S2P Require Import Planning Roles Emission Overlay Preparation Cursor Emit.
Local Open Scope string_scope.
Local Open Scope list_scope.
Local Open Scope N_scope.

Section phases.
Context `{LowercaseTable} (columns : DirectColumns) (P : DirectPreparation).
Context (no_overlay : Direct P).

Abbreviation round_of := (step columns None P).
Abbreviation emits := (emits columns P).
Abbreviation leads := (leads columns P).

(** ** Without deltas a round is its scan *)

Lemma overlay_round_None {R} c
    (h : usize -> OwnedOverlayDeltaProjection.OwnedOverlayDeltaProjection -> outcome (option R)) :
  overlay_round P c h = Ok None.
Proof using no_overlay.
  unfold overlay_round, next_overlay_delta_index. by rewrite direct_deltas, get_nil.
Qed.

Lemma run_or_scan_None scan : Transparent scan -> run (or_scan (Ok None) scan) = run scan.
Proof using Type. intros ?. unfold or_scan. rewrite run_bind by solve_transparent. done. Qed.

Lemma idle_round c : idle c ->
  run (round_of c) =
  match c.(cursor_phase) with
  | EmissionPhase.Subclasses => run (subclasses_round columns P c)
  | EmissionPhase.Equivalents => run (equivalents_round columns P c)
  | EmissionPhase.Annotations => run (annotations_round columns None P c)
  | EmissionPhase.ClassAssertions => run (class_assertions_round columns P c)
  | EmissionPhase.ObjectAssertions => run (object_assertions_round columns P c)
  | EmissionPhase.DomainRanges => run (domain_ranges_round columns P c)
  | EmissionPhase.Finished => Ok (Return (None, c))
  end.
Proof using Type. intros (Hp&_). by rewrite run_step, Hp. Qed.

(** ** Starting an expansion, or publishing an edge *)

Lemma leads_continue c : leads (Ok (continue c)) [] (advance c (len (@nil DirectEdge))).
Proof using Type. rewrite advance_0. apply emits_refl. Qed.

Lemma start_taxonomy_Ok c source destination b :
  start_taxonomy c source destination b =
  Ok (c <| pending := Some (Taxonomy source destination 0 b) |>).
Proof using Type. done. Qed.

Lemma start_role_Ok c source relation destination :
  start_role c source relation destination =
  Ok (c <| pending := Some (Role source relation destination 0) |>).
Proof using Type. done. Qed.

Lemma leads_taxonomy c source destination b :
  let l := taxonomy_edges source destination b in
  c.(pending) = None -> c.(emitted) + len l < usize_max ->
  leads (c1 ← start_taxonomy c source destination b; Ok (continue c1)) l (advance c (len l)).
Proof using Type.
  intros l Hp Hm. destruct (emits_taxonomy columns P c source destination b) as (c1&->&E);
    [done|fold l; lia|done].
Qed.

Lemma leads_role c source relation destination :
  let l := role_edges P.(preparation_roles) source relation destination in
  c.(pending) = None -> c.(emitted) + len l < usize_max ->
  leads (c1 ← start_role c source relation destination; Ok (continue c1)) l (advance c (len l)).
Proof using Type.
  intros l Hp Hm. by destruct (emits_role columns P c source relation destination) as (c1&->&E).
Qed.

Lemma leads_publish c e : c.(emitted) + len [e] < usize_max ->
  leads (publish_edge c e) [e] (advance c (len [e])).
Proof using Type.
  change (len [e]) with 1. intros Hm. unfold publish_edge, publish.
  rewrite (proj2 (checked_add_Some (emitted c) 1 (emitted c + 1)) ltac:(lia)).
  exists []. split; [done|]. apply emits_refl.
Qed.

Context (small : root_count columns <= usize_max).

(** ** Subclasses *)

Lemma subclasses_scan c : idle c -> c.(cursor_phase) = EmissionPhase.Subclasses ->
  run (round_of c) = run (scan_round columns P c
    (if P.(options).(asserted_taxonomy_only) then EmissionPhase.Finished
     else EmissionPhase.Equivalents) RootRuleHandler.Subclass (emit_subclass columns P)).
Proof using no_overlay.
  intros Hi Hp. rewrite idle_round, Hp by done. unfold subclasses_round.
  rewrite overlay_round_None. apply run_or_scan_None, _.
Qed.

Lemma emit_subclass_leads c shape l : idle c -> subclass_edges columns P shape = Ok l ->
  c.(emitted) + len l < usize_max -> leads (emit_subclass columns P c shape) l (advance c (len l)).
Proof using Type.
  intros (Hp&_) Hl Hm. unfold emit_subclass. destruct shape as [[]|]; cbn in Hl; try discriminate.
  - apply bind_Ok in Hl as (s&->&Hl). apply bind_Ok in Hl as (d&->&Hl). injection Hl as <-.
    by apply leads_taxonomy.
  - destruct (role_edges_enabled P).
    + apply bind_Ok in Hl as (s&->&Hl). apply bind_Ok in Hl as ([r d]&->&Hl). injection Hl as <-.
      by apply leads_role.
    + injection Hl as <-. apply leads_continue.
  - injection Hl as <-. apply leads_continue.
Qed.

Lemma subclasses_phase c l : idle c -> c.(cursor_phase) = EmissionPhase.Subclasses ->
  c.(scan_index) = 0 ->
  phase_edges columns P RootRuleHandler.Subclass (subclass_edges columns P) = Ok l ->
  c.(emitted) + len l < usize_max ->
  emits c l (advance (c <| cursor_phase :=
    if P.(options).(asserted_taxonomy_only) then EmissionPhase.Finished
    else EmissionPhase.Equivalents |>) (len l)).
Proof using All.
  apply (scan_phase columns P _ _ _ _ _ subclasses_scan); [|done].
  intros. by apply emit_subclass_leads.
Qed.

(** ** Class assertions *)

Lemma class_assertions_scan c : idle c -> c.(cursor_phase) = EmissionPhase.ClassAssertions ->
  run (round_of c) = run (scan_round columns P c EmissionPhase.ObjectAssertions
    RootRuleHandler.ClassAssertion (emit_class_assertion columns P)).
Proof using no_overlay.
  intros Hi Hp. rewrite idle_round, Hp by done. unfold class_assertions_round.
  rewrite overlay_round_None. apply run_or_scan_None, _.
Qed.

Lemma emit_class_assertion_leads c shape l : class_assertion_edges columns P shape = Ok l ->
  c.(emitted) + len l < usize_max ->
  leads (emit_class_assertion columns P c shape) l (advance c (len l)).
Proof using Type.
  intros Hl Hm. unfold emit_class_assertion. destruct shape as [[]|]; cbn in Hl; try discriminate.
  - apply bind_Ok in Hl as (s&->&Hl). apply bind_Ok in Hl as (d&->&Hl). injection Hl as <-.
    by apply leads_publish.
  - injection Hl as <-. apply leads_continue.
Qed.

Lemma class_assertions_phase c l : idle c -> c.(cursor_phase) = EmissionPhase.ClassAssertions ->
  c.(scan_index) = 0 ->
  phase_edges columns P RootRuleHandler.ClassAssertion (class_assertion_edges columns P) = Ok l ->
  c.(emitted) + len l < usize_max ->
  emits c l (advance (c <| cursor_phase := EmissionPhase.ObjectAssertions |>) (len l)).
Proof using All.
  apply (scan_phase columns P _ _ _ _ _ class_assertions_scan); [|done].
  intros. by apply emit_class_assertion_leads.
Qed.

(** ** Object property assertions *)

Lemma object_assertions_scan c : idle c -> c.(cursor_phase) = EmissionPhase.ObjectAssertions ->
  run (round_of c) = run (scan_round columns P c EmissionPhase.DomainRanges
    RootRuleHandler.ObjectPropertyAssertion (emit_object_assertion columns P)).
Proof using no_overlay.
  intros Hi Hp. rewrite idle_round, Hp by done. unfold object_assertions_round.
  rewrite overlay_round_None. apply run_or_scan_None, _.
Qed.

Lemma emit_object_assertion_leads c shape l : object_assertion_edges columns P shape = Ok l ->
  c.(emitted) + len l < usize_max ->
  leads (emit_object_assertion columns P c shape) l (advance c (len l)).
Proof using Type.
  intros Hl Hm. unfold emit_object_assertion. destruct shape as [[]|]; cbn in Hl; try discriminate.
  apply bind_Ok in Hl as (r&->&Hl). apply bind_Ok in Hl as (s&->&Hl).
  apply bind_Ok in Hl as (d&Hd&Hl). injection Hl as <-. cbn. rewrite Hd. by apply leads_publish.
Qed.

Lemma object_assertions_phase c l : idle c -> c.(cursor_phase) = EmissionPhase.ObjectAssertions ->
  c.(scan_index) = 0 ->
  phase_edges columns P RootRuleHandler.ObjectPropertyAssertion (object_assertion_edges columns P)
  = Ok l -> c.(emitted) + len l < usize_max ->
  emits c l (advance (c <| cursor_phase := EmissionPhase.DomainRanges |>) (len l)).
Proof using All.
  apply (scan_phase columns P _ _ _ _ _ object_assertions_scan); [|done].
  intros. by apply emit_object_assertion_leads.
Qed.
End phases.

(** ** Equivalent classes *)

Section equivalents.
Context `{LowercaseTable} (columns : DirectColumns) (P : DirectPreparation).
Context (no_overlay : Direct P).

Abbreviation round_of := (step columns None P).
Abbreviation emits := (emits columns P).
Abbreviation leads := (leads columns P).

Lemma equivalents_idle c : idle c -> c.(cursor_phase) = EmissionPhase.Equivalents ->
  run (round_of c) = run (scan_round columns P c EmissionPhase.Annotations
    RootRuleHandler.EquivalentClasses (emit_equivalent columns P)).
Proof using no_overlay.
  intros Hi Hp. rewrite idle_round, Hp by done. unfold equivalents_round.
  destruct Hi as (_&Ha&Ho). rewrite Ho, run_or_scan_None.
  - replace (c <| owned_aggregate := None |>) with c by (by destruct c; cbn in *; subst).
    rewrite Ha. replace (c <| aggregate := None |>) with c by (by destruct c; cbn in *; subst).
    unfold equivalents_scan. rewrite overlay_round_None by done. apply run_or_scan_None, _.
  - cbn [set_field aggregate]. rewrite Ha. unfold equivalents_scan.
    rewrite overlay_round_None by done. apply _.
Qed.

Lemma aggregate_step c cur : idle c -> c.(cursor_phase) = EmissionPhase.Equivalents ->
  run (round_of (c <| aggregate := Some cur |>)) = run (aggregate_round columns P c cur).
Proof using Type.
  intros (Hp&Ha&Ho) Hc. rewrite run_step. destruct c; cbn in *; subst.
  unfold equivalents_round. cbn [set_field aggregate owned_aggregate]. by rewrite run_or_scan_None by apply _.
Qed.

Definition aggregate_cursor (source : text) (plan_index named restriction : usize) :=
  {| aggregate_source := source; aggregate_plan_index := plan_index;
     named_index := named; restriction_index := restriction |}.

Section operands.
Context (source : text) (plan_index : usize) (plan : PlannedAggregateRoot) (nodes : list usize).
Context (is_plan : aggregate_emission_at P plan_index = Ok plan).
Context (are_nodes : aggregate_emission_named_nodes P plan = Ok nodes).

Lemma named_bound : plan.(named).(range_start) + len nodes <= usize_max.
Proof using All.
  pose proof are_nodes as Hn. unfold aggregate_emission_named_nodes, checked_plan_slice in Hn.
  inv_ok. apply checked_add_Some in H0 as [-> ?]. apply get_range_len in Hn. lia.
Qed.

Lemma run_named_operand c k node l : idle c -> c.(cursor_phase) = EmissionPhase.Equivalents ->
  get nodes k = Some node -> named_operand_edges columns P source node = Ok l ->
  c.(emitted) + len l < usize_max ->
  emits (c <| aggregate := Some (aggregate_cursor source plan_index k 0) |>) l
    (advance (c <| aggregate := Some (aggregate_cursor source plan_index (k + 1) 0) |>) (len l)).
Proof using All.
  intros Hi Hp Hk Hl Hm. apply bind_Ok in Hl as (d&Hd&Hl). injection Hl as <-.
  pose proof named_bound. pose proof (get_Some_lt _ _ _ Hk).
  apply leads_emits. rewrite aggregate_step by done. unfold aggregate_round, aggregate_cursor.
  cbn [aggregate_plan_index named_index aggregate_source restriction_index]. run_steps.
  rewrite is_plan. run_steps. rewrite are_nodes. run_steps. rewrite Hk. run_steps.
  rewrite (proj2 (checked_add_Some (range_start (named plan)) k (range_start (named plan) + k)) ltac:(lia)).
  rewrite (proj2 (checked_add_Some k 1 (k + 1)) ltac:(lia)). cbn [ok_or]. run_steps.
  rewrite Hd. run_steps. rewrite start_taxonomy_Ok. run_steps.
  pose (next := c <| aggregate := Some (aggregate_cursor source plan_index (k + 1) 0) |>).
  exact (leads_taxonomy columns P next source d (bidirectional_mode P) (proj1 Hi) Hm).
Qed.

Lemma emits_named n c k l : n = N.to_nat (len nodes - k) -> k <= len nodes ->
  idle c -> c.(cursor_phase) = EmissionPhase.Equivalents ->
  concatM (named_operand_edges columns P source) (drop (N.to_nat k) nodes) = Ok l ->
  c.(emitted) + len l < usize_max ->
  emits (c <| aggregate := Some (aggregate_cursor source plan_index k 0) |>) l
    (advance (c <| aggregate := Some (aggregate_cursor source plan_index (len nodes) 0) |>) (len l)).
Proof using All.
  revert c k l. induction n as [|n IH]; intros c k l Hn Hk Hi Hp Hl Hm.
  - assert (k = len nodes) as -> by lia. rewrite drop_ge in Hl by (unfold len; lia).
    injection Hl as <-. change (len []) with 0. rewrite advance_0. apply emits_refl.
  - destruct (get_lt_Some nodes k) as [node Hnode]; [lia|].
    rewrite (drop_S nodes node) in Hl by (by rewrite <- get_lookup).
    apply concatM_cons_Ok in Hl as (part&rest&Hpart&Hrest&->). rewrite len_app in *.
    replace (S (N.to_nat k)) with (N.to_nat (k + 1)) in Hrest by lia.
    eapply emits_app; [apply (run_named_operand c k node); [done..|lia]|].
    apply (IH (advance c (len part))) in Hrest; [|lia|lia|done|done|cbn; lia].
    destruct c. unfold advance in *. cbn in *. by rewrite N.add_assoc.
Qed.

Context (coordinates : list (option PlannedRestrictionCoordinate)).
Context (are_restrictions : aggregate_emission_restrictions P plan = Ok coordinates).

Lemma restriction_bound : plan.(restrictions).(range_start) + len coordinates <= usize_max.
Proof using All.
  pose proof are_restrictions as Hn. unfold aggregate_emission_restrictions, checked_plan_slice in Hn.
  inv_ok. apply checked_add_Some in H0 as [-> ?]. apply get_range_len in Hn. lia.
Qed.

(** The scan stops at the first restriction that is projected. *)
Lemma run_next_restriction start l i es : start + i + len l <= usize_max ->
  concatM (restriction_edges columns P source) l = Ok es ->
  run (next_restriction columns P start l i) = Ok (None, i + len l) /\ es = [] \/
  exists pre rest relation destination es', l = pre ++ rest /\ 0 < len pre /\
    run (next_restriction columns P start l i) = Ok (Some (relation, destination), i + len pre) /\
    es = role_edges P.(preparation_roles) source relation destination ++ es' /\
    concatM (restriction_edges columns P source) rest = Ok es'.
Proof using Type.
  revert i es. induction l as [|coordinate l IH]; intros i es Hb Hes.
  { left. injection Hes as <-. by rewrite len_nil, N.add_0_r. }
  apply concatM_cons_Ok in Hes as (part&es'&Hpart&Hes'&->). rewrite len_cons in *.
  assert (E : run (next_restriction columns P start (coordinate :: l) i) =
    match coordinate with
    | None => run (next_restriction columns P start l (i + 1))
    | Some coordinate => parts ← planned_restriction_parts columns coordinate (Cursor.maximum P);
                         Ok (Some parts, i + 1)
    end).
  { cbn [next_restriction]. cbn zeta.
    rewrite (proj2 (checked_add_Some start i (start + i)) ltac:(lia)),
      (proj2 (checked_add_Some i 1 (i + 1)) ltac:(lia)).
    cbn [ok_or]. destruct coordinate; run_steps; done. }
  rewrite E. destruct coordinate as [coordinate|].
  - right. apply bind_Ok in Hpart as ([r d]&->&Hpart). injection Hpart as <-.
    exists [Some coordinate], l, r, d, es'. by split_and!.
  - injection Hpart as <-. destruct (IH (i + 1) es' ltac:(lia) Hes')
      as [[-> ->]|(pre&rest&r&d&es2&->&Hpre&->&->&Hes2)]; [left|right].
    + split; [do 2 f_equal; lia|done].
    + exists (None :: pre), rest, r, d, es2. rewrite len_cons. split_and!; try done; [lia|].
      do 2 f_equal. lia.
Qed.

Lemma emits_restrictions n c k l : n = N.to_nat (len coordinates - k) -> k <= len coordinates ->
  idle c -> c.(cursor_phase) = EmissionPhase.Equivalents ->
  P.(options).(only_taxonomy) = false ->
  concatM (restriction_edges columns P source) (drop (N.to_nat k) coordinates) = Ok l ->
  c.(emitted) + len l < usize_max ->
  emits (c <| aggregate := Some (aggregate_cursor source plan_index (len nodes) k) |>) l
    (advance c (len l)).
Proof using All.
  revert c k l. induction n as [n IH] using lt_wf_ind. intros c k l Hn Hk Hi Hp Ho Hl Hm.
  pose proof restriction_bound. apply leads_emits. rewrite aggregate_step by done.
  unfold aggregate_round, aggregate_cursor.
  cbn [aggregate_plan_index named_index aggregate_source restriction_index]. run_steps.
  rewrite is_plan. run_steps. rewrite are_nodes. run_steps.
  rewrite (proj2 (get_None nodes (len nodes))) by lia. rewrite Ho. run_steps.
  rewrite are_restrictions. run_steps.
  assert (Hlen : len (drop (N.to_nat k) coordinates) = len coordinates - k)
    by (unfold len; rewrite length_drop; lia).
  destruct (run_next_restriction (range_start (restrictions plan)) (drop (N.to_nat k) coordinates) k l ltac:(lia) Hl)
    as [[-> ->]|(pre&rest&r&d&es&Hd&Hpre&->&->&Hes)]; run_steps.
  - change (len []) with 0. rewrite advance_0. apply emits_refl.
  - assert (k + len pre <= len coordinates) by (rewrite Hd, len_app in Hlen; lia).
    rewrite len_app in Hm |- *. rewrite start_role_Ok. run_steps. rewrite <- advance_advance.
    set (next := c <| aggregate := Some (aggregate_cursor source plan_index (len nodes) (k + len pre)) |>).
    eapply leads_app; [exact (leads_role columns P next source r d (proj1 Hi) ltac:(cbn; lia))|].
    apply (f_equal (drop (length pre))) in Hd. rewrite drop_app_length, drop_drop in Hd.
    apply (IH (N.to_nat (len coordinates - (k + len pre))) ltac:(lia)
      (advance c (len (role_edges (preparation_roles P) source r d)))); try done.
    + replace (N.to_nat (k + len pre)) with (N.to_nat k + length pre)%nat by (unfold len; lia).
      by rewrite Hd.
    + cbn. lia.
Qed.
End operands.

Lemma emits_aggregate c source plan_index l : idle c ->
  c.(cursor_phase) = EmissionPhase.Equivalents ->
  aggregate_edges columns P source plan_index = Ok l -> c.(emitted) + len l < usize_max ->
  emits (c <| aggregate := Some (aggregate_cursor source plan_index 0 0) |>) l (advance c (len l)).
Proof using All.
  intros Hi Hp Hl Hm. unfold aggregate_edges in Hl.
  apply bind_Ok in Hl as (plan&Hplan&Hl). apply bind_Ok in Hl as (nodes&Hnodes&Hl).
  apply bind_Ok in Hl as (taxonomy&Htaxonomy&Hl).
  pose proof (emits_named source plan_index plan nodes Hplan Hnodes _ c 0 taxonomy eq_refl
    (N.le_0_l _) Hi Hp Htaxonomy) as E.
  destruct (only_taxonomy (options P)) eqn:Ho.
  - injection Hl as ->. replace l with (l ++ []) at 1 by apply app_nil_r.
    eapply emits_app; [by apply E|]. apply emits_one.
    pose proof (aggregate_step (advance c (len l)) (aggregate_cursor source plan_index (len nodes) 0)
      Hi Hp) as S. etransitivity; [exact S|].
    unfold aggregate_round, aggregate_cursor. cbn [aggregate_plan_index named_index]. run_steps.
    rewrite Hplan. run_steps. rewrite Hnodes. run_steps.
    rewrite (proj2 (get_None nodes (len nodes))) by lia. by rewrite Ho.
  - apply bind_Ok in Hl as (coordinates&Hcoordinates&Hl). apply bind_Ok in Hl as (relations&Hr&Hl).
    injection Hl as <-. rewrite len_app in Hm. eapply emits_app; [apply E; lia|].
    rewrite len_app, <- advance_advance.
    by apply (emits_restrictions source plan_index plan nodes Hplan Hnodes coordinates Hcoordinates
      _ (advance c (len taxonomy)) 0 relations eq_refl); try done; cbn; lia.
Qed.

Lemma emit_equivalent_leads c shape l : idle c -> c.(cursor_phase) = EmissionPhase.Equivalents ->
  equivalent_edges columns P shape = Ok l -> c.(emitted) + len l < usize_max ->
  leads (emit_equivalent columns P c shape) l (advance c (len l)).
Proof using All.
  intros Hi Hp Hl Hm. unfold emit_equivalent. destruct shape as [[]|]; cbn in Hl; try discriminate.
  - apply bind_Ok in Hl as (s&->&Hl). apply bind_Ok in Hl as (d&->&Hl). injection Hl as <-.
    apply leads_taxonomy; [by destruct Hi|done].
  - apply bind_Ok in Hl as (s&->&Hl). cbn. by apply emits_aggregate.
  - injection Hl as <-. apply leads_continue.
Qed.

Lemma equivalents_phase c l : root_count columns <= usize_max ->
  idle c -> c.(cursor_phase) = EmissionPhase.Equivalents -> c.(scan_index) = 0 ->
  phase_edges columns P RootRuleHandler.EquivalentClasses (equivalent_edges columns P) = Ok l ->
  c.(emitted) + len l < usize_max ->
  emits c l (advance (c <| cursor_phase := EmissionPhase.Annotations |>) (len l)).
Proof using All.
  intros small. apply (scan_phase columns P _ _ _ _ _ equivalents_idle); [|done].
  apply emit_equivalent_leads.
Qed.
End equivalents.

(** ** Annotations *)

Section annotations.
Context `{LowercaseTable} (columns : DirectColumns) (P : DirectPreparation).

Abbreviation round_of := (step columns None P).
Abbreviation emits := (emits columns P).
Abbreviation leads := (leads columns P).

(** The projection of an assertion, published if there is one. *)
Lemma leads_annotation c node l : annotation_edges_of columns P node = Ok l ->
  c.(emitted) + len l < usize_max ->
  leads (run (projection ← annotation_projection columns node (Cursor.maximum P);
              match projection with
              | Some projection =>
                  edge ← !annotation_edge projection P.(anonymous_ids);
                  !publish_edge c edge
              | None => mret (continue c)
              end)) l (advance c (len l)).
Proof using Type.
  intros Hl Hm. unfold annotation_edges_of in Hl. apply bind_Ok in Hl as (projection&Hp&Hl).
  run_steps. rewrite Hp. run_steps. destruct projection as [projection|].
  - apply bind_Ok in Hl as (e&He&Hl). injection Hl as <-. run_steps. rewrite He. run_steps.
    by apply leads_publish.
  - injection Hl as <-. apply leads_continue.
Qed.

Lemma leave_annotations_leads c :
  leads (Ok (leave_annotations c)) []
    (advance (c <| scan_index := 0 |> <| cursor_phase := EmissionPhase.ClassAssertions |>) 0).
Proof using Type. rewrite advance_0. apply emits_refl. Qed.

Section literals.
Context (literals : P.(options).(include_literals) = true).

(** The nodes selected by the preparation. *)
Lemma emits_selected nodes n c k l : P.(selected_annotation_nodes) = Some nodes ->
  len nodes <= usize_max -> n = N.to_nat (len nodes - k) -> k <= len nodes ->
  idle c -> c.(cursor_phase) = EmissionPhase.Annotations -> c.(scan_index) = k ->
  concatM (annotation_edges_of columns P) (drop (N.to_nat k) nodes) = Ok l ->
  c.(emitted) + len l < usize_max ->
  emits c l
    (advance (c <| scan_index := 0 |> <| cursor_phase := EmissionPhase.ClassAssertions |>) (len l)).
Proof using All.
  intros Hnodes Hmax. revert c k l. induction n as [|n IH]; intros c k l Hn Hk Hi Hp Hs Hl Hm;
    (assert (E : run (round_of c) = run (annotations_round columns None P c))
      by (by rewrite idle_round, Hp));
    unfold annotations_round in E; rewrite literals, Hnodes, Hs in E; cbn [negb] in E.
  - assert (k = len nodes) as -> by lia. rewrite drop_ge in Hl by (unfold len; lia).
    injection Hl as <-. rewrite N.eqb_refl in E. apply leads_emits. rewrite E.
    apply leave_annotations_leads.
  - destruct (N.eqb_spec k (len nodes)); [lia|].
    destruct (get_lt_Some nodes k) as [node Hnode]; [lia|].
    rewrite (drop_S nodes node) in Hl by (by rewrite <- get_lookup).
    apply concatM_cons_Ok in Hl as (part&rest&Hpart&Hrest&->). rewrite len_app in Hm |- *.
    replace (S (N.to_nat k)) with (N.to_nat (k + 1)) in Hrest by lia.
    rewrite wrapping_add_small in E by lia. rewrite (proj2 (index_Ok _ _ _) Hnode) in E.
    set (c1 := c <| scan_index := k + 1 |>) in E.
    apply emits_app with (c' := advance c1 (len part)).
    + apply leads_emits. rewrite E. run_steps.
      pose proof (leads_annotation c1 node part Hpart ltac:(cbn; lia)) as A.
      by rewrite run_bind in A by solve_transparent.
    + apply (IH (advance c1 (len part)) (k + 1)) in Hrest; [|lia|lia|done|done|done|cbn; lia].
      destruct c. unfold advance in *. cbn in *. by rewrite N.add_assoc.
Qed.

(** The scan for the next assertion skips the roots without edges. *)
Lemma run_next_annotation n i l : root_count columns <= usize_max ->
  n = N.to_nat (root_count columns - i) -> i <= root_count columns ->
  concatM (annotation_root_edges columns P) (range i (root_count columns)) = Ok l ->
  run (next_annotation columns P n i) = Ok (None, root_count columns) /\ l = [] \/
  exists j node part rest, i <= j < root_count columns /\
    run (next_annotation columns P n i) = Ok (Some node, j + 1) /\ l = part ++ rest /\
    annotation_edges_of columns P node = Ok part /\
    concatM (annotation_root_edges columns P) (range (j + 1) (root_count columns)) = Ok rest.
Proof using Type.
  intros Hmax. revert i l. induction n as [|n IH]; intros i l Hn Hi Hl.
  - assert (i = root_count columns) as -> by lia. rewrite range_empty in Hl by lia.
    left. cbn [next_annotation]. destruct (N.ltb_spec (root_count columns) (root_count columns)); [lia|].
    by injection Hl as <-.
  - rewrite range_cons in Hl by lia. apply concatM_cons_Ok in Hl as (part&rest&Hpart&Hrest&->).
    assert (Hskip : part = [] ->
      run (next_annotation columns P (S n) i) = run (next_annotation columns P n (i + 1)) ->
      run (next_annotation columns P (S n) i) = Ok (None, root_count columns) /\ part ++ rest = [] \/
      exists j node part0 rest0, i <= j < root_count columns /\
        run (next_annotation columns P (S n) i) = Ok (Some node, j + 1) /\
        part ++ rest = part0 ++ rest0 /\ annotation_edges_of columns P node = Ok part0 /\
        concatM (annotation_root_edges columns P) (range (j + 1) (root_count columns)) = Ok rest0).
    { intros -> ->. destruct (IH (i + 1) rest ltac:(lia) ltac:(lia) Hrest)
        as [[? ->]|(j&node&part0&rest0&?&?&->&?&?)]; [by left|right].
      exists j, node, part0, rest0. split_and!; try done; lia. }
    assert (E : run (next_annotation columns P (S n) i) =
      (selected ← root_is_selected columns i;
       if negb selected then run (next_annotation columns P n (i + 1)) else
       node ← root_id columns i;
       rule ← root_rule_at P i;
       if bool_decide (rule.(handler) = RootRuleHandler.AnnotationAssertion)
       then Ok (Some node, i + 1) else run (next_annotation columns P n (i + 1)))).
    { cbn [next_annotation]. destruct (N.ltb_spec i (root_count columns)); [|lia].
      cbn [negb]. rewrite wrapping_add_small by lia. cbn zeta. run_steps.
      apply bind_ext. intros [] _; [|done]. cbn [negb]. run_steps. apply bind_ext. intros node _.
      run_steps. apply bind_ext. intros rule _. by destruct (bool_decide _). }
    unfold annotation_root_edges in Hpart. apply bind_Ok in Hpart as ([|]&Hsel&Hpart);
      rewrite Hsel in E; cbn [negb] in *; [|by apply Hskip; [injection Hpart|]].
    apply bind_Ok in Hpart as (node&Hnode&Hpart). apply bind_Ok in Hpart as (rule&Hrule&Hpart).
    cbn [mbind outcome_bind] in E. rewrite Hnode in E. cbn [mbind outcome_bind] in E.
    rewrite Hrule in E. cbn [mbind outcome_bind] in E.
    destruct (bool_decide (handler rule = RootRuleHandler.AnnotationAssertion));
      [|by apply Hskip; [injection Hpart|]].
    right. exists i, node, part, rest. split_and!; try done; lia.
Qed.

Lemma emits_annotation_roots n c i l : P.(selected_annotation_nodes) = None ->
  root_count columns <= usize_max ->
  n = N.to_nat (root_count columns - i) -> i <= root_count columns ->
  idle c -> c.(cursor_phase) = EmissionPhase.Annotations -> c.(scan_index) = i ->
  concatM (annotation_root_edges columns P) (range i (root_count columns)) = Ok l ->
  c.(emitted) + len l < usize_max ->
  emits c l
    (advance (c <| scan_index := 0 |> <| cursor_phase := EmissionPhase.ClassAssertions |>) (len l)).
Proof using All.
  intros Hnone Hmax. revert c i l.
  induction n as [n IH] using lt_wf_ind. intros c i l Hn Hle Hi Hp Hs Hl Hm.
  assert (E : run (round_of c) = run (annotations_round columns None P c)) by (by rewrite idle_round, Hp).
  unfold annotations_round in E. rewrite literals, Hnone, Hs in E. cbn [negb] in E.
  rewrite run_bind in E by solve_transparent. rewrite run_bind in E by solve_transparent.
  destruct (run_next_annotation _ i l Hmax eq_refl Hle Hl)
    as [[R ->]|(j&node&part&rest&Hj&R&->&Hpart&Hrest)]; rewrite R in E; cbn [mbind outcome_bind] in E; rewrite run_ret in E; cbn [mbind outcome_bind] in E.
  - apply leads_emits. rewrite E.
    exact (leave_annotations_leads (c <| scan_index := root_count columns |>)).
  - rewrite len_app in Hm |- *. set (c1 := c <| scan_index := j + 1 |>).
    apply emits_app with (c' := advance c1 (len part)).
    + apply leads_emits. rewrite E. apply (leads_annotation c1 node); [done|cbn; lia].
    + apply (IH (N.to_nat (root_count columns - (j + 1))) ltac:(lia) (advance c1 (len part)) (j + 1))
        in Hrest; [|lia|lia|done|done|done|cbn; lia].
      destruct c. unfold advance in *. cbn in *. by rewrite N.add_assoc.
Qed.
End literals.

Lemma annotations_phase c l : root_count columns <= usize_max ->
  (forall nodes, P.(selected_annotation_nodes) = Some nodes -> len nodes <= usize_max) ->
  idle c -> c.(cursor_phase) = EmissionPhase.Annotations -> c.(scan_index) = 0 ->
  all_annotation_edges columns P = Ok l -> c.(emitted) + len l < usize_max ->
  emits c l (advance (c <| cursor_phase := EmissionPhase.ClassAssertions |>) (len l)).
Proof using Type.
  intros Hmax Hnodes Hi Hp Hs Hl Hm.
  replace (c <| cursor_phase := EmissionPhase.ClassAssertions |>)
    with (c <| scan_index := 0 |> <| cursor_phase := EmissionPhase.ClassAssertions |>)
    by (destruct c; cbn in *; by subst).
  unfold all_annotation_edges in Hl. destruct (include_literals (options P)) eqn:Hlit; cbn [negb] in Hl.
  - destruct (selected_annotation_nodes P) as [nodes|] eqn:Hsel.
    + eapply (emits_selected Hlit nodes _ c 0 l Hsel (Hnodes nodes eq_refl)); try done. lia.
    + eapply (emits_annotation_roots Hlit _ c 0 l Hsel Hmax); try done. lia.
  - injection Hl as <-. apply leads_emits. rewrite idle_round, Hp by done.
    unfold annotations_round. rewrite Hlit. apply leave_annotations_leads.
Qed.
End annotations.

Lemma omap_app {A B} (f : A -> option B) l k : omap f (l ++ k) = omap f l ++ omap f k.
Proof. induction l as [|x l IH]; cbn; [done|]. destruct (f x); cbn; by rewrite IH. Qed.

(** ** The least property after the previous one *)

Definition is_after (after : option text) (property : text) : bool :=
  match after with Some previous => is_lt (bytes_cmp previous property) | None => true end.

Definition least_step (after base : option text) (property : text) : option text :=
  if is_after after property
     && match base with Some current => is_lt (bytes_cmp property current) | None => true end
  then Some property else base.

Definition least_after (after : option text) (l : list text) : option text :=
  foldl (least_step after) None l.

Definition is_least (after : option text) (l : list text) (base : option text) : Prop :=
  match base with
  | Some p => p ∈ l /\ is_after after p = true /\
              forall q, q ∈ l -> is_after after q = true -> cmp_le bytes_cmp p q
  | None => forall q, q ∈ l -> is_after after q = false
  end.

Lemma least_after_is_least after l : is_least after l (least_after after l).
Proof.
  unfold least_after. induction l as [|x l IH] using rev_ind; [intros q []%elem_of_nil|].
  rewrite foldl_app. cbn. unfold least_step at 1. revert IH.
  destruct (foldl (least_step after) None l) as [p|]; cbn; intros IH;
    destruct (is_after after x) eqn:Hx; cbn.
  - destruct IH as (Hp&Ha&Hle). destruct (is_lt (bytes_cmp x p)) eqn:Hlt.
    + apply is_lt_true in Hlt. split_and!; [set_solver|done|].
      intros q [Hq| ->%list_elem_of_singleton]%elem_of_app Hqa;
        [|by apply (cmp_le_iff bytes_cmp); right].
      etransitivity; [apply (cmp_le_iff bytes_cmp); by left|by apply Hle].
    + split_and!; [set_solver|done|].
      intros q [Hq| ->%list_elem_of_singleton]%elem_of_app Hqa; [by apply Hle|].
      intros Hgt%(cmp_gt_lt bytes_cmp). by rewrite Hgt in Hlt.
  - destruct IH as (Hp&Ha&Hle). split_and!; [set_solver|done|].
    intros q [Hq| ->%list_elem_of_singleton]%elem_of_app Hqa; [by apply Hle|congruence].
  - split_and!; [set_solver|done|].
    intros q [Hq| ->%list_elem_of_singleton]%elem_of_app Hqa; [by rewrite IH in Hqa|].
    by apply (cmp_le_iff bytes_cmp); right.
  - intros q [Hq| ->%list_elem_of_singleton]%elem_of_app; auto.
Qed.

Lemma is_least_unique after l b1 b2 : is_least after l b1 -> is_least after l b2 -> b1 = b2.
Proof.
  destruct b1 as [p|], b2 as [q|]; cbn; [|naive_solver congruence..].
  intros (Hp&Hpa&Hple) (Hq&Hqa&Hqle). f_equal. by apply (cmp_le_antisym bytes_cmp); auto.
Qed.

(** The enumeration in byte order. *)
Definition text_lt (a b : text) : Prop := bytes_cmp a b = Lt.

Lemma elem_of_paired entries p : p ∈ paired_properties entries <-> p ∈ paired_list entries.
Proof. unfold paired_properties. by rewrite merge_sort_Permutation, elem_of_remove_dups. Qed.

#[export] Instance text_le_trans : Transitive text_le.
Proof. unfold text_le. apply _. Qed.
#[export] Instance text_le_total : Total text_le.
Proof. unfold text_le. apply _. Qed.

Lemma StronglySorted_strict l : StronglySorted text_le l -> NoDup l -> StronglySorted text_lt l.
Proof.
  induction 1 as [|x l Hs IH Hx]; intros Hd; constructor.
  - apply IH. by apply NoDup_cons in Hd as [_ ?].
  - apply NoDup_cons in Hd as [Hn _]. rewrite Forall_forall in Hx |- *. intros y Hy.
    destruct (proj1 (cmp_le_iff bytes_cmp x y) (Hx y Hy)) as [?| ->]; done.
Qed.

Lemma paired_sorted entries : StronglySorted text_lt (paired_properties entries).
Proof.
  apply StronglySorted_strict; [apply (StronglySorted_merge_sort _)|].
  unfold paired_properties. rewrite merge_sort_Permutation. apply NoDup_remove_dups.
Qed.

Lemma StronglySorted_app_lt (l k : list text) x y :
  StronglySorted text_lt (l ++ k) -> x ∈ l -> y ∈ k -> text_lt x y.
Proof.
  induction l as [|z l IH]; cbn; intros Hs Hx Hy; [by apply elem_of_nil in Hx|].
  apply StronglySorted_inv in Hs as [Hs Hz]. rewrite Forall_forall in Hz.
  apply elem_of_cons in Hx as [-> |Hx]; [apply Hz; set_solver|auto].
Qed.

Lemma is_after_last (l k : list text) q : StronglySorted text_lt (l ++ k) -> q ∈ l ++ k ->
  is_after (last l) q = true <-> q ∈ k.
Proof.
  intros Hs Hq. destruct l as [|x l _] using rev_ind; [by split|]. rewrite last_snoc. cbn.
  rewrite is_lt_true. split.
  - intros Hlt. apply elem_of_app in Hq as [Hq|]; [exfalso|done].
    apply elem_of_app in Hq as [Hq|Hq].
    + rewrite <- app_assoc in Hs.
      pose proof (StronglySorted_app_lt l ([x] ++ k) q x Hs Hq ltac:(set_solver)) as Hqx.
      by apply (cmp_lt_asym bytes_cmp q x).
    + apply list_elem_of_singleton in Hq as ->. by apply (cmp_lt_irrefl bytes_cmp x).
  - intros Hk. apply (StronglySorted_app_lt (l ++ [x]) k); [done|set_solver|done].
Qed.

Lemma least_of_sorted (l k : list text) ps : StronglySorted text_lt (l ++ k) ->
  (forall p, p ∈ l ++ k <-> p ∈ ps) -> least_after (last l) ps = head k.
Proof.
  intros Hs Hps. apply (is_least_unique (last l) ps); [apply least_after_is_least|].
  destruct k as [|p k]; cbn.
  - intros q Hq%Hps. destruct (is_after (last l) q) eqn:E; [|done].
    by apply (is_after_last l []) in E; [apply elem_of_nil in E|..].
  - assert (Hp : p ∈ l ++ p :: k) by set_solver. split_and!; [by apply Hps| |].
    + apply (is_after_last l (p :: k)); [done..|set_solver].
    + intros q Hq%Hps Ha. apply (is_after_last l (p :: k) q Hs Hq) in Ha.
      apply (cmp_le_iff bytes_cmp). apply elem_of_cons in Ha as [->|Ha]; [by right|left].
      apply (StronglySorted_app_lt (l ++ [p]) k); [by rewrite <- app_assoc|set_solver|done].
Qed.

Section pairs.
Context `{LowercaseTable} (columns : DirectColumns) (P : DirectPreparation).
Context (no_overlay : Direct P) (small : root_count columns <= usize_max).
Context (f : usize -> option class_entry).
Context (reads : forall i, i < root_count columns ->
  base_object_property_class_at P columns i = Ok (f i)).

Abbreviation Kind := ObjectPropertyClassRuleKind.ObjectPropertyClassRuleKind.
Abbreviation Domain := ObjectPropertyClassRuleKind.Domain.
Abbreviation Range := ObjectPropertyClassRuleKind.Range.
Abbreviation round_of := (step columns None P).
Abbreviation emits := (emits columns P).
Abbreviation leads := (leads columns P).

(** The entries of the roots from [i] on. *)
Definition entries_from (i : usize) : list class_entry := omap f (range i (root_count columns)).
Definition classes_from (kind : Kind) (property : text) (i : usize) : list text :=
  classes_of kind property (entries_from i).

Lemma classes_from_end kind property : classes_from kind property (root_count columns) = [].
Proof using All. unfold classes_from, entries_from. by rewrite range_empty by lia. Qed.

Lemma classes_from_cons kind property i : i < root_count columns ->
  classes_from kind property i =
  match f i with
  | Some (k, p, class) =>
      if bool_decide (k = kind) && bool_decide (p = property) then [class] else []
  | None => []
  end ++ classes_from kind property (i + 1).
Proof using All.
  intros Hi. unfold classes_from, entries_from. rewrite range_cons by done. cbn.
  destruct (f i) as [[[k p] class]|]; [|done]. cbn. by destruct (_ && _).
Qed.

(** ** The scan for the classes of a property *)

Lemma run_scan_len : object_property_class_scan_len P columns = Ok (root_count columns).
Proof using All.
  unfold object_property_class_scan_len. rewrite direct_local. change (len []) with 0.
  by rewrite (proj2 (checked_add_Some (root_count columns) 0 (root_count columns)) ltac:(lia)).
Qed.

Lemma run_class_at i : i < root_count columns ->
  run (object_property_class_at P columns i) = Ok (f i).
Proof using All.
  intros Hi. unfold object_property_class_at. cbn zeta. rewrite run_bind by solve_transparent.
  rewrite run_scan_len. cbn [mbind outcome_bind run_lift]. rewrite run_lift.
  cbn [mbind outcome_bind]. destruct (N.leb_spec (root_count columns) i); [lia|].
  unfold has_local_classes. rewrite direct_local. cbn [negb]. rewrite run_lift. by apply reads.
Qed.

Lemma run_scan_classes kind property overflow n i : n = N.to_nat (root_count columns - i) ->
  i <= root_count columns ->
  run (scan_classes columns P n kind property overflow (root_count columns) i)
    = Ok (None, root_count columns) /\ classes_from kind property i = [] \/
  exists j class, i <= j < root_count columns /\
    run (scan_classes columns P n kind property overflow (root_count columns) i)
      = Ok (Some class, j + 1) /\
    classes_from kind property i = class :: classes_from kind property (j + 1).
Proof using All.
  revert i. induction n as [|n IH]; intros i Hn Hi; cbn [scan_classes].
  - assert (i = root_count columns) as -> by lia. left. rewrite classes_from_end.
    by destruct (N.ltb_spec (root_count columns) (root_count columns)); [lia|].
  - destruct (N.ltb_spec i (root_count columns)); [|lia]. cbn [negb].
    rewrite (proj2 (checked_add_Some i 1 (i + 1)) ltac:(lia)), classes_from_cons by lia.
    cbn [ok_or]. assert (Hskip : forall r,
      r = run (scan_classes columns P n kind property overflow (root_count columns) (i + 1)) ->
      r = Ok (None, root_count columns) /\ classes_from kind property (i + 1) = [] \/
      exists j class, i <= j < root_count columns /\ r = Ok (Some class, j + 1) /\
        classes_from kind property (i + 1) = class :: classes_from kind property (j + 1)).
    { intros r ->. destruct (IH (i + 1) ltac:(lia) ltac:(lia)) as [?|(j&class&?&?&?)]; [by left|right].
      exists j, class. split_and!; try done; lia. }
    run_steps. rewrite run_class_at by done. run_steps.
    destruct (f i) as [[[k p] class]|]; [|by apply Hskip].
    destruct (bool_decide (k = kind) && bool_decide (p = property)); [|by apply Hskip].
    right. exists i, class. split_and!; try done; lia.
Qed.

Lemma run_next_class kind property overflow silent changed i : i <= root_count columns ->
  let o := run (next_class columns P kind property overflow silent changed i) in
  o = Ok (None, root_count columns) /\ classes_from kind property i = [] \/
  exists j class, i <= j < root_count columns /\ o = Ok (Some class, j + 1) /\
    classes_from kind property i = class :: classes_from kind property (j + 1).
Proof using All.
  intros Hi o. unfold o, next_class, has_local_classes. rewrite direct_local.
  rewrite run_bind by solve_transparent. rewrite run_lift, run_scan_len. cbn [mbind outcome_bind].
  by apply run_scan_classes.
Qed.

(** ** The rounds of an active property *)

Section active.
Context (property : text).

Definition range_edges (domain : text) (ranges : list text) : list DirectEdge :=
  range ← ranges; role_edges P.(preparation_roles) domain property range.
Definition pair_edges (domains : list text) : list DirectEdge :=
  domain ← domains; range_edges domain (classes_from Range property 0).

(** The cursor while the property is active. *)
Definition active (c : DirectEmissionCursor) : Prop :=
  idle c /\ c.(cursor_phase) = EmissionPhase.DomainRanges /\ c.(active_property) = Some property.

Lemma active_round c : active c -> run (round_of c) = run (pair_round columns P c property).
Proof using Type.
  intros (Hi&Hp&Ha). rewrite idle_round, Hp by done. unfold domain_ranges_round. by rewrite Ha.
Qed.

Lemma ranges_loop n c domain r : n = N.to_nat (root_count columns - r) -> r <= root_count columns ->
  active c -> c.(current_domain) = Some domain -> c.(range_index) = r ->
  let l := range_edges domain (classes_from Range property r) in
  c.(emitted) + len l < usize_max ->
  leads (run (pair_round columns P c property)) l
    (advance (c <| range_index := root_count columns |> <| current_domain := None |>) (len l)).
Proof using All.
  revert c r. induction n as [n IH] using lt_wf_ind. intros c r Hn Hle Ha Hd Hr l Hm.
  unfold pair_round. rewrite Hd. run_steps. rewrite Hr.
  destruct (run_next_class Range property
    "encoded domain/range range cursor overflow"
    "encoded domain/range range span references a silent root"
    "encoded domain/range range span changed after preparation" r Hle)
    as [[R E]|(j&class&Hj&R&E)]; fold (next_range columns P property r) in R;
    rewrite R; run_steps; unfold l in *; rewrite E in *.
  - change (range_edges domain []) with (@nil DirectEdge). change (len []) with 0.
    rewrite advance_0. apply emits_refl.
  - change (range_edges domain (class :: classes_from Range property (j + 1))) with
      (role_edges P.(preparation_roles) domain property class
       ++ range_edges domain (classes_from Range property (j + 1))) in *.
    rewrite len_app in Hm |- *. rewrite start_role_Ok. run_steps. rewrite <- advance_advance.
    set (next := c <| range_index := j + 1 |>).
    eapply leads_app; [exact (leads_role columns P next domain property class (proj1 (proj1 Ha))
      ltac:(cbn; lia))|].
    apply leads_emits.
    set (k := len (role_edges (preparation_roles P) domain property class)) in *.
    rewrite (active_round (advance next k)) by done.
    exact (IH (N.to_nat (root_count columns - (j + 1))) ltac:(lia) (advance next k) (j + 1) eq_refl
      ltac:(lia) Ha Hd eq_refl ltac:(cbn; lia)).
Qed.

(** What is left of [c] when the property is exhausted. *)
Definition exhausted (c c' : DirectEmissionCursor) (l : list DirectEdge) : Prop :=
  idle c' /\ c'.(cursor_phase) = EmissionPhase.DomainRanges /\ c'.(active_property) = None /\
  c'.(previous_property) = c.(previous_property) /\ c'.(emitted) = c.(emitted) + len l.

Lemma pair_round_domain c domain next : c.(current_domain) = None ->
  run (next_domain columns P property c.(domain_index)) = Ok (Some domain, next) ->
  run (pair_round columns P c property) =
  run (pair_round columns P
    (c <| domain_index := next |> <| current_domain := Some domain |> <| range_index := 0 |>) property).
Proof using Type.
  intros Hd R. unfold pair_round. cbn [set_field current_domain range_index]. rewrite Hd. cbv zeta.
  rewrite run_bind by solve_transparent. rewrite run_bind by solve_transparent. rewrite R. run_steps. done.
Qed.

Lemma pair_round_end c next : c.(current_domain) = None ->
  run (next_domain columns P property c.(domain_index)) = Ok (None, next) ->
  run (pair_round columns P c property) =
  Ok (continue (c <| domain_index := next |> <| active_property := None |>)).
Proof using Type.
  intros Hd R. unfold pair_round. rewrite Hd. run_steps. rewrite R. run_steps. done.
Qed.

Lemma domains_loop n c d : n = N.to_nat (root_count columns - d) -> d <= root_count columns ->
  active c -> c.(current_domain) = None -> c.(domain_index) = d ->
  let l := pair_edges (classes_from Domain property d) in
  c.(emitted) + len l < usize_max ->
  exists c', leads (run (pair_round columns P c property)) l c' /\ exhausted c c' l.
Proof using All.
  revert c d. induction n as [n IH] using lt_wf_ind. intros c d Hn Hle Ha Hd Hi l Hm.
  destruct (run_next_class Domain property
    "encoded domain/range domain cursor overflow"
    "encoded domain/range domain span references a silent root"
    "encoded domain/range domain span changed after preparation" d Hle)
    as [[R E]|(j&class&Hj&R&E)]; fold (next_domain columns P property d) in R;
    rewrite <- Hi in R; unfold l in *; rewrite E in *.
  - rewrite (pair_round_end c _ Hd R). eexists. split; [apply emits_refl|].
    unfold exhausted. change (len (pair_edges [])) with 0. rewrite N.add_0_r.
    destruct Ha as (?&?&?). by split_and!.
  - set (first := range_edges class (classes_from Range property 0)).
    set (rest := pair_edges (classes_from Domain property (j + 1))).
    change (pair_edges (class :: classes_from Domain property (j + 1))) with (first ++ rest) in *.
    rewrite len_app in Hm. rewrite (pair_round_domain c class (j + 1) Hd R).
    set (c1 := c <| domain_index := j + 1 |> <| current_domain := Some class |> <| range_index := 0 |>).
    pose proof (ranges_loop _ c1 class 0 eq_refl ltac:(lia) Ha eq_refl eq_refl
      ltac:(unfold first in Hm; cbn; lia)) as L. fold first in L.
    set (c2 := advance _ _) in L.
    destruct (IH (N.to_nat (root_count columns - (j + 1))) ltac:(lia) c2 (j + 1) eq_refl
      ltac:(lia) Ha eq_refl eq_refl ltac:(cbn; fold rest; lia)) as (c'&L'&X).
    exists c'. split.
    + eapply leads_app; [exact L|]. apply leads_emits. by rewrite active_round.
    + destruct X as (?&?&?&?&X). split_and!; try done. rewrite X, len_app. cbn. unfold rest. lia.
Qed.
End active.

(** ** The next paired property *)

Abbreviation entries := (entries_from 0).

Definition range_step (property : text) (st : unit) (i : usize) : outcome (control unit unit) :=
  entry ← base_object_property_class_at P columns i;
  Ok (match entry with
      | Some (kind, candidate, _) =>
          if bool_decide (kind = Range) && bool_decide (candidate = property)
          then Return tt else Continue tt
      | None => Continue tt
      end).

Lemma range_step_eq property i : i < root_count columns ->
  range_step property tt i =
  Ok (match f i with
      | Some (kind, candidate, _) =>
          if bool_decide (kind = Range) && bool_decide (candidate = property)
          then Return tt else Continue tt
      | None => Continue tt
      end).
Proof using All. intros Hi. unfold range_step. by rewrite reads. Qed.

Lemma fold_ranges property n i : n = N.to_nat (root_count columns - i) ->
  fold_until (range_step property) tt (range i (root_count columns))
  = Ok (match classes_from Range property i with [] => Continue tt | _ => Return tt end).
Proof using All.
  revert i. induction n as [|n IH]; intros i Hn.
  - unfold classes_from, entries_from. by rewrite range_empty by lia.
  - rewrite range_cons, classes_from_cons by lia. specialize (IH (i + 1) ltac:(lia)). cbn [fold_until].
    rewrite range_step_eq by lia. cbn [mbind outcome_bind].
    destruct (f i) as [[[k p] class]|]; [|done].
    by destruct (bool_decide (k = Range) && bool_decide (p = property)).
Qed.

Lemma run_has_range property :
  run (base_has_object_property_class_for_property P columns RootDomainRangeEffect.Range property)
  = Ok (negb (bool_decide (classes_from Range property 0 = []))).
Proof using All.
  unfold base_has_object_property_class_for_property. cbn [ObjectPropertyClassRuleKind.from_effect ok_or].
  run_steps. rewrite run_fold_until by (intros [] i; solve_transparent).
  pose proof (fold_ranges property _ 0 eq_refl) as E.
  rewrite (fold_until_ext _ (range_step property)) by (intros [] i; by run_steps).
  rewrite E. cbn. by destruct (classes_from Range property 0).
Qed.

Definition paired_of (i : usize) : option text :=
  match f i with
  | Some (k, p, _) =>
      if bool_decide (k = Domain) && negb (bool_decide (classes_from Range p 0 = []))
      then Some p else None
  | None => None
  end.

Lemma run_paired_step after base i : i < root_count columns ->
  run (paired_step P columns after base i) =
  Ok (match paired_of i with Some p => least_step after base p | None => base end).
Proof using All.
  intros Hi. unfold paired_step, paired_of, least_step, is_after. run_steps. rewrite reads by done.
  run_steps. destruct (f i) as [[[k p] class]|]; [|done].
  assert (Hafter : forall previous, is_le (bytes_cmp p previous) = negb (is_lt (bytes_cmp previous p))).
  { intros previous. rewrite (cmp_opp bytes_cmp previous p). by destruct (bytes_cmp previous p). }
  destruct (bool_decide (k = Domain)); cbn [negb orb andb]; [|done].
  destruct after as [previous|]; [rewrite Hafter; destruct (is_lt (bytes_cmp previous p)) eqn:Ea|];
    (destruct base as [current|]; [destruct (is_lt (bytes_cmp p current)) eqn:Ec|]);
    cbn [negb orb andb]; run_steps; rewrite ?run_has_range; cbn;
    destruct (bool_decide (classes_from Range p 0 = [])); cbn; by rewrite ?Ea, ?Ec.
Qed.

Lemma fold_paired after base i n : n = N.to_nat (root_count columns - i) ->
  foldM (fun base i => run (paired_step P columns after base i)) base (range i (root_count columns))
  = Ok (foldl (least_step after) base (omap paired_of (range i (root_count columns)))).
Proof using All.
  revert base i. induction n as [|n IH]; intros base i Hn.
  - by rewrite range_empty by lia.
  - rewrite range_cons by lia. cbn [foldM]. rewrite run_paired_step by lia. cbn.
    rewrite IH by lia. by destruct (paired_of i).
Qed.

Lemma paired_list_entries : paired_list entries = omap paired_of (range 0 (root_count columns)).
Proof using All.
  unfold paired_list. set (g := paired_entry entries). unfold entries_from.
  generalize (range 0 (root_count columns)) as l. induction l as [|i l IH]; [done|]. cbn.
  unfold paired_of at 1. destruct (f i) as [[[k p] class]|]; cbn; [|done]. rewrite IH.
  unfold classes_from. by destruct (bool_decide (k = Domain)), (bool_decide _).
Qed.

Lemma run_next_paired l k : paired_properties entries = l ++ k ->
  run (next_paired_property P columns (last l)) = Ok (head k).
Proof using All.
  intros E. unfold next_paired_property, has_local_classes. rewrite direct_local.
  rewrite run_foldM by solve_transparent. erewrite fold_paired by done. f_equal.
  rewrite <- paired_list_entries. apply least_of_sorted; rewrite <- E; [apply paired_sorted|].
  apply elem_of_paired.
Qed.

(** ** The phase *)

Lemma domain_ranges_loop c l k : paired_properties entries = l ++ k ->
  idle c -> c.(cursor_phase) = EmissionPhase.DomainRanges -> c.(active_property) = None ->
  c.(previous_property) = last l ->
  let edges := k ≫= property_edges P entries in
  c.(emitted) + len edges < usize_max ->
  exists c', emits c edges c' /\ idle c' /\ c'.(cursor_phase) = EmissionPhase.Finished /\
    c'.(emitted) = c.(emitted) + len edges.
Proof using All.
  revert c l. induction k as [|p k IH]; intros c l E Hi Hp Ha Hpr edges Hm;
    (assert (R : run (round_of c) = run (domain_ranges_round columns P c)) by (by rewrite idle_round, Hp));
    unfold domain_ranges_round in R; rewrite Ha, Hpr in R;
    rewrite run_bind in R by solve_transparent; rewrite (run_next_paired l _ E) in R;
    cbn [mbind outcome_bind head] in R.
  - eexists. split; [apply emits_one; exact R|]. split_and!; [done..|]. apply eq_sym, N.add_0_r.
  - set (c1 := c <| previous_property := Some p |> <| active_property := Some p |>
                 <| current_domain := None |> <| domain_index := 0 |> <| range_index := 0 |>) in R.
    assert (Hedges : edges = pair_edges p (classes_from Domain p 0) ++ (k ≫= property_edges P entries))
      by done.
    clearbody edges. subst edges. rewrite len_app in Hm.
    destruct (domains_loop p _ c1 0 eq_refl ltac:(lia)) as (c2&L&I&Hp2&Ha2&Hpr2&Hm2);
      [done|done|done|cbn; lia|].
    destruct (IH c2 (l ++ [p])) as (c'&L'&?&?&Hm'); [by rewrite <- app_assoc|done..| | |].
    + by rewrite last_snoc.
    + rewrite Hm2. cbn. lia.
    + exists c'. split_and!; try done.
      * eapply emits_app; [|exact L']. apply leads_emits. by rewrite R.
      * rewrite Hm', Hm2, len_app. cbn. lia.
Qed.
End pairs.
