(* ===== verification/Refine.v ===== *)
(** * The cursor and its batches refine the batch program

    From its initial state the cursor emits exactly [direct_edges], one edge per
    call, and then reports the end; the batches cut this list at the requested
    sizes. *)

From S2P Require Import Prelude Errors Tags Text Readers Columns Nodes Properties Graphs Anonymous Samples.
From S2P Require Import Stats Rules Planning Roles Emission Overlay Preparation Preflight Cursor Emit Phases Lists.
Local Open Scope string_scope.
Local Open Scope list_scope.
Local Open Scope N_scope.

Section refine.
Context `{LowercaseTable} (columns : DirectColumns) (P : DirectPreparation).
Context (no_overlay : Direct P) (small : root_count columns <= usize_max).

Abbreviation emits := (emits columns P).

(** ** The whole emission *)

Lemma concatM_option {A B} (g : A -> outcome (option B)) (l : list A) k :
  concatM (fun x => o ← g x; Ok (match o with Some y => [y] | None => [] end)) l = Ok k ->
  (forall x, x ∈ l -> exists o, g x = Ok o) /\
  k = omap (fun x => match g x with Ok o => o | _ => None end) l.
Proof using Type.
  revert k. induction l as [|x l IH]; intros k Hk.
  { injection Hk as <-. split; [|done]. by intros x ?%elem_of_nil. }
  apply concatM_cons_Ok in Hk as (part&rest&Hpart&Hrest&->). apply bind_Ok in Hpart as (o&Ho&Hpart).
  destruct (IH rest Hrest) as [Hall ->]. split.
  - intros y [->|Hy]%elem_of_cons; eauto.
  - injection Hpart as <-. cbn. rewrite Ho. by destruct o.
Qed.

Lemma domain_ranges_phase c l : idle c -> c.(cursor_phase) = EmissionPhase.DomainRanges ->
  c.(active_property) = None -> c.(previous_property) = None ->
  domain_range_edges columns P = Ok l -> c.(emitted) + len l < usize_max ->
  exists c', emits c l c' /\ idle c' /\ c'.(cursor_phase) = EmissionPhase.Finished /\
    c'.(emitted) = c.(emitted) + len l.
Proof using All.
  intros Hi Hp Ha Hpr Hl Hm. apply bind_Ok in Hl as (entries&He&Hl). injection Hl as <-.
  apply concatM_option in He as [Hall ->].
  set (f := fun i => match base_object_property_class_at P columns i with Ok o => o | _ => None end) in *.
  assert (reads : forall i, i < root_count columns -> base_object_property_class_at P columns i = Ok (f i)).
  { intros i Hi'. unfold f. destruct (Hall i) as [o ->]; [|done]. apply elem_of_range. lia. }
  by apply (domain_ranges_loop columns P no_overlay small f reads c []).
Qed.

(** The initial cursor emits the batch program and is then finished. *)
Lemma cursor_emits l : direct_edges columns P = Ok l -> len l < usize_max ->
  exists c, emits DirectEmissionCursor_default l c /\ idle c /\
    c.(cursor_phase) = EmissionPhase.Finished /\ c.(emitted) = len l.
Proof using All.
  intros Hl Hm. unfold direct_edges in Hl. apply bind_Ok in Hl as (l1&H1&Hl).
  pose proof (subclasses_phase columns P no_overlay small DirectEmissionCursor_default l1
    ltac:(done) eq_refl eq_refl H1) as E1.
  destruct (asserted_taxonomy_only (options P)).
  { injection Hl as ->. eexists. split; [by apply E1|]. done. }
  apply bind_Ok in Hl as (l2&H2&Hl). apply bind_Ok in Hl as (l3&H3&Hl).
  apply bind_Ok in Hl as (l4&H4&Hl). apply bind_Ok in Hl as (l5&H5&Hl).
  apply bind_Ok in Hl as (l6&H6&Hl). injection Hl as <-. rewrite !len_app in Hm |- *.
  specialize (E1 ltac:(cbn; lia)). set (c1 := advance _ _) in E1.
  pose proof (equivalents_phase columns P no_overlay c1 l2 small ltac:(done) eq_refl eq_refl H2
    ltac:(cbn; lia)) as E2. set (c2 := advance _ _) in E2.
  pose proof (annotations_phase columns P c2 l3 small direct_annotations ltac:(done) eq_refl eq_refl H3
    ltac:(cbn; lia)) as E3. set (c3 := advance _ _) in E3.
  pose proof (class_assertions_phase columns P no_overlay small c3 l4 ltac:(done) eq_refl eq_refl H4
    ltac:(cbn; lia)) as E4. set (c4 := advance _ _) in E4.
  pose proof (object_assertions_phase columns P no_overlay small c4 l5 ltac:(done) eq_refl eq_refl H5
    ltac:(cbn; lia)) as E5. set (c5 := advance _ _) in E5.
  destruct (domain_ranges_phase c5 l6 ltac:(done) eq_refl eq_refl eq_refl H6 ltac:(cbn; lia))
    as (c6&E6&?&?&Hc6).
  exists c6. split_and!; try done; [|rewrite Hc6; cbn; lia].
  repeat (eapply emits_app; [eassumption|]). exact E6.
Qed.

End refine.

(** ** Calls *)

Section calls.
Context `{LowercaseTable} (columns : DirectColumns) (P : DirectPreparation).

Abbreviation emits := (emits columns P).

(** From [c], calls with fuel [n] or more return the edges [l], then the end. *)
Fixpoint paced (n : nat) (c : DirectEmissionCursor) (l : list DirectEdge) : Prop :=
  match l with
  | [] => exists c', forall fuel, (n <= fuel)%nat ->
            run (next_cursor_edge columns None P fuel c) = Ok (None, c')
  | e :: l => exists c1, (forall fuel, (n <= fuel)%nat ->
                run (next_cursor_edge columns None P fuel c) = Ok (Some e, c1)) /\ paced n c1 l
  end.

Lemma paced_le n m c l : (n <= m)%nat -> paced n c l -> paced m c l.
Proof using Type.
  intros Hnm. revert c. induction l as [|e l IH]; cbn; intros c.
  - intros (c'&Hf). exists c'. intros fuel ?. apply Hf. etransitivity; eassumption.
  - intros (c1&Hf&Hp). exists c1. split; [|auto]. intros fuel ?. apply Hf. etransitivity; eassumption.
Qed.

Lemma emits_end c c' : emits c [] c' -> idle c' -> c'.(cursor_phase) = EmissionPhase.Finished ->
  exists n, paced n c [].
Proof using Type.
  intros E. remember [] as k eqn:Hk. induction E as [c|c c1 k c' Hs E IH|]; intros Hi Hp; [| |done].
  - exists 1%nat, c. intros [|fuel] Hf; [by apply Nat.nle_succ_0 in Hf|].
    rewrite run_next, idle_round by done. by rewrite Hp.
  - subst k. destruct (IH eq_refl Hi Hp) as (n&p&Hf). exists (S n), p. intros [|fuel] Hle;
      [by apply Nat.nle_succ_0 in Hle|]. rewrite run_next, Hs. apply Hf. by apply le_S_n.
Qed.

Lemma emits_paced c l c' : emits c l c' -> idle c' -> c'.(cursor_phase) = EmissionPhase.Finished ->
  exists n, paced n c l.
Proof using Type.
  revert c. induction l as [|e l IH]; intros c E Hi Hp; [by eapply emits_end|].
  apply emits_next in E as (c1&n&E&Hf). destruct (IH c1 E Hi Hp) as [m Hm].
  exists (Nat.max n m), c1. split.
  - intros fuel Hle. apply Hf. etransitivity; [apply Nat.le_max_l|exact Hle].
  - eapply paced_le; [apply Nat.le_max_r|exact Hm].
Qed.

(** ** Batches *)

Lemma clone_cursor c : try_clone_cursor c = Ok c.
Proof using Type.
  destruct c as [ph si od [[s d k b|s r d k]|] [[s' i n r']|] oa [pp|] [ap|] [cd|] di ri e]; done.
Qed.

Lemma call_emitted fuel c e c1 :
  run (next_cursor_edge columns None P fuel c) = Ok (Some e, c1) -> c1.(emitted) = c.(emitted) + 1.
Proof using Type. exact (count_call columns None P fuel c quiet 0%nat (Some e, c1)). Qed.

Lemma run_batch_edges n fuel c l k acc : (n <= fuel)%nat -> paced n c (l ++ k) ->
  exists c1, run (batch_edges columns None P fuel (length l) acc c) = Ok (acc ++ l, c1) /\
    paced n c1 k /\ c1.(emitted) = c.(emitted) + len l.
Proof using Type.
  intros Hle. revert c acc. induction l as [|e l IH]; intros c acc Hp.
  - exists c. cbn. rewrite app_nil_r. split_and!; [done..|]. symmetry. apply N.add_0_r.
  - destruct Hp as (c1&Hf&Hp). specialize (Hf fuel Hle). pose proof (call_emitted _ _ _ _ Hf) as He.
    destruct (IH c1 (acc ++ [e]) Hp) as (c2&R&Hp2&He2). exists c2. split_and!; [|done|].
    + cbn [length batch_edges]. rewrite run_bind by solve_transparent. rewrite Hf.
      cbn [mbind outcome_bind ok_or]. rewrite run_bind by solve_transparent. rewrite run_lift.
      cbn [mbind outcome_bind]. rewrite R. by rewrite <- app_assoc.
    + rewrite He2, He, len_cons. apply eq_sym, N.add_assoc.
Qed.

(** One batch: what is left, cut at the requested size. *)
Lemma run_next_batch n fuel c l size : (n <= fuel)%nat -> paced n c l ->
  remaining_edges P c = len l ->
  let amount := N.to_nat (N.min (len l) size) in
  exists c1, run (prepare_next_batch columns None P fuel c size) = Ok (take amount l, c1) /\
    paced n c1 (drop amount l) /\ remaining_edges P c1 = len (drop amount l).
Proof using Type.
  intros Hle Hp Hr amount. rewrite <- (take_drop amount l) in Hp.
  destruct (run_batch_edges n fuel c _ _ [] Hle Hp) as (c1&R&Hp1&He).
  assert (Ha : length (take amount l) = amount).
  { rewrite length_take. subst amount. unfold len. lia. }
  exists c1. split_and!; [|done|].
  - unfold prepare_next_batch. rewrite Hr, clone_cursor. fold amount. rewrite Ha in R. by run_steps.
  - unfold remaining_edges, saturating_sub in *. rewrite He. unfold len in *.
    rewrite length_drop, Ha. clear -Hr. lia.
Qed.

(** The batches a client asks for, one after the other. *)
Fixpoint drain_batches (fuel : nat) (c : DirectEmissionCursor) (sizes : list usize)
    : Cx (list (list DirectEdge) * DirectEmissionCursor) :=
  match sizes with
  | [] => mret ([], c)
  | size :: sizes =>
      '(edges, c) ← prepare_next_batch columns None P fuel c size;
      '(batches, c) ← drain_batches fuel c sizes;
      mret (edges :: batches, c)
  end.

#[local] Instance transparent_drain fuel c sizes : Transparent (drain_batches fuel c sizes).
Proof using Type. revert c. induction sizes; cbn [drain_batches]; solve_transparent. Qed.

Definition total (sizes : list usize) : N := foldr N.add 0 sizes.

Lemma run_drain_batches n fuel c l sizes : (n <= fuel)%nat -> paced n c l ->
  remaining_edges P c = len l ->
  exists batches c1, run (drain_batches fuel c sizes) = Ok (batches, c1) /\
    concat batches = take (N.to_nat (total sizes)) l /\
    Forall2 (fun batch size => len batch <= size) batches sizes /\
    paced n c1 (drop (N.to_nat (total sizes)) l) /\
    remaining_edges P c1 = len l - total sizes.
Proof using Type.
  intros Hle. revert c l. induction sizes as [|size sizes IH]; intros c l Hp Hr; cbn [drain_batches].
  { exists [], c. split_and!; try done. cbn. by rewrite N.sub_0_r. }
  destruct (run_next_batch n fuel c l size Hle Hp Hr) as (c1&R&Hp1&Hr1).
  set (amount := N.to_nat (N.min (len l) size)) in *.
  destruct (IH c1 _ Hp1 Hr1) as (batches&c2&R2&Hc&Hf&Hp2&Hr2).
  exists (take amount l :: batches), c2. rewrite drop_drop in *.
  assert (E : forall A (g : nat -> list A), (forall m, (length l <= m)%nat -> g m = g (length l)) ->
    g (amount + N.to_nat (total sizes))%nat = g (N.to_nat (total (size :: sizes)))).
  { intros A g Hg. cbn. fold (total sizes). unfold amount, len.
    destruct (N.le_gt_cases (N.of_nat (length l)) size).
    - rewrite (Hg (_ + _)%nat), (Hg (N.to_nat _)) by lia. done.
    - f_equal. lia. }
  split_and!.
  - rewrite run_bind by solve_transparent. rewrite R. cbn [mbind outcome_bind].
    rewrite run_bind by solve_transparent. by rewrite R2.
  - cbn [concat]. rewrite Hc. rewrite <- (E _ (fun m => take m l)) by (intros; by rewrite !take_ge by lia).
    rewrite <- (take_drop amount (take (amount + N.to_nat (total sizes)) l)).
    by rewrite take_take, take_drop_commute, Nat.min_l by lia.
  - constructor; [|done]. unfold len. rewrite length_take. unfold amount. lia.
  - by rewrite <- (E _ (fun m => drop m l)) by (intros; by rewrite !drop_ge by lia).
  - rewrite Hr2. unfold len. rewrite length_drop. cbn. fold (total sizes). unfold amount, len. lia.
Qed.
End calls.

(** ** The contract of the cursor *)

Section contract.
Context `{LowercaseTable} (columns : DirectColumns) (P : DirectPreparation).

(** C5: Without a local overlay, the cursor refines the batch program: its
    calls return the edges of [direct_edges] one by one, in order, and then
    report the end; every call terminates with a bound that does not depend on
    the position. *)
Theorem cursor_refines l :
  Direct P -> root_count columns <= usize_max ->
  direct_edges columns P = Ok l -> len l < usize_max ->
  exists n, paced columns P n DirectEmissionCursor_default l.
Proof using Type.
  intros Hd Hr Hl Hm. destruct (cursor_emits columns P Hd Hr l Hl Hm) as (c&E&Hi&Hp&_).
  by eapply emits_paced.
Qed.

(** When the preflight count is the length of the batch program, the
    batches of any sizes cut its edges: their concatenation is the prefix of
    the total size, none is longer than requested, none fails, and what is left
    is the rest. *)
Theorem batches_refine l :
  Direct P -> root_count columns <= usize_max ->
  direct_edges columns P = Ok l -> len l < usize_max -> P.(statistics).(Stats.edges) = len l ->
  exists n, forall fuel sizes, (n <= fuel)%nat ->
  exists batches c,
    run (drain_batches columns P fuel DirectEmissionCursor_default sizes) = Ok (batches, c) /\
    concat batches = take (N.to_nat (total sizes)) l /\
    Forall2 (fun batch size => len batch <= size) batches sizes /\
    remaining_edges P c = len l - total sizes.
Proof using Type.
  intros Hd Hr Hl Hm He. destruct (cursor_emits columns P Hd Hr l Hl Hm) as (c&E&Hi&Hp&_).
  destruct (emits_paced _ _ _ _ _ E Hi Hp) as [n Hn]. exists n. intros fuel sizes Hle.
  destruct (run_drain_batches columns P n fuel DirectEmissionCursor_default l sizes Hle Hn)
    as (batches&c1&?&?&?&_&?); [|by exists batches, c1].
  unfold remaining_edges, saturating_sub. rewrite He. cbn. apply N.sub_0_r.
Qed.

(** C30: A role expansion started at a cursor publishes the edge of the
    relation, one edge per sub-relation in the order of the role state and the
    reversed edge of the inverse, each once and as many as [edge_count]
    announced. *)
Theorem role_expansion c source relation destination l :
  l = role_edges P.(preparation_roles) source relation destination ->
  c.(pending) = None -> c.(emitted) + len l < usize_max ->
  edge_count P.(preparation_roles) relation = Ok (len l) /\
  exists c1, start_role c source relation destination = Ok c1 /\
    emits columns P c1 l (advance c (len l)).
Proof using Type.
  intros -> Hp Hm. split; [apply edge_count_role_edges|by apply emits_role].
  unfold role_fits. rewrite len_role_edges in Hm. lia.
Qed.

(** A taxonomy expansion publishes the subclass edge and, in bidirectional
    mode only, the superclass edge with its ends exchanged. *)
Theorem taxonomy_expansion c source destination b l :
  l = taxonomy_edges source destination b ->
  c.(pending) = None -> c.(emitted) + len l <= usize_max ->
  exists c1, start_taxonomy c source destination b = Ok c1 /\
    emits columns P c1 l (advance c (len l)).
Proof using Type. intros -> Hp Hm. by apply emits_taxonomy. Qed.
End contract.

(** ** Witnesses *)

Definition sample_options : DirectCompileOptions := {|
  bidirectional := true; asserted_taxonomy_only := false; only_taxonomy := false;
  include_literals := true; max_edges := 100; max_iri_bytes := 100 |}.

(** The value of a run that succeeds. *)
Ltac exact_value o :=
  let v := eval vm_compute in o in lazymatch v with Ok ?a => exact a end.

Definition sample_preparation : DirectPreparation := ltac:(
  exact_value (run (@prepare_direct ascii_lowercase ontology_sample None sample_options
    None None None None))).

#[export] Instance sample_direct : Direct sample_preparation.
Proof. split; [done|done|discriminate]. Qed.

Definition sample_edges : list DirectEdge := ltac:(
  exact_value (@direct_edges ascii_lowercase ontology_sample sample_preparation)).

Lemma cursor_refines_witness : let _ := ascii_lowercase in
  len sample_edges = 14 /\
  exists n, paced ontology_sample sample_preparation n DirectEmissionCursor_default sample_edges.
Proof.
  split; [by vm_compute|].
  apply (@cursor_refines ascii_lowercase); [apply _|by vm_compute..].
Defined.

Lemma batches_refine_witness : let _ := ascii_lowercase in
  exists n, forall fuel sizes, (n <= fuel)%nat ->
  exists batches c,
    run (drain_batches ontology_sample sample_preparation fuel DirectEmissionCursor_default sizes)
      = Ok (batches, c) /\
    concat batches = take (N.to_nat (total sizes)) sample_edges /\
    Forall2 (fun batch size => len batch <= size) batches sizes /\
    remaining_edges sample_preparation c = len sample_edges - total sizes.
Proof. apply (@batches_refine ascii_lowercase); [apply _|by vm_compute..]. Defined.

Lemma role_expansion_witness : let _ := ascii_lowercase in
  let l := role_edges sample_preparation.(preparation_roles) (str "a") (str "http://e/q") (str "b") in
  l = [ edge (str "a") (str "http://e/q") (str "b"); edge (str "a") (str "http://e/p") (str "b") ] /\
  edge_count sample_preparation.(preparation_roles) (str "http://e/q") = Ok (len l) /\
  exists c1, start_role DirectEmissionCursor_default (str "a") (str "http://e/q") (str "b") = Ok c1 /\
    emits ontology_sample sample_preparation c1 l (advance DirectEmissionCursor_default (len l)).
Proof.
  split; [by vm_compute|].
  apply (@role_expansion ascii_lowercase ontology_sample sample_preparation
    DirectEmissionCursor_default (str "a") (str "http://e/q") (str "b") _ eq_refl eq_refl).
  by vm_compute.
Defined.

Lemma taxonomy_expansion_witness : let _ := ascii_lowercase in
  let l := taxonomy_edges (str "A") (str "B") true in
  l = [ edge (str "A") SUBCLASS_OF (str "B"); edge (str "B") SUPERCLASS_OF (str "A") ] /\
  exists c1, start_taxonomy DirectEmissionCursor_default (str "A") (str "B") true = Ok c1 /\
    emits ontology_sample sample_preparation c1 l (advance DirectEmissionCursor_default (len l)).
Proof.
  split; [by vm_compute|].
  apply (@taxonomy_expansion ascii_lowercase ontology_sample sample_preparation
    DirectEmissionCursor_default (str "A") (str "B") true _ eq_refl eq_refl).
  by vm_compute.
Defined.

Lemma batch_size_witness : let _ := ascii_lowercase in
  exists edges c1,
    fst (prepare_next_batch ontology_sample None sample_preparation 40 DirectEmissionCursor_default 5
           quiet 0%nat) = Ok (edges, c1) /\
    len edges = N.min (remaining_edges sample_preparation DirectEmissionCursor_default) 5 /\
    c1.(emitted) = DirectEmissionCursor_default.(emitted) + len edges /\
    remaining_edges sample_preparation c1 =
    remaining_edges sample_preparation DirectEmissionCursor_default - len edges.
Proof.
  eexists _, _. split; [by vm_compute|].
  apply (@batch_size ascii_lowercase ontology_sample None sample_preparation 40
    DirectEmissionCursor_default 5 quiet 0%nat). by vm_compute.
Defined.
