(* ===== verification/Prepared.v ===== *)
(** * What a preparation promises

    [prepare_direct] returns a preparation whose emission succeeds and has as
    many edges as its statistics announce. *)

From stdpp Require Import sorting relations.
From S2P Require Import Prelude Lists Errors Partial Tags Text Readers Columns Nodes Properties Classes Generic.
From S2P Require Import Graphs Structure Reach Samples Validated Anonymous Sort Stats Rules Table Planning Plans Populate.
From S2P Require Import Provenance Roles Emission Overlay Preparation Preflight Cursor Emit Exact Products.
From S2P Require Import Refine.
Local Open Scope string_scope.
Local Open Scope list_scope.
Local Open Scope N_scope.

Lemma projected_edges_Ok t n : projected_edges t = Ok n ->
  n = t.(direct_taxonomy_edges) + t.(equivalent_totals).(Preflight.equivalent_edges)
    + t.(subclass_restriction_edges) + t.(annotation_totals).(annotation_edges)
    + t.(Preflight.class_assertion_edges) + t.(Preflight.object_assertion_edges)
    + t.(expanded_domain_range_edges).
Proof.
  unfold projected_edges. rewrite ok_or_Ok. intros Hn.
  repeat match type of Hn with
  | (mbind _ (checked_add ?a ?b)) = _ =>
      destruct (checked_add a b) as [v|] eqn:E; [|done]; apply checked_add_Some in E as [-> _]; cbn [mbind option_bind] in Hn
  end.
  by apply checked_add_Some in Hn as [-> _].
Qed.

Section totals.
Context `{LowercaseTable} (columns : DirectColumns) (P : DirectPreparation).
Context (plan : SelectedRootRulePlan) (log : list Logged).

Abbreviation max := (Cursor.maximum P).
Abbreviation roles := P.(preparation_roles).

Context (planned : populated columns max (root_count columns) plan log).
Context (from : prepared_from plan P).
Context {V : Validated columns}.
Context (ids : run (axiom_anonymous_ids columns) = Ok P.(anonymous_ids)).
Context (small : field_count columns <= usize_max).
Context (roomy : 2 * len columns.(scalar_bytes) + 8 <= usize_max).
Context (nodes_ok : forall nodes, P.(selected_annotation_nodes) = Some nodes ->
  forall n, n ∈ nodes -> annotation_node log n).

(** The parts of the count, as [count_edges] finds them. *)
Record parts (t : EdgeTotals) : Prop := {
  part_taxonomy : t.(direct_taxonomy_edges) =
    (tally (is_handler RootRuleHandler.Subclass) log - tally is_restriction log
     - tally is_ignored_subclass log) * directions P.(options);
  part_equivalent : t.(equivalent_totals).(Preflight.equivalent_edges) =
    if P.(options).(asserted_taxonomy_only) then 0 else sum (equivalent_weight P plan) log;
  part_restrictions : t.(subclass_restriction_edges) =
    if role_edges_enabled P then sum (restriction_weight P) log else 0;
  part_annotations :
    if P.(options).(asserted_taxonomy_only) then t.(annotation_totals).(annotation_edges) = 0 else
    exists l, all_annotation_edges columns P = Ok l /\ len l = t.(annotation_totals).(annotation_edges);
  part_classes : t.(Preflight.class_assertion_edges) =
    if P.(options).(asserted_taxonomy_only) then 0 else
    tally (is_handler RootRuleHandler.ClassAssertion) log - tally is_ignored_assertion log;
  part_objects : t.(Preflight.object_assertion_edges) =
    if P.(options).(asserted_taxonomy_only) then 0 else
    tally (is_handler RootRuleHandler.ObjectPropertyAssertion) log;
  part_products : t.(expanded_domain_range_edges) =
    if P.(options).(asserted_taxonomy_only) then 0 else sum (domain_weight P log) log;
}.

Lemma count_edges_parts :
  post parts (count_edges columns P.(options) plan roles P.(selected_annotation_nodes)).
Proof using All.
  pose proof (populated_counts _ _ _ _ _ planned) as [C1 C2 C3 C4 C5 C6].
  unfold count_edges.
  eapply post_bind; [apply post_lift, ensures_self|intros direct Hd%ok_or_Ok].
  eapply post_bind; [apply post_lift, ensures_self|intros taxonomy [-> _]%ok_or_Ok%checked_mul_Some].
  assert (Ed : direct = tally (is_handler RootRuleHandler.Subclass) log - tally is_restriction log
     - tally is_ignored_subclass log).
  { rewrite <- C1, <- C2, <- C3. destruct (checked_sub _ _) as [v|] eqn:E; [|done].
    apply checked_sub_Some in E as [-> _]. cbn in Hd. by apply checked_sub_Some in Hd as [-> _]. }
  eapply (post_bind (fun c => c.(Preflight.equivalent_edges) =
    if P.(options).(asserted_taxonomy_only) then 0 else sum (equivalent_weight P plan) log)).
  { destruct (asserted_taxonomy_only _); [by apply post_ret|by apply equivalent_count_post]. }
  intros equivalent He. eapply post_bind; [apply post_trivial|intros _ _].
  eapply (post_bind (fun c => c = if role_edges_enabled P then sum (restriction_weight P) log else 0)).
  { unfold role_edges_enabled. destruct (asserted_taxonomy_only _), (only_taxonomy _); cbn;
      try by apply post_ret. by apply restriction_count_post. }
  intros restrictions Hr.
  eapply (post_bind (fun c => c = if P.(options).(asserted_taxonomy_only) then 0 else
    tally (is_handler RootRuleHandler.ClassAssertion) log - tally is_ignored_assertion log)).
  { apply post_lift. destruct (asserted_taxonomy_only _); [by apply ensures_Ok|].
    rewrite <- C4, <- C5. by intros v [-> _]%ok_or_Ok%checked_sub_Some. }
  intros classes Hc. eapply post_bind; [by apply (annotations_post columns P plan log)|].
  intros annotations Ha. eapply post_bind; [apply post_trivial|intros skipped _].
  eapply (post_bind (fun st => st.2 =
    if P.(options).(asserted_taxonomy_only) then 0 else sum (domain_weight P log) log)).
  { destruct (asserted_taxonomy_only _); [by apply post_ret|by apply domain_count_post]. }
  intros [products expanded] Hp. apply post_ret.
  constructor; cbn; try done; [by rewrite Ed|by rewrite C6].
Qed.

(** The parts add up to the length of the batch program, which succeeds. *)
Lemma parts_exact t n : parts t -> projected_edges t = Ok n ->
  exists l, direct_edges columns P = Ok l /\ len l = n.
Proof using All.
  intros [H1 H2 H3 H4 H5 H6 H7] ->%projected_edges_Ok. unfold direct_edges.
  destruct (subclass_edges_sum columns P plan log planned from) as (l1&->&E1). cbn [mbind outcome_bind].
  rewrite (subclass_weight_sum columns P plan log planned), <- H1, <- H3 in E1.
  destruct (asserted_taxonomy_only (options P)).
  { exists l1. split; [done|]. rewrite H2, H4, H5, H6, H7. lia. }
  destruct (equivalent_edges_sum columns P plan log planned from) as (l2&->&E2). cbn [mbind outcome_bind].
  destruct H4 as (l3&->&E3). cbn [mbind outcome_bind].
  destruct (class_assertion_edges_sum columns P plan log planned from) as (l4&->&E4). cbn [mbind outcome_bind].
  destruct (object_assertion_edges_sum columns P plan log planned from ids) as (l5&->&E5).
  cbn [mbind outcome_bind].
  destruct (domain_range_edges_sum columns P plan log planned from) as (l6&->&E6). cbn [mbind outcome_bind].
  eexists. split; [done|]. rewrite !len_app, E1, E2, E3, E4, E5, E6, H2, H5, H6, H7. lia.
Qed.
End totals.

(** ** [prepare_direct] *)

Lemma post_forall {A B} (Q : B -> A -> Prop) (m : Cx A) :
  (forall b, post (Q b) m) -> post (fun a => forall b, Q b a) m.
Proof. intros HQ obs k a Ha b. by eapply HQ. Qed.

Section prepare.
Context `{LowercaseTable} (columns : DirectColumns).

(** The annotations of the root document are annotation assertions of the log. *)
Lemma root_annotations_post maximum plan log root_columns :
  populated columns maximum (root_count columns) plan log ->
  (forall root, root_columns = Some root -> root_count root <= usize_max) ->
  post (fun selected => forall nodes, selected = Some nodes ->
      len nodes <= usize_max /\ forall n, n ∈ nodes -> annotation_node log n)
    (root_annotations columns maximum plan root_columns).
Proof using Type.
  intros Hp Hr. unfold root_annotations. destruct root_columns as [root|]; [|by apply post_ret].
  eapply post_bind; [apply post_trivial|intros _ _].
  eapply post_bind; [apply post_trivial|intros _ _].
  eapply post_bind; [apply post_trivial|intros root_plan _].
  eapply post_bind.
  { eapply (select_root_annotation_nodes_post columns maximum plan log Hp). }
  intros selected [Hl Hn]. destruct (negb _); [by apply post_lift|]. apply post_ret.
  intros nodes [= <-]. split; [|done]. specialize (Hr root eq_refl). lia.
Qed.
Context (fits_memory : resident columns).
Context (roomy : 2 * len columns.(scalar_bytes) + 8 <= usize_max).

Lemma small : field_count columns <= usize_max.
Proof using fits_memory. exact (resident_field_kinds _ fits_memory). Qed.

(** What the preparation promises its emission. *)
Record exact_preparation (options : DirectCompileOptions) (P : DirectPreparation) : Prop := {
  exact_validated : Validated columns;
  exact_direct : Direct P;
  exact_edges : exists l, direct_edges columns P = Ok l /\
    len l = P.(statistics).(Stats.edges) /\ len l <= options.(max_edges);
}.

Lemma prepare_direct_post root_columns options retained override local :
  (forall root, root_columns = Some root -> root_count root <= usize_max) ->
  post (exact_preparation options)
    (prepare_direct columns root_columns options retained override None local).
Proof using fits_memory roomy.
  intros Hroot. unfold prepare_direct.
  eapply post_bind; [apply post_trivial|intros _ _].
  eapply post_bind; [apply post_transparent, validate_generic_transparent|intros [] Hvalid].
  assert (V : Validated columns) by (by split).
  eapply post_bind; [apply post_trivial|intros _ _].
  eapply post_bind.
  { apply (populate_ok columns options.(max_iri_bytes) small). unfold len. rewrite length_replicate.
    apply N2Nat.id. }
  intros plan [log Hlog].
  eapply post_bind; [by apply (root_annotations_post _ plan log)|intros selected Hselected].
  eapply post_bind; [apply post_transparent, axiom_anonymous_ids_transparent|intros ids Hids].
  eapply post_bind; [apply post_trivial|intros bytes _].
  eapply post_bind; [apply post_trivial|intros provenance_bytes _].
  eapply post_bind; [apply post_trivial|intros role_state _].
  eapply (post_bind (fun totals => forall P, P.(Preparation.options) = options ->
    P.(preparation_roles) = role_state -> P.(selected_annotation_nodes) = selected ->
    P.(Preparation.anonymous_ids) = ids -> prepared_from plan P ->
    forall n, projected_edges totals = Ok n -> exists l, direct_edges columns P = Ok l /\ len l = n)).
  { intros obs k totals Ht P <- <- <- <- Hfrom n Hn.
    assert (Hnodes : forall nodes, P.(selected_annotation_nodes) = Some nodes ->
      forall n, n ∈ nodes -> annotation_node log n) by (intros nodes Hnodes; by apply Hselected).
    apply (parts_exact columns P plan log Hlog Hfrom Hids small roomy Hnodes totals n); [|done].
    exact (count_edges_parts columns P plan log Hlog Hfrom Hids small roomy Hnodes obs k totals Ht). }
  intros totals Htotals.
  eapply post_bind; [apply post_trivial|intros expansion _].
  eapply post_bind; [apply post_lift, ensures_self|intros projected Hprojected].
  destruct (N.ltb_spec options.(max_edges) projected); [by apply post_lift|].
  eapply post_bind; [apply post_trivial|intros roots _].
  eapply post_bind; [apply take_emission_plan_ok|intros taken Htaken].
  eapply post_bind; [apply post_lift, ensures_self|intros owned Howned].
  apply post_ret. cbn beta in Howned. rewrite to_owned_id in Howned. injection Howned as <-.
  match goal with |- exact_preparation _ ?prepared => set (P := prepared) end.
  split; [done| |].
  - split; [done..|]. intros nodes Hnodes. by apply Hselected.
  - destruct (Htotals P eq_refl eq_refl eq_refl eq_refl (Htaken P eq_refl) projected Hprojected)
      as (l&Hl&Hlen).
    exists l. split; [exact Hl|]. split; [exact Hlen|]. by rewrite Hlen.
Qed.
End prepare.

(** ** The contract *)

(** C1: The preflight is exact: when [prepare_direct] plans the roots itself
    and returns, whatever the flag did meanwhile, the batch program over its
    preparation succeeds and has exactly as many edges as the statistics
    announce, within the configured limit. *)
Theorem preflight_exact `{LowercaseTable} columns root_columns options retained override local obs k P :
  resident columns -> 2 * len columns.(scalar_bytes) + 8 <= usize_max ->
  (forall root, root_columns = Some root -> root_count root <= usize_max) ->
  fst (prepare_direct columns root_columns options retained override None local obs k) = Ok P ->
  exists l, direct_edges columns P = Ok l /\
    len l = P.(statistics).(Stats.edges) /\ len l <= options.(max_edges).
Proof.
  intros Hr Hs Hroot HP.
  by apply (prepare_direct_post columns Hr Hs root_columns options retained override local Hroot) in HP as [_ _ ?].
Qed.

(** C10: A successful preparation can be drained: the batches of any sizes
    succeed and return the edges of the batch program in order, none longer than
    requested; the cursor never ends before the announced count, and what is
    left is the announced count less the edges returned. *)
Theorem prepared_batches `{LowercaseTable} columns root_columns options retained override local obs k P :
  resident columns -> 2 * len columns.(scalar_bytes) + 8 <= usize_max ->
  (forall root, root_columns = Some root -> root_count root <= usize_max) ->
  options.(max_edges) < usize_max ->
  fst (prepare_direct columns root_columns options retained override None local obs k) = Ok P ->
  exists l n, direct_edges columns P = Ok l /\
  forall fuel sizes, (n <= fuel)%nat ->
  exists batches c,
    run (drain_batches columns P fuel DirectEmissionCursor_default sizes) = Ok (batches, c) /\
    concat batches = take (N.to_nat (total sizes)) l /\
    Forall2 (fun batch size => len batch <= size) batches sizes /\
    remaining_edges P c = P.(statistics).(Stats.edges) - total sizes.
Proof.
  intros Hr Hs Hroot Hmax HP.
  apply (prepare_direct_post columns Hr Hs root_columns options retained override local Hroot)
    in HP as [V Hd (l&Hl&He&Hle)].
  pose proof (validated_root_room columns).
  destruct (cursor_emits columns P Hd ltac:(lia) l Hl ltac:(lia)) as (c&E&Hi&Hp&_).
  destruct (emits_paced _ _ _ _ _ E Hi Hp) as [n Hn]. exists l, n. split; [done|].
  intros fuel sizes Hfuel. rewrite <- He.
  destruct (run_drain_batches columns P n fuel DirectEmissionCursor_default l sizes Hfuel Hn)
    as (batches&c1&?&?&?&_&?); [|by exists batches, c1].
  unfold remaining_edges, saturating_sub. rewrite He. cbn. apply N.sub_0_r.
Qed.

(** ** The plan *)

(** C26: The plan is well typed: it answers for every root; a selected root has
    the rule of its kind, a shape of the constructor of the rule's handler, and
    an emission shape whose coordinates, read again, give the texts of the shape
    (anonymous individuals being nodes the axiom refers to); a root that is not
    selected has neither. *)
Theorem planned_root_denotes `{LowercaseTable} columns maximum obs k plan i :
  field_count columns <= usize_max -> i < root_count columns ->
  fst (resolve_selected_root_rule_plan_unbounded columns maximum obs k) = Ok plan ->
  let emission := emission_shape <$> find_root emission_root_index plan.(emission_roots) i in
  (root_is_selected columns i = Ok false /\ shape_at plan i = None /\ emission = None) \/
  (root_is_selected columns i = Ok true /\ exists node rule,
     root_id columns i = Ok node /\ root_kind columns i = Ok rule.(rule_root_kind) /\
     rule ∈ ROOT_RULES /\ rule_at plan i = Ok rule /\ fits rule (shape_at plan i) /\
     match shape_at plan i, emission with
     | Some shape, Some emission => denotes columns maximum node shape emission
     | None, None => True
     | _, _ => False
     end).
Proof.
  intros Hs Hi Hplan. cbn zeta.
  apply (populate_ok columns maximum Hs) in Hplan as [log Hlog];
    [|unfold len; rewrite length_replicate; apply N2Nat.id].
  destruct (populated_total _ _ _ _ _ Hlog i Hi) as [b Hb].
  assert (Hin : i ∈ logged_root <$> log <-> b = true).
  { rewrite (populated_roots _ _ _ _ _ Hlog), list_elem_of_filter, elem_of_range.
    unfold is_selected. rewrite Hb. naive_solver lia. }
  destruct b.
  - right. split; [done|]. apply proj2 in Hin. specialize (Hin eq_refl).
    apply list_elem_of_fmap in Hin as (r&->&Hr). exists r.(logged_node), r.(logged_rule).
    destruct (log_ok _ _ _ _ Hlog r Hr) as [H1 H2 H3 H4 H5 H6].
    rewrite (log_shape _ _ _ _ Hlog r Hr), (log_emission _ _ _ _ Hlog r Hr).
    split_and!; try done; by destruct (logged_plan r) as [[? ?]|].
  - left. split; [done|]. unfold shape_at.
    rewrite (populated_shapes _ _ _ _ _ Hlog), (populated_emissions _ _ _ _ _ Hlog).
    rewrite !find_root_absent; [done|..].
    all: intros (y&->&(r&Hr&E)%list_elem_of_omap)%list_elem_of_fmap; enough (false = true) by done;
      apply Hin, list_elem_of_fmap; exists r; (split; [|done]).
    all: unfold emission_entry, shape_entry in E; by destruct (logged_plan r); simplify_eq/=.
Qed.

Definition sample_plan : SelectedRootRulePlan := ltac:(
  exact_value (run (@resolve_selected_root_rule_plan_unbounded ascii_lowercase ontology_sample 100))).

Lemma planned_root_denotes_witness : let _ := ascii_lowercase in
  0 < root_count ontology_sample /\
  run (resolve_selected_root_rule_plan_unbounded ontology_sample 100) = Ok sample_plan /\
  root_is_selected ontology_sample 0 = Ok true /\
  exists node rule,
    root_id ontology_sample 0 = Ok node /\ rule_at sample_plan 0 = Ok rule /\
    fits rule (shape_at sample_plan 0).
Proof.
  split; [by vm_compute|]. split; [by vm_compute|]. split; [by vm_compute|].
  destruct (@planned_root_denotes ascii_lowercase ontology_sample 100 quiet 0%nat sample_plan 0)
    as [(Hf&_)|(_&node&rule&Hn&_&_&Hr&Hfit&_)]; [by vm_compute..|by vm_compute in Hf|].
  by exists node, rule.
Defined.

Lemma sample_resident : resident ontology_sample.
Proof. apply resident_of_small. by vm_compute. Qed.

Lemma preflight_exact_witness : let _ := ascii_lowercase in
  fst (prepare_direct ontology_sample None sample_options None None None None quiet 0%nat)
    = Ok sample_preparation /\
  exists l, direct_edges ontology_sample sample_preparation = Ok l /\
    len l = sample_preparation.(statistics).(Stats.edges) /\ len l <= sample_options.(max_edges).
Proof.
  split; [by vm_compute|].
  apply (@preflight_exact ascii_lowercase ontology_sample None sample_options None None None quiet 0%nat);
    [apply sample_resident|by vm_compute|done|by vm_compute].
Defined.

Lemma prepared_batches_witness : let _ := ascii_lowercase in
  sample_options.(max_edges) < usize_max /\
  exists l n, direct_edges ontology_sample sample_preparation = Ok l /\
  forall fuel sizes, (n <= fuel)%nat ->
  exists batches c,
    run (drain_batches ontology_sample sample_preparation fuel DirectEmissionCursor_default sizes)
      = Ok (batches, c) /\
    concat batches = take (N.to_nat (total sizes)) l /\
    Forall2 (fun batch size => len batch <= size) batches sizes /\
    remaining_edges sample_preparation c = sample_preparation.(statistics).(Stats.edges) - total sizes.
Proof.
  split; [by vm_compute|].
  apply (@prepared_batches ascii_lowercase ontology_sample None sample_options None None None quiet 0%nat);
    [apply sample_resident|by vm_compute|done|by vm_compute|by vm_compute].
Defined.
