(* ===== verification/Budget.v ===== *)
(** * The budget of the canonical merge

    [CanonicalBudget] of [canonical_merge] (native/src/encoded_direct.rs): every
    step of the merge charges one unit of work, checks the cancellation flag and
    accounts the workspace it allocates.  A function that takes
    [budget: &mut CanonicalBudget] is a [Bud]: it returns the budget with its
    result; after an error no caller reads it. *)

From S2P Require Import Prelude Errors Partial Workspace.
Local Open Scope string_scope.
Local Open Scope list_scope.
Local Open Scope N_scope.

(** ** The counters *)

Record CanonicalMergeLimits := {
  max_work : usize;
  max_workspace_bytes : usize;
}.

Record CanonicalMergeReport := {
  work : usize;
  workspace_bytes : usize;
  peak_workspace_bytes : usize;
  canonical_bytes_compared : usize;
  roots_emitted : usize;
  deduplicated_roots : usize;
}.

#[export] Instance CanonicalMergeReport_eta : Eta CanonicalMergeReport := fun r =>
  {| work := r.(work); workspace_bytes := r.(workspace_bytes);
     peak_workspace_bytes := r.(peak_workspace_bytes);
     canonical_bytes_compared := r.(canonical_bytes_compared);
     roots_emitted := r.(roots_emitted); deduplicated_roots := r.(deduplicated_roots) |}.

Definition CanonicalMergeReport_default : CanonicalMergeReport :=
  {| work := 0; workspace_bytes := 0; peak_workspace_bytes := 0; canonical_bytes_compared := 0;
     roots_emitted := 0; deduplicated_roots := 0 |}.

Record CanonicalBudget := {
  limits : CanonicalMergeLimits;
  report : CanonicalMergeReport;
}.

Definition with_report (self : CanonicalBudget) (r : CanonicalMergeReport) : CanonicalBudget :=
  {| limits := self.(limits); report := r |}.

Definition budget_new (limits : CanonicalMergeLimits) : outcome CanonicalBudget :=
  if limits.(max_work) =? 0 then
    Err (resource "encoded canonical comparison work limit must be positive")
  else if limits.(max_workspace_bytes) =? 0 then
    Err (resource "encoded canonical comparison workspace limit must be positive")
  else Ok {| limits := limits; report := CanonicalMergeReport_default |}.

(** ** Functions that spend it *)

Abbreviation Bud := (Spend CanonicalBudget) (only parsing).

Definition consume (amount : usize) : Bud unit := fun budget =>
  observed ← load;
  if observed =? STATE_CANCELLED then !Err Cancelled else
  next ← !ok_or (checked_add budget.(report).(work) amount)
    (resource "encoded canonical work counter overflow");
  if budget.(limits).(max_work) <? next then
    !Err (resource ("encoded canonical comparison requires more than "
      +:+ pretty budget.(limits).(max_work) +:+ " work units"))
  else mret (tt, with_report budget (budget.(report) <| work := next |>)).

Definition claim_workspace (amount : usize) : Bud unit := charge (fun self =>
  next ← ok_or (checked_add self.(report).(workspace_bytes) amount)
    (resource "encoded canonical workspace counter overflow");
  if self.(limits).(max_workspace_bytes) <? next then
    Err (resource ("encoded canonical comparison requires more than "
      +:+ pretty self.(limits).(max_workspace_bytes) +:+ " workspace bytes"))
  else
    Ok (with_report self (self.(report) <| workspace_bytes := next |>
      <| peak_workspace_bytes := N.max self.(report).(peak_workspace_bytes) next |>))).

Definition release_workspace (amount : usize) : Bud unit := charge (fun self =>
  next ← ok_or (checked_sub self.(report).(workspace_bytes) amount)
    (malformed "encoded canonical workspace accounting underflow");
  Ok (with_report self (self.(report) <| workspace_bytes := next |>))).

Definition record_comparison_byte : Bud unit := charge (fun self =>
  next ← ok_or (checked_add self.(report).(canonical_bytes_compared) 1)
    (resource "encoded canonical byte counter overflow");
  Ok (with_report self (self.(report) <| canonical_bytes_compared := next |>))).

Definition record_root_duplicates (duplicate_count : usize) : Bud unit := charge (fun self =>
  emitted ← ok_or (checked_add self.(report).(roots_emitted) 1)
    (resource "encoded merged-root counter overflow");
  deduplicated ← ok_or (checked_add self.(report).(deduplicated_roots) duplicate_count)
    (resource "encoded deduplicated-root counter overflow");
  Ok (with_report self (self.(report) <| roots_emitted := emitted |>
    <| deduplicated_roots := deduplicated |>))).

Definition record_root (deduplicated : bool) : Bud unit :=
  record_root_duplicates (if deduplicated then 1 else 0).

(** ** Accounted allocation *)

Definition allocation_bytes (size capacity : usize) : outcome usize :=
  ok_or (checked_mul capacity size) (resource "encoded canonical allocation-byte counter overflow").

(** [allocate_vector]: the bytes of an allocation that succeeds with the
    requested capacity. *)
Definition allocate_vector (size capacity : usize) : Bud usize :=
  requested_bytes ← ⇑allocation_bytes size capacity;
  _ ← claim_workspace requested_bytes;
  mret requested_bytes.

(** The rules, by the structure of the computation; reads keep their
    equations, and what is left are the claims about returned values. *)
Ltac step_yields :=
  repeat (cbn beta iota zeta; first
    [ match goal with |- forall _, _ => intro end
    | assumption
    | apply yields_error
    | apply yields_ret
    | match goal with
      | |- yields _ (mbind _ (spared _)) => apply yields_read
      | |- yields _ (mbind _ (consume _)) => apply yields_then
      | |- yields _ (spared _) => apply yields_spared
      | |- ensures _ (Err _) => apply ensures_Err
      | |- ensures _ (Ok _) => apply ensures_Ok
      | |- yields _ (if ?b then _ else _) => destruct b eqn:?
      | |- yields _ (match ?x with _ => _ end) => destruct x eqn:?
      | |- yields _ (match ?x with _ => _ end _) => destruct x eqn:?
      end ]).
