(* ===== verification/Encode.v ===== *)
(** * Canonical encodings

    The components, the length table and the byte cursor of [canonical_merge]
    (native/src/encoded_direct.rs): [CanonicalTable::build] computes the length
    of the canonical encoding of every node of a table, and
    [CanonicalByteCursor] emits the encoding of a node one byte at a time.  The
    loops spend the budget, so their [fuel] only has to exceed it. *)

From S2P Require Import Prelude Errors Tags Text Readers Columns Nodes Generic Partial Workspace Budget.
Local Open Scope string_scope.
Local Open Scope list_scope.
Local Open Scope N_scope.

(** ** Components *)

Inductive CanonicalComponent :=
  | ComponentNone
  | ComponentNode (node_id : usize)
  | Scalar (kind : u8) (value : bytes)
  | ComponentInteger (value : bytes)
  | Collection (kind : u8) (start length : usize).

(** [str::is_ascii]. *)
Definition is_ascii (payload : bytes) : bool := forallb (fun b => u8_of_byte b <? 128) payload.

Definition canonical_component (columns : DirectColumns) (index : usize) (item : bool)
    : Bud CanonicalComponent :=
  '(kind, value, length) ←
    (if item then
       kind ← ⇑ok_or (get columns.(item_kinds) index)
         (malformed "encoded canonical item index is out of range");
       value ← ⇑read_usize columns.(item_values) index "item_values";
       length ← ⇑read_usize columns.(item_lengths) index "item_lengths";
       mret (u8_of_byte kind, value, length)
     else
       kind ← ⇑field_kind columns index;
       value ← ⇑field_value columns index;
       length ← ⇑field_length columns index;
       mret (kind, value, length));
  if kind =? COMPONENT_NONE then
    if negb (value =? 0) || negb (length =? 0) then
      ⇑Err (malformed "encoded canonical none component is not canonical")
    else mret ComponentNone
  else if kind =? COMPONENT_NODE then
    if negb (length =? 0) then
      ⇑Err (malformed "encoded canonical node component has a nonzero length")
    else node_id ← ⇑checked_node_id columns value; mret (ComponentNode node_id)
  else if (kind =? COMPONENT_TEXT) || (kind =? COMPONENT_BYTES) || (kind =? COMPONENT_ENUM) then
    payload ← ⇑scalar_range columns value length;
    _ ← (if kind =? COMPONENT_TEXT then
           _ ← consume (len payload);
           _ ← ⇑from_utf8 payload (malformed "encoded canonical text component is not UTF-8");
           mret tt
         else if kind =? COMPONENT_ENUM then
           _ ← consume (len payload);
           if is_empty payload || negb (is_ascii payload) then
             ⇑Err (malformed "encoded canonical enum component is not nonempty ASCII")
           else mret tt
         else mret tt);
    mret (Scalar kind payload)
  else if kind =? COMPONENT_INTEGER then
    payload ← ⇑scalar_range columns value length;
    if is_empty payload || ((1 <? len payload) && bool_decide (last payload = Some Byte.x00)) then
      ⇑Err (malformed "encoded canonical integer is not minimally encoded")
    else mret (ComponentInteger payload)
  else if (kind =? COMPONENT_SET) || (kind =? COMPONENT_SEQUENCE) then
    if item then ⇑Err (malformed "encoded canonical sequence contains a nested collection")
    else if (item_count columns <? value) || (saturating_sub (item_count columns) value <? length) then
      ⇑Err (malformed "encoded canonical collection is out of bounds")
    else mret (Collection kind value length)
  else ⇑Err (malformed "encoded canonical component kind is invalid").

(** ** Lengths *)

(** The loop of [varint_width] on a 64-bit value has at most nine rounds. *)
Fixpoint varint_width_loop (rounds : nat) (value width : usize) : usize :=
  match rounds with
  | O => width
  | S rounds =>
      if 0x80 <=? value then varint_width_loop rounds (N.shiftr value 7) (width + 1) else width
  end.

Definition varint_width (value : usize) : usize := varint_width_loop 9 value 1.

(** [u8::leading_zeros]. *)
Definition leading_zeros (byte : u8) : usize := 8 - N.size byte.

Definition integer_varint_chunks (value : bytes) : outcome usize :=
  final_byte ← ok_or (last value) (malformed "encoded canonical integer payload is empty");
  let final_byte := u8_of_byte final_byte in
  if (1 <? len value) && (final_byte =? 0) then
    Err (malformed "encoded canonical integer is not minimally encoded")
  else if final_byte =? 0 then Ok 1
  else
    let overflow := resource "encoded canonical integer width overflow" in
    prefix_bits ← ok_or (length ← checked_sub (len value) 1; checked_mul length 8) overflow;
    high_bits ← ok_or (checked_sub 8 (leading_zeros final_byte)) overflow;
    ok_or (bits ← checked_add prefix_bits high_bits; bits ← checked_add bits 6; Some (bits / 7))
      overflow.

(** The length of a child that has been computed. *)
Definition child_length (lengths : list usize) (node_id : usize) (message : string) : outcome usize :=
  ok_or (length ← get lengths node_id; if length =? 0 then None else Some length)
    (malformed message).

(** [1 + varint_width(length) + length]. *)
Definition marked_length (length : usize) (message : string) : outcome usize :=
  ok_or (total ← checked_add 1 (varint_width length); checked_add total length) (resource message).

Section lengths.
Context (columns : DirectColumns) (lengths : list usize).

(** The recursion is one level deep: an item is no collection. *)
Fixpoint component_length (depth : nat) (component : CanonicalComponent) : Bud usize :=
  _ ← consume 1;
  match component with
  | ComponentNone => mret 1
  | ComponentNode node_id =>
      child ← ⇑child_length lengths node_id "encoded canonical child length is unavailable";
      ⇑marked_length child "encoded canonical child length overflow"
  | Scalar _ value => ⇑marked_length (len value) "encoded canonical scalar length overflow"
  | ComponentInteger value =>
      chunks ← ⇑integer_varint_chunks value;
      ⇑ok_or (checked_add 1 chunks) (resource "encoded canonical integer length overflow")
  | Collection kind start length =>
      match depth with
      | O => ⇑OutOfFuel
      | S depth =>
          total ← ⇑ok_or (checked_add 1 (varint_width length))
            (resource "encoded canonical collection length overflow");
          foldM (fun total item_index =>
            _ ← consume 1;
            item ← canonical_component columns item_index true;
            if kind =? COMPONENT_SET then
              match item with
              | ComponentNode node_id =>
                  child ← ⇑child_length lengths node_id
                    "encoded canonical set child length is unavailable";
                  ⇑ok_or (total ← checked_add total (varint_width child); checked_add total child)
                    (resource "encoded canonical set length overflow")
              | _ => ⇑Err (malformed "encoded canonical set contains a scalar")
              end
            else
              length ← component_length depth item;
              ⇑ok_or (checked_add total length)
                (resource "encoded canonical sequence length overflow"))
            total (range start (start +w length))
      end
  end.
End lengths.

(** ** The table of lengths *)

Inductive LengthEvent :=
  | Enter (node_id : usize)
  | Exit (node_id : usize).

(** The variables of the traversal; the last event pushed is the first of the
    list. *)
Record Traversal := {
  lengths : list usize;
  colors : list u8;
  events : list LengthEvent;
}.

#[export] Instance Traversal_eta : Eta Traversal := fun t =>
  {| lengths := t.(lengths); colors := t.(colors); events := t.(events) |}.

Record CanonicalTable := {
  table_columns : DirectColumns;
  table_lengths : list usize;
}.

Section build.
Context (columns : DirectColumns) (event_capacity : usize).

Definition push_length_event (st : Traversal) (event : LengthEvent) : outcome Traversal :=
  if len st.(events) =? event_capacity then
    Err (resource "encoded canonical traversal exceeded its accounted stack")
  else Ok (st <| events := event :: st.(events) |>).

Definition cyclic_graph : KernelError :=
  malformed "encoded canonical comparator found a cyclic node graph".

(** [match colors[child]]. *)
Definition enter_child (st : Traversal) (child : usize) : outcome Traversal :=
  color ← index st.(colors) child;
  if color =? 1 then Err cyclic_graph
  else if color =? 0 then push_length_event st (Enter child)
  else Ok st.

Definition enter_field (st : Traversal) (field_index : usize) : Bud Traversal :=
  _ ← consume 1;
  component ← canonical_component columns field_index false;
  match component with
  | ComponentNode child => ⇑enter_child st child
  | Collection kind start length =>
      foldM (fun st item_index =>
        _ ← consume 1;
        item ← canonical_component columns item_index true;
        match item with
        | ComponentNode child => ⇑enter_child st child
        | _ =>
            if kind =? COMPONENT_SET then
              ⇑Err (malformed "encoded canonical set contains a scalar")
            else mret st
        end) st (reverse (range start (start +w length)))
  | _ => mret st
  end.

Definition enter_node (st : Traversal) (node_id : usize) : Bud Traversal :=
  color ← ⇑index st.(colors) node_id;
  if color =? 2 then mret st
  else if color =? 1 then ⇑Err cyclic_graph
  else
    entered ← ⇑store st.(colors) node_id 1;
    st ← ⇑push_length_event (st <| colors := entered |>) (Exit node_id);
    '(start, end_) ← ⇑field_range columns node_id;
    foldM enter_field st (reverse (range start end_)).

(** The sum over the fields of a node. *)
Definition node_length (lengths : list usize) (node_id : usize) : Bud usize :=
  tag ← ⇑node_tag columns node_id;
  '(start, end_) ← ⇑field_range columns node_id;
  foldM (fun length field_index =>
    component ← canonical_component columns field_index false;
    added ← component_length columns lengths 1 component;
    ⇑ok_or (checked_add length added) (resource "encoded canonical node length overflow"))
    (varint_width tag) (range start end_).

Definition exit_node (st : Traversal) (node_id : usize) : Bud Traversal :=
  length ← node_length st.(lengths) node_id;
  known ← ⇑store st.(lengths) node_id length;
  left ← ⇑store st.(colors) node_id 2;
  mret (st <| lengths := known |> <| colors := left |>).

(** [while let Some(event) = events.pop()]. *)
Fixpoint traverse (fuel : nat) (st : Traversal) : Bud Traversal :=
  match st.(events) with
  | [] => mret st
  | event :: rest =>
      match fuel with
      | O => ⇑OutOfFuel
      | S fuel =>
          let st := st <| events := rest |> in
          _ ← consume 1;
          st ← match event with
               | Enter node_id => enter_node st node_id
               | Exit node_id => exit_node st node_id
               end;
          traverse fuel st
      end
  end.

Definition traverse_from (fuel : nat) (st : Traversal) (initial : usize) : Bud Traversal :=
  _ ← consume 1;
  color ← ⇑index st.(colors) initial;
  if color =? 2 then mret st
  else st ← ⇑push_length_event st (Enter initial); traverse fuel st.
End build.

(** The work charged for [validate_generic]. *)
Definition validation_work (columns : DirectColumns) : option usize :=
  value ← checked_add (root_count columns) (len columns.(included_root_ids) / 4);
  value ← checked_add value (len columns.(excluded_root_ids) / 4);
  value ← checked_add value (node_count columns);
  value ← checked_add value (field_count columns);
  value ← checked_add value (item_count columns);
  value ← checked_add value (len columns.(scalar_bytes));
  checked_add value 1.

Definition event_capacity (columns : DirectColumns) : option usize :=
  value ← checked_mul (node_count columns) 2;
  value ← checked_add value (field_count columns);
  value ← checked_add value (item_count columns);
  checked_add value 1.

(** [CanonicalTable::build]. *)
Definition table_build `{Layout} (fuel : nat) (columns : DirectColumns) : Bud CanonicalTable :=
  work ← ⇑ok_or (validation_work columns)
    (resource "encoded canonical validation-work overflow");
  _ ← consume work;
  _ ← uncharged (validate_generic columns);
  map_capacity ← ⇑ok_or (checked_add (node_count columns) 1)
    (resource "encoded canonical length-map size overflow");
  capacity ← ⇑ok_or (event_capacity columns)
    (resource "encoded canonical traversal-stack size overflow");
  _ ← allocate_vector size_of_usize map_capacity;
  color_bytes ← allocate_vector size_of_u8 map_capacity;
  event_bytes ← allocate_vector size_of_LengthEvent capacity;
  let zeros := replicate (N.to_nat map_capacity) 0 in
  st ← foldM (traverse_from columns capacity fuel)
    {| lengths := zeros; colors := zeros; events := [] |} (range 1 (node_count columns + 1));
  _ ← release_workspace event_bytes;
  _ ← release_workspace color_bytes;
  mret {| table_columns := columns; table_lengths := st.(lengths) |}.

(** [CanonicalTable::release_workspace]. *)
Definition table_release (self : CanonicalTable) : Bud unit :=
  bytes ← ⇑allocation_bytes size_of_usize (len self.(table_lengths));
  release_workspace bytes.

(** ** The byte cursor *)

Inductive EmitTask :=
  | EmitByte (byte : u8)
  | EmitVarint (value : usize)
  | EmitSlice (value : bytes) (index : usize)
  | EmitInteger (value : bytes) (chunk chunks : usize)
  | EmitNode (node_id : usize)
  | EmitComponent (index : usize) (item remap_scope : bool)
  | EmitCollection (start index length : usize) (canonical_set : bool).

(** The stack, its top first, with the capacity of its vector. *)
Record CanonicalByteCursor := {
  stack : list EmitTask;
  capacity : usize;
}.

#[export] Instance CanonicalByteCursor_eta : Eta CanonicalByteCursor := fun c =>
  {| stack := c.(stack); capacity := c.(capacity) |}.

Definition cursor_new : CanonicalByteCursor := {| stack := []; capacity := 0 |}.

Section cursor.
Context `{Layout}.

(** [CanonicalByteCursor::push]: a full stack doubles its capacity. *)
Definition cursor_push (self : CanonicalByteCursor) (task : EmitTask) : Bud CanonicalByteCursor :=
  self ←
    (if len self.(stack) =? self.(capacity) then
       let previous := self.(capacity) in
       target ← (if previous =? 0 then mret 8
                 else ⇑ok_or (checked_mul previous 2)
                        (resource "encoded canonical cursor capacity overflow"));
       requested ← ⇑allocation_bytes size_of_EmitTask (target - previous);
       _ ← claim_workspace requested;
       mret (self <| capacity := target |>)
     else mret self);
  mret (self <| stack := task :: self.(stack) |>).

Definition cursor_reset (self : CanonicalByteCursor) (node_id : usize) : Bud CanonicalByteCursor :=
  cursor_push (self <| stack := [] |>) (EmitNode node_id).

(** Several pushes in a row, the last task on top. *)
Definition push_all (self : CanonicalByteCursor) (tasks : list EmitTask) : Bud CanonicalByteCursor :=
  foldM cursor_push self tasks.

Section table.
Context (table : CanonicalTable).

Definition schedule_node (self : CanonicalByteCursor) (node_id : usize) (include_marker : bool)
    : Bud CanonicalByteCursor :=
  length ← ⇑child_length table.(table_lengths) node_id
    "encoded canonical cursor node length is unavailable";
  push_all self ([EmitNode node_id; EmitVarint length]
    ++ if include_marker then [EmitByte COMPONENT_NODE] else []).

Definition schedule_component (self : CanonicalByteCursor) (component : CanonicalComponent)
    : Bud CanonicalByteCursor :=
  match component with
  | ComponentNone => cursor_push self (EmitByte COMPONENT_NONE)
  | ComponentNode node_id => schedule_node self node_id true
  | Scalar kind value =>
      push_all self ((if is_empty value then [] else [EmitSlice value 0])
        ++ [EmitVarint (len value); EmitByte kind])
  | ComponentInteger value =>
      chunks ← ⇑integer_varint_chunks value;
      push_all self [EmitInteger value 0 chunks; EmitByte COMPONENT_INTEGER]
  | Collection kind start length =>
      push_all self [EmitCollection start 0 length (kind =? COMPONENT_SET);
        EmitVarint length; EmitByte kind]
  end.

Definition columns : DirectColumns := table.(table_columns).

(** The byte of a chunk of seven bits. *)
Definition integer_chunk (value : bytes) (bit_offset : usize) : N :=
  let byte_index := bit_offset / 8 in
  let low := from_option u8_of_byte 0 (get value byte_index) in
  let high := from_option u8_of_byte 0 (get value (byte_index + 1)) in
  N.land (N.shiftr (N.lor low (N.shiftl high 8)) (bit_offset mod 8)) 0x7F.

(** A round of [next_byte] on the task it popped: the byte it returns, if it
    returns one. *)
Definition emit_round (self : CanonicalByteCursor) (task : EmitTask)
    : Bud (option byte * CanonicalByteCursor) :=
  match task with
  | EmitByte byte => mret (Some (byte_of_u8 byte), self)
  | EmitVarint value =>
      let following := N.shiftr value 7 in
      self ← (if negb (following =? 0) then cursor_push self (EmitVarint following) else mret self);
      mret (Some (byte_of_u8 (N.lor (N.land value 0x7F) (if following =? 0 then 0 else 0x80))), self)
  | EmitSlice value index =>
      byte ← ⇑ok_or (get value index)
        (malformed "encoded canonical cursor scalar is out of bounds");
      self ← (if index +w 1 <? len value then cursor_push self (EmitSlice value (index +w 1))
              else mret self);
      mret (Some byte, self)
  | EmitInteger value chunk chunks =>
      if chunks <=? chunk then
        ⇑Err (malformed "encoded canonical integer cursor is out of bounds")
      else
        bit_offset ← ⇑ok_or (checked_mul chunk 7)
          (resource "encoded canonical integer cursor overflow");
        self ← (if chunk +w 1 <? chunks then cursor_push self (EmitInteger value (chunk +w 1) chunks)
                else mret self);
        mret (Some (byte_of_u8 (N.lor (integer_chunk value bit_offset)
                (if chunk +w 1 =? chunks then 0 else 0x80))), self)
  | EmitNode node_id =>
      '(start, end_) ← ⇑field_range columns node_id;
      tag ← ⇑node_tag columns node_id;
      let remaps_scope := tag =? TAG_ANONYMOUS_INDIVIDUAL in
      self ← push_all self
        ((fun field_index => EmitComponent field_index false
            (remaps_scope && (field_index =? start))) <$> reverse (range start end_));
      self ← cursor_push self (EmitVarint tag);
      mret (None, self)
  | EmitComponent index item remap_scope =>
      component ← canonical_component columns index item;
      component ←
        (if remap_scope then
           match component with
           | Scalar kind value =>
               if kind =? COMPONENT_BYTES then
                 value ← ⇑remap_anonymous_scope columns value;
                 mret (Scalar COMPONENT_BYTES value)
               else ⇑Err (malformed "encoded anonymous scope is not a bytes component")
           | _ => ⇑Err (malformed "encoded anonymous scope is not a bytes component")
           end
         else mret component);
      self ← schedule_component self component;
      mret (None, self)
  | EmitCollection start index length canonical_set =>
      if length <=? index then mret (None, self)
      else
        self ← cursor_push self (EmitCollection start (index +w 1) length canonical_set);
        item ← canonical_component columns (start +w index) true;
        self ←
          (if canonical_set then
             match item with
             | ComponentNode node_id => schedule_node self node_id false
             | _ => ⇑Err (malformed "encoded canonical set contains a scalar")
             end
           else schedule_component self item);
        mret (None, self)
  end.

Fixpoint next_byte (fuel : nat) (self : CanonicalByteCursor)
    : Bud (option byte * CanonicalByteCursor) :=
  match self.(stack) with
  | [] => mret (None, self)
  | task :: rest =>
      match fuel with
      | O => ⇑OutOfFuel
      | S fuel =>
          _ ← consume 1;
          '(byte, self) ← emit_round (self <| stack := rest |>) task;
          match byte with
          | Some byte => mret (Some byte, self)
          | None => next_byte fuel self
          end
      end
  end.
End table.

(** The loop of the comparisons: the bytes of two cursors, one by one. *)
Fixpoint compare_bytes (fuel : nat) (left right : CanonicalTable)
    (left_cursor right_cursor : CanonicalByteCursor)
    : Bud (comparison * (CanonicalByteCursor * CanonicalByteCursor)) :=
  match fuel with
  | O => ⇑OutOfFuel
  | S fuel' =>
      '(left_byte, left_cursor) ← next_byte left fuel left_cursor;
      '(right_byte, right_cursor) ← next_byte right fuel right_cursor;
      let cursors := (left_cursor, right_cursor) in
      match left_byte, right_byte with
      | Some left_byte, Some right_byte =>
          _ ← record_comparison_byte;
          match byte_cmp left_byte right_byte with
          | Eq => compare_bytes fuel' left right left_cursor right_cursor
          | ordering => mret (ordering, cursors)
          end
      | None, None => mret (Eq, cursors)
      | None, Some _ => mret (Lt, cursors)
      | Some _, None => mret (Gt, cursors)
      end
  end.
End cursor.
