(* ===== verification/Merge.v ===== *)
(** * The canonical merge

    [CanonicalNodeComparator], [CanonicalRootMerger] and
    [CanonicalKWayRootMerger] of [canonical_merge]
    (native/src/encoded_direct.rs).  The [budget] field of each is the state of
    [Bud]; the other fields are the records below. *)

From S2P Require Import Prelude Errors Tags Text Readers Columns Nodes Preparation Partial Workspace Budget Encode.
Local Open Scope string_scope.
Local Open Scope list_scope.
Local Open Scope N_scope.

Record CanonicalRootRef := {
  root_index : usize;
  root_ref_kind : u8;
  root_node_id : usize;
}.

Definition root_ref (columns : DirectColumns) (index : usize) : outcome CanonicalRootRef :=
  kind ← root_kind columns index;
  node_id ← root_id columns index;
  Ok {| root_index := index; root_ref_kind := kind; root_node_id := node_id |}.

Section merge.
Context `{Layout} (fuel : nat).

(** ** The order of a table

    [validate_canonical_sets] and [validate_group], over the comparison of two
    nodes and of two roots of the table; [S] is what the comparison mutates. *)

Section order.
Context {S : Type} (columns : DirectColumns).
Context (compare_nodes : S -> usize -> usize -> Bud (comparison * S)).
Context (compare_roots : S -> CanonicalRootRef -> CanonicalRootRef -> Bud (comparison * S)).
Context (set_error root_error : KernelError).

Definition set_member (index : usize) : Bud usize :=
  item ← canonical_component columns index true;
  match item with
  | ComponentNode node_id => mret node_id
  | _ => ⇑Err (malformed "encoded canonical set contains a scalar")
  end.

Definition validate_set (self : S) (field_index : usize) : Bud S :=
  _ ← consume 1;
  kind ← ⇑field_kind columns field_index;
  if negb (kind =? COMPONENT_SET) then mret self else
  component ← canonical_component columns field_index false;
  let changed := malformed "encoded canonical set field changed after length preflight" in
  match component with
  | Collection kind start length =>
      if negb (kind =? COMPONENT_SET) then ⇑Err changed else
      foldM (fun self offset =>
        _ ← consume 1;
        previous ← set_member ((start +w offset) - 1);
        current ← set_member (start +w offset);
        '(ordering, self) ← compare_nodes self previous current;
        match ordering with
        | Lt => mret self
        | _ => ⇑Err set_error
        end) self (range 1 length)
  | _ => ⇑Err changed
  end.

Definition validate_canonical_sets (self : S) : Bud S :=
  foldM validate_set self (range 0 (field_count columns)).

Definition validate_root (st : S * option CanonicalRootRef) (index : usize)
    : Bud (S * option CanonicalRootRef) :=
  let '(self, previous) := st in
  _ ← consume 1;
  current ← ⇑root_ref columns index;
  self ←
    match previous with
    | Some previous =>
        '(ordering, self) ← compare_roots self previous current;
        match ordering with
        | Lt => mret self
        | _ => ⇑Err root_error
        end
    | None => mret self
    end;
  mret (self, Some current).

Definition validate_group (self : S) : Bud S :=
  '(self, _) ← foldM validate_root (self, None) (range 0 (root_count columns));
  mret self.
End order.

Definition sets_unsorted : KernelError :=
  malformed "encoded canonical set items are not strictly sorted and unique".
Definition roots_unsorted : KernelError :=
  malformed "encoded canonical root group is not strictly sorted and unique".

(** [kind_order], then the order of the nodes. *)
Definition compare_root_refs {S} (compare_nodes : S -> usize -> usize -> Bud (comparison * S))
    (self : S) (left right : CanonicalRootRef) : Bud (comparison * S) :=
  match N.compare left.(root_ref_kind) right.(root_ref_kind) with
  | Eq => compare_nodes self left.(root_node_id) right.(root_node_id)
  | kind_order => mret (kind_order, self)
  end.

(** ** The selected roots of a table *)

(** The inner loop: the posting position, and whether the root is posted. *)
Fixpoint match_posting (fuel : nat) (columns : DirectColumns) (included : bool)
    (posting_count root_position posting_position : usize) : Bud (bool * usize) :=
  if posting_position <? posting_count then
    match fuel with
    | O => ⇑OutOfFuel
    | S fuel =>
        _ ← consume 1;
        candidate ← ⇑(if included then included_root_position columns posting_position
                      else excluded_root_position columns posting_position);
        if candidate <? root_position then
          match_posting fuel columns included posting_count root_position (posting_position +w 1)
        else if candidate =? root_position then
          mret (true, if included then posting_position else posting_position +w 1)
        else mret (false, posting_position)
    end
  else mret (false, posting_position).

(** [selected_root]: the next selected root at a position or after it, with the
    new positions. *)
Fixpoint select_root (rounds : nat) (columns : DirectColumns) (position posting_position : usize)
    : Bud (option CanonicalRootRef * (usize * usize)) :=
  let included := negb (is_empty columns.(included_root_ids)) in
  let posting_count := if included then len columns.(included_root_ids) / 4
                       else len columns.(excluded_root_ids) / 4 in
  if position <? root_count columns then
    match rounds with
    | O => ⇑OutOfFuel
    | S rounds =>
        _ ← consume 1;
        root_position ← ⇑ok_or (checked_add position 1)
          (resource "encoded canonical root position overflow");
        '(matched, posting_position) ←
          match_posting fuel columns included posting_count root_position posting_position;
        let selected := if included then matched else negb matched in
        if negb selected then select_root rounds columns (position +w 1) posting_position
        else
          root ← ⇑root_ref columns position;
          mret (Some root, (position, posting_position))
    end
  else mret (None, (position, posting_position)).

(** ** Two tables *)

Inductive TableSide := Left | Right.

#[export] Instance TableSide_eq_dec : EqDecision TableSide.
Proof. solve_decision. Defined.

Record CanonicalNodeComparator := {
  left : CanonicalTable;
  right : CanonicalTable;
  left_cursor : CanonicalByteCursor;
  right_cursor : CanonicalByteCursor;
}.

Definition table_of (self : CanonicalNodeComparator) (side : TableSide) : CanonicalTable :=
  match side with Left => self.(left) | Right => self.(right) end.

Definition with_cursors (self : CanonicalNodeComparator)
    (cursors : CanonicalByteCursor * CanonicalByteCursor) : CanonicalNodeComparator :=
  {| left := self.(left); right := self.(right); left_cursor := cursors.1; right_cursor := cursors.2 |}.

(** The bytes of two nodes are compared, unless they are the same node. *)
Definition compare_in (same : bool) (left right : CanonicalTable)
    (cursors : CanonicalByteCursor * CanonicalByteCursor) (left_node right_node : usize)
    : Bud (comparison * (CanonicalByteCursor * CanonicalByteCursor)) :=
  _ ← ⇑checked_node_id left.(table_columns) left_node;
  _ ← ⇑checked_node_id right.(table_columns) right_node;
  if same && (left_node =? right_node) then mret (Eq, cursors)
  else
    left_cursor ← cursor_reset cursors.1 left_node;
    right_cursor ← cursor_reset cursors.2 right_node;
    compare_bytes fuel left right left_cursor right_cursor.

Definition compare_sides (left_side right_side : TableSide) (self : CanonicalNodeComparator)
    (left_node right_node : usize) : Bud (comparison * CanonicalNodeComparator) :=
  '(ordering, cursors) ← compare_in (bool_decide (left_side = right_side))
    (table_of self left_side) (table_of self right_side)
    (self.(left_cursor), self.(right_cursor)) left_node right_node;
  mret (ordering, with_cursors self cursors).

Definition comparator_new (left_columns right_columns : DirectColumns) : Bud CanonicalNodeComparator :=
  left ← table_build fuel left_columns;
  right ← table_build fuel right_columns;
  let self := {| left := left; right := right; left_cursor := cursor_new; right_cursor := cursor_new |} in
  self ← validate_canonical_sets left_columns (compare_sides Left Left) sets_unsorted self;
  validate_canonical_sets right_columns (compare_sides Right Right) sets_unsorted self.

(** [compare]: a node of the left table with one of the right table. *)
Definition compare (self : CanonicalNodeComparator) (left_node right_node : usize)
    : Bud (comparison * CanonicalNodeComparator) :=
  compare_sides Left Right self left_node right_node.

Definition compare_roots (left_side right_side : TableSide) (self : CanonicalNodeComparator)
    (left right : CanonicalRootRef) : Bud (comparison * CanonicalNodeComparator) :=
  _ ← consume 1;
  compare_root_refs (compare_sides left_side right_side) self left right.

Inductive MergedCanonicalRoot :=
  | MergedLeft (root : CanonicalRootRef)
  | MergedRight (root : CanonicalRootRef)
  | MergedBoth (left right : CanonicalRootRef).

Record CanonicalRootMerger := {
  comparator : CanonicalNodeComparator;
  left_position : usize;
  right_position : usize;
  left_posting_position : usize;
  right_posting_position : usize;
}.

#[export] Instance CanonicalRootMerger_eta : Eta CanonicalRootMerger := fun m =>
  {| comparator := m.(comparator); left_position := m.(left_position);
     right_position := m.(right_position); left_posting_position := m.(left_posting_position);
     right_posting_position := m.(right_posting_position) |}.

Definition root_merger_new (left_columns right_columns : DirectColumns) : Bud CanonicalRootMerger :=
  self ← comparator_new left_columns right_columns;
  self ← validate_group left_columns (compare_roots Left Left) roots_unsorted self;
  self ← validate_group right_columns (compare_roots Right Right) roots_unsorted self;
  mret {| comparator := self; left_position := 0; right_position := 0;
          left_posting_position := 0; right_posting_position := 0 |}.

(** [selected_root] of a side. *)
Definition selected_root (self : CanonicalRootMerger) (side : TableSide)
    : Bud (option CanonicalRootRef * CanonicalRootMerger) :=
  let columns := (table_of self.(comparator) side).(table_columns) in
  match side with
  | Left =>
      '(root, (position, posting)) ←
        select_root fuel columns self.(left_position) self.(left_posting_position);
      mret (root, self <| left_position := position |> <| left_posting_position := posting |>)
  | Right =>
      '(root, (position, posting)) ←
        select_root fuel columns self.(right_position) self.(right_posting_position);
      mret (root, self <| right_position := position |> <| right_posting_position := posting |>)
  end.

Definition merger_next (self : CanonicalRootMerger)
    : Bud (option MergedCanonicalRoot * CanonicalRootMerger) :=
  '(left, self) ← selected_root self Left;
  '(right, self) ← selected_root self Right;
  let take_left := self <| left_position := self.(left_position) +w 1 |> in
  let take_right := self <| right_position := self.(right_position) +w 1 |> in
  match left, right with
  | None, None => mret (None, self)
  | Some left, None => _ ← record_root false; mret (Some (MergedLeft left), take_left)
  | None, Some right => _ ← record_root false; mret (Some (MergedRight right), take_right)
  | Some left, Some right =>
      '(ordering, compared) ← compare_roots Left Right self.(comparator) left right;
      let self := self <| comparator := compared |> in
      match ordering with
      | Lt =>
          _ ← record_root false;
          mret (Some (MergedLeft left), self <| left_position := self.(left_position) +w 1 |>)
      | Gt =>
          _ ← record_root false;
          mret (Some (MergedRight right), self <| right_position := self.(right_position) +w 1 |>)
      | Eq =>
          _ ← record_root true;
          mret (Some (MergedBoth left right),
                self <| left_position := self.(left_position) +w 1 |>
                     <| right_position := self.(right_position) +w 1 |>)
      end
  end.
End merge.

(** [CanonicalRootMerger::new] with its budget. *)
Definition root_merger_start `{Layout} (fuel : nat) (left right : DirectColumns)
    (limits : CanonicalMergeLimits) : Cx (CanonicalRootMerger * CanonicalBudget) :=
  budget ← !budget_new limits;
  root_merger_new fuel left right budget.

(** ** Any number of tables *)

Record CanonicalKWayRootMerger := {
  tables : list CanonicalTable;
  positions : list usize;
  posting_positions : list usize;
  candidates : list (option CanonicalRootRef);
  roots : list (option CanonicalRootRef);
  cursors : CanonicalByteCursor * CanonicalByteCursor;
}.

#[export] Instance CanonicalKWayRootMerger_eta : Eta CanonicalKWayRootMerger := fun m =>
  {| tables := m.(tables); positions := m.(positions); posting_positions := m.(posting_positions);
     candidates := m.(candidates); roots := m.(roots); cursors := m.(cursors) |}.

Section kway.
Context `{Layout} (fuel : nat).

Definition with_compared (self : CanonicalKWayRootMerger)
    (m : Bud (comparison * (CanonicalByteCursor * CanonicalByteCursor)))
    : Bud (comparison * CanonicalKWayRootMerger) :=
  '(ordering, compared) ← m;
  mret (ordering, self <| cursors := compared |>).

Definition compare_nodes_in_table (table : CanonicalTable) (self : CanonicalKWayRootMerger)
    (left_node right_node : usize) : Bud (comparison * CanonicalKWayRootMerger) :=
  with_compared self (compare_in fuel true table table self.(cursors) left_node right_node).

Definition compare_nodes (left_table right_table : usize) (self : CanonicalKWayRootMerger)
    (left_node right_node : usize) : Bud (comparison * CanonicalKWayRootMerger) :=
  left ← ⇑index self.(tables) left_table;
  right ← ⇑index self.(tables) right_table;
  with_compared self
    (compare_in fuel (left_table =? right_table) left right self.(cursors) left_node right_node).

Definition compare_table_roots (left_table right_table : usize) (self : CanonicalKWayRootMerger)
    (left right : CanonicalRootRef) : Bud (comparison * CanonicalKWayRootMerger) :=
  _ ← consume 1;
  compare_root_refs (compare_nodes left_table right_table) self left right.

Definition validate_original_table_order (table : CanonicalTable) (self : CanonicalKWayRootMerger)
    : Bud CanonicalKWayRootMerger :=
  let columns := table.(table_columns) in
  self ← validate_canonical_sets columns (compare_nodes_in_table table) sets_unsorted self;
  validate_group columns (compare_root_refs (compare_nodes_in_table table)) roots_unsorted self.

Definition validate_table (self : CanonicalKWayRootMerger) (table : usize)
    : Bud CanonicalKWayRootMerger :=
  current ← ⇑index self.(tables) table;
  let columns := current.(table_columns) in
  let mapped := has_anonymous_scope_map columns in
  self ←
    (if mapped then
       original ← table_build fuel (without_anonymous_scope_maps columns);
       self ← validate_original_table_order original self;
       _ ← table_release original;
       mret self
     else mret self);
  self ← validate_canonical_sets columns (compare_nodes table table)
    (if mapped then unsupported "encoded anonymous scope remapping changes canonical set order"
     else sets_unsorted) self;
  validate_group columns (compare_table_roots table table)
    (if mapped then unsupported "encoded anonymous scope remapping changes canonical root order"
     else roots_unsorted) self.

(** [CanonicalKWayRootMerger::new]. *)
Definition kway_new (columns : list DirectColumns) (limits : CanonicalMergeLimits)
    : Cx (CanonicalKWayRootMerger * CanonicalBudget) :=
  let table_count := len columns in
  if table_count <? 2 then
    !Err (unsupported "encoded bounded canonical merge requires at least two tables")
  else
    budget ← !budget_new limits;
    (_ ← allocate_vector size_of_CanonicalTable table_count;
     tables ← foldM (fun tables column =>
       table ← table_build fuel column; mret (tables ++ [table])) [] columns;
     _ ← allocate_vector size_of_usize table_count;
     _ ← allocate_vector size_of_usize table_count;
     _ ← allocate_vector size_of_RootOption table_count;
     _ ← allocate_vector size_of_RootOption table_count;
     let zeros := replicate (N.to_nat table_count) 0 in
     let nones := replicate (N.to_nat table_count) None in
     foldM validate_table
       {| tables := tables; positions := zeros; posting_positions := zeros;
          candidates := nones; roots := nones; cursors := (cursor_new, cursor_new) |}
       (range 0 table_count)) budget.

Definition kway_selected_root (self : CanonicalKWayRootMerger) (table : usize)
    : Bud (option CanonicalRootRef * CanonicalKWayRootMerger) :=
  current ← ⇑index self.(tables) table;
  position ← ⇑index self.(positions) table;
  posting_position ← ⇑index self.(posting_positions) table;
  '(root, (position, posting_position)) ←
    select_root fuel fuel current.(table_columns) position posting_position;
  moved ← ⇑store self.(positions) table position;
  posted ← ⇑store self.(posting_positions) table posting_position;
  mret (root, self <| positions := moved |> <| posting_positions := posted |>).

Definition lost_minimum : KernelError := malformed "encoded bounded merge lost its minimum root".

(** [self.candidates[table] = self.selected_root(table, state)?]. *)
Definition fill_candidate (self : CanonicalKWayRootMerger) (table : usize)
    : Bud CanonicalKWayRootMerger :=
  '(candidate, self) ← kway_selected_root self table;
  filled ← ⇑store self.(candidates) table candidate;
  mret (self <| candidates := filled |>).

(** A round of the search for the least candidate. *)
Definition minimum_round (st : CanonicalKWayRootMerger * option usize) (table : usize)
    : Bud (CanonicalKWayRootMerger * option usize) :=
  let '(self, minimum_table) := st in
  candidate ← ⇑index self.(candidates) table;
  match candidate, minimum_table with
  | None, _ => mret st
  | Some _, None => mret (self, Some table)
  | Some candidate, Some current_minimum =>
      minimum ← ⇑index self.(candidates) current_minimum;
      minimum ← ⇑ok_or minimum lost_minimum;
      '(ordering, self) ← compare_table_roots table current_minimum self candidate minimum;
      mret (self, match ordering with Lt => Some table | _ => minimum_table end)
  end.

(** A round of the loop that takes the roots equal to the least one. *)
Definition take_round (minimum_table : usize) (minimum : CanonicalRootRef)
    (st : CanonicalKWayRootMerger * usize) (table : usize) : Bud (CanonicalKWayRootMerger * usize) :=
  let '(self, root_count) := st in
  candidate ← ⇑index self.(candidates) table;
  match candidate with
  | None => mret st
  | Some candidate =>
      '(equal, self) ←
        (if table =? minimum_table then mret (true, self)
         else
           '(ordering, self) ← compare_table_roots table minimum_table self candidate minimum;
           mret (match ordering with Eq => true | _ => false end, self));
      if negb equal then mret (self, root_count)
      else
        taken ← ⇑store self.(roots) table (Some candidate);
        position ← ⇑index self.(positions) table;
        position ← ⇑ok_or (checked_add position 1)
          (resource "encoded canonical root position overflow");
        moved ← ⇑store self.(positions) table position;
        root_count ← ⇑ok_or (checked_add root_count 1)
          (resource "encoded merged-root counter overflow");
        mret (self <| roots := taken |> <| positions := moved |>, root_count)
  end.

(** [next]: the group of the least selected roots, one entry per table. *)
Definition kway_next (self : CanonicalKWayRootMerger)
    : Bud (option (list (option CanonicalRootRef)) * CanonicalKWayRootMerger) :=
  let nones := replicate (length self.(tables)) None in
  let self := self <| candidates := nones |> <| roots := nones |> in
  let all_tables := range 0 (len self.(tables)) in
  self ← foldM fill_candidate self all_tables;
  '(self, minimum_table) ← foldM minimum_round (self, None) all_tables;
  match minimum_table with
  | None => mret (None, self)
  | Some minimum_table =>
      minimum ← ⇑index self.(candidates) minimum_table;
      minimum ← ⇑ok_or minimum lost_minimum;
      '(self, root_count) ← foldM (take_round minimum_table minimum) (self, 0) all_tables;
      duplicate_count ← ⇑ok_or (checked_sub root_count 1)
        (malformed "encoded bounded merge emitted an empty root group");
      _ ← record_root_duplicates duplicate_count;
      mret (Some self.(roots), self)
  end.

(** ** Anonymous positions *)

Definition compare_effective_anonymous_nodes (self : CanonicalKWayRootMerger)
    (left right : CompositeNodeCoordinate) : Bud comparison :=
  _ ← consume 1;
  let unknown := malformed "encoded anonymous coordinate references an unknown table" in
  left_table ← ⇑ok_or (get self.(tables) left.(node_table)) unknown;
  right_table ← ⇑ok_or (get self.(tables) right.(node_table)) unknown;
  '(left_scope, left_key) ← ⇑anonymous_parts left_table.(table_columns) left.(composite_node_id);
  '(right_scope, right_key) ← ⇑anonymous_parts right_table.(table_columns) right.(composite_node_id);
  amount ← ⇑ok_or
    (amount ← checked_add (len left_scope) (len right_scope);
     amount ← checked_add amount (len left_key);
     checked_add amount (len right_key))
    (resource "encoded anonymous comparison work counter overflow");
  _ ← consume amount;
  match bytes_cmp left_scope right_scope with
  | Eq =>
      length_order ← ⇑compare_canonical_varints (len left_key) (len right_key);
      match length_order with
      | Eq => mret (bytes_cmp left_key right_key)
      | order => mret order
      end
  | order => mret order
  end.

Definition unassigned (c : CompositeNodeCoordinate) : bool := c.(canonical_node_order) =? usize_max.

(** The least coordinate without a position. *)
Definition least_round (self : CanonicalKWayRootMerger)
    (minimum : option CompositeNodeCoordinate) (coordinate : CompositeNodeCoordinate)
    : Bud (option CompositeNodeCoordinate) :=
  if negb (unassigned coordinate) then mret minimum
  else
    match minimum with
    | None => mret (Some coordinate)
    | Some current =>
        ordering ← compare_effective_anonymous_nodes self coordinate current;
        mret (match ordering with Lt => Some coordinate | _ => minimum end)
    end.

(** The coordinates equal to it get the position. *)
Definition assign_round (self : CanonicalKWayRootMerger) (minimum : CompositeNodeCoordinate)
    (next_position : usize) (done : list CompositeNodeCoordinate) (coordinate : CompositeNodeCoordinate)
    : Bud (list CompositeNodeCoordinate) :=
  if negb (unassigned coordinate) then mret (done ++ [coordinate])
  else
    ordering ← compare_effective_anonymous_nodes self coordinate minimum;
    mret (done ++ [match ordering with
                   | Eq => {| node_table := coordinate.(node_table);
                              composite_node_id := coordinate.(composite_node_id);
                              canonical_node_order := next_position |}
                   | _ => coordinate
                   end]).

Fixpoint assign_loop (rounds : nat) (self : CanonicalKWayRootMerger)
    (coordinates : list CompositeNodeCoordinate) (next_position : usize)
    : Bud (usize * list CompositeNodeCoordinate) :=
  minimum ← foldM (least_round self) None coordinates;
  match minimum with
  | None => mret (next_position, coordinates)
  | Some minimum =>
      match rounds with
      | O => ⇑OutOfFuel
      | S rounds =>
          coordinates ← foldM (assign_round self minimum next_position) [] coordinates;
          next_position ← ⇑ok_or (checked_add next_position 1)
            (resource "encoded anonymous position counter overflow");
          assign_loop rounds self coordinates next_position
      end
  end.

(** Every round gives a position to a coordinate. *)
Definition assign_anonymous_positions (self : CanonicalKWayRootMerger)
    (coordinates : list CompositeNodeCoordinate) : Bud (usize * list CompositeNodeCoordinate) :=
  assign_loop (length coordinates) self coordinates 0.
End kway.
