(* ===== verification/Join.v ===== *)
(** * The join of the canonical groups

    The loop of [prepare_dynamic_composite_batches_with_root_uncommitted]
    (native/src/encoded_direct.rs) over the groups of the canonical merge: the
    first table that has a root represents it, the rows of the roles and the
    marks of the reachable nodes are those of the representatives, and a root of
    a later table is kept when no table before it has it.  When the composite has
    ROOT tables, they follow the closure tables in a group. *)

From S2P Require Import Prelude Errors Tags Text Readers Columns Nodes Properties Graphs.
From S2P Require Import Stats Rules Partial Workspace Planning Roles Preparation Budget Encode Merge.
Local Open Scope string_scope.
Local Open Scope list_scope.
Local Open Scope N_scope.

Record DynamicTailRootPlan := {
  tail_table : usize;
  tail_root_index : usize;
  tail_node_id : usize;
  tail_rule : RootRule;
  tail_shape : option PlannedRootShape.PlannedRootShape;
  tail_insertion_scan_index : usize;
  tail_canonical_index : usize;
}.

#[export] Instance DynamicTailRootPlan_eta : Eta DynamicTailRootPlan := fun p =>
  {| tail_table := p.(tail_table); tail_root_index := p.(tail_root_index); tail_node_id := p.(tail_node_id);
     tail_rule := p.(tail_rule); tail_shape := p.(tail_shape);
     tail_insertion_scan_index := p.(tail_insertion_scan_index);
     tail_canonical_index := p.(tail_canonical_index) |}.

Definition DEDUPLICATED_OVERLAY_SCAN_INDEX : usize := usize_max - 1.

(** The mutable variables of the loop. *)
Record Join := {
  reachable : list bool;
  axiom_reachable : list bool;
  annotation_roots : list CompositeRootCoordinate;
  tail_root_plans : list DynamicTailRootPlan;
  consumed : list usize;
  root_consumed : list usize;
  global_role_rows : list RoleAxiom;
  global_role_axiom_count : usize;
  global_subrole_axioms : usize;
  global_inverse_axioms : usize;
  global_property_chains : usize;
  selected_base_roots : usize;
  unique_tail_roots : usize;
  deduplicated_tail_roots : usize;
  root_occurrences : usize;
  closure_annotation_assertions : usize;
  next_base_scan_index : usize;
  merged_canonical_index : usize;
}.

#[export] Instance Join_eta : Eta Join := fun j =>
  {| reachable := j.(reachable); axiom_reachable := j.(axiom_reachable);
     annotation_roots := j.(annotation_roots); tail_root_plans := j.(tail_root_plans);
     consumed := j.(consumed); root_consumed := j.(root_consumed);
     global_role_rows := j.(global_role_rows); global_role_axiom_count := j.(global_role_axiom_count);
     global_subrole_axioms := j.(global_subrole_axioms);
     global_inverse_axioms := j.(global_inverse_axioms);
     global_property_chains := j.(global_property_chains);
     selected_base_roots := j.(selected_base_roots); unique_tail_roots := j.(unique_tail_roots);
     deduplicated_tail_roots := j.(deduplicated_tail_roots); root_occurrences := j.(root_occurrences);
     closure_annotation_assertions := j.(closure_annotation_assertions);
     next_base_scan_index := j.(next_base_scan_index);
     merged_canonical_index := j.(merged_canonical_index) |}.

(** [counter.checked_add(1).ok_or_else(|| KernelError::resource(..))?]. *)
Definition increment (counter : usize) (message : string) : outcome usize :=
  ok_or (checked_add counter 1) (resource message).

(** [columns.mark_root_reachable(root, &mut marks[start..end], ..)]. *)
Definition mark_range (columns : DirectColumns) (root start end_ : usize) (marks : list bool)
    : Cx (list bool) :=
  marked ← !match get_range marks start end_ with Some marked => Ok marked | None => Panic end;
  marked ← mark_root_reachable columns root marked;
  mret (take (N.to_nat start) marks ++ marked ++ drop (N.to_nat end_) marks).

Abbreviation merged_group := (list (option CanonicalRootRef)) (only parsing).

Section join.
Context (columns : list DirectColumns) (paired : bool) (options : DirectCompileOptions).
Context (closure_rule_plans root_rule_plans : list SelectedRootRulePlan).
Context (node_offsets tail_offsets : list usize).

Definition member_count : usize := len columns.

(** ** The representative *)

Definition representative_table (group : merged_group) : outcome (option usize) :=
  found ← fold_until (fun '() table =>
    root ← index group table;
    Ok (match root with Some _ => Return table | None => Continue tt end)) tt (range 0 member_count);
  Ok (match found with Return table => Some table | Continue _ => None end).

(** Whether every root of a group that no closure table has is an annotation. *)
Definition annotation_only (group : merged_group) : outcome bool :=
  if negb paired then Ok false else
  found ← fold_until (fun table root_rule_plan =>
    root ← index group (member_count +w table);
    match root with
    | None => Ok (Continue (table + 1))
    | Some root =>
        rule ← rule_at root_rule_plan root.(root_index);
        if bool_decide (rule.(handler) = RootRuleHandler.AnnotationAssertion)
        then Ok (Continue (table + 1)) else Ok (Return tt)
    end) 0 (take (length columns) root_rule_plans);
  Ok (match found with Return _ => false | Continue _ => true end).

(** ** Roles *)

Definition role_count_overflow : string := "encoded composite role count overflow".

(** A row in the order of the groups. *)
Definition merged_row (order : usize) (row : RoleAxiom) : RoleAxiom :=
  {| role_tag := row.(role_tag); role_first := row.(role_first); role_second := row.(role_second);
     spread := row.(spread); canonical_order := order; source_order := 1 |}.

Definition join_role (rule : RootRule) (planned : option PlannedRoleEffect) (self : Join) : outcome Join :=
  match rule.(role_effect), planned with
  | RootRoleEffect.None, None => Ok self
  | RootRoleEffect.SubPropertyOrChain, Some PropertyChain =>
      axioms ← increment self.(global_role_axiom_count) role_count_overflow;
      chains ← increment self.(global_property_chains) "encoded composite property-chain count overflow";
      Ok (self <| global_role_axiom_count := axioms |> <| global_property_chains := chains |>)
  | RootRoleEffect.SubPropertyOrChain, Some (Row row) =>
      axioms ← increment self.(global_role_axiom_count) role_count_overflow;
      subroles ← increment self.(global_subrole_axioms) "encoded composite subrole count overflow";
      Ok (self <| global_role_axiom_count := axioms |> <| global_subrole_axioms := subroles |>
               <| global_role_rows := self.(global_role_rows) ++ [merged_row self.(merged_canonical_index) row] |>)
  | RootRoleEffect.InverseProperties, Some (Row row) =>
      axioms ← increment self.(global_role_axiom_count) role_count_overflow;
      inverses ← increment self.(global_inverse_axioms) "encoded composite inverse-role count overflow";
      Ok (self <| global_role_axiom_count := axioms |> <| global_inverse_axioms := inverses |>
               <| global_role_rows := self.(global_role_rows) ++ [merged_row self.(merged_canonical_index) row] |>)
  | _, _ => Err (malformed "encoded structural root rule has an inconsistent planned role effect")
  end.

(** ** Provenance *)

(** The ROOT occurrence of a table; the state also says if one was found. *)
Definition join_provenance (group : merged_group) (representative : CanonicalRootRef) (rule : RootRule)
    (st : Join * bool) (table : usize) : outcome (Join * bool) :=
  let '(self, root_selected) := st in
  root ← index group (member_count +w table);
  match root with
  | None => Ok st
  | Some root =>
      closure ← index group table;
      match closure with
      | None => Err (malformed "encoded composite ROOT occurrence is absent from its paired closure member")
      | Some _ =>
          occurrences ← increment self.(root_occurrences) "encoded composite ROOT occurrence counter overflow";
          count ← index self.(root_consumed) table;
          count ← increment count "encoded composite ROOT selected-root counter overflow";
          counts ← store self.(root_consumed) table count;
          if negb (root.(root_ref_kind) =? representative.(root_ref_kind)) then
            Err (malformed "encoded composite ROOT occurrence changed root kind")
          else
            plan ← index root_rule_plans table;
            root_rule ← rule_at plan root.(root_index);
            if negb (bool_decide (root_rule = rule)) then
              Err (malformed "encoded composite ROOT occurrence changed structural root rule")
            else Ok (self <| root_occurrences := occurrences |> <| root_consumed := counts |>, true)
      end
  end.

(** ** Reachability *)

Definition join_reachable (table : usize) (root : usize) (rule : RootRule) (self : Join) : Cx Join :=
  member ← !index columns table;
  start ← !index node_offsets table;
  end_ ← !index node_offsets (table +w 1);
  marks ← mark_range member root start end_ self.(reachable);
  if bool_decide (rule.(anonymous_scope_policy) = RootAnonymousScopePolicy.AxiomDerived) then
    axiom_marks ← mark_range member root start end_ self.(axiom_reachable);
    mret (self <| reachable := marks |> <| axiom_reachable := axiom_marks |>)
  else mret (self <| reachable := marks |>).

(** ** Annotations *)

Definition join_annotation (table : usize) (representative : CanonicalRootRef) (rule : RootRule)
    (root_selected : bool) (self : Join) : outcome Join :=
  if negb (bool_decide (rule.(literal_policy) = RootLiteralPolicy.RootScopedAnnotation)) then Ok self else
  assertions ← increment self.(closure_annotation_assertions)
    "encoded composite annotation-assertion counter overflow";
  let self := self <| closure_annotation_assertions := assertions |> in
  if options.(include_literals) && negb options.(asserted_taxonomy_only) && negb paired then
    Err (unsupported "bounded composite literal projection requires paired ROOT provenance")
  else if root_selected then
    Ok (self <| annotation_roots := self.(annotation_roots) ++
         [{| coordinate_table := table; coordinate_root_index := representative.(root_index);
             coordinate_node_id := representative.(root_node_id);
             coordinate_root_kind := representative.(root_ref_kind); coordinate_tag := rule.(rule_tag);
             coordinate_order := self.(merged_canonical_index) |}] |>)
  else Ok self.

(** ** The base and the tail *)

Definition join_base (group : merged_group) (self : Join) : outcome Join :=
  base ← index group 0;
  match base with
  | None => Ok self
  | Some root =>
      roots ← increment self.(selected_base_roots) "encoded composite root counter overflow";
      scan ← ok_or (checked_add root.(root_index) 1) (resource "encoded composite scan-position overflow");
      count ← index self.(consumed) 0;
      count ← increment count "encoded selected-root counter overflow";
      counts ← store self.(consumed) 0 count;
      Ok (self <| selected_base_roots := roots |> <| next_base_scan_index := scan |> <| consumed := counts |>)
  end.

Definition inconsistent_tail : KernelError :=
  malformed "encoded bounded merge produced an inconsistent tail root".
Definition reordered_tail : KernelError :=
  malformed "encoded bounded merge reordered one source-local root group".

(** The root of a later table; the state also says if a table before it has the
    root. *)
Definition join_tail (group : merged_group) (rule : RootRule) (st : Join * bool) (table : usize)
    : outcome (Join * bool) :=
  let '(self, retained_tail) := st in
  root ← index group table;
  match root with
  | None => Ok st
  | Some root =>
      offset ← index tail_offsets table;
      count ← index self.(consumed) table;
      plan_index ← ok_or (checked_add offset count) (resource "encoded composite plan-index overflow");
      plan ← ok_or (get self.(tail_root_plans) plan_index) inconsistent_tail;
      if negb (plan.(tail_table) =? table) || negb (plan.(tail_root_index) =? root.(root_index))
         || negb (plan.(tail_node_id) =? root.(root_node_id)) || negb (bool_decide (plan.(tail_rule) = rule))
      then Err reordered_tail
      else
        self ←
          (if retained_tail : bool then
             deduplicated ← increment self.(deduplicated_tail_roots)
               "encoded deduplicated-root counter overflow";
             plans ← store self.(tail_root_plans) plan_index
               (plan <| tail_insertion_scan_index := DEDUPLICATED_OVERLAY_SCAN_INDEX |>);
             Ok (self <| tail_root_plans := plans |> <| deduplicated_tail_roots := deduplicated |>)
           else
             plans ← store self.(tail_root_plans) plan_index
               (plan <| tail_insertion_scan_index := self.(next_base_scan_index) |>
                     <| tail_canonical_index := self.(merged_canonical_index) |>);
             unique ← increment self.(unique_tail_roots) "encoded composite root counter overflow";
             Ok (self <| tail_root_plans := plans |> <| unique_tail_roots := unique |>));
        count ← increment count "encoded selected-root counter overflow";
        counts ← store self.(consumed) table count;
        Ok (self <| consumed := counts |>, true)
  end.

(** ** A group *)

Definition absent_from_closure (group : merged_group) : outcome Join :=
  only ← annotation_only group;
  if only : bool then
    Err (unsupported "encoded composite root-provenance join contains an annotation root absent from the closure")
  else Err (malformed "encoded composite ROOT selection contains a root absent from the closure").

Definition join_group (self : Join) (group : merged_group) : Cx Join :=
  found ← !representative_table group;
  match found with
  | None => !absent_from_closure group
  | Some table =>
      representative ← !index group table;
      representative ← !ok_or representative
        (malformed "encoded composite closure lost its root representative");
      plan ← !index closure_rule_plans table;
      rule ← !rule_at plan representative.(root_index);
      self ← !join_role rule (role_effect_at plan representative.(root_index)) self;
      '(self, root_selected) ←
        !(if paired : bool then
            foldM (join_provenance group representative rule) (self, false) (range 0 (len self.(root_consumed)))
          else Ok (self, false));
      self ← join_reachable table representative.(root_node_id) rule self;
      self ← !join_annotation table representative rule root_selected self;
      base ← !index group 0;
      self ← !join_base group self;
      '(self, _) ← !foldM (join_tail group rule) (self, match base with Some _ => true | None => false end)
        (range 1 member_count);
      merged ← !ok_or (checked_add self.(merged_canonical_index) 1)
        (resource "encoded canonical root-position overflow");
      mret (self <| merged_canonical_index := merged |>)
  end.

(** [while let Some(group) = merger.next(state)?]. *)
Fixpoint join_groups `{Layout} (fuel rounds : nat) (merger : CanonicalKWayRootMerger) (self : Join)
    : Bud (CanonicalKWayRootMerger * Join) :=
  match rounds with
  | O => ⇑OutOfFuel
  | S rounds =>
      '(group, merger) ← kway_next fuel merger;
      match group with
      | None => mret (merger, self)
      | Some group => self ← uncharged (join_group self group); join_groups fuel rounds merger self
      end
  end.
End join.
