(* ===== verification/Composite.v ===== *)
(** * The preparation of a composite

    [prepare_dynamic_composite_batches_with_root_uncommitted] of
    native/src/encoded_direct.rs: several tables are validated and planned, their
    selected roots joined by the canonical merge, the roots that only later
    tables have copied into deltas, and the whole prepared as the first table
    with an overlay.  What the composite owns is charged to one workspace. *)

From S2P Require Import Prelude Errors Tags Text Readers Columns Nodes Properties Generic Graphs Sort.
From S2P Require Import Stats Rules Partial Workspace Planning Roles Overlay Preparation LocalIndex Scoped Tail.
From S2P Require Import Preflight Budget Encode Merge Join.
Local Open Scope string_scope.
Local Open Scope list_scope.
Local Open Scope N_scope.

(** [Ok(..)], [Err(KernelError::Unsupported(_))] and the other errors told apart. *)
Definition supported {A} (m : Cx A) : Cx (option A) := fun obs k =>
  match m obs k with
  | (Ok a, k) => (Ok (Some a), k)
  | (Err (Unsupported _), k) => (Ok None, k)
  | (Err e, k) => (Err e, k)
  | (Panic, k) => (Panic, k)
  | (OutOfFuel, k) => (OutOfFuel, k)
  end.

Definition selected_overflow : KernelError := resource "encoded selected-root count overflow".

Section composite.
Context `{LowercaseTable} (columns : list DirectColumns) (root_columns : option (list DirectColumns)).
Context (options : DirectCompileOptions) (retained : option RoleState).

Abbreviation members := (len columns).
Abbreviation maximum := options.(max_iri_bytes).

(** [root_columns.is_some()]. *)
Definition paired : bool := match root_columns with Some _ => true | None => false end.

Definition reserve_paired (size : Layout -> usize) : Owned unit :=
  if paired then reserve_owned size members else mret tt.

(** ** The plans of the tables *)

Definition plan_table (table : DirectColumns) : Owned SelectedRootRulePlan :=
  _ ← uncharged (validate_generic table);
  _ ← uncharged (validate_supported_nodes table maximum);
  resolve_selected_root_rule_plan table maximum.

Definition closure_plan_step (st : list SelectedRootRulePlan * usize) (table : DirectColumns)
    : Owned (list SelectedRootRulePlan * usize) :=
  let '(plans, selected_total) := st in
  plan ← plan_table table;
  total ← ⇑ok_or (checked_add selected_total plan.(selected_roots_planned)) selected_overflow;
  mret (plans ++ [plan], total).

Definition root_plan_step (plans : list SelectedRootRulePlan) (table : DirectColumns)
    : Owned (list SelectedRootRulePlan) :=
  plan ← plan_table table; mret (plans ++ [plan]).

(** The plans of the closure tables and of the ROOT tables, and the number of
    the closure's selected roots. *)
Definition plan_tables : Owned (list SelectedRootRulePlan * list SelectedRootRulePlan * usize) :=
  _ ← reserve_owned (@size_of_rule_plan) members;
  _ ← reserve_paired (@size_of_rule_plan);
  _ ← reserve_owned (fun _ => size_of_usize) members;
  _ ← reserve_paired (fun _ => size_of_usize);
  '(closure_rule_plans, selected_total) ← foldM closure_plan_step ([], 0) columns;
  root_rule_plans ← foldM root_plan_step [] (default [] root_columns);
  mret (closure_rule_plans, root_rule_plans, selected_total).

Definition merge_columns : Owned (list DirectColumns) :=
  match root_columns with
  | Some root =>
      tables ← ⇑ok_or (checked_mul members 2) (resource "encoded composite paired-table count overflow");
      _ ← reserve_owned (@size_of_columns) tables;
      mret (columns ++ root)
  | None => mret columns
  end.

(** ** Anonymous scopes *)

Definition has_anonymous_node (member : DirectColumns) : Cx bool :=
  found ← fold_until (fun '() node_id =>
    _ ← check_cancel node_id;
    tag ← !node_tag member node_id;
    mret (if tag =? TAG_ANONYMOUS_INDIVIDUAL then Return tt else Continue tt)) tt
    (range 1 (node_count member + 1));
  mret (match found with Return _ => true | Continue _ => false end).

Abbreviation mapping := (list (option scope_kind) * list (usize * bytes) * bool)%type (only parsing).

(** A table; the state is the constructs, the target scopes, and whether the
    composite is a group of general scopes. *)
Definition scope_step (closure_rule_plans : list SelectedRootRulePlan) (st : mapping * usize)
    (member : DirectColumns) : Cx (mapping * usize) :=
  let '((constructs, mapped_targets, generic_scope_group), table) := st in
  if negb (has_anonymous_scope_map member) then
    anonymous ← has_anonymous_node member;
    mret ((constructs, mapped_targets, generic_scope_group || anonymous), table + 1)
  else
    plan ← !index closure_rule_plans table;
    mapped ← supported (validate_scope_mapped_composite_table member plan maximum);
    match mapped with
    | Some (kind, _, target) =>
        constructs ← !store constructs table (Some kind);
        mret ((constructs, mapped_targets ++ [(table, target)], generic_scope_group), table + 1)
    | None => mret ((constructs, mapped_targets, true), table + 1)
    end.

Definition target_cmp (left right : usize * bytes) : comparison :=
  then_with (bytes_cmp left.2 right.2) (left.1 ?= right.1).

Fixpoint unique_targets (mapped_targets : list (usize * bytes)) : outcome unit :=
  match mapped_targets with
  | left :: (right :: _) as rest =>
      if bool_decide (left.2 = right.2) then
        Err (malformed "encoded composite anonymous scope targets are not unique")
      else unique_targets rest
  | _ => Ok tt
  end.

Definition position_step (st : list usize * usize) (mapped : usize * bytes) : outcome (list usize * usize) :=
  positions ← store st.1 mapped.1 st.2; Ok (positions, st.2 + 1).

(** The remapped construct of every table, and the rank of its scope. *)
Definition scope_mapping (closure_rule_plans : list SelectedRootRulePlan)
    : Owned (list (option scope_kind) * list usize) :=
  let scope_mapped := existsb has_anonymous_scope_map columns in
  let nones := replicate (length columns) None in
  let zeros := replicate (length columns) 0 in
  _ ← reserve_owned (@size_of_scope_construct) members;
  _ ← reserve_owned (fun _ => size_of_usize) members;
  if negb scope_mapped then mret (nones, zeros) else
  _ ← reserve_owned (@size_of_scope_target) members;
  '((constructs, mapped_targets, generic_scope_group), _) ←
    uncharged (foldM (scope_step closure_rule_plans) ((nones, [], false), 0) columns);
  if generic_scope_group : bool then mret (nones, zeros) else
  mapped_targets ← uncharged (cancellable_sort_unstable_by target_cmp mapped_targets);
  _ ← ⇑unique_targets mapped_targets;
  '(positions, _) ← ⇑foldM position_step (zeros, 0) mapped_targets;
  mret (constructs, positions).

(** ** The tables' nodes *)

(** The offsets, the number of marks, and the largest table. *)
Definition offset_step (st : list usize * usize * usize) (member : DirectColumns)
    : outcome (list usize * usize * usize) :=
  let '(offsets, total, maximum_node_count) := st in
  slots ← ok_or (checked_add (node_count member) 1)
    (resource "encoded composite reachability length overflow");
  total ← ok_or (checked_add total slots) (resource "encoded composite reachability overflow");
  Ok (offsets ++ [total], total, N.max maximum_node_count (node_count member)).

Definition node_slots (selected_total : usize) : Owned (list usize * usize) :=
  count ← ⇑ok_or (checked_add members 1) (resource "encoded composite table count overflow");
  _ ← reserve_owned (fun _ => size_of_usize) count;
  '(offsets, total, maximum_node_count) ← ⇑foldM offset_step ([0], 0, 0) columns;
  _ ← reserve_owned (fun _ => size_of_bool) total;
  _ ← reserve_owned (fun _ => size_of_bool) total;
  _ ← reserve_owned (fun _ => size_of_usize) maximum_node_count;
  _ ← reserve_owned (@size_of_root_coordinate) selected_total;
  _ ← reserve_owned (@size_of_node_coordinate) total;
  _ ← reserve_owned (@size_of_node_coordinate) total;
  mret (offsets, total).

(** ** The tail's roots *)

Definition tail_count (closure_rule_plans : list SelectedRootRulePlan) : outcome usize :=
  foldM (fun count plan => ok_or (checked_add count plan.(selected_roots_planned)) selected_overflow) 0
    (drop 1 closure_rule_plans).

Definition tail_offset_step (closure_rule_plans : list SelectedRootRulePlan) (st : list usize * usize)
    (table : usize) : outcome (list usize * usize) :=
  let '(offsets, offset) := st in
  offsets ← store offsets table offset;
  plan ← index closure_rule_plans table;
  offset ← ok_or (checked_add offset plan.(selected_roots_planned)) selected_overflow;
  Ok (offsets, offset).

Definition tail_root_step (table : usize) (tail_columns : DirectColumns) (plan : SelectedRootRulePlan)
    (plans : list DynamicTailRootPlan) (root_index : usize) : Cx (list DynamicTailRootPlan) :=
  _ ← check_cancel root_index;
  selected ← !root_is_selected tail_columns root_index;
  if negb selected then mret plans else
  root ← !root_id tail_columns root_index;
  rule ← !rule_at plan root_index;
  literal ← !(if options.(include_literals)
                 && bool_decide (rule.(literal_policy) = RootLiteralPolicy.RootScopedAnnotation) then
                disposition ← disposition rule options;
                Ok (bool_decide (disposition = RootModeDisposition.LiteralConditional) && negb paired)
              else Ok false);
  if literal : bool then
    !Err (unsupported "bounded composite literal projection requires annotation-assertion-free selected roots")
  else
    mret (plans ++ [{| tail_table := table; tail_root_index := root_index; tail_node_id := root;
                       tail_rule := rule; tail_shape := shape_at plan root_index;
                       tail_insertion_scan_index := usize_max; tail_canonical_index := usize_max |}]).

Definition tail_table_step (closure_rule_plans : list SelectedRootRulePlan)
    (plans : list DynamicTailRootPlan) (table : usize) : Cx (list DynamicTailRootPlan) :=
  tail_columns ← !index columns table;
  plan ← !index closure_rule_plans table;
  foldM (tail_root_step table tail_columns plan) plans (range 0 (root_count tail_columns)).

Definition tail_plans (closure_rule_plans : list SelectedRootRulePlan)
    : Owned (list DynamicTailRootPlan * list usize * usize) :=
  tail_root_count ← ⇑tail_count closure_rule_plans;
  _ ← reserve_owned (@size_of_tail_plan) tail_root_count;
  _ ← reserve_owned (fun _ => size_of_usize) members;
  '(tail_offsets, _) ← ⇑foldM (tail_offset_step closure_rule_plans) (replicate (length columns) 0, 0)
    (range 1 members);
  plans ← uncharged (foldM (tail_table_step closure_rule_plans) [] (range 1 members));
  if negb (len plans =? tail_root_count) then
    ⇑Err (malformed "encoded bounded selection lost a tail root")
  else mret (plans, tail_offsets, tail_root_count).

(** ** The work of the merge *)

(** [usize::BITS - n.leading_zeros()] is the number of bits of [n]. *)
Definition canonical_work (tail_root_count max_canonical_work : usize) : outcome usize :=
  let sort_levels := N.size (saturating_sub tail_root_count 1) in
  local_sort_work ← ok_or (work ← checked_mul tail_root_count sort_levels;
                           checked_add work tail_root_count)
    (resource "encoded composite sort-work counter overflow");
  ok_or (remaining ← checked_sub max_canonical_work local_sort_work;
         if remaining =? 0 then None else Some remaining)
    (resource ("encoded canonical comparison requires more than "
      +:+ pretty max_canonical_work +:+ " work units")).

Definition maximum_role_axioms (closure_rule_plans : list SelectedRootRulePlan) : outcome usize :=
  foldM (fun total plan =>
    roles ← role_axioms plan.(counts);
    ok_or (checked_add total roles) (resource "encoded composite role count overflow")) 0 closure_rule_plans.

Definition join_start (total_node_slots : usize) (plans : list DynamicTailRootPlan) : Join :=
  let unmarked := replicate (N.to_nat total_node_slots) false in
  {| reachable := unmarked; axiom_reachable := unmarked; annotation_roots := []; tail_root_plans := plans;
     consumed := replicate (length columns) 0;
     root_consumed := if paired then replicate (length columns) 0 else [];
     global_role_rows := []; global_role_axiom_count := 0; global_subrole_axioms := 0;
     global_inverse_axioms := 0; global_property_chains := 0; selected_base_roots := 0;
     unique_tail_roots := 0; deduplicated_tail_roots := 0; root_occurrences := 0;
     closure_annotation_assertions := 0; next_base_scan_index := 0; merged_canonical_index := 0 |}.

(** ** Coordinates *)

Record Coordinates := {
  class_nodes : list CompositeNodeCoordinate;
  anonymous_nodes : list CompositeNodeCoordinate;
  coordinate_count : usize;
  coordinate_work : usize;
}.

Definition at_node (table node_id order : usize) : CompositeNodeCoordinate :=
  {| node_table := table; composite_node_id := node_id; canonical_node_order := order |}.

(** [marks[index] && member.node_tag(node_id)? == tag]. *)
Definition marked_with (marks : list bool) (index_ : usize) (member : DirectColumns) (node_id : usize)
    (tag : u16) : outcome bool :=
  marked ← index marks index_;
  if marked : bool then node_tag_ ← node_tag member node_id; Ok (node_tag_ =? tag) else Ok false.

Definition coordinate_step (self : Join) (table offset : usize) (member : DirectColumns) (c : Coordinates)
    (node_id : usize) : Cx Coordinates :=
  _ ← check_cancel c.(coordinate_work);
  work ← !ok_or (checked_add c.(coordinate_work) 1)
    (resource "encoded composite coordinate-work counter overflow");
  entity_node ← !marked_with self.(reachable) (offset +w node_id) member node_id TAG_ENTITY;
  class ← !(if entity_node : bool then
              '(kind, _) ← entity member node_id; Ok (bool_decide (kind = str "class"))
            else Ok false);
  '(classes, count) ← !(if class : bool then
      count ← ok_or (checked_add c.(coordinate_count) 1)
        (resource "encoded composite class-coordinate counter overflow");
      Ok (c.(class_nodes) ++ [at_node table node_id c.(coordinate_count)], count)
    else Ok (c.(class_nodes), c.(coordinate_count)));
  anonymous ← !marked_with self.(axiom_reachable) (offset +w node_id) member node_id TAG_ANONYMOUS_INDIVIDUAL;
  mret {| class_nodes := classes;
          anonymous_nodes :=
            if anonymous : bool then c.(anonymous_nodes) ++ [at_node table node_id usize_max]
            else c.(anonymous_nodes);
          coordinate_count := count; coordinate_work := work |}.

Definition coordinate_table_step (self : Join) (node_offsets : list usize) (c : Coordinates) (table : usize)
    : Cx Coordinates :=
  offset ← !index node_offsets table;
  member ← !index columns table;
  foldM (coordinate_step self table offset member) c (range 1 (node_count member + 1)).

Definition coordinates (self : Join) (node_offsets : list usize) : Cx Coordinates :=
  foldM (coordinate_table_step self node_offsets)
    {| class_nodes := []; anonymous_nodes := []; coordinate_count := 0; coordinate_work := 0 |}
    (range 0 members).

(** ** The join *)

Record Joined := {
  joined : Join;
  joined_class_nodes : list CompositeNodeCoordinate;
  joined_anonymous_nodes : list CompositeNodeCoordinate;
  unique_anonymous_individuals : usize;
}.

(** The closure's counts are those of its plans, and the report of the merge
    agrees. *)
Definition check_counts (closure_rule_plans root_rule_plans : list SelectedRootRulePlan) (self : Join)
    (report : CanonicalMergeReport) : outcome unit :=
  let inconsistent := Err (malformed "encoded bounded merge produced inconsistent root counts") in
  let selected_counts := map selected_roots_planned closure_rule_plans in
  let root_selected_counts := map selected_roots_planned root_rule_plans in
  expected_report_duplicates ← ok_or (checked_add self.(deduplicated_tail_roots) self.(root_occurrences))
    (resource "encoded duplicate-root counter overflow");
  base ← index selected_counts 0;
  if negb (bool_decide (self.(consumed) = selected_counts))
     || negb (bool_decide (self.(root_consumed) = root_selected_counts))
     || negb (self.(selected_base_roots) =? base)
     || negb (report.(deduplicated_roots) =? expected_report_duplicates)
  then inconsistent
  else
    expected ← ok_or (checked_add self.(selected_base_roots) self.(unique_tail_roots))
      (resource "encoded root-count overflow");
    if negb (report.(roots_emitted) =? expected) then inconsistent else Ok tt.

(** The merger, from [new] to [drop]. *)
Definition join_tables `{sizes : Layout} (fuel rounds : nat) (tables : list DirectColumns)
    (limits : CanonicalMergeLimits) (closure_rule_plans root_rule_plans : list SelectedRootRulePlan)
    (node_offsets tail_offsets : list usize) (start : Join) : Cx Joined :=
  '(merger, budget) ← kway_new fuel tables limits;
  '((merger, self), budget) ←
    join_groups columns paired options closure_rule_plans root_rule_plans node_offsets tail_offsets
      fuel rounds merger start budget;
  c ← coordinates self node_offsets;
  '((unique, nodes), budget) ← assign_anonymous_positions merger c.(anonymous_nodes) budget;
  _ ← !check_counts closure_rule_plans root_rule_plans self budget.(report);
  mret {| joined := self; joined_class_nodes := c.(class_nodes); joined_anonymous_nodes := nodes;
          unique_anonymous_individuals := unique |}.

Definition global_roles (self : Join) : Cx RoleState :=
  rows ← !ok_or (checked_add (len self.(global_role_rows)) self.(global_property_chains))
    (resource role_count_overflow);
  if negb (rows =? self.(global_role_axiom_count)) then
    !Err (malformed "encoded composite role rows changed after successful preflight")
  else if options.(asserted_taxonomy_only) then mret RoleState_default
  else build_role_state_from_rows self.(global_role_rows) self.(global_role_axiom_count)
         self.(global_subrole_axioms) self.(global_inverse_axioms) retained maximum.
End composite.
