(* ===== verification/Assembly.v ===== *)
(** * The composite assembled

    The second half of [prepare_dynamic_composite_batches_with_root_uncommitted]
    of native/src/encoded_direct.rs: the roots of the tail are owned, the first
    table is prepared with the roles of all, and the deltas, the local domains and
    ranges and the annotations are added to what it counts.  The last definition
    is the whole function. *)

From S2P Require Import Prelude Errors Tags Text Readers Columns Nodes Properties Graphs Sort.
From S2P Require Import Stats Rules Partial Workspace Planning Roles Overlay Preparation LocalIndex Scoped Tail.
From S2P Require Import Preflight Budget Encode Merge Join Composite.
Local Open Scope string_scope.
Local Open Scope list_scope.
Local Open Scope N_scope.

(** ** What the deltas count *)

(** The edges of the deltas, and those of role expansion. *)
Definition delta_edges (role_state : RoleState) (options : DirectCompileOptions) (deltas : list OwnedOverlayDelta)
    : Cx (usize * usize) :=
  enumerate_checked (fun st delta =>
    '(edges, role_expansion_edges) ← edge_counts delta.(projection) role_state options;
    projection_edges ← !ok_or (checked_add st.1 edges) (resource "encoded edge-count overflow");
    role_edges ← !ok_or (checked_add st.2 role_expansion_edges)
      (resource "encoded role-expansion edge-count overflow");
    mret (projection_edges, role_edges)) (0, 0) deltas.

Definition delta_statistics (options : DirectCompileOptions) (statistics : Stats.DirectCompileStats)
    (deltas : list OwnedOverlayDelta) : Cx Stats.DirectCompileStats :=
  enumerate_checked (fun statistics delta =>
    !apply_delta_statistics delta.(projection) statistics options) statistics deltas.

(** The products with a local domain or range, their edges, and the difference. *)
Definition local_class_edges (self : DirectPreparation) (options : DirectCompileOptions) (message : string)
    : Cx (usize * usize * usize) :=
  '(additional, expanded) ←
    (if options.(asserted_taxonomy_only) then mret (0, 0) else local_object_property_class_edge_counts self);
  expansion ← !ok_or (checked_sub expanded additional) (malformed message);
  mret (additional, expanded, expansion).

Definition composite_annotation_edge_counts `{LowercaseTable} (columns : list DirectColumns)
    (annotation_roots : list CompositeRootCoordinate) (class_nodes : list CompositeNodeCoordinate)
    (maximum_iri : usize) : Cx AnnotationEdgeCounts :=
  enumerate_checked (fun counts coordinate =>
    projection ← composite_annotation_projection columns coordinate class_nodes maximum_iri;
    !count_annotation counts projection) AnnotationEdgeCounts_default annotation_roots.

Section assembly.
Context `{LowercaseTable} (columns : list DirectColumns) (root_columns : option (list DirectColumns)).
Context (options : DirectCompileOptions) (retained : option RoleState).

Abbreviation paired := (Composite.paired root_columns).
Abbreviation maximum := options.(max_iri_bytes).

(** ** The roots the tail keeps *)

Definition tail_cmp (left right : DynamicTailRootPlan) : comparison :=
  left.(tail_canonical_index) ?= right.(tail_canonical_index).

Definition kept_tail (plan : DynamicTailRootPlan) : bool :=
  negb (plan.(tail_insertion_scan_index) =? DEDUPLICATED_OVERLAY_SCAN_INDEX).

Definition retained_tail_plans (self : Join) : Cx (list DynamicTailRootPlan) :=
  plans ← cancellable_retain kept_tail self.(tail_root_plans);
  plans ← cancellable_sort_unstable_by tail_cmp plans;
  if negb (len plans =? self.(unique_tail_roots)) then
    !Err (malformed "encoded bounded merge lost a unique tail root")
  else mret plans.

(** ** What the composite owns of them *)

Section owned.
Context (closure_rule_plans : list SelectedRootRulePlan) (mapping : list (option scope_kind) * list usize).
Context (composite_anonymous_nodes : list CompositeNodeCoordinate).

Definition own_local_class (plan : DynamicTailRootPlan) (classes : list OwnedLocalObjectPropertyClass)
    : Owned (list OwnedLocalObjectPropertyClass) :=
  kind ← ⇑ok_or (ObjectPropertyClassRuleKind.from_effect plan.(tail_rule).(domain_range_effect))
    (malformed "encoded object-property class rule lost its domain/range effect");
  match plan.(tail_shape) with
  | Some (PlannedRootShape.ObjectPropertyClass None) => mret classes
  | Some (PlannedRootShape.ObjectPropertyClass (Some (property, class))) =>
      position ← ⇑ok_or (checked_add plan.(tail_insertion_scan_index) (len classes))
        (resource "encoded composite object-property class position overflow");
      property ← own_text property;
      class ← own_text class;
      mret (classes ++ [{| local_kind := kind; local_property := property; local_class := class;
                           insertion_position := position |}])
  | _ => ⇑Err lost_property_class
  end.

(** The construct of a remapped table and the rank of its scope. *)
Definition scope_context (plan : DynamicTailRootPlan) (tail_columns : DirectColumns)
    : outcome (option (scope_kind * usize)) :=
  if negb (has_anonymous_scope_map tail_columns) then Ok None else
  construct ← index mapping.1 plan.(tail_table);
  match construct with
  | None => Ok None
  | Some construct => position ← index mapping.2 plan.(tail_table); Ok (Some (construct, position))
  end.

(** A root of the tail; the state is the deltas, the local domains and ranges,
    and the position in the list. *)
Definition own_tail_step (st : list OwnedOverlayDelta * list OwnedLocalObjectPropertyClass * usize)
    (plan : DynamicTailRootPlan)
    : Owned (list OwnedOverlayDelta * list OwnedLocalObjectPropertyClass * usize) :=
  let '(deltas, classes, plan_index) := st in
  _ ← uncharged (check_cancel plan_index);
  tail_columns ← ⇑index columns plan.(tail_table);
  context ← ⇑scope_context plan tail_columns;
  classes ←
    (if bool_decide (plan.(tail_rule).(handler) = RootRuleHandler.ObjectPropertyClass)
     then own_local_class plan classes else mret classes);
  rule_plan ← ⇑index closure_rule_plans plan.(tail_table);
  projection ← own_composite_tail_projection plan.(tail_rule) plan.(tail_shape) rule_plan
    plan.(tail_root_index) tail_columns plan.(tail_node_id) maximum
    {| scope_mapped_construct := context; context_table := plan.(tail_table);
       context_anonymous_nodes := composite_anonymous_nodes |};
  mret (deltas ++ [{| projection := projection; insertion_scan_index := plan.(tail_insertion_scan_index);
                      local_canonical_index := plan.(tail_canonical_index) |}],
        classes, plan_index + 1).

Definition own_tail (unique_tail_roots : usize) (plans : list DynamicTailRootPlan)
    : Owned (list OwnedOverlayDelta * list OwnedLocalObjectPropertyClass) :=
  _ ← reserve_owned (@size_of_overlay_delta) unique_tail_roots;
  _ ← reserve_owned (@size_of_local_class) unique_tail_roots;
  '(deltas, classes, _) ← foldM own_tail_step ([], [], 0) plans;
  deltas ← uncharged (canonicalize_overlay_delta_plan deltas);
  mret (deltas, classes).
End owned.

(** ** The first table *)

Definition sole_position (mapping : list (option scope_kind) * list usize) (base : DirectColumns)
    (ids : AnonymousIds) : outcome AnonymousIds :=
  construct ← index mapping.1 0;
  if bool_decide (construct = Some ScopeMappedCompositeKind.PositiveObject)
     && has_anonymous_scope_map base then
    if negb (len ids.(node_ids) =? 1) then
      Err (malformed "encoded anonymous-scope base lost its sole anonymous individual")
    else
      position ← index mapping.2 0;
      Ok {| node_ids := ids.(node_ids); global_positions := ids.(global_positions);
            single_position := Some position |}
  else Ok ids.

(** The anonymous individuals of the first table have their positions in the
    whole composite. *)
Definition base_positions (composite_anonymous_nodes : list CompositeNodeCoordinate) (ids : AnonymousIds)
    : Owned AnonymousIds :=
  if is_empty ids.(node_ids) then mret ids else
  _ ← reserve_owned (fun _ => size_of_usize) (len ids.(node_ids));
  positions ← uncharged (enumerate_checked (fun positions node_id =>
      position ← !composite_anonymous_position composite_anonymous_nodes 0 node_id
        "encoded composite base anonymous individual lost its global position";
      mret (positions ++ [position])) [] ids.(node_ids));
  mret {| node_ids := ids.(node_ids); global_positions := Some positions; single_position := None |}.

Definition base_options : DirectCompileOptions :=
  if paired then
    {| bidirectional := options.(bidirectional);
       asserted_taxonomy_only := options.(asserted_taxonomy_only);
       only_taxonomy := options.(only_taxonomy); include_literals := false;
       max_edges := options.(max_edges); max_iri_bytes := options.(max_iri_bytes) |}
  else options.

Definition prepare_base (base_plan : SelectedRootRulePlan) (roles : RoleState)
    (mapping : list (option scope_kind) * list usize)
    (composite_anonymous_nodes : list CompositeNodeCoordinate) (classes : list OwnedLocalObjectPropertyClass)
    : Owned DirectPreparation :=
  base ← ⇑index columns 0;
  prepared ← uncharged (prepare_direct base None base_options retained (Some roles) (Some base_plan) None);
  prepared ← prepare_local_object_property_class_index
    (prepared <| local_object_property_classes := classes |>) base;
  ids ← ⇑sole_position mapping base prepared.(anonymous_ids);
  ids ← base_positions composite_anonymous_nodes ids;
  mret (prepared <| anonymous_ids := ids |>).

(** ** Statistics *)

Definition add_nodes (statistics : Stats.DirectCompileStats) (table : usize) : Cx Stats.DirectCompileStats :=
  _ ← check_cancel table;
  member ← !index columns table;
  !add_to statistics.(Stats.nodes) (node_count member) "encoded node-count overflow"
    (fun value => statistics <| Stats.nodes := value |>).

Definition add_buffers (statistics : Stats.DirectCompileStats) (table : usize) : Cx Stats.DirectCompileStats :=
  _ ← check_cancel table;
  member ← !index columns table;
  bytes ← !buffer_bytes member;
  !add_to statistics.(Stats.buffer_bytes) bytes "encoded buffer-byte total overflow"
    (fun value => statistics <| Stats.buffer_bytes := value |>).

Definition provenance_bytes (root : list DirectColumns) : outcome usize :=
  foldM (fun total member =>
    bytes ← buffer_bytes member;
    ok_or (checked_add total bytes) (resource "encoded root-provenance buffer-byte total overflow")) 0 root.

(** What the join counted. *)
Definition join_statistics (j : Joined) (annotations : AnnotationEdgeCounts)
    (statistics : Stats.DirectCompileStats) : outcome Stats.DirectCompileStats :=
  let self := j.(joined) in
  subs ← ok_or (checked_add self.(global_subrole_axioms) self.(global_property_chains))
    (resource "encoded sub-object-property count overflow");
  let statistics := statistics
    <| Stats.sub_object_properties := subs |>
    <| Stats.object_property_chains := self.(global_property_chains) |>
    <| Stats.inverse_object_properties := self.(global_inverse_axioms) |>
    <| Stats.annotation_assertions := self.(closure_annotation_assertions) |>
    <| Stats.selected_annotation_assertions :=
         if paired then len self.(annotation_roots) else self.(closure_annotation_assertions) |>
    <| Stats.annotation_edges := annotations.(annotation_edges) |>
    <| Stats.non_string_literal_renderings := annotations.(non_string_literals) |>
    <| Stats.anonymous_individuals := j.(unique_anonymous_individuals) |> in
  match root_columns with
  | Some root =>
      bytes ← provenance_bytes root;
      Ok (statistics <| Stats.root_provenance_buffer_bytes := bytes |>)
  | None => Ok statistics
  end.

Definition composite_statistics (j : Joined) (annotations : AnnotationEdgeCounts)
    (deltas : list OwnedOverlayDelta) (role_edges additional expansion projected : usize)
    (statistics : Stats.DirectCompileStats) : Cx Stats.DirectCompileStats :=
  let tail := range 1 (len columns) in
  statistics ← !add_to statistics.(Stats.roots) j.(joined).(unique_tail_roots) "encoded root-count overflow"
    (fun value => statistics <| Stats.roots := value |>);
  statistics ← foldM add_nodes statistics tail;
  statistics ← delta_statistics options statistics deltas;
  statistics ← !join_statistics j annotations statistics;
  role_expansion ← !ok_or (total ← checked_add statistics.(Stats.role_expansion_edges) role_edges;
                           checked_add total expansion)
    (resource "encoded role-expansion edge-count overflow");
  let statistics := statistics <| Stats.role_expansion_edges := role_expansion |> in
  statistics ← !add_to statistics.(Stats.domain_range_edges) additional
    "encoded domain/range edge-count overflow"
    (fun value => statistics <| Stats.domain_range_edges := value |>);
  foldM add_buffers (statistics <| Stats.edges := projected |>) tail.

(** The edges of the composite, within the limit. *)
Definition composite_edges (base_edges projection_edges expanded annotation_edge_count : usize)
    : outcome usize :=
  projected ← ok_or
    (edges ← checked_add base_edges projection_edges;
     edges ← checked_add edges expanded;
     checked_add edges annotation_edge_count) (resource "encoded edge-count overflow");
  if options.(max_edges) <? projected then
    Err (resource ("encoded bounded composite requires " +:+ pretty (projected : N)
      +:+ " edges; configured limit is " +:+ pretty (options.(max_edges) : N)))
  else Ok projected.

Definition emission_options : DirectCompileOptions :=
  if options.(asserted_taxonomy_only) then
    {| bidirectional := options.(bidirectional);
       asserted_taxonomy_only := options.(asserted_taxonomy_only);
       only_taxonomy := options.(only_taxonomy); include_literals := false;
       max_edges := options.(max_edges); max_iri_bytes := options.(max_iri_bytes) |}
  else options.

Definition assemble (prepared : DirectPreparation) (j : Joined) (deltas : list OwnedOverlayDelta)
    : Cx DirectPreparation :=
  let self := j.(joined) in
  annotations ←
    (if paired && options.(include_literals) && negb options.(asserted_taxonomy_only) then
       composite_annotation_edge_counts columns self.(annotation_roots) j.(joined_class_nodes) maximum
     else mret AnnotationEdgeCounts_default);
  '(projection_edges, role_edges) ← delta_edges prepared.(preparation_roles) options deltas;
  '(additional, expanded, expansion) ← local_class_edges prepared options
    "encoded composite domain/range counters are inconsistent";
  projected ← !composite_edges prepared.(statistics).(Stats.edges) projection_edges expanded
    annotations.(annotation_edges);
  counted ← composite_statistics j annotations deltas role_edges additional expansion projected
    prepared.(statistics);
  mret (prepared <| statistics := counted |> <| Preparation.options := emission_options |>
          <| composite_annotation_roots := self.(annotation_roots) |>
          <| composite_class_nodes := j.(joined_class_nodes) |>
          <| composite_anonymous_nodes := j.(joined_anonymous_nodes) |>
          <| overlay_deltas := deltas |>).

(** ** The whole function

    [fuel] is for the cursors of the merge, [rounds] for its groups. *)

Definition check_members : outcome unit :=
  if len columns <? 2 then
    Err (unsupported "bounded composite requires at least two retained tables")
  else if match root_columns with Some root => negb (len root =? len columns) | None => false end then
    Err (malformed "encoded composite ROOT plan must pair every closure table")
  else Ok tt.

(** The merger is charged to what the workspace has left. *)
Definition merge_limits (canonical_work : usize) : Owned CanonicalMergeLimits :=
  remaining ← remaining_for_canonical_merge;
  mret {| max_work := canonical_work; max_workspace_bytes := remaining |}.

(** Up to the merger: the plans, the mapping, the tables to merge, the limits of
    the merge, the offsets and the state the loop starts from. *)
Record Planned := {
  planned_closure : list SelectedRootRulePlan;
  planned_roots : list SelectedRootRulePlan;
  planned_tables : list DirectColumns;
  planned_mapping : list (option scope_kind) * list usize;
  planned_limits : CanonicalMergeLimits;
  planned_node_offsets : list usize;
  planned_tail_offsets : list usize;
  planned_start : Join;
}.

Definition plan_composite (max_canonical_work : usize) : Owned Planned :=
  '(closure, roots, selected_total) ← plan_tables columns root_columns options;
  tables ← merge_columns columns root_columns;
  mapping ← scope_mapping columns options closure;
  if selected_total =? 0 then
    ⇑Err (unsupported "bounded composite requires at least one selected root")
  else
    '(node_offsets, total) ← node_slots columns selected_total;
    '(plans, tail_offsets, tail_root_count) ← tail_plans columns root_columns options closure;
    work ← ⇑canonical_work tail_root_count max_canonical_work;
    _ ← reserve_owned (fun _ => size_of_usize) (len columns);
    _ ← reserve_paired columns root_columns (fun _ => size_of_usize);
    roles ← ⇑maximum_role_axioms closure;
    _ ← reserve_owned (@size_of_role_axiom) roles;
    limits ← merge_limits work;
    mret {| planned_closure := closure; planned_roots := roots; planned_tables := tables;
            planned_mapping := mapping; planned_limits := limits; planned_node_offsets := node_offsets;
            planned_tail_offsets := tail_offsets;
            planned_start := join_start columns root_columns total plans |}.

Definition run_join (layout : Layout) (fuel rounds : nat) (p : Planned) : Cx Joined :=
  join_tables (sizes:=layout) columns root_columns options fuel rounds p.(planned_tables) p.(planned_limits)
    p.(planned_closure) p.(planned_roots) p.(planned_node_offsets) p.(planned_tail_offsets) p.(planned_start).

Definition finish_composite (p : Planned) (j : Joined) : Owned DirectPreparation :=
  roles ← uncharged (global_roles options retained j.(joined));
  plans ← uncharged (retained_tail_plans j.(joined));
  '(deltas, classes) ← own_tail p.(planned_closure) p.(planned_mapping) j.(joined_anonymous_nodes)
    j.(joined).(unique_tail_roots) plans;
  base_plan ← ⇑index p.(planned_closure) 0;
  prepared ← prepare_base base_plan roles p.(planned_mapping) j.(joined_anonymous_nodes) classes;
  uncharged (assemble prepared j deltas).

Definition prepare_dynamic_composite_batches_with_root `{Layout} (fuel rounds : nat)
    (max_canonical_work max_canonical_workspace_bytes : usize) : Cx DirectPreparation :=
  _ ← !check_members;
  workspace ← !workspace_new max_canonical_workspace_bytes;
  '(p, workspace) ← plan_composite max_canonical_work workspace;
  j ← run_join workspace.(layout) fuel rounds p;
  '(prepared, _) ← finish_composite p j workspace;
  mret prepared.
End assembly.

(** [prepare_dynamic_composite_batches_uncommitted]. *)
Definition prepare_dynamic_composite_batches `{LowercaseTable} `{Layout} (columns : list DirectColumns)
    (options : DirectCompileOptions) (retained : option RoleState) (fuel rounds : nat)
    (max_canonical_work max_canonical_workspace_bytes : usize) : Cx DirectPreparation :=
  prepare_dynamic_composite_batches_with_root columns None options retained fuel rounds
    max_canonical_work max_canonical_workspace_bytes.
