(* ===== verification/Segment.v ===== *)
(** * The two-table local overlay

    [prepare_two_table_batches_uncommitted] of native/src/encoded_direct.rs: the
    roots of a local table are either one root that emits nothing, a domain and a
    range of one property, or roots that are inserted into the emission of the
    base table.  The canonical merge of the two tables says where. *)

From S2P Require Import Prelude Errors Tags Text Readers Columns Nodes Properties Generic Graphs Sort.
From S2P Require Import Stats Rules Partial Workspace Planning Roles Overlay Preparation LocalIndex Tail LocalRules.
From S2P Require Import Preflight Budget Encode Merge Join Assembly.
Local Open Scope string_scope.
Local Open Scope list_scope.
Local Open Scope N_scope.

Inductive CrossTableDuplicatePolicy := Reject.

#[export] Instance CrossTableDuplicatePolicy_eq_dec : EqDecision CrossTableDuplicatePolicy.
Proof. solve_decision. Defined.
#[export] Instance RootCounts_eq_dec : EqDecision Counts.RootCounts.
Proof. solve_decision. Defined.

(** What the merge of the two tables found so far. *)
Record Scan := {
  overlay_plan : list OwnedOverlayDelta;
  insertion_positions : list (option usize);
  left_roots : usize;
  right_roots : usize;
  unique_right_roots : usize;
  deduplicated_right_roots : usize;
  next_insertion_scan : usize;
  base_scan_index : usize;
  next_right_plan_index : usize;
  base_selected_annotation_assertion : bool;
}.

#[export] Instance Scan_eta : Eta Scan := fun s =>
  {| overlay_plan := s.(overlay_plan); insertion_positions := s.(insertion_positions);
     left_roots := s.(left_roots); right_roots := s.(right_roots);
     unique_right_roots := s.(unique_right_roots);
     deduplicated_right_roots := s.(deduplicated_right_roots);
     next_insertion_scan := s.(next_insertion_scan); base_scan_index := s.(base_scan_index);
     next_right_plan_index := s.(next_right_plan_index);
     base_selected_annotation_assertion := s.(base_selected_annotation_assertion) |}.

Definition scan_start (deltas : list OwnedOverlayDelta) : Scan :=
  {| overlay_plan := deltas; insertion_positions := [None; None]; left_roots := 0; right_roots := 0;
     unique_right_roots := 0; deduplicated_right_roots := 0; next_insertion_scan := 0;
     base_scan_index := 0; next_right_plan_index := 0; base_selected_annotation_assertion := false |}.

Section segment.
Context `{LowercaseTable} (base_columns delta_columns : DirectColumns).
Context (options : DirectCompileOptions) (retained : option RoleState).
Context (duplicate_policy : CrossTableDuplicatePolicy).

Abbreviation maximum := options.(max_iri_bytes).
Abbreviation context := (local_rule_context options false).

(** ** The guards *)

Definition check_delta : outcome unit :=
  if bool_decide (duplicate_policy = Reject)
     && (negb (is_empty delta_columns.(included_root_ids)) || negb (is_empty delta_columns.(excluded_root_ids)))
  then Err (unsupported "bounded local-overlay delta requires ALL root selection")
  else if root_count delta_columns =? 0 then
    Err (unsupported "bounded local-overlay compilation requires a nonempty local root segment")
  else Ok tt.

(** Both tables are valid; the number of selected roots of the delta. *)
Definition validate_tables : Cx usize :=
  _ ← validate_generic base_columns;
  _ ← validate_supported_nodes base_columns maximum;
  _ ← validate_generic delta_columns;
  _ ← validate_supported_nodes delta_columns maximum;
  delta_root_count ← !selected_root_count delta_columns;
  if delta_root_count =? 0 then
    !Err (unsupported "bounded two-table compilation requires at least one selected right root")
  else mret delta_root_count.

(** The loop that breaks at the first selected root. *)
Fixpoint first_selected (indexes : list usize) : Cx (option usize) :=
  match indexes with
  | [] => mret None
  | index :: indexes =>
      _ ← check_cancel index;
      selected ← !root_is_selected delta_columns index;
      if selected : bool then mret (Some index) else first_selected indexes
  end.

(** ** The kind of the delta *)

Section delta.
Context (plan : SelectedRootRulePlan) (delta_root_count delta_root_index delta_root : usize).
Context (delta_rule : RootRule).

Abbreviation delta_counts := plan.(counts).

Definition paired_object_property_class : bool :=
  (delta_root_count =? 2)
  && bool_decide (delta_counts = Counts.zero
       <| Counts.object_property_domains := 1 |> <| Counts.object_property_ranges := 1 |>).

Definition singular_emitting_delta : bool :=
  (delta_root_count =? 1) && (delta_rule.(rule_root_kind) =? ROOT_AXIOM)
  && match delta_rule.(handler) with
     | RootRuleHandler.Subclass => delta_counts.(Counts.ignored_subclasses) =? 0
     | RootRuleHandler.ClassAssertion => delta_counts.(Counts.ignored_class_assertions) =? 0
     | RootRuleHandler.ObjectPropertyAssertion | RootRuleHandler.EquivalentClasses => true
     | _ => false
     end.

Definition emitting_delta : bool :=
  negb paired_object_property_class && ((1 <? delta_root_count) || singular_emitting_delta).
Definition aggregate_or_emitting_delta : bool := paired_object_property_class || emitting_delta.

Definition local_annotation_rule : option LocalAnnotationRulePlan := annotation_from_root_rule delta_rule.
Definition local_role_rule : option LocalRoleRulePlan := role_from_root_rule delta_rule delta_counts.
Definition object_property_class_rule : option ObjectPropertyClassRulePlan :=
  class_from_root_rule delta_rule delta_counts.

Definition check_root_kind : outcome unit :=
  if negb aggregate_or_emitting_delta && negb (delta_rule.(rule_root_kind) =? ROOT_AXIOM)
     && match local_annotation_rule with None => true | Some _ => false end then
    Err (unsupported "bounded local-overlay root must be one supported axiom or ontology annotation")
  else Ok tt.

Definition silent_ignored_class_handler : option RootRuleHandler.RootRuleHandler :=
  match delta_rule.(handler) with
  | RootRuleHandler.Subclass =>
      if delta_counts.(Counts.ignored_subclasses) =? 1 then Some RootRuleHandler.Subclass else None
  | RootRuleHandler.ClassAssertion =>
      if delta_counts.(Counts.ignored_class_assertions) =? 1 then Some RootRuleHandler.ClassAssertion else None
  | _ => None
  end.

Definition silent_equivalent : bool :=
  bool_decide (delta_rule.(handler) = RootRuleHandler.EquivalentClasses).

(** ** A domain and a range *)

Abbreviation slots := (list (option ObjectPropertyClassRulePlan)
  * list (option OwnedLocalObjectPropertyClass))%type (only parsing).

Definition owned_class (value : class_kind * text * text) : outcome OwnedLocalObjectPropertyClass :=
  let '(kind, property, class) := value in
  property ← clone_text property;
  class ← clone_text class;
  Ok {| local_kind := kind; local_property := property; local_class := class; insertion_position := 0 |}.

Definition lost_shape : KernelError :=
  malformed "encoded object-property class root lost its planned semantic shape".

Definition own_paired_step (st : slots * usize) (root_index : usize) : Cx (slots * usize) :=
  let '((rules, classes), selected_index) := st in
  _ ← check_cancel root_index;
  selected ← !root_is_selected delta_columns root_index;
  if negb selected then mret st else
  root ← !root_id delta_columns root_index;
  root_rule ← !rule_at plan root_index;
  if negb (root_rule.(rule_root_kind) =? ROOT_AXIOM) then
    !Err (unsupported "bounded two-root local overlay requires axiom roots")
  else
    rule ← !ok_or (class_from_root_rule root_rule delta_counts)
      (unsupported "bounded two-root local overlay requires ObjectPropertyDomain and ObjectPropertyRange roots");
    match shape_at plan root_index with
    | Some (PlannedRootShape.ObjectPropertyClass projection) =>
        value ← validate_class_rule rule delta_columns root projection context;
        value ← !ok_or value
          (unsupported "bounded two-root local overlay requires named object properties and classes");
        if (len rules <=? selected_index) || (len classes <=? selected_index) then
          !Err (malformed "encoded right selection produced too many object-property class roots")
        else
          owned ← !owned_class value;
          next ← !ok_or (checked_add selected_index 1) (resource "encoded selected-root counter overflow");
          let at_slot := N.to_nat selected_index in
          mret ((<[at_slot := Some rule]> rules, <[at_slot := Some owned]> classes), next)
    | _ => !Err lost_shape
    end.

Definition of_kind (kind : class_kind) (classes : list (option OwnedLocalObjectPropertyClass))
    : option OwnedLocalObjectPropertyClass :=
  List.find (fun local => bool_decide (local.(local_kind) = kind)) (omap id classes).

Definition same_property (classes : list (option OwnedLocalObjectPropertyClass)) : outcome unit :=
  domain ← ok_or (of_kind ObjectPropertyClassRuleKind.Domain classes)
    (malformed "encoded two-root local overlay lost its domain");
  range ← ok_or (of_kind ObjectPropertyClassRuleKind.Range classes)
    (malformed "encoded two-root local overlay lost its range");
  if negb (bool_decide (domain.(local_property) = range.(local_property))) then
    Err (unsupported "bounded two-root local overlay requires its domain and range to use the same named object property")
  else Ok tt.

(** The slots of the delta, and what the pair puts into them. *)
Definition class_slots : Cx slots :=
  let start := ([object_property_class_rule; None], [None; None]) in
  if negb paired_object_property_class then mret start else
  '(slots, selected_index) ← foldM own_paired_step (start, 0) (range 0 (root_count delta_columns));
  if negb (selected_index =? delta_root_count) then
    !Err (malformed "encoded right selection lost an object-property class root")
  else
    _ ← !same_property slots.2;
    mret slots.

(** ** Roots that emit *)

Definition own_emitting_step (deltas : list OwnedOverlayDelta) (root_index : usize)
    : Owned (list OwnedOverlayDelta) :=
  _ ← uncharged (check_cancel root_index);
  selected ← ⇑root_is_selected delta_columns root_index;
  if negb selected then mret deltas else
  root ← ⇑root_id delta_columns root_index;
  rule ← ⇑rule_at plan root_index;
  if negb (rule.(rule_root_kind) =? ROOT_AXIOM) then
    ⇑Err (unsupported "bounded local-overlay emitting segment requires axiom roots")
  else
    projection ← own_local_emitting_projection plan root_index delta_columns root rule (shape_at plan root_index);
    mret (deltas ++ [{| projection := projection; insertion_scan_index := usize_max;
                        local_canonical_index := root_index |}]).

Definition emitting_deltas : Owned (list OwnedOverlayDelta) :=
  if negb emitting_delta then mret [] else
  _ ← reserve_owned (@size_of_overlay_delta) delta_root_count;
  deltas ← foldM own_emitting_step [] (range 0 (root_count delta_columns));
  if negb (len deltas =? delta_root_count) then
    ⇑Err (malformed "encoded right selection lost an emitting root")
  else mret deltas.

(** ** A root that emits nothing *)

(** The role axiom of the delta, and its domain or range. *)
Definition silent_delta : Cx (option RoleAxiom * option OwnedLocalObjectPropertyClass) :=
  let silent (m : Cx unit) := _ ← m; mret (None, None) in
  if aggregate_or_emitting_delta then mret (None, None) else
  match local_annotation_rule with
  | Some rule => silent (validate_annotation_rule rule delta_columns delta_root context)
  | None =>
  if bool_decide (delta_rule.(handler) = RootRuleHandler.Declaration) then
    silent (silent_declaration delta_columns delta_rule delta_root maximum)
  else match silent_ignored_class_handler with
  | Some _ => silent (silent_ignored_class delta_columns plan delta_rule delta_root_index delta_root)
  | None =>
  if silent_equivalent then
    silent (silent_ignored_equivalent delta_columns plan delta_root_index delta_root)
  else match object_property_class_rule with
  | Some rule =>
      match shape_at plan delta_root_index with
      | Some (PlannedRootShape.ObjectPropertyClass projection) =>
          value ← validate_class_rule rule delta_columns delta_root projection context;
          match value with
          | Some value => owned ← !owned_class value; mret (None, Some owned)
          | None => mret (None, None)
          end
      | _ => !Err lost_shape
      end
  | None =>
  match local_role_rule with
  | Some rule =>
      axiom ← validate_role_rule rule delta_columns delta_root (role_effect_at plan delta_root_index) context;
      mret (axiom, None)
  | None => silent (silent_root delta_columns delta_rule delta_root maximum)
  end end end end.

(** ** The work of the merge *)

Definition segment_work (max_canonical_work : usize) : outcome usize :=
  local_sort_work ←
    (if emitting_delta then
       let sort_levels := N.size (saturating_sub delta_root_count 1) in
       ok_or (work ← checked_mul delta_root_count sort_levels; checked_add work delta_root_count)
         (resource "encoded local-overlay work counter overflow")
     else Ok 0);
  ok_or (remaining ← checked_sub max_canonical_work local_sort_work;
         if remaining =? 0 then None else Some remaining)
    (resource ("encoded canonical comparison requires more than "
      +:+ pretty (max_canonical_work : N) +:+ " work units")).

(** ** The merge *)

Definition inconsistent_root : KernelError :=
  malformed "encoded local-overlay merge produced an inconsistent local root".
Definition counter_overflow : KernelError := resource "encoded local-overlay root counter overflow".
Definition composite_counter_overflow : KernelError := resource "encoded composite root counter overflow".
Definition position_overflow : KernelError := resource "encoded local-overlay root position overflow".
Definition composite_position_overflow : KernelError := resource "encoded composite root position overflow".
Definition selected_counter_overflow : KernelError := resource "encoded selected-root counter overflow".

(** [root.index.checked_add(1).and_then(|position| position.checked_add(unique_right_roots))]. *)
Definition after_base_root (index unique : usize) (error : KernelError) : outcome usize :=
  ok_or (position ← checked_add index 1; checked_add position unique) error.

(** The annotation assertions of the base, when literals are included. *)
Definition scan_annotation (base_plan : SelectedRootRulePlan) (root : CanonicalRootRef) (self : Scan)
    : outcome Scan :=
  annotation ←
    (if options.(include_literals) then
       rule ← rule_at base_plan root.(root_index);
       Ok (bool_decide (rule.(handler) = RootRuleHandler.AnnotationAssertion))
     else Ok false);
  Ok (self <| base_selected_annotation_assertion :=
                self.(base_selected_annotation_assertion) || annotation |>).

(** The delta at the plan's cursor has its place. *)
Definition place_delta (root_index place : usize) (missing reordered repeated : KernelError) (self : Scan)
    : outcome Scan :=
  let plan := self.(overlay_plan) in
  match get plan self.(next_right_plan_index) with
  | None => Err missing
  | Some delta =>
      if negb (delta.(local_canonical_index) =? root_index) then Err reordered
      else if negb (delta.(insertion_scan_index) =? usize_max) then Err repeated
      else
        let placed := {| projection := delta.(projection); insertion_scan_index := place;
                         local_canonical_index := delta.(local_canonical_index) |} in
        Ok (self <| overlay_plan := <[N.to_nat self.(next_right_plan_index) := placed]> plan |>)
  end.

(** The slot at the plan's cursor has its position. *)
Definition place_position (self : Scan) : outcome Scan :=
  let positions := self.(insertion_positions) in
  match get positions self.(next_right_plan_index) with
  | None => Err inconsistent_root
  | Some (Some _) => Err (malformed "encoded local-overlay merge produced a duplicate local root")
  | Some None =>
      Ok (self <| insertion_positions :=
        <[N.to_nat self.(next_right_plan_index) := Some self.(next_insertion_scan)]> positions |>)
  end.

Definition next_plan (self : Scan) : outcome Scan :=
  next ← ok_or (checked_add self.(next_right_plan_index) 1) selected_counter_overflow;
  Ok (self <| next_right_plan_index := next |>).

Definition scan_left (base_plan : SelectedRootRulePlan) (self : Scan) (root : CanonicalRootRef) : outcome Scan :=
  self ← scan_annotation base_plan root self;
  left ← ok_or (checked_add self.(left_roots) 1) counter_overflow;
  scan ← after_base_root root.(root_index) self.(unique_right_roots) position_overflow;
  base ← ok_or (checked_add root.(root_index) 1) position_overflow;
  Ok (self <| left_roots := left |> <| next_insertion_scan := scan |> <| base_scan_index := base |>).

Definition scan_right (self : Scan) (root : CanonicalRootRef) : outcome Scan :=
  self ←
    (if emitting_delta then
       place_delta root.(root_index) self.(base_scan_index) inconsistent_root
         (malformed "encoded local-overlay merge reordered its selected local roots")
         (malformed "encoded local-overlay merge produced a duplicate local root") self
     else place_position self);
  self ← next_plan self;
  right ← ok_or (checked_add self.(right_roots) 1) counter_overflow;
  unique ← ok_or (checked_add self.(unique_right_roots) 1) counter_overflow;
  scan ← ok_or (checked_add self.(next_insertion_scan) 1) position_overflow;
  Ok (self <| right_roots := right |> <| unique_right_roots := unique |> <| next_insertion_scan := scan |>).

Definition scan_both (base_plan : SelectedRootRulePlan) (self : Scan) (left right : CanonicalRootRef)
    : outcome Scan :=
  self ← scan_annotation base_plan left self;
  if bool_decide (duplicate_policy = Reject) then
    Err (unsupported "bounded local-overlay root duplicates its direct source")
  else if negb emitting_delta then
    Err (unsupported "bounded two-member composite structural deduplication requires emitting roots")
  else
    self ← place_delta right.(root_index) DEDUPLICATED_OVERLAY_SCAN_INDEX
             (malformed "encoded composite merge produced an inconsistent duplicate root")
             (malformed "encoded composite merge reordered its selected duplicate roots")
             (malformed "encoded composite merge repeated a duplicate root") self;
    self ← next_plan self;
    left_count ← ok_or (checked_add self.(left_roots) 1) composite_counter_overflow;
    right_count ← ok_or (checked_add self.(right_roots) 1) composite_counter_overflow;
    deduplicated ← ok_or (checked_add self.(deduplicated_right_roots) 1)
      (resource "encoded deduplicated-root counter overflow");
    scan ← after_base_root left.(root_index) self.(unique_right_roots) composite_position_overflow;
    base ← ok_or (checked_add left.(root_index) 1) composite_position_overflow;
    Ok (self <| left_roots := left_count |> <| right_roots := right_count |>
             <| deduplicated_right_roots := deduplicated |> <| next_insertion_scan := scan |>
             <| base_scan_index := base |>).

Definition scan_root (base_plan : SelectedRootRulePlan) (self : Scan) (root : MergedCanonicalRoot)
    : outcome Scan :=
  match root with
  | MergedLeft root => scan_left base_plan self root
  | MergedRight root => scan_right self root
  | MergedBoth left right => scan_both base_plan self left right
  end.

Fixpoint scan_roots `{Layout} (fuel rounds : nat) (base_plan : SelectedRootRulePlan)
    (merger : CanonicalRootMerger) (self : Scan) : Bud Scan :=
  match rounds with
  | O => ⇑OutOfFuel
  | S rounds =>
      '(root, merger) ← merger_next fuel merger;
      match root with
      | None => mret self
      | Some root => self ← ⇑scan_root base_plan self root; scan_roots fuel rounds base_plan merger self
      end
  end.

Definition lost_local_root (self : Scan) : outcome bool :=
  if emitting_delta then
    Ok (existsb (fun delta => delta.(insertion_scan_index) =? usize_max) self.(overlay_plan))
  else if len self.(insertion_positions) <? delta_root_count then Panic
  else Ok (existsb (fun position => match position with None => true | Some _ => false end)
             (take (N.to_nat delta_root_count) self.(insertion_positions))).

Definition check_scan (self : Scan) (report : CanonicalMergeReport) : outcome unit :=
  lost ← lost_local_root self;
  if negb (self.(right_roots) =? delta_root_count) || negb (self.(next_right_plan_index) =? delta_root_count)
     || lost then
    Err (malformed "encoded local-overlay merge lost a local root")
  else
    selected_base_roots ← selected_root_count base_columns;
    let inconsistent := Err (malformed "encoded local-overlay merge produced inconsistent root counts") in
    if negb (self.(left_roots) =? selected_base_roots) then inconsistent
    else if negb (report.(deduplicated_roots) =? self.(deduplicated_right_roots)) then inconsistent
    else
      expected ← ok_or (checked_add selected_base_roots self.(unique_right_roots))
        (resource "encoded root-count overflow");
      if negb (report.(roots_emitted) =? expected) then inconsistent
      else if self.(base_selected_annotation_assertion) then
        Err (unsupported "bounded segmented literal projection requires annotation-assertion-free selected roots")
      else Ok tt.

(** The merger, from [new] to [drop]. *)
Definition scan_tables `{sizes : Layout} (fuel rounds : nat) (limits : CanonicalMergeLimits)
    (base_plan : SelectedRootRulePlan) (deltas : list OwnedOverlayDelta) : Cx Scan :=
  '(merger, budget) ← root_merger_start fuel base_columns delta_columns limits;
  '(self, budget) ← scan_roots fuel rounds base_plan merger (scan_start deltas) budget;
  _ ← !check_scan self budget.(report);
  mret self.

Definition kept_delta (delta : OwnedOverlayDelta) : bool :=
  negb (delta.(insertion_scan_index) =? DEDUPLICATED_OVERLAY_SCAN_INDEX).

Definition retained_deltas (self : Scan) : Cx (list OwnedOverlayDelta) :=
  deltas ← cancellable_retain kept_delta self.(overlay_plan);
  canonicalize_overlay_delta_plan deltas.

(** ** The local domains and ranges *)

Definition place_class (self : Scan) (st : list (option OwnedLocalObjectPropertyClass) * usize)
    (local : option OwnedLocalObjectPropertyClass)
    : outcome (list (option OwnedLocalObjectPropertyClass) * usize) :=
  let '(classes, slot) := st in
  match local with
  | None => Ok (classes ++ [None], slot + 1)
  | Some local =>
      position ← index self.(insertion_positions) slot;
      position ← ok_or position
        (malformed "encoded local-overlay object-property class lost its insertion position");
      Ok (classes ++ [Some {| local_kind := local.(local_kind); local_property := local.(local_property);
                              local_class := local.(local_class); insertion_position := position |}], slot + 1)
  end.

Definition place_classes (self : Scan) (classes : list (option OwnedLocalObjectPropertyClass))
    : Owned (list OwnedLocalObjectPropertyClass) :=
  '(classes, _) ← ⇑foldM (place_class self) ([], 0) classes;
  _ ← reserve_owned (@size_of_local_class) (len (omap id classes));
  uncharged (enumerate_checked (fun prepared local =>
    mret (match local with Some local => prepared ++ [local] | None => prepared end)) [] classes).

Definition place_axiom (self : Scan) (axiom : option RoleAxiom) : outcome (option RoleAxiom) :=
  first ← index self.(insertion_positions) 0;
  match axiom with
  | None => Ok None
  | Some axiom =>
      Ok (Some {| role_tag := axiom.(role_tag); role_first := axiom.(role_first);
                  role_second := axiom.(role_second); spread := axiom.(spread);
                  canonical_order := default 0 first; source_order := axiom.(source_order) |})
  end.

(** ** Statistics *)

Definition bump_ignored (statistics : Stats.DirectCompileStats) : outcome Stats.DirectCompileStats :=
  statistics ←
    match silent_ignored_class_handler with
    | Some RootRuleHandler.Subclass =>
        bump statistics.(Stats.ignored_subclasses) "encoded ignored-subclass count overflow"
          (fun value => statistics <| Stats.ignored_subclasses := value |>)
    | Some RootRuleHandler.ClassAssertion =>
        bump statistics.(Stats.ignored_class_assertions) "encoded ignored-class-assertion count overflow"
          (fun value => statistics <| Stats.ignored_class_assertions := value |>)
    | _ => Ok statistics
    end;
  if silent_equivalent && negb options.(asserted_taxonomy_only) then
    bump statistics.(Stats.ignored_equivalents) "encoded ignored-equivalent count overflow"
      (fun value => statistics <| Stats.ignored_equivalents := value |>)
  else Ok statistics.

Definition silent_statistics (rules : list (option ObjectPropertyClassRulePlan))
    (statistics : Stats.DirectCompileStats) : outcome Stats.DirectCompileStats :=
  if emitting_delta then Ok statistics else
  match local_annotation_rule with
  | Some rule => apply_annotation_statistics rule statistics
  | None =>
      match omap id rules with
      | _ :: _ as rules => foldM (fun statistics rule => apply_class_statistics rule statistics) statistics rules
      | [] =>
          match local_role_rule with
          | Some rule => apply_role_statistics rule statistics
          | None => statistics ← apply_statistics delta_rule statistics options; bump_ignored statistics
          end
      end
  end.

Definition segment_edges (base_edges projection_edges expanded : usize) : outcome usize :=
  let overflow := resource "encoded edge-count overflow" in
  additional ← ok_or (checked_add projection_edges expanded) overflow;
  projected ← ok_or (checked_add base_edges additional) overflow;
  if options.(max_edges) <? projected then
    Err (resource ("encoded local-overlay batch requires " +:+ pretty (projected : N)
      +:+ " edges; configured limit is " +:+ pretty (options.(max_edges) : N)))
  else Ok projected.

Definition segment_statistics (unique : usize) (deltas : list OwnedOverlayDelta)
    (rules : list (option ObjectPropertyClassRulePlan)) (role_edges additional expansion projected : usize)
    (statistics : Stats.DirectCompileStats) : Cx Stats.DirectCompileStats :=
  let expansion_overflow := "encoded role-expansion edge-count overflow" in
  statistics ← !add_to statistics.(Stats.roots) unique "encoded root-count overflow"
    (fun value => statistics <| Stats.roots := value |>);
  statistics ← !add_to statistics.(Stats.nodes) (node_count delta_columns) "encoded node-count overflow"
    (fun value => statistics <| Stats.nodes := value |>);
  statistics ← delta_statistics options statistics deltas;
  statistics ← !add_to statistics.(Stats.role_expansion_edges) role_edges expansion_overflow
    (fun value => statistics <| Stats.role_expansion_edges := value |>);
  statistics ← !silent_statistics rules statistics;
  statistics ← !add_to statistics.(Stats.domain_range_edges) additional "encoded domain/range edge-count overflow"
    (fun value => statistics <| Stats.domain_range_edges := value |>);
  statistics ← !add_to statistics.(Stats.role_expansion_edges) expansion expansion_overflow
    (fun value => statistics <| Stats.role_expansion_edges := value |>);
  let statistics := statistics <| Stats.edges := projected |> in
  bytes ← !buffer_bytes delta_columns;
  !add_to statistics.(Stats.buffer_bytes) bytes "encoded buffer-byte total overflow"
    (fun value => statistics <| Stats.buffer_bytes := value |>).

Definition add_segment (prepared : DirectPreparation) (unique : usize) (deltas : list OwnedOverlayDelta)
    (rules : list (option ObjectPropertyClassRulePlan)) : Cx DirectPreparation :=
  '(projection_edges, role_edges) ← delta_edges prepared.(preparation_roles) options deltas;
  '(additional, expanded, expansion) ← local_class_edges prepared options
    "encoded local domain/range edge counters are inconsistent";
  projected ← !segment_edges prepared.(statistics).(Stats.edges) projection_edges expanded;
  counted ← segment_statistics unique deltas rules role_edges additional expansion projected
    prepared.(statistics);
  mret (prepared <| statistics := counted |> <| overlay_deltas := deltas |>).

(** The base table with what the delta adds to its preparation. *)
Definition prepare_with_base (base_plan : SelectedRootRulePlan) (axiom : option RoleAxiom)
    (classes : list OwnedLocalObjectPropertyClass) : Owned DirectPreparation :=
  prepared ← uncharged (prepare_direct base_columns None options retained None (Some base_plan) axiom);
  prepare_local_object_property_class_index
    (prepared <| local_object_property_classes := classes |>) base_columns.

(** From the plans on. *)
Definition prepare_segment `{Layout} (fuel rounds : nat) (base_plan : SelectedRootRulePlan)
    (max_canonical_work : usize) : Owned DirectPreparation :=
  _ ← ⇑check_root_kind;
  '(rules, classes) ← uncharged class_slots;
  deltas ← emitting_deltas;
  '(axiom, class) ← uncharged silent_delta;
  let classes := match class with Some class => <[0%nat := Some class]> classes | None => classes end in
  work ← ⇑segment_work max_canonical_work;
  remaining ← remaining_for_canonical_merge;
  self ← uncharged (scan_tables fuel rounds {| max_work := work; max_workspace_bytes := remaining |}
                      base_plan deltas);
  deltas ← uncharged (retained_deltas self);
  axiom ← ⇑place_axiom self axiom;
  classes ← place_classes self classes;
  prepared ← prepare_with_base base_plan axiom classes;
  uncharged (add_segment prepared self.(unique_right_roots) deltas rules).
End delta.

(** ** The whole function *)

Definition lost_selection : KernelError :=
  malformed "encoded right selection lost its first selected root".

Definition plan_and_prepare `{Layout} (fuel rounds : nat) (max_canonical_work delta_root_count : usize)
    : Owned DirectPreparation :=
  base_plan ← resolve_selected_root_rule_plan base_columns maximum;
  plan ← resolve_selected_root_rule_plan delta_columns maximum;
  first ← uncharged (first_selected (range 0 (root_count delta_columns)));
  delta_root_index ← ⇑ok_or first lost_selection;
  delta_root ← ⇑root_id delta_columns delta_root_index;
  delta_rule ← ⇑rule_at plan delta_root_index;
  prepare_segment plan delta_root_count delta_root_index delta_root delta_rule fuel rounds base_plan
    max_canonical_work.

Definition prepare_two_table_batches `{Layout} (fuel rounds : nat)
    (max_canonical_work max_canonical_workspace_bytes : usize) : Cx DirectPreparation :=
  _ ← !check_delta;
  delta_root_count ← validate_tables;
  workspace ← !workspace_new max_canonical_workspace_bytes;
  '(prepared, _) ← plan_and_prepare fuel rounds max_canonical_work delta_root_count workspace;
  mret prepared.
End segment.

(** [prepare_single_overlay_delta_batches_uncommitted]. *)
Definition prepare_single_overlay_delta_batches `{LowercaseTable} `{Layout}
    (base_columns delta_columns : DirectColumns) (options : DirectCompileOptions) (retained : option RoleState)
    (fuel rounds : nat) (max_canonical_work max_canonical_workspace_bytes : usize) : Cx DirectPreparation :=
  prepare_two_table_batches base_columns delta_columns options retained Reject fuel rounds
    max_canonical_work max_canonical_workspace_bytes.
