(* ===== verification/Retained.v ===== *)
(** * What a compiler retains

    The buffers that an [EncodedDirectCompiler] (native/src/lib.rs) keeps between
    its calls, the columns it reads them as, and the kernel function a call runs
    over them: one table, a local overlay, or a composite.  The Python views and
    owners next to the buffers only keep them alive and are not modelled, except
    where the code asks whether there is one.  A retained buffer is its slice;
    the constructor retains a table as [BUFFER_COUNT] of them. *)

From stdpp Require Import vector.
From S2P Require Import Prelude Errors Text Columns Stats Rules Workspace Roles Emission Preparation Preflight Cursor.
From S2P Require Import Merge Assembly Segment.
Local Open Scope string_scope.
Local Open Scope list_scope.
Local Open Scope N_scope.

Definition BUFFER_COUNT : usize := 11.

(** Eleven retained buffers. *)
Definition RetainedBuffers := vec bytes (N.to_nat BUFFER_COUNT).

(** [DirectColumns::from_ordered(array::from_fn(|index| buffers[index].as_slice()))]. *)
Definition ordered_columns (buffers : RetainedBuffers) : DirectColumns := {|
  root_kinds := buffers !!! 0%fin; root_ids := buffers !!! 1%fin;
  included_root_ids := []; excluded_root_ids := [];
  anonymous_scope_map := []; anonymous_scope_map_chain := None;
  node_tags := buffers !!! 2%fin; node_field_offsets := buffers !!! 3%fin;
  field_kinds := buffers !!! 4%fin; field_values := buffers !!! 5%fin; field_lengths := buffers !!! 6%fin;
  item_kinds := buffers !!! 7%fin; item_values := buffers !!! 8%fin; item_lengths := buffers !!! 9%fin;
  scalar_bytes := buffers !!! 10%fin;
|}.

Lemma ordered_columns_from_ordered (buffers : RetainedBuffers) :
  from_ordered (vec_to_list buffers) = Some (ordered_columns buffers).
Proof. cbn in buffers. repeat inv_vec buffers; intros. done. Qed.

Record RetainedCompositeRootMember := {
  root_buffers : RetainedBuffers;
  root_included : option bytes;
  root_excluded : option bytes;
  root_scope_maps : list bytes;
}.

Record RetainedCompositeMember := {
  member_buffers : option RetainedBuffers;
  member_included : option bytes;
  member_excluded : option bytes;
  member_scope_maps : list bytes;
  member_root : option RetainedCompositeRootMember;
}.

Record EncodedDirectCompiler := {
  compiler_buffers : RetainedBuffers;
  overlay_delta_buffers : option RetainedBuffers;
  third_member_buffers : option RetainedBuffers;
  fourth_member_buffers : option RetainedBuffers;
  nested_member_view : bool;
  merge_manifest_view : bool;
  composite_members : option (list RetainedCompositeMember);
  canonical_merge_limits : option (usize * usize);
  compiler_included : option bytes;
  compiler_excluded : option bytes;
  right_excluded : option bytes;
  third_excluded : option bytes;
  fourth_excluded : option bytes;
  compiler_scope_map : option bytes;
  right_scope_map : option bytes;
  root_annotation_buffers : option RetainedBuffers;
}.

(** [.map_or(&[][..], RetainedDirectBuffer::as_slice)]. *)
Definition slice_of (buffer : option bytes) : bytes := default [] buffer.

Definition with_selection (self : DirectColumns) (included excluded : option bytes) : DirectColumns :=
  with_excluded_root_ids (with_included_root_ids self (slice_of included)) (slice_of excluded).

Record DynamicCompositeColumns := {
  closure : list DirectColumns;
  composite_root : option (list DirectColumns);
}.

Record Sources := {
  source_composite : option DynamicCompositeColumns;
  source_columns : DirectColumns;
}.

Section retained.
Context (self : EncodedDirectCompiler).

Definition retained_base_columns (base_columns : DirectColumns) : PyResult DirectColumns :=
  match self.(composite_members) with
  | Some [] => inr (PyRuntimeError "encoded dynamic composite lost its base member")
  | Some (first :: _) =>
      match first.(member_buffers) with
      | Some _ => inr (PyRuntimeError "encoded dynamic composite duplicated its base buffers")
      | None =>
          inl (with_anonymous_scope_map_chain
            (with_selection base_columns first.(member_included) first.(member_excluded))
            (RetainedAnonymousScopeMaps first.(member_scope_maps)))
      end
  | None =>
      inl (with_anonymous_scope_map
        (with_selection base_columns self.(compiler_included) self.(compiler_excluded))
        (slice_of self.(compiler_scope_map)))
  end.

(** A member of the composite; the first has the compiler's own buffers. *)
Definition composite_member_columns (base_columns : DirectColumns) (first : bool)
    (member : RetainedCompositeMember) : PyResult DirectColumns :=
  let columns :=
    if first then retained_base_columns base_columns
    else match member.(member_buffers) with
      | Some buffers => inl (ordered_columns buffers)
      | None => inr (PyRuntimeError "encoded dynamic composite lost a member table")
      end in
  match columns with
  | inr error => inr error
  | inl columns =>
      inl (with_anonymous_scope_map_chain
        (with_selection columns member.(member_included) member.(member_excluded))
        (RetainedAnonymousScopeMaps member.(member_scope_maps)))
  end.

Fixpoint member_columns (base_columns : DirectColumns) (first : bool) (members : list RetainedCompositeMember)
    : PyResult (list DirectColumns) :=
  match members with
  | [] => inl []
  | member :: members =>
      match composite_member_columns base_columns first member with
      | inr error => inr error
      | inl columns =>
          match member_columns base_columns false members with
          | inr error => inr error
          | inl rest => inl (columns :: rest)
          end
      end
  end.

Fixpoint root_member_columns (members : list RetainedCompositeMember) : PyResult (list DirectColumns) :=
  match members with
  | [] => inl []
  | member :: members =>
      match member.(member_root) with
      | None => inr (PyRuntimeError "encoded dynamic composite lost one paired ROOT member")
      | Some root =>
          let columns := with_anonymous_scope_map_chain
            (with_selection (ordered_columns root.(root_buffers)) root.(root_included) root.(root_excluded))
            (RetainedAnonymousScopeMaps root.(root_scope_maps)) in
          match root_member_columns members with
          | inr error => inr error
          | inl rest => inl (columns :: rest)
          end
      end
  end.

Definition has_root (members : list RetainedCompositeMember) : bool :=
  existsb (fun member => bool_decide (is_Some member.(member_root))) members.

Definition dynamic_composite_columns (base_columns : DirectColumns) : PyResult (option DynamicCompositeColumns) :=
  match self.(composite_members) with
  | None => inl None
  | Some members =>
      match member_columns base_columns true members with
      | inr error => inr error
      | inl columns =>
          if has_root members then
            match root_member_columns members with
            | inr error => inr error
            | inl root => inl (Some {| closure := columns; composite_root := Some root |})
            end
          else inl (Some {| closure := columns; composite_root := None |})
      end
  end.

(** ** The other tables of a call *)

Definition overlay_delta_columns : option DirectColumns :=
  buffers ← self.(overlay_delta_buffers);
  let scope_map := if self.(nested_member_view) then [] else slice_of self.(right_scope_map) in
  Some (with_anonymous_scope_map (with_excluded_root_ids (ordered_columns buffers) (slice_of self.(right_excluded))) scope_map).

Definition third_member_columns : option DirectColumns :=
  buffers ← self.(third_member_buffers);
  let scope_map := if self.(nested_member_view) then slice_of self.(right_scope_map) else [] in
  Some (with_anonymous_scope_map (with_excluded_root_ids (ordered_columns buffers) (slice_of self.(third_excluded))) scope_map).

Definition fourth_member_columns : option DirectColumns :=
  buffers ← self.(fourth_member_buffers);
  Some (with_excluded_root_ids (ordered_columns buffers) (slice_of self.(fourth_excluded))).

(** What a compilation reads, and what a drain reads. *)
Definition compile_sources : PyResult Sources :=
  match dynamic_composite_columns (ordered_columns self.(compiler_buffers)) with
  | inr error => inr error
  | inl composite =>
      match retained_base_columns (ordered_columns self.(compiler_buffers)) with
      | inr error => inr error
      | inl columns => inl {| source_composite := composite; source_columns := columns |}
      end
  end.

Definition drain_sources : PyResult Sources :=
  match retained_base_columns (ordered_columns self.(compiler_buffers)) with
  | inr error => inr error
  | inl columns =>
      match dynamic_composite_columns columns with
      | inr error => inr error
      | inl composite => inl {| source_composite := composite; source_columns := columns |}
      end
  end.

(** ** The kernel's functions *)

(** The tables of a merge manifest; [&composite_columns[..member_count]]. *)
Definition manifest_columns (columns delta : DirectColumns) : list DirectColumns :=
  let member_count := 2 + (if third_member_columns then 1 else 0) + (if fourth_member_columns then 1 else 0) in
  take (N.to_nat member_count)
    [columns; delta; default columns third_member_columns; default columns fourth_member_columns].

(** The preparation a compilation runs, with the role state of its caller; a
    [PyErr] before the kernel is entered.  [fuel] and [rounds] are for merges. *)
Definition prepare_sources `{LowercaseTable} `{Layout} (fuel rounds : nat) (s : Sources)
    (options : DirectCompileOptions) (roles : option RoleState) : PyResult (Cx DirectPreparation) :=
  match s.(source_composite), overlay_delta_columns with
  | Some composite, _ =>
      match self.(canonical_merge_limits) with
      | None => inr (PyRuntimeError "encoded dynamic composite lost its canonical limits")
      | Some (max_work, max_workspace_bytes) =>
          inl (prepare_dynamic_composite_batches_with_root composite.(closure) composite.(composite_root)
                 options roles fuel rounds max_work max_workspace_bytes)
      end
  | None, Some delta =>
      match self.(canonical_merge_limits) with
      | None => inr (PyRuntimeError "encoded local-overlay compiler lost its canonical limits")
      | Some (max_work, max_workspace_bytes) =>
          if self.(merge_manifest_view) then
            inl (prepare_dynamic_composite_batches (manifest_columns s.(source_columns) delta) options roles
                   fuel rounds max_work max_workspace_bytes)
          else
            inl (prepare_single_overlay_delta_batches s.(source_columns) delta options roles
                   fuel rounds max_work max_workspace_bytes)
      end
  | None, None => inl (prepare_direct s.(source_columns) (ordered_columns <$> self.(root_annotation_buffers)) options roles None None None)
  end.

(** ** Selecting twice *)

Lemma retained_base_columns_again base columns :
  retained_base_columns base = inl columns -> retained_base_columns columns = retained_base_columns base.
Proof using Type.
  intros E. pose proof E as E'. unfold retained_base_columns in E |- *.
  repeat case_match; simplify_eq/=; done.
Qed.

Lemma member_columns_again base columns first members :
  retained_base_columns base = inl columns ->
  member_columns columns first members = member_columns base first members.
Proof using Type.
  intros E%retained_base_columns_again. revert first.
  induction members as [|member members IH]; intros first; [done|]. cbn.
  unfold composite_member_columns. by rewrite E, IH.
Qed.

(** A drain, which selects the roots of the base before it reads the members,
    reads what the compilation read. *)
Lemma drain_sources_eq : drain_sources = compile_sources.
Proof using Type.
  unfold drain_sources, compile_sources, dynamic_composite_columns.
  destruct (retained_base_columns (ordered_columns self.(compiler_buffers))) as [columns|error] eqn:E.
  - destruct (composite_members self) as [members|]; [|done]. by rewrite (member_columns_again _ _ _ _ E).
  - destruct (composite_members self) as [[|member members]|]; [done| |done].
    cbn. unfold composite_member_columns. by rewrite E.
Qed.
End retained.

(** The next batch of a prepared stream. *)
Definition next_source_batch `{LowercaseTable} (s : Sources) (P : DirectPreparation) (fuel : nat)
    (cursor : DirectEmissionCursor) (batch : usize) : Cx (list DirectEdge * DirectEmissionCursor) :=
  match s.(source_composite) with
  | Some composite => prepare_next_composite_batch composite.(closure) P fuel cursor batch
  | None => prepare_next_batch s.(source_columns) None P fuel cursor batch
  end.

(** ** The number of retained buffers *)

Definition table_buffers (buffers : option RetainedBuffers) : usize := if buffers then BUFFER_COUNT else 0.
Definition one_buffer (buffer : option bytes) : usize := if buffer then 1 else 0.

Definition composite_member_buffers (member : RetainedCompositeMember) : usize :=
  table_buffers member.(member_buffers) +w one_buffer member.(member_included)
  +w one_buffer member.(member_excluded) +w len member.(member_scope_maps)
  +w match member.(member_root) with
     | None => 0
     | Some root =>
         BUFFER_COUNT +w one_buffer root.(root_included) +w one_buffer root.(root_excluded)
         +w len root.(root_scope_maps)
     end.

Definition retained_buffer_count (self : EncodedDirectCompiler) : usize :=
  let composite_buffers := foldl (fun total member => total +w composite_member_buffers member) 0
    (default [] self.(composite_members)) in
  BUFFER_COUNT +w table_buffers self.(overlay_delta_buffers) +w table_buffers self.(third_member_buffers)
  +w table_buffers self.(fourth_member_buffers) +w composite_buffers
  +w table_buffers self.(root_annotation_buffers)
  +w one_buffer self.(compiler_included) +w one_buffer self.(compiler_excluded)
  +w one_buffer self.(right_excluded) +w one_buffer self.(third_excluded) +w one_buffer self.(fourth_excluded)
  +w one_buffer self.(compiler_scope_map) +w one_buffer self.(right_scope_map).
