(* ===== verification/Objects.v ===== *)
(** * Encoded views

    What native/src/lib.rs reads out of Python: the attributes of an encoded
    view, its eleven buffers and its segments.  [Python] is the interface of the
    objects, one operation per method of PyO3 that the code calls; the identity
    of objects ([Bound::is], [as_ptr]) is equality.  The encoded views are
    immutable values of pyowl-core, so an operation is a function of its object.
    [MemoryLaws] are the laws of memoryviews that the code relies on: with them
    every retained buffer holds the bytes that its memoryview shows.  [Heap] is a
    concrete heap of objects, which has the laws. *)

From stdpp Require Import strings.
From S2P Require Import Prelude Errors Lists Text Readers Columns Retained.
Local Open Scope string_scope.
Local Open Scope list_scope.
Local Open Scope N_scope.

(** ** Python objects *)

Class Python := {
  object : Type;
  object_eq_dec :: EqDecision object;
  getattr : object -> string -> option object;
  is_none : object -> bool;
  (** [is_exact_instance_of::<PyInt>] and [extract] *)
  is_exact_int : object -> bool;
  extract_usize : object -> option usize;
  extract_bool : object -> option bool;
  extract_string : object -> option string;
  (** the content of an exact [bytes], the items of an exact [tuple] *)
  exact_bytes : object -> option bytes;
  exact_tuple : object -> option (list object);
  is_exact_memoryview : object -> bool;
  object_len : object -> option usize;
  (** [cast::<PyMapping>] and its items *)
  is_mapping : object -> bool;
  get_item : object -> string -> option object;
  (** [memoryview(exporter)[start:end]] and [==] *)
  memoryview_of : object -> option object;
  memoryview_slice : object -> usize -> usize -> option object;
  object_eq : object -> object -> option bool;
}.

(** The [?] of [PyResult]. *)
Definition Py (A : Type) : Type := PyResult A.

#[export] Instance Py_ret : MRet Py := fun A x => inl x.
#[export] Instance Py_bind : MBind Py := fun A B f m =>
  match m with inl x => f x | inr error => inr error end.

(** [.ok_or] and [.map_err(|_| ..)]; [if condition { return Err(..) }]. *)
Definition or_else {A} (value : option A) (error : PyErr) : Py A :=
  match value with Some value => inl value | None => inr error end.
Definition reject (condition : bool) (error : PyErr) : Py unit :=
  if condition then inr error else inl tt.

Lemma Py_bind_inl {A B} (m : Py A) (f : A -> Py B) b : m ≫= f = inl b -> exists a, m = inl a /\ f a = inl b.
Proof. destruct m; cbn; [eauto|done]. Qed.
Lemma or_else_inl {A} (value : option A) error a : or_else value error = inl a -> value = Some a.
Proof. destruct value; cbn; congruence. Qed.
Lemma reject_inl condition error u : reject condition error = inl u -> condition = false.
Proof. by destruct condition. Qed.

(** Take a chain of [?] apart. *)
Ltac py_inv :=
  repeat match goal with
  | H : (_ ≫= _) = inl _ |- _ => apply Py_bind_inl in H as (?&?&H)
  | H : (let '(_, _) := ?p in _) = inl _ |- _ => destruct p
  | H : or_else _ _ = inl _ |- _ => apply or_else_inl in H
  | H : reject _ _ = inl _ |- _ => apply reject_inl in H
  | H : @mret Py _ _ _ = inl _ |- _ => injection H as H
  | H : inl _ = inl _ |- _ => injection H as H
  | H : inr _ = inl _ |- _ => discriminate H
  end.

(** Run a chain of [?] whose results are known. *)
Ltac py_run :=
  repeat match goal with
  | H : ?m = inl _ |- context [mbind _ ?m] => rewrite H; cbn [mbind Py_bind]
  | H : ?b = false |- context [reject ?b _] => rewrite H; cbn [reject mbind Py_bind]
  end.

(** ** Loops of [?] *)

Lemma Py_foldM_ind {A S} (f : S -> A -> Py S) (I : list A -> S -> Prop) l s s' :
  foldM f s l = inl s' -> I [] s ->
  (forall done x s s', I done s -> f s x = inl s' -> I (done ++ [x]) s') ->
  I l s'.
Proof.
  intros E H0 Hstep. change l with ([] ++ l). revert s E H0. generalize (@nil A) as seen.
  induction l as [|x l IH]; intros seen s E HI; cbn in E.
  - injection E as <-. by rewrite app_nil_r.
  - apply Py_bind_inl in E as (s1&Ex&E).
    change (seen ++ x :: l) with (seen ++ [x] ++ l). rewrite app_assoc. eapply IH; eauto.
Qed.

(** ** The constants of the encoding *)

Definition ENCODED_SCHEMA_NAME : string := "pyowl-core/structural-columns".
Definition ENCODED_SCHEMA_VERSION : usize := 2.
Definition ENCODED_MODEL_SCHEMA : usize := 2.
Definition DIRECT_SEGMENT : usize := 1.
Definition OVERLAY_BASE_SEGMENT : usize := 2.
Definition OVERLAY_DELTA_SEGMENT : usize := 3.
Definition COMPOSITE_MEMBER_SEGMENT : usize := 4.
Definition COMPOSITE_BRIDGE_SEGMENT : usize := 5.
Definition POSTINGS_ALL : usize := 0.
Definition POSTINGS_INCLUDE : usize := 1.
Definition POSTINGS_EXCLUDE : usize := 2.
Definition ENCODED_DESCRIPTOR_SHA256 : bytes := byte_of_u8 <$>
  [0xc5; 0x1d; 0x0e; 0xb7; 0xec; 0xf6; 0xf2; 0x9a; 0xd3; 0x49; 0x5f; 0xe7; 0xc4; 0x0a; 0x2e; 0xa6;
   0x74; 0x1c; 0xf0; 0x3a; 0x7c; 0xf1; 0x94; 0xd5; 0x14; 0x17; 0xbb; 0x81; 0x0d; 0xf9; 0x0f; 0x51].
Definition BUFFER_NAMES : list string :=
  ["root_kinds"; "root_ids"; "node_tags"; "node_field_offsets"; "field_kinds"; "field_values";
   "field_lengths"; "item_kinds"; "item_values"; "item_lengths"; "scalar_bytes"].
Definition isize_max : N := 9223372036854775807.

Definition encoded_buffer_error (message : string) : PyErr := EncodedDirectBufferError message.
Definition unsupported_error (message : string) : PyErr := EncodedDirectUnsupportedError message.

Section objects.
Context `{Python}.

(** [Bound::is]. *)
Definition same (a b : object) : bool := bool_decide (a = b).

Definition required_attribute (value : object) (name : string) : Py object :=
  or_else (getattr value name) (encoded_buffer_error ("encoded input is missing attribute " +:+ name)).

Definition exact_nonnegative_integer (value : object) (name : string) : Py usize :=
  _ ← reject (negb (is_exact_int value))
    (encoded_buffer_error (name +:+ " must be an exact nonnegative integer"));
  or_else (extract_usize value)
    (encoded_buffer_error (name +:+ " must be a nonnegative integer fitting usize")).

Definition integer_attribute (value : object) (attribute name : string) : Py usize :=
  value ← required_attribute value attribute;
  exact_nonnegative_integer value name.

(** [required_attribute(value, name)?.extract::<T>()]. *)
Definition extracted {T} (extract : object -> option T) (value : object) (name : string) (error : PyErr) : Py T :=
  value ← required_attribute value name;
  or_else (extract value) error.

Definition checked_memoryview_length (buffer : object) (name : string) : Py usize :=
  let invalid message := encoded_buffer_error ("encoded buffer " +:+ name +:+ " " +:+ message) in
  _ ← reject (negb (is_exact_memoryview buffer)) (invalid "is not an exact memoryview");
  readonly ← extracted extract_bool buffer "readonly" (invalid "has invalid readonly metadata");
  _ ← reject (negb readonly) (invalid "is writable");
  dimensions ← extracted extract_usize buffer "ndim" (invalid "has invalid dimension metadata");
  item_size ← extracted extract_usize buffer "itemsize" (invalid "has invalid item-size metadata");
  contiguous ← extracted extract_bool buffer "c_contiguous" (invalid "has invalid contiguity metadata");
  format ← extracted extract_string buffer "format" (invalid "has invalid format metadata");
  _ ← reject (negb (dimensions =? 1) || negb (item_size =? 1) || negb contiguous
      || negb (bool_decide (format = "B")))
    (invalid "is not a contiguous one-dimensional unsigned-byte view");
  length ← extracted extract_usize buffer "nbytes" (invalid "has invalid byte-length metadata");
  observed ← or_else (object_len buffer) (invalid "has inaccessible length");
  _ ← reject (negb (observed =? length)) (invalid "has inconsistent byte-length metadata");
  mret length.

(** What the language reference says of memoryviews over an exact [bytes]: a
    contiguous one-dimensional view of unsigned bytes shows a range of its
    exporter, [memoryview(exporter)] shows all of it, a slice the range of the view
    that is asked for, and two views that are equal show the same bytes. *)
Class MemoryLaws := {
  shown : object -> option bytes;
  view_shows view name length exporter content :
    checked_memoryview_length view name = inl length ->
    getattr view "obj" = Some exporter -> exact_bytes exporter = Some content ->
    exists start, start + length <= len content /\ shown view = get_range content start (start + length);
  memoryview_shows exporter content view :
    exact_bytes exporter = Some content -> memoryview_of exporter = Some view -> shown view = Some content;
  slice_shows view content start end_ slice :
    shown view = Some content -> start <= end_ <= len content ->
    memoryview_slice view start end_ = Some slice -> shown slice = get_range content start end_;
  equal_shows a b : object_eq a b = Some true -> shown a = shown b;
}.

(** The length of a buffer that is an attribute. *)
Definition buffer_attribute (value : object) (name : string) : Py (object * usize) :=
  buffer ← required_attribute value name;
  length ← checked_memoryview_length buffer name;
  mret (buffer, length).

(** ** Retained buffers *)

Inductive ValidatedDirectExporter :=
  | ExactImmutableBytes (exporter : object) (content : bytes)
  | GeneralReadonlyContiguous (exporter : object).

Record ValidatedDirectBuffer := {
  buffer_name : string;
  buffer_view : object;
  exporter : ValidatedDirectExporter;
  buffer_length : usize;
}.

Definition inspect (view : object) (name : string) : Py ValidatedDirectBuffer :=
  length ← checked_memoryview_length view name;
  exporter ← required_attribute view "obj";
  let exporter := match exact_bytes exporter with
    | Some content => ExactImmutableBytes exporter content
    | None => GeneralReadonlyContiguous exporter
    end in
  mret {| buffer_name := name; buffer_view := view; exporter := exporter; buffer_length := length |}.

Definition general_buffer_retention_error (name : string) : PyErr :=
  unsupported_error ("encoded buffer " +:+ name +:+ " has a valid readonly C-contiguous non-bytes exporter, but "
    +:+ "zero-copy retention requires pyo3::buffer::PyUntypedBuffer (abi3-py311 or newer); "
    +:+ "this extension is abi3-py310").

(** A candidate whose exporter is an exact [bytes]. *)
Record BytesBuffer := {
  borrowed_name : string;
  borrowed_view : object;
  borrowed_exporter : object;
  borrowed_content : bytes;
  borrowed_length : usize;
}.

Definition into_exact_bytes (self : ValidatedDirectBuffer) : Py BytesBuffer :=
  match self.(exporter) with
  | ExactImmutableBytes exporter content =>
      mret {| borrowed_name := self.(buffer_name); borrowed_view := self.(buffer_view);
              borrowed_exporter := exporter; borrowed_content := content;
              borrowed_length := self.(buffer_length) |}
  | GeneralReadonlyContiguous _ => inr (general_buffer_retention_error self.(buffer_name))
  end.

Record RetainedDirectBuffer := {
  storage : bytes;
  retained_start : usize;
  retained_end : usize;
}.

(** [&exporter[self.start..self.end]]; the range is within the exporter. *)
Definition as_slice (self : RetainedDirectBuffer) : bytes :=
  default [] (get_range self.(storage) self.(retained_start) self.(retained_end)).

Definition covers_exporter (candidate : BytesBuffer) : bool :=
  len candidate.(borrowed_content) =? candidate.(borrowed_length).

Definition retain_whole (candidate : BytesBuffer) : RetainedDirectBuffer :=
  {| storage := candidate.(borrowed_content); retained_start := 0; retained_end := candidate.(borrowed_length) |}.

(** One buffer of the packed layout; the next one starts where it ends. *)
Definition retain_packed (packed_view : object) (s : usize * list RetainedDirectBuffer) (candidate : BytesBuffer)
    : Py (usize * list RetainedDirectBuffer) :=
  let '(start, retained) := s in
  let invalid message := "encoded buffer " +:+ candidate.(borrowed_name) +:+ message in
  end_ ← or_else (checked_add start candidate.(borrowed_length))
    (encoded_buffer_error "encoded packed-buffer range overflow");
  _ ← reject (isize_max <? start) (encoded_buffer_error "encoded packed-buffer start exceeds Py_ssize_t");
  _ ← reject (isize_max <? end_) (encoded_buffer_error "encoded packed-buffer end exceeds Py_ssize_t");
  expected ← or_else (memoryview_slice packed_view start end_)
    (encoded_buffer_error (invalid " canonical packed range is inaccessible"));
  equal ← or_else (object_eq candidate.(borrowed_view) expected)
    (encoded_buffer_error (invalid " cannot be compared with its packed range"));
  _ ← reject (negb equal) (unsupported_error (invalid " does not match the canonical packed bytes layout"));
  mret (end_, retained ++
    [{| storage := candidate.(borrowed_content); retained_start := start; retained_end := end_ |}]).

Definition retain_direct_bytes_exporters (borrowed : list BytesBuffer) : Py (list RetainedDirectBuffer) :=
  if forallb covers_exporter borrowed then mret (retain_whole <$> borrowed) else
  match borrowed with
  | [] => inr (encoded_buffer_error "encoded buffer set is empty")
  | first :: _ =>
      if existsb (fun candidate => negb (same candidate.(borrowed_exporter) first.(borrowed_exporter))) borrowed then
        let name := match List.find (fun candidate => negb (covers_exporter candidate)) borrowed with
          | Some candidate => candidate.(borrowed_name)
          | None => "unknown"
          end in
        inr (unsupported_error ("encoded buffer " +:+ name +:+ " does not cover its complete bytes exporter"))
      else
        total_length ← foldM (fun total candidate =>
            or_else (checked_add total candidate.(borrowed_length))
              (encoded_buffer_error "encoded packed-buffer byte length overflow"))
          0 borrowed;
        _ ← reject (negb (total_length =? len first.(borrowed_content)))
          (unsupported_error "encoded packed buffers do not exactly cover their shared bytes exporter");
        packed_view ← or_else (memoryview_of first.(borrowed_exporter))
          (encoded_buffer_error "encoded packed bytes exporter is not memoryview-compatible");
        '(_, retained) ← foldM (retain_packed packed_view) (0, []) borrowed;
        mret retained
  end.

(** [retain_direct_exporters]: the first general exporter is an error, so only
    exact [bytes] are left. *)
Definition retain_direct_exporters (candidates : list ValidatedDirectBuffer) : Py (list RetainedDirectBuffer) :=
  borrowed ← foldM (fun borrowed candidate =>
      candidate ← into_exact_bytes candidate; mret (borrowed ++ [candidate])) [] candidates;
  retain_direct_bytes_exporters borrowed.

Definition retained_structural_buffers (encoded_view : object) : Py (list RetainedDirectBuffer) :=
  mapping ← required_attribute encoded_view "buffers";
  _ ← reject (negb (is_mapping mapping)) (encoded_buffer_error "encoded buffers must be a mapping");
  count ← or_else (object_len mapping) (encoded_buffer_error "encoded buffer count is inaccessible");
  _ ← reject (negb (count =? BUFFER_COUNT))
    (encoded_buffer_error "encoded buffer set does not contain exactly eleven columns");
  candidates ← foldM (fun candidates name =>
      buffer ← or_else (get_item mapping name) (encoded_buffer_error ("encoded view is missing buffer " +:+ name));
      candidate ← inspect buffer name;
      mret (candidates ++ [candidate])) [] BUFFER_NAMES;
  retain_direct_exporters candidates.

Definition retained_exact_bytes_buffer (buffer : object) (name : string) : Py RetainedDirectBuffer :=
  candidate ← inspect buffer name;
  candidate ← into_exact_bytes candidate;
  _ ← reject (negb (covers_exporter candidate))
    (unsupported_error ("encoded buffer " +:+ name +:+ " does not cover its complete bytes exporter"));
  mret (retain_whole candidate).

End objects.

(** ** Segments *)

Section segments.
Context `{Python}.

(** The segments of a view, an exact tuple. *)
Definition segment_tuple (view : object) (message : string) : Py (list object) :=
  raw ← required_attribute view "segments";
  or_else (exact_tuple raw) (encoded_buffer_error message).

(** [segments.get_item(index)]. *)
Definition segment_at (segments : list object) (index : usize) (message : string) : Py object :=
  or_else (get segments index) (encoded_buffer_error message).

(** The digest of the descriptor is compared as an exact [bytes]. *)
Definition validate_encoded_view_header (encoded_view expected_owner descriptor_sha256 : object) : Py unit :=
  schema_name ← extracted extract_string encoded_view "schema_name"
    (encoded_buffer_error "encoded schema_name must be text");
  _ ← reject (negb (bool_decide (schema_name = ENCODED_SCHEMA_NAME)))
    (encoded_buffer_error "encoded schema_name is not structural-columns");
  schema_version ← integer_attribute encoded_view "schema_version" "encoded schema_version";
  _ ← reject (negb (schema_version =? ENCODED_SCHEMA_VERSION))
    (encoded_buffer_error "encoded schema_version is not supported");
  model_schema ← integer_attribute encoded_view "model_schema" "encoded model_schema";
  _ ← reject (negb (model_schema =? ENCODED_MODEL_SCHEMA))
    (encoded_buffer_error "encoded model_schema is not supported");
  owner ← required_attribute encoded_view "owner";
  _ ← reject (negb (same owner expected_owner))
    (encoded_buffer_error "encoded view does not retain the expected owner identity");
  _ ← reject (negb (bool_decide (exact_bytes descriptor_sha256 = Some ENCODED_DESCRIPTOR_SHA256)))
    (encoded_buffer_error "encoded descriptor digest differs from structural-columns v1");
  descriptor ← required_attribute encoded_view "descriptor";
  reject (match exact_bytes descriptor with None | Some [] => true | Some _ => false end)
    (encoded_buffer_error "encoded descriptor must be nonempty exact immutable bytes").

(** [for name in ["root_ids", "anonymous_scope_map"]]; a table that is not empty
    is the error of the caller. *)
Definition empty_tables (segment : object) (label : string) (error : string -> PyErr) : Py unit :=
  forM ["root_ids"; "anonymous_scope_map"] (fun name =>
    '(_, length) ← buffer_attribute segment name;
    reject (negb (length =? 0)) (error ("encoded " +:+ label +:+ " " +:+ name +:+ " must be empty"))).

Definition no_member_token (segment : object) (label : string) : Py unit :=
  token ← required_attribute segment "member_token";
  reject (negb (is_none token)) (encoded_buffer_error ("encoded " +:+ label +:+ " member_token must be None")).

Definition validate_direct_segment (encoded_view expected_owner : object) : Py unit :=
  segments ← segment_tuple encoded_view "encoded segment manifest must be an exact tuple";
  _ ← reject (negb (len segments =? 1))
    (unsupported_error "direct native slice does not support segmented encoded views");
  segment ← segment_at segments 0 "encoded direct segment is inaccessible";
  role ← integer_attribute segment "role" "segment role";
  _ ← reject (negb (role =? DIRECT_SEGMENT))
    (unsupported_error "direct native slice requires the canonical direct segment role");
  owner ← required_attribute segment "owner";
  _ ← reject (negb (same owner expected_owner))
    (encoded_buffer_error "encoded direct segment does not retain the expected owner");
  source ← required_attribute segment "source";
  _ ← reject (negb (is_none source))
    (encoded_buffer_error "encoded direct segment unexpectedly references a source view");
  posting_mode ← integer_attribute segment "posting_mode" "segment posting_mode";
  _ ← reject (negb (posting_mode =? POSTINGS_ALL))
    (encoded_buffer_error "encoded direct segment posting mode is not ALL");
  _ ← empty_tables segment "direct segment" encoded_buffer_error;
  no_member_token segment "direct segment".

Definition validate_overlay_base_segment (segment expected_owner expected_source : object)
    (excluded_root_ids : option object) : Py unit :=
  role ← integer_attribute segment "role" "segment role";
  _ ← reject (negb (role =? OVERLAY_BASE_SEGMENT))
    (unsupported_error "encoded local-overlay base has an unsupported role");
  owner ← required_attribute segment "owner";
  _ ← reject (negb (same owner expected_owner))
    (encoded_buffer_error "encoded local-overlay base does not retain its expected owner");
  source ← required_attribute segment "source";
  _ ← reject (negb (same source expected_source))
    (encoded_buffer_error "encoded local-overlay base does not retain the exact direct source");
  posting_mode ← integer_attribute segment "posting_mode" "segment posting_mode";
  '(root_ids, root_id_bytes) ← buffer_attribute segment "root_ids";
  _ ← match excluded_root_ids with
    | None => reject (negb (posting_mode =? POSTINGS_ALL) || negb (root_id_bytes =? 0))
        (unsupported_error "encoded local-overlay base requires ALL root selection")
    | Some expected =>
        _ ← reject (negb (posting_mode =? POSTINGS_EXCLUDE) || (root_id_bytes =? 0))
          (unsupported_error "encoded local-overlay base requires one nonempty EXCLUDE table");
        reject (negb (same root_ids expected))
          (encoded_buffer_error "encoded local-overlay base does not retain the exact EXCLUDE table")
    end;
  '(_, scope_map_bytes) ← buffer_attribute segment "anonymous_scope_map";
  _ ← reject (negb (scope_map_bytes =? 0))
    (unsupported_error "encoded local-overlay base anonymous_scope_map must be empty");
  no_member_token segment "local-overlay base".

Definition validate_all_segment (segment : object) (expected_role : usize) (expected_owner : object)
    (expected_source : option object) (label : string) : Py unit :=
  role ← integer_attribute segment "role" "segment role";
  _ ← reject (negb (role =? expected_role))
    (unsupported_error ("encoded " +:+ label +:+ " has an unsupported role"));
  owner ← required_attribute segment "owner";
  _ ← reject (negb (same owner expected_owner))
    (encoded_buffer_error ("encoded " +:+ label +:+ " does not retain its expected owner"));
  source ← required_attribute segment "source";
  _ ← match expected_source with
    | Some expected => reject (negb (same source expected))
        (encoded_buffer_error ("encoded " +:+ label +:+ " does not retain the exact direct source"))
    | None => reject (negb (is_none source))
        (encoded_buffer_error ("encoded " +:+ label +:+ " unexpectedly references a source view"))
    end;
  posting_mode ← integer_attribute segment "posting_mode" "segment posting_mode";
  _ ← reject (negb (posting_mode =? POSTINGS_ALL))
    (unsupported_error ("encoded " +:+ label +:+ " requires ALL root selection"));
  _ ← empty_tables segment label unsupported_error;
  no_member_token segment label.

Definition validate_overlay_delta_segments (encoded_view expected_owner source_view source_owner : object)
    (excluded_root_ids : option object) : Py unit :=
  segments ← segment_tuple encoded_view "encoded local-overlay segment manifest must be an exact tuple";
  _ ← reject (negb (len segments =? 2))
    (unsupported_error "bounded local-overlay compilation requires exactly base and delta segments");
  base ← segment_at segments 0 "encoded local-overlay base is inaccessible";
  delta ← segment_at segments 1 "encoded local-overlay delta is inaccessible";
  _ ← validate_overlay_base_segment base source_owner source_view excluded_root_ids;
  validate_all_segment delta OVERLAY_DELTA_SEGMENT expected_owner None "local-overlay delta".

(** The table of a direct view, and the local table of an overlay. *)
Definition retained_direct_buffers (encoded_view expected_owner descriptor_sha256 : object)
    : Py (list RetainedDirectBuffer) :=
  _ ← validate_encoded_view_header encoded_view expected_owner descriptor_sha256;
  _ ← validate_direct_segment encoded_view expected_owner;
  retained_structural_buffers encoded_view.

Definition retained_overlay_delta_buffers
    (encoded_view expected_owner descriptor_sha256 source_view source_owner : object)
    (excluded_root_ids : option object) : Py (list RetainedDirectBuffer) :=
  _ ← validate_encoded_view_header encoded_view expected_owner descriptor_sha256;
  _ ← validate_overlay_delta_segments encoded_view expected_owner source_view source_owner excluded_root_ids;
  retained_structural_buffers encoded_view.
End segments.

(** ** What is retained *)

Section retained.
Context `{Python}.

Lemma foldM_snoc_Forall2 {A B} (f : A -> Py B) l k k' :
  foldM (fun k x => y ← f x; mret (k ++ [y])) k l = inl k' ->
  exists m, k' = k ++ m /\ Forall2 (fun x y => f x = inl y) l m.
Proof using Type.
  revert k. induction l as [|x l IH]; intros k E; cbn in E.
  - injection E as <-. exists []. by rewrite app_nil_r.
  - apply Py_bind_inl in E as (k1&Ey&(m&->&Hm)%IH). py_inv. subst.
    eexists (_ :: m). by rewrite <- app_assoc; split; [|constructor].
Qed.

Lemma total_length_sum error candidates start total :
  foldM (fun total candidate => or_else (checked_add total candidate.(borrowed_length)) error) start candidates
    = inl total -> total = start + sum borrowed_length candidates.
Proof using Type.
  revert start. induction candidates as [|candidate candidates IH]; intros start E; cbn in E.
  - py_inv. subst. cbn. lia.
  - py_inv. match goal with E : checked_add _ _ = Some _ |- _ => apply checked_add_Some in E as [-> _] end.
    rewrite sum_cons. rewrite (IH _ E). lia.
Qed.

Definition slice_fits (candidate : BytesBuffer) (buffer : RetainedDirectBuffer) : Prop :=
  len (as_slice buffer) = candidate.(borrowed_length).

(** A buffer is a range of the packed [bytes], and the memoryview of its candidate
    was compared with that range of the packed view. *)
Definition packed_in (view : object) (content : bytes) (candidate : BytesBuffer) (buffer : RetainedDirectBuffer) : Prop :=
  exists start end_ expected, get_range content start end_ = Some (as_slice buffer) /\
    memoryview_slice view start end_ = Some expected /\ object_eq candidate.(borrowed_view) expected = Some true.

Lemma packed_in_slice view content candidate start retained end_ retained' :
  retain_packed view (start, retained) candidate = inl (end_, retained') ->
  candidate.(borrowed_content) = content -> start + candidate.(borrowed_length) <= len content ->
  end_ = start + candidate.(borrowed_length) /\
  exists buffer, retained' = retained ++ [buffer] /\ packed_in view content candidate buffer /\
    as_slice buffer = take (N.to_nat candidate.(borrowed_length)) (drop (N.to_nat start) content).
Proof using Type.
  unfold retain_packed. intros E <- Hle. py_inv. simplify_eq.
  match goal with E : checked_add _ _ = Some _ |- _ => apply checked_add_Some in E as [-> _] end.
  split; [done|]. eexists. split; [done|].
  assert (Hs : get_range candidate.(borrowed_content) start (start + candidate.(borrowed_length)) =
    Some (take (N.to_nat candidate.(borrowed_length)) (drop (N.to_nat start) candidate.(borrowed_content)))).
  { apply get_range_Some. split_and!; [lia|lia|]. do 2 f_equal. lia. }
  assert (Ha : as_slice {| storage := candidate.(borrowed_content); retained_start := start;
    retained_end := start + candidate.(borrowed_length) |}
    = take (N.to_nat candidate.(borrowed_length)) (drop (N.to_nat start) candidate.(borrowed_content))).
  { unfold as_slice. cbn [storage retained_start retained_end]. by rewrite Hs. }
  split; [|exact Ha]. unfold packed_in. rewrite Ha. eexists _, _, _. split_and!; [exact Hs|done|].
  match goal with E : negb ?b = false |- _ => apply negb_false_iff in E; by subst b end.
Qed.

(** The packed buffers lie one behind the other in their exporter. *)
Lemma packed_slices view content candidates start retained end_ retained' :
  foldM (retain_packed view) (start, retained) candidates = inl (end_, retained') ->
  Forall (fun candidate => candidate.(borrowed_content) = content) candidates ->
  start + sum borrowed_length candidates <= len content ->
  exists buffers, retained' = retained ++ buffers /\ Forall2 slice_fits candidates buffers /\
    Forall2 (packed_in view content) candidates buffers /\
    concat (as_slice <$> buffers)
      = take (N.to_nat (sum borrowed_length candidates)) (drop (N.to_nat start) content).
Proof using Type.
  revert start retained. induction candidates as [|candidate candidates IH]; intros start retained E Hc Hle.
  - cbn in E. py_inv. simplify_eq. exists []. by rewrite app_nil_r.
  - cbn [foldM] in E. apply Py_bind_inl in E as ([start' retained1]&Ep&E).
    apply Forall_cons in Hc as [Hcontent Hc]. rewrite sum_cons in Hle.
    apply (packed_in_slice _ _ _ _ _ _ _ Ep) in Hcontent as [-> (buffer&->&Hin&Hs)]; [|lia].
    apply IH in E as (buffers&->&Hf&Hp&Hd); [|done|lia].
    exists (buffer :: buffers). rewrite <- app_assoc. split; [done|]. split_and!; [constructor; [|done]|by constructor|].
    + unfold slice_fits. rewrite Hs. unfold len in *. rewrite length_take, length_drop. lia.
    + rewrite fmap_cons. cbn [concat]. rewrite Hd, Hs, sum_cons, !N2Nat.inj_add.
      by rewrite <- drop_drop, take_take_drop.
Qed.

(** The memoryview of a view under a name, and the [bytes] behind it. *)
Definition exports (view : object) (name : string) (candidate : BytesBuffer) : Prop :=
  exists mapping, getattr view "buffers" = Some mapping /\
    get_item mapping name = Some candidate.(borrowed_view) /\
    checked_memoryview_length candidate.(borrowed_view) name = inl candidate.(borrowed_length) /\
    getattr candidate.(borrowed_view) "obj" = Some candidate.(borrowed_exporter) /\
    exact_bytes candidate.(borrowed_exporter) = Some candidate.(borrowed_content).

(** A candidate before its exporter is known to be an exact [bytes]. *)
Definition inspected (view : object) (name : string) (candidate : ValidatedDirectBuffer) : Prop :=
  exists mapping memory, getattr view "buffers" = Some mapping /\ get_item mapping name = Some memory /\
    inspect memory name = inl candidate.

Lemma inspected_exports view name candidate exact :
  inspected view name candidate -> into_exact_bytes candidate = inl exact -> exports view name exact.
Proof using Type.
  intros (mapping&memory&Em&Ei&E) Ex. unfold inspect in E. py_inv. subst.
  unfold into_exact_bytes in Ex. cbn in Ex. destruct (exact_bytes _) eqn:Eb in Ex; [|done].
  py_inv. subst. exists mapping. cbn.
  match goal with E : required_attribute _ _ = inl _ |- _ => apply or_else_inl in E end.
  by split_and!.
Qed.

Lemma exports_content view names candidates exporter :
  Forall2 (exports view) names candidates ->
  Forall (fun candidate => candidate.(borrowed_exporter) = exporter) candidates ->
  exists content, Forall (fun candidate => candidate.(borrowed_content) = content) candidates.
Proof using Type.
  intros He Hs. destruct candidates as [|first candidates]; [by exists []|].
  exists first.(borrowed_content). apply Forall_forall. intros candidate Hin.
  assert (Hall : forall candidate, candidate ∈ first :: candidates ->
    exact_bytes exporter = Some candidate.(borrowed_content)).
  { intros c Hc. rewrite Forall_forall in Hs. rewrite <- (Hs c Hc).
    apply list_elem_of_lookup in Hc as [k Hk]. by destruct (Forall2_lookup_r _ _ _ _ _ He Hk) as (name&_&mapping&_&_&_&_&Hb). }
  pose proof (Hall _ Hin) as E1. rewrite (Hall first (list_elem_of_here _ _)) in E1. congruence.
Qed.

(** ** The bytes that the memoryviews show *)

Context {laws : MemoryLaws}.

Definition shows (candidate : BytesBuffer) (buffer : RetainedDirectBuffer) : Prop :=
  shown candidate.(borrowed_view) = Some (as_slice buffer).

(** A view of a whole exporter shows it. *)
Lemma retain_whole_shows view name candidate :
  exports view name candidate -> covers_exporter candidate = true ->
  as_slice (retain_whole candidate) = candidate.(borrowed_content) /\ shows candidate (retain_whole candidate).
Proof using Type.
  intros (mapping&_&_&Hl&Ho&Hb) Hc%N.eqb_eq.
  assert (Hs : as_slice (retain_whole candidate) = candidate.(borrowed_content)).
  { unfold as_slice, retain_whole. cbn [storage retained_start retained_end]. by rewrite <- Hc, get_range_all. }
  split; [exact Hs|]. unfold shows. rewrite Hs.
  destruct (view_shows _ _ _ _ _ Hl Ho Hb) as (start&Hle&->).
  assert (start = 0) as -> by lia. by rewrite N.add_0_l, <- Hc, get_range_all.
Qed.

(** A view that equals a range of the packed view shows that range. *)
Lemma packed_in_shows exporter view content candidate buffer :
  exact_bytes exporter = Some content -> memoryview_of exporter = Some view ->
  packed_in view content candidate buffer -> shows candidate buffer.
Proof using Type.
  intros Hb Hv (start&end_&expected&Hr&Hs&He). unfold shows. rewrite (equal_shows _ _ He), <- Hr.
  pose proof (proj1 (get_range_Some _ _ _ _) Hr) as (?&?&_).
  eapply slice_shows; [by eapply memoryview_shows|lia|exact Hs].
Qed.

(** Either each candidate covers its exporter, or all share one and cover it together. *)
Definition whole_or_packed (candidates : list BytesBuffer) (buffers : list RetainedDirectBuffer) : Prop :=
  Forall2 (fun candidate buffer => as_slice buffer = candidate.(borrowed_content)) candidates buffers \/
  Forall (fun candidate => candidate.(borrowed_content) = concat (as_slice <$> buffers)) candidates.

Lemma retained_whole_exact view names candidates :
  forallb covers_exporter candidates = true -> Forall2 (exports view) names candidates ->
  let buffers := retain_whole <$> candidates in
  Forall2 slice_fits candidates buffers /\ Forall2 shows candidates buffers /\ whole_or_packed candidates buffers.
Proof using Type.
  intros Hc Hx buffers.
  assert (Hw : Forall2 (fun candidate buffer => slice_fits candidate buffer /\ shows candidate buffer /\
    as_slice buffer = candidate.(borrowed_content)) candidates buffers).
  { apply Forall2_fmap_r, Forall_Forall2_diag, Forall_forall. intros candidate Hin.
    pose proof (proj1 (forallb_forall _ _) Hc candidate (proj1 (list_elem_of_In _ _) Hin)) as Hcovers.
    apply list_elem_of_lookup in Hin as [k Hk]. destruct (Forall2_lookup_r _ _ _ _ _ Hx Hk) as (name&_&He).
    destruct (retain_whole_shows _ _ _ He Hcovers) as [Hs Hshow]. apply N.eqb_eq in Hcovers.
    split_and!; [by unfold slice_fits; rewrite Hs|done|done]. }
  split_and!; [| |left]; (eapply Forall2_impl; [exact Hw|]); by intros ? ? (?&?&?).
Qed.

Lemma retained_bytes_exact view names candidates buffers :
  retain_direct_bytes_exporters candidates = inl buffers -> Forall2 (exports view) names candidates ->
  Forall2 slice_fits candidates buffers /\ Forall2 shows candidates buffers /\ whole_or_packed candidates buffers.
Proof using Type.
  unfold retain_direct_bytes_exporters. intros E Hx.
  destruct (forallb covers_exporter candidates) eqn:Ec; [py_inv; subst; by eapply retained_whole_exact|].
  destruct candidates as [|first candidates]; [done|].
  destruct (existsb _ _) eqn:Es in E; [done|]. py_inv. simplify_eq.
  match goal with E : foldM _ 0 _ = inl _ |- _ => apply total_length_sum in E end.
  match goal with E : negb _ = false |- _ => apply negb_false_iff, N.eqb_eq in E; rename E into Htotal end.
  assert (Hs : Forall (fun candidate => candidate.(borrowed_exporter) = first.(borrowed_exporter)) (first :: candidates)).
  { apply Forall_forall. intros candidate Hin%list_elem_of_In. apply dec_stable. intros Hne.
    apply (not_true_iff_false _) in Es. apply Es, existsb_exists. exists candidate. split; [done|].
    unfold same. by rewrite bool_decide_eq_false_2. }
  destruct (exports_content _ _ _ _ Hx Hs) as [content Hcontent].
  pose proof Hcontent as Hfirst. apply Forall_cons in Hfirst as [Hfirst _]. subst content.
  destruct (Forall2_cons_inv_r _ _ _ _ Hx) as (name&names'&(mapping&_&_&_&_&Hbytes)&_&->).
  match goal with E : foldM (retain_packed _) _ _ = inl _ |- _ =>
    eapply packed_slices in E as (slices&->&Hf&Hp&Hd); [|exact Hcontent|lia] end.
  split_and!; [exact Hf| |right].
  - eapply Forall2_impl; [exact Hp|]. intros candidate buffer. by apply (packed_in_shows first.(borrowed_exporter)).
  - replace (concat (as_slice <$> slices)) with first.(borrowed_content); [exact Hcontent|].
    cbn [app]. rewrite Hd. cbn [N.to_nat drop]. symmetry. apply firstn_all2. unfold len in Htotal. lia.
Qed.
End retained.

(** C18: The buffers that are retained of a view are its memory: there are eleven,
    each holds exactly the bytes that the memoryview of its name shows, and either
    each is the whole [bytes] behind its memoryview, or all the memoryviews are of
    the same [bytes] and the buffers, one after the other, are exactly those.
    [MemoryLaws] is what the language reference says of memoryviews. *)
Theorem retained_buffers_exact `{Python, !MemoryLaws} view buffers :
  retained_structural_buffers view = inl buffers ->
  exists candidates, Forall2 (exports view) BUFFER_NAMES candidates /\
    Forall2 slice_fits candidates buffers /\ Forall2 shows candidates buffers /\
    (Forall2 (fun candidate buffer => as_slice buffer = candidate.(borrowed_content)) candidates buffers \/
     Forall (fun candidate => candidate.(borrowed_content) = concat (as_slice <$> buffers)) candidates).
Proof.
  unfold retained_structural_buffers, retain_direct_exporters. intros E. py_inv.
  match goal with E : foldM _ [] BUFFER_NAMES = inl ?f |- _ => rename E into Enames; rename f into found end.
  match goal with E : foldM _ [] found = inl _ |- _ =>
    apply foldM_snoc_Forall2 in E as (candidates&E'&Hc); cbn in E'; subst end.
  assert (Hi : Forall2 (inspected view) BUFFER_NAMES found).
  { refine (Py_foldM_ind _ (Forall2 (inspected view)) _ _ _ Enames _ _); [constructor|].
    intros seen name names names' IH Ex. py_inv. subst. apply Forall2_app, Forall2_cons; [done|].
    split; [|done]. match goal with E : required_attribute _ _ = inl _ |- _ => apply or_else_inl in E end.
    by eexists _, _. }
  assert (Hx : Forall2 (exports view) BUFFER_NAMES candidates)
    by (eapply Forall2_trans; [apply inspected_exports|exact Hi|exact Hc]).
  exists candidates. split; [exact Hx|]. by eapply retained_bytes_exact.
Qed.

(** ** A concrete heap *)

(** Buffers over one exporter. *)
Definition retain_packed_at (content : bytes) (ranges : list (usize * usize)) : list RetainedDirectBuffer :=
  (fun range => {| storage := content; retained_start := range.1; retained_end := range.2 |}) <$> ranges.

Module Heap.

(** An object is a name, an integer, or a memoryview of named [bytes]. *)
Inductive thing :=
  | Ref (name : string)
  | Num (value : usize)
  | Slice (exporter : string) (start end_ : usize).

#[export] Instance thing_eq_dec : EqDecision thing.
Proof. solve_decision. Defined.

(** What a name stands for. *)
Inductive cell :=
  | Truth (value : bool)
  | Text (value : string)
  | Bytes (content : bytes)
  | Tuple (items : list thing)
  | Mapping (items : list (string * thing))
  | Instance_ (attributes : list (string * thing)).

Section heap.
Context (heap : list (string * cell)).

Definition assoc {A} (name : string) (l : list (string * A)) : option A :=
  snd <$> List.find (fun entry => bool_decide (entry.1 = name)) l.

Definition cell_of (o : thing) : option cell :=
  match o with Ref name => assoc name heap | _ => None end.

Definition content_of (exporter : string) (start end_ : usize) : option bytes :=
  match assoc exporter heap with Some (Bytes content) => get_range content start end_ | _ => None end.

Definition memory_attributes (exporter : string) (start end_ : usize) : list (string * thing) :=
  [("readonly", Ref "True"); ("ndim", Num 1); ("itemsize", Num 1); ("c_contiguous", Ref "True");
   ("format", Ref "B"); ("nbytes", Num (end_ - start)); ("obj", Ref exporter)].

Definition attributes_of (o : thing) : list (string * thing) :=
  match o, cell_of o with
  | Slice exporter start end_, _ => memory_attributes exporter start end_
  | _, Some (Instance_ attributes) => attributes
  | _, _ => []
  end.

Definition heap_python : Python := {|
  object := thing;
  getattr o name := assoc name (attributes_of o);
  is_none o := bool_decide (o = Ref "None");
  is_exact_int o := match o with Num _ => true | _ => false end;
  extract_usize o := match o with Num value => Some value | _ => None end;
  extract_bool o := match cell_of o with Some (Truth value) => Some value | _ => None end;
  extract_string o := match cell_of o with Some (Text value) => Some value | _ => None end;
  exact_bytes o := match cell_of o with Some (Bytes content) => Some content | _ => None end;
  exact_tuple o := match cell_of o with Some (Tuple items) => Some items | _ => None end;
  is_exact_memoryview o := match o with Slice _ _ _ => true | _ => false end;
  object_len o := match o, cell_of o with
    | Slice exporter start end_, _ => len <$> content_of exporter start end_
    | _, Some (Mapping items) => Some (len items)
    | _, _ => None
    end;
  is_mapping o := match cell_of o with Some (Mapping _) => true | _ => false end;
  get_item o name := match cell_of o with Some (Mapping items) => assoc name items | _ => None end;
  memoryview_of o := match o, cell_of o with
    | Ref name, Some (Bytes content) => Some (Slice name 0 (len content))
    | _, _ => None
    end;
  memoryview_slice o start end_ := match o with
    | Slice exporter first last => Some (Slice exporter (first + start) (first + end_))
    | _ => None
    end;
  object_eq a b := match a, b with
    | Slice x s e, Slice y t f => Some (bool_decide (content_of x s e = content_of y t f))
    | _, _ => None
    end;
|}.

(** The laws of memoryviews hold of it. *)
Definition heap_shown (o : thing) : option bytes :=
  match o with Slice exporter start end_ => content_of exporter start end_ | _ => None end.

Lemma heap_view_shows (view : thing) name length (exporter : thing) content :
  checked_memoryview_length (H := heap_python) view name = inl length ->
  getattr (Python := heap_python) view "obj" = Some exporter ->
  exact_bytes (Python := heap_python) exporter = Some content ->
  exists start, start + length <= len content /\ heap_shown view = get_range content start (start + length).
Proof.
  unfold checked_memoryview_length. intros E Ho Hb. py_inv. subst.
  destruct view as [name'| |exporter' start end_]; [done|done|].
  cbn in Ho. injection Ho as <-. cbn [exact_bytes heap_python cell_of] in Hb.
  match goal with E : object_len _ = Some _, E' : negb _ = false |- _ =>
    cbn [object_len heap_python] in E; apply negb_false_iff, N.eqb_eq in E'; subst; rename E into El end.
  cbn [heap_shown]. unfold content_of in *.
  destruct (assoc exporter' heap) as [[]|]; try discriminate Hb. injection Hb as ->.
  apply fmap_Some in El as (shown&Er&->). pose proof (get_range_len _ _ _ _ Er) as ->.
  pose proof (proj1 (get_range_Some _ _ _ _) Er) as (?&?&_).
  exists start. replace (start + (end_ - start)) with end_ by lia. split; [lia|done].
Qed.

Lemma heap_slice_shows (view : thing) content start end_ (slice : thing) :
  heap_shown view = Some content -> start <= end_ <= len content ->
  memoryview_slice (Python := heap_python) view start end_ = Some slice ->
  heap_shown slice = get_range content start end_.
Proof.
  destruct view as [| |exporter first last]; [done|done|]. intros Hs Hle [= <-].
  cbn [heap_shown] in *. unfold content_of in *. destruct (assoc exporter heap) as [[]|]; try discriminate Hs.
  symmetry. by apply (get_range_range _ _ _ _ _ _ Hs).
Qed.

#[export] Instance heap_laws : MemoryLaws (H := heap_python).
Proof.
  refine {| shown := heap_shown : @object heap_python -> option bytes |}.
  - exact heap_view_shows.
  - intros exporter content view Hb Hv. destruct exporter as [exporter| |]; [|done|done].
    cbn in Hb, Hv. destruct (assoc exporter heap) as [[]|] eqn:Ec; try discriminate Hb. injection Hb as ->.
    injection Hv as <-. cbn [heap_shown]. unfold content_of. by rewrite Ec, get_range_all.
  - exact heap_slice_shows.
  - intros a b. destruct a as [| |x s e]; [done|done|]. destruct b as [| |y t f]; [done|done|].
    cbn [object_eq heap_python heap_shown]. intros [= Heq]. by apply bool_decide_eq_true in Heq.
Defined.
End heap.

(** The buffers of a table with [root] roots, packed in one exporter. *)
Definition packed (exporter : string) (roots : usize) : cell :=
  Mapping (("root_kinds", Slice exporter 0 roots) :: ("root_ids", Slice exporter roots roots)
    :: ("node_tags", Slice exporter roots roots) :: ("node_field_offsets", Slice exporter roots (roots + 8))
    :: ((fun name => (name, Slice exporter (roots + 8) (roots + 8))) <$> drop 4 BUFFER_NAMES)).

Definition encoded_view (owner buffers segments : string) : cell :=
  Instance_ [("schema_name", Ref "schema"); ("schema_version", Num 2); ("model_schema", Num 2);
             ("owner", Ref owner); ("descriptor", Ref "descriptor"); ("scope", Ref "scope");
             ("buffers", Ref buffers); ("segments", Ref segments)].

Definition segment (role : usize) (owner source token : string) : cell :=
  Instance_ [("role", Num role); ("owner", Ref owner); ("source", Ref source); ("posting_mode", Num 0);
             ("root_ids", Slice "nothing" 0 0); ("anonymous_scope_map", Slice "nothing" 0 0);
             ("member_token", Ref token)].

(** A composite of two direct views, one root each. *)
Definition pair_heap : list (string * cell) := [
  ("True", Truth true); ("B", Text "B"); ("schema", Text ENCODED_SCHEMA_NAME);
  ("digest", Bytes ENCODED_DESCRIPTOR_SHA256); ("descriptor", Bytes [Byte.x01]); ("nothing", Bytes []);
  ("empty", Bytes (repeat Byte.x00 8)); ("filled", Bytes (Byte.x01 :: repeat Byte.x00 8));
  ("first token", Bytes (repeat Byte.x01 32)); ("second token", Bytes (repeat Byte.x02 32));
  ("no table", packed "empty" 0); ("table", packed "filled" 1);
  ("manifest", encoded_view "pair" "no table" "members");
  ("members", Tuple [Ref "first member"; Ref "second member"]);
  ("first member", segment 4 "one" "left" "first token");
  ("second member", segment 4 "two" "right" "second token");
  ("left", encoded_view "one" "table" "left segments"); ("left segments", Tuple [Ref "left segment"]);
  ("left segment", segment 1 "one" "None" "None");
  ("right", encoded_view "two" "table" "right segments"); ("right segments", Tuple [Ref "right segment"]);
  ("right segment", segment 1 "two" "None" "None");
  ("rows", Tuple [Ref "first row"; Ref "second row"]);
  ("first row", Tuple [Ref "left"; Ref "one"; Ref "digest"; Ref "None"; Ref "None"; Ref "None"]);
  ("second row", Tuple [Ref "right"; Ref "two"; Ref "digest"; Ref "None"; Ref "None"; Ref "None"]);
  ("roots", encoded_view "pair" "no table" "root members");
  ("root members", Tuple [Ref "first member"; Ref "second root member"]);
  ("second root member", segment 4 "two" "right roots" "second token");
  ("right roots", encoded_view "two" "table" "right segments");
  ("first path", Tuple [Num 0; Num 0]); ("second path", Tuple [Num 1; Num 0])].

Definition pair_python : Python := heap_python pair_heap.
End Heap.

Lemma retained_buffers_exact_witness :
  let _ := Heap.pair_python in
  let buffers := retain_packed_at (Byte.x01 :: repeat Byte.x00 8)
    [(0, 1); (1, 1); (1, 1); (1, 9); (9, 9); (9, 9); (9, 9); (9, 9); (9, 9); (9, 9); (9, 9)] in
  retained_structural_buffers (Heap.Ref "left") = inl buffers /\
  exists candidates, Forall2 (exports (Heap.Ref "left")) BUFFER_NAMES candidates /\
    Forall2 (shows (laws := Heap.heap_laws Heap.pair_heap)) candidates buffers.
Proof.
  intros P buffers.
  assert (E : retained_structural_buffers (H := P) (Heap.Ref "left") = inl buffers) by (vm_compute; reflexivity).
  split; [exact E|].
  destruct (retained_buffers_exact (H0 := Heap.heap_laws Heap.pair_heap) _ _ E) as (candidates&Hx&_&Hs&_). by exists candidates.
Defined.
