(* ===== verification/Topology.v ===== *)
(** * The leaves of a manifest

    [enumerate_recursive_leaf_paths] of native/src/lib.rs: an encoded view is
    direct, an overlay over a base, or a composite of members, and the local
    tables below it are the leaves of the graph that its segments span.  The
    search is iterative; it validates each view once, resolves each view once per
    selection, and a view that is an ancestor of itself is an error. *)

From stdpp Require Import gmap.
From S2P Require Import Prelude Errors Text Readers Columns Generic Retained Objects.
Local Open Scope string_scope.
Local Open Scope list_scope.
Local Open Scope N_scope.

Inductive RecursiveLeafSelection := All | LocalOnly.

#[export] Instance RecursiveLeafSelection_eq_dec : EqDecision RecursiveLeafSelection.
Proof. solve_decision. Defined.

Record RecursiveResolvedTopology := {
  resolved_paths : list (list usize);
  resolved_overlay_span : usize;
}.

Section topology.
Context `{Python}.

Record RecursiveTopologyChild := {
  segment_index : usize;
  child_view : object;
  child_owner : object;
  child_selection : RecursiveLeafSelection;
}.

Record RecursiveValidatedTopologyNode := {
  node_owner : object;
  overlay_increment : usize;
  local_leaf_index : option usize;
  empty_direct_leaf_index : option usize;
  children : list RecursiveTopologyChild;
}.

Record RecursiveReference := {
  reference_source : object;
  reference_owner : object;
  reference_posting_mode : usize;
  reference_root_ids : object;
  reference_scope_map : object;
}.

(** ** The rows of a reference *)

Definition recursive_segments (view : object) : Py (list object) :=
  segment_tuple view "encoded recursive leaf segment manifest must be an exact tuple".

Definition recursive_segment_role (segment : object) : Py usize := integer_attribute segment "role" "segment role".

Definition segment_roles (segments : list object) : Py (list usize) :=
  foldM (fun roles segment => role ← recursive_segment_role segment; mret (roles ++ [role])) [] segments.

Definition recursive_source_root_count (source : object) : Py usize :=
  buffers ← required_attribute source "buffers";
  _ ← reject (negb (is_mapping buffers)) (encoded_buffer_error "encoded recursive source buffers must be a mapping");
  root_kinds ← or_else (get_item buffers "root_kinds")
    (encoded_buffer_error "encoded recursive source has no root_kinds buffer");
  checked_memoryview_length root_kinds "root_kinds".

Definition posting_row (source_root_count : usize) (previous : usize) (row : bytes) : Py usize :=
  let position := from_le_bytes row in
  _ ← reject ((position =? 0) || (position <=? previous) || (source_root_count <? position))
    (encoded_buffer_error "encoded recursive postings are not sorted unique in-range local positions");
  mret position.

Definition validate_recursive_posting_rows (root_ids source : object) : Py unit :=
  rows ← retained_exact_bytes_buffer root_ids "recursive root_ids";
  source_root_count ← recursive_source_root_count source;
  _ ← foldM (posting_row source_root_count) 0 (chunks_exact 4 (as_slice rows));
  mret tt.

(** [previous.is_some_and(|previous| previous >= source)]. *)
Definition not_after (previous : option bytes) (current : bytes) : bool :=
  match previous with
  | Some previous => match bytes_cmp previous current with Lt => false | _ => true end
  | None => false
  end.

Definition scope_map_row (previous_source : option bytes) (row : bytes) : Py (option bytes) :=
  let source := take 32 row in
  _ ← reject (bool_decide (source = drop 32 row))
    (encoded_buffer_error "encoded recursive scope map contains an identity row");
  _ ← reject (not_after previous_source source)
    (encoded_buffer_error "encoded recursive scope-map sources are not sorted unique");
  mret (Some source).

Definition validate_recursive_scope_map_rows (scope_map : object) : Py unit :=
  rows ← retained_exact_bytes_buffer scope_map "recursive anonymous_scope_map";
  _ ← foldM scope_map_row None (chunks_exact 64 (as_slice rows));
  mret tt.

(** The token of a composite member; that of any other segment is [None]. *)
Definition validate_member_token (segment : object) (role : usize) : Py unit :=
  token ← required_attribute segment "member_token";
  if role =? COMPOSITE_MEMBER_SEGMENT then
    reject (match exact_bytes token with Some token => negb (len token =? 32) | None => true end)
      (encoded_buffer_error "encoded recursive composite member token must be exact bytes32")
  else
    reject (negb (is_none token))
      (encoded_buffer_error "encoded recursive overlay base unexpectedly has a member token").

Definition posting_mode_of (segment : object) (role : usize) : Py usize :=
  posting_mode ← integer_attribute segment "posting_mode" "segment posting_mode";
  _ ← reject ((role =? OVERLAY_BASE_SEGMENT)
      && negb ((posting_mode =? POSTINGS_ALL) || (posting_mode =? POSTINGS_EXCLUDE)))
    (unsupported_error "encoded recursive overlay base supports only ALL or EXCLUDE selection");
  _ ← reject ((role =? COMPOSITE_MEMBER_SEGMENT)
      && negb ((posting_mode =? POSTINGS_ALL) || (posting_mode =? POSTINGS_INCLUDE)
               || (posting_mode =? POSTINGS_EXCLUDE)))
    (encoded_buffer_error "encoded recursive composite member posting mode is invalid");
  mret posting_mode.

Definition validate_recursive_reference (current_view segment : object) (role : usize)
    (validate_reference_rows : bool) : Py RecursiveReference :=
  _ ← reject (negb ((role =? OVERLAY_BASE_SEGMENT) || (role =? COMPOSITE_MEMBER_SEGMENT)))
    (encoded_buffer_error "encoded recursive leaf path contains a non-reference segment");
  source ← required_attribute segment "source";
  _ ← reject (is_none source || same source current_view)
    (encoded_buffer_error "encoded recursive leaf reference is absent or cyclic");
  owner ← required_attribute segment "owner";
  source_owner ← required_attribute source "owner";
  _ ← reject (negb (same source_owner owner))
    (encoded_buffer_error "encoded recursive leaf reference lost its exact source owner");
  current_scope ← required_attribute current_view "scope";
  source_scope ← required_attribute source "scope";
  _ ← reject (negb (same source_scope current_scope))
    (encoded_buffer_error "encoded recursive leaf reference changed its exact source scope");
  posting_mode ← posting_mode_of segment role;
  '(root_ids, root_id_bytes) ← buffer_attribute segment "root_ids";
  _ ← reject (negb (root_id_bytes mod 4 =? 0))
    (encoded_buffer_error "encoded recursive leaf postings contain a partial u32 row");
  _ ← reject (negb (Bool.eqb (posting_mode =? POSTINGS_ALL) (root_id_bytes =? 0)))
    (encoded_buffer_error "encoded recursive leaf posting mode and table disagree");
  _ ← (if validate_reference_rows then validate_recursive_posting_rows root_ids source else mret tt);
  '(scope_map, scope_map_bytes) ← buffer_attribute segment "anonymous_scope_map";
  _ ← reject (negb (scope_map_bytes mod 64 =? 0))
    (encoded_buffer_error "encoded recursive leaf scope map contains a partial row");
  _ ← (if validate_reference_rows then validate_recursive_scope_map_rows scope_map else mret tt);
  _ ← validate_member_token segment role;
  mret {| reference_source := source; reference_owner := owner; reference_posting_mode := posting_mode;
          reference_root_ids := root_ids; reference_scope_map := scope_map |}.

(** [buffers[index].as_slice()]; there are [BUFFER_COUNT] buffers. *)
Definition column_of (buffers : list RetainedDirectBuffer) (index : usize) : bytes :=
  default [] (as_slice <$> get buffers index).

(** [BUFFER_NAMES.into_iter().zip(buffers)]. *)
Definition validate_recursive_empty_local_buffers (buffers : list RetainedDirectBuffer) (label : string) : Py unit :=
  forM (zip BUFFER_NAMES buffers) (fun '(name, buffer) =>
    let bytes := as_slice buffer in
    if bool_decide (name = "node_field_offsets") then
      reject (negb (bool_decide (bytes = repeat Byte.x00 8)))
        (unsupported_error ("encoded recursive " +:+ label +:+ " requires empty local columns"))
    else
      reject (negb (is_empty bytes))
        (unsupported_error ("encoded recursive " +:+ label +:+ " contains roots without a local leaf segment"))).

Definition recursive_manifest_validation_work (buffers : list RetainedDirectBuffer) (segments : list object)
    : Py usize :=
  work ← foldM (fun total buffer => or_else (checked_add total (len (as_slice buffer)))
      (PyMemoryError "encoded recursive validation-work overflow")) 0 buffers;
  foldM (fun work segment =>
    root_ids ← required_attribute segment "root_ids";
    scope_map ← required_attribute segment "anonymous_scope_map";
    root_id_bytes ← checked_memoryview_length root_ids "root_ids";
    scope_map_bytes ← checked_memoryview_length scope_map "anonymous_scope_map";
    segment_work ← or_else (checked ← checked_add 128 root_id_bytes; checked_add checked scope_map_bytes)
      (PyMemoryError "encoded recursive segment-work counter overflow");
    or_else (checked_add work segment_work)
      (PyMemoryError "encoded recursive validation-work counter overflow")) work segments.

(** ** One view *)

(** A view whose segments are a base and, with [roles] two long, a delta. *)
Definition overlay_node (view owner : object) (buffers : list RetainedDirectBuffer) (segments : list object)
    (with_delta : bool) : Py RecursiveValidatedTopologyNode :=
  let local_root_count := len (column_of buffers 0) in
  base ← segment_at segments 0 "encoded recursive overlay base is inaccessible";
  reference ← validate_recursive_reference view base OVERLAY_BASE_SEGMENT true;
  let child := {| segment_index := 0; child_view := reference.(reference_source);
                  child_owner := reference.(reference_owner); child_selection := All |} in
  local_leaf_index ← (if with_delta then
      delta ← segment_at segments 1 "encoded recursive overlay delta is inaccessible";
      _ ← validate_all_segment delta OVERLAY_DELTA_SEGMENT owner None "recursive overlay delta";
      _ ← reject (local_root_count =? 0)
        (encoded_buffer_error "encoded recursive overlay delta has no local roots");
      mret (Some 1)
    else
      _ ← validate_recursive_empty_local_buffers buffers "overlay alias";
      mret None);
  mret {| node_owner := owner; overlay_increment := 1; local_leaf_index := local_leaf_index;
          empty_direct_leaf_index := None; children := [child] |}.

(** One member of a composite; the tokens of the members increase. *)
Definition composite_child (view : object) (segments : list object)
    (s : option bytes * list RecursiveTopologyChild) (index : usize)
    : Py (option bytes * list RecursiveTopologyChild) :=
  let '(previous_token, children) := s in
  member ← segment_at segments index "encoded recursive composite member is inaccessible";
  reference ← validate_recursive_reference view member COMPOSITE_MEMBER_SEGMENT true;
  token ← required_attribute member "member_token";
  token ← or_else (exact_bytes token)
    (encoded_buffer_error "encoded recursive composite member token is inaccessible");
  _ ← reject (negb (len token =? 32))
    (encoded_buffer_error "encoded recursive composite member token must be exact bytes32");
  _ ← reject (not_after previous_token token)
    (encoded_buffer_error "encoded recursive composite member tokens are not sorted unique");
  let selection := if reference.(reference_posting_mode) =? POSTINGS_INCLUDE then LocalOnly else All in
  mret (Some token, children ++
    [{| segment_index := index; child_view := reference.(reference_source);
        child_owner := reference.(reference_owner); child_selection := selection |}]).

(** [roles.iter().take_while(|role| **role == COMPOSITE_MEMBER_SEGMENT).count()]. *)
Fixpoint member_prefix (roles : list usize) : usize :=
  match roles with
  | role :: roles => if role =? COMPOSITE_MEMBER_SEGMENT then 1 + member_prefix roles else 0
  | [] => 0
  end.

Definition composite_node (view owner : object) (buffers : list RetainedDirectBuffer) (segments : list object)
    (roles : list usize) : Py RecursiveValidatedTopologyNode :=
  let local_root_count := len (column_of buffers 0) in
  let member_count := member_prefix roles in
  let with_bridge := (len roles =? member_count + 1) && bool_decide (last roles = Some COMPOSITE_BRIDGE_SEGMENT) in
  let bridge_count := if with_bridge then 1 else 0 in
  _ ← reject ((member_count <? 2) || negb (member_count + bridge_count =? len roles))
    (unsupported_error "encoded recursive leaf manifest has an unsupported segment family");
  '(_, children) ← foldM (composite_child view segments) (None, []) (range 0 member_count);
  local_leaf_index ← (if with_bridge then
      bridge ← segment_at segments member_count "encoded recursive composite bridge is inaccessible";
      _ ← validate_all_segment bridge COMPOSITE_BRIDGE_SEGMENT owner None "recursive composite bridge";
      _ ← reject (local_root_count =? 0)
        (encoded_buffer_error "encoded recursive composite bridge has no local roots");
      mret (Some member_count)
    else
      _ ← validate_recursive_empty_local_buffers buffers "composite";
      mret None);
  mret {| node_owner := owner; overlay_increment := 0; local_leaf_index := local_leaf_index;
          empty_direct_leaf_index := None; children := children |}.

Definition validate_recursive_topology_node (view owner : object) (buffers : list RetainedDirectBuffer)
    (segments : list object) : Py RecursiveValidatedTopologyNode :=
  roles ← segment_roles segments;
  if bool_decide (roles = [DIRECT_SEGMENT]) then
    let local_root_count := len (column_of buffers 0) in
    _ ← validate_direct_segment view owner;
    mret {| node_owner := owner; overlay_increment := 0;
            local_leaf_index := if local_root_count =? 0 then None else Some 0;
            empty_direct_leaf_index := if local_root_count =? 0 then Some 0 else None; children := [] |}
  else if bool_decide (roles = [OVERLAY_BASE_SEGMENT]) then overlay_node view owner buffers segments false
  else if bool_decide (roles = [OVERLAY_BASE_SEGMENT; OVERLAY_DELTA_SEGMENT]) then
    overlay_node view owner buffers segments true
  else composite_node view owner buffers segments roles.

(** The views validated so far, in a map by identity, and the work spent. *)
Record ValidationState := {
  validated_nodes : list (object * RecursiveValidatedTopologyNode);
  validation_work : usize;
}.

Definition validated_node (validated : list (object * RecursiveValidatedTopologyNode)) (view : object)
    : option RecursiveValidatedTopologyNode :=
  snd <$> List.find (fun entry => same entry.1 view) validated.

Definition recursive_topology_node (self : ValidationState) (view owner descriptor_sha256 : object) (max_work : usize)
    : Py (RecursiveValidatedTopologyNode * ValidationState) :=
  match validated_node self.(validated_nodes) view with
  | Some node =>
      _ ← reject (negb (same node.(node_owner) owner))
        (encoded_buffer_error "encoded recursive DAG source changed its exact owner");
      mret (node, self)
  | None =>
      _ ← validate_encoded_view_header view owner descriptor_sha256;
      buffers ← retained_structural_buffers view;
      segments ← recursive_segments view;
      _ ← reject (is_empty segments) (encoded_buffer_error "encoded recursive leaf manifest cannot be empty");
      node_work ← recursive_manifest_validation_work buffers segments;
      work ← or_else (checked_add self.(validation_work) node_work)
        (PyMemoryError "encoded recursive validation-work counter overflow");
      _ ← reject (max_work <? work) (PyMemoryError "encoded recursive validation exceeds max_canonical_work");
      node ← validate_recursive_topology_node view owner buffers segments;
      mret (node, {| validated_nodes := (view, node) :: self.(validated_nodes); validation_work := work |})
  end.

(** ** Frames *)

Record RecursiveTopologyFrame := {
  identity : object;
  selection : RecursiveLeafSelection;
  node : RecursiveValidatedTopologyNode;
  next_child : usize;
  pending_child_index : option usize;
  paths : list (list usize);
  overlay_span : usize;
  absolute_overlay_depth : usize;
}.

#[global] Instance RecursiveTopologyFrame_eta : Eta RecursiveTopologyFrame := fun f =>
  {| identity := f.(identity); selection := f.(selection); node := f.(node); next_child := f.(next_child);
     pending_child_index := f.(pending_child_index); paths := f.(paths); overlay_span := f.(overlay_span);
     absolute_overlay_depth := f.(absolute_overlay_depth) |}.

Section limits.
Context (max_overlay_depth max_leaves : usize) (retain_empty_direct_leaves : bool).

Definition depth_overflow : PyErr := PyMemoryError "encoded recursive overlay-depth counter overflow".
Definition too_deep : PyErr := encoded_buffer_error "encoded recursive leaf graph exceeds max_overlay_depth".
Definition too_many_leaves : PyErr :=
  unsupported_error "encoded recursive leaf graph exceeds its retained-table plan".

(** [node.local_leaf_index.or(..)]: the index of the local table of a view. *)
Definition leaf_index (node : RecursiveValidatedTopologyNode) : option usize :=
  match node.(local_leaf_index) with
  | Some index => Some index
  | None => if retain_empty_direct_leaves then node.(empty_direct_leaf_index) else None
  end.

Definition recursive_topology_frame (identity : object) (selection : RecursiveLeafSelection)
    (node : RecursiveValidatedTopologyNode) (parent_overlay_depth : usize) : Py RecursiveTopologyFrame :=
  absolute_overlay_depth ← or_else (checked_add parent_overlay_depth node.(overlay_increment)) depth_overflow;
  _ ← reject (max_overlay_depth <? absolute_overlay_depth) too_deep;
  let paths := match leaf_index node with Some index => [[index]] | None => [] end in
  _ ← reject (max_leaves <? len paths) too_many_leaves;
  let next_child := match selection with All => 0 | LocalOnly => len node.(children) end in
  mret {| identity := identity; selection := selection; node := node; next_child := next_child;
          pending_child_index := None; paths := paths; overlay_span := node.(overlay_increment);
          absolute_overlay_depth := absolute_overlay_depth |}.

Definition merge_recursive_topology (frame : RecursiveTopologyFrame) (segment_index : usize)
    (child : RecursiveResolvedTopology) : Py RecursiveTopologyFrame :=
  deepest_overlay ← or_else (checked_add frame.(absolute_overlay_depth) child.(resolved_overlay_span))
    depth_overflow;
  _ ← reject (max_overlay_depth <? deepest_overlay) too_deep;
  relative_overlay_span ← or_else (checked_add frame.(node).(overlay_increment) child.(resolved_overlay_span))
    depth_overflow;
  resulting_count ← or_else (checked_add (len frame.(paths)) (len child.(resolved_paths)))
    (PyMemoryError "encoded recursive leaf-count overflow");
  _ ← reject (max_leaves <? resulting_count) too_many_leaves;
  mret (frame <| overlay_span := N.max frame.(overlay_span) relative_overlay_span |>
              <| paths := frame.(paths) ++ (cons segment_index <$> child.(resolved_paths)) |>).

(** ** The search *)

(** The innermost frame first. *)
Record SearchState := {
  search_validated : ValidationState;
  resolved_topologies : list (object * RecursiveLeafSelection * RecursiveResolvedTopology);
  active : list object;
  stack : list RecursiveTopologyFrame;
}.

Definition cached (resolved : list (object * RecursiveLeafSelection * RecursiveResolvedTopology))
    (view : object) (selection : RecursiveLeafSelection) : option RecursiveResolvedTopology :=
  snd <$> List.find (fun entry => bool_decide (entry.1 = (view, selection))) resolved.

(** [pending_child_index.take()]. *)
Definition taken_pending (frame : RecursiveTopologyFrame) : RecursiveTopologyFrame :=
  frame <| pending_child_index := None |>.

(** [frame.next_child += 1]. *)
Definition advanced (frame : RecursiveTopologyFrame) : RecursiveTopologyFrame :=
  frame <| next_child := frame.(next_child) +w 1 |>.

Definition waiting (frame : RecursiveTopologyFrame) (segment_index : usize) : RecursiveTopologyFrame :=
  frame <| pending_child_index := Some segment_index |>.

(** A child of the innermost frame, whose [next_child] has been advanced. *)
Definition visit_child (descriptor_sha256 : object) (max_work : usize) (self : SearchState)
    (frame : RecursiveTopologyFrame) (frames : list RecursiveTopologyFrame) (child : RecursiveTopologyChild)
    : Py SearchState :=
  _ ← reject (existsb (same child.(child_view)) self.(active))
    (encoded_buffer_error "encoded recursive leaf graph contains an active-path cycle");
  '(child_node, validated) ← recursive_topology_node self.(search_validated) child.(child_view)
    child.(child_owner) descriptor_sha256 max_work;
  match cached self.(resolved_topologies) child.(child_view) child.(child_selection) with
  | Some resolved =>
      frame ← merge_recursive_topology frame child.(segment_index) resolved;
      mret {| search_validated := validated; resolved_topologies := self.(resolved_topologies);
              active := self.(active); stack := frame :: frames |}
  | None =>
      child_frame ← recursive_topology_frame child.(child_view) child.(child_selection) child_node
        frame.(absolute_overlay_depth);
      let frame := waiting frame child.(segment_index) in
      mret {| search_validated := validated; resolved_topologies := self.(resolved_topologies);
              active := child.(child_view) :: self.(active); stack := child_frame :: frame :: frames |}
  end.

(** The innermost frame is resolved; [inr] when it was the root's. *)
Definition resolve_frame (self : SearchState) (frame : RecursiveTopologyFrame) (frames : list RecursiveTopologyFrame)
    : Py (SearchState + RecursiveResolvedTopology) :=
  let resolved := {| resolved_paths := frame.(paths); resolved_overlay_span := frame.(overlay_span) |} in
  let active := filter (fun view => view <> frame.(identity)) self.(active) in
  let resolved_topologies := (frame.(identity), frame.(selection), resolved) :: self.(resolved_topologies) in
  match frames with
  | [] => mret (inr resolved)
  | parent :: frames =>
      segment_index ← or_else parent.(pending_child_index)
        (encoded_buffer_error "encoded recursive parent lost its child coordinate");
      parent ← merge_recursive_topology (taken_pending parent) segment_index resolved;
      mret (inl {| search_validated := self.(search_validated); resolved_topologies := resolved_topologies;
                   active := active; stack := parent :: frames |})
  end.

(** A round of the loop. *)
Definition search_round (descriptor_sha256 : object) (max_work : usize) (self : SearchState)
    : Py (SearchState + RecursiveResolvedTopology) :=
  match self.(stack) with
  | [] => inr (encoded_buffer_error "encoded recursive stack is empty")
  | frame :: frames =>
      match get frame.(node).(children) frame.(next_child) with
      | Some child =>
          self ← visit_child descriptor_sha256 max_work self
            (advanced frame) frames child;
          mret (inl self)
      | None => resolve_frame self frame frames
      end
  end.

(** [None]: more rounds than [fuel]. *)
Fixpoint search_loop (fuel : nat) (descriptor_sha256 : object) (max_work : usize) (self : SearchState)
    : option (Py (RecursiveResolvedTopology * usize)) :=
  match fuel with
  | O => None
  | S fuel =>
      match search_round descriptor_sha256 max_work self with
      | inr error => Some (inr error)
      | inl (inr resolved) => Some (inl (resolved, self.(search_validated).(validation_work)))
      | inl (inl self) => search_loop fuel descriptor_sha256 max_work self
      end
  end.

(** The paths of the root as a set; a path that occurs twice is an error. *)
Definition expected_paths (resolved : list (list usize)) : Py (gset (list usize)) :=
  expected ← foldM (fun expected path =>
      _ ← reject (bool_decide (path ∈ expected))
        (unsupported_error "encoded recursive leaf graph repeats one exact leaf path");
      mret (expected ∪ {[ path ]})) (∅ : gset (list usize)) resolved;
  _ ← reject (max_leaves <? N.of_nat (size expected)) too_many_leaves;
  mret expected.

Definition enumerate_recursive_leaf_paths (fuel : nat) (manifest manifest_owner descriptor_sha256 : object)
    (max_work : usize) : option (Py (gset (list usize) * usize)) :=
  let start : Py SearchState :=
    '(root_node, validated) ← recursive_topology_node {| validated_nodes := []; validation_work := 0 |}
      manifest manifest_owner descriptor_sha256 max_work;
    frame ← recursive_topology_frame manifest All root_node 0;
    mret {| search_validated := validated; resolved_topologies := []; active := [manifest]; stack := [frame] |} in
  match start with
  | inr error => Some (inr error)
  | inl search =>
      result ← search_loop fuel descriptor_sha256 max_work search;
      Some ('(resolved, validation_work) ← result;
            expected ← expected_paths resolved.(resolved_paths);
            mret (expected, validation_work))
  end.
End limits.
End topology.
