(* ===== verification/Leaves.v ===== *)
(** * Retained tables of a manifest

    The leaf plans of native/src/lib.rs: each row names a retained table by its
    path from the manifest, and [validate_recursive_leaf_plan] accepts the rows
    whose paths are exactly the leaves of the manifest and whose selections and
    scope maps are the objects that the manifest applies on the way. *)

From stdpp Require Import gmap.
From S2P Require Import Prelude Errors Text Readers Columns Generic Retained Objects Topology.
Local Open Scope string_scope.
Local Open Scope list_scope.
Local Open Scope N_scope.

Section leaves.
Context `{Python}.

Record DynamicCompositeMemberInput := {
  input_view : object;
  input_owner : object;
  input_descriptor_sha256 : object;
  input_included_root_ids : option object;
  input_excluded_root_ids : option object;
  input_anonymous_scope_map : option object;
  input_anonymous_scope_map_chain : option (list object);
  input_path : option object;
}.

(** ** Rows *)

Definition optional_composite_row_item (row : list object) (index : usize) (name : string) : Py (option object) :=
  value ← or_else (get row index) (encoded_buffer_error ("encoded composite " +:+ name +:+ " is inaccessible"));
  mret (if is_none value then None else Some value).

Definition row_item (row : list object) (index : usize) (message : string) : Py object :=
  or_else (get row index) (encoded_buffer_error message).

Definition parse_row (value : object) : Py DynamicCompositeMemberInput :=
  row ← or_else (exact_tuple value)
    (encoded_buffer_error "encoded dynamic composite rows must be exact tuples");
  _ ← reject (negb ((len row =? 6) || (len row =? 7)))
    (encoded_buffer_error "encoded dynamic composite rows require six fields or one recursive path");
  let recursive := len row =? 7 in
  '(scope_map, chain) ← (if recursive then
      value ← row_item row 5 "encoded recursive anonymous scope-map chain is inaccessible";
      chain ← or_else (exact_tuple value)
        (encoded_buffer_error "encoded recursive anonymous scope-map chain must be an exact tuple");
      mret (None, Some chain)
    else
      scope_map ← optional_composite_row_item row 5 "member anonymous scope map";
      mret (scope_map, None));
  view ← row_item row 0 "encoded composite member view is inaccessible";
  owner ← row_item row 1 "encoded composite member owner is inaccessible";
  descriptor_sha256 ← row_item row 2 "encoded composite member digest is inaccessible";
  included_root_ids ← optional_composite_row_item row 3 "member INCLUDE selection";
  excluded_root_ids ← optional_composite_row_item row 4 "member EXCLUDE selection";
  path ← (if recursive then
      path ← row_item row 6 "encoded recursive leaf path is inaccessible"; mret (Some path)
    else mret None);
  mret {| input_view := view; input_owner := owner; input_descriptor_sha256 := descriptor_sha256;
          input_included_root_ids := included_root_ids; input_excluded_root_ids := excluded_root_ids;
          input_anonymous_scope_map := scope_map; input_anonymous_scope_map_chain := chain;
          input_path := path |}.

Definition parse_dynamic_composite_members (value : object) : Py (list DynamicCompositeMemberInput) :=
  rows ← or_else (exact_tuple value)
    (encoded_buffer_error "encoded dynamic composite members must be an exact tuple");
  _ ← reject (len rows <? 2) (unsupported_error "encoded dynamic composite requires at least two members");
  foldM (fun members value => member ← parse_row value; mret (members ++ [member])) [] rows.

Definition retain_dynamic_scope_maps (input : DynamicCompositeMemberInput) (label : string)
    : Py (list RetainedDirectBuffer) :=
  match input.(input_anonymous_scope_map_chain), input.(input_anonymous_scope_map) with
  | Some chain, _ =>
      foldM (fun buffers value =>
        buffer ← retained_exact_bytes_buffer value label;
        _ ← reject (is_empty (as_slice buffer) || negb (len (as_slice buffer) mod 64 =? 0))
          (encoded_buffer_error "encoded recursive scope-map chain contains an invalid map");
        mret (buffers ++ [buffer])) [] chain
  | None, Some value => buffer ← retained_exact_bytes_buffer value label; mret [buffer]
  | None, None => mret []
  end.

Definition direct_composite_validation_work (manifest : object) (inputs : list DynamicCompositeMemberInput)
    (validated : list object) : Py (usize * list object) :=
  foldM (fun '(work, validated) view =>
    if existsb (same view) validated then mret (work, validated) else
    buffers ← retained_structural_buffers view;
    segments ← recursive_segments view;
    view_work ← recursive_manifest_validation_work buffers segments;
    work ← or_else (checked_add work view_work)
      (PyMemoryError "encoded direct validation-work counter overflow");
    mret (work, view :: validated)) (0, validated) (manifest :: (input_view <$> inputs)).

(** ** Scope maps *)

Definition optional_recursive_binding_matches (observed expected : option object) : bool :=
  match observed, expected with
  | None, None => true
  | Some observed, Some expected => same observed expected
  | _, _ => false
  end.

Definition recursive_u64_at (bytes : bytes) (index : usize) : option usize :=
  offset ← checked_mul index 8;
  end_ ← checked_add offset 8;
  row ← get_range bytes offset end_;
  Some (from_le_bytes row).

(** [chunks_exact(64).find(|row| row[..32] == scope)]. *)
Definition scope_row (map scope : bytes) : option bytes :=
  List.find (fun row => bool_decide (take 32 row = scope)) (chunks_exact 64 map).

(** A scope under the maps that were applied before. *)
Definition effective_scope (prior_maps : list object) (scope : bytes) : Py bytes :=
  foldM (fun effective prior =>
    prior ← retained_exact_bytes_buffer prior "recursive anonymous_scope_map";
    mret (match scope_row (as_slice prior) effective with
          | Some row => drop 32 row
          | None => effective
          end)) scope prior_maps.

(** Saturating [usize] addition. *)
Definition saturating_add (a b : usize) : usize := N.min (a + b) usize_max.

(** A node of the view; [Return true] when its scope is a source of the map. *)
Definition scope_map_node (buffers : list RetainedDirectBuffer) (prior_maps : list object) (map : bytes)
    (_ : unit) (node_index : usize) : Py (control unit bool) :=
  let node_offsets := column_of buffers 3 in
  let field_values := column_of buffers 5 in
  let tag := from_le_bytes (take 2 (drop (N.to_nat (node_index * 2)) (column_of buffers 2))) in
  if negb (tag =? 3) then mret (Continue tt) else
  start ← or_else (recursive_u64_at node_offsets node_index)
    (encoded_buffer_error "encoded recursive node offsets are inaccessible");
  end_ ← or_else (recursive_u64_at node_offsets (node_index +w 1))
    (encoded_buffer_error "encoded recursive node offsets are inaccessible");
  if (end_ <=? start)
     || negb (bool_decide (u8_of_byte <$> get (column_of buffers 4) start = Some 3))
     || negb (bool_decide (recursive_u64_at (column_of buffers 6) start = Some 32))
  then mret (Continue tt) else
  scope_offset ← or_else (recursive_u64_at field_values start)
    (encoded_buffer_error "encoded recursive anonymous scope offset is inaccessible");
  scope ← or_else (get_range (column_of buffers 10) scope_offset (saturating_add scope_offset 32))
    (encoded_buffer_error "encoded recursive anonymous scope is out of range");
  _ ← reject (negb (len scope =? 32))
    (encoded_buffer_error "encoded recursive anonymous scope is not bytes32");
  effective ← effective_scope prior_maps scope;
  mret (if scope_row map effective then Return true else Continue tt).

Definition recursive_scope_map_applies (view : object) (prior_maps : list object) (scope_map : object) : Py bool :=
  buffers ← retained_structural_buffers view;
  map ← retained_exact_bytes_buffer scope_map "recursive anonymous_scope_map";
  result ← fold_until (scope_map_node buffers prior_maps (as_slice map)) tt
    (range 0 (len (column_of buffers 2) / 2));
  mret (match result with Return applies => applies | Continue _ => false end).

Definition recursive_scope_chain_matches (input : DynamicCompositeMemberInput) (expected : list object) : bool :=
  match input.(input_anonymous_scope_map_chain) with
  | None => false
  | Some observed => bool_decide (observed = expected)
  end.

(** ** Paths *)

Definition recursive_input_path (input : DynamicCompositeMemberInput) : Py (list usize) :=
  raw_path ← or_else input.(input_path)
    (encoded_buffer_error "encoded recursive retained table lost its exact path");
  path ← or_else (exact_tuple raw_path)
    (encoded_buffer_error "encoded recursive retained-table path must be an exact tuple");
  _ ← reject (is_empty path)
    (encoded_buffer_error "encoded recursive retained-table path cannot be empty");
  foldM (fun result coordinate =>
    _ ← reject (negb (is_exact_int coordinate))
      (encoded_buffer_error "encoded recursive path coordinates must be exact integers");
    coordinate ← or_else (extract_usize coordinate)
      (encoded_buffer_error "encoded recursive path coordinate is out of range");
    mret (result ++ [coordinate])) [] path.

Definition validate_recursive_missing_local_leaf (view owner : object) (segment_index : usize)
    (input : DynamicCompositeMemberInput) : Py unit :=
  _ ← reject (negb (same view input.(input_view)) || negb (same owner input.(input_owner)))
    (encoded_buffer_error "encoded recursive missing ROOT leaf ended at another retained table");
  segments ← recursive_segments view;
  roles ← segment_roles segments;
  let missing_delta := (segment_index =? 1) && bool_decide (roles = [OVERLAY_BASE_SEGMENT]) in
  let member_count := member_prefix roles in
  let missing_bridge := (2 <=? member_count) && (segment_index =? member_count) && (member_count =? len roles) in
  _ ← reject (negb missing_delta && negb missing_bridge)
    (encoded_buffer_error "encoded recursive ROOT path lost a noncanonical local segment");
  buffers ← retained_structural_buffers view;
  validate_recursive_empty_local_buffers buffers "paired ROOT container".

(** What a walk along a path has collected; the scope maps outermost first. *)
Record Walk := {
  current_view : object;
  current_owner : object;
  expected_include : option object;
  expected_exclude : option object;
  encountered_scope_maps : list object;
}.

(** The selection that the reference at [index] makes of the table. *)
Definition select (input : DynamicCompositeMemberInput) (reference : RecursiveReference) (penultimate : bool)
    (walk : Walk) : Py (option object * option object) :=
  let multiple := bool_decide (is_Some walk.(expected_include)) || bool_decide (is_Some walk.(expected_exclude)) in
  let multiple_error := encoded_buffer_error "encoded recursive leaf received multiple selectors" in
  if reference.(reference_posting_mode) =? POSTINGS_INCLUDE then
    _ ← reject (negb (same reference.(reference_source) input.(input_view)) || negb penultimate)
      (encoded_buffer_error "encoded recursive INCLUDE selected a nonlocal descendant leaf");
    _ ← reject multiple multiple_error;
    mret (Some reference.(reference_root_ids), walk.(expected_exclude))
  else if (reference.(reference_posting_mode) =? POSTINGS_EXCLUDE)
      && same reference.(reference_source) input.(input_view) then
    _ ← reject multiple multiple_error;
    mret (walk.(expected_include), Some reference.(reference_root_ids))
  else mret (walk.(expected_include), walk.(expected_exclude)).

(** The walk along the rest of a path. *)
Fixpoint walk_path (input : DynamicCompositeMemberInput) (allow_missing_local_leaf : bool)
    (path : list usize) (walk : Walk) : Py Walk :=
  match path with
  | [] => mret walk
  | segment_index :: rest =>
      segments ← recursive_segments walk.(current_view);
      let terminal := is_empty rest in
      match get segments segment_index with
      | None =>
          if terminal && allow_missing_local_leaf then
            _ ← validate_recursive_missing_local_leaf walk.(current_view) walk.(current_owner) segment_index input;
            mret walk
          else
            inr (encoded_buffer_error "encoded recursive path coordinate is absent from its exact container")
      | Some segment =>
          role ← recursive_segment_role segment;
          if terminal then
            _ ← reject (negb (same walk.(current_view) input.(input_view))
                || negb (same walk.(current_owner) input.(input_owner)))
              (encoded_buffer_error "encoded recursive leaf path ended at another retained table");
            _ ← reject (negb ((role =? DIRECT_SEGMENT) || (role =? OVERLAY_DELTA_SEGMENT)
                || (role =? COMPOSITE_BRIDGE_SEGMENT)))
              (encoded_buffer_error "encoded recursive path does not end at a local leaf segment");
            _ ← validate_all_segment segment role walk.(current_owner) None "recursive retained leaf";
            mret walk
          else
            reference ← validate_recursive_reference walk.(current_view) segment role false;
            '(include, exclude) ← select input reference (len rest =? 1) walk;
            scope_map_bytes ← checked_memoryview_length reference.(reference_scope_map) "anonymous_scope_map";
            walk_path input allow_missing_local_leaf rest
              {| current_view := reference.(reference_source); current_owner := reference.(reference_owner);
                 expected_include := include; expected_exclude := exclude;
                 encountered_scope_maps := walk.(encountered_scope_maps)
                   ++ (if scope_map_bytes =? 0 then [] else [reference.(reference_scope_map)]) |}
      end
  end.

(** [for scope_map in encountered_scope_maps.into_iter().rev()]. *)
Definition expected_scope_maps (view : object) (encountered : list object) : Py (list object) :=
  foldM (fun expected scope_map =>
    applies ← recursive_scope_map_applies view expected scope_map;
    mret (if applies : bool then expected ++ [scope_map] else expected)) [] (rev encountered).

Definition validate_recursive_member_path (manifest manifest_owner : object) (input : DynamicCompositeMemberInput)
    (expected_paths : gset (list usize)) (allow_missing_local_leaf : bool) : Py (gset (list usize)) :=
  path ← recursive_input_path input;
  _ ← reject (negb (bool_decide (path ∈ expected_paths)))
    (encoded_buffer_error "encoded recursive retained-table path is absent or duplicated");
  walk ← walk_path input allow_missing_local_leaf path
    {| current_view := manifest; current_owner := manifest_owner; expected_include := None;
       expected_exclude := None; encountered_scope_maps := [] |};
  scope_maps ← expected_scope_maps input.(input_view) walk.(encountered_scope_maps);
  _ ← reject (negb (optional_recursive_binding_matches input.(input_included_root_ids) walk.(expected_include))
      || negb (optional_recursive_binding_matches input.(input_excluded_root_ids) walk.(expected_exclude))
      || negb (recursive_scope_chain_matches input scope_maps))
    (encoded_buffer_error "encoded recursive leaf parameters lost exact source-local identity");
  mret (expected_paths ∖ {[ path ]}).

Definition validate_recursive_leaf_plan (fuel : nat) (manifest manifest_owner descriptor_sha256 : object)
    (inputs : list DynamicCompositeMemberInput) (max_work max_overlay_depth : usize)
    (retain_empty_direct_leaves : bool) : option (Py usize) :=
  if len inputs <? 2 then
    Some (inr (unsupported_error "encoded recursive leaf plan requires at least two retained tables"))
  else
    enumerated ← enumerate_recursive_leaf_paths max_overlay_depth (len inputs) retain_empty_direct_leaves fuel
      manifest manifest_owner descriptor_sha256 max_work;
    Some ('(expected, validation_work) ← enumerated;
          remaining ← foldM (fun expected input =>
            validate_recursive_member_path manifest manifest_owner input expected false) expected inputs;
          _ ← reject (negb (bool_decide (remaining = ∅)))
            (encoded_buffer_error "encoded recursive leaf plan omitted one selected local table");
          mret validation_work).

(** ** A ROOT manifest beside its CLOSURE *)

(** The two walks of a pair of rows. *)
Record PairedWalk := {
  closure_view : object;
  closure_owner : object;
  root_view : object;
  root_owner : object;
}.

(** The same reference in both manifests. *)
Definition pair_reference (walk : PairedWalk) (closure_segment root_segment : object) (role : usize)
    : Py PairedWalk :=
  _ ← reject (negb ((role =? OVERLAY_BASE_SEGMENT) || (role =? COMPOSITE_MEMBER_SEGMENT)))
    (encoded_buffer_error "encoded recursive paired path crosses a nonreference segment");
  closure_reference ← validate_recursive_reference walk.(closure_view) closure_segment role false;
  root_reference ← validate_recursive_reference walk.(root_view) root_segment role false;
  _ ← reject (negb (same closure_reference.(reference_owner) root_reference.(reference_owner)))
    (encoded_buffer_error "encoded recursive ROOT reference changed its CLOSURE source owner");
  _ ← (if role =? COMPOSITE_MEMBER_SEGMENT then
      closure_attribute ← required_attribute closure_segment "member_token";
      root_attribute ← required_attribute root_segment "member_token";
      closure_token ← or_else (exact_bytes closure_attribute)
        (encoded_buffer_error "encoded recursive CLOSURE member token is inaccessible");
      root_token ← or_else (exact_bytes root_attribute)
        (encoded_buffer_error "encoded recursive ROOT member token is inaccessible");
      reject (negb (bool_decide (closure_token = root_token)))
        (encoded_buffer_error "encoded recursive ROOT member changed its CLOSURE token")
    else mret tt);
  mret {| closure_view := closure_reference.(reference_source); closure_owner := closure_reference.(reference_owner);
          root_view := root_reference.(reference_source); root_owner := root_reference.(reference_owner) |}.

Fixpoint walk_pair (root_input : DynamicCompositeMemberInput) (path : list usize) (walk : PairedWalk)
    : Py PairedWalk :=
  match path with
  | [] => mret walk
  | coordinate :: rest =>
      let terminal := is_empty rest in
      closure_segments ← recursive_segments walk.(closure_view);
      closure_segment ← segment_at closure_segments coordinate
        "encoded recursive CLOSURE coordinate is absent from its container";
      closure_role ← recursive_segment_role closure_segment;
      root_segments ← recursive_segments walk.(root_view);
      match get root_segments coordinate with
      | None =>
          if terminal then
            _ ← validate_recursive_missing_local_leaf walk.(root_view) walk.(root_owner) coordinate root_input;
            mret walk
          else inr (encoded_buffer_error "encoded recursive ROOT reference coordinate is absent")
      | Some root_segment =>
          root_role ← recursive_segment_role root_segment;
          _ ← reject (negb (closure_role =? root_role))
            (encoded_buffer_error "encoded recursive ROOT coordinate changed its CLOSURE role");
          if terminal then mret walk
          else
            walk ← pair_reference walk closure_segment root_segment closure_role;
            walk_pair root_input rest walk
      end
  end.

Definition validate_pair (closure_manifest closure_manifest_owner root_manifest root_manifest_owner : object)
    (pair : DynamicCompositeMemberInput * DynamicCompositeMemberInput) : Py unit :=
  let '(closure_input, root_input) := pair in
  closure_path ← recursive_input_path closure_input;
  root_path ← recursive_input_path root_input;
  _ ← reject (negb (bool_decide (closure_path = root_path))
      || negb (same closure_input.(input_owner) root_input.(input_owner)))
    (encoded_buffer_error "encoded recursive ROOT leaf lost its stable CLOSURE coordinate or owner");
  walk ← walk_pair root_input closure_path
    {| closure_view := closure_manifest; closure_owner := closure_manifest_owner;
       root_view := root_manifest; root_owner := root_manifest_owner |};
  reject (negb (same walk.(closure_view) closure_input.(input_view))
      || negb (same walk.(closure_owner) closure_input.(input_owner))
      || negb (same walk.(root_view) root_input.(input_view))
      || negb (same walk.(root_owner) root_input.(input_owner)))
    (encoded_buffer_error "encoded recursive paired path ended at another retained table").

Definition validate_recursive_manifest_pair (closure_manifest closure_manifest_owner : object)
    (closure_inputs : list DynamicCompositeMemberInput) (root_manifest root_manifest_owner : object)
    (root_inputs : list DynamicCompositeMemberInput) : Py unit :=
  _ ← reject (negb (same closure_manifest_owner root_manifest_owner)
      || negb (len closure_inputs =? len root_inputs))
    (encoded_buffer_error "encoded recursive ROOT manifest lost its CLOSURE owner or row pairing");
  forM (zip closure_inputs root_inputs)
    (validate_pair closure_manifest closure_manifest_owner root_manifest root_manifest_owner).

(** The paths of the rows, which are distinct and the same in both manifests. *)
Definition pair_path (paired : gset (list usize)) (pair : DynamicCompositeMemberInput * DynamicCompositeMemberInput)
    : Py (gset (list usize)) :=
  closure_path ← recursive_input_path pair.1;
  root_path ← recursive_input_path pair.2;
  _ ← reject (negb (bool_decide (closure_path = root_path)) || bool_decide (closure_path ∈ paired))
    (encoded_buffer_error "encoded recursive ROOT plan lost or duplicated a stable CLOSURE path");
  mret (paired ∪ {[ closure_path ]}).

Definition validate_recursive_root_plan (fuel : nat) (closure_manifest closure_manifest_owner : object)
    (closure_inputs : list DynamicCompositeMemberInput)
    (root_manifest root_manifest_owner root_descriptor_sha256 : object)
    (root_inputs : list DynamicCompositeMemberInput) (max_work max_overlay_depth : usize)
    (retain_empty_direct_leaves : bool) : option (Py unit) :=
  let start : Py (gset (list usize)) :=
    _ ← reject (negb (len closure_inputs =? len root_inputs))
      (encoded_buffer_error "encoded recursive ROOT plan must pair every CLOSURE leaf");
    foldM pair_path ∅ (zip closure_inputs root_inputs) in
  match start with
  | inr error => Some (inr error)
  | inl paired_paths =>
      enumerated ← enumerate_recursive_leaf_paths max_overlay_depth (len root_inputs) retain_empty_direct_leaves
        fuel root_manifest root_manifest_owner root_descriptor_sha256 max_work;
      Some ('(actual_root_paths, _) ← enumerated;
            _ ← reject (negb (bool_decide (actual_root_paths ⊆ paired_paths)))
              (encoded_buffer_error "encoded recursive ROOT manifest contains an unpaired selected leaf");
            remaining ← foldM (fun remaining input =>
              validate_recursive_member_path root_manifest root_manifest_owner input remaining true)
              paired_paths root_inputs;
            _ ← reject (negb (bool_decide (remaining = ∅)))
              (encoded_buffer_error "encoded recursive ROOT plan omitted one paired CLOSURE leaf");
            validate_recursive_manifest_pair closure_manifest closure_manifest_owner closure_inputs
              root_manifest root_manifest_owner root_inputs)
  end.
End leaves.
