(* ===== verification/Manifests.v ===== *)
(** * Composite manifests

    The manifests of native/src/lib.rs that name their members directly: two
    members, any number of them, a composite nested in a member, and the ROOT
    manifest beside a CLOSURE one.  Each checks that a manifest has no rows of
    its own and that its segments are exactly the retained members, with the
    selections and scope maps that were retained, in the order of their tokens. *)

From S2P Require Import Prelude Errors Lists Text Readers Columns Generic Retained Objects Topology Leaves.
Local Open Scope string_scope.
Local Open Scope list_scope.
Local Open Scope N_scope.

Section manifests.
Context `{Python}.

(** ** What the manifests share *)

(** A manifest without rows of its own. *)
Definition no_local_rows (encoded_view : object) (columns_error bridge_error : PyErr) : Py unit :=
  buffers ← retained_structural_buffers encoded_view;
  forM (zip BUFFER_NAMES buffers) (fun '(name, buffer) =>
    let bytes := as_slice buffer in
    if bool_decide (name = "node_field_offsets") then reject (negb (bool_decide (bytes = repeat Byte.x00 8))) columns_error
    else reject (negb (is_empty bytes)) bridge_error).

(** The role of a member segment. *)
Definition member_role (segment : object) (error : PyErr) : Py unit :=
  role ← integer_attribute segment "role" "segment role";
  reject (negb (role =? COMPOSITE_MEMBER_SEGMENT)) error.

Definition member_owner_is (segment owner : object) (label : string) : Py unit :=
  observed ← required_attribute segment "owner";
  reject (negb (same observed owner))
    (encoded_buffer_error (label +:+ " lost its retained owner identity")).

(** The posting mode and the table of roots of a member. *)
Definition member_postings (segment : object) : Py (usize * object * usize) :=
  posting_mode ← integer_attribute segment "posting_mode" "segment posting_mode";
  '(root_ids, root_id_bytes) ← buffer_attribute segment "root_ids";
  mret (posting_mode, root_ids, root_id_bytes).

(** A selection of [mode] by the retained table. *)
Definition selected_by (mode : usize) (expected : object) (postings : usize * object * usize)
    (mode_error table_error : PyErr) : Py unit :=
  let '(posting_mode, root_ids, root_id_bytes) := postings in
  _ ← reject (negb (posting_mode =? mode) || (root_id_bytes =? 0)) mode_error;
  reject (negb (same root_ids expected)) table_error.

Definition member_selection (include exclude : option object) (postings : usize * object * usize)
    (all_error include_error exclude_error both_error : PyErr) : Py unit :=
  let '(posting_mode, _, root_id_bytes) := postings in
  match include, exclude with
  | None, None => reject (negb (posting_mode =? POSTINGS_ALL) || negb (root_id_bytes =? 0)) all_error
  | Some expected, None => selected_by POSTINGS_INCLUDE expected postings include_error
      (encoded_buffer_error "encoded composite member lost its exact INCLUDE table")
  | None, Some expected => selected_by POSTINGS_EXCLUDE expected postings exclude_error
      (encoded_buffer_error "encoded composite member lost its exact EXCLUDE table")
  | Some _, Some _ => inr both_error
  end.

Definition member_scope_map (segment : object) (expected : option object) (label : string)
    (unexpected_error : PyErr) : Py unit :=
  '(scope_map, scope_map_bytes) ← buffer_attribute segment "anonymous_scope_map";
  match expected with
  | None => reject (negb (scope_map_bytes =? 0)) unexpected_error
  | Some expected =>
      _ ← reject (scope_map_bytes =? 0) (encoded_buffer_error (label +:+ " lost its anonymous scope map"));
      reject (negb (same scope_map expected))
        (encoded_buffer_error (label +:+ " lost its exact anonymous scope map"))
  end.

Definition member_token (segment : object) (label : string) (previous_token : option bytes) : Py bytes :=
  token ← required_attribute segment "member_token";
  token ← or_else (exact_bytes token) (encoded_buffer_error (label +:+ " token must be exact immutable bytes"));
  _ ← reject (negb (len token =? 32))
    (encoded_buffer_error (label +:+ " token must contain exactly 32 bytes"));
  _ ← reject (not_after previous_token token)
    (encoded_buffer_error (label +:+ " tokens are not sorted unique"));
  mret token.

(** [matched[index] = true], an error when it is already. *)
Definition match_member (matched : list bool) (index : usize) (error : PyErr) : Py (list bool) :=
  _ ← reject (default false (get matched index)) error;
  mret (<[N.to_nat index := true]> matched).

(** ** Two members *)

Definition two_member_selectors (left_view left_owner right_view right_owner source : object)
    (include exclude right_exclude scope_map right_scope_map : option object) (matched : bool * bool)
    : Py ((bool * bool) * (object * option object * option object * option object)) :=
  let '(matched_left, matched_right) := matched in
  if same source left_view then
    _ ← reject matched_left (encoded_buffer_error "encoded composite repeats its left source identity");
    mret ((true, matched_right), (left_owner, include, exclude, scope_map))
  else if same source right_view then
    _ ← reject matched_right (encoded_buffer_error "encoded composite repeats its right source identity");
    mret ((matched_left, true), (right_owner, None, right_exclude, right_scope_map))
  else inr (encoded_buffer_error "encoded composite member lost its retained source identity").

Definition two_member_segment (left_view left_owner right_view right_owner : object)
    (include exclude right_exclude scope_map right_scope_map : option object)
    (s : (bool * bool) * option bytes) (segment : object) : Py ((bool * bool) * option bytes) :=
  let label := "encoded composite member" in
  let '(matched, previous_token) := s in
  _ ← member_role segment (unsupported_error "bounded two-member composite requires member-only segments");
  source ← required_attribute segment "source";
  '(matched, (member_owner, expected_include, expected_exclude, expected_scope_map)) ←
    two_member_selectors left_view left_owner right_view right_owner source include exclude right_exclude
      scope_map right_scope_map matched;
  _ ← member_owner_is segment member_owner label;
  postings ← member_postings segment;
  _ ← member_selection expected_include expected_exclude postings
    (unsupported_error "bounded two-member composite requires ALL selection on every unposted member")
    (unsupported_error "bounded two-member composite requires one nonempty INCLUDE table")
    (unsupported_error "bounded two-member composite requires one nonempty EXCLUDE table")
    (encoded_buffer_error "encoded composite member has ambiguous duplicate selectors");
  _ ← member_scope_map segment expected_scope_map label
    (unsupported_error "bounded two-member composite received an unexpected anonymous scope map");
  token ← member_token segment label previous_token;
  mret (matched, Some token).

Definition validate_two_member_composite_manifest
    (encoded_view expected_owner descriptor_sha256 left_view left_owner right_view right_owner : object)
    (include exclude right_exclude scope_map right_scope_map : option object) : Py unit :=
  _ ← validate_encoded_view_header encoded_view expected_owner descriptor_sha256;
  _ ← reject (same left_view right_view || same left_owner right_owner)
    (unsupported_error "bounded two-member composite requires distinct direct members");
  _ ← no_local_rows encoded_view
    (unsupported_error "bounded two-member composite requires empty local columns")
    (unsupported_error "bounded two-member composite does not support bridge roots");
  segments ← segment_tuple encoded_view "encoded composite segment manifest must be an exact tuple";
  _ ← reject (negb (len segments =? 2))
    (unsupported_error "bounded two-member composite requires exactly two member segments");
  '((matched_left, matched_right), _) ←
    foldM (two_member_segment left_view left_owner right_view right_owner include exclude right_exclude
      scope_map right_scope_map) ((false, false), None) segments;
  reject (negb matched_left || negb matched_right)
    (encoded_buffer_error "encoded composite did not retain both merge tables").

(** ** Any number of members *)

(** [CompositeMemberBinding]. *)
Record CompositeMemberBinding := {
  binding_view : object;
  binding_owner : object;
  binding_include : option object;
  binding_exclude : option object;
  binding_scope_map : option object;
}.

(** Every pair of members is distinct, the pairs in order. *)
Fixpoint distinct_members (members : list CompositeMemberBinding) (error : PyErr) : Py unit :=
  match members with
  | [] => mret tt
  | member :: rest =>
      _ ← forM rest (fun other =>
        reject (same member.(binding_view) other.(binding_view) || same member.(binding_owner) other.(binding_owner))
          error);
      distinct_members rest error
  end.

(** The first member whose view is the source. *)
Fixpoint member_position (members : list CompositeMemberBinding) (source : object) : option usize :=
  match members with
  | [] => None
  | member :: members =>
      if same source member.(binding_view) then Some 0 else N.succ <$> member_position members source
  end.

Definition member_index (members : list CompositeMemberBinding) (require_manifest_order : bool) (index : usize)
    (source : object) : Py usize :=
  if require_manifest_order then
    _ ← reject (negb (bool_decide (Some source = binding_view <$> get members index)))
      (encoded_buffer_error "encoded dynamic composite member lost its exact manifest order");
    mret index
  else
    or_else (member_position members source)
      (encoded_buffer_error "encoded composite member lost its retained source identity").

Definition direct_member_segment (members : list CompositeMemberBinding) (require_manifest_order : bool)
    (s : list bool * option bytes) (indexed : usize * object) : Py (list bool * option bytes) :=
  let label := "encoded composite member" in
  let bounded text := unsupported_error ("bounded " +:+ pretty (len members) +:+ "-member composite " +:+ text) in
  let '(matched, previous_token) := s in
  let '(index, segment) := indexed in
  _ ← member_role segment (bounded "requires member-only segments");
  source ← required_attribute segment "source";
  member_index ← member_index members require_manifest_order index source;
  matched ← match_member matched member_index
    (encoded_buffer_error "encoded composite repeats one retained source identity");
  binding ← or_else (get members member_index)
    (encoded_buffer_error "encoded composite member lost its retained source identity");
  _ ← member_owner_is segment binding.(binding_owner) label;
  postings ← member_postings segment;
  _ ← member_selection binding.(binding_include) binding.(binding_exclude) postings
    (bounded "requires ALL selection on every unposted member")
    (bounded "requires nonempty INCLUDE tables") (bounded "requires nonempty EXCLUDE tables")
    (encoded_buffer_error "encoded composite member cannot combine INCLUDE and EXCLUDE tables");
  _ ← member_scope_map segment binding.(binding_scope_map) label
    (encoded_buffer_error "encoded composite member received an unexpected anonymous scope map");
  token ← member_token segment label previous_token;
  mret (matched, Some token).

Definition validate_direct_member_composite_manifest (encoded_view expected_owner descriptor_sha256 : object)
    (members : list CompositeMemberBinding) (require_manifest_order : bool) : Py unit :=
  let member_count := len members in
  let bounded text := unsupported_error ("bounded " +:+ pretty member_count +:+ "-member composite " +:+ text) in
  _ ← reject (member_count <? 2)
    (unsupported_error "bounded direct-member composite requires at least two members");
  _ ← validate_encoded_view_header encoded_view expected_owner descriptor_sha256;
  _ ← distinct_members members (bounded "requires distinct direct members");
  _ ← no_local_rows encoded_view (bounded "requires empty local columns") (bounded "does not support bridge roots");
  segments ← segment_tuple encoded_view "encoded composite segment manifest must be an exact tuple";
  _ ← reject (negb (len segments =? member_count))
    (bounded ("requires exactly " +:+ pretty member_count +:+ " member segments"));
  '(matched, _) ← foldM (direct_member_segment members require_manifest_order)
    (replicate (length members) false, None) (zip (range 0 member_count) segments);
  reject (negb (forallb id matched))
    (encoded_buffer_error ("encoded composite did not retain all " +:+ pretty member_count +:+ " merge tables")).

(** ** A ROOT manifest beside its CLOSURE *)

Definition paired_segment (pair : object * object) : Py unit :=
  let '(closure, root) := pair in
  let lost := encoded_buffer_error "encoded composite ROOT member lost its exact token/owner pairing" in
  closure_role ← integer_attribute closure "role" "segment role";
  root_role ← integer_attribute root "role" "segment role";
  closure_member_owner ← required_attribute closure "owner";
  root_member_owner ← required_attribute root "owner";
  closure_token ← required_attribute closure "member_token";
  root_token ← required_attribute root "member_token";
  _ ← reject (negb (closure_role =? COMPOSITE_MEMBER_SEGMENT) || negb (root_role =? COMPOSITE_MEMBER_SEGMENT)
      || negb (same closure_member_owner root_member_owner)) lost;
  closure_token ← or_else (exact_bytes closure_token) lost;
  root_token ← or_else (exact_bytes root_token) lost;
  reject (negb (bool_decide (closure_token = root_token))) lost.

Definition validate_paired_composite_manifests (closure_view closure_owner root_view root_owner : object)
    (member_count : usize) : Py unit :=
  let tuples := encoded_buffer_error "encoded paired composite manifests must be exact tuples" in
  _ ← reject (negb (same closure_owner root_owner))
    (encoded_buffer_error "encoded composite ROOT manifest belongs to another closure owner");
  closure_segments ← required_attribute closure_view "segments";
  root_segments ← required_attribute root_view "segments";
  closure_segments ← or_else (exact_tuple closure_segments) tuples;
  root_segments ← or_else (exact_tuple root_segments) tuples;
  _ ← reject (negb (len closure_segments =? member_count) || negb (len root_segments =? member_count))
    (encoded_buffer_error "encoded composite ROOT manifest lost its positional member pairing");
  forM (zip closure_segments root_segments) paired_segment.

(** ** A composite nested in a member *)

(** [NestedDirectMemberBinding]. *)
Record NestedDirectMemberBinding := {
  direct_view : object;
  direct_owner : object;
  direct_exclude : option object;
}.

Section nested.
Context (nested_view nested_owner base_view base_owner : object).
Context (nested_excluded_root_ids : option object) (direct_members : list NestedDirectMemberBinding).
Context (anonymous_scope_map right_anonymous_scope_map : option object).

Definition not_distinct : PyErr :=
  unsupported_error "bounded nested-member composite requires distinct retained sources".

Definition distinct_direct_member (indexed : usize * NestedDirectMemberBinding) : Py unit :=
  let '(index, member) := indexed in
  let view := member.(direct_view) in
  let owner := member.(direct_owner) in
  _ ← reject (same view nested_view || same view base_view || same owner nested_owner || same owner base_owner)
    not_distinct;
  forM (take (N.to_nat index) direct_members) (fun prior =>
    reject (same view prior.(direct_view) || same owner prior.(direct_owner)) not_distinct).

Fixpoint direct_position (members : list NestedDirectMemberBinding) (source : object)
    : option (usize * NestedDirectMemberBinding) :=
  match members with
  | [] => None
  | member :: members =>
      if same source member.(direct_view) then Some (0, member)
      else prod_map N.succ id <$> direct_position members source
  end.

(** The outer member of a source: its number, its owner and its selection. *)
Definition outer_member (source : object) : Py (usize * object * option object) :=
  if same source nested_view then mret (0, nested_owner, nested_excluded_root_ids)
  else
    '(index, member) ← or_else (direct_position direct_members source)
      (encoded_buffer_error "encoded nested composite member lost its retained source identity");
    mret (index +w 1, member.(direct_owner), member.(direct_exclude)).

Definition nested_selection (member_index : usize) (expected : option object)
    (postings : usize * object * usize) : Py unit :=
  let '(posting_mode, root_ids, root_id_bytes) := postings in
  match expected with
  | None => reject (negb ((posting_mode =? POSTINGS_ALL) && (root_id_bytes =? 0)))
      (unsupported_error "bounded nested-member composite received an unexpected outer EXCLUDE table")
  | Some expected =>
      _ ← reject (negb (posting_mode =? POSTINGS_EXCLUDE) || (root_id_bytes =? 0))
        (unsupported_error
          "bounded nested-member composite requires a nonempty direct-sibling EXCLUDE table");
      reject (negb (same root_ids expected))
        (encoded_buffer_error (if member_index =? 0
           then "encoded nested member lost its exact EXCLUDE table"
           else "encoded nested direct sibling lost its exact EXCLUDE table"))
  end.

Definition nested_segment (s : list bool * option bytes) (segment : object) : Py (list bool * option bytes) :=
  let label := "encoded nested composite member" in
  let '(matched, previous_token) := s in
  _ ← member_role segment (unsupported_error "bounded nested-member composite requires member-only outer segments");
  source ← required_attribute segment "source";
  '(member_index, member_owner, expected_exclude) ← outer_member source;
  matched ← match_member matched member_index
    (encoded_buffer_error "encoded nested composite repeats one retained source identity");
  _ ← member_owner_is segment member_owner label;
  postings ← member_postings segment;
  _ ← nested_selection member_index expected_exclude postings;
  let expected_scope_map :=
    if member_index =? 0 then anonymous_scope_map
    else if member_index =? 1 then right_anonymous_scope_map else None in
  _ ← member_scope_map segment expected_scope_map label
    (unsupported_error "bounded nested-member composite received an unexpected anonymous scope map");
  token ← member_token segment label previous_token;
  mret (matched, Some token).

Definition validate_nested_member_composite_manifest (encoded_view expected_owner descriptor_sha256 : object)
    : Py unit :=
  _ ← validate_encoded_view_header encoded_view expected_owner descriptor_sha256;
  _ ← reject (negb ((1 <=? len direct_members) && (len direct_members <=? 2)))
    (unsupported_error "bounded nested-member composite requires one or two direct siblings");
  _ ← reject (xorb (bool_decide (is_Some anonymous_scope_map)) (bool_decide (is_Some right_anonymous_scope_map)))
    (encoded_buffer_error "encoded scope-mapped nested composite requires both outer member scope maps");
  _ ← reject (same nested_view base_view || same nested_owner base_owner) not_distinct;
  _ ← forM (zip (range 0 (len direct_members)) direct_members) distinct_direct_member;
  _ ← no_local_rows encoded_view
    (unsupported_error "bounded nested-member composite requires empty outer columns")
    (unsupported_error "bounded nested-member composite does not support bridge roots");
  segments ← segment_tuple encoded_view "encoded nested composite segment manifest must be an exact tuple";
  let outer_member_count := len direct_members +w 1 in
  _ ← reject (negb (len segments =? outer_member_count))
    (unsupported_error "bounded nested-member composite has an unsupported outer member count");
  '(matched, _) ← foldM nested_segment (replicate 3 false, None) segments;
  reject (negb (forallb id (take (N.to_nat outer_member_count) matched)))
    (encoded_buffer_error "encoded nested composite did not retain every outer member").
End nested.
End manifests.

(** ** The members a manifest names *)

Section named.
Context `{Python}.

(** A segment that names a member with its selection and its scope map. *)
Definition names_member (segment : object) (member : CompositeMemberBinding) : Prop :=
  getattr segment "source" = Some member.(binding_view) /\
  getattr segment "owner" = Some member.(binding_owner) /\
  let mode := integer_attribute segment "posting_mode" "segment posting_mode" in
  match member.(binding_include), member.(binding_exclude) with
  | None, None => mode = inl POSTINGS_ALL
  | Some table, None => mode = inl POSTINGS_INCLUDE /\ getattr segment "root_ids" = Some table
  | None, Some table => mode = inl POSTINGS_EXCLUDE /\ getattr segment "root_ids" = Some table
  | Some _, Some _ => False
  end /\
  exists map length, getattr segment "anonymous_scope_map" = Some map /\
    checked_memoryview_length map "anonymous_scope_map" = inl length /\
    match member.(binding_scope_map) with
    | Some expected => map = expected /\ length <> 0
    | None => length = 0
    end.

Definition has_token (segment : object) (token : bytes) : Prop :=
  len token = 32 /\ exists value, getattr segment "member_token" = Some value /\ exact_bytes value = Some token.

Definition token_lt (a b : bytes) : Prop := bytes_cmp a b = Lt.

#[export] Instance token_lt_trans : Transitive token_lt.
Proof using Type. intros a b c. apply (cmp_lt_trans bytes_cmp). Qed.

Lemma same_true a b : negb (same a b) = false -> a = b.
Proof using Type. unfold same. by intros E%negb_false_iff%bool_decide_eq_true. Qed.

Lemma negb_eqb_false a b : negb (a =? b) = false -> a = b.
Proof using Type. by intros E%negb_false_iff%N.eqb_eq. Qed.

Lemma member_owner_is_ok segment owner label u :
  member_owner_is segment owner label = inl u -> getattr segment "owner" = Some owner.
Proof using Type.
  unfold member_owner_is, required_attribute. intros E. py_inv.
  match goal with E : negb (same _ _) = false |- _ => by apply same_true in E as <- end.
Qed.

Lemma member_postings_ok segment postings : member_postings segment = inl postings ->
  integer_attribute segment "posting_mode" "segment posting_mode" = inl postings.1.1 /\
  getattr segment "root_ids" = Some postings.1.2.
Proof using Type.
  unfold member_postings, buffer_attribute, required_attribute. intros E.
  apply Py_bind_inl in E as (mode&Em&E). py_inv. by simplify_eq/=.
Qed.

Lemma member_selection_ok include exclude postings all_error include_error exclude_error both_error u :
  member_selection include exclude postings all_error include_error exclude_error both_error = inl u ->
  match include, exclude with
  | None, None => postings.1.1 = POSTINGS_ALL
  | Some table, None => postings.1.1 = POSTINGS_INCLUDE /\ postings.1.2 = table
  | None, Some table => postings.1.1 = POSTINGS_EXCLUDE /\ postings.1.2 = table
  | Some _, Some _ => False
  end.
Proof using Type.
  destruct postings as [[mode table] length]. unfold member_selection, selected_by.
  destruct include, exclude; cbn; intros E; py_inv; [| |];
    repeat match goal with E : _ || _ = false |- _ => apply orb_false_iff in E as [? ?] end;
    repeat match goal with E : negb (_ =? _) = false |- _ => apply negb_eqb_false in E
      | E : negb (same _ _) = false |- _ => apply same_true in E end; done.
Qed.

Lemma member_scope_map_ok segment expected label error u :
  member_scope_map segment expected label error = inl u ->
  exists map length, getattr segment "anonymous_scope_map" = Some map /\
    checked_memoryview_length map "anonymous_scope_map" = inl length /\
    match expected with Some expected => map = expected /\ length <> 0 | None => length = 0 end.
Proof using Type.
  unfold member_scope_map, buffer_attribute, required_attribute. intros E.
  py_inv. destruct expected; py_inv; simplify_eq; eexists _, _; split_and!; try done.
  - match goal with E : negb (same _ _) = false |- _ => by apply same_true in E end.
  - match goal with E : (_ =? 0) = false |- _ => by apply N.eqb_neq in E end.
  - match goal with E : negb (_ =? 0) = false |- _ => by apply negb_eqb_false in E end.
Qed.

Lemma not_after_false previous token : not_after (Some previous) token = false -> token_lt previous token.
Proof using Type. unfold token_lt. cbn. by destruct (bytes_cmp previous token). Qed.

Lemma member_token_ok segment label previous token : member_token segment label previous = inl token ->
  has_token segment token /\ forall prior, previous = Some prior -> token_lt prior token.
Proof using Type.
  unfold member_token, required_attribute. intros E. py_inv. subst. split.
  - match goal with E : negb (len _ =? 32) = false |- _ => apply negb_eqb_false in E; split; [exact E|eauto] end.
  - intros prior ->. by apply not_after_false.
Qed.


Lemma member_position_ok members source k : member_position members source = Some k ->
  exists member, get members k = Some member /\ member.(binding_view) = source.
Proof using Type.
  revert k. induction members as [|member members IH]; intros k E; cbn in E; [done|].
  unfold same in E. case_bool_decide as Es.
  - injection E as <-. exists member. by split.
  - apply fmap_Some in E as (j&(found&Hg&Hv)%IH&->). exists found. split; [|done].
    rewrite get_lookup in Hg |- *. by rewrite N2Nat.inj_succ.
Qed.

Lemma member_index_ok members ordered index source k member :
  member_index members ordered index source = inl k -> get members k = Some member ->
  source = member.(binding_view) /\ (ordered = true -> k = index).
Proof using Type.
  unfold member_index. destruct ordered; intros E Hg; py_inv; subst.
  - match goal with E : negb (bool_decide _) = false |- _ => apply negb_false_iff, bool_decide_eq_true in E; rename E into Es end.
    rewrite Hg in Es. by injection Es.
  - match goal with E : member_position _ _ = Some _ |- _ => apply member_position_ok in E as (found&Hf&<-) end.
    rewrite Hg in Hf. by injection Hf as <-.
Qed.

(** A segment of a manifest of direct members. *)
Lemma direct_member_segment_ok members ordered matched previous index segment s' :
  direct_member_segment members ordered (matched, previous) (index, segment) = inl s' ->
  exists k member token, s' = (<[N.to_nat k := true]> matched, Some token) /\ get members k = Some member /\
    names_member segment member /\ has_token segment token /\ default false (get matched k) = false /\
    (ordered = true -> k = index) /\ forall prior, previous = Some prior -> token_lt prior token.
Proof using Type.
  unfold direct_member_segment. intros E. py_inv. subst.
  match goal with E : match_member _ _ _ = inl _ |- _ => unfold match_member in E; py_inv; subst end.
  match goal with Hk : member_index _ _ _ _ = inl ?k, Hm : get members ?k = Some ?member |- _ =>
    destruct (member_index_ok _ _ _ _ _ _ Hk Hm) as [Hsource Hordered]; exists k, member end.
  match goal with E : member_token _ _ _ = inl ?token |- _ =>
    apply member_token_ok in E as [Htoken Hlt]; exists token end.
  split_and!; try done. unfold names_member.
  match goal with E : member_postings _ = inl _ |- _ => apply member_postings_ok in E as [-> ->] end.
  repeat match goal with
  | E : required_attribute _ _ = inl _ |- _ => apply or_else_inl in E as ->
  | E : member_owner_is _ _ _ = inl _ |- _ => apply member_owner_is_ok in E as ->
  | E : member_selection _ _ _ _ _ _ _ = inl _ |- _ => apply member_selection_ok in E; rename E into Hs
  | E : member_scope_map _ _ _ _ = inl _ |- _ => apply member_scope_map_ok in E
  end.
  rewrite Hsource. split_and!; [done|done| |done].
  destruct (binding_include _), (binding_exclude _); try done; [destruct Hs as [-> ->]..|by rewrite Hs]; done.
Qed.

(** The segments seen so far, the members they name and their tokens. *)
Record matched_segments (members : list CompositeMemberBinding) (ordered : bool) (seen : list (usize * object))
    (s : list bool * option bytes) : Prop := {
  matched_rows : exists indices found tokens,
    Forall2 (fun k member => get members k = Some member) indices found /\
    Forall2 names_member seen.*2 found /\ Forall2 has_token seen.*2 tokens /\
    NoDup indices /\ (ordered = true -> indices = seen.*1) /\
    StronglySorted token_lt tokens /\ last tokens = s.2 /\
    length s.1 = length members /\
    forall k, k < len members -> get s.1 k = Some (bool_decide (k ∈ indices));
}.

Lemma matched_none members ordered : matched_segments members ordered [] (replicate (length members) false, None).
Proof using Type.
  split. exists [], [], []. cbn.
  split_and!; [apply Forall2_nil_2..|apply NoDup_nil_2|done|apply SSorted_nil|done|by rewrite length_replicate|].
  intros k Hk. rewrite get_lookup. apply lookup_replicate_2. unfold len in Hk. lia.
Qed.

Lemma matched_step members ordered seen indexed s s' :
  matched_segments members ordered seen s -> direct_member_segment members ordered s indexed = inl s' ->
  matched_segments members ordered (seen ++ [indexed]) s'.
Proof using Type.
  destruct s as [matched previous], indexed as [index segment].
  intros [(indices&found&tokens&Hi&Hn&Ht&Hd&Ho&Hs&Hl&Hlen&Hm)].
  intros (k&member&token&->&Hk&Hname&Htoken&Hnew&Hordered&Hlt)%direct_member_segment_ok.
  cbn [fst snd] in *. pose proof (get_Some_lt _ _ _ Hk) as Hbound. rewrite (Hm k Hbound) in Hnew.
  cbn in Hnew. apply bool_decide_eq_false in Hnew.
  split. exists (indices ++ [k]), (found ++ [member]), (tokens ++ [token]). rewrite !fmap_app. split_and!.
  - by apply Forall2_app, Forall2_cons.
  - by apply Forall2_app, Forall2_cons.
  - by apply Forall2_app, Forall2_cons.
  - apply NoDup_app. split; [done|]. split; [|apply NoDup_singleton]. intros j Hj ->%list_elem_of_singleton. done.
  - intros E. by rewrite Ho, Hordered.
  - apply StronglySorted_snoc; [apply _|done|]. intros prior Hp. apply Hlt. by rewrite <- Hl.
  - by rewrite last_snoc.
  - cbn. by rewrite length_insert.
  - intros j Hj. cbn. rewrite get_lookup, list_lookup_insert. specialize (Hm j Hj). rewrite get_lookup in Hm.
    destruct (decide (k = j)) as [<-|Hne].
    + rewrite decide_True by (unfold len in Hbound; lia). by rewrite bool_decide_eq_true_2 by set_solver.
    + rewrite decide_False by lia. rewrite Hm. f_equal. apply bool_decide_ext. set_solver.
Qed.

Lemma omap_get_range {A} (l : list A) : omap (get l) (range 0 (len l)) = l.
Proof using Type.
  assert (Hg : forall seen rest : list A, omap (get (seen ++ rest)) (range_from (len seen) (length rest)) = rest).
  { intros seen rest. revert seen. induction rest as [|x rest IH]; intros seen; [done|]. cbn.
    rewrite get_lookup, lookup_app_r by (unfold len; lia).
    replace (N.to_nat (len seen) - length seen)%nat with O by (unfold len; lia). cbn. f_equal.
    specialize (IH (seen ++ [x])). rewrite <- app_assoc, len_app in IH. exact IH. }
  specialize (Hg [] l). unfold range. replace (N.to_nat (len l - 0)) with (length l) by (unfold len; lia). exact Hg.
Qed.

Lemma omap_get_found {A} (l : list A) indices found :
  Forall2 (fun k x => get l k = Some x) indices found -> omap (get l) indices = found.
Proof using Type. induction 1 as [|k x indices found Hk _ IH]; [done|]. cbn. by rewrite Hk, IH. Qed.

(** Once every member is matched, the segments name the members in some order. *)
Lemma matched_all members ordered (segments : list object) s :
  length segments = length members ->
  matched_segments members ordered (zip (range 0 (len members)) segments) s -> forallb id s.1 = true ->
  exists found tokens, found ≡ₚ members /\ (ordered = true -> found = members) /\
    Forall2 names_member segments found /\ Forall2 has_token segments tokens /\ StronglySorted token_lt tokens.
Proof using Type.
  intros Hlen [(indices&found&tokens&Hi&Hn&Ht&Hd&Ho&Hs&_&Hl&Hm)] Hall.
  assert (Hz : length segments = length (range 0 (len members))) by (rewrite length_range; unfold len; lia).
  rewrite snd_zip in Hn, Ht by lia. rewrite fst_zip in Ho by lia.
  assert (Hp : indices ≡ₚ range 0 (len members)).
  { apply NoDup_Permutation; [done|apply NoDup_range|]. intros k. rewrite elem_of_range. split.
    - intros [j Hj]%list_elem_of_lookup. destruct (Forall2_lookup_l _ _ _ _ _ Hi Hj) as (member&_&Hk).
      apply get_Some_lt in Hk. lia.
    - intros [_ Hk]. specialize (Hm k Hk).
      assert (Hin : bool_decide (k ∈ indices) = true); [|by apply bool_decide_eq_true in Hin].
      apply (proj1 (forallb_forall _ _) Hall). apply list_elem_of_In. by eapply get_elem_of. }
  apply omap_get_found in Hi as <-. exists (omap (get members) indices), tokens. split_and!; try done.
  - rewrite Hp. by rewrite omap_get_range.
  - intros E. by rewrite (Ho E), omap_get_range.
Qed.

Lemma distinct_members_ok members error u : distinct_members members error = inl u ->
  NoDup (binding_view <$> members) /\ NoDup (binding_owner <$> members).
Proof using Type.
  induction members as [|member members IH]; intros E; [split; apply NoDup_nil_2|].
  cbn in E. apply Py_bind_inl in E as (?&E&Erest). apply IH in Erest as [Hv Ho].
  assert (Hd : forall other, other ∈ members ->
    member.(binding_view) <> other.(binding_view) /\ member.(binding_owner) <> other.(binding_owner)).
  { clear IH Hv Ho. induction members as [|next members IH]; [by intros ? ?%elem_of_nil|].
    cbn in E. apply Py_bind_inl in E as (?&Er&E). apply reject_inl, orb_false_iff in Er as [Ev Eo].
    unfold same in Ev, Eo. apply bool_decide_eq_false in Ev, Eo.
    intros other [->|Hin]%elem_of_cons; [done|by apply (IH E)]. }
  cbn. split; apply NoDup_cons; (split; [|done]); intros (other&E'&Hin)%list_elem_of_fmap; by apply Hd in Hin as [? ?].
Qed.
End named.

(** C17: A manifest of direct members that is accepted names exactly the retained
    members: they are distinct, its segments name each of them once with the
    selection and the scope map that were retained, in their own order where the
    rows have to follow the manifest, and the tokens of the segments increase. *)
Theorem direct_members_exact `{Python} view owner digest members ordered u :
  validate_direct_member_composite_manifest view owner digest members ordered = inl u ->
  NoDup (binding_view <$> members) /\ NoDup (binding_owner <$> members) /\
  exists raw segments found tokens, getattr view "segments" = Some raw /\ exact_tuple raw = Some segments /\
    found ≡ₚ members /\ (ordered = true -> found = members) /\
    Forall2 names_member segments found /\ Forall2 has_token segments tokens /\ StronglySorted token_lt tokens.
Proof.
  unfold validate_direct_member_composite_manifest, segment_tuple, required_attribute. intros E. py_inv.
  match goal with E : distinct_members _ _ = inl _ |- _ => apply distinct_members_ok in E as [Hv Ho] end.
  split; [exact Hv|]. split; [exact Ho|].
  match goal with Ht : exact_tuple ?raw = Some ?segments |- _ => exists raw, segments end.
  match goal with E : foldM _ _ _ = inl _ |- _ =>
    apply (Py_foldM_ind _ (matched_segments members ordered)) in E; rename E into Hmatched end.
  - match goal with E : negb (len _ =? len _) = false |- _ => apply negb_eqb_false in E; rename E into Hlen end.
    match goal with E : negb (forallb _ _) = false |- _ => apply negb_false_iff in E; rename E into Hall end.
    destruct (matched_all members ordered _ _ (Nat2N.inj _ _ Hlen) Hmatched Hall) as (found&tokens&Hfound).
    exists found, tokens. split; [done|]. split; [done|]. exact Hfound.
  - apply matched_none.
  - intros. by eapply matched_step.
Qed.

Lemma direct_members_exact_witness :
  let _ := Heap.pair_python in
  let member view owner := {| binding_view := Heap.Ref view; binding_owner := Heap.Ref owner;
    binding_include := None; binding_exclude := None; binding_scope_map := None |} in
  let members := [member "right" "two"; member "left" "one"] in
  validate_direct_member_composite_manifest (Heap.Ref "manifest") (Heap.Ref "pair") (Heap.Ref "digest")
    members false = inl tt /\
  exists segments found, found ≡ₚ members /\ Forall2 names_member segments found.
Proof.
  intros P member members.
  assert (E : validate_direct_member_composite_manifest (H := P) (Heap.Ref "manifest") (Heap.Ref "pair")
    (Heap.Ref "digest") members false = inl tt) by (vm_compute; reflexivity).
  split; [exact E|].
  destruct (direct_members_exact _ _ _ _ _ _ E) as (_&_&raw&segments&found&tokens&_&_&Hp&_&Hn&_).
  exists segments, found. split; [exact Hp|exact Hn].
Defined.
