(* ===== verification/Constructor.v ===== *)
(** * The constructor of a compiler

    [EncodedDirectCompiler::new] of native/src/lib.rs: it validates the views it
    is given against each other and retains their buffers.  The result is the
    compiler of [Retained]. *)

From stdpp Require Import vector.
From S2P Require Import Prelude Errors Text Columns Workspace Retained Objects Topology Leaves Manifests.
Local Open Scope string_scope.
Local Open Scope list_scope.
Local Open Scope N_scope.

(** Results of a search that may need more fuel. *)
Definition Fuelled (A : Type) : Type := option (Py A).

#[export] Instance Fuelled_ret : MRet Fuelled := fun A x => Some (inl x).
#[export] Instance Fuelled_bind : MBind Fuelled := fun A B f m =>
  match m with
  | None => None
  | Some (inr error) => Some (inr error)
  | Some (inl x) => f x
  end.

Definition ready {A} (m : Py A) : Fuelled A := Some m.

Section new.
Context `{Python}.

(** The arguments, in the order of the signature. *)
Record Inputs := {
  in_encoded_view : object;
  in_expected_owner : object;
  in_descriptor_sha256 : object;
  in_root_annotation_view : option object;
  in_root_annotation_owner : option object;
  in_root_annotation_descriptor_sha256 : option object;
  in_excluded_root_ids : option object;
  in_overlay_delta_view : option object;
  in_overlay_delta_owner : option object;
  in_overlay_delta_descriptor_sha256 : option object;
  in_canonical_work_limit : option usize;
  in_canonical_workspace_limit : option usize;
  in_max_overlay_depth : option usize;
  in_retain_empty_direct_leaves : bool;
  in_merge_manifest_view : option object;
  in_merge_manifest_owner : option object;
  in_merge_manifest_descriptor_sha256 : option object;
  in_composite_members : option object;
  in_root_merge_manifest_view : option object;
  in_root_merge_manifest_owner : option object;
  in_root_merge_manifest_descriptor_sha256 : option object;
  in_composite_root_members : option object;
  in_included_root_ids : option object;
  in_right_excluded_root_ids : option object;
  in_third_member_view : option object;
  in_third_member_owner : option object;
  in_third_member_descriptor_sha256 : option object;
  in_third_excluded_root_ids : option object;
  in_nested_member_view : option object;
  in_nested_member_owner : option object;
  in_nested_member_descriptor_sha256 : option object;
  in_fourth_member_view : option object;
  in_fourth_member_owner : option object;
  in_fourth_member_descriptor_sha256 : option object;
  in_fourth_excluded_root_ids : option object;
  in_anonymous_scope_map : option object;
  in_right_anonymous_scope_map : option object;
}.

Definition some {A} (value : option A) : bool := match value with Some _ => true | None => false end.

(** [value.map(f).transpose()?]. *)
Definition optionally {A B} (f : A -> Py B) (value : option A) : Py (option B) :=
  match value with None => mret None | Some value => result ← f value; mret (Some result) end.

(** [retained_exact_bytes_buffer], as the slice it is used as. *)
Definition retained_slice (name : string) (value : object) : Py bytes :=
  buffer ← retained_exact_bytes_buffer value name; mret (as_slice buffer).

(** The eleven slices of a table. *)
Definition table_of (buffers : list RetainedDirectBuffer) : RetainedBuffers :=
  fun_to_vec (fun index => column_of buffers (N.of_nat (fin_to_nat index))).

(** A view, its owner and the digest of its descriptor. *)
Abbreviation view_triple := (object * object * object)%type.

Definition together (view owner digest : option object) (label : string) : Py (option view_triple) :=
  match view, owner, digest with
  | None, None, None => mret None
  | Some view, Some owner, Some digest => mret (Some (view, owner, digest))
  | _, _, _ => inr (encoded_buffer_error ("encoded " +:+ label
      +:+ " view, owner, and descriptor digest must be supplied together"))
  end.

Definition retained_triple (triple : view_triple) : Py (list RetainedDirectBuffer) :=
  let '(view, owner, digest) := triple in retained_direct_buffers view owner digest.

(** The tables of roots and scopes that are not of members. *)
Record Selections := {
  included : option bytes;
  excluded : option bytes;
  selected_right_excluded : option bytes;
  selected_third_excluded : option bytes;
  selected_fourth_excluded : option bytes;
  selected_scope_map : option bytes;
  selected_right_scope_map : option bytes;
}.

(** The views that come with the base. *)
Record Companions := {
  root_annotation : option (list RetainedDirectBuffer);
  merge_manifest : option view_triple;
  root_merge_manifest : option view_triple;
  third_member : option view_triple;
  third_buffers : option (list RetainedDirectBuffer);
  fourth_member : option view_triple;
  fourth_buffers : option (list RetainedDirectBuffer);
  nested_member : option view_triple;
}.

Section inputs.
Context (fuel : nat) (i : Inputs).

Definition has_path (input : DynamicCompositeMemberInput) : bool := some input.(input_path).

Definition is_recursive (inputs : option (list DynamicCompositeMemberInput)) : bool :=
  existsb has_path (default [] inputs).

(** [recursive_max_overlay_depth]. *)
Definition overlay_depth_limit (recursive_leaf_plan : bool) : Py usize :=
  if recursive_leaf_plan then
    or_else i.(in_max_overlay_depth)
      (encoded_buffer_error "encoded recursive leaf plan requires max_overlay_depth")
  else
    _ ← reject (some i.(in_max_overlay_depth) || i.(in_retain_empty_direct_leaves))
      (encoded_buffer_error "recursive leaf options require an encoded recursive leaf plan");
    mret 0.

(** The buffers of a table: of a leaf of a manifest, or of a direct view. *)
Definition retained_view (recursive_leaf_plan : bool) (view owner digest : object) : Py (list RetainedDirectBuffer) :=
  if recursive_leaf_plan then
    _ ← validate_encoded_view_header view owner digest;
    retained_structural_buffers view
  else retained_direct_buffers view owner digest.

Definition retain_selections : Py Selections :=
  included ← optionally (retained_slice "included_root_ids") i.(in_included_root_ids);
  excluded ← optionally (retained_slice "excluded_root_ids") i.(in_excluded_root_ids);
  right_excluded ← optionally (retained_slice "right_excluded_root_ids") i.(in_right_excluded_root_ids);
  third_excluded ← optionally (retained_slice "third_excluded_root_ids") i.(in_third_excluded_root_ids);
  fourth_excluded ← optionally (retained_slice "fourth_excluded_root_ids") i.(in_fourth_excluded_root_ids);
  scope_map ← optionally (retained_slice "anonymous_scope_map") i.(in_anonymous_scope_map);
  right_scope_map ← optionally (retained_slice "right_anonymous_scope_map") i.(in_right_anonymous_scope_map);
  _ ← reject (xorb (some scope_map) (some right_scope_map))
    (encoded_buffer_error "encoded scope-mapped composite requires both member scope maps");
  _ ← reject (some included && some excluded)
    (encoded_buffer_error "encoded root selection cannot combine INCLUDE and EXCLUDE postings");
  mret {| included := included; excluded := excluded; selected_right_excluded := right_excluded;
          selected_third_excluded := third_excluded; selected_fourth_excluded := fourth_excluded;
          selected_scope_map := scope_map; selected_right_scope_map := right_scope_map |}.

Definition retain_companions : Py Companions :=
  root_annotation ← together i.(in_root_annotation_view) i.(in_root_annotation_owner)
    i.(in_root_annotation_descriptor_sha256) "root annotation";
  root_annotation ← optionally retained_triple root_annotation;
  merge_manifest ← together i.(in_merge_manifest_view) i.(in_merge_manifest_owner)
    i.(in_merge_manifest_descriptor_sha256) "composite manifest";
  root_merge_manifest ← together i.(in_root_merge_manifest_view) i.(in_root_merge_manifest_owner)
    i.(in_root_merge_manifest_descriptor_sha256) "composite ROOT manifest";
  third_member ← together i.(in_third_member_view) i.(in_third_member_owner)
    i.(in_third_member_descriptor_sha256) "third member";
  third_buffers ← optionally retained_triple third_member;
  fourth_member ← together i.(in_fourth_member_view) i.(in_fourth_member_owner)
    i.(in_fourth_member_descriptor_sha256) "fourth member";
  fourth_buffers ← optionally retained_triple fourth_member;
  nested_member ← together i.(in_nested_member_view) i.(in_nested_member_owner)
    i.(in_nested_member_descriptor_sha256) "nested member";
  mret {| root_annotation := root_annotation; merge_manifest := merge_manifest;
          root_merge_manifest := root_merge_manifest; third_member := third_member;
          third_buffers := third_buffers; fourth_member := fourth_member; fourth_buffers := fourth_buffers;
          nested_member := nested_member |}.

(** ** A dynamic composite *)

Definition binding_of (input : DynamicCompositeMemberInput) : CompositeMemberBinding :=
  {| binding_view := input.(input_view); binding_owner := input.(input_owner);
     binding_include := input.(input_included_root_ids); binding_exclude := input.(input_excluded_root_ids);
     binding_scope_map := input.(input_anonymous_scope_map) |}.

Definition retained_selection (name : string) (value : option object) : Py (option bytes) :=
  optionally (retained_slice name) value.

Definition retained_scope_maps (input : DynamicCompositeMemberInput) (label : string) : Py (list bytes) :=
  maps ← retain_dynamic_scope_maps input label; mret (as_slice <$> maps).

Definition retain_root_member (recursive_leaf_plan : bool) (input : DynamicCompositeMemberInput)
    : Py RetainedCompositeRootMember :=
  _ ← reject (some input.(input_included_root_ids) && some input.(input_excluded_root_ids))
    (encoded_buffer_error "encoded composite ROOT member cannot combine INCLUDE and EXCLUDE tables");
  buffers ← retained_view recursive_leaf_plan input.(input_view) input.(input_owner)
    input.(input_descriptor_sha256);
  included ← retained_selection "composite ROOT included_root_ids" input.(input_included_root_ids);
  excluded ← retained_selection "composite ROOT excluded_root_ids" input.(input_excluded_root_ids);
  scope_maps ← retained_scope_maps input "composite ROOT anonymous_scope_map";
  mret {| root_buffers := table_of buffers; root_included := included; root_excluded := excluded;
          root_scope_maps := scope_maps |}.

(** The first member has the buffers of the compiler. *)
Definition member_table (recursive_leaf_plan : bool) (index : usize) (input : DynamicCompositeMemberInput)
    : Py (option RetainedBuffers) :=
  if index =? 0 then
    _ ← validate_encoded_view_header input.(input_view) input.(input_owner) input.(input_descriptor_sha256);
    _ ← (if recursive_leaf_plan then mret tt
         else validate_direct_segment input.(input_view) input.(input_owner));
    mret None
  else
    buffers ← retained_view recursive_leaf_plan input.(input_view) input.(input_owner)
      input.(input_descriptor_sha256);
    mret (Some (table_of buffers)).

Definition retain_member (recursive_leaf_plan : bool) (root_inputs : option (list DynamicCompositeMemberInput))
    (retained : list RetainedCompositeMember) (indexed : usize * DynamicCompositeMemberInput)
    : Py (list RetainedCompositeMember) :=
  let '(index, input) := indexed in
  _ ← reject (some input.(input_included_root_ids) && some input.(input_excluded_root_ids))
    (encoded_buffer_error "encoded composite member cannot combine INCLUDE and EXCLUDE tables");
  buffers ← member_table recursive_leaf_plan index input;
  root ← optionally (retain_root_member recursive_leaf_plan) (root_inputs ≫= fun inputs => get inputs index);
  included ← retained_selection "composite included_root_ids" input.(input_included_root_ids);
  excluded ← retained_selection "composite excluded_root_ids" input.(input_excluded_root_ids);
  scope_maps ← retained_scope_maps input "composite anonymous_scope_map";
  mret (retained ++ [{| member_buffers := buffers; member_included := included; member_excluded := excluded;
                        member_scope_maps := scope_maps; member_root := root |}]).

(** The manifest of the CLOSURE: the work of its validation, and the views that a
    direct composite has validated. *)
Definition validate_closure (recursive_leaf_plan : bool) (max_work max_overlay_depth : usize)
    (manifest : view_triple) (inputs : list DynamicCompositeMemberInput) : Fuelled (usize * list object) :=
  let '(view, owner, digest) := manifest in
  if recursive_leaf_plan then
    work ← (validate_recursive_leaf_plan fuel view owner digest inputs max_work max_overlay_depth
      i.(in_retain_empty_direct_leaves) : Fuelled usize);
    mret (work, [])
  else ready (
    _ ← validate_direct_member_composite_manifest view owner digest (binding_of <$> inputs) true;
    '(work, validated) ← direct_composite_validation_work view inputs [];
    _ ← reject (max_work <? work)
      (PyMemoryError "encoded direct composite validation exceeds max_canonical_work");
    mret (work, validated)).

(** A recursive ROOT manifest has the work that the CLOSURE left. *)
Definition validate_root_leaves (max_work max_overlay_depth closure_work : usize)
    (manifest root_manifest : view_triple) (inputs root_inputs : list DynamicCompositeMemberInput)
    : Fuelled unit :=
  let '(view, owner, _) := manifest in
  let '(root_view, root_owner, root_digest) := root_manifest in
  root_work_limit ← ready (
    remaining ← or_else (checked_sub max_work closure_work)
      (PyMemoryError "encoded paired recursive validation exceeds max_canonical_work");
    _ ← reject (remaining =? 0)
      (PyMemoryError "encoded paired recursive validation exceeds max_canonical_work");
    mret remaining);
  validate_recursive_root_plan fuel view owner inputs root_view root_owner root_digest root_inputs
    root_work_limit max_overlay_depth i.(in_retain_empty_direct_leaves).

Definition validate_root_members (max_work closure_work : usize) (validated : list object)
    (manifest root_manifest : view_triple) (inputs root_inputs : list DynamicCompositeMemberInput) : Py unit :=
  let '(view, owner, _) := manifest in
  let '(root_view, root_owner, root_digest) := root_manifest in
  _ ← validate_direct_member_composite_manifest root_view root_owner root_digest (binding_of <$> root_inputs) true;
  '(root_work, _) ← direct_composite_validation_work root_view root_inputs validated;
  paired_work ← or_else (checked_add closure_work root_work)
    (PyMemoryError "encoded paired direct validation-work counter overflow");
  _ ← reject (max_work <? paired_work)
    (PyMemoryError "encoded paired direct validation exceeds max_canonical_work");
  validate_paired_composite_manifests view owner root_view root_owner (len inputs).

Definition validate_root (recursive_leaf_plan : bool) (max_work max_overlay_depth closure_work : usize)
    (validated : list object) (manifest : view_triple) (root_manifest : option view_triple)
    (inputs : list DynamicCompositeMemberInput) (root_inputs : option (list DynamicCompositeMemberInput))
    : Fuelled unit :=
  match root_inputs with
  | None => ready (reject (some root_manifest)
      (encoded_buffer_error "encoded composite ROOT manifest requires its member plan"))
  | Some root_inputs =>
      _ ← ready (reject (negb (len root_inputs =? len inputs))
        (encoded_buffer_error "encoded composite ROOT plan must pair every closure member"));
      root_manifest ← ready (or_else root_manifest
        (encoded_buffer_error "encoded composite ROOT plan requires its exact manifest"));
      let root_recursive := match root_inputs with input :: _ => has_path input | [] => false end in
      _ ← ready (reject (existsb (fun input => xorb (has_path input) root_recursive) root_inputs
          || xorb root_recursive recursive_leaf_plan)
        (encoded_buffer_error "encoded composite ROOT rows use another path form"));
      if recursive_leaf_plan then
        validate_root_leaves max_work max_overlay_depth closure_work manifest root_manifest inputs root_inputs
      else
        ready (validate_root_members max_work closure_work validated manifest root_manifest inputs root_inputs)
  end.

(** Inputs of the other forms of a compiler. *)
Definition fixed_inputs (c : Companions) (s : Selections) : bool :=
  some i.(in_overlay_delta_view) || some i.(in_overlay_delta_owner)
  || some i.(in_overlay_delta_descriptor_sha256) || some c.(third_member) || some c.(fourth_member)
  || some c.(nested_member) || some c.(root_annotation) || some s.(included) || some s.(excluded)
  || some s.(selected_right_excluded) || some s.(selected_third_excluded) || some s.(selected_fourth_excluded)
  || some s.(selected_scope_map) || some s.(selected_right_scope_map).

Definition dynamic_limits : Py (usize * usize) :=
  match i.(in_canonical_work_limit), i.(in_canonical_workspace_limit) with
  | Some max_work, Some max_workspace_bytes =>
      _ ← reject ((max_work =? 0) || (max_workspace_bytes =? 0))
        (PyMemoryError "encoded dynamic composite canonical limits must be positive");
      mret (max_work, max_workspace_bytes)
  | _, _ => inr (encoded_buffer_error "encoded dynamic composite requires canonical limits")
  end.

(** What is checked before the manifests: the limits and the CLOSURE manifest. *)
Definition dynamic_start (c : Companions) (s : Selections) (inputs : list DynamicCompositeMemberInput)
    : Py (usize * usize * view_triple) :=
  _ ← reject (fixed_inputs c s)
    (encoded_buffer_error "encoded dynamic composite cannot combine fixed segmented inputs");
  limits ← dynamic_limits;
  manifest ← or_else c.(merge_manifest)
    (encoded_buffer_error "encoded dynamic composite requires an exact manifest");
  _ ← reject (match inputs with
      | first :: _ => negb (same first.(input_view) i.(in_encoded_view))
          || negb (same first.(input_owner) i.(in_expected_owner))
      | [] => true
      end)
    (encoded_buffer_error "encoded dynamic composite first member lost its base identity");
  mret (limits, manifest).

Definition dynamic_composite (c : Companions) (s : Selections) (recursive_leaf_plan : bool)
    (max_overlay_depth : usize) (inputs root_inputs : option (list DynamicCompositeMemberInput))
    : Fuelled (option (list RetainedCompositeMember * (usize * usize))) :=
  match inputs with
  | None => ready (
      _ ← reject (some root_inputs || some c.(root_merge_manifest))
        (encoded_buffer_error "encoded composite ROOT plan requires a closure composite plan");
      mret None)
  | Some inputs =>
      '((max_work, max_workspace_bytes), manifest) ← ready (dynamic_start c s inputs);
      '(closure_work, validated) ← validate_closure recursive_leaf_plan max_work max_overlay_depth manifest inputs;
      _ ← validate_root recursive_leaf_plan max_work max_overlay_depth closure_work validated manifest
        c.(root_merge_manifest) inputs root_inputs;
      ready (
        retained ← foldM (retain_member recursive_leaf_plan root_inputs) []
          (zip (range 0 (len inputs)) inputs);
        mret (Some (retained, (max_work, max_workspace_bytes))))
  end.
(** ** The second table *)

(** Bindings of the base and of the direct members beside it. *)
Definition base_binding : CompositeMemberBinding :=
  {| binding_view := i.(in_encoded_view); binding_owner := i.(in_expected_owner);
     binding_include := i.(in_included_root_ids); binding_exclude := i.(in_excluded_root_ids);
     binding_scope_map := None |}.

Definition sibling_binding (view owner : object) (exclude : option object) : CompositeMemberBinding :=
  {| binding_view := view; binding_owner := owner; binding_include := None; binding_exclude := exclude;
     binding_scope_map := None |}.

Definition nested_binding (view owner : object) (exclude : option object) : NestedDirectMemberBinding :=
  {| direct_view := view; direct_owner := owner; direct_exclude := exclude |}.

(** A nested composite: the second table is the overlay of the nested member. *)
Definition nested_tables (c : Companions) (manifest nested : view_triple) (view owner digest : object)
    : Py (list RetainedDirectBuffer) :=
  let '(manifest, manifest_owner, manifest_digest) := manifest in
  let '(nested_view, nested_owner, nested_digest) := nested in
  _ ← reject (negb (same nested_view view) || negb (same nested_owner owner))
    (encoded_buffer_error "encoded nested member lost its retained table identity");
  _ ← validate_encoded_view_header nested_view nested_owner nested_digest;
  '(third_view, third_owner, _) ← or_else c.(third_member)
    (unsupported_error "bounded nested-member composite requires one direct sibling");
  buffers ← retained_overlay_delta_buffers view owner digest i.(in_encoded_view) i.(in_expected_owner)
    i.(in_excluded_root_ids);
  let third := nested_binding third_view third_owner i.(in_third_excluded_root_ids) in
  let siblings := match c.(fourth_member) with
    | Some (fourth_view, fourth_owner, _) =>
        [third; nested_binding fourth_view fourth_owner i.(in_fourth_excluded_root_ids)]
    | None => [third]
    end in
  _ ← validate_nested_member_composite_manifest nested_view nested_owner i.(in_encoded_view) i.(in_expected_owner)
    i.(in_right_excluded_root_ids) siblings i.(in_anonymous_scope_map) i.(in_right_anonymous_scope_map)
    manifest manifest_owner manifest_digest;
  mret buffers.

(** Three or four direct members. *)
Definition member_tables (c : Companions) (manifest third : view_triple) (view owner digest : object)
    : Py (list RetainedDirectBuffer) :=
  let '(manifest, manifest_owner, manifest_digest) := manifest in
  let '(third_view, third_owner, _) := third in
  buffers ← retained_direct_buffers view owner digest;
  let members := [base_binding; sibling_binding view owner i.(in_right_excluded_root_ids);
                  sibling_binding third_view third_owner i.(in_third_excluded_root_ids)] in
  let members := match c.(fourth_member) with
    | Some (fourth_view, fourth_owner, _) =>
        members ++ [sibling_binding fourth_view fourth_owner i.(in_fourth_excluded_root_ids)]
    | None => members
    end in
  _ ← validate_direct_member_composite_manifest manifest manifest_owner manifest_digest members false;
  mret buffers.

Definition pair_tables (manifest : view_triple) (view owner digest : object) : Py (list RetainedDirectBuffer) :=
  let '(manifest, manifest_owner, manifest_digest) := manifest in
  buffers ← retained_direct_buffers view owner digest;
  _ ← validate_two_member_composite_manifest manifest manifest_owner manifest_digest
    i.(in_encoded_view) i.(in_expected_owner) view owner i.(in_included_root_ids) i.(in_excluded_root_ids)
    i.(in_right_excluded_root_ids) i.(in_anonymous_scope_map) i.(in_right_anonymous_scope_map);
  mret buffers.

Definition second_table (c : Companions) (view owner digest : object) : Py (list RetainedDirectBuffer) :=
  match c.(merge_manifest), c.(nested_member), c.(third_member) with
  | Some manifest, Some nested, _ => nested_tables c manifest nested view owner digest
  | Some manifest, None, Some third => member_tables c manifest third view owner digest
  | Some manifest, None, None => pair_tables manifest view owner digest
  | None, _, _ => retained_overlay_delta_buffers view owner digest i.(in_encoded_view) i.(in_expected_owner)
      i.(in_excluded_root_ids)
  end.

(** The second table and the canonical limits of a compiler that is not a
    dynamic composite. *)
Definition overlay_tables (c : Companions) : Py (option (list RetainedDirectBuffer) * option (usize * usize)) :=
  match i.(in_overlay_delta_view), i.(in_overlay_delta_owner), i.(in_overlay_delta_descriptor_sha256),
    i.(in_canonical_work_limit), i.(in_canonical_workspace_limit) with
  | None, None, None, None, None => mret (None, None)
  | Some view, Some owner, Some digest, Some max_work, Some max_workspace_bytes =>
      _ ← reject (some c.(root_annotation))
        (unsupported_error "bounded local-overlay compilation cannot combine root provenance");
      _ ← reject ((max_work =? 0) || (max_workspace_bytes =? 0))
        (PyMemoryError "encoded local-overlay canonical limits must be positive");
      buffers ← second_table c view owner digest;
      mret (Some buffers, Some (max_work, max_workspace_bytes))
  | _, _, _, _, _ => inr (encoded_buffer_error ("encoded local-overlay view, owner, descriptor digest, "
      +:+ "and canonical limits must be supplied together"))
  end.

(** ** The combinations that are supported *)

(** What [anonymous_scope_map] may be combined with. *)
Definition scope_maps_supported (c : Companions) (s : Selections) : bool :=
  let exact_two_member := some c.(merge_manifest) && negb (some c.(third_member))
    && negb (some c.(fourth_member)) && negb (some c.(nested_member)) in
  let exact_nested_member := some c.(merge_manifest) && some c.(third_member)
    && negb (some c.(fourth_member)) && some c.(nested_member) in
  let exact_four_table_nested_member := some c.(merge_manifest) && some c.(third_member)
    && some c.(fourth_member) && some c.(nested_member) in
  let nested := exact_nested_member || exact_four_table_nested_member in
  negb (negb (exact_two_member || exact_nested_member || exact_four_table_nested_member)
    || some s.(included)
    || (some s.(excluded) && negb nested) || (some s.(selected_right_excluded) && negb nested)
    || (some s.(selected_third_excluded) && negb nested)
    || (some s.(selected_fourth_excluded) && negb exact_four_table_nested_member)).

Definition check_combination (c : Companions) (s : Selections)
    (overlay : option (list RetainedDirectBuffer)) (members : option (list RetainedCompositeMember)) : Py unit :=
  _ ← reject (some c.(merge_manifest) && negb (some overlay) && negb (some members))
    (encoded_buffer_error "encoded composite manifest requires two retained merge tables");
  _ ← reject (some c.(third_member) && negb (some c.(merge_manifest)))
    (unsupported_error "encoded third composite member requires an exact composite manifest");
  _ ← reject (some c.(nested_member) && (negb (some c.(third_member)) || negb (some c.(merge_manifest))))
    (unsupported_error "encoded nested composite member requires three retained merge tables");
  _ ← reject (some c.(fourth_member) && (negb (some c.(third_member)) || negb (some c.(merge_manifest))))
    (unsupported_error "encoded fourth composite member requires an exact composite manifest");
  _ ← reject (negb (some c.(third_member)) && some s.(selected_third_excluded))
    (unsupported_error "encoded third EXCLUDE selection requires an exact third composite member");
  _ ← reject (negb (some c.(fourth_member)) && some s.(selected_fourth_excluded))
    (unsupported_error "encoded fourth EXCLUDE selection requires an exact fourth composite member");
  _ ← reject (some s.(included) && negb (some c.(merge_manifest)))
    (unsupported_error "encoded INCLUDE selection requires an exact composite manifest");
  _ ← reject (some s.(selected_right_excluded) && negb (some c.(merge_manifest)))
    (unsupported_error "encoded right EXCLUDE selection requires an exact composite manifest");
  _ ← reject (some s.(included) && (some s.(selected_right_excluded) || some s.(selected_third_excluded)
      || some s.(selected_fourth_excluded)))
    (encoded_buffer_error "encoded composite root selection cannot mix INCLUDE and EXCLUDE postings");
  _ ← reject (some c.(nested_member) && some s.(included))
    (encoded_buffer_error "encoded nested composite member does not support outer INCLUDE");
  reject (some s.(selected_scope_map) && negb (scope_maps_supported c s))
    (unsupported_error ("encoded anonymous scope remapping requires an exact two-member "
      +:+ "or bounded nested-member composite")).

(** ** The constructor *)

(** The rows of the composite, and whether they are leaves of a manifest. *)
Definition parse_plan
    : Py (option (list DynamicCompositeMemberInput) * option (list DynamicCompositeMemberInput) * bool * usize) :=
  inputs ← optionally parse_dynamic_composite_members i.(in_composite_members);
  root_inputs ← optionally parse_dynamic_composite_members i.(in_composite_root_members);
  let recursive_leaf_plan := is_recursive inputs in
  _ ← reject (recursive_leaf_plan && existsb (fun input => negb (has_path input)) (default [] inputs))
    (encoded_buffer_error "encoded recursive leaf plan requires one exact path per retained table");
  max_overlay_depth ← overlay_depth_limit recursive_leaf_plan;
  mret (inputs, root_inputs, recursive_leaf_plan, max_overlay_depth).

Definition assemble_compiler (buffers : list RetainedDirectBuffer) (c : Companions) (s : Selections)
    (overlay : option (list RetainedDirectBuffer)) (limits : option (usize * usize))
    (members : option (list RetainedCompositeMember)) : EncodedDirectCompiler := {|
  compiler_buffers := table_of buffers;
  overlay_delta_buffers := table_of <$> overlay;
  third_member_buffers := table_of <$> c.(third_buffers);
  fourth_member_buffers := table_of <$> c.(fourth_buffers);
  nested_member_view := some i.(in_nested_member_view);
  merge_manifest_view := some i.(in_merge_manifest_view);
  composite_members := members;
  canonical_merge_limits := limits;
  compiler_included := s.(included);
  compiler_excluded := s.(excluded);
  right_excluded := s.(selected_right_excluded);
  third_excluded := s.(selected_third_excluded);
  fourth_excluded := s.(selected_fourth_excluded);
  compiler_scope_map := s.(selected_scope_map);
  right_scope_map := s.(selected_right_scope_map);
  root_annotation_buffers := table_of <$> c.(root_annotation);
|}.

Definition new : Fuelled EncodedDirectCompiler :=
  '(inputs, root_inputs, recursive_leaf_plan, max_overlay_depth) ← ready parse_plan;
  buffers ← ready (retained_view recursive_leaf_plan i.(in_encoded_view) i.(in_expected_owner)
    i.(in_descriptor_sha256));
  s ← ready retain_selections;
  c ← ready retain_companions;
  composite ← dynamic_composite c s recursive_leaf_plan max_overlay_depth inputs root_inputs;
  ready (
    '(overlay, limits) ← match composite with
      | Some (_, limits) => mret (None, Some limits)
      | None => overlay_tables c
      end;
    let members := fst <$> composite in
    _ ← check_combination c s overlay members;
    mret (assemble_compiler buffers c s overlay limits members)).
End inputs.
End new.

(** ** A compiler that was constructed *)

Lemma Fuelled_bind_inl {A B} (m : Fuelled A) (f : A -> Fuelled B) b :
  m ≫= f = Some (inl b) -> exists a, m = Some (inl a) /\ f a = Some (inl b).
Proof. destruct m as [[]|]; cbn; [eauto|done|done]. Qed.

Lemma ready_inl {A} (m : Py A) a : ready m = Some (inl a) -> m = inl a.
Proof. unfold ready. congruence. Qed.

(** Take a chain of [Fuelled] apart. *)
Ltac fuelled_inv :=
  repeat match goal with
  | E : (_ ≫= _) = Some (inl _) |- _ => apply Fuelled_bind_inl in E as (?&?&E)
  | E : (let '(_, _) := ?p in _) = Some (inl _) |- _ => destruct p
  | E : ready _ = Some (inl _) |- _ => apply ready_inl in E
  end; py_inv.

Section constructed.
Context `{Python}.
Context (fuel : nat) (i : Inputs).

Lemma optionally_is_some {A B} (f : A -> Py B) value result :
  optionally f value = inl result -> is_Some result <-> is_Some value.
Proof using Type.
  destruct value; cbn; intros E; py_inv; subst; [|done].
  split; intros _; eauto.
Qed.

(** Where a member of the composite keeps its table, and when it has a ROOT. *)
Definition member_placed (root_inputs : option (list DynamicCompositeMemberInput))
    (indexed : usize * DynamicCompositeMemberInput) (member : RetainedCompositeMember) : Prop :=
  (indexed.1 = 0 <-> member.(member_buffers) = None) /\
  (is_Some member.(member_root) <-> is_Some (root_inputs ≫= fun inputs => get inputs indexed.1)).

Lemma retain_member_placed recursive root_inputs retained indexed retained' :
  retain_member recursive root_inputs retained indexed = inl retained' ->
  exists member, retained' = retained ++ [member] /\ member_placed root_inputs indexed member.
Proof using Type.
  destruct indexed as [index input]. unfold retain_member. intros E. py_inv. subst.
  eexists. split; [done|]. split; cbn.
  - match goal with E : member_table _ _ _ = inl _ |- _ => revert E end. unfold member_table.
    destruct (N.eqb_spec index 0); intros E; py_inv; subst; done.
  - by eapply optionally_is_some.
Qed.

Lemma retained_members_placed recursive root_inputs rows retained :
  foldM (retain_member recursive root_inputs) [] rows = inl retained ->
  Forall2 (member_placed root_inputs) rows retained.
Proof using Type.
  intros E. refine (Py_foldM_ind _ (Forall2 (member_placed root_inputs)) _ _ _ E _ _); [constructor|].
  intros done_ x s s' IH (member&->&Hm)%retain_member_placed. by apply Forall2_app, Forall2_cons.
Qed.

(** The members of a composite as a compilation expects them. *)
Record members_ready (members : list RetainedCompositeMember) : Prop := {
  ready_base : exists first rest, members = first :: rest /\ first.(member_buffers) = None /\
    Forall (fun member => is_Some member.(member_buffers)) rest;
  ready_roots : Forall (fun member => is_Some member.(member_root)) members \/
    Forall (fun member => member.(member_root) = None) members;
}.

Lemma Forall2_zip_range {A B} (P : usize * A -> B -> Prop) (l : list A) k a :
  Forall2 P (zip (range_from a (length l)) l) k ->
  length k = length l /\ forall j y, k !! j = Some y -> exists x, l !! j = Some x /\ P (a + N.of_nat j, x) y.
Proof using Type.
  revert a k. induction l as [|x l IH]; intros a k E; cbn in E.
  - apply Forall2_nil_inv_l in E as ->. split; [done|]. intros ? ?. by rewrite lookup_nil.
  - apply Forall2_cons_inv_l in E as (y&k'&Hp&Hf&->). apply IH in Hf as [Hl Hf].
    split; [cbn; lia|]. intros [|j] z.
    + cbn. intros [= <-]. exists x. split; [done|]. by rewrite N.add_0_r.
    + cbn [lookup list_lookup]. intros (x'&Hx&Hz)%Hf. exists x'. split; [done|].
      by replace (a + N.of_nat (S j)) with (a + 1 + N.of_nat j) by lia.
Qed.

Lemma retained_members_ready recursive root_inputs inputs retained :
  inputs <> [] -> (forall roots, root_inputs = Some roots -> len roots = len inputs) ->
  foldM (retain_member recursive root_inputs) [] (zip (range 0 (len inputs)) inputs) = inl retained ->
  members_ready retained.
Proof using Type.
  intros Hne Hroots E%retained_members_placed. unfold range, len in E.
  rewrite N.sub_0_r, Nat2N.id in E. apply Forall2_zip_range in E as [Hl Hp].
  split.
  - destruct retained as [|first rest]; [by destruct inputs|].
    exists first, rest. split; [done|]. split.
    + destruct (Hp O first eq_refl) as (x&_&Hfirst&_). by apply Hfirst.
    + apply Forall_lookup. intros j member Hj.
      destruct (Hp (S j) member Hj) as (x&_&[_ Hrest]&_).
      destruct (member_buffers member); [eauto|]. specialize (Hrest eq_refl). cbn in Hrest. lia.
  - destruct root_inputs as [roots|].
    + left. apply Forall_lookup. intros j member Hj. destruct (Hp j member Hj) as (x&_&_&Hroot).
      apply Hroot. cbn. specialize (Hroots _ eq_refl). rewrite get_lookup.
      apply lookup_lt_is_Some. apply lookup_lt_Some in Hj. unfold len in Hroots. lia.
    + right. apply Forall_lookup. intros j member Hj. destruct (Hp j member Hj) as (x&_&_&[Hroot _]).
      destruct (member_root member); [|done]. destruct Hroot as [? [=]]; eauto.
Qed.

Lemma validate_root_paired recursive max_work max_overlay_depth closure_work validated manifest root_manifest
    inputs roots u :
  validate_root fuel i recursive max_work max_overlay_depth closure_work validated manifest root_manifest inputs
    (Some roots) = Some (inl u) -> len roots = len inputs.
Proof using Type.
  unfold validate_root. intros E. fuelled_inv.
  match goal with E : negb _ = false |- _ => by apply negb_false_iff, N.eqb_eq in E end.
Qed.

(** A composite comes with its limits. *)
Lemma dynamic_composite_ready c s recursive max_overlay_depth inputs roots composite :
  dynamic_composite fuel i c s recursive max_overlay_depth inputs roots = Some (inl (Some composite)) ->
  members_ready composite.1.
Proof using Type.
  unfold dynamic_composite. destruct inputs as [inputs|]; intros E; fuelled_inv; [|done].
  subst. cbn. eapply retained_members_ready; [|intros ? Hs; rewrite Hs in *; by eapply validate_root_paired|done].
  intros ->. match goal with E : dynamic_start _ _ _ _ = inl _ |- _ => unfold dynamic_start in E; py_inv; done end.
Qed.

Lemma overlay_tables_limits c overlay limits :
  overlay_tables i c = inl (overlay, limits) -> is_Some overlay -> is_Some limits.
Proof using Type.
  unfold overlay_tables. intros E Hs. destruct (in_overlay_delta_view i), (in_overlay_delta_owner i), (in_overlay_delta_descriptor_sha256 i),
    (in_canonical_work_limit i), (in_canonical_workspace_limit i); try discriminate; py_inv; simplify_eq;
    [eauto|by destruct Hs].
Qed.

(** What a compiler has once it is constructed. *)
Definition compiler_ready (c : EncodedDirectCompiler) : Prop :=
  (forall members, c.(composite_members) = Some members ->
    members_ready members /\ is_Some c.(canonical_merge_limits)) /\
  (is_Some c.(overlay_delta_buffers) -> is_Some c.(canonical_merge_limits)).

Lemma new_ready c : new fuel i = Some (inl c) -> compiler_ready c.
Proof using Type.
  unfold new. intros E. fuelled_inv. subst. unfold compiler_ready. cbn.
  match goal with E : dynamic_composite _ _ _ _ _ _ _ _ = _ |- _ => rename E into Ed end.
  match goal with E : match ?o with _ => _ end = inl _ |- _ => rename E into Eo; destruct o as [[members limits]|] end.
  - injection Eo as <- <-. split; [|by intros [? ?]].
    intros ? [= <-]. split; [by apply dynamic_composite_ready in Ed|eauto].
  - split; [done|]. intros Hs%fmap_is_Some. by eapply overlay_tables_limits.
Qed.
End constructed.

Section ready.
Context (c : EncodedDirectCompiler) (Hready : compiler_ready c).

Lemma ready_base_columns base : exists columns, retained_base_columns c base = inl columns.
Proof using Hready.
  unfold retained_base_columns. destruct (composite_members c) as [members|] eqn:Em; [|eauto].
  destruct Hready as [Hm _]. destruct (Hm _ Em) as [[(first&rest&->&->&_) _] _]. eauto.
Qed.

Lemma ready_rest_columns base rest :
  Forall (fun member => is_Some member.(member_buffers)) rest ->
  exists columns, member_columns c base false rest = inl columns.
Proof using Type.
  induction 1 as [|member rest [buffers Hb] _ [columns IH]]; cbn; [eauto|].
  unfold composite_member_columns. rewrite Hb, IH. eauto.
Qed.

Lemma ready_root_columns members :
  Forall (fun member => is_Some member.(member_root)) members ->
  exists columns, root_member_columns members = inl columns.
Proof using Type.
  induction 1 as [|member rest [root Hr] _ [columns IH]]; cbn; [eauto|].
  rewrite Hr, IH. eauto.
Qed.

Lemma ready_composite_columns base : exists composite, dynamic_composite_columns c base = inl composite.
Proof using Hready.
  unfold dynamic_composite_columns. destruct (composite_members c) as [members|] eqn:Em; [|eauto].
  destruct Hready as [Hm _]. destruct (Hm _ Em) as [[(first&rest&->&_&Hrest) Hroots] _].
  destruct (ready_base_columns base) as [first_columns Hf], (ready_rest_columns base _ Hrest) as [columns Hc].
  cbn [member_columns]. unfold composite_member_columns. rewrite Hf, Hc.
  destruct Hroots as [[roots ->]%ready_root_columns|Hn].
  - case_match; eauto.
  - replace (has_root (first :: rest)) with false; [eauto|]. symmetry. unfold has_root.
    apply not_true_is_false. intros (member&Hin&Hs)%existsb_exists.
    apply list_elem_of_In in Hin. rewrite Forall_forall in Hn. by rewrite (Hn _ Hin) in Hs.
Qed.
End ready.

(** C14: A compiler that the constructor returns is complete: whatever composite,
    overlay or single table it was given, its columns can be read, a drain reads
    the columns that a compilation reads, and the kernel is entered, so that the
    errors of a compiler that lost a table, a member or its limits do not occur. *)
Theorem constructed_compiler_ready `{Python} fuel (i : Inputs) c :
  new fuel i = Some (inl c) ->
  exists s, compile_sources c = inl s /\ drain_sources c = inl s /\
    forall `{LowercaseTable} `{Layout} merge_fuel rounds options roles,
      exists prepared, prepare_sources c merge_fuel rounds s options roles = inl prepared.
Proof.
  intros Hready%new_ready.
  destruct (ready_composite_columns c Hready (ordered_columns c.(compiler_buffers))) as [composite Hc].
  destruct (ready_base_columns c Hready (ordered_columns c.(compiler_buffers))) as [columns Hb].
  assert (Hs : compile_sources c = inl {| source_composite := composite; source_columns := columns |})
    by (unfold compile_sources; by rewrite Hc, Hb).
  eexists. split; [exact Hs|]. split; [by rewrite drain_sources_eq|].
  intros. unfold prepare_sources. cbn. destruct Hready as [Hm Ho].
  destruct composite as [composite|].
  - unfold dynamic_composite_columns in Hc. destruct (composite_members c) as [members|] eqn:Em; [|done].
    destruct (Hm _ eq_refl) as [_ [[max_work workspace] ->]]. eauto.
  - unfold overlay_delta_columns. destruct (overlay_delta_buffers c) as [buffers|]; cbn; [|eauto].
    destruct Ho as [[max_work workspace] ->]; [eauto|]. case_match; eauto.
Qed.

#[local] Existing Instance Heap.pair_python.

(** The inputs of a composite of two direct views. *)
Definition pair_inputs : Inputs := {|
  in_encoded_view := Heap.Ref "left"; in_expected_owner := Heap.Ref "one"; in_descriptor_sha256 := Heap.Ref "digest";
  in_root_annotation_view := None; in_root_annotation_owner := None; in_root_annotation_descriptor_sha256 := None;
  in_excluded_root_ids := None;
  in_overlay_delta_view := None; in_overlay_delta_owner := None; in_overlay_delta_descriptor_sha256 := None;
  in_canonical_work_limit := Some 1000; in_canonical_workspace_limit := Some 1000;
  in_max_overlay_depth := None; in_retain_empty_direct_leaves := false;
  in_merge_manifest_view := Some (Heap.Ref "manifest"); in_merge_manifest_owner := Some (Heap.Ref "pair");
  in_merge_manifest_descriptor_sha256 := Some (Heap.Ref "digest"); in_composite_members := Some (Heap.Ref "rows");
  in_root_merge_manifest_view := None; in_root_merge_manifest_owner := None;
  in_root_merge_manifest_descriptor_sha256 := None; in_composite_root_members := None;
  in_included_root_ids := None; in_right_excluded_root_ids := None;
  in_third_member_view := None; in_third_member_owner := None; in_third_member_descriptor_sha256 := None;
  in_third_excluded_root_ids := None;
  in_nested_member_view := None; in_nested_member_owner := None; in_nested_member_descriptor_sha256 := None;
  in_fourth_member_view := None; in_fourth_member_owner := None; in_fourth_member_descriptor_sha256 := None;
  in_fourth_excluded_root_ids := None; in_anonymous_scope_map := None; in_right_anonymous_scope_map := None;
|}.

Definition pair_compiler : EncodedDirectCompiler :=
  let table : RetainedBuffers := [# [Byte.x01]; []; []; repeat Byte.x00 8; []; []; []; []; []; []; []] in
  let member buffers := {| member_buffers := buffers; member_included := None; member_excluded := None;
                           member_scope_maps := []; member_root := None |} in
  {| compiler_buffers := table; overlay_delta_buffers := None; third_member_buffers := None;
     fourth_member_buffers := None; nested_member_view := false; merge_manifest_view := true;
     composite_members := Some [member None; member (Some table)]; canonical_merge_limits := Some (1000, 1000);
     compiler_included := None; compiler_excluded := None; right_excluded := None; third_excluded := None;
     fourth_excluded := None; compiler_scope_map := None; right_scope_map := None; root_annotation_buffers := None |}.

Lemma constructed_compiler_ready_witness :
  new 0 pair_inputs = Some (inl pair_compiler) /\
  exists s, compile_sources pair_compiler = inl s /\ drain_sources pair_compiler = inl s.
Proof.
  assert (E : new 0 pair_inputs = Some (inl pair_compiler)) by (vm_compute; reflexivity).
  split; [exact E|].
  destruct (constructed_compiler_ready 0 pair_inputs pair_compiler E) as (s&Hc&Hd&_).
  exists s. split; [exact Hc|exact Hd].
Defined.
