(* ===== verification/Paths.v ===== *)
(** * What the leaves of a manifest are

    [leaf_path] is the specification: a path from a view follows the references
    of the segments down to a local table.  The search of [Topology], which
    resolves each view once and keeps what it found, returns exactly these paths;
    what it accepts has no cycle and no chain of overlays that is too long; and
    it ends within the work it may spend on validation.  The rows of a leaf plan
    are then these paths, and those of a ROOT plan follow its CLOSURE. *)

From stdpp Require Import gmap.
From S2P Require Import Prelude Errors Partial Lists Text Readers Columns Generic Retained Objects Topology Leaves Manifests.
Local Open Scope string_scope.
Local Open Scope list_scope.
Local Open Scope N_scope.

Section paths.
Context `{Python}.
Context (descriptor_sha256 : object) (max_work max_overlay_depth max_leaves : usize).
Context (retain_empty_direct_leaves : bool).

(** ** The graph *)

(** What the validation of a view reads, and the work it counts. *)
Definition inspect_view (view owner : object) : Py (usize * RecursiveValidatedTopologyNode) :=
  _ ← validate_encoded_view_header view owner descriptor_sha256;
  buffers ← retained_structural_buffers view;
  segments ← recursive_segments view;
  _ ← reject (is_empty segments) (encoded_buffer_error "encoded recursive leaf manifest cannot be empty");
  node_work ← recursive_manifest_validation_work buffers segments;
  node ← validate_recursive_topology_node view owner buffers segments;
  mret (node_work, node).

Definition valid_view (view : object) (node : RecursiveValidatedTopologyNode) : Prop :=
  exists owner work, inspect_view view owner = inl (work, node).

Abbreviation key := (object * RecursiveLeafSelection)%type.

(** From a view that is selected with its children to a child. *)
Definition edge (a b : key) : Prop :=
  a.2 = All /\ exists node child, valid_view a.1 node /\ child ∈ node.(children) /\
    b = (child.(child_view), child.(child_selection)).

Inductive leaf_path : object -> RecursiveLeafSelection -> list usize -> Prop :=
  | leaf_local view selection node index :
      valid_view view node -> leaf_index retain_empty_direct_leaves node = Some index ->
      leaf_path view selection [index]
  | leaf_child view node child path :
      valid_view view node -> child ∈ node.(children) ->
      leaf_path child.(child_view) child.(child_selection) path ->
      leaf_path view All (child.(segment_index) :: path).

(** The number of overlays on a chain of references. *)
Inductive overlays : object -> RecursiveLeafSelection -> N -> Prop :=
  | overlays_here view selection node :
      valid_view view node -> overlays view selection node.(overlay_increment)
  | overlays_below view node child n :
      valid_view view node -> child ∈ node.(children) ->
      overlays child.(child_view) child.(child_selection) n ->
      overlays view All (node.(overlay_increment) + n).

Lemma header_owner view owner u :
  validate_encoded_view_header view owner descriptor_sha256 = inl u -> getattr view "owner" = Some owner.
Proof using Type.
  unfold validate_encoded_view_header, extracted, integer_attribute, required_attribute. intros E. py_inv.
  repeat match goal with
  | H : negb _ = false |- _ => apply negb_false_iff in H
  | H : same _ _ = true |- _ => apply bool_decide_eq_true in H
  end. by subst.
Qed.

Lemma inspect_view_owner view owner work node :
  inspect_view view owner = inl (work, node) -> getattr view "owner" = Some owner.
Proof using Type. unfold inspect_view. intros (u&E&_)%Py_bind_inl. by eapply header_owner. Qed.

Lemma valid_view_inj view node node' : valid_view view node -> valid_view view node' -> node = node'.
Proof using Type.
  intros (owner&work&E) (owner'&work'&E').
  pose proof (inspect_view_owner _ _ _ _ E) as Eo. rewrite (inspect_view_owner _ _ _ _ E') in Eo.
  injection Eo as ->. rewrite E' in E. by injection E.
Qed.

(** ** Validated views *)

Record validated_ok (self : ValidationState) : Prop := {
  validated_views : Forall (fun entry => valid_view entry.1 entry.2) self.(validated_nodes);
  validated_work : self.(validation_work) <= max_work;
}.

Lemma validated_node_elem nodes view node : validated_node nodes view = Some node -> (view, node) ∈ nodes.
Proof using Type.
  unfold validated_node. destruct (List.find _ nodes) as [[v n]|] eqn:E; cbn; [|done].
  intros [= <-]. apply find_some in E as [Hin Hv]. apply bool_decide_eq_true in Hv. cbn in Hv. subst.
  by apply list_elem_of_In.
Qed.

Lemma validated_node_None nodes view : validated_node nodes view = None -> view ∉ nodes.*1.
Proof using Type.
  unfold validated_node. destruct (List.find _ nodes) eqn:E; [done|]. intros _ ([v n]&->&Hin)%list_elem_of_fmap.
  apply list_elem_of_In in Hin. eapply find_none in E; [|exact Hin]. by apply bool_decide_eq_false in E.
Qed.

(** A view is new, and its work is counted, or it was validated before. *)
Lemma topology_node_ok self view owner node self' :
  validated_ok self -> recursive_topology_node self view owner descriptor_sha256 max_work = inl (node, self') ->
  valid_view view node /\ validated_ok self' /\
  ((self' = self /\ view ∈ self.(validated_nodes).*1) \/
   exists owner' work, view ∉ self.(validated_nodes).*1 /\ inspect_view view owner' = inl (work, node) /\
     self' = {| validated_nodes := (view, node) :: self.(validated_nodes);
                validation_work := self.(validation_work) + work |}).
Proof using Type.
  intros [Hv Hw] E. unfold recursive_topology_node in E.
  destruct (validated_node (validated_nodes self) view) as [node'|] eqn:Ev.
  - py_inv. simplify_eq. apply validated_node_elem in Ev. rewrite Forall_forall in Hv. pose proof (Hv _ Ev).
    split_and!; [done|by split; [apply Forall_forall|]|].
    left. split; [done|]. by apply (list_elem_of_fmap_2 fst) in Ev.
  - apply validated_node_None in Ev. py_inv. simplify_eq.
    assert (Hi : exists work, inspect_view view owner = inl (work, node) /\
      recursive_manifest_validation_work x0 x1 = inl work).
    { exists x3. split; [|done]. unfold inspect_view. by py_run. }
    destruct Hi as (work&Hi&Hwork).
    match goal with Hc : checked_add _ _ = Some _ |- _ => apply checked_add_Some in Hc as [-> Hmax] end.
    match goal with Hm : (max_work <? _) = false |- _ => apply N.ltb_ge in Hm end.
    rewrite Hwork in *. simplify_eq.
    split_and!; [by eexists _, _| |].
    + split; cbn; [|done]. constructor; [by eexists _, _|done].
    + right. by eexists owner, _.
Qed.

(** ** Work *)

Lemma len_range a b : len (range a b) = b - a.
Proof using Type.
  unfold len. rewrite length_range. lia.
Qed.

Lemma segment_roles_length segments roles : segment_roles segments = inl roles -> len roles = len segments.
Proof using Type.
  intros E. apply (Py_foldM_ind _ (fun l roles => len roles = len l)) in E; [done..|].
  intros l segment r r' Hr Ef. py_inv. subst. by rewrite !len_app, Hr.
Qed.

Lemma member_prefix_le roles : member_prefix roles <= len roles.
Proof using Type.
  induction roles as [|role roles IH]; cbn; [lia|]. rewrite len_cons. destruct (role =? _); lia.
Qed.

Lemma composite_children view segments l s : forall token,
  foldM (composite_child view segments) (None, []) l = inl (token, s) -> len s = len l.
Proof using Type.
  intros token E.
  apply (Py_foldM_ind _ (fun l s => len s.2 = len l)) in E; [done..|].
  intros seen index [t c] [t' c'] Hs Ef. unfold composite_child in Ef. py_inv. simplify_eq/=.
  by rewrite !len_app, Hs.
Qed.

(** A view has no more children than segments. *)
Lemma children_segments view owner buffers segments node :
  is_empty segments = false -> validate_recursive_topology_node view owner buffers segments = inl node ->
  len node.(children) <= len segments.
Proof using Type.
  intros He E. unfold validate_recursive_topology_node in E.
  assert (Hs : 1 <= len segments) by (destruct segments; [done|rewrite len_cons; lia]).
  apply Py_bind_inl in E as (roles&Er&E). apply segment_roles_length in Er.
  case_bool_decide; [py_inv; subst; unfold len; cbn; lia|].
  repeat (case_bool_decide; [unfold overlay_node in E; py_inv; subst; unfold len in *; cbn; lia|]).
  unfold composite_node in E.
  py_inv. subst. cbn.
  match goal with Hf : foldM (composite_child _ _) _ _ = _ |- _ => apply composite_children in Hf; rewrite Hf end.
  rewrite len_range. pose proof (member_prefix_le roles). lia.
Qed.

Lemma segments_work segments work total :
  foldM (fun work segment =>
    root_ids ← required_attribute segment "root_ids";
    scope_map ← required_attribute segment "anonymous_scope_map";
    root_id_bytes ← checked_memoryview_length root_ids "root_ids";
    scope_map_bytes ← checked_memoryview_length scope_map "anonymous_scope_map";
    segment_work ← or_else (checked ← checked_add 128 root_id_bytes; checked_add checked scope_map_bytes)
      (PyMemoryError "encoded recursive segment-work counter overflow");
    or_else (checked_add work segment_work)
      (PyMemoryError "encoded recursive validation-work counter overflow")) work segments = inl total ->
  work <= usize_max -> work + 128 * len segments <= total <= usize_max.
Proof using Type.
  intros E Hw. apply (Py_foldM_ind _ (fun l total => work + 128 * len l <= total <= usize_max)) in E; [done|rewrite (len_nil (A:=object)); lia|].
  intros seen segment s s' Hs Ef. py_inv.
  match goal with Hb : _ ≫= _ = Some _ |- _ => apply bind_Some in Hb as (?&[-> _]%checked_add_Some&[-> _]%checked_add_Some) end.
  match goal with Hc : checked_add _ _ = Some _ |- _ => apply checked_add_Some in Hc as [-> ?] end.
  rewrite len_app. unfold len at 2. cbn. lia.
Qed.

(** The work of a view pays for its children, once per selection. *)
Lemma inspect_view_work view owner work node :
  inspect_view view owner = inl (work, node) -> 4 * (1 + len node.(children)) <= work <= usize_max.
Proof using Type.
  unfold inspect_view, recursive_manifest_validation_work. intros E. py_inv. simplify_eq.
  match goal with Hs : foldM _ _ _ = inl work |- _ => apply segments_work in Hs end.
  - match goal with Hn : validate_recursive_topology_node _ _ _ _ = _ |- _ => apply children_segments in Hn; [|done] end.
    match goal with Hs : is_empty ?l = false |- _ =>
      assert (1 <= len l) by (destruct l; [done|rewrite len_cons; lia]) end.
    lia.
  - match goal with Hb : foldM _ 0 _ = inl ?t |- ?t <= _ =>
      apply (Py_foldM_ind _ (fun _ t => t <= usize_max)) in Hb; [done|done|] end.
    intros seen buffer s s' Hs Ef. py_inv. by apply checked_add_Some in Ef as [-> ?].
Qed.

Lemma valid_view_children view node : valid_view view node -> len node.(children) <= usize_max.
Proof using Type. intros (owner&work&E%inspect_view_work). lia. Qed.

(** ** Frames *)

Definition kids (view_selection : RecursiveLeafSelection) (node : RecursiveValidatedTopologyNode)
    : list RecursiveTopologyChild :=
  match view_selection with All => node.(children) | LocalOnly => [] end.

Definition key_of (child : RecursiveTopologyChild) : key := (child.(child_view), child.(child_selection)).

(** [frame] has merged the children [merged] and waits for [pending]; overlays
    nest [depth] deep above it. *)
Record frame_at (frame : RecursiveTopologyFrame) (depth : N) (merged : list RecursiveTopologyChild)
    (pending : option RecursiveTopologyChild) : Prop := {
  frame_view : valid_view frame.(identity) frame.(node);
  frame_pending : frame.(pending_child_index) = segment_index <$> pending;
  frame_merged : match frame.(selection) with
    | All => take (N.to_nat frame.(next_child)) frame.(node).(children) = merged ++ option_list pending /\
        frame.(next_child) <= len frame.(node).(children)
    | LocalOnly => merged = [] /\ pending = None /\ frame.(next_child) = len frame.(node).(children)
    end;
  frame_paths : forall path, path ∈ frame.(paths) <->
    (exists index, leaf_index retain_empty_direct_leaves frame.(node) = Some index /\ path = [index]) \/
    (exists child rest, child ∈ merged /\ path = child.(segment_index) :: rest /\
       leaf_path child.(child_view) child.(child_selection) rest);
  frame_acyclic : Forall (fun child => Acc (flip edge) (key_of child)) merged;
  frame_span : frame.(node).(overlay_increment) <= frame.(overlay_span) /\
    forall child n, child ∈ merged -> overlays child.(child_view) child.(child_selection) n ->
      frame.(node).(overlay_increment) + n <= frame.(overlay_span);
  frame_depth : frame.(absolute_overlay_depth) = depth + frame.(node).(overlay_increment) /\
    depth + frame.(overlay_span) <= max_overlay_depth;
}.

(** What is known of a view once it is resolved. *)
Record resolved_ok (view : key) (resolved : RecursiveResolvedTopology) : Prop := {
  resolved_paths_ok : forall path, path ∈ resolved.(resolved_paths) <-> leaf_path view.1 view.2 path;
  resolved_acyclic : Acc (flip edge) view;
  resolved_span_ok : forall n, overlays view.1 view.2 n -> n <= resolved.(resolved_overlay_span);
}.

(** A fresh frame. *)
Lemma fresh_frame view chosen n depth frame :
  valid_view view n ->
  recursive_topology_frame max_overlay_depth max_leaves retain_empty_direct_leaves view chosen n depth
    = inl frame ->
  frame_at frame depth [] None /\ frame.(identity) = view /\ frame.(selection) = chosen /\ frame.(node) = n.
Proof using Type.
  intros Hv E. unfold recursive_topology_frame in E. py_inv. subst frame.
  match goal with Hc : checked_add _ _ = Some _ |- _ => apply checked_add_Some in Hc as [-> Hmax] end.
  match goal with Hm : (max_overlay_depth <? _) = false |- _ => apply N.ltb_ge in Hm end.
  split_and!; [|done..]. split; cbn; try done.
  - destruct chosen; cbn; [|done]. split; [done|lia].
  - intros path. destruct (leaf_index _ n) as [index|].
    + rewrite list_elem_of_singleton. naive_solver set_solver.
    + split; [by intros ?%elem_of_nil|]. intros [(index&?&_)|(child&rest&Hc&_)]; [done|by apply elem_of_nil in Hc].
  - split; [done|]. intros child k Hc. by apply elem_of_nil in Hc.
Qed.

(** A merged child. *)
Lemma merge_ok frame depth merged child resolved frame' :
  frame_at frame depth merged (Some child) -> resolved_ok (key_of child) resolved ->
  merge_recursive_topology max_overlay_depth max_leaves (taken_pending frame)
    child.(segment_index) resolved = inl frame' ->
  frame_at frame' depth (merged ++ [child]) None /\ frame'.(identity) = frame.(identity) /\
  frame'.(selection) = frame.(selection) /\ frame'.(node) = frame.(node) /\
  frame'.(next_child) = frame.(next_child) /\ frame'.(absolute_overlay_depth) = frame.(absolute_overlay_depth).
Proof using Type.
  intros [Fv Fp Fm Fpaths Fa [Fs1 Fs2] [Fd1 Fd2]] [Rp Ra Rs] E. unfold merge_recursive_topology in E. py_inv.
  subst frame'. cbn in *.
  repeat match goal with Hc : checked_add _ _ = Some _ |- _ => apply checked_add_Some in Hc as [-> ?] end.
  repeat match goal with Hm : (_ <? _) = false |- _ => apply N.ltb_ge in Hm end.
  split_and!; [|done..]. split; cbn; try done.
  - destruct (selection frame); [|naive_solver]. by rewrite app_nil_r.
  - intros path. rewrite elem_of_app, Fpaths, list_elem_of_fmap.
    split.
    + intros [[?|(child'&rest&?&?&?)]|(rest&->&Hr%Rp)]; [by left|right..].
      * exists child', rest. split; [apply elem_of_app; by left|done].
      * exists child, rest. split; [apply elem_of_app; right; by apply list_elem_of_singleton|done].
    + intros [?|(child'&rest&[Hc| ->%list_elem_of_singleton]%elem_of_app&->&Hl)].
      * left. by left.
      * left. right. naive_solver.
      * right. exists rest. split; [done|]. by apply Rp.
  - apply Forall_app. split; [done|]. by apply Forall_singleton.
  - split; [lia|]. intros child' n [Hc| ->%list_elem_of_singleton]%elem_of_app Hn; [specialize (Fs2 _ _ Hc Hn); lia|].
    apply Rs in Hn. cbn in Hn. lia.
  - split; [done|]. lia.
Qed.

(** A frame that has merged all its children is resolved. *)
Lemma frame_resolved frame depth merged :
  frame_at frame depth merged None -> get frame.(node).(children) frame.(next_child) = None ->
  resolved_ok (frame.(identity), frame.(selection))
    {| resolved_paths := frame.(paths); resolved_overlay_span := frame.(overlay_span) |}.
Proof using Type.
  intros [Fv Fp Fm Fpaths Fa [Fs1 Fs2] [Fd1 Fd2]] Hn.
  assert (Hm : merged = kids frame.(selection) frame.(node)).
  { destruct (selection frame); cbn; [|naive_solver]. destruct Fm as [Ht Hle]. cbn in Ht.
    rewrite app_nil_r in Ht. apply get_None in Hn. rewrite <- Ht. apply take_ge. unfold len in *. lia. }
  rewrite Hm in *. split; cbn.
  - intros path. rewrite Fpaths. split.
    + intros [(index&?&->)|(child&rest&Hc&->&?)]; [by eapply leaf_local|].
      destruct (selection frame); [|by apply elem_of_nil in Hc]. by eapply leaf_child.
    + inversion 1 as [v s n index Hv Hi|v n child rest Hv Hc Hl]; subst.
      * left. exists index. by rewrite (valid_view_inj _ _ _ Fv Hv).
      * right. exists child, rest. by rewrite (valid_view_inj _ _ _ Fv Hv).
  - constructor. intros b (Es&n&child&Hv&Hc&->). cbn in Es, Hv. rewrite Es in Fa. cbn in Fa.
    rewrite (valid_view_inj _ _ _ Fv Hv) in Fa. rewrite Forall_forall in Fa. by apply Fa.
  - intros k Ho. inversion Ho as [v s n Hv|v n child k' Hv Hc Hk]; subst.
    + by rewrite <- (valid_view_inj _ _ _ Fv Hv).
    + rewrite <- (valid_view_inj _ _ _ Fv Hv). apply (Fs2 child); [|done].
      match goal with Hsel : All = _ |- _ => rewrite <- Hsel end. by rewrite (valid_view_inj _ _ _ Fv Hv).
Qed.

(** ** The search *)

Context (manifest : object).

(** The frames that wait for the resolution of a view; overlays nest [depth]
    deep above it. *)
Inductive callers : key -> N -> list RecursiveTopologyFrame -> Prop :=
  | callers_root : callers (manifest, All) 0 []
  | callers_frame child frame depth merged frames :
      frame_at frame depth merged (Some child) ->
      callers (frame.(identity), frame.(selection)) depth frames ->
      callers (key_of child) frame.(absolute_overlay_depth) (frame :: frames).

Lemma callers_inv waiting_for depth frames :
  callers waiting_for depth frames ->
  match frames with
  | [] => waiting_for = (manifest, All) /\ depth = 0
  | frame :: frames => exists child d merged, waiting_for = key_of child /\
      depth = frame.(absolute_overlay_depth) /\ frame_at frame d merged (Some child) /\
      callers (frame.(identity), frame.(selection)) d frames
  end.
Proof using Type. destruct 1 as [|child frame d merged frames Hf Hc]; [done|]. by exists child, d, merged. Qed.

Record search_ok (self : SearchState) : Prop := {
  search_views : validated_ok self.(search_validated);
  search_cached : forall view chosen resolved,
    cached self.(resolved_topologies) view chosen = Some resolved -> resolved_ok (view, chosen) resolved;
  search_stack : exists frame frames depth merged, self.(stack) = frame :: frames /\
    frame_at frame depth merged None /\ callers (frame.(identity), frame.(selection)) depth frames;
}.

Definition root_ok (resolved : RecursiveResolvedTopology) : Prop :=
  resolved_ok (manifest, All) resolved /\ resolved.(resolved_overlay_span) <= max_overlay_depth.

Lemma cached_cons view chosen entry resolved found :
  cached ((entry, resolved) :: found) view chosen =
  if bool_decide (entry = (view, chosen)) then Some resolved else cached found view chosen.
Proof using Type. unfold cached. cbn. by case_bool_decide. Qed.

(** The next child of a frame. *)
Lemma frame_advanced frame depth merged child :
  frame_at frame depth merged None -> get frame.(node).(children) frame.(next_child) = Some child ->
  frame_at (waiting (advanced frame) child.(segment_index)) depth merged (Some child).
Proof using Type.
  intros [Fv Fp Fm Fpaths Fa Fs Fd] Hg. pose proof (get_Some_lt _ _ _ Hg). apply valid_view_children in Fv as Hlen. split; cbn; try done.
  destruct (selection frame); [|destruct Fm as (_&_&E); lia].
  destruct Fm as [Ht Hle]. cbn in Ht. rewrite app_nil_r in Ht.
  rewrite wrapping_add_small by lia. split; [|lia].
  rewrite get_lookup in Hg. replace (N.to_nat (next_child frame + 1)) with (S (N.to_nat (next_child frame))) by lia.
  by rewrite (take_S_r _ _ _ Hg), Ht.
Qed.

Lemma resolve_frame_ok self frame frames depth merged result :
  search_ok self -> frame_at frame depth merged None ->
  callers (frame.(identity), frame.(selection)) depth frames ->
  get frame.(node).(children) frame.(next_child) = None ->
  resolve_frame max_overlay_depth max_leaves self frame frames = inl result ->
  match result with inl self => search_ok self | inr resolved => root_ok resolved end.
Proof using Type.
  intros [Hv Hc _] Hf Hcallers Hg E. pose proof (frame_resolved _ _ _ Hf Hg) as Hr.
  unfold resolve_frame in E. destruct frames as [|parent frames].
  - injection E as <-. apply callers_inv in Hcallers as [Ek ->]. rewrite Ek in Hr. split; [exact Hr|].
    cbn. destruct Hf as [_ _ _ _ _ _ [_ Hd]]. lia.
  - py_inv. subst result. apply callers_inv in Hcallers as (child&d&m&Ekey&->&Hp&Hrest). rewrite Ekey in Hr.
    pose proof (frame_pending _ _ _ _ Hp) as Epending.
    match goal with Hpending : pending_child_index parent = Some _ |- _ => rewrite Epending in Hpending end.
    cbn in *. simplify_eq. pose proof Hr as Hr'.
    eapply merge_ok in Hr; [|exact Hp|done]. destruct Hr as (Hf'&Ei&Es&En&Enext&Ed).
    split; cbn [search_validated resolved_topologies stack]; [done| |].
    + intros view chosen resolved. rewrite cached_cons. case_bool_decide as Ek; [|by apply Hc].
      intros [= <-]. rewrite <- Ek, Ekey. exact Hr'.
    + eexists _, frames, _, _. split; [done|]. split; [exact Hf'|]. by rewrite Ei, Es.
Qed.

Lemma merge_cached frame depth merged child resolved frame' :
  frame_at frame depth merged None -> get frame.(node).(children) frame.(next_child) = Some child ->
  resolved_ok (key_of child) resolved ->
  merge_recursive_topology max_overlay_depth max_leaves (advanced frame) child.(segment_index) resolved = inl frame' ->
  frame_at frame' depth (merged ++ [child]) None /\ frame'.(identity) = frame.(identity) /\
  frame'.(selection) = frame.(selection) /\ frame'.(node) = frame.(node) /\
  frame'.(next_child) = (advanced frame).(next_child).
Proof using Type.
  intros Hf Hg Hr E. pose proof (frame_advanced _ _ _ _ Hf Hg) as Hw.
  assert (Et : taken_pending (waiting (advanced frame) child.(segment_index)) = advanced frame).
  { pose proof (frame_pending _ _ _ _ Hf) as Ep. destruct frame. cbn in *. by subst. }
  rewrite <- Et in E. destruct (merge_ok _ _ _ _ _ _ Hw Hr E) as (H1&H2&H3&H4&H5&_). by split_and!.
Qed.

Lemma visit_child_ok self frame frames depth merged child self' :
  search_ok self -> frame_at frame depth merged None ->
  callers (frame.(identity), frame.(selection)) depth frames ->
  get frame.(node).(children) frame.(next_child) = Some child ->
  visit_child max_overlay_depth max_leaves retain_empty_direct_leaves descriptor_sha256 max_work self
    (advanced frame) frames child = inl self' ->
  search_ok self'.
Proof using Type.
  intros [Hv Hc _] Hf Hcallers Hg E. unfold visit_child in E. py_inv.
  match goal with Ht : recursive_topology_node _ _ _ _ _ = _ |- _ =>
    apply topology_node_ok in Ht as (Hview&Hv'&_); [|done] end.
  destruct (cached _ _ _) as [resolved|] eqn:Ec.
  - py_inv. subst. apply Hc in Ec.
    match goal with Hm : merge_recursive_topology _ _ _ _ _ = _ |- _ =>
      destruct (merge_cached _ _ _ _ _ _ Hf Hg Ec Hm) as (Hf'&Ei&Es&_) end.
    split; [exact Hv'|exact Hc|]. cbn. eexists _, frames, _, _.
    split; [done|]. split; [exact Hf'|]. by rewrite Ei, Es.
  - py_inv. subst.
    match goal with Hm : recursive_topology_frame _ _ _ _ _ _ _ = _ |- _ =>
      destruct (fresh_frame _ _ _ _ _ Hview Hm) as (Hf'&Ei&Es&_) end.
    split; [exact Hv'|exact Hc|]. cbn. eexists _, _, _, _.
    split; [done|]. split; [exact Hf'|]. rewrite Ei, Es.
    apply (callers_frame child (waiting (advanced frame) child.(segment_index)) depth merged frames); [|exact Hcallers].
    by apply frame_advanced.
Qed.

Lemma search_round_ok self result :
  search_ok self ->
  search_round max_overlay_depth max_leaves retain_empty_direct_leaves descriptor_sha256 max_work self = inl result ->
  match result with inl self => search_ok self | inr resolved => root_ok resolved end.
Proof using Type.
  intros Hs E. pose proof (search_stack _ Hs) as (frame&frames&depth&merged&Es&Hf&Hc).
  unfold search_round in E. rewrite Es in E.
  destruct (get _ _) as [child|] eqn:Eg; [|by eapply resolve_frame_ok].
  py_inv. subst. by eapply visit_child_ok.
Qed.

Lemma search_loop_ok fuel self resolved work :
  search_ok self ->
  search_loop max_overlay_depth max_leaves retain_empty_direct_leaves fuel descriptor_sha256 max_work self
    = Some (inl (resolved, work)) ->
  root_ok resolved /\ work <= max_work.
Proof using Type.
  revert self. induction fuel as [|fuel IH]; intros self Hs E; cbn in E; [done|].
  destruct (search_round _ _ _ _ _ self) as [[self'|result]|error] eqn:Er; [|injection E as <- <-|done].
  - apply search_round_ok in Er; [|done]. by eapply IH.
  - apply search_round_ok in Er; [|done]. split; [exact Er|]. apply Hs.
Qed.

(** The set of the paths. *)
Lemma expected_paths_ok resolved expected :
  Topology.expected_paths max_leaves resolved = inl expected ->
  (forall path, path ∈ expected <-> path ∈ resolved) /\ N.of_nat (size expected) <= max_leaves.
Proof using Type.
  unfold expected_paths. intros E. py_inv. subst.
  match goal with Hm : (max_leaves <? _) = false |- _ => apply N.ltb_ge in Hm; split; [|exact Hm] end.
  match goal with Hf : foldM _ _ _ = inl _ |- _ =>
    refine (Py_foldM_ind _ (fun l (e : gset (list usize)) => forall path, path ∈ e <-> path ∈ l) _ _ _ Hf _ _) end.
  { intros p. split; [by intros ?%not_elem_of_empty|by intros ?%elem_of_nil]. }
  intros seen path e e' He Ef. py_inv. subst. intros p. rewrite elem_of_union, elem_of_singleton, elem_of_app,
    list_elem_of_singleton, He. done.
Qed.
(** ** Progress *)

Abbreviation entry := (object * RecursiveValidatedTopologyNode)%type.

(** What a view pays for a selection that has not been started. *)
Definition selection_credit (started : list key) (e : entry) (chosen : RecursiveLeafSelection) : N :=
  if bool_decide ((e.1, chosen) ∈ started) then 0 else 1 + len e.2.(children).

Definition credit (started : list key) (e : entry) : N :=
  selection_credit started e All + selection_credit started e LocalOnly.

Lemma selection_credit_start started e chosen k :
  selection_credit (k :: started) e chosen <= selection_credit started e chosen.
Proof using Type.
  unfold selection_credit. case_bool_decide as E; [lia|]. case_bool_decide as E'; [|lia].
  destruct E. by right.
Qed.

Lemma credit_start started e k : credit (k :: started) e <= credit started e.
Proof using Type.
  unfold credit. pose proof (selection_credit_start started e All k).
  pose proof (selection_credit_start started e LocalOnly k). lia.
Qed.

Lemma credit_started started e chosen : (e.1, chosen) ∉ started ->
  credit ((e.1, chosen) :: started) e + (1 + len e.2.(children)) <= credit started e.
Proof using Type.
  intros Hn. assert (Hc : selection_credit ((e.1, chosen) :: started) e chosen = 0).
  { unfold selection_credit. rewrite bool_decide_eq_true_2; [done|by left]. }
  assert (Hc' : selection_credit started e chosen = 1 + len e.2.(children)).
  { unfold selection_credit. by rewrite bool_decide_eq_false_2. }
  unfold credit. destruct chosen.
  - pose proof (selection_credit_start started e LocalOnly (e.1, All)). lia.
  - pose proof (selection_credit_start started e All (e.1, LocalOnly)). lia.
Qed.

Lemma credits_start started nodes e chosen : e ∈ nodes -> (e.1, chosen) ∉ started ->
  sum (credit ((e.1, chosen) :: started)) nodes + (1 + len e.2.(children)) <= sum (credit started) nodes.
Proof using Type.
  intros He Hn. induction nodes as [|e' nodes IH]; [by apply elem_of_nil in He|]. rewrite !sum_cons.
  apply elem_of_cons in He as [->|He].
  - pose proof (credit_started started e' chosen Hn).
    enough (sum (credit ((e'.1, chosen) :: started)) nodes <= sum (credit started) nodes) by lia.
    apply sum_le. intros e _. apply credit_start.
  - specialize (IH He). pose proof (credit_start started e' (e.1, chosen)). lia.
Qed.

Lemma credits_ext started started' nodes : (forall k, k ∈ started <-> k ∈ started') ->
  sum (credit started) nodes = sum (credit started') nodes.
Proof using Type.
  intros E. induction nodes as [|e nodes IH]; [done|]. rewrite !sum_cons, IH. f_equal.
  unfold credit, selection_credit. f_equal; by rewrite (bool_decide_ext _ _ (E _)).
Qed.

Definition frame_key (frame : RecursiveTopologyFrame) : key := (frame.(identity), frame.(selection)).

Definition started (self : SearchState) : list key := (frame_key <$> self.(stack)) ++ self.(resolved_topologies).*1.

Definition rounds_left (frame : RecursiveTopologyFrame) : N :=
  1 + (len frame.(node).(children) - frame.(next_child)).

Definition measure (self : SearchState) : N :=
  2 * (max_work - self.(search_validated).(validation_work))
  + sum (credit (started self)) self.(search_validated).(validated_nodes)
  + sum rounds_left self.(stack).

Record live (self : SearchState) : Prop := {
  live_views : validated_ok self.(search_validated);
  live_nodes : Forall (fun frame => (frame.(identity), frame.(node)) ∈ self.(search_validated).(validated_nodes))
    self.(stack);
  live_active : self.(active) = identity <$> self.(stack);
  live_distinct : NoDup self.(active);
}.

Lemma merge_fields frame index resolved frame' :
  merge_recursive_topology max_overlay_depth max_leaves frame index resolved = inl frame' ->
  frame_key frame' = frame_key frame /\ frame'.(identity) = frame.(identity) /\
  frame'.(node) = frame.(node) /\ frame'.(next_child) = frame.(next_child).
Proof using Type. unfold merge_recursive_topology. intros E. py_inv. by subst. Qed.

Lemma fresh_fields view chosen n depth frame :
  recursive_topology_frame max_overlay_depth max_leaves retain_empty_direct_leaves view chosen n depth = inl frame ->
  frame_key frame = (view, chosen) /\ frame.(identity) = view /\ frame.(node) = n.
Proof using Type. unfold recursive_topology_frame. intros E. py_inv. by subst. Qed.

(** The validation of a view pays for what it may start. *)
Lemma topology_node_measure self view owner n self' seen :
  validated_ok self -> recursive_topology_node self view owner descriptor_sha256 max_work = inl (n, self') ->
  validated_ok self' /\ (view, n) ∈ self'.(validated_nodes) /\
  (forall e, e ∈ self.(validated_nodes) -> e ∈ self'.(validated_nodes)) /\
  2 * (max_work - self'.(validation_work)) + sum (credit seen) self'.(validated_nodes) <=
  2 * (max_work - self.(validation_work)) + sum (credit seen) self.(validated_nodes).
Proof using Type.
  intros Hv E. apply topology_node_ok in E as (Hview&Hv'&[[-> Hin]|(owner'&work&Hnew&Ei&->)]); [| |done].
  - split_and!; [done| |done|done]. apply list_elem_of_fmap in Hin as ([v n']&->&Hin).
    pose proof (validated_views _ Hv) as Hall. rewrite Forall_forall in Hall. specialize (Hall _ Hin). cbn in *.
    by rewrite (valid_view_inj _ _ _ Hview Hall).
  - split_and!; [done|by left|by right|]. cbn [validated_nodes validation_work]. rewrite sum_cons.
    pose proof (validated_work _ Hv') as Hw'. cbn in Hw'. apply inspect_view_work in Ei.
    assert (credit seen (view, n) <= 2 * (1 + len n.(children))); [|lia].
    unfold credit, selection_credit. cbn. repeat case_bool_decide; lia.
Qed.

Lemma rounds_left_advanced frame child :
  valid_view frame.(identity) frame.(node) -> get frame.(node).(children) frame.(next_child) = Some child ->
  rounds_left (advanced frame) + 1 = rounds_left frame.
Proof using Type.
  intros Hv%valid_view_children Hg%get_Some_lt. unfold rounds_left. cbn. rewrite wrapping_add_small by lia. lia.
Qed.

Lemma cached_None found view chosen : cached found view chosen = None -> (view, chosen) ∉ found.*1.
Proof using Type.
  unfold cached. destruct (List.find _ found) eqn:E; [done|]. intros _ ([k r]&Ek&Hin)%list_elem_of_fmap.
  cbn in Ek. subst. apply list_elem_of_In in Hin. eapply find_none in E; [|exact Hin].
  by apply bool_decide_eq_false in E.
Qed.

Lemma visit_child_live self frame frames child self' :
  live self -> self.(stack) = frame :: frames ->
  get frame.(node).(children) frame.(next_child) = Some child ->
  visit_child max_overlay_depth max_leaves retain_empty_direct_leaves descriptor_sha256 max_work self
    (advanced frame) frames child = inl self' ->
  live self' /\ measure self' < measure self.
Proof using Type.
  intros [Hv Hn Ha Hd] Es Hg E. rewrite Es in Hn, Ha. apply Forall_cons in Hn as [Hin Hn].
  assert (Hview : valid_view (identity frame) (node frame)).
  { pose proof (validated_views _ Hv) as Hall. rewrite Forall_forall in Hall. apply (Hall _ Hin). }
  pose proof (rounds_left_advanced _ _ Hview Hg) as Hrounds.
  unfold visit_child in E. py_inv.
  match goal with Hx : existsb _ _ = false |- _ => rename Hx into Hactive end.
  match goal with Ht : recursive_topology_node _ _ _ _ _ = _ |- _ => rename Ht into Hnode end.
  destruct (cached _ _ _) as [resolved|] eqn:Ec; py_inv; subst.
  - destruct (topology_node_measure _ _ _ _ _ (started self) Hv Hnode) as (Hv'&_&Hsub&Hle).
    match goal with Hm : merge_recursive_topology _ _ _ _ _ = _ |- _ => apply merge_fields in Hm as (Ek&Ei&En&Enext) end.
    split.
    + split; cbn; [done| |by rewrite Ei|done]. constructor; [rewrite Ei, En; by apply Hsub|].
      eapply Forall_impl; [exact Hn|]. auto.
    + unfold measure, started in *. cbn. rewrite Es in *. cbn in *. rewrite Ek.
      change (frame_key (advanced frame)) with (frame_key frame).
      match goal with |- context [rounds_left ?f] =>
        assert (rounds_left f = rounds_left (advanced frame)) as -> by (unfold rounds_left; by rewrite En, Enext) end.
      lia.
  - assert (Hfresh : (child_view child, child_selection child) ∉ started self).
    { unfold started. rewrite Es. intros [(f&Ef&Hf)%list_elem_of_fmap|Hc]%elem_of_app; [|by eapply cached_None in Ec].
      injection Ef as Ev _. apply (list_elem_of_fmap_2 identity) in Hf. rewrite <- Ha, <- Ev in Hf.
      assert (existsb (same (child_view child)) (active self) = true); [|congruence].
      apply existsb_exists. exists (child_view child). split; [by apply list_elem_of_In|]. by apply bool_decide_eq_true. }
    destruct (topology_node_measure _ _ _ _ _ (started self) Hv Hnode) as (Hv'&Hnew&Hsub&Hle).
    match goal with Hm : recursive_topology_frame _ _ _ _ _ _ _ = _ |- _ => apply fresh_fields in Hm as (Ek&Ei&En) end.
    split.
    + split; cbn; [done| |by rewrite Ei, Ha|].
      * constructor; [by rewrite Ei, En|]. constructor; [by apply Hsub|]. eapply Forall_impl; [exact Hn|]. auto.
      * constructor; [|done]. intros Hc. apply list_elem_of_In in Hc.
        assert (existsb (same (child_view child)) (active self) = true); [|congruence].
        apply existsb_exists. exists (child_view child). split; [done|]. by apply bool_decide_eq_true.
    + pose proof (credits_start (started self) _ _ (child_selection child) Hnew Hfresh) as Hcredit. cbn in Hcredit.
      unfold measure, started in *. cbn. rewrite Es in *. cbn in *. rewrite Ek.
      change (frame_key (waiting (advanced frame) (segment_index child))) with (frame_key frame).
      change (rounds_left (waiting (advanced frame) (segment_index child))) with (rounds_left (advanced frame)).
      match goal with |- context [rounds_left ?f] => assert (rounds_left f <= 1 + len (children (node f))) by
        (unfold rounds_left; lia) end.
      rewrite En in *. lia.
Qed.

Lemma filter_other (v : object) (l : list object) : v ∉ l -> filter (fun view => view <> v) l = l.
Proof using Type.
  induction l as [|a l IH]; [done|]. intros [Ha Hl]%not_elem_of_cons.
  rewrite filter_cons_True by congruence. by rewrite IH.
Qed.

Lemma resolve_frame_live self frame frames self' :
  live self -> self.(stack) = frame :: frames ->
  resolve_frame max_overlay_depth max_leaves self frame frames = inl (inl self') ->
  live self' /\ measure self' < measure self.
Proof using Type.
  intros [Hv Hn Ha Hd] Es E. rewrite Es in Hn, Ha. apply Forall_cons in Hn as [_ Hn].
  rewrite Ha in Hd. cbn in Hd. apply NoDup_cons in Hd as [Hnotin Hd].
  unfold resolve_frame in E. destruct frames as [|parent frames]; [done|]. py_inv. subst.
  match goal with Hm : merge_recursive_topology _ _ _ _ _ = _ |- _ => apply merge_fields in Hm as (Ek&Ei&En&Enext) end.
  change (frame_key (taken_pending parent)) with (frame_key parent) in Ek. cbn in Ei, En, Enext.
  apply Forall_cons in Hn as [Hparent Hn].
  match goal with |- live ?s /\ _ => assert (Hactive : s.(active) = identity <$> s.(stack)) end.
  { cbn [active stack]. rewrite Ha, !fmap_cons, filter_cons_False by (by intros Hne).
    rewrite filter_other by done. by rewrite Ei. }
  split.
  - split; [done| |exact Hactive|].
    + cbn. constructor; [by rewrite Ei, En|done].
    + rewrite Hactive. cbn. rewrite Ei. by cbn in Hd.
  - unfold measure, started. cbn [search_validated stack resolved_topologies]. rewrite Es, !fmap_cons, !sum_cons, Ek. cbn [fst].
    rewrite (credits_ext _ ((frame_key frame :: frame_key parent :: (frame_key <$> frames)) ++ (resolved_topologies self).*1)).
    2:{ intros k. cbn. rewrite !elem_of_cons, !elem_of_app, !elem_of_cons. unfold frame_key. tauto. }
    match goal with |- context [rounds_left ?f] =>
      assert (rounds_left f = rounds_left parent) as -> by (unfold rounds_left; by rewrite En, Enext) end.
    assert (1 <= rounds_left frame) by (unfold rounds_left; lia). lia.
Qed.

Lemma search_loop_returns fuel self :
  live self -> measure self < N.of_nat fuel ->
  exists result, search_loop max_overlay_depth max_leaves retain_empty_direct_leaves fuel descriptor_sha256
    max_work self = Some result.
Proof using Type.
  revert self. induction fuel as [|fuel IH]; intros self Hl Hm; [lia|]. cbn.
  destruct (search_round _ _ _ _ _ self) as [[self'|resolved]|error] eqn:E; [|by eexists..].
  unfold search_round in E. destruct (stack self) as [|frame frames] eqn:Es; [done|].
  assert (live self' /\ measure self' < measure self) as [Hl' Hm'].
  { destruct (get _ _) as [child|] eqn:Eg.
    - py_inv. simplify_eq. by eapply visit_child_live.
    - by eapply resolve_frame_live. }
  apply IH; [done|lia].
Qed.
End paths.

(** ** The contract *)

Lemma enumerated_paths `{Python} max_overlay_depth max_leaves retain fuel manifest owner digest max_work expected work :
  enumerate_recursive_leaf_paths max_overlay_depth max_leaves retain fuel manifest owner digest max_work
    = Some (inl (expected, work)) ->
  (forall path, path ∈ expected <-> leaf_path digest retain manifest All path) /\
  N.of_nat (size expected) <= max_leaves /\ work <= max_work /\
  Acc (flip (edge digest)) (manifest, All) /\
  forall n, overlays digest manifest All n -> n <= max_overlay_depth.
Proof.
  unfold enumerate_recursive_leaf_paths. cbv zeta.
  match goal with |- match ?m with _ => _ end = _ -> _ => destruct m as [search|error] eqn:Es end; [|done].
  intros (result&El&E)%bind_Some. py_inv. subst.
  match goal with Ht : recursive_topology_node _ _ _ _ _ = _ |- _ =>
    apply (topology_node_ok digest max_work) in Ht as (Hview&Hv&_); [|by split; cbn; [constructor|lia]] end.
  match goal with Hm : recursive_topology_frame _ _ _ _ _ _ _ = _ |- _ =>
    destruct (fresh_frame _ _ _ _ _ _ _ _ _ Hview Hm) as (Hf&Ei&Ec&_) end.
  assert (Hsearch : search_ok digest max_work max_overlay_depth retain manifest
    {| search_validated := v; resolved_topologies := []; active := [manifest]; stack := [x] |}).
  { split; [exact Hv|done|]. cbn. eexists _, [], _, _. split; [done|]. split; [exact Hf|]. rewrite Ei, Ec. constructor. }
  clear Ei Ec Hf. injection E as E. apply Py_bind_inl in E as ([r' w]&->&E).
  apply (search_loop_ok _ _ _ _ _ manifest) in El as [[[Hp Ha Hs] Hspan] Hw]; [|exact Hsearch].
  py_inv. simplify_eq.
  match goal with Hx : expected_paths _ _ = _ |- _ => apply expected_paths_ok in Hx as [Hmem Hsize] end.
  split_and!; [|exact Hsize|exact Hw|exact Ha|].
  - intros path. by rewrite Hmem, Hp.
  - intros n Hn%Hs. lia.
Qed.

(** C13: The search for the leaves of a manifest is sound and complete: the set it
    returns holds exactly the paths that follow the references of the manifest
    down to a local table; there are no more of them than tables that were
    retained, and the validation stayed within its work; the views reached form
    no cycle, and no chain of references nests more overlays than allowed. *)
Theorem leaf_paths_exact `{Python} max_overlay_depth max_leaves retain fuel manifest owner digest max_work expected work :
  enumerate_recursive_leaf_paths max_overlay_depth max_leaves retain fuel manifest owner digest max_work
    = Some (inl (expected, work)) ->
  (forall path, path ∈ expected <-> leaf_path digest retain manifest All path) /\
  N.of_nat (size expected) <= max_leaves /\ work <= max_work /\
  Acc (flip (edge digest)) (manifest, All) /\
  forall n, overlays digest manifest All n -> n <= max_overlay_depth.
Proof. apply enumerated_paths. Qed.

Lemma leaf_paths_exact_witness :
  let _ := Heap.pair_python in
  leaf_path (Heap.Ref "digest") false (Heap.Ref "manifest") All [1; 0] /\
  ~ leaf_path (Heap.Ref "digest") false (Heap.Ref "manifest") All [2; 0].
Proof.
  intros P.
  assert (E : enumerate_recursive_leaf_paths (H := P) 1 4 false 10 (Heap.Ref "manifest") (Heap.Ref "pair")
    (Heap.Ref "digest") 1000 = Some (inl ({[ [0; 0]; [1; 0] ]}, 538))) by (vm_compute; reflexivity).
  destruct (leaf_paths_exact _ _ _ _ _ _ _ _ _ _ E) as [Hexact _].
  split; [apply Hexact, elem_of_union_r, elem_of_singleton; reflexivity|].
  intros Hp. apply Hexact, elem_of_union in Hp as [Hp|Hp]; apply elem_of_singleton in Hp; discriminate Hp.
Defined.

(** C19: The search for the leaves of a manifest ends: with fuel for two rounds per
    unit of the work that its validation may spend, it answers, whatever graph
    the views form. *)
Theorem leaf_paths_returns `{Python} max_overlay_depth max_leaves retain fuel manifest owner digest max_work :
  2 * max_work < N.of_nat fuel ->
  exists result,
    enumerate_recursive_leaf_paths max_overlay_depth max_leaves retain fuel manifest owner digest max_work = Some result.
Proof.
  intros Hfuel. unfold enumerate_recursive_leaf_paths. cbv zeta.
  match goal with |- exists _, match ?m with _ => _ end = _ => destruct m as [search|error] eqn:Es end; [|by eexists].
  enough (exists result, search_loop max_overlay_depth max_leaves retain fuel digest max_work search = Some result)
    as [result ->] by (by eexists).
  py_inv. subst.
  assert (Hempty : validated_ok digest max_work {| validated_nodes := []; validation_work := 0 |})
    by (split; cbn; [constructor|lia]).
  match goal with Ht : recursive_topology_node _ _ _ _ _ = _ |- _ => rename Ht into Hnode end.
  match goal with Hm : recursive_topology_frame _ _ _ _ _ _ _ = inl ?f |- _ =>
    apply fresh_fields in Hm as (Ek&Ei&En); rename f into frame end.
  destruct (topology_node_measure digest max_work _ _ _ _ _ [] Hempty Hnode) as (Hv&Hin&_&_).
  destruct (topology_node_measure digest max_work _ _ _ _ _ [] Hempty Hnode) as (_&_&_&Hle).
  cbn in Hle.
  apply search_loop_returns.
  - split; cbn; [done|apply Forall_singleton; by rewrite Ei, En|by rewrite Ei|apply NoDup_singleton].
  - unfold measure, started. cbn. rewrite Ek.
    pose proof (credits_start [] _ _ All Hin) as Hc. cbn in Hc.
    assert (Hr : rounds_left frame <= 1 + len r.(children)) by (unfold rounds_left; rewrite En; lia).
    pose proof (Hc ltac:(by intros ?%elem_of_nil)). lia.
Qed.

Lemma leaf_paths_returns_witness :
  let _ := Heap.pair_python in
  exists result, enumerate_recursive_leaf_paths 1 4 false 2001 (Heap.Ref "manifest") (Heap.Ref "pair")
    (Heap.Ref "digest") 1000 = Some result.
Proof.
  intros P. apply (leaf_paths_returns (H := P) 1 4 false 2001 (Heap.Ref "manifest") (Heap.Ref "pair") (Heap.Ref "digest")).
  reflexivity.
Defined.

(** ** Leaf plans *)

Section plans.
Context `{Python}.

(** Where a path from a view leads: each coordinate but the last is a reference
    of the view before it. *)
Inductive leads : object -> list usize -> object -> Prop :=
  | leads_here view index : leads view [index] view
  | leads_through view segments index segment source path target :
      recursive_segments view = inl segments -> get segments index = Some segment ->
      getattr segment "source" = Some source -> leads source path target ->
      leads view (index :: path) target.

Lemma reference_source_attribute view segment role rows reference :
  validate_recursive_reference view segment role rows = inl reference ->
  getattr segment "source" = Some reference.(reference_source).
Proof using Type.
  unfold validate_recursive_reference. intros E.
  apply Py_bind_inl in E as (?&_&E). apply Py_bind_inl in E as (source&Es&E).
  apply or_else_inl in Es. rewrite Es. py_inv. by subst.
Qed.

Lemma missing_leaf_view view owner index input u :
  validate_recursive_missing_local_leaf view owner index input = inl u -> view = input.(input_view).
Proof using Type.
  unfold validate_recursive_missing_local_leaf. intros E. apply Py_bind_inl in E as (?&Er&_).
  apply reject_inl, orb_false_iff in Er as [Er _]. by apply same_true in Er.
Qed.

Lemma walk_leads input missing path walk walk' :
  walk_path input missing path walk = inl walk' -> path <> [] ->
  leads walk.(current_view) path input.(input_view).
Proof using Type.
  revert walk. induction path as [|index path IH]; intros walk E Hne; [done|].
  cbn [walk_path] in E. apply Py_bind_inl in E as (segments&Es&E).
  destruct (get segments index) as [segment|] eqn:Eg.
  - apply Py_bind_inl in E as (role&_&E).
    destruct path as [|next path]; cbn [is_empty] in E.
    + apply Py_bind_inl in E as (?&Er&_). apply reject_inl, orb_false_iff in Er as [Er _].
      apply same_true in Er as <-. constructor.
    + apply Py_bind_inl in E as (reference&Er&E). apply Py_bind_inl in E as ([include exclude]&_&E).
      apply Py_bind_inl in E as (bytes&_&E). apply IH in E; [|done].
      eapply leads_through; [exact Es|exact Eg|by eapply reference_source_attribute|exact E].
  - destruct path as [|next path]; [|done]. destruct missing; [|done]. cbn [is_empty andb] in E.
    apply Py_bind_inl in E as (?&E&_). apply missing_leaf_view in E as <-. constructor.
Qed.

Lemma leaf_path_nonempty digest retain view selection path : leaf_path digest retain view selection path -> path <> [].
Proof using Type. by destruct 1. Qed.

(** The rows that were matched with paths, and the paths that are left. *)
Definition matched_rows (manifest : object) (expected : gset (list usize))
    (inputs : list DynamicCompositeMemberInput) (left : gset (list usize)) : Prop :=
  exists paths, left = expected ∖ list_to_set paths /\ NoDup paths /\ Forall (fun path => path ∈ expected) paths /\
    Forall2 (fun input path => recursive_input_path input = inl path /\
      leads manifest path input.(input_view)) inputs paths.

Lemma member_path_matched manifest owner expected missing inputs input left left' :
  (forall path, path ∈ expected -> path <> []) -> matched_rows manifest expected inputs left ->
  validate_recursive_member_path manifest owner input left missing = inl left' ->
  matched_rows manifest expected (inputs ++ [input]) left'.
Proof using Type.
  intros Hne (paths&->&Hnodup&Hall&Hrows) E. unfold validate_recursive_member_path in E. py_inv. subst.
  match goal with E : recursive_input_path _ = inl ?p |- _ => rename p into path, E into Ep end.
  match goal with E : negb (bool_decide (_ ∈ _)) = false |- _ => apply negb_false_iff, bool_decide_eq_true in E; rename E into Hin end.
  apply elem_of_difference in Hin as [Hin Hnew]. rewrite elem_of_list_to_set in Hnew.
  match goal with E : walk_path _ _ _ _ = inl _ |- _ => apply walk_leads in E; [|by apply Hne]; cbn in E end.
  exists (paths ++ [path]). split_and!.
  - rewrite list_to_set_app_L, difference_union_distr_r_L. set_solver.
  - apply NoDup_app. split; [done|]. split; [|apply NoDup_singleton]. intros p Hp ->%list_elem_of_singleton. done.
  - apply Forall_app. split; [done|]. by apply Forall_singleton.
  - by apply Forall2_app, Forall2_cons.
Qed.
End plans.

(** C15: The rows of a leaf plan that is accepted are the leaves of the manifest:
    their paths are distinct and are exactly the paths that the manifest has to
    its local tables, and each row names the view that its path leads to. *)
Theorem leaf_plan_exact `{Python} fuel manifest owner digest inputs max_work max_overlay_depth retain work :
  validate_recursive_leaf_plan fuel manifest owner digest inputs max_work max_overlay_depth retain
    = Some (inl work) ->
  exists paths, NoDup paths /\ (forall path, path ∈ paths <-> leaf_path digest retain manifest All path) /\
    Forall2 (fun input path => recursive_input_path input = inl path /\
      leads manifest path input.(input_view)) inputs paths.
Proof.
  unfold validate_recursive_leaf_plan. case_match; [done|].
  intros (enumerated&Ee&[= E])%bind_Some. apply Py_bind_inl in E as ([expected validation]&->&E).
  apply enumerated_paths in Ee as (Hexact&_). py_inv. subst.
  match goal with E : negb (bool_decide (_ = _)) = false |- _ => apply negb_false_iff, bool_decide_eq_true in E; subst end.
  match goal with E : foldM _ _ _ = inl _ |- _ =>
    apply (Py_foldM_ind _ (matched_rows manifest expected)) in E as (paths&Hleft&Hnodup&Hall&Hrows) end.
  - exists paths. split; [done|]. split; [|done]. intros path. rewrite <- Hexact.
    rewrite Forall_forall in Hall. split; [apply Hall|]. intros Hin. apply dec_stable. intros Hnew.
    assert (path ∈ expected ∖ list_to_set paths) as Hp by (apply elem_of_difference; by rewrite elem_of_list_to_set).
    by rewrite <- Hleft in Hp.
  - exists []. split_and!; [|constructor|done|constructor]. by rewrite list_to_set_nil, difference_empty_L.
  - intros seen input left left'. apply member_path_matched.
    intros path Hp%Hexact. by eapply leaf_path_nonempty.
Qed.

Lemma leaf_plan_exact_witness :
  let _ := Heap.pair_python in
  let row view owner path := {| input_view := Heap.Ref view; input_owner := Heap.Ref owner;
    input_descriptor_sha256 := Heap.Ref "digest"; input_included_root_ids := None; input_excluded_root_ids := None;
    input_anonymous_scope_map := None; input_anonymous_scope_map_chain := Some []; input_path := Some (Heap.Ref path) |} in
  exists paths, (forall path, path ∈ paths <-> leaf_path (Heap.Ref "digest") false (Heap.Ref "manifest") All path) /\
    Forall2 (fun input path => recursive_input_path input = inl path /\ leads (Heap.Ref "manifest") path input.(input_view))
      [row "right" "two" "second path"; row "left" "one" "first path"] paths.
Proof.
  intros P row.
  assert (E : validate_recursive_leaf_plan (H := P) 10 (Heap.Ref "manifest") (Heap.Ref "pair") (Heap.Ref "digest")
    [row "right" "two" "second path"; row "left" "one" "first path"] 1000 1 false = Some (inl 538)) by (vm_compute; reflexivity).
  destruct (leaf_plan_exact _ _ _ _ _ _ _ _ _ E) as (paths&_&Hexact&Hrows).
  exists paths. split; [exact Hexact|exact Hrows].
Defined.

(** ** ROOT plans *)

Section pairs.
Context `{Python}.

(** The content of an exact [bytes] token. *)
Definition token_content (segment : object) : option bytes :=
  value ← getattr segment "member_token"; exact_bytes value.

(** The same path from two views: each reference of one has the role, the owner
    and the token of the reference of the other. *)
Inductive same_route : object -> object -> list usize -> object -> object -> Prop :=
  | route_here closure root index : same_route closure root [index] closure root
  | route_through closure root closure_segments root_segments index closure_segment root_segment
      role owner closure_source root_source path closure_target root_target :
      recursive_segments closure = inl closure_segments -> get closure_segments index = Some closure_segment ->
      recursive_segments root = inl root_segments -> get root_segments index = Some root_segment ->
      recursive_segment_role closure_segment = inl role -> recursive_segment_role root_segment = inl role ->
      getattr closure_segment "owner" = Some owner -> getattr root_segment "owner" = Some owner ->
      (role = COMPOSITE_MEMBER_SEGMENT -> exists token,
        token_content closure_segment = Some token /\ token_content root_segment = Some token) ->
      getattr closure_segment "source" = Some closure_source -> getattr root_segment "source" = Some root_source ->
      same_route closure_source root_source path closure_target root_target ->
      same_route closure root (index :: path) closure_target root_target.

Lemma reference_owner_attribute view segment role rows reference :
  validate_recursive_reference view segment role rows = inl reference ->
  getattr segment "owner" = Some reference.(reference_owner).
Proof using Type.
  unfold validate_recursive_reference. intros E.
  do 3 apply Py_bind_inl in E as (?&_&E). apply Py_bind_inl in E as (owner&Eo&E).
  apply or_else_inl in Eo. rewrite Eo. clear Eo. py_inv. by subst.
Qed.

Lemma pair_reference_ok walk closure_segment root_segment role walk' :
  pair_reference walk closure_segment root_segment role = inl walk' ->
  exists owner, getattr closure_segment "owner" = Some owner /\ getattr root_segment "owner" = Some owner /\
    (role = COMPOSITE_MEMBER_SEGMENT -> exists token,
      token_content closure_segment = Some token /\ token_content root_segment = Some token) /\
    getattr closure_segment "source" = Some walk'.(closure_view) /\
    getattr root_segment "source" = Some walk'.(root_view).
Proof using Type.
  unfold pair_reference. intros E. apply Py_bind_inl in E as (?&_&E).
  apply Py_bind_inl in E as (closure_reference&Ec&E). apply Py_bind_inl in E as (root_reference&Er&E).
  apply Py_bind_inl in E as (?&Eo&E). apply reject_inl, same_true in Eo.
  apply Py_bind_inl in E as (?&Et&E). py_inv. subst. cbn.
  exists (reference_owner closure_reference).
  split; [exact (reference_owner_attribute _ _ _ _ _ Ec)|].
  split; [rewrite Eo; exact (reference_owner_attribute _ _ _ _ _ Er)|].
  split; [|split; [exact (reference_source_attribute _ _ _ _ _ Ec)|exact (reference_source_attribute _ _ _ _ _ Er)]].
  clear Ec Er Eo.
  intros ->. rewrite N.eqb_refl in Et. unfold token_content, required_attribute in *. py_inv.
  match goal with E : negb (bool_decide _) = false |- _ => apply negb_false_iff, bool_decide_eq_true in E; subst end.
  repeat match goal with E : getattr _ "member_token" = Some _ |- _ => rewrite E; clear E end. cbn. eauto.
Qed.

Lemma walk_pair_route root_input path walk walk' :
  walk_pair root_input path walk = inl walk' -> path <> [] ->
  same_route walk.(closure_view) walk.(root_view) path walk'.(closure_view) walk'.(root_view).
Proof using Type.
  revert walk. induction path as [|index path IH]; intros walk E Hne; [done|].
  cbn [walk_pair] in E. apply Py_bind_inl in E as (closure_segments&Ec&E).
  apply Py_bind_inl in E as (closure_segment&Eg&E). apply or_else_inl in Eg.
  apply Py_bind_inl in E as (role&Erole&E). apply Py_bind_inl in E as (root_segments&Er&E).
  destruct (get root_segments index) as [root_segment|] eqn:Egr.
  - apply Py_bind_inl in E as (role'&Erole'&E). apply Py_bind_inl in E as (?&Eq&E).
    apply reject_inl, negb_eqb_false in Eq as <-.
    destruct path as [|next path]; cbn [is_empty] in E; [injection E as <-; constructor|].
    apply Py_bind_inl in E as (middle&Ep&E). apply IH in E; [|done].
    apply pair_reference_ok in Ep as (owner&?&?&?&?&?). by eapply route_through.
  - destruct path as [|next path]; cbn [is_empty] in E; [|done].
    apply Py_bind_inl in E as (?&_&E). injection E as <-. constructor.
Qed.

Abbreviation rows := (DynamicCompositeMemberInput * DynamicCompositeMemberInput)%type.

(** A row of the CLOSURE and its row of the ROOT at a path. *)
Definition paired_at (closure root : object) (pair : rows) (path : list usize) : Prop :=
  recursive_input_path pair.1 = inl path /\ recursive_input_path pair.2 = inl path /\
  pair.1.(input_owner) = pair.2.(input_owner) /\
  same_route closure root path pair.1.(input_view) pair.2.(input_view).

Lemma forM_inl {A} (f : A -> Py unit) l u : forM l f = inl u -> Forall (fun x => exists v, f x = inl v) l.
Proof using Type.
  induction l as [|x l IH]; intros E; [constructor|]. cbn in E.
  apply Py_bind_inl in E as (v&Ev&E). constructor; [by exists v|by apply IH].
Qed.

Lemma input_path_nonempty input path : recursive_input_path input = inl path -> path <> [].
Proof using Type.
  unfold recursive_input_path. intros E. py_inv.
  match goal with E : foldM _ [] ?l = inl _, Hne : is_empty ?l = false |- _ =>
    rename E into Efold, Hne into Hcoordinates; rename l into coordinates end.
  assert (Hl : length path = length coordinates).
  { refine (Py_foldM_ind _ (fun seen result => length result = length seen) _ _ _ Efold eq_refl _).
    intros seen item result result' Hs Ex. py_inv. subst. by rewrite !length_app, Hs. }
  intros ->. by destruct coordinates.
Qed.

Lemma validate_pair_ok closure closure_owner root root_owner pair path u :
  validate_pair closure closure_owner root root_owner pair = inl u -> recursive_input_path pair.1 = inl path ->
  paired_at closure root pair path.
Proof using Type.
  destruct pair as [closure_input root_input]. unfold validate_pair. cbn [fst snd]. intros E Hp.
  rewrite Hp in E. cbn [mbind Py_bind] in E. apply Py_bind_inl in E as (root_path&Er&E).
  apply Py_bind_inl in E as (?&Eq&E). apply reject_inl, orb_false_iff in Eq as [Eq Eo].
  apply negb_false_iff, bool_decide_eq_true in Eq as <-. apply same_true in Eo.
  apply Py_bind_inl in E as (walk&Ew&E). apply reject_inl in E.
  repeat match goal with E : _ || _ = false |- _ => apply orb_false_iff in E as [? ?] end.
  apply walk_pair_route in Ew; [|by eapply input_path_nonempty]. cbn in Ew.
  repeat match goal with E : negb (same _ _) = false |- _ => apply same_true in E end.
  unfold paired_at. cbn. split_and!; try assumption. congruence.
Qed.

(** The paths of the rows seen so far. *)
Definition paired_paths (pairs : list rows) (paired : gset (list usize)) : Prop :=
  exists paths, paired = list_to_set paths /\ NoDup paths /\
    Forall2 (fun pair path => recursive_input_path pair.1 = inl path) pairs paths.

Lemma pair_path_step pairs paired pair paired' :
  paired_paths pairs paired -> pair_path paired pair = inl paired' -> paired_paths (pairs ++ [pair]) paired'.
Proof using Type.
  intros (paths&->&Hd&Hp) E. unfold pair_path in E. py_inv. subst.
  match goal with E : _ || _ = false |- _ => apply orb_false_iff in E as [_ Hnew] end.
  apply bool_decide_eq_false in Hnew. rewrite elem_of_list_to_set in Hnew.
  eexists (paths ++ [_]). split_and!; [by rewrite list_to_set_app_L; rewrite list_to_set_cons, list_to_set_nil, union_empty_r_L| |by apply Forall2_app, Forall2_cons].
  apply NoDup_app. split; [done|]. split; [|apply NoDup_singleton]. intros p Hin ->%list_elem_of_singleton. done.
Qed.
End pairs.

(** C16: A ROOT plan that is accepted is the shadow of its CLOSURE: row by row the
    two name the same path, the paths are distinct, each reference on a path has
    the same role, owner and token in both manifests, both rows name the view
    that the path leads to in their manifest, and every leaf of the ROOT manifest
    is the path of a row. *)
Theorem root_plan_exact `{Python} fuel closure closure_owner closure_inputs root root_owner digest root_inputs
    max_work max_overlay_depth retain u :
  validate_recursive_root_plan fuel closure closure_owner closure_inputs root root_owner digest root_inputs
    max_work max_overlay_depth retain = Some (inl u) ->
  len closure_inputs = len root_inputs /\
  exists paths, NoDup paths /\ Forall2 (paired_at closure root) (zip closure_inputs root_inputs) paths /\
    forall path, leaf_path digest retain root All path -> path ∈ paths.
Proof.
  unfold validate_recursive_root_plan. cbv zeta.
  match goal with |- match ?m with _ => _ end = _ -> _ => destruct m as [paired|error] eqn:Es end; [|done].
  apply Py_bind_inl in Es as (?&El&Es). apply reject_inl, negb_eqb_false in El.
  intros (enumerated&Ee&[= E])%bind_Some. apply Py_bind_inl in E as ([actual validation]&->&E).
  apply enumerated_paths in Ee as (Hexact&_).
  apply Py_bind_inl in E as (?&Esub&E). apply reject_inl, negb_false_iff, bool_decide_eq_true in Esub.
  apply Py_bind_inl in E as (?&_&E). apply Py_bind_inl in E as (?&_&E).
  unfold validate_recursive_manifest_pair in E. apply Py_bind_inl in E as (?&_&E). apply forM_inl in E.
  split; [exact El|].
  apply (Py_foldM_ind _ paired_paths) in Es as (paths&->&Hd&Hp); [|exists []; split; [done|split; [apply NoDup_nil_2|apply Forall2_nil_2]]|intros; by eapply pair_path_step].
  exists paths. split; [exact Hd|]. split.
  - rewrite Forall_forall in E. apply Forall2_same_length_lookup_2; [exact (Forall2_length _ _ _ Hp)|].
    intros k pair path Hpair Hpath. destruct (E pair) as [v Ev]; [by eapply list_elem_of_lookup_2|].
    eapply validate_pair_ok; [exact Ev|]. exact (Forall2_lookup_lr _ _ _ _ _ _ Hp Hpair Hpath).
  - intros path Hleaf%Hexact. apply Esub in Hleaf. by rewrite elem_of_list_to_set in Hleaf.
Qed.

Lemma root_plan_exact_witness :
  let _ := Heap.pair_python in
  let row view owner path := {| input_view := Heap.Ref view; input_owner := Heap.Ref owner;
    input_descriptor_sha256 := Heap.Ref "digest"; input_included_root_ids := None; input_excluded_root_ids := None;
    input_anonymous_scope_map := None; input_anonymous_scope_map_chain := Some []; input_path := Some (Heap.Ref path) |} in
  let closure_rows := [row "left" "one" "first path"; row "right" "two" "second path"] in
  let root_rows := [row "left" "one" "first path"; row "right roots" "two" "second path"] in
  exists paths, Forall2 (paired_at (Heap.Ref "manifest") (Heap.Ref "roots")) (zip closure_rows root_rows) paths.
Proof.
  intros P row closure_rows root_rows.
  assert (E : validate_recursive_root_plan (H := P) 10 (Heap.Ref "manifest") (Heap.Ref "pair") closure_rows
    (Heap.Ref "roots") (Heap.Ref "pair") (Heap.Ref "digest") root_rows 1000 1 false = Some (inl tt))
    by (vm_compute; reflexivity).
  destruct (root_plan_exact _ _ _ _ _ _ _ _ _ _ _ _ E) as (_&paths&_&Hp&_).
  exists paths. exact Hp.
Defined.
