(* ===== verification/Session.v ===== *)
(** * Compiler sessions

    [EncodedDirectCompiler], [DirectBatchOutput] and [RetainedRoleState] of
    native/src/lib.rs: a one-shot compiler whose calls run on any number of
    Python threads.  The shared memory is an atomic state, an output behind a
    mutex, and a role state behind a mutex with an atomic claim.  A call is a
    sequence of atomic sections ([advance]); a section either is one atomic
    operation or runs under a lock that every access to the data it touches
    takes.  What the environment chooses for a section is [Env]: the values the
    kernel's loads of the state return, and the exception Python code raises.

    What the compiler reads and which function of the kernel it runs is of
    [Retained]: one table with an optional root document, a local overlay, a
    merge manifest or a composite.  The Python objects built from a result are
    the result itself. *)

From S2P Require Import Prelude Errors Text Columns Stats Workspace Roles Emission Preparation Preflight Cursor Retained.
Local Open Scope string_scope.
Local Open Scope list_scope.
Local Open Scope N_scope.

(** [AtomicU8::compare_exchange]: [inl] is success; [inr] the value found. *)
Definition compare_exchange (cell expected value : u8) : (unit + u8) * u8 :=
  if cell =? expected then (inl tt, value) else (inr cell, cell).

(** ** The stream of batches *)

Record PreparedDirectBatches := {
  preparation : DirectPreparation;
  cursor : DirectEmissionCursor;
}.

Definition stream_statistics (self : PreparedDirectBatches) : Stats.DirectCompileStats :=
  self.(preparation).(statistics).

Definition stream_remaining_edges (self : PreparedDirectBatches) : usize :=
  Cursor.remaining_edges self.(preparation) self.(cursor).

Definition try_clone_role_state (self : PreparedDirectBatches) : outcome RoleState :=
  try_clone self.(preparation).(preparation_roles).

Definition commit_cursor (self : PreparedDirectBatches) (next : DirectEmissionCursor)
    : PreparedDirectBatches :=
  {| preparation := self.(preparation); cursor := next |}.

(** ** The output *)

Record DirectBatchOutput := {
  stream : option PreparedDirectBatches;
  output_remaining : usize;
  batch_edges : usize;
  boundary_calls : usize;
  edge_batches : usize;
  peak_buffered_edges : usize;
  prepared : bool;
  draining : bool;
  exhausted : bool;
  cancelled : bool;
}.

#[export] Instance DirectBatchOutput_eta : Eta DirectBatchOutput := fun o =>
  {| stream := o.(stream); output_remaining := o.(output_remaining);
     batch_edges := o.(batch_edges); boundary_calls := o.(boundary_calls);
     edge_batches := o.(edge_batches); peak_buffered_edges := o.(peak_buffered_edges);
     prepared := o.(prepared); draining := o.(draining); exhausted := o.(exhausted);
     cancelled := o.(cancelled) |}.

Definition DirectBatchOutput_default : DirectBatchOutput :=
  {| stream := None; output_remaining := 0; batch_edges := 0; boundary_calls := 0;
     edge_batches := 0; peak_buffered_edges := 0; prepared := false; draining := false;
     exhausted := false; cancelled := false |}.

(** [*self = Self { .. }]. *)
Definition install (new_stream : PreparedDirectBatches) (size : usize) : DirectBatchOutput :=
  let remaining := stream_remaining_edges new_stream in
  let done := remaining =? 0 in
  {| stream := if done then None else Some new_stream; output_remaining := remaining;
     batch_edges := size; boundary_calls := 1; edge_batches := 0; peak_buffered_edges := 0;
     prepared := true; draining := false; exhausted := done; cancelled := false |}.

Definition remaining_batch_edges (self : DirectBatchOutput) : usize :=
  if self.(prepared) && negb self.(cancelled) && negb self.(exhausted)
  then self.(output_remaining) else 0.

Definition batch_state (self : DirectBatchOutput) : string :=
  if negb self.(prepared) then "absent"
  else if self.(cancelled) then "cancelled"
  else if self.(exhausted) then "exhausted"
  else "active".

Definition cancel_output (self : DirectBatchOutput) : bool * DirectBatchOutput :=
  if negb self.(prepared) || self.(cancelled) || self.(exhausted) then (false, self)
  else (true, self <| stream := None |> <| output_remaining := 0 |> <| cancelled := true |>).

(** ** The state of the compiler *)

Definition begin (state : u8) : PyResult unit * u8 :=
  match compare_exchange state STATE_IDLE STATE_RUNNING with
  | (inl _, state) => (inl tt, state)
  | (inr found, state) =>
      (inr (if found =? STATE_CANCELLED then
              EncodedDirectCancelledError "encoded direct compiler was cancelled"
            else if found =? STATE_RUNNING then
              PyValueError "encoded direct compiler is already running"
            else if found =? STATE_FINISHED then
              PyValueError "encoded direct compiler is already finished"
            else if found =? STATE_FAILED then
              PyValueError "encoded direct compiler is permanently failed"
            else PyRuntimeError "encoded direct compiler entered an invalid state"), state)
  end.

Definition finish_result {T} (result : PyResult T) (state : u8) : PyResult T * u8 :=
  let was_cancelled := EncodedDirectCancelledError "encoded direct compiler was cancelled" in
  match result with
  | inl value =>
      match compare_exchange state STATE_RUNNING STATE_FINISHED with
      | (inl _, state) => (inl value, state)
      | (inr found, state) =>
          (inr (if found =? STATE_CANCELLED then was_cancelled
                else PyRuntimeError "encoded direct compiler changed state during compilation"), state)
      end
  | inr error =>
      match compare_exchange state STATE_RUNNING STATE_FAILED with
      | (inl _, state) => (inr error, state)
      | (inr found, state) =>
          (inr (if found =? STATE_CANCELLED then was_cancelled else error), state)
      end
  end.

(** The decision of one round of [cancel] once it has loaded [observed]: the
    result, or another round. *)
Definition cancel_round (observed state : u8) : option bool * u8 :=
  if (observed =? STATE_IDLE) || (observed =? STATE_RUNNING) then
    match compare_exchange state observed STATE_CANCELLED with
    | (inl _, state) => (Some true, state)
    | (inr _, state) => (None, state)
    end
  else (Some false, state).

Definition state_name (state : u8) : string :=
  if state =? STATE_IDLE then "idle"
  else if state =? STATE_RUNNING then "running"
  else if state =? STATE_FINISHED then "finished"
  else if state =? STATE_CANCELLED then "cancelled"
  else if state =? STATE_FAILED then "failed"
  else "invalid".

(** [RetainedRoleState::claim]. *)
Definition claim (in_use : bool) : PyResult unit * bool :=
  if in_use then (inr (PyValueError "encoded direct role state is already in use"), true)
  else (inl tt, true).

(** ** Calls *)

Record Shared := {
  state : u8;
  batch_output : DirectBatchOutput;
  roles : RoleState;
  roles_poisoned : bool;
  in_use : bool;
  coarse_output_chunks : usize;
  coarse_peak_buffered_edges : usize;
}.

#[export] Instance Shared_eta : Eta Shared := fun s =>
  {| state := s.(state); batch_output := s.(batch_output); roles := s.(roles);
     roles_poisoned := s.(roles_poisoned); in_use := s.(in_use);
     coarse_output_chunks := s.(coarse_output_chunks);
     coarse_peak_buffered_edges := s.(coarse_peak_buffered_edges) |}.

(** A fresh compiler and the role state it may be called with. *)
Definition fresh (roles : RoleState) (in_use : bool) : Shared :=
  {| state := STATE_IDLE; batch_output := DirectBatchOutput_default; roles := roles;
     roles_poisoned := false; in_use := in_use; coarse_output_chunks := 0;
     coarse_peak_buffered_edges := 0 |}.

(** The arguments of [compile_batch] ([coarse]) and [compile_batches]; with
    [retained] the call is given the role state. *)
Record Request := {
  coarse : bool;
  request_options : DirectCompileOptions;
  request_batch_edges : usize;
  retained : bool;
}.

(** What a drain holds between its two sections. *)
Record Drain := {
  drain_stream : PreparedDirectBatches;
  drain_batch_edges : usize;
  next_boundary_calls : usize;
  next_edge_batches : usize;
}.

(** The chunks of a coarse call so far. *)
Record Chunks := {
  chunk_edges : list DirectEdge;
  output_chunks : usize;
  chunk_peak : usize;
}.

Inductive Value :=
  | Iterator
  | Edges (edges : list DirectEdge)
  | Batch (edges : list DirectEdge)
  | Flag (value : bool).

(** The section a call is about to enter. *)
Inductive Thread :=
  | CompileBegin (r : Request)
  | CompileClaim (r : Request) (sources : Sources)
  | CompilePrepare (r : Request) (sources : Sources)
  | CompileChunks (r : Request) (sources : Sources) (s : PreparedDirectBatches) (chunks : Chunks)
  | CompilePython (r : Request) (s : PreparedDirectBatches) (chunks : Chunks)
  | CompileCommit (r : Request) (s : PreparedDirectBatches) (chunks : Chunks)
      (next_roles : option RoleState)
  | CompileFail (claimed : bool) (error : PyErr)
  | CompileStoreChunks (r : Request) (chunks : Chunks)
  | CompileStorePeak (r : Request) (chunks : Chunks)
  | CompileRelease (claimed : bool) (result : PyResult Value)
  | DrainTake
  | DrainPrepare (d : Drain)
  | DrainPython (d : Drain) (edges : list DirectEdge) (next : DirectEmissionCursor)
  | DrainAbort (d : Drain) (error : PyErr)
  | DrainCommit (d : Drain) (edges : list DirectEdge) (next : DirectEmissionCursor)
      (error : option PyErr)
  | Close
  | CancelLoad
  | CancelSwap (observed : u8).

Inductive Next :=
  | Goto (t : Thread)
  | Returned (result : PyResult Value).

Record Env := {
  loads : nat -> u8;
  loaded : nat;
  fuel : nat;
  raises : option PyErr;
}.

Definition role_state_failed : PyErr :=
  PyRuntimeError "encoded direct role state is permanently failed".

Definition lost_owner (r : Request) : PyErr :=
  PyRuntimeError (if r.(coarse) then "encoded coarse role-state transaction lost its owner"
                  else "encoded batch role-state transaction lost its owner").

(** ** Draining *)

(** The first section of [next_batch]: [inl (inl batch)] is returned at once. *)
Definition drain_take (output : DirectBatchOutput)
    : PyResult (list DirectEdge + Drain) * DirectBatchOutput :=
  if negb output.(prepared) then
    (inr (PyValueError "encoded direct batch output has not been prepared"), output)
  else if output.(cancelled) then
    (inr (EncodedDirectCancelledError "encoded direct batch output was cancelled"), output)
  else if output.(exhausted) then (inl (inl []), output)
  else if output.(draining) then
    (inr (PyValueError "encoded direct batch output is already draining"), output)
  else
    match checked_add output.(boundary_calls) 1, checked_add output.(edge_batches) 1 with
    | None, _ => (inr (PyMemoryError "encoded direct boundary-call counter overflow"), output)
    | _, None => (inr (PyMemoryError "encoded direct edge-batch counter overflow"), output)
    | Some next_boundary_calls, Some next_edge_batches =>
        match output.(stream) with
        | None => (inr (PyRuntimeError "encoded direct batch cursor is unavailable"), output)
        | Some s =>
            (inl (inr {| drain_stream := s; drain_batch_edges := output.(batch_edges);
                         next_boundary_calls := next_boundary_calls;
                         next_edge_batches := next_edge_batches |}),
             output <| stream := None |> <| draining := true |>)
        end
    end.

(** The section after a failed preparation. *)
Definition drain_abort (d : Drain) (error : PyErr) (output : DirectBatchOutput)
    : PyErr * DirectBatchOutput :=
  let output := output <| draining := false |> in
  if output.(cancelled) then
    (EncodedDirectCancelledError "encoded direct batch output was cancelled", output)
  else (error, output <| stream := Some d.(drain_stream) |>).

(** The last section: the cursor moves only when the Python batch exists. *)
Definition drain_commit (d : Drain) (edges : list DirectEdge) (next : DirectEmissionCursor)
    (error : option PyErr) (output : DirectBatchOutput)
    : PyResult (list DirectEdge) * DirectBatchOutput :=
  let output := output <| draining := false |> in
  if output.(cancelled) then
    (inr (EncodedDirectCancelledError "encoded direct batch output was cancelled"), output)
  else
    match error with
    | Some error => (inr error, output <| stream := Some d.(drain_stream) |>)
    | None =>
        let s := commit_cursor d.(drain_stream) next in
        let remaining := stream_remaining_edges s in
        let output :=
          output <| boundary_calls := d.(next_boundary_calls) |>
                 <| edge_batches := d.(next_edge_batches) |>
                 <| peak_buffered_edges := N.max output.(peak_buffered_edges) (len edges) |>
                 <| output_remaining := remaining |> in
        (inl edges, if remaining =? 0 then output <| exhausted := true |>
                    else output <| stream := Some s |>)
    end.

(** [cancel_batch_output]. *)
Definition cancel_batch_output (sh : Shared) : bool * Shared :=
  let '(done, output) := cancel_output sh.(batch_output) in
  let sh := sh <| batch_output := output |> in
  (done, if done then sh <| state := STATE_CANCELLED |> else sh).

(** ** The sections *)

Definition COARSE_OUTPUT_CHUNK_EDGES : usize := 256.

(** The checks of the arguments. *)
Definition check_request (r : Request) : PyResult unit :=
  if r.(request_options).(max_edges) =? 0 then inr (PyValueError "max_edges must be positive")
  else if r.(request_options).(max_iri_bytes) =? 0 then
    inr (PyValueError "max_iri_bytes must be positive")
  else if negb r.(coarse) && (r.(request_batch_edges) =? 0) then
    inr (PyValueError "batch_edges must be positive")
  else inl tt.

Section compiler.
Context `{LowercaseTable} `{Layout} (compiler : EncodedDirectCompiler).

(** The section that publishes a compilation: the state, the output and the
    role state change together or not at all. *)
Definition compile_commit (sh : Shared) (r : Request) (s : PreparedDirectBatches)
    (chunks : Chunks) (next_roles : option RoleState) : Shared * Next :=
  if bool_decide (is_Some next_roles) && negb r.(retained) then
    (sh, Goto (CompileFail r.(retained) (lost_owner r)))
  else if bool_decide (is_Some next_roles) && sh.(roles_poisoned) then
    (sh, Goto (CompileFail r.(retained) role_state_failed))
  else
    let '(result, found) := finish_result (inl tt) sh.(state) in
    let sh := sh <| state := found |> in
    match result with
    | inr error => (sh, Goto (CompileRelease r.(retained) (inr error)))
    | inl _ =>
        let sh := sh <| roles := default sh.(roles) next_roles |> in
        if r.(coarse) then (sh, Goto (CompileStoreChunks r chunks))
        else (sh <| batch_output := install s r.(request_batch_edges) |>,
              Goto (CompileRelease r.(retained) (inl Iterator)))
    end.

(** The checks, [self.begin()?] and the columns, whose [?] leaves the compiler
    running. *)
Definition begin_section (sh : Shared) (r : Request) : option (Shared * Next) :=
  match check_request r with
  | inr error => Some (sh, Returned (inr error))
  | inl _ =>
      let '(result, found) := begin sh.(state) in
      Some (sh <| state := found |>,
            match result with
            | inr error => Returned (inr error)
            | inl _ =>
                match compile_sources compiler with
                | inr error => Returned (inr error)
                | inl sources => Goto (CompileClaim r sources)
                end
            end)
  end.

(** [retained.claim()]. *)
Definition claim_section (sh : Shared) (r : Request) (sources : Sources) : option (Shared * Next) :=
  if r.(retained) then
    let '(result, claimed) := claim sh.(in_use) in
    Some (sh <| in_use := claimed |>,
          Goto (match result with
                | inl _ => CompilePrepare r sources
                | inr error => CompileFail false error
                end))
  else Some (sh, Goto (CompilePrepare r sources)).

(** The preparation, with the role state locked; a coarse call has called Python
    before it, and the canonical limits are looked up before the lock. *)
Definition prepare_section (env : Env) (sh : Shared) (r : Request) (sources : Sources)
    : option (Shared * Next) :=
  let roles := if r.(retained) then Some sh.(roles) else None in
  match (if r.(coarse) then env.(raises) else None) with
  | Some error => Some (sh, Goto (CompileFail r.(retained) error))
  | None =>
      match prepare_sources compiler env.(fuel) env.(fuel) sources r.(request_options) roles with
      | inr error => Some (sh, Goto (CompileFail r.(retained) error))
      | inl kernel =>
      if r.(retained) && sh.(roles_poisoned) then
        Some (sh, Goto (CompileFail r.(retained) role_state_failed))
      else
        let result := fst (kernel env.(loads) env.(loaded)) in
        let sh := match result with
                  | Panic => if r.(retained) then sh <| roles_poisoned := true |> else sh
                  | _ => sh
                  end in
        guarded_result ← guarded result;
        Some (sh, Goto (match guarded_result with
          | inr error => CompileFail r.(retained) error
          | inl prepared =>
              let s := {| preparation := prepared; cursor := DirectEmissionCursor_default |} in
              let chunks := {| chunk_edges := []; output_chunks := 0; chunk_peak := 0 |} in
              if r.(coarse) then CompileChunks r sources s chunks else CompilePython r s chunks
          end))
      end
  end.

(** A round of the loop of [compile_batch]. *)
Definition chunk_section (env : Env) (sh : Shared) (r : Request) (sources : Sources)
    (s : PreparedDirectBatches) (chunks : Chunks) : option (Shared * Next) :=
  if stream_remaining_edges s =? 0 then Some (sh, Goto (CompilePython r s chunks)) else
  guarded_result ← guarded (fst (next_source_batch sources s.(preparation) env.(fuel)
    s.(cursor) COARSE_OUTPUT_CHUNK_EDGES env.(loads) env.(loaded)));
  Some (sh, Goto (match guarded_result, env.(raises) with
    | inr error, _ | inl _, Some error => CompileFail r.(retained) error
    | inl (edges, next), None =>
        match checked_add chunks.(output_chunks) 1 with
        | None => CompileFail r.(retained) (PyMemoryError "encoded coarse chunk counter overflow")
        | Some count =>
            CompileChunks r sources (commit_cursor s next)
              {| chunk_edges := chunks.(chunk_edges) ++ edges; output_chunks := count;
                 chunk_peak := N.max chunks.(chunk_peak) (len edges) |}
        end
    end)).

(** The Python objects of the result, and the clone of the role state. *)
Definition python_section (env : Env) (sh : Shared) (r : Request)
    (s : PreparedDirectBatches) (chunks : Chunks) : option (Shared * Next) :=
  match env.(raises) with
  | Some error => Some (sh, Goto (CompileFail r.(retained) error))
  | None =>
      if r.(retained) && negb r.(request_options).(asserted_taxonomy_only) then
        guarded_result ← guarded (try_clone_role_state s);
        Some (sh, Goto (match guarded_result with
          | inr error => CompileFail r.(retained) error
          | inl next_roles => CompileCommit r s chunks (Some next_roles)
          end))
      else Some (sh, Goto (CompileCommit r s chunks None))
  end.

(** The preparation of a batch, with no lock held. *)
Definition drain_section (env : Env) (sh : Shared) (d : Drain) : option (Shared * Next) :=
  match drain_sources compiler with
  | inr error => Some (sh, Returned (inr error))
  | inl sources =>
      let prepared := fst (next_source_batch sources d.(drain_stream).(preparation) env.(fuel)
        d.(drain_stream).(cursor) d.(drain_batch_edges) env.(loads) env.(loaded)) in
      guarded_result ← guarded prepared;
      Some (sh, match prepared, guarded_result with
        | Panic, inr error => Returned (inr error)
        | _, inr error => Goto (DrainAbort d error)
        | _, inl (edges, next) => Goto (DrainPython d edges next)
        end)
  end.

(** One section of a call; [None] when the kernel needs more fuel. *)
Definition advance (env : Env) (sh : Shared) (t : Thread) : option (Shared * Next) :=
  match t with
  | CompileBegin r => begin_section sh r
  | CompileClaim r sources => claim_section sh r sources
  | CompilePrepare r sources => prepare_section env sh r sources
  | CompileChunks r sources s chunks => chunk_section env sh r sources s chunks
  | CompilePython r s chunks => python_section env sh r s chunks
  | CompileCommit r s chunks next_roles => Some (compile_commit sh r s chunks next_roles)
  | CompileFail claimed error =>
      let '(result, found) := finish_result (inr error) sh.(state) in
      Some (sh <| state := found |>, Goto (CompileRelease claimed result))
  | CompileStoreChunks r chunks =>
      Some (sh <| coarse_output_chunks := chunks.(output_chunks) |>, Goto (CompileStorePeak r chunks))
  | CompileStorePeak r chunks =>
      Some (sh <| coarse_peak_buffered_edges := chunks.(chunk_peak) |>,
            Goto (CompileRelease r.(retained) (inl (Edges chunks.(chunk_edges)))))
  | CompileRelease claimed result =>
      Some (if claimed then sh <| in_use := false |> else sh, Returned result)
  | DrainTake =>
      match env.(raises) with
      | Some error => Some (sh, Returned (inr error))
      | None =>
          let '(result, output) := drain_take sh.(batch_output) in
          Some (sh <| batch_output := output |>,
                match result with
                | inl (inl edges) => Returned (inl (Batch edges))
                | inl (inr d) => Goto (DrainPrepare d)
                | inr error => Returned (inr error)
                end)
      end
  | DrainPrepare d => drain_section env sh d
  | DrainPython d edges next => Some (sh, Goto (DrainCommit d edges next env.(raises)))
  | DrainAbort d error =>
      let '(error, output) := drain_abort d error sh.(batch_output) in
      Some (sh <| batch_output := output |>, Returned (inr error))
  | DrainCommit d edges next error =>
      let '(result, output) := drain_commit d edges next error sh.(batch_output) in
      Some (sh <| batch_output := output |>,
            Returned (match result with inl edges => inl (Batch edges) | inr error => inr error end))
  | Close =>
      let '(done, sh) := cancel_batch_output sh in Some (sh, Returned (inl (Flag done)))
  | CancelLoad => Some (sh, Goto (CancelSwap sh.(state)))
  | CancelSwap observed =>
      let '(result, found) := cancel_round observed sh.(state) in
      Some (sh <| state := found |>,
            match result with
            | Some done => Returned (inl (Flag done))
            | None => Goto CancelLoad
            end)
  end.

End compiler.

(** ** Interleavings *)

Record Config := {
  shared : Shared;
  threads : list Thread;
  returned : list (PyResult Value);
}.

(** The calls between [begin] and the transition out of it. *)
Definition owner (t : Thread) : bool :=
  match t with
  | CompileClaim _ _ | CompilePrepare _ _ | CompileChunks _ _ _ _ | CompilePython _ _ _
  | CompileCommit _ _ _ _ | CompileFail _ _ => true
  | _ => false
  end.

(** The calls that hold the claim of the role state. *)
Definition holder (t : Thread) : bool :=
  match t with
  | CompilePrepare r _ | CompileChunks r _ _ _ | CompilePython r _ _ | CompileCommit r _ _ _
  | CompileStoreChunks r _ | CompileStorePeak r _ => r.(retained)
  | CompileFail claimed _ | CompileRelease claimed _ => claimed
  | _ => false
  end.

Section interleavings.
Context `{LowercaseTable} `{Layout} (compiler : EncodedDirectCompiler).
(** The compilations that clients may ask for. *)
Context (allowed : Request -> Prop).

Definition starts (t : Thread) : Prop :=
  match t with
  | CompileBegin r => allowed r
  | DrainTake | Close | CancelLoad => True
  | _ => False
  end.

(** What other compilers may do to the role state while no call of this one
    holds the claim. *)
Inductive others : Shared -> Shared -> Prop :=
  | others_claim sh : sh.(in_use) = false -> others sh (sh <| in_use := true |>)
  | others_commit sh next : sh.(in_use) = true -> others sh (sh <| roles := next |>)
  | others_poison sh : others sh (sh <| roles_poisoned := true |>)
  | others_release sh : sh.(in_use) = true -> others sh (sh <| in_use := false |>).

(** A running call takes a section. *)
Inductive section_step : Config -> Config -> Prop :=
  | section_goto env sh l t l' k sh' t' :
      advance compiler env sh t = Some (sh', Goto t') ->
      section_step (Build_Config sh (l ++ t :: l') k) (Build_Config sh' (l ++ t' :: l') k)
  | section_return env sh l t l' k sh' result :
      advance compiler env sh t = Some (sh', Returned result) ->
      section_step (Build_Config sh (l ++ t :: l') k) (Build_Config sh' (l ++ l') (k ++ [result])).

Inductive config_step : Config -> Config -> Prop :=
  | step_section c c' : section_step c c' -> config_step c c'
  | step_call sh l k t : starts t -> config_step (Build_Config sh l k) (Build_Config sh (t :: l) k)
  | step_others sh sh' l k :
      Forall (fun t => holder t = false) l -> others sh sh' ->
      config_step (Build_Config sh l k) (Build_Config sh' l k).

Inductive reachable : Config -> Prop :=
  | reachable_fresh initial claimed : reachable (Build_Config (fresh initial claimed) [] [])
  | reachable_step c c' : reachable c -> config_step c c' -> reachable c'.

(** ** Schedules *)

(** A schedule starts calls and runs a section of the call at a position. *)
Inductive Action :=
  | Call (t : Thread)
  | Run (env : Env) (position : nat).

Definition act (c : Config) (a : Action) : option Config :=
  match a with
  | Call t => Some {| shared := c.(shared); threads := t :: c.(threads); returned := c.(returned) |}
  | Run env position =>
      t ← c.(threads) !! position;
      '(sh, n) ← advance compiler env c.(shared) t;
      let l := take position c.(threads) in
      let l' := drop (S position) c.(threads) in
      Some match n with
           | Goto t => {| shared := sh; threads := l ++ t :: l'; returned := c.(returned) |}
           | Returned result =>
               {| shared := sh; threads := l ++ l'; returned := c.(returned) ++ [result] |}
           end
  end.

Fixpoint play (schedule : list Action) (c : Config) : option Config :=
  match schedule with
  | [] => Some c
  | a :: schedule => c ← act c a; play schedule c
  end.

Definition starts_allowed (a : Action) : Prop :=
  match a with Call t => starts t | Run _ _ => True end.

Lemma act_section c env position c' : act c (Run env position) = Some c' -> section_step c c'.
Proof using Type.
  destruct c as [sh l k]; cbn.
  intros (t&Ht&((sh'&n)&E&[= <-])%bind_Some)%bind_Some. cbn in Ht, E.
  apply list_elem_of_split_length in Ht as (l1&l2&->&->). cbn.
  rewrite take_app_length, drop_app_ge by lia.
  replace (S (length l1) - length l1)%nat with 1%nat by lia. cbn. rewrite drop_0.
  destruct n; by econstructor.
Qed.

Lemma act_step c a c' : starts_allowed a -> act c a = Some c' -> config_step c c'.
Proof using Type.
  destruct a as [t|env position].
  - destruct c as [sh l k]. intros Ht [= <-]. by constructor.
  - intros _ E%act_section. by constructor.
Qed.

Lemma play_reachable schedule c c' :
  reachable c -> Forall starts_allowed schedule -> play schedule c = Some c' -> reachable c'.
Proof using Type.
  intros Hc Hs. revert c Hc. induction Hs as [|a schedule Ha Hs IH]; cbn; intros c Hc.
  - by intros [= <-].
  - intros (c1&E&Hp)%bind_Some. eapply IH, Hp. eapply reachable_step; [done|by eapply act_step].
Qed.
End interleavings.
