(* ===== verification/Protocol.v ===== *)
(** * The protocol of a compiler

    The invariant of the atomic state, the claim and the output over every
    interleaving of calls, and what a section may do to the memory it shares
    with other calls and other compilers. *)

From S2P Require Import Prelude Errors Text Columns Roles Workspace Preparation Preflight Cursor Retained Session.
Local Open Scope string_scope.
Local Open Scope list_scope.
Local Open Scope N_scope.

(** ** Counting calls *)

Definition number (f : Thread -> bool) (l : list Thread) : nat :=
  length (filter (fun t => f t = true) l).

Lemma number_nil f : number f [] = 0%nat.
Proof. done. Qed.
Lemma number_cons f t l : number f (t :: l) = ((if f t then 1 else 0) + number f l)%nat.
Proof. unfold number. rewrite filter_cons. by destruct (f t). Qed.

#[export] Instance number_proper f : Proper ((≡ₚ) ==> eq) (number f).
Proof. intros l l' E. unfold number. apply Permutation_length. by rewrite E. Qed.

Lemma number_le f g l : (forall t, f t = true -> g t = true) -> (number f l <= number g l)%nat.
Proof.
  intros Hfg. induction l as [|t l IH]; [done|]. rewrite !number_cons.
  specialize (Hfg t). destruct (f t), (g t); lia.
Qed.

Lemma number_zero f l : number f l = 0%nat <-> Forall (fun t => f t = false) l.
Proof.
  induction l as [|t l IH]; [done|]. rewrite number_cons, Forall_cons, <- IH.
  destruct (f t); naive_solver lia.
Qed.

(** The calls past [begin]. *)
Definition past (t : Thread) : bool :=
  owner t ||
  match t with CompileStoreChunks _ _ | CompileStorePeak _ _ | CompileRelease _ _ => true | _ => false end.

Definition success (result : PyResult Value) : bool :=
  match result with inl Iterator | inl (Edges _) => true | _ => false end.

(** The compilations that have returned a result. *)
Definition successes (k : list (PyResult Value)) : nat :=
  length (filter (fun r => success r = true) k).

Lemma successes_nil : successes [] = 0%nat.
Proof. done. Qed.
Lemma successes_snoc k r : successes (k ++ [r]) = (successes k + if success r then 1 else 0)%nat.
Proof. unfold successes. rewrite filter_app, length_app. by destruct r as [[]|]. Qed.

Lemma owner_past t : owner t = true -> past t = true.
Proof. unfold past. by intros ->. Qed.
Lemma holder_past t : holder t = true -> past t = true.
Proof. by destruct t. Qed.

#[global] Arguments number : simpl never.
#[global] Arguments successes : simpl never.

(** ** Sections and the other calls *)

Definition resume (n : Next) (l : list Thread) (k : list (PyResult Value))
    : list Thread * list (PyResult Value) :=
  match n with Goto t => (t :: l, k) | Returned result => (l, k ++ [result]) end.

Section rule.
Context `{LowercaseTable} `{Layout} (compiler : EncodedDirectCompiler).
Context (I : Shared -> list Thread -> list (PyResult Value) -> Prop).
Context `{I_proper : forall sh, Proper ((≡ₚ) ==> eq ==> iff) (I sh)}.

Lemma section_rule c c' :
  (forall env sh t l k sh' n, I sh (t :: l) k ->
     advance compiler env sh t = Some (sh', n) ->
     I sh' (resume n l k).1 (resume n l k).2) ->
  I c.(shared) c.(threads) c.(returned) ->
  section_step compiler c c' -> I c'.(shared) c'.(threads) c'.(returned).
Proof using All.
  intros Hadvance HI Hstep. revert HI.
  destruct Hstep as [env sh l t l' k sh' t' E|env sh l t l' k sh' result E]; cbn; intros HI.
  all: rewrite <- Permutation_middle in HI; specialize (Hadvance _ _ _ _ _ _ _ HI E); cbn in Hadvance.
  - by rewrite <- Permutation_middle.
  - done.
Qed.
End rule.

(** ** The invariant *)

Record protocol (sh : Shared) (l : list Thread) (k : list (PyResult Value)) : Prop := {
  protocol_state : sh.(state) <= STATE_FAILED;
  protocol_once : (number past l + successes k <= 1)%nat;
  protocol_idle : sh.(state) = STATE_IDLE ->
    (number past l + successes k = 0)%nat /\ sh.(batch_output).(prepared) = false;
  protocol_owner : (0 < number owner l)%nat ->
    sh.(state) = STATE_RUNNING \/ sh.(state) = STATE_CANCELLED;
  protocol_output : sh.(batch_output).(prepared) = true ->
    number owner l = 0%nat /\
    sh.(state) = if sh.(batch_output).(cancelled) then STATE_CANCELLED else STATE_FINISHED;
  protocol_claim : (0 < number holder l)%nat -> sh.(in_use) = true;
}.

#[export] Instance protocol_proper sh : Proper ((≡ₚ) ==> eq ==> iff) (protocol sh).
Proof.
  intros l l' E k k' <-. split; intros [H1 H2 H3 H4 H5 H6]; split; try done;
    try rewrite E in *; try rewrite <- E in *; done.
Qed.

(** The sections that change neither the state nor the output nor the claim. *)
Lemma protocol_move sh t l k sh' n :
  protocol sh (t :: l) k ->
  sh'.(state) = sh.(state) -> sh'.(in_use) = sh.(in_use) ->
  sh'.(batch_output).(prepared) = sh.(batch_output).(prepared) ->
  sh'.(batch_output).(cancelled) = sh.(batch_output).(cancelled) ->
  match n with
  | Goto t' => past t' = past t /\ (owner t' = true -> owner t = true) /\ (holder t' = true -> holder t = true)
  | Returned result => success result = true -> past t = true
  end ->
  protocol sh' (resume n l k).1 (resume n l k).2.
Proof.
  intros [H1 H2 H3 H4 H5 H6] E1 E2 E3 E4 Hn. rewrite !number_cons in *.
  destruct n as [t'|result]; cbn.
  - destruct Hn as (Ep&Ho&Hh).
    split; rewrite ?number_cons, ?E1, ?E2, ?E3, ?E4, ?Ep; try done.
    + destruct (owner t'); [|intros; apply H4; lia]. rewrite Ho in H4 by done. done.
    + intros (?&?)%H5. destruct (owner t'), (owner t); naive_solver lia.
    + destruct (holder t'); [|intros; apply H6; lia]. rewrite Hh in H6 by done. done.
  - split; rewrite ?successes_snoc, ?E1, ?E2, ?E3, ?E4; try done.
    all: destruct (past t), (success result); naive_solver lia.
Qed.

(** ** The transitions of the state *)

Lemma begin_cases found result next :
  begin found = (result, next) ->
  (found = STATE_IDLE /\ next = STATE_RUNNING /\ result = inl tt) \/
  (next = found /\ exists error, result = inr error).
Proof.
  unfold begin, compare_exchange. destruct (N.eqb_spec found STATE_IDLE) as [->|].
  - intros [= <- <-]. by left.
  - intros [= <- <-]. right. by eauto.
Qed.

Lemma finish_result_cases {T} (result result' : PyResult T) found next :
  finish_result result found = (result', next) ->
  (found = STATE_RUNNING /\ result' = result /\
     next = match result with inl _ => STATE_FINISHED | inr _ => STATE_FAILED end) \/
  (found <> STATE_RUNNING /\ next = found /\ exists error, result' = inr error).
Proof.
  unfold finish_result, compare_exchange. destruct (N.eqb_spec found STATE_RUNNING) as [->|].
  - destruct result; intros [= <- <-]; by left.
  - destruct result; intros [= <- <-]; right; eauto.
Qed.

Lemma cancel_round_cases observed found result next :
  cancel_round observed found = (result, next) ->
  (next = STATE_CANCELLED /\ (found = STATE_IDLE \/ found = STATE_RUNNING) /\ result = Some true) \/
  (next = found /\ result <> Some true).
Proof.
  unfold cancel_round, compare_exchange.
  destruct (N.eqb_spec observed STATE_IDLE), (N.eqb_spec observed STATE_RUNNING),
    (N.eqb_spec found observed); intros [= <- <-]; subst; auto.
Qed.

(** What a section of a drain does to the flags of the output. *)
Lemma drain_take_flags output result next :
  drain_take output = (result, next) ->
  next.(prepared) = output.(prepared) /\ next.(cancelled) = output.(cancelled).
Proof. unfold drain_take. intros. repeat case_match; simplify_eq/=; auto. Qed.

Lemma drain_abort_flags d error output error' next :
  drain_abort d error output = (error', next) ->
  next.(prepared) = output.(prepared) /\ next.(cancelled) = output.(cancelled).
Proof. unfold drain_abort. intros. repeat case_match; simplify_eq/=; auto. Qed.

Lemma drain_commit_flags d edges next_cursor error output result next :
  drain_commit d edges next_cursor error output = (result, next) ->
  next.(prepared) = output.(prepared) /\ next.(cancelled) = output.(cancelled).
Proof. unfold drain_commit. intros. repeat case_match; simplify_eq/=; auto. Qed.

(** The section in a hypothesis. *)
Ltac advance_in E :=
  cbn [advance] in E;
  unfold begin_section, claim_section, prepare_section, chunk_section, python_section, drain_section in E.

(** The arithmetic of the counters and the states. *)
Ltac protocol_solve :=
  match goal with
  | H : protocol _ (_ :: ?l) _ |- _ =>
      pose proof (number_le owner past l owner_past); pose proof (number_le holder past l holder_past);
      destruct H
  end;
  split; cbn [resume fst snd] in *; rewrite ?number_cons, ?successes_snoc in *; cbn in *;
  unfold STATE_IDLE, STATE_RUNNING, STATE_FINISHED, STATE_CANCELLED, STATE_FAILED in *;
  try match goal with E : ?x = 0, H : ?x = 0 -> _ |- _ => destruct (H E) end;
  try (intros; lia); try done;
  try (let Hp := fresh in intros Hp;
       repeat match goal with H : _ -> _ |- _ => specialize (H Hp) end; destruct_and?; first [congruence|lia|split; [lia|done]|done|case_match; lia]).

Section preserved.
Context `{LowercaseTable} `{Layout} (compiler : EncodedDirectCompiler).

Lemma protocol_compile_commit sh r s chunks next_roles l k sh' n :
  protocol sh (CompileCommit r s chunks next_roles :: l) k ->
  compile_commit sh r s chunks next_roles = (sh', n) ->
  protocol sh' (resume n l k).1 (resume n l k).2.
Proof using Type.
  intros HP. unfold compile_commit. destruct (_ && _).
  { intros [= <- <-]. by eapply protocol_move. }
  destruct (_ && _).
  { intros [= <- <-]. by eapply protocol_move. }
  destruct (finish_result (inl ()) (state sh)) as [result found] eqn:Ef.
  apply finish_result_cases in Ef as [(E&->&->)|(E&->&error&->)].
  - intros Es.
    destruct (coarse r); injection Es as <- <-; protocol_solve.
  - intros [= <- <-]. by eapply protocol_move.
Qed.

Lemma protocol_close sh l k sh' done n :
  protocol sh (Close :: l) k -> cancel_batch_output sh = (done, sh') ->
  n = Returned (inl (Flag done)) ->
  protocol sh' (resume n l k).1 (resume n l k).2.
Proof using Type.
  intros HP. unfold cancel_batch_output, cancel_output.
  destruct (_ || _) eqn:E; cbn; intros [= <- <-] ->.
  - by eapply (protocol_move sh).
  - apply orb_false_iff in E as [[Hp%negb_false_iff Hc]%orb_false_iff _].
    protocol_solve.
Qed.

Lemma protocol_prepare env sh r sources l k sh' n :
  protocol sh (CompilePrepare r sources :: l) k ->
  advance compiler env sh (CompilePrepare r sources) = Some (sh', n) ->
  protocol sh' (resume n l k).1 (resume n l k).2.
Proof using Type.
  intros HP E. advance_in E. destruct (if coarse r then _ else _).
  { injection E as <- <-. by eapply protocol_move. }
  destruct (prepare_sources _ _ _ _ _ _) as [kernel|error]; [|injection E as <- <-; by eapply protocol_move].
  destruct (_ && _); [injection E as <- <-; by eapply protocol_move|].
  apply bind_Some in E as (result&_&[= <- <-]).
  eapply protocol_move; [done|by repeat case_match..|].
  repeat case_match; simplify_eq/=; auto.
Qed.

Lemma protocol_chunks env sh r sources s chunks l k sh' n :
  protocol sh (CompileChunks r sources s chunks :: l) k ->
  advance compiler env sh (CompileChunks r sources s chunks) = Some (sh', n) ->
  protocol sh' (resume n l k).1 (resume n l k).2.
Proof using Type.
  intros HP E. advance_in E. destruct (_ =? _); [injection E as <- <-; by eapply protocol_move|].
  apply bind_Some in E as (result&_&[= <- <-]).
  eapply protocol_move; [done..|]. repeat case_match; simplify_eq/=; auto.
Qed.

Lemma protocol_python env sh r s chunks l k sh' n :
  protocol sh (CompilePython r s chunks :: l) k ->
  advance compiler env sh (CompilePython r s chunks) = Some (sh', n) ->
  protocol sh' (resume n l k).1 (resume n l k).2.
Proof using Type.
  intros HP E. advance_in E.
  destruct (raises env); [injection E as <- <-; by eapply protocol_move|].
  destruct (_ && _); [|injection E as <- <-; by eapply protocol_move].
  apply bind_Some in E as (result&_&[= <- <-]).
  eapply protocol_move; [done..|]. repeat case_match; simplify_eq/=; auto.
Qed.

Lemma protocol_drain env sh t l k sh' n :
  match t with DrainTake | DrainPrepare _ | DrainPython _ _ _ | DrainAbort _ _ | DrainCommit _ _ _ _ => True
  | _ => False end ->
  protocol sh (t :: l) k ->
  advance compiler env sh t = Some (sh', n) ->
  protocol sh' (resume n l k).1 (resume n l k).2.
Proof using Type.
  intros Ht HP E. destruct t; try done; advance_in E; clear Ht.
  - destruct (raises env); [injection E as <- <-; by eapply protocol_move|].
    destruct (drain_take _) as [result output] eqn:Ed. apply drain_take_flags in Ed as [E1 E2].
    injection E as <- <-. eapply protocol_move; [done..|]. by destruct result as [[]|].
  - destruct (drain_sources compiler); [|injection E as <- <-; by eapply protocol_move].
    apply bind_Some in E as (result&_&[= <- <-]).
    eapply protocol_move; [done..|]. repeat case_match; simplify_eq/=; auto.
  - injection E as <- <-. by eapply protocol_move.
  - destruct (drain_abort _ _ _) as [result output] eqn:Ed. apply drain_abort_flags in Ed as [E1 E2].
    injection E as <- <-. by eapply protocol_move.
  - destruct (drain_commit _ _ _ _ _) as [result output] eqn:Ed.
    apply drain_commit_flags in Ed as [E1 E2].
    injection E as <- <-. eapply protocol_move; [done..|]. by destruct result.
Qed.

(** Every section keeps the protocol. *)
Lemma protocol_advance env sh t l k sh' n :
  protocol sh (t :: l) k ->
  advance compiler env sh t = Some (sh', n) ->
  protocol sh' (resume n l k).1 (resume n l k).2.
Proof using Type.
  intros HP E. destruct t; advance_in E.
  - destruct (check_request r); [|injection E as <- <-; by eapply protocol_move].
    destruct (begin (state sh)) as [result found] eqn:Eb.
    apply begin_cases in Eb as [(Ei&->&->)|(->&error&->)]; injection E as <- <-;
      [destruct (compile_sources compiler); protocol_solve|by eapply protocol_move].
  - destruct (retained r) eqn:Er; [|injection E as <- <-; eapply protocol_move; cbn; naive_solver].
    unfold claim in E. destruct (in_use sh) eqn:Eu; injection E as <- <-; protocol_solve.
  - by eapply protocol_prepare.
  - by eapply protocol_chunks.
  - by eapply protocol_python.
  - eapply protocol_compile_commit; [done|by injection E].
  - destruct (finish_result (inr error) (state sh)) as [result found] eqn:Ef.
    apply finish_result_cases in Ef as [(Ei&->&->)|(Ei&->&error'&->)]; injection E as <- <-;
      [protocol_solve|by eapply protocol_move].
  - injection E as <- <-. by eapply protocol_move.
  - injection E as <- <-. by eapply protocol_move.
  - injection E as <- <-. destruct claimed; protocol_solve; destruct (success result); lia.
  - by refine (protocol_drain _ _ _ _ _ _ _ _ HP E).
  - by refine (protocol_drain _ _ _ _ _ _ _ _ HP E).
  - by refine (protocol_drain _ _ _ _ _ _ _ _ HP E).
  - by refine (protocol_drain _ _ _ _ _ _ _ _ HP E).
  - by refine (protocol_drain _ _ _ _ _ _ _ _ HP E).
  - destruct (cancel_batch_output sh) as [b sh1] eqn:Ec. injection E as <- <-.
    by eapply protocol_close.
  - injection E as <- <-. by eapply protocol_move.
  - destruct (cancel_round observed (state sh)) as [result found] eqn:Ec.
    apply cancel_round_cases in Ec as [(->&Es&->)|(->&_)]; injection E as <- <-; [protocol_solve|].
    destruct result; by eapply protocol_move.
Qed.

(** ** What a section may do *)

(** The transitions of the state. *)
Definition legal (found next : u8) : Prop :=
  next = found \/
  (found, next) ∈ [ (STATE_IDLE, STATE_RUNNING); (STATE_IDLE, STATE_CANCELLED);
    (STATE_RUNNING, STATE_FINISHED); (STATE_RUNNING, STATE_FAILED);
    (STATE_RUNNING, STATE_CANCELLED); (STATE_FINISHED, STATE_CANCELLED) ].

(** A section moves the state along [legal]; only the successful end of a
    compilation changes the role state or prepares the output, and it holds the
    claim of the role state; only the holder of the claim gives it up. *)
Record guarantee (sh sh' : Shared) (holding : Prop) : Prop := {
  guarantee_state : legal sh.(state) sh'.(state);
  guarantee_roles : sh'.(roles) <> sh.(roles) ->
    sh.(state) = STATE_RUNNING /\ sh'.(state) = STATE_FINISHED /\ holding;
  guarantee_output : sh'.(batch_output).(prepared) <> sh.(batch_output).(prepared) ->
    sh.(state) = STATE_RUNNING /\ sh'.(state) = STATE_FINISHED;
  guarantee_claim : sh.(in_use) = true -> sh'.(in_use) = false -> holding;
}.

Lemma guarantee_move sh sh' holding :
  sh'.(state) = sh.(state) -> sh'.(roles) = sh.(roles) ->
  sh'.(batch_output).(prepared) = sh.(batch_output).(prepared) -> sh'.(in_use) = sh.(in_use) ->
  guarantee sh sh' holding.
Proof using Type. intros E1 E2 E3 E4. split; rewrite ?E1, ?E2, ?E3, ?E4; [by left|done..|congruence]. Qed.

Lemma guarantee_commit sh r s chunks next_roles sh' n :
  (sh.(state) = STATE_RUNNING -> sh.(batch_output).(prepared) = false) ->
  compile_commit sh r s chunks next_roles = (sh', n) ->
  guarantee sh sh' (r.(retained) = true).
Proof using Type.
  intros Hp. unfold compile_commit.
  destruct (bool_decide (is_Some next_roles) && negb (retained r)) eqn:Eo.
  { intros [= <- <-]. by apply guarantee_move. }
  destruct (bool_decide _ && roles_poisoned sh); [intros [= <- <-]; by apply guarantee_move|].
  destruct (finish_result (inl ()) (state sh)) as [result found] eqn:Ef.
  apply finish_result_cases in Ef as [(E&->&->)|(E&->&error&->)].
  - assert (Hr : default (roles sh) next_roles <> roles sh -> r.(retained) = true).
    { destruct next_roles as [roles|]; [|done]. cbn in Eo. by apply negb_false_iff in Eo. }
    destruct (coarse r); intros [= <- <-]; split; cbn; rewrite ?E; try (by right; set_solver);
      try congruence; auto.
  - intros [= <- <-]. by apply guarantee_move.
Qed.

(** Draining and cancelling the output. *)
Lemma guarantee_close sh l k sh' done :
  protocol sh (Close :: l) k -> cancel_batch_output sh = (done, sh') ->
  guarantee sh sh' (holder Close = true).
Proof using Type.
  intros HP. unfold cancel_batch_output, cancel_output.
  destruct (_ || _) eqn:E; cbn; intros [= <- <-]; [by apply guarantee_move|].
  apply orb_false_iff in E as [[Hp%negb_false_iff Hc]%orb_false_iff _].
  destruct (protocol_output _ _ _ HP Hp) as [_ Es]. rewrite Hc in Es.
  split; cbn; rewrite ?Es, ?Hp; try done; [right; set_solver|congruence].
Qed.

Lemma guarantee_drain env sh t sh' n :
  match t with DrainTake | DrainPrepare _ | DrainPython _ _ _ | DrainAbort _ _ | DrainCommit _ _ _ _ => True
  | _ => False end ->
  advance compiler env sh t = Some (sh', n) -> guarantee sh sh' (holder t = true).
Proof using Type.
  intros Ht E. destruct t; try done; advance_in E; clear Ht.
  - destruct (raises env); [injection E as <- <-; by apply guarantee_move|].
    destruct (drain_take _) as [result output] eqn:Ed. apply drain_take_flags in Ed as [E1 E2].
    injection E as <- <-. by apply guarantee_move.
  - destruct (drain_sources compiler); [|injection E as <- <-; by apply guarantee_move].
    apply bind_Some in E as (result&_&[= <- <-]). by apply guarantee_move.
  - injection E as <- <-. by apply guarantee_move.
  - destruct (drain_abort _ _ _) as [result output] eqn:Ed. apply drain_abort_flags in Ed as [E1 E2].
    injection E as <- <-. by apply guarantee_move.
  - destruct (drain_commit _ _ _ _ _) as [result output] eqn:Ed.
    apply drain_commit_flags in Ed as [E1 E2]. injection E as <- <-. by apply guarantee_move.
Qed.

Lemma guarantee_kernel env sh t sh' n :
  match t with CompilePrepare _ _ | CompileChunks _ _ _ _ | CompilePython _ _ _ => True | _ => False end ->
  advance compiler env sh t = Some (sh', n) -> guarantee sh sh' (holder t = true).
Proof using Type.
  intros Ht E. destruct t; try done; advance_in E; clear Ht.
  - destruct (if coarse r then _ else _); [injection E as <- <-; by apply guarantee_move|].
    destruct (prepare_sources _ _ _ _ _ _) as [kernel|error]; [|injection E as <- <-; by apply guarantee_move].
    destruct (_ && _); [injection E as <- <-; by apply guarantee_move|].
    apply bind_Some in E as (result&_&[= <- <-]). apply guarantee_move; by repeat case_match.
  - destruct (_ =? _); [injection E as <- <-; by apply guarantee_move|].
    apply bind_Some in E as (result&_&[= <- <-]). by apply guarantee_move.
  - destruct (raises env); [injection E as <- <-; by apply guarantee_move|].
    destruct (_ && _); [|injection E as <- <-; by apply guarantee_move].
    apply bind_Some in E as (result&_&[= <- <-]). by apply guarantee_move.
Qed.

Lemma guarantee_advance env sh t l k sh' n :
  protocol sh (t :: l) k -> advance compiler env sh t = Some (sh', n) ->
  guarantee sh sh' (holder t = true).
Proof using Type.
  intros HP E. destruct t; try (by eapply guarantee_kernel); try (by eapply guarantee_drain);
    advance_in E; try (injection E as <- <-; by apply guarantee_move).
  - destruct (check_request r); [|injection E as <- <-; by apply guarantee_move].
    destruct (begin (state sh)) as [result found] eqn:Eb.
    apply begin_cases in Eb as [(Ei&->&->)|(->&error&->)]; injection E as <- <-;
      [split; cbn; rewrite ?Ei; try done; [right; set_solver|congruence]|by apply guarantee_move].
  - destruct (retained r); [|injection E as <- <-; by apply guarantee_move].
    unfold claim in E. destruct (in_use sh) eqn:Eu; injection E as <- <-; split; cbn; try done; by left.
  - injection E as E. eapply guarantee_commit; [|exact E].
    intros Er. destruct (prepared (batch_output sh)) eqn:Hp; [|done].
    destruct (protocol_output _ _ _ HP Hp) as [_ Es]. rewrite Er in Es. by destruct (cancelled _).
  - destruct (finish_result (inr error) (state sh)) as [result found] eqn:Ef.
    apply finish_result_cases in Ef as [(Ei&->&->)|(Ei&->&error'&->)]; injection E as <- <-;
      [split; cbn; rewrite ?Ei; try done; [right; set_solver|congruence]|by apply guarantee_move].
  - injection E as <- <-. destruct claimed; [|by apply guarantee_move]. split; cbn; try done. by left.
  - destruct (cancel_batch_output sh) as [b sh1] eqn:Ec. injection E as <- <-.
    by eapply guarantee_close.
  - destruct (cancel_round observed (state sh)) as [result found] eqn:Ec.
    apply cancel_round_cases in Ec as [(->&Es&->)|(->&_)]; injection E as <- <-;
      [|by apply guarantee_move].
    split; cbn; try done; [right; destruct Es as [-> | ->]; set_solver|congruence].
Qed.

(** ** Every interleaving *)

Lemma protocol_section c c' :
  protocol c.(shared) c.(threads) c.(returned) -> section_step compiler c c' ->
  protocol c'.(shared) c'.(threads) c'.(returned).
Proof using Type. apply section_rule; [apply _|]. intros. by eapply protocol_advance. Qed.

Lemma protocol_step allowed c c' :
  protocol c.(shared) c.(threads) c.(returned) -> config_step compiler allowed c c' ->
  protocol c'.(shared) c'.(threads) c'.(returned).
Proof using Type.
  intros HP Hstep. revert HP. destruct Hstep as [c1 c2 Hs|sh l k t Ht|sh sh' l k Hl Ho]; intros HP;
    [by eapply protocol_section|..]; cbn in *.
  - destruct HP. destruct t; try done; split; rewrite ?number_cons; done.
  - apply number_zero in Hl. destruct HP, Ho; split; cbn; try done; intros; lia.
Qed.

Lemma reachable_protocol allowed c :
  reachable compiler allowed c -> protocol c.(shared) c.(threads) c.(returned).
Proof using Type.
  induction 1; [|by eapply protocol_step].
  split; cbn; rewrite ?number_nil, ?successes_nil; try done; intros; lia.
Qed.

(** The [?] after [begin]: when the retained members do not make up the sources
    of a compilation, the call fails and the compiler stays running. *)
Lemma failed_sources_keep_running sh r error :
  check_request r = inl tt -> sh.(state) = STATE_IDLE -> compile_sources compiler = inr error ->
  begin_section compiler sh r = Some (sh <| state := STATE_RUNNING |>, Returned (inr error)).
Proof using Type. intros Hr Hs He. unfold begin_section, begin. by rewrite Hr, Hs, He. Qed.
End preserved.

(** ** The contract *)

(** C4: The one-shot compiler keeps its protocol under every interleaving of its
    calls with each other and with other compilers sharing the role state: at
    most one compilation is ever past [begin] or has returned a result; a
    prepared output goes with the states finished and cancelled; every section
    moves the atomic state along a legal transition; the role state changes and
    the output appears only in the section that turns a running compilation into
    a finished one, by the holder of the claim; and only the holder gives the
    claim up. *)
Theorem compiler_protocol `{LowercaseTable} `{Layout} compiler allowed c c' :
  reachable compiler allowed c -> section_step compiler c c' ->
  protocol c'.(shared) c'.(threads) c'.(returned) /\
  guarantee c.(shared) c'.(shared) (exists t, t ∈ c.(threads) /\ holder t = true).
Proof.
  intros Hc%reachable_protocol Hs. split; [by eapply protocol_section|].
  revert Hc. destruct Hs as [env sh l t l' k sh' t' E|env sh l t l' k sh' result E]; cbn; intros Hc.
  all: rewrite <- Permutation_middle in Hc; eapply guarantee_advance in E; [|done].
  all: destruct E as [E1 E2 E3 E4]; split; [done|..|done|].
  all: assert (t ∈ l ++ t :: l') by set_solver; naive_solver.
Qed.
