(* ===== verification/Served.v ===== *)
(** * What a compiler delivers

    The edges that the calls of a compiler return, over every interleaving:
    the batches cut one batch program, each edge once and in order. *)

From stdpp Require Import vector.
From S2P Require Import Prelude Errors Partial Text Columns Nodes Graphs Structure Samples Validated Stats Roles Emission.
From S2P Require Import Workspace Preparation Preflight Cursor Emit Phases Refine Prepared Retained Session Protocol.
Local Open Scope string_scope.
Local Open Scope list_scope.
Local Open Scope N_scope.

(** ** More fuel *)

Section fuel.
Context `{LowercaseTable} (columns : DirectColumns) (tables : option (list DirectColumns)).
Context (P : DirectPreparation).

Lemma bind_more {A B} (m m' : Cx A) (f f' : A -> Cx B) obs k :
  (fst (m obs k) <> OutOfFuel -> m' obs k = m obs k) ->
  (forall a k, fst (f a obs k) <> OutOfFuel -> f' a obs k = f a obs k) ->
  fst (mbind f m obs k) <> OutOfFuel -> mbind f' m' obs k = mbind f m obs k.
Proof using Type.
  intros Hm Hf. unfold mbind, Cx_bind. destruct (m obs k) as [[a|e| |] k1]; cbn in *; intros Hn; try done.
  all: rewrite Hm by done; try done. by apply Hf.
Qed.

Lemma next_cursor_edge_more n m c obs k : (n <= m)%nat ->
  fst (next_cursor_edge columns tables P n c obs k) <> OutOfFuel ->
  next_cursor_edge columns tables P m c obs k = next_cursor_edge columns tables P n c obs k.
Proof using Type.
  revert m c k. induction n as [|n IH]; intros [|m] c k Hle; cbn [next_cursor_edge]; try done; [lia|].
  apply bind_more; [done|]. intros [c1|r] k1; [|done]. apply IH. lia.
Qed.

Lemma batch_edges_more n m amount edges c obs k : (n <= m)%nat ->
  fst (Cursor.batch_edges columns tables P n amount edges c obs k) <> OutOfFuel ->
  Cursor.batch_edges columns tables P m amount edges c obs k =
    Cursor.batch_edges columns tables P n amount edges c obs k.
Proof using Type.
  intros Hle. revert edges c k. induction amount as [|amount IH]; intros edges c k; cbn [Cursor.batch_edges]; [done|].
  apply bind_more; [by apply next_cursor_edge_more|]. intros [edge c1] k1.
  apply bind_more; [done|]. intros e k2. apply IH.
Qed.

Lemma prepare_next_batch_more n m c batch obs k : (n <= m)%nat ->
  fst (prepare_next_batch columns tables P n c batch obs k) <> OutOfFuel ->
  prepare_next_batch columns tables P m c batch obs k = prepare_next_batch columns tables P n c batch obs k.
Proof using Type.
  intros Hle. apply bind_more; [done|]. intros c1 k1. by apply batch_edges_more.
Qed.
End fuel.

(** ** What calls returned *)

Definition batch_of (result : PyResult Value) : option (list DirectEdge) :=
  match result with inl (Batch edges) => Some edges | _ => None end.

(** The batches returned, in order. *)
Definition batches (k : list (PyResult Value)) : list (list DirectEdge) := omap batch_of k.

Lemma batches_snoc k result :
  batches (k ++ [result]) =
  batches k ++ match batch_of result with Some batch => [batch] | None => [] end.
Proof. unfold batches. rewrite omap_app. cbn. by destruct (batch_of result). Qed.

(** The calls that hold the stream of the output. *)
Definition draining_call (t : Thread) : bool :=
  match t with
  | DrainPrepare _ | DrainPython _ _ _ | DrainAbort _ _ | DrainCommit _ _ _ _ => true
  | _ => false
  end.

(** ** The position of a stream *)

(** The table of a compiler without composite members. *)
Definition base_table (compiler : EncodedDirectCompiler) : DirectColumns :=
  with_anonymous_scope_map
    (with_selection (ordered_columns compiler.(compiler_buffers))
       compiler.(compiler_included) compiler.(compiler_excluded))
    (slice_of compiler.(compiler_scope_map)).

Definition root_document (compiler : EncodedDirectCompiler) : option DirectColumns :=
  ordered_columns <$> compiler.(root_annotation_buffers).

(** One table: neither composite members nor an overlay. *)
Record one_table (compiler : EncodedDirectCompiler) : Prop := {
  no_members : compiler.(composite_members) = None;
  no_overlay : compiler.(overlay_delta_buffers) = None;
}.

Definition table_sources (compiler : EncodedDirectCompiler) : Sources :=
  {| source_composite := None; source_columns := base_table compiler |}.

Lemma one_table_sources compiler : one_table compiler -> compile_sources compiler = inl (table_sources compiler).
Proof. intros [Hm _]. unfold compile_sources, dynamic_composite_columns, retained_base_columns. by rewrite Hm. Qed.

Lemma one_table_prepares `{LowercaseTable} `{Layout} compiler fuel rounds options roles :
  one_table compiler ->
  prepare_sources compiler fuel rounds (table_sources compiler) options roles =
  inl (prepare_direct (base_table compiler) (root_document compiler) options roles None None None).
Proof. intros [_ Ho]. unfold prepare_sources, overlay_delta_columns. by rewrite Ho. Qed.

Section served.
Context `{LowercaseTable} `{Layout} (compiler : EncodedDirectCompiler).
Context (allowed : Request -> Prop).

(** A preparation of an allowed compilation, and its batch program. *)
Definition program (P : DirectPreparation) (l : list DirectEdge) : Prop :=
  exists r roles obs k, allowed r /\
    fst (prepare_direct (base_table compiler) (root_document compiler) r.(request_options) roles None None None obs k) = Ok P /\
    direct_edges (base_table compiler) P = Ok l.

(** The stream has delivered [sent] of its program and [rest] is left. *)
Record stream_at (s : PreparedDirectBatches) (sent rest : list DirectEdge) : Prop := {
  stream_program : program s.(preparation) (sent ++ rest);
  stream_paced : exists n, paced (base_table compiler) s.(preparation) n s.(cursor) rest;
  stream_left : stream_remaining_edges s = len rest;
}.

(** A batch taken from a stream: it may be cancelled or need more fuel;
    otherwise it is the next edges of the program. *)
Lemma stream_next s sent rest fuel size obs k :
  stream_at s sent rest ->
  let result := fst (next_source_batch (table_sources compiler) s.(preparation) fuel s.(cursor) size obs k) in
  result = OutOfFuel \/ result = Err Cancelled \/
  exists edges next rest', result = Ok (edges, next) /\ rest = edges ++ rest' /\
    len edges = N.min (len rest) size /\ stream_at (commit_cursor s next) (sent ++ edges) rest'.
Proof using Type.
  intros [Hprog [n Hn] Hleft]. unfold next_source_batch, table_sources. cbn.
  set (P := preparation s) in *. set (columns := base_table compiler) in *. fold P in Hn |- *.
  destruct (run_next_batch columns P (max n fuel) (max n fuel) s.(cursor) rest size ltac:(lia))
    as (c1&R&Hp1&Hr1); [by eapply paced_le, Hn; lia|done|].
  set (amount := N.to_nat (N.min (len rest) size)) in *.
  destruct (transparent_obs (Transparent := transparent_prepare_next_batch columns None P (max n fuel) (cursor s) size) obs k)
    as [E|E].
  all: destruct (fst (prepare_next_batch columns None P fuel (cursor s) size obs k)) as [a|e| |] eqn:Ef;
    [..|by left].
  all: rewrite (prepare_next_batch_more columns None P fuel (max n fuel)) in E by (try lia; by rewrite Ef).
  all: rewrite Ef in E; try (right; by left); try done.
  all: rewrite R in E; try done. injection E as ->.
  right; right. exists (take amount rest), c1, (drop amount rest).
  split_and!; [done|by rewrite take_drop|unfold len; rewrite length_take; subst amount; unfold len; lia|].
  split; cbn; [by rewrite <- app_assoc, take_drop|by exists (max n fuel)|done].
Qed.
(** ** The invariant *)

Definition asked (r : Request) : Prop :=
  allowed r /\ (r.(coarse) = false -> r.(request_batch_edges) <> 0).

(** A drain holds the stream of the output. *)
Record drained (o : DirectBatchOutput) (sent : list DirectEdge) (d : Drain) (rest : list DirectEdge)
    : Prop := {
  drained_rest : rest <> [];
  drained_stream : stream_at d.(drain_stream) sent rest;
  drained_size : d.(drain_batch_edges) = o.(batch_edges);
  drained_left : o.(cancelled) = false -> o.(output_remaining) = len rest;
}.

(** What a call knows at each section. *)
Definition thread_ok (o : DirectBatchOutput) (sent : list DirectEdge) (t : Thread) : Prop :=
  match t with
  | CompileBegin r => allowed r
  | CompileClaim r sources | CompilePrepare r sources => asked r /\ sources = table_sources compiler
  | CompileChunks r sources s chunks =>
      asked r /\ sources = table_sources compiler /\ r.(coarse) = true /\ exists rest, stream_at s chunks.(chunk_edges) rest
  | CompilePython r s chunks | CompileCommit r s chunks _ =>
      asked r /\ exists rest, stream_at s chunks.(chunk_edges) rest /\
        if r.(coarse) then rest = [] else chunks.(chunk_edges) = []
  | CompileStoreChunks _ chunks | CompileStorePeak _ chunks => exists P, program P chunks.(chunk_edges)
  | CompileRelease _ (inl (Edges edges)) => exists P, program P edges
  | CompileRelease _ (inl (Batch _)) => False
  | DrainPrepare d | DrainAbort d _ => exists rest, drained o sent d rest
  | DrainPython d edges next | DrainCommit d edges next _ => exists rest,
      drained o sent d (edges ++ rest) /\ edges <> [] /\ len edges <= o.(batch_edges) /\
      stream_at (commit_cursor d.(drain_stream) next) (sent ++ edges) rest
  | _ => True
  end.

(** What the output says of the batches returned so far. *)
Definition output_ok (o : DirectBatchOutput) (k : list (PyResult Value)) : Prop :=
  if o.(prepared) then
    o.(batch_edges) <> 0 /\ Forall (fun batch => len batch <= o.(batch_edges)) (batches k) /\
    ([] ∈ batches k -> o.(exhausted) = true) /\
    if o.(cancelled) then o.(exhausted) = false /\ exists P rest, program P (concat (batches k) ++ rest)
    else if o.(exhausted) then o.(draining) = false /\ exists P, program P (concat (batches k))
    else o.(draining) = true \/
      exists s rest, o.(stream) = Some s /\ rest <> [] /\ stream_at s (concat (batches k)) rest /\
        o.(output_remaining) = len rest
  else o = DirectBatchOutput_default /\ batches k = [].

Record served (sh : Shared) (l : list Thread) (k : list (PyResult Value)) : Prop := {
  served_threads : Forall (thread_ok sh.(batch_output) (concat (batches k))) l;
  served_output : output_ok sh.(batch_output) k;
  served_drains : number draining_call l = if sh.(batch_output).(draining) then 1%nat else 0%nat;
  served_edges : forall edges, inl (Edges edges) ∈ k -> exists P, program P edges;
}.

#[export] Instance served_proper sh : Proper ((≡ₚ) ==> eq ==> iff) (served sh).
Proof using Type.
  intros l l' E k k' <-. split; intros [H1 H2 H3 H4]; split; try done;
    try rewrite E in *; try rewrite <- E in *; done.
Qed.

(** Only the drains depend on the output and on what was sent. *)
Lemma thread_ok_frame o o' sent sent' t :
  draining_call t = false -> thread_ok o sent t -> thread_ok o' sent' t.
Proof using Type. by destruct t. Qed.

Lemma threads_ok_frame o o' sent sent' l :
  number draining_call l = 0%nat -> Forall (thread_ok o sent) l -> Forall (thread_ok o' sent') l.
Proof using Type.
  intros Hn%number_zero Ht. induction Ht; [done|]. apply Forall_cons in Hn as [? ?].
  constructor; [by eapply thread_ok_frame|auto].
Qed.

(** Sections that leave the output alone. *)
Lemma served_move sh t l k sh' n :
  served sh (t :: l) k -> sh'.(batch_output) = sh.(batch_output) ->
  match n with
  | Goto t' => draining_call t' = draining_call t /\
      (thread_ok sh.(batch_output) (concat (batches k)) t ->
       thread_ok sh.(batch_output) (concat (batches k)) t')
  | Returned result => draining_call t = false /\ batch_of result = None /\
      (thread_ok sh.(batch_output) (concat (batches k)) t ->
       forall edges, result = inl (Edges edges) -> exists P, program P edges)
  end ->
  served sh' (resume n l k).1 (resume n l k).2.
Proof using Type.
  intros [[Ht Hl]%Forall_cons Ho Hd He] Eo Hn. rewrite number_cons in Hd.
  destruct n as [t'|result]; cbn.
  - destruct Hn as [Ed Hok]. split; rewrite ?Eo, ?number_cons, ?Ed; auto.
  - destruct Hn as (Ed&Eb&Hr). rewrite Ed in Hd.
    split; rewrite ?Eo; unfold output_ok; rewrite ?batches_snoc, ?Eb, ?app_nil_r; try done.
    intros edges [?|E%list_elem_of_singleton]%elem_of_app; [by apply He|by eapply Hr].
Qed.

(** ** Draining *)

Lemma len_zero {A} (l : list A) : len l = 0 -> l = [].
Proof using Type. destruct l; [done|]. unfold len. cbn. lia. Qed.

(** A section that gives the stream back, or the next one. *)
Lemma served_returned sh t l k o result :
  served sh (t :: l) k -> draining_call t = true ->
  o.(draining) = false -> output_ok o (k ++ [result]) ->
  (forall edges, result <> inl (Edges edges)) ->
  served (sh <| batch_output := o |>) l (k ++ [result]).
Proof using Type.
  intros [[Ht Hl]%Forall_cons Ho Hd He] Hdrain Eo Hok Hr. rewrite number_cons, Hdrain in Hd.
  assert (Hn0 : number draining_call l = 0%nat) by (destruct (draining _); lia).
  split; cbn; rewrite ?Eo; try done.
  - by eapply threads_ok_frame.
  - intros edges [?|E%list_elem_of_singleton]%elem_of_app; [by apply He|by destruct (Hr edges)].
Qed.

Lemma served_drain_take sh l k o result n :
  served sh (DrainTake :: l) k -> drain_take sh.(batch_output) = (result, o) ->
  n = match result with
      | inl (inl edges) => Returned (inl (Batch edges))
      | inl (inr d) => Goto (DrainPrepare d)
      | inr error => Returned (inr error)
      end ->
  served (sh <| batch_output := o |>) (resume n l k).1 (resume n l k).2.
Proof using Type.
  intros HS Hd ->. unfold drain_take in Hd.
  destruct (prepared (batch_output sh)) eqn:Ep; cbn in Hd;
    [|injection Hd as <- <-; by eapply served_move].
  destruct (cancelled (batch_output sh)) eqn:Ec; [injection Hd as <- <-; by eapply served_move|].
  destruct (exhausted (batch_output sh)) eqn:Ex.
  { injection Hd as <- <-. cbn. destruct HS as [[_ Hl]%Forall_cons Ho Hn He].
    rewrite number_cons in Hn. unfold output_ok in Ho. rewrite Ep, Ec, Ex in Ho.
    destruct Ho as (?&?&?&?&?). split; cbn.
    - by rewrite batches_snoc, concat_app, app_nil_r.
    - unfold output_ok. rewrite Ep, Ec, Ex, batches_snoc, concat_app, app_nil_r. split_and!; try done.
      apply Forall_app. split; [done|]. constructor; [apply N.le_0_l|done].
    - done.
    - intros edges [?|E%list_elem_of_singleton]%elem_of_app; [by apply He|done]. }
  destruct (draining (batch_output sh)) eqn:Edr; [injection Hd as <- <-; by eapply served_move|].
  destruct (checked_add _ 1); [|injection Hd as <- <-; by eapply served_move].
  destruct (checked_add _ 1); [|injection Hd as <- <-; by eapply served_move].
  destruct (stream (batch_output sh)) as [s|] eqn:Es; [|injection Hd as <- <-; by eapply served_move].
  injection Hd as <- <-. cbn. destruct HS as [[_ Hl]%Forall_cons Ho Hn He].
  rewrite number_cons in Hn. rewrite Edr in Hn. unfold output_ok in Ho. rewrite Ep, Ec, Ex, Edr in Ho.
  destruct Ho as (?&?&?&[?|(s'&rest&Es'&?&?&?)]); [done|]. rewrite Es in Es'. injection Es' as <-.
  split; cbn; [|unfold output_ok; cbn; rewrite Ep, Ec, Ex|rewrite number_cons; cbn in *; lia|done].
  - constructor; [by exists rest|]. by eapply threads_ok_frame.
  - split_and!; auto.
Qed.

(** While a drain runs, the output is prepared and not exhausted. *)
Lemma served_draining sh t l k :
  served sh (t :: l) k -> draining_call t = true ->
  sh.(batch_output).(prepared) = true /\ sh.(batch_output).(exhausted) = false /\
  sh.(batch_output).(batch_edges) <> 0 /\
  Forall (fun batch => len batch <= sh.(batch_output).(batch_edges)) (batches k) /\
  ([] ∈ batches k -> False) /\
  (sh.(batch_output).(cancelled) = true ->
     exists P rest, program P (concat (batches k) ++ rest)).
Proof using Type.
  intros [_ Ho Hn _] Ed. rewrite number_cons, Ed in Hn. unfold output_ok in Ho.
  destruct (prepared _) eqn:Ep; [|destruct Ho as [E _]; rewrite E in Hn; cbn in Hn; lia].
  destruct Ho as (?&?&Hend&Ho). destruct (exhausted _).
  - destruct (cancelled _); [by destruct Ho|]. destruct Ho as [Ed' _]. rewrite Ed' in Hn. lia.
  - split_and!; try done; [by intros ?%Hend|]. intros Ec. rewrite Ec in Ho. apply Ho.
Qed.

Lemma served_drain_abort sh l k d error o error' n :
  served sh (DrainAbort d error :: l) k -> drain_abort d error sh.(batch_output) = (error', o) ->
  n = Returned (inr error') ->
  served (sh <| batch_output := o |>) (resume n l k).1 (resume n l k).2.
Proof using Type.
  intros HS Hd ->. pose proof (served_draining _ _ _ _ HS eq_refl) as (Hp&Hx&?&?&?&Hc).
  pose proof (served_threads _ _ _ HS) as [(rest&[Hrest Hs _ Hleft]) _]%Forall_cons.
  unfold drain_abort in Hd. cbn in Hd.
  destruct (cancelled (batch_output sh)) eqn:Ec; injection Hd as <- <-;
    (eapply served_returned; [exact HS|done|done| |done]); unfold output_ok; cbn; rewrite Hp, Ec, Hx,
    batches_snoc, app_nil_r; split_and!; auto; try done.
  right. exists (drain_stream d), rest. auto.
Qed.

Lemma served_drain_commit sh l k d edges next error o result n :
  served sh (DrainCommit d edges next error :: l) k ->
  drain_commit d edges next error sh.(batch_output) = (result, o) ->
  n = Returned (match result with inl edges => inl (Batch edges) | inr error => inr error end) ->
  served (sh <| batch_output := o |>) (resume n l k).1 (resume n l k).2.
Proof using Type.
  intros HS Hd ->. pose proof (served_draining _ _ _ _ HS eq_refl) as (Hp&Hx&?&?&Hend&Hc).
  pose proof (served_threads _ _ _ HS)
    as [(rest&[Hrest Hs Hsize Hleft]&Hedges&Hlen&Hnext) _]%Forall_cons.
  assert (Hcat : concat (batches k ++ [edges]) = concat (batches k) ++ edges)
    by (rewrite concat_app; cbn; by rewrite app_nil_r).
  assert (Hsizes : Forall (fun batch => len batch <= (batch_output sh).(batch_edges)) (batches k ++ [edges]))
    by (apply Forall_app; split; [done|by repeat constructor]).
  unfold drain_commit in Hd. cbn in Hd.
  destruct (cancelled (batch_output sh)) eqn:Ec; [|destruct error as [error|]].
  3: pose proof (stream_left _ _ _ Hnext) as Hn; rewrite Hn in Hd; destruct (N.eqb_spec (len rest) 0) as [Hz|Hz].
  all: injection Hd as <- <-; (eapply served_returned; [exact HS|done|done| |done]);
    unfold output_ok; cbn; rewrite Hp, ?Ec, ?Hx, batches_snoc; cbn; rewrite ?app_nil_r; split_and!; auto; try done.
  - right. exists (drain_stream d), (edges ++ rest). auto.
  - rewrite (len_zero rest Hz) in *. rewrite Hcat, <- (app_nil_r (_ ++ edges)). eexists. apply Hnext.
  - intros [?|E%list_elem_of_singleton]%elem_of_app; [by destruct Hend|by destruct Hedges].
  - right. exists (commit_cursor (drain_stream d) next), rest. rewrite Hcat. split_and!; try done.
    by intros ->.
Qed.

(** ** Cancelling *)

Lemma thread_ok_cancelled o o' sent t :
  o'.(batch_edges) = o.(batch_edges) -> o'.(cancelled) = true ->
  thread_ok o sent t -> thread_ok o' sent t.
Proof using Type.
  intros Eb Ec. assert (Hd : forall d rest, drained o sent d rest -> drained o' sent d rest).
  { intros d rest [H1 H2 H3 H4]. split; rewrite ?Eb, ?Ec; done. }
  destruct t; cbn; rewrite ?Eb; naive_solver.
Qed.

(** A running drain knows the program and what is left of it. *)
Lemma draining_program o sent l :
  Forall (thread_ok o sent) l -> (0 < number draining_call l)%nat ->
  exists P rest, program P (sent ++ rest) /\ (o.(cancelled) = false -> o.(output_remaining) = len rest).
Proof using Type.
  induction 1 as [|t l Ht _ IH]; rewrite ?number_nil, ?number_cons; [lia|].
  destruct (draining_call t) eqn:Ed; [|by apply IH]. intros _.
  assert (exists d rest, drained o sent d rest) as (d&rest&[_ Hr _ Hleft]) by (destruct t; naive_solver).
  eexists _, _. split; [apply Hr|exact Hleft].
Qed.

Lemma served_close sh l k b sh' n :
  served sh (Close :: l) k -> cancel_batch_output sh = (b, sh') -> n = Returned (inl (Flag b)) ->
  served sh' (resume n l k).1 (resume n l k).2.
Proof using Type.
  intros HS Hc ->. unfold cancel_batch_output, cancel_output in Hc.
  destruct (prepared (batch_output sh)) eqn:Hp; cbn in Hc; [|injection Hc as <- <-; by eapply served_move].
  destruct (cancelled (batch_output sh)) eqn:Ec; cbn in Hc; [injection Hc as <- <-; by eapply served_move|].
  destruct (exhausted (batch_output sh)) eqn:Hx; cbn in Hc; [injection Hc as <- <-; by eapply served_move|].
  injection Hc as <- <-. destruct HS as [[_ Hl]%Forall_cons Ho Hn He].
  rewrite number_cons in Hn. unfold output_ok in Ho. rewrite Hp, Ec, Hx in Ho.
  destruct Ho as (?&?&?&Ho).
  split; cbn; unfold output_ok; cbn; rewrite ?batches_snoc, ?app_nil_r, ?Hp, ?Hx; try done.
  - eapply Forall_impl; [exact Hl|]. intros t. by apply thread_ok_cancelled.
  - split_and!; try done. destruct (draining (batch_output sh)).
    + destruct (draining_program _ _ _ Hl) as (P&rest&Hp'&_); [cbn in Hn; lia|eauto].
    + destruct Ho as [?|(s&rest&_&_&Hs&_)]; [done|]. eexists _, _. apply Hs.
  - intros edges [?|E%list_elem_of_singleton]%elem_of_app; [by apply He|done].
Qed.

(** ** Compiling *)

Lemma served_install sh r s chunks next_roles l k claimed :
  served sh (CompileCommit r s chunks next_roles :: l) k -> r.(coarse) = false ->
  sh.(batch_output).(prepared) = false ->
  let sh' := sh <| batch_output := install s r.(request_batch_edges) |> in
  served sh' (CompileRelease claimed (inl Iterator) :: l) k.
Proof using Type.
  intros [[[[_ Hsize] (rest&Hs&Hc)] Hl]%Forall_cons Ho Hn He] Er Hp. cbn. rewrite Er in Hc.
  rewrite number_cons in Hn. cbn in Hn. unfold output_ok in Ho. rewrite Hp in Ho.
  destruct Ho as [Eo Eb]. rewrite Eo in Hn. cbn in Hn.
  rewrite Hc in Hs. pose proof (stream_left _ _ _ Hs) as Hleft.
  split; cbn; [|unfold output_ok; cbn|by rewrite number_cons|done].
  - constructor; [done|]. by eapply threads_ok_frame.
  - rewrite Hleft, Eb. cbn. split_and!; [auto|by constructor|by intros ?%elem_of_nil|].
    destruct (N.eqb_spec (len rest) 0) as [Hz|Hz].
    + split; [done|]. rewrite (len_zero rest Hz) in Hs. eexists. apply Hs.
    + right. exists s, rest. split_and!; try done. by intros ->.
Qed.

Lemma served_commit sh r s chunks next_roles l k sh' n :
  served sh (CompileCommit r s chunks next_roles :: l) k ->
  sh.(batch_output).(prepared) = false ->
  compile_commit sh r s chunks next_roles = (sh', n) ->
  served sh' (resume n l k).1 (resume n l k).2.
Proof using Type.
  intros HS Hp E. unfold compile_commit in E.
  destruct (bool_decide _ && negb _); [injection E as <- <-; by eapply served_move|].
  destruct (bool_decide _ && roles_poisoned sh); [injection E as <- <-; by eapply served_move|].
  destruct (finish_result (inl ()) (state sh)) as [[[]|error] found];
    [|injection E as <- <-; by eapply served_move].
  destruct (coarse r) eqn:Er; injection E as <- <-.
  - eapply served_move; [done..|]. split; [done|]. cbn. rewrite Er.
    intros (_&rest&Hs&->). rewrite <- (app_nil_r (chunk_edges chunks)). eexists. apply Hs.
  - by apply (served_install (sh <| state := found |> <| roles := default (roles sh) next_roles |>)
      r s chunks next_roles l k (retained r)); [destruct HS|..].
Qed.

(** A failed compilation returns no edges. *)
Lemma served_fail sh claimed error l k n :
  served sh (CompileFail claimed error :: l) k ->
  forall result next, finish_result (inr error : PyResult Value) sh.(state) = (result, next) ->
  n = Goto (CompileRelease claimed result) ->
  served (sh <| state := next |>) (resume n l k).1 (resume n l k).2.
Proof using Type.
  intros HS result next E ->. eapply served_move; [done..|]. split; [done|].
  by apply finish_result_cases in E as [(_&->&_)|(_&_&e&->)].
Qed.

Context (direct : one_table compiler).

Lemma served_drain_prepare env sh d l k sh' n :
  served sh (DrainPrepare d :: l) k ->
  advance compiler env sh (DrainPrepare d) = Some (sh', n) ->
  served sh' (resume n l k).1 (resume n l k).2.
Proof using direct.
  intros HS E. advance_in E. rewrite drain_sources_eq, one_table_sources in E by done.
  apply bind_Some in E as (result&Eg&[= <- <-]).
  pose proof (served_draining _ _ _ _ HS eq_refl) as (_&_&Hpos&_).
  pose proof (served_threads _ _ _ HS) as [(rest&Hd) _]%Forall_cons.
  pose proof Hd as [Hrest Hs Hsize Hleft].
  destruct (stream_next _ _ _ (fuel env) (drain_batch_edges d) (loads env) (loaded env) Hs)
    as [Er|[Er|(edges&next&rest'&Er&->&Hlen&Hnext)]]; rewrite Er in *; cbn in Eg; simplify_eq.
  - eapply served_move; [done..|]. by split.
  - eapply served_move; [done..|]. split; [done|]. intros _. exists rest'.
    split_and!; try done; [|lia]. intros ->. cbn in Hlen. rewrite len_nil in Hlen.
    assert (Hz : len rest' = 0) by lia. by apply len_zero in Hz as ->.
Qed.

Lemma served_chunks env sh r sources s chunks l k sh' n :
  served sh (CompileChunks r sources s chunks :: l) k ->
  advance compiler env sh (CompileChunks r sources s chunks) = Some (sh', n) ->
  served sh' (resume n l k).1 (resume n l k).2.
Proof using direct.
  intros HS E. advance_in E.
  pose proof (served_threads _ _ _ HS) as [(Ha&->&Er&rest&Hs) _]%Forall_cons.
  destruct (N.eqb_spec (stream_remaining_edges s) 0) as [Hz|Hz].
  { injection E as <- <-. eapply served_move; [done..|]. split; [done|]. intros _. cbn.
    rewrite Er. rewrite (stream_left _ _ _ Hs) in Hz. rewrite (len_zero rest Hz) in Hs. eauto. }
  apply bind_Some in E as (result&Eg&[= <- <-]).
  destruct (stream_next _ _ _ (fuel env) COARSE_OUTPUT_CHUNK_EDGES (loads env) (loaded env) Hs)
    as [Ek|[Ek|(edges&next&rest'&Ek&->&Hlen&Hnext)]]; rewrite Ek in *; cbn in Eg; simplify_eq.
  - by eapply served_move.
  - destruct (raises env); [by eapply served_move|].
    destruct (checked_add _ 1); [|by eapply served_move].
    eapply served_move; [done..|]. split; [done|]. intros _. split_and!; [done..|]. by exists rest'.
Qed.

Lemma served_python env sh r s chunks l k sh' n :
  served sh (CompilePython r s chunks :: l) k ->
  advance compiler env sh (CompilePython r s chunks) = Some (sh', n) ->
  served sh' (resume n l k).1 (resume n l k).2.
Proof using direct.
  intros HS E. advance_in E.
  destruct (raises env); [injection E as <- <-; by eapply served_move|].
  destruct (_ && _); [|injection E as <- <-; by eapply served_move].
  apply bind_Some in E as ([]&_&[= <- <-]); by eapply served_move.
Qed.

Context (resident_columns : resident (base_table compiler)).
Context (roomy : 2 * len (base_table compiler).(scalar_bytes) + 8 <= usize_max).
Context (root_fits : forall root, root_document compiler = Some root -> root_count root <= usize_max).
Context (limited : forall r, allowed r -> r.(request_options).(max_edges) < usize_max).

(** A fresh preparation is a stream at the start of its program. *)
Lemma stream_start r roles obs k P :
  allowed r ->
  fst (prepare_direct (base_table compiler) (root_document compiler) r.(request_options) roles None None None obs k) = Ok P ->
  exists l, stream_at {| preparation := P; cursor := DirectEmissionCursor_default |} [] l.
Proof using All.
  intros Ha HP. pose proof HP as Hpost.
  apply (prepare_direct_post (base_table compiler) resident_columns roomy (root_document compiler) r.(request_options)
    roles None None root_fits) in Hpost as [V Hd (l&Hl&He&Hle)].
  pose proof (validated_root_room (base_table compiler)). specialize (limited r Ha).
  destruct (cursor_emits (base_table compiler) P Hd ltac:(lia) l Hl ltac:(lia)) as (c&E&Hi&Hp&_).
  exists l. split; cbn.
  - by exists r, roles, obs, k.
  - by eapply emits_paced.
  - unfold stream_remaining_edges, remaining_edges, saturating_sub. cbn. rewrite <- He. apply N.sub_0_r.
Qed.

Lemma served_prepare env sh r sources l k sh' n :
  served sh (CompilePrepare r sources :: l) k ->
  advance compiler env sh (CompilePrepare r sources) = Some (sh', n) ->
  served sh' (resume n l k).1 (resume n l k).2.
Proof using All.
  intros HS E. advance_in E.
  destruct (if coarse r then _ else _); [injection E as <- <-; by eapply served_move|].
  pose proof (served_threads _ _ _ HS) as [[Hasked ->] _]%Forall_cons.
  rewrite one_table_prepares in E by done.
  destruct (_ && _); [injection E as <- <-; by eapply served_move|].
  apply bind_Some in E as (result&Eg&[= <- <-]).
  eapply served_move; [exact HS|by repeat case_match|].
  destruct result as [P|error]; [|by split].
  match type of Eg with guarded ?o = _ => destruct o as [P'| | |] eqn:EP end; cbn in Eg; simplify_eq.
  apply stream_start in EP as [rest Hs]; [|apply Hasked].
  destruct (coarse r) eqn:Er; (split; [done|]); intros _; cbn; rewrite ?Er; split_and!; try done; by exists rest.
Qed.

(** Every section keeps the invariant. *)
Lemma served_advance env sh t l k sh' n :
  protocol sh (t :: l) k -> served sh (t :: l) k ->
  advance compiler env sh t = Some (sh', n) ->
  served sh' (resume n l k).1 (resume n l k).2.
Proof using All.
  intros HP HS E. destruct t;
    try first [by eapply served_drain_prepare | by eapply served_prepare
              | by eapply served_chunks | by eapply served_python].
  all: advance_in E; try (injection E as <- <-; by eapply served_move).
  - destruct (check_request r) as [u|error] eqn:Er; [|injection E as <- <-; by eapply served_move].
    rewrite one_table_sources in E by done.
    destruct (begin (state sh)) as [[u'|error] found]; injection E as <- <-; [|by eapply served_move].
    eapply served_move; [done..|]. split; [done|]. intros Ha. split; [|done]. split; [done|]. intros Ec Hz.
    unfold check_request in Er. rewrite Ec, Hz in Er. by repeat case_match.
  - destruct (retained r); [|injection E as <- <-; by eapply served_move].
    destruct (claim (in_use sh)) as [[u|error] claimed]; injection E as <- <-; by eapply served_move.
  - injection E as E. eapply served_commit; [done| |exact E].
    destruct (prepared (batch_output sh)) eqn:Hp; [|done].
    destruct (protocol_output _ _ _ HP Hp) as [Hn _]. by rewrite number_cons in Hn.
  - destruct (finish_result (inr error) (state sh)) as [result found] eqn:Ef. injection E as <- <-.
    by eapply served_fail.
  - injection E as <- <-. eapply served_move; [done|by destruct claimed|].
    pose proof (served_threads _ _ _ HS) as [Hr _]%Forall_cons.
    split; [done|]. split; [by destruct result as [[]|]|]. by intros H1 edges ->.
  - destruct (raises env); [injection E as <- <-; by eapply served_move|].
    destruct (drain_take _) as [result output] eqn:Ed. injection E as <- <-. by eapply served_drain_take.
  - destruct (drain_abort _ _ _) as [error' output] eqn:Ed. injection E as <- <-.
    by eapply served_drain_abort.
  - destruct (drain_commit _ _ _ _ _) as [result output] eqn:Ed. injection E as <- <-.
    by eapply served_drain_commit.
  - destruct (cancel_batch_output sh) as [b sh1] eqn:Ec. injection E as <- <-. by eapply served_close.
  - destruct (cancel_round _ _) as [[b|] found]; injection E as <- <-; by eapply served_move.
Qed.

(** ** Every interleaving *)

Lemma served_step c c' :
  protocol c.(shared) c.(threads) c.(returned) -> served c.(shared) c.(threads) c.(returned) ->
  config_step compiler allowed c c' -> served c'.(shared) c'.(threads) c'.(returned).
Proof using All.
  intros HP HS Hstep. revert HP HS.
  destruct Hstep as [c c' Hs|sh l k t Ht|sh sh' l k Hl Ho]; intros HP HS; cbn in *.
  - enough (protocol c'.(shared) c'.(threads) c'.(returned) /\
      served c'.(shared) c'.(threads) c'.(returned)) by naive_solver.
    refine (section_rule compiler
      (fun sh l k => protocol sh l k /\ served sh l k) c c' _ (conj HP HS) Hs); [intros ? l1 l2 El k1 k2 <-; by rewrite El|].
    intros env sh t l k sh' n [HP1 HS1] E.
    split; [by eapply protocol_advance|by eapply served_advance].
  - destruct HS as [H1 H2 H3 H4]. split; try done; [|by destruct t].
    constructor; [by destruct t|done].
  - destruct HS as [H1 H2 H3 H4]. by destruct Ho; split.
Qed.

Lemma reachable_served c :
  reachable compiler allowed c -> served c.(shared) c.(threads) c.(returned).
Proof using All.
  induction 1; [|eapply served_step; [by eapply reachable_protocol|done..]].
  split; cbn; try done. by intros ? ?%elem_of_nil.
Qed.
End served.

(** ** The contract *)

(** C3: However the calls of a compiler of one table and of the other users of its role state
    interleave, whatever Python raises and whenever it is cancelled, the batches
    returned are consecutive pieces of the batch program of one successful
    preparation: every edge once, in order, none longer than asked for, failed
    drains losing nothing; the empty batch is returned only after the last
    edge; the announced remainder is exact; and a coarse result is a whole
    program. *)
Theorem delivered_exactly_once `{LowercaseTable} `{Layout} compiler allowed c :
  one_table compiler -> resident (base_table compiler) ->
  2 * len (base_table compiler).(scalar_bytes) + 8 <= usize_max ->
  (forall root, root_document compiler = Some root -> root_count root <= usize_max) ->
  (forall r, allowed r -> r.(request_options).(max_edges) < usize_max) ->
  reachable compiler allowed c ->
  let output := c.(shared).(batch_output) in
  (forall edges, inl (Edges edges) ∈ c.(returned) ->
     exists P, program compiler allowed P edges) /\
  if output.(prepared) then
    exists P rest,
      program compiler allowed P (concat (batches c.(returned)) ++ rest) /\
      Forall (fun batch => len batch <= output.(batch_edges)) (batches c.(returned)) /\
      ([] ∈ batches c.(returned) -> rest = []) /\
      (output.(cancelled) = false -> remaining_batch_edges output = len rest)
  else batches c.(returned) = [].
Proof.
  intros Hone Hr Hs Hroot Hmax Hc%reachable_served; [|done..]. destruct Hc as [Ht Ho Hn He].
  cbn zeta. split; [done|]. unfold output_ok in Ho.
  destruct (prepared _) eqn:Ep; [|by destruct Ho]. destruct Ho as (_&Hsize&Hend&Ho).
  unfold remaining_batch_edges. rewrite Ep.
  destruct (cancelled _) eqn:Ec; [|destruct (exhausted _) eqn:Ex].
  - destruct Ho as (Ex&P&rest&Hp). exists P, rest. split_and!; try done.
    intros ?%Hend. congruence.
  - destruct Ho as (_&P&Hp). exists P, []. by rewrite app_nil_r.
  - cbn. enough (exists P rest, program compiler allowed P
      (concat (batches (returned c)) ++ rest) /\
      output_remaining (batch_output (shared c)) = len rest) as (P&rest&?&?).
    { exists P, rest. split_and!; try done. by intros ?%Hend. }
    destruct (draining (batch_output (shared c))).
    + destruct (draining_program _ _ _ _ _ Ht) as (P&rest&?&?); [lia|]. eauto.
    + destruct Ho as [?|(s&rest&_&_&Hs'&?)]; [done|]. eexists _, rest. split; [apply Hs'|done].
Qed.

(** ** Witnesses *)

(** The table of [ontology_sample], without overlay or root document. *)
Definition retained_table (c : DirectColumns) : RetainedBuffers :=
  list_to_vec [c.(root_kinds); c.(root_ids); c.(node_tags); c.(node_field_offsets); c.(field_kinds);
     c.(field_values); c.(field_lengths); c.(item_kinds); c.(item_values); c.(item_lengths); c.(scalar_bytes)].

Definition sample_compiler : EncodedDirectCompiler := {|
  compiler_buffers := retained_table ontology_sample; overlay_delta_buffers := None;
  third_member_buffers := None; fourth_member_buffers := None; nested_member_view := false;
  merge_manifest_view := false; composite_members := None; canonical_merge_limits := None;
  compiler_included := None; compiler_excluded := None; right_excluded := None; third_excluded := None;
  fourth_excluded := None; compiler_scope_map := None; right_scope_map := None;
  root_annotation_buffers := None |}.

Lemma sample_one_table : one_table sample_compiler.
Proof. done. Qed.

Lemma sample_base_table : base_table sample_compiler = ontology_sample.
Proof. by vm_compute. Qed.

Definition sample_request : Request := {|
  coarse := false; request_options := sample_options; request_batch_edges := 5; retained := true |}.

Definition sample_allowed (r : Request) : Prop := r.(request_options).(max_edges) < usize_max.

Definition sample_env (raised : option PyErr) : Env :=
  {| loads := quiet; loaded := 0; fuel := 60; raises := raised |}.

(** A compilation, a drain, a drain that Python fails, a third drain during
    which a fourth call is refused. *)
Definition sample_schedule : list Action :=
  let go := Run (sample_env None) in
  let fails := Run (sample_env (Some PythonError)) in
  [Call (CompileBegin sample_request); go 0; go 0; go 0; go 0; go 0; go 0;
   Call DrainTake; go 0; go 0; go 0; go 0;
   Call DrainTake; go 0; go 0; fails 0; go 0;
   Call DrainTake; go 0; Call DrainTake; go 0; go 0; go 0]%nat.

Definition sample_fresh : Config := Build_Config (fresh RoleState_default false) [] [].

Definition sample_config `{LowercaseTable} `{Layout} (schedule : list Action) : Config :=
  default sample_fresh (play sample_compiler schedule sample_fresh).

Lemma sample_reachable : let _ := ascii_lowercase in let _ := sample_layout in
  reachable sample_compiler sample_allowed (sample_config sample_schedule).
Proof.
  cbn zeta. unfold sample_config.
  destruct (play _ _ _) as [c|] eqn:E; [|constructor].
  eapply (@play_reachable ascii_lowercase sample_layout); [constructor| |exact E].
  by repeat constructor.
Qed.

Lemma delivered_exactly_once_witness : let _ := ascii_lowercase in let _ := sample_layout in
  let c := sample_config sample_schedule in
  len <$> batches c.(returned) = [5] /\ length c.(threads) = 1%nat /\
  exists P rest, program sample_compiler sample_allowed P (concat (batches c.(returned)) ++ rest) /\
    len rest = 9.
Proof.
  intros lower sizes c. split; [by vm_compute|]. split; [by vm_compute|].
  destruct (@delivered_exactly_once lower sizes sample_compiler sample_allowed c sample_one_table
    ltac:(rewrite sample_base_table; apply sample_resident) ltac:(by vm_compute) ltac:(done) ltac:(done) sample_reachable) as [_ Hc].
  assert (Ep : c.(shared).(batch_output).(prepared) = true) by (by vm_compute).
  rewrite Ep in Hc. destruct Hc as (P&rest&HP&_&_&Hrest). exists P, rest. split; [exact HP|].
  rewrite <- Hrest; by vm_compute.
Defined.

(** The drain in flight ends its preparation. *)
Lemma compiler_protocol_witness : let _ := ascii_lowercase in let _ := sample_layout in
  let c := sample_config sample_schedule in
  exists c', act sample_compiler c (Run (sample_env None) 0) = Some c' /\
    protocol c'.(shared) c'.(threads) c'.(returned) /\
    guarantee c.(shared) c'.(shared) (exists t, t ∈ c.(threads) /\ holder t = true).
Proof.
  intros lower sizes c. destruct (act _ c _) as [c'|] eqn:E; [|by vm_compute in E].
  exists c'. split; [done|].
  apply (@compiler_protocol lower sizes sample_compiler sample_allowed c c' sample_reachable).
  by eapply act_section.
Defined.
