(* ===== verification/Terms.v ===== *)
(** * The canonical encoding

    The reference encoding of an integer in groups of seven bits, the low group
    first, with the arithmetic of its length and of its groups.

    What the canonical merge compares: [encode] is the byte string of a node,
    the constructor tag followed by its fields, where a node carries the length
    of its own encoding in front.  [Term] is the structure a node stands for,
    whatever the numbers of its nodes; the canonical encoding of the node is the
    one of its term, and terms with the same encoding are equal. *)

From S2P Require Import Prelude Errors Partial Lists Tags Text Workspace Readers Columns Nodes Generic Search Budget.
From S2P Require Import Encode.
Local Open Scope string_scope.
Local Open Scope list_scope.
Local Open Scope N_scope.

Fixpoint groups (rounds : nat) (n : N) : bytes :=
  match rounds with
  | O => []
  | S rounds =>
      if n <? 128 then [byte_of_u8 n]
      else byte_of_u8 (N.lor (N.land n 0x7F) 0x80) :: groups rounds (N.shiftr n 7)
  end.

Definition leb128 (n : N) : bytes := groups (S (N.to_nat (N.size n))) n.

Lemma shiftr_7 n : N.shiftr n 7 = n / 128.
Proof. by rewrite N.shiftr_div_pow2. Qed.

Lemma groups_enough r r' n :
  n < 128 ^ N.of_nat (S r) -> n < 128 ^ N.of_nat (S r') -> groups (S r) n = groups (S r') n.
Proof.
  revert r' n. induction r as [|r IH]; intros [|r'] n; rewrite !Nat2N.inj_succ, !N.pow_succ_r';
    intros H1 H2; cbn [groups]; destruct (N.ltb_spec n 128); try done; [cbn in *; lia..|].
  f_equal. apply IH; rewrite shiftr_7, ?Nat2N.inj_succ, ?N.pow_succ_r'; apply N.Div0.div_lt_upper_bound; lia.
Qed.

Lemma size_bound n : n < 128 ^ N.of_nat (S (N.to_nat (N.size n))).
Proof.
  pose proof (N.size_gt n). eapply N.lt_le_trans; [done|].
  replace 128 with (2 ^ 7) by done. rewrite <- N.pow_mul_r. apply N.pow_le_mono_r; lia.
Qed.

Lemma size_small n : n < 128 -> N.size n <= 7.
Proof.
  intros Hn. destruct (N.eq_dec n 0) as [->|H0]; [done|]. rewrite N.size_log2 by done.
  apply N.le_succ_l, N.log2_lt_pow2; lia.
Qed.

Lemma size_large n : 128 <= n -> 8 <= N.size n.
Proof.
  intros Hn. rewrite N.size_log2 by lia. enough (7 <= N.log2 n) by lia.
  apply (N.log2_le_mono 128 n) in Hn. exact Hn.
Qed.

Lemma leb128_eq n :
  leb128 n = if n <? 128 then [byte_of_u8 n]
             else byte_of_u8 (N.lor (N.land n 0x7F) 0x80) :: leb128 (N.shiftr n 7).
Proof.
  unfold leb128 at 1. cbn [groups]. destruct (N.ltb_spec n 128) as [|Hn]; [done|]. f_equal.
  pose proof (size_bound n) as Hb. apply size_large in Hn.
  destruct (N.to_nat (N.size n)) as [|r] eqn:Er; [lia|]. unfold leb128.
  apply groups_enough; [|apply size_bound]. rewrite shiftr_7.
  apply N.Div0.div_lt_upper_bound. by rewrite Nat2N.inj_succ, N.pow_succ_r' in Hb.
Qed.

#[global] Arguments leb128 : simpl never.

Lemma leb128_not_nil n : leb128 n <> [].
Proof. rewrite leb128_eq. by destruct (_ <? _). Qed.

(** ** Length *)

Lemma size_shiftr n k : N.size (N.shiftr n k) = N.size n - k.
Proof.
  destruct (N.eq_dec n 0) as [->|Hn]; [by rewrite N.shiftr_0_l|].
  destruct (N.eq_dec (N.shiftr n k) 0) as [E|E].
  - rewrite E. rewrite N.shiftr_div_pow2 in E. apply N.div_small_iff in E; [|by apply N.pow_nonzero].
    enough (N.size n <= k) by (cbn; lia). rewrite N.size_log2 by done.
    apply N.le_succ_l, N.log2_lt_pow2; lia.
  - rewrite !N.size_log2 by done. rewrite N.log2_shiftr.
    assert (k <= N.log2 n); [|lia].
    destruct (N.le_gt_cases k (N.log2 n)); [done|].
    exfalso. apply E. rewrite N.shiftr_div_pow2. apply N.div_small. apply N.log2_lt_pow2; lia.
Qed.

(** One group per seven bits, and one for zero. *)
Lemma len_leb128 n : len (leb128 n) = N.max 1 ((N.size n + 6) / 7).
Proof.
  induction n as [n IH] using (well_founded_induction N.lt_wf_0).
  rewrite leb128_eq. destruct (N.ltb_spec n 128) as [Hn|Hn].
  - apply size_small in Hn. change (len [byte_of_u8 n]) with 1.
    assert ((N.size n + 6) / 7 < 2) by (apply N.Div0.div_lt_upper_bound; lia). lia.
  - rewrite len_cons, IH by (rewrite shiftr_7; apply N.div_lt; lia).
    rewrite size_shiftr. apply size_large in Hn.
    replace (N.size n + 6) with (N.size n - 7 + 6 + 1 * 7) by lia.
    rewrite N.div_add by done.
    assert (1 <= (N.size n - 7 + 6) / 7) by (apply N.div_le_lower_bound; lia). lia.
Qed.

(** ** Groups *)

Lemma drop_leb128 n j : (j < length (leb128 n))%nat ->
  drop j (leb128 n) = leb128 (N.shiftr n (7 * N.of_nat j)).
Proof.
  revert n. induction j as [|j IH]; intros n Hj.
  - by rewrite N.mul_0_r, N.shiftr_0_r.
  - rewrite (leb128_eq n) in Hj |- *. destruct (n <? 128); cbn in Hj; [lia|]. cbn [drop]. rewrite IH by lia.
    f_equal. rewrite N.shiftr_shiftr. f_equal. lia.
Qed.

(** The group at a position, and whether another follows. *)
Lemma leb128_group n j : (j < length (leb128 n))%nat ->
  let shifted := N.shiftr n (7 * N.of_nat j) in
  drop j (leb128 n) =
  byte_of_u8 (N.lor (N.land shifted 0x7F) (if decide (S j = length (leb128 n)) then 0 else 0x80))
    :: drop (S j) (leb128 n).
Proof.
  intros Hj. cbn zeta. set (m := N.shiftr n (7 * N.of_nat j)).
  assert (E : drop j (leb128 n) = leb128 m) by (by apply drop_leb128).
  assert (El : length (leb128 m) = (length (leb128 n) - j)%nat) by (by rewrite <- E, length_drop).
  replace (drop (S j) (leb128 n)) with (drop 1 (leb128 m)) by (rewrite <- E, drop_drop; f_equal; lia).
  rewrite E. rewrite (leb128_eq m) in El |- *. destruct (N.ltb_spec m 128) as [Hm|Hm]; cbn in El |- *.
  - rewrite decide_True by lia. rewrite N.lor_0_r.
    change 127 with (N.ones 7). rewrite N.land_ones, N.mod_small by done. done.
  - rewrite decide_False; [by rewrite drop_0|]. pose proof (leb128_not_nil (N.shiftr m 7)).
    destruct (leb128 (N.shiftr m 7)); [done|]. cbn in El. lia.
Qed.

(** The array of [compare_canonical_varints] is long enough for a [usize]. *)
Lemma encode_varint_eq slots n :
  encode_varint (S slots) n =
  if N.shiftr n 7 =? 0 then Ok [byte_of_u8 (N.land n 0x7F)]
  else tail ← encode_varint slots (N.shiftr n 7); Ok (byte_of_u8 (N.lor (N.land n 0x7F) 0x80) :: tail).
Proof. done. Qed.

Lemma encode_varint_leb128 slots n :
  n < 128 ^ N.of_nat (S slots) -> encode_varint (S slots) n = Ok (leb128 n).
Proof.
  revert n. induction slots as [|slots IH]; intros n Hn; rewrite leb128_eq, encode_varint_eq.
  all: destruct (N.ltb_spec n 128) as [Hs|Hs];
    [rewrite shiftr_7, N.div_small by done; cbn; change 127 with (N.ones 7);
     by rewrite N.land_ones, N.mod_small|].
  - change (n < 128) in Hn. lia.
  - assert (1 <= N.shiftr n 7) by (rewrite shiftr_7; by apply N.div_le_lower_bound; [|lia]).
    destruct (N.eqb_spec (N.shiftr n 7) 0); [lia|].
    rewrite IH; [done|]. rewrite shiftr_7. apply N.Div0.div_lt_upper_bound.
    by rewrite Nat2N.inj_succ, N.pow_succ_r' in Hn.
Qed.

Lemma encode_varint_usize n : n <= usize_max -> encode_varint 10 n = Ok (leb128 n).
Proof. intros Hn. apply encode_varint_leb128. eapply N.le_lt_trans; [done|]. done. Qed.

(** ** The encoding *)

(** A string behind its length. *)
Definition marked (bs : bytes) : bytes := leb128 (len bs) ++ bs.

Section encoding.
Context (columns : DirectColumns).

(** The component a field or an item holds. *)
Definition component_read (index : usize) (item : bool) : outcome (u8 * usize * usize) :=
  if item then
    kind ← ok_or (get columns.(item_kinds) index)
      (malformed "encoded canonical item index is out of range");
    value ← read_usize columns.(item_values) index "item_values";
    length ← read_usize columns.(item_lengths) index "item_lengths";
    Ok (u8_of_byte kind, value, length)
  else
    kind ← field_kind columns index;
    value ← field_value columns index;
    length ← field_length columns index;
    Ok (kind, value, length).

Definition component_of (kind : u8) (value length : usize) : outcome CanonicalComponent :=
  if kind =? COMPONENT_NONE then Ok ComponentNone
  else if kind =? COMPONENT_NODE then Ok (ComponentNode value)
  else if kind =? COMPONENT_INTEGER then
    payload ← scalar_range columns value length; Ok (ComponentInteger payload)
  else if (kind =? COMPONENT_SET) || (kind =? COMPONENT_SEQUENCE) then
    Ok (Collection kind value length)
  else payload ← scalar_range columns value length; Ok (Scalar kind payload).

Definition component_at (index : usize) (item : bool) : outcome CanonicalComponent :=
  '(kind, value, length) ← component_read index item; component_of kind value length.

(** The scope of an anonymous individual is encoded after the maps. *)
Definition rescoped (component : CanonicalComponent) : CanonicalComponent :=
  match component with
  | Scalar kind value =>
      Scalar kind (match remap_anonymous_scope columns value with Ok scope => scope | _ => value end)
  | component => component
  end.

Section node.
Context (node_bytes : usize -> outcome bytes).

Definition leaf_bytes (component : CanonicalComponent) : outcome bytes :=
  match component with
  | ComponentNone => Ok [byte_of_u8 COMPONENT_NONE]
  | ComponentNode node_id =>
      bs ← node_bytes node_id; Ok (byte_of_u8 COMPONENT_NODE :: marked bs)
  | Scalar kind value => Ok (byte_of_u8 kind :: marked value)
  | ComponentInteger value => Ok (byte_of_u8 COMPONENT_INTEGER :: leb128 (from_le_bytes value))
  | Collection _ _ _ => OutOfFuel
  end.

(** A set lists nodes, without their kinds. *)
Definition item_bytes (kind : u8) (index : usize) : outcome bytes :=
  item ← component_at index true;
  if kind =? COMPONENT_SET then
    match item with
    | ComponentNode node_id => bs ← node_bytes node_id; Ok (marked bs)
    | _ => OutOfFuel
    end
  else leaf_bytes item.

Definition component_bytes (component : CanonicalComponent) : outcome bytes :=
  match component with
  | Collection kind start length =>
      items ← concatM (item_bytes kind) (range start (start + length));
      Ok (byte_of_u8 kind :: leb128 length ++ items)
  | component => leaf_bytes component
  end.

Definition field_bytes (scope : bool) (index : usize) : outcome bytes :=
  component ← component_at index false;
  component_bytes (if scope then rescoped component else component).

Definition constructor_bytes (node_id : usize) : outcome bytes :=
  tag ← node_tag columns node_id;
  '(start, end_) ← field_range columns node_id;
  fields ← concatM (fun index => field_bytes ((tag =? TAG_ANONYMOUS_INDIVIDUAL) && (index =? start)) index)
    (range start end_);
  Ok (leb128 tag ++ fields).
End node.

(** The depth of the node is the fuel. *)
Fixpoint encode (fuel : nat) : usize -> outcome bytes :=
  match fuel with
  | O => fun _ => OutOfFuel
  | S fuel => constructor_bytes (encode fuel)
  end.

(** ** More depth *)

Section more.
Context (f g : usize -> outcome bytes) (Hfg : forall n bs, f n = Ok bs -> g n = Ok bs).

Lemma leaf_bytes_mono c bs : leaf_bytes f c = Ok bs -> leaf_bytes g c = Ok bs.
Proof using Hfg.
  destruct c; cbn; try done. intros (b&Hb%Hfg&[= <-])%bind_Ok. by rewrite Hb.
Qed.

Lemma item_bytes_mono kind i bs : item_bytes f kind i = Ok bs -> item_bytes g kind i = Ok bs.
Proof using Hfg.
  unfold item_bytes. intros (c&->&H)%bind_Ok. cbn. revert H. destruct (kind =? COMPONENT_SET).
  - destruct c; try done. intros (b&Hb%Hfg&[= <-])%bind_Ok. by rewrite Hb.
  - apply leaf_bytes_mono.
Qed.

Lemma component_bytes_mono c bs : component_bytes f c = Ok bs -> component_bytes g c = Ok bs.
Proof using Hfg.
  destruct c as [| | | |kind start length]; try apply leaf_bytes_mono. unfold component_bytes.
  intros (items&Hi&[= <-])%bind_Ok.
  by rewrite (concatM_mono _ (item_bytes g kind) _ items (fun j part _ => item_bytes_mono kind j part) Hi).
Qed.

Lemma field_bytes_mono scope i bs : field_bytes f scope i = Ok bs -> field_bytes g scope i = Ok bs.
Proof using Hfg. unfold field_bytes. intros (c&->&H)%bind_Ok. by apply component_bytes_mono. Qed.

Lemma constructor_bytes_mono n bs : constructor_bytes f n = Ok bs -> constructor_bytes g n = Ok bs.
Proof using Hfg.
  unfold constructor_bytes. intros (tag&->&H)%bind_Ok. apply bind_Ok in H as ([s e]&->&H).
  apply bind_Ok in H as (fields&Hc&[= <-]). cbn [mbind outcome_bind].
  eapply concatM_mono in Hc; [by rewrite Hc|]. intros j part _. apply field_bytes_mono.
Qed.
End more.

Lemma encode_S fuel n bs : encode fuel n = Ok bs -> encode (S fuel) n = Ok bs.
Proof using Type.
  revert n bs. induction fuel as [|fuel IH]; intros n bs; [done|]. by apply constructor_bytes_mono.
Qed.

Lemma encode_le fuel fuel' n bs : (fuel <= fuel')%nat -> encode fuel n = Ok bs -> encode fuel' n = Ok bs.
Proof using Type. induction 1 as [|fuel' _ IH]; [done|]. intros H. by apply encode_S, IH. Qed.

(** Where the depth suffices the encoding satisfies its equation. *)
Lemma encode_eq fuel n bs : encode fuel n = Ok bs -> constructor_bytes (encode fuel) n = Ok bs.
Proof using Type. apply encode_S. Qed.

Definition encodes (n : usize) (bs : bytes) : Prop := exists fuel, encode fuel n = Ok bs.

Lemma encodes_inj n bs bs' : encodes n bs -> encodes n bs' -> bs = bs'.
Proof using Type.
  intros [f H] [f' H']. apply (encode_le _ (f + f')) in H; [|lia]. apply (encode_le _ (f + f')) in H'; [|lia].
  congruence.
Qed.
End encoding.

Inductive Term :=
  | TermNone
  | TermNode (tag : u16) (fields : list Term)
  | TermScalar (kind : u8) (value : bytes)
  | TermInteger (value : N)
  | TermSet (members : list Term)
  | TermSequence (items : list Term).

(** The induction that reaches the terms of lists. *)
Section induction.
Context (P : Term -> Prop).
Context (none : P TermNone) (node : forall tag fields, Forall P fields -> P (TermNode tag fields)).
Context (scalar : forall kind value, P (TermScalar kind value)) (integer : forall value, P (TermInteger value)).
Context (set : forall members, Forall P members -> P (TermSet members)).
Context (sequence : forall items, Forall P items -> P (TermSequence items)).

Fixpoint Term_nested (t : Term) : P t :=
  let all := fix all (l : list Term) : Forall P l :=
    match l with [] => Forall_nil_2 P | t :: l => Forall_cons_2 P t l (Term_nested t) (all l) end in
  match t with
  | TermNone => none
  | TermNode tag fields => node tag fields (all fields)
  | TermScalar kind value => scalar kind value
  | TermInteger value => integer value
  | TermSet members => set members (all members)
  | TermSequence items => sequence items (all items)
  end.
End induction.

(** ** The encoding of terms *)

(** As a component; a node stands behind its length. *)
Fixpoint term_bytes (t : Term) : bytes :=
  match t with
  | TermNone => [byte_of_u8 COMPONENT_NONE]
  | TermNode tag fields =>
      byte_of_u8 COMPONENT_NODE :: marked (leb128 tag ++ concat (term_bytes <$> fields))
  | TermScalar kind value => byte_of_u8 kind :: marked value
  | TermInteger value => byte_of_u8 COMPONENT_INTEGER :: leb128 value
  | TermSet members =>
      byte_of_u8 COMPONENT_SET :: leb128 (len members) ++ concat ((fun t => drop 1 (term_bytes t)) <$> members)
  | TermSequence items =>
      byte_of_u8 COMPONENT_SEQUENCE :: leb128 (len items) ++ concat (term_bytes <$> items)
  end.

(** As a node of a table. *)
Definition node_bytes (t : Term) : bytes :=
  match t with
  | TermNode tag fields => leb128 tag ++ concat (term_bytes <$> fields)
  | _ => []
  end.

(** The kinds that are no scalar. *)
Definition structural (kind : u8) : bool :=
  (kind =? COMPONENT_NONE) || (kind =? COMPONENT_NODE) || (kind =? COMPONENT_INTEGER)
  || (kind =? COMPONENT_SET) || (kind =? COMPONENT_SEQUENCE).

Definition is_node (t : Term) : Prop := match t with TermNode _ _ => True | _ => False end.

Inductive proper : Term -> Prop :=
  | proper_none : proper TermNone
  | proper_node tag fields : Forall proper fields -> proper (TermNode tag fields)
  | proper_scalar kind value : kind < 256 -> structural kind = false -> proper (TermScalar kind value)
  | proper_integer value : proper (TermInteger value)
  | proper_set members : Forall (fun t => proper t /\ is_node t) members -> proper (TermSet members)
  | proper_sequence items : Forall proper items -> proper (TermSequence items).

(** ** Unique decoding *)

Lemma byte_of_u8_inj a b : a < 256 -> b < 256 -> byte_of_u8 a = byte_of_u8 b -> a = b.
Proof.
  intros Ha Hb E. apply (f_equal u8_of_byte) in E. rewrite !u8_of_byte_of_u8, !N.mod_small in E by done. done.
Qed.

Lemma continued_byte a : u8_of_byte (byte_of_u8 (N.lor (N.land a 0x7F) 0x80)) = a mod 128 + 128.
Proof.
  rewrite u8_of_byte_of_u8. pose proof (N.mod_lt a 128 ltac:(done)) as Hlt.
  change 127 with (N.ones 7). assert (H0 : N.land (N.land a (N.ones 7)) 128 = 0).
  { rewrite <- N.land_assoc. apply N.land_0_r. }
  rewrite <- N.lxor_lor, <- N.add_nocarry_lxor by exact H0. rewrite N.land_ones. change (2 ^ 7) with 128.
  apply N.mod_small. lia.
Qed.

(** No encoding of an integer starts another. *)
Lemma leb128_prefix n m r r' : leb128 n ++ r = leb128 m ++ r' -> n = m /\ r = r'.
Proof.
  revert m. induction n as [n IH] using (well_founded_induction N.lt_wf_0). intros m.
  rewrite (leb128_eq n), (leb128_eq m).
  destruct (N.ltb_spec n 128) as [Hn|Hn], (N.ltb_spec m 128) as [Hm|Hm]; cbn [app]; intros [= Hb Hr].
  - split; [|done]. apply byte_of_u8_inj in Hb; lia.
  - apply (f_equal u8_of_byte) in Hb. rewrite continued_byte, u8_of_byte_of_u8, (N.mod_small n) in Hb by lia.
    revert Hb. generalize (m mod 128). lia.
  - apply (f_equal u8_of_byte) in Hb. rewrite continued_byte, u8_of_byte_of_u8, (N.mod_small m) in Hb by lia.
    revert Hb. generalize (n mod 128). lia.
  - apply (f_equal u8_of_byte) in Hb. rewrite !continued_byte in Hb. rewrite !shiftr_7 in Hr.
    apply IH in Hr as [Hq ->]; [|apply N.div_lt; lia]. split; [|done].
    rewrite (N.div_mod n 128), (N.div_mod m 128) by done. lia.
Qed.

Lemma marked_prefix a b r r' : marked a ++ r = marked b ++ r' -> a = b /\ r = r'.
Proof.
  unfold marked. rewrite <- !app_assoc. intros [Hl H]%leb128_prefix. apply app_inj_1; [|done].
  unfold len in Hl. lia.
Qed.

(** Terms that decode uniquely in front of anything. *)
Definition unique (t : Term) : Prop := forall t' r r', proper t -> proper t' ->
  term_bytes t ++ r = term_bytes t' ++ r' -> t = t' /\ r = r'.

Lemma term_bytes_cons t : exists b rest, term_bytes t = b :: rest.
Proof. destruct t; cbn; eauto. Qed.

(** A list of terms that ends with the bytes. *)
Lemma unique_all l l' : Forall unique l -> Forall proper l -> Forall proper l' ->
  concat (term_bytes <$> l) = concat (term_bytes <$> l') -> l = l'.
Proof.
  intros Hu. revert l'. induction Hu as [|t l Ht _ IH]; intros [|t' l'] Hp Hp' E; [done|..].
  - cbn in E. by destruct (term_bytes_cons t') as (b&rest&Hb); rewrite Hb in E.
  - cbn in E. by destruct (term_bytes_cons t) as (b&rest&Hb); rewrite Hb in E.
  - cbn in E. apply Forall_cons in Hp as [Hp1 Hp2], Hp' as [Hp1' Hp2'].
    apply Ht in E as [<- E]; [|done..]. f_equal. by apply IH.
Qed.

(** A list of terms of a known length. *)
Lemma unique_items l l' r r' : Forall unique l -> Forall proper l -> Forall proper l' -> len l = len l' ->
  concat (term_bytes <$> l) ++ r = concat (term_bytes <$> l') ++ r' -> l = l' /\ r = r'.
Proof.
  intros Hu. revert l'. induction Hu as [|t l Ht _ IH]; intros [|t' l'] Hp Hp' Hl E; [done|done|done|].
  cbn in E. rewrite <- !app_assoc in E. apply Forall_cons in Hp as [Hp1 Hp2], Hp' as [Hp1' Hp2'].
  rewrite !len_cons in Hl. apply Ht in E as [<- E]; [|done..]. apply IH in E as [<- <-]; [done|done|done|lia].
Qed.

(** The members of a set are nodes, whose kind is left out. *)
Lemma unique_members l l' r r' : Forall unique l -> Forall (fun t => proper t /\ is_node t) l ->
  Forall (fun t => proper t /\ is_node t) l' -> len l = len l' ->
  concat ((fun t => drop 1 (term_bytes t)) <$> l) ++ r =
  concat ((fun t => drop 1 (term_bytes t)) <$> l') ++ r' -> l = l' /\ r = r'.
Proof.
  intros Hu. revert l'. induction Hu as [|t l Ht _ IH]; intros [|t' l'] Hp Hp' Hl E; [done|done|done|].
  cbn [fmap list_fmap concat] in E. rewrite <- !app_assoc in E.
  apply Forall_cons in Hp as [[Hp1 Hn] Hp2], Hp' as [[Hp1' Hn'] Hp2']. rewrite !len_cons in Hl.
  destruct t as [|tag fields| | | |], t' as [|tag' fields'| | | |]; try done.
  apply (f_equal (cons (byte_of_u8 COMPONENT_NODE))) in E. cbn [term_bytes drop] in E.
  apply (Ht (TermNode tag' fields')) in E as [<- E]; [|done..].
  apply IH in E as [<- <-]; [done|done|done|lia].
Qed.

(** A first byte that is the kind of a component. *)
Lemma kind_byte kind b rest rest' : kind < 256 -> b < 256 ->
  byte_of_u8 kind :: rest = byte_of_u8 b :: rest' -> kind = b /\ rest = rest'.
Proof. intros Hk Hb [= E ->]. split; [by apply byte_of_u8_inj|done]. Qed.

Lemma term_unique t : unique t.
Proof.
  induction t as [|tag fields IH|kind value|value|members IH|items IH] using Term_nested;
    intros t' r r' Hp Hp' E; destruct t' as [|tag' fields'|kind' value'|value'|members'|items'];
    cbn [term_bytes app] in E.
  all: inversion Hp; inversion Hp'; subst.
  all: apply kind_byte in E as [Hk E]; [|done..].
  all: try discriminate Hk.
  all: try (subst; discriminate).
  - done.
  - apply marked_prefix in E as [E ->]. apply leb128_prefix in E as [-> E]. split; [|done].
    f_equal. by apply unique_all.
  - apply marked_prefix in E as [-> ->]. by subst.
  - by apply leb128_prefix in E as [-> ->].
  - rewrite <- !app_assoc in E. apply leb128_prefix in E as [Hl E]. apply unique_members in E as [-> ->]; done.
  - rewrite <- !app_assoc in E. apply leb128_prefix in E as [Hl E]. apply unique_items in E as [-> ->]; done.
Qed.

(** Nodes with the same encoding are the same term. *)
Lemma node_bytes_inj t t' : proper t -> proper t' -> is_node t -> is_node t' ->
  node_bytes t = node_bytes t' -> t = t'.
Proof.
  destruct t as [|tag fields| | | |], t' as [|tag' fields'| | | |]; try done. cbn. intros Hp Hp' _ _ E.
  inversion Hp; inversion Hp'; subst. apply leb128_prefix in E as [-> E]. f_equal. apply unique_all; [|done..].
  apply Forall_true. intros t. apply term_unique.
Qed.

(** ** The term of a node *)

Fixpoint mapO {A B} (f : A -> outcome B) (l : list A) : outcome (list B) :=
  match l with
  | [] => Ok []
  | x :: l => y ← f x; k ← mapO f l; Ok (y :: k)
  end.

Lemma concatM_mapO {A B C} (f : A -> outcome (list C)) (g : A -> outcome B) (h : B -> list C) l :
  (forall x, x ∈ l -> f x = map_ok h (g x)) -> concatM f l = map_ok (fun k => concat (h <$> k)) (mapO g l).
Proof.
  induction l as [|x l IH]; intros Hf; [done|]. rewrite concatM_cons, Hf, IH by set_solver. cbn [mapO].
  unfold map_ok. destruct (g x); cbn; try done. by destruct (mapO g l).
Qed.

Lemma mapO_Forall {A B} (f : A -> outcome B) (P : B -> Prop) l k :
  (forall x y, x ∈ l -> f x = Ok y -> P y) -> mapO f l = Ok k -> Forall P k.
Proof.
  revert k. induction l as [|x l IH]; intros k Hf; cbn [mapO]; [intros [= <-]; constructor|].
  intros (y&Hy&H)%bind_Ok. apply bind_Ok in H as (k'&Hk&[= <-]).
  constructor; [apply (Hf x); [by left|done]|]. apply IH; [|done]. intros a b Ha. apply Hf. by right.
Qed.

Lemma mapO_length {A B} (f : A -> outcome B) l k : mapO f l = Ok k -> length k = length l.
Proof.
  revert k. induction l as [|x l IH]; intros k; cbn [mapO]; [by intros [= <-]|].
  intros (y&Hy&H)%bind_Ok. apply bind_Ok in H as (k'&Hk&[= <-]). cbn. f_equal. by apply IH.
Qed.

Section term.
Context (columns : DirectColumns).

Section node.
Context (child : usize -> outcome Term).

Definition leaf_term (component : CanonicalComponent) : outcome Term :=
  match component with
  | ComponentNone => Ok TermNone
  | ComponentNode node_id => child node_id
  | Scalar kind value => Ok (TermScalar kind value)
  | ComponentInteger value => Ok (TermInteger (from_le_bytes value))
  | Collection _ _ _ => OutOfFuel
  end.

Definition item_term (kind : u8) (index : usize) : outcome Term :=
  item ← component_at columns index true;
  if kind =? COMPONENT_SET then
    match item with ComponentNode node_id => child node_id | _ => OutOfFuel end
  else leaf_term item.

Definition component_term (component : CanonicalComponent) : outcome Term :=
  match component with
  | Collection kind start length =>
      items ← mapO (item_term kind) (range start (start + length));
      Ok (if kind =? COMPONENT_SET then TermSet items else TermSequence items)
  | component => leaf_term component
  end.

Definition field_term (scope : bool) (index : usize) : outcome Term :=
  component ← component_at columns index false;
  component_term (if scope then rescoped columns component else component).

Definition constructor_term (node_id : usize) : outcome Term :=
  tag ← node_tag columns node_id;
  '(start, end_) ← field_range columns node_id;
  fields ← mapO (fun index => field_term ((tag =? TAG_ANONYMOUS_INDIVIDUAL) && (index =? start)) index)
    (range start end_);
  Ok (TermNode tag fields).
End node.

Fixpoint term_of (fuel : nat) : usize -> outcome Term :=
  match fuel with
  | O => fun _ => OutOfFuel
  | S fuel => constructor_term (term_of fuel)
  end.

(** The node stands for the term. *)
Definition denotes (n : usize) (t : Term) : Prop := exists fuel, term_of fuel n = Ok t.

(** What the reader of a component leaves. *)
Definition readable_kind (component : CanonicalComponent) : Prop :=
  match component with
  | Scalar kind _ => kind < 256 /\ structural kind = false
  | Collection kind _ _ => kind = COMPONENT_SET \/ kind = COMPONENT_SEQUENCE
  | _ => True
  end.

Lemma component_at_kind i item c : component_at columns i item = Ok c -> readable_kind c.
Proof using Type.
  unfold component_at. intros ([[kind value] length]&Hr&H)%bind_Ok.
  assert (Hk : kind < 256).
  { unfold component_read in Hr. destruct item.
    - apply bind_Ok in Hr as (b&_&Hr). apply bind_Ok in Hr as (?&_&Hr). apply bind_Ok in Hr as (?&_&Hr).
      injection Hr as <- _ _. apply u8_of_byte_bound.
    - apply bind_Ok in Hr as (b&Hb&Hr). apply bind_Ok in Hr as (?&_&Hr). apply bind_Ok in Hr as (?&_&Hr).
      injection Hr as <- _ _. unfold field_kind in Hb. apply map_ok_Ok in Hb as (?&_&->). apply u8_of_byte_bound. }
  revert H. unfold component_of.
  destruct (kind =? COMPONENT_NONE) eqn:E1; [by intros [= <-]|].
  destruct (kind =? COMPONENT_NODE) eqn:E2; [by intros [= <-]|].
  destruct (kind =? COMPONENT_INTEGER) eqn:E3; [by intros (?&_&[= <-])%bind_Ok|].
  destruct (kind =? COMPONENT_SET) eqn:E4; [intros [= <-]; left; by apply N.eqb_eq|].
  destruct (kind =? COMPONENT_SEQUENCE) eqn:E5; [intros [= <-]; right; by apply N.eqb_eq|].
  intros (payload&_&[= <-])%bind_Ok. split; [done|]. unfold structural. by rewrite E1, E2, E3, E4, E5.
Qed.

Lemma rescoped_kind c : readable_kind c -> readable_kind (rescoped columns c).
Proof using Type. by destruct c. Qed.

Section child.
Context (child : usize -> outcome Term) (bytes_of : usize -> outcome bytes).
Context (child_bytes : forall n, bytes_of n = map_ok node_bytes (child n)).
Context (child_ok : forall n t, child n = Ok t -> proper t /\ is_node t).

Lemma node_term_bytes t : is_node t -> term_bytes t = byte_of_u8 COMPONENT_NODE :: marked (node_bytes t).
Proof using Type. by destruct t. Qed.

Lemma leaf_bytes_term c : leaf_bytes bytes_of c = map_ok term_bytes (leaf_term child c).
Proof using child_bytes child_ok.
  destruct c as [|n| | |]; try done. cbn. rewrite child_bytes. unfold map_ok.
  destruct (child n) as [t| | |] eqn:E; try done. cbn. apply child_ok in E as [_ Ht]. by rewrite node_term_bytes.
Qed.

Lemma item_bytes_term kind i :
  item_bytes columns bytes_of kind i =
  map_ok (fun t => if kind =? COMPONENT_SET then drop 1 (term_bytes t) else term_bytes t) (item_term child kind i).
Proof using child_bytes child_ok.
  unfold item_bytes, item_term. destruct (component_at columns i true) as [c| | |]; try done.
  cbn [mbind outcome_bind]. destruct (kind =? COMPONENT_SET); [|apply leaf_bytes_term].
  destruct c as [|n| | |]; try done. rewrite child_bytes. unfold map_ok.
  destruct (child n) as [t| | |] eqn:E; try done. cbn. apply child_ok in E as [_ Ht]. by rewrite node_term_bytes.
Qed.

Lemma component_bytes_term c : readable_kind c ->
  component_bytes columns bytes_of c = map_ok term_bytes (component_term child c).
Proof using child_bytes child_ok.
  destruct c as [| | | |kind start length]; try (intros _; apply leaf_bytes_term). intros Hk.
  unfold component_bytes, component_term.
  rewrite (concatM_mapO _ (item_term child kind)
    (fun t => if kind =? COMPONENT_SET then drop 1 (term_bytes t) else term_bytes t))
    by (intros i _; apply item_bytes_term).
  destruct (mapO _ _) as [items| | |] eqn:E; try done. apply mapO_length in E. rewrite length_range in E.
  assert (Hl : length = len items) by (unfold len; lia). cbn [map_ok mbind outcome_bind]. rewrite Hl.
  by destruct Hk as [->| ->].
Qed.

Lemma leaf_term_proper c t : readable_kind c -> leaf_term child c = Ok t -> proper t.
Proof using child_ok.
  destruct c as [|n|kind v|v|]; cbn; intros Hk H; try done.
  - injection H as <-. constructor.
  - by apply child_ok in H as [? _].
  - injection H as <-. apply proper_scalar; apply Hk.
  - injection H as <-. constructor.
Qed.

Lemma component_term_proper c t : readable_kind c -> component_term child c = Ok t -> proper t.
Proof using child_ok.
  destruct c as [| | | |kind start length]; try apply leaf_term_proper. unfold component_term.
  intros Hk (items&Hi&[= <-])%bind_Ok. destruct (kind =? COMPONENT_SET) eqn:E; constructor;
    eapply mapO_Forall; try exact Hi; intros i u _; unfold item_term; rewrite E;
    intros (c&Hc&H)%bind_Ok.
  - destruct c as [|n| | |]; try done. by apply (child_ok n).
  - apply component_at_kind in Hc. by eapply leaf_term_proper.
Qed.

Lemma constructor_bytes_term n : constructor_bytes columns bytes_of n = map_ok node_bytes (constructor_term child n).
Proof using child_bytes child_ok.
  unfold constructor_bytes, constructor_term. destruct (node_tag columns n) as [tag| | |]; try done.
  cbn [mbind outcome_bind]. destruct (field_range columns n) as [[start end_]| | |]; try done.
  cbn [mbind outcome_bind].
  rewrite (concatM_mapO _ (fun i => field_term child ((tag =? TAG_ANONYMOUS_INDIVIDUAL) && (i =? start)) i) term_bytes).
  - by destruct (mapO _ _).
  - intros i _. unfold field_bytes, field_term. destruct (component_at columns i false) as [c| | |] eqn:E; try done.
    apply component_at_kind in E. apply component_bytes_term. case_match; [by apply rescoped_kind|done].
Qed.

Lemma constructor_term_proper n t : constructor_term child n = Ok t -> proper t /\ is_node t.
Proof using child_ok.
  unfold constructor_term. intros (tag&_&H)%bind_Ok. apply bind_Ok in H as ([start end_]&_&H).
  apply bind_Ok in H as (fields&Hf&[= <-]). split; [|done]. constructor. eapply mapO_Forall; [|exact Hf].
  intros i u _ Hu. unfold field_term in Hu. apply bind_Ok in Hu as (c&Hc&Hu). apply component_at_kind in Hc.
  eapply component_term_proper; [|exact Hu]. case_match; [by apply rescoped_kind|done].
Qed.
End child.

(** The encoding of a node is the one of its term. *)
Lemma encode_term fuel :
  (forall n, encode columns fuel n = map_ok node_bytes (term_of fuel n)) /\
  (forall n t, term_of fuel n = Ok t -> proper t /\ is_node t).
Proof using Type.
  induction fuel as [|fuel [IHb IHp]]; [done|]. split; intros n; cbn [encode term_of].
  - by apply constructor_bytes_term.
  - intros t. by apply constructor_term_proper.
Qed.

Lemma encodes_denotes n bs : encodes columns n bs ->
  exists t, denotes n t /\ proper t /\ is_node t /\ bs = node_bytes t.
Proof using Type.
  intros [fuel H]. destruct (encode_term fuel) as [Hb Hp]. rewrite Hb in H.
  apply map_ok_Ok in H as (t&Ht&->). destruct (Hp n t Ht). exists t. by repeat split; [exists fuel|..].
Qed.

Lemma denotes_encodes n t : denotes n t -> proper t /\ is_node t /\ encodes columns n (node_bytes t).
Proof using Type.
  intros [fuel H]. destruct (encode_term fuel) as [Hb Hp]. destruct (Hp n t H). split; [done|]. split; [done|].
  exists fuel. by rewrite Hb, H.
Qed.
End term.

(** Two nodes have the same encoding when they stand for the same term. *)
Lemma same_encoding left right m n bl br tl tr :
  encodes left m bl -> encodes right n br -> denotes left m tl -> denotes right n tr -> bl = br <-> tl = tr.
Proof.
  intros Hl Hr (Pl&Nl&El)%denotes_encodes (Pr&Nr&Er)%denotes_encodes.
  rewrite (encodes_inj _ _ _ _ Hl El), (encodes_inj _ _ _ _ Hr Er). split; [|by intros ->].
  by apply node_bytes_inj.
Qed.
