(* ===== verification/Lengths.v ===== *)
(** * The table of lengths and the byte cursor

    [CanonicalTable::build] leaves, for every node, the length of its canonical
    encoding.  [CanonicalByteCursor] emits the canonical encoding of a node, and
    a comparison of two nodes is the lexicographic order of their encodings. *)

From S2P Require Import Prelude Errors Partial Lists Tags Text Workspace Readers Columns Nodes Generic Search Cycles.
From S2P Require Import Structure Validated Budget Encode Terms.
Local Open Scope string_scope.
Local Open Scope list_scope.
Local Open Scope N_scope.

(** ** Widths *)

Lemma varint_width_loop_eq rounds v w : v < 128 ^ N.of_nat (S rounds) ->
  varint_width_loop rounds v w + 1 = w + len (leb128 v).
Proof.
  revert v w. induction rounds as [|rounds IH]; intros v w Hv; rewrite leb128_eq; cbn [varint_width_loop].
  - change (v < 128) in Hv. destruct (N.ltb_spec v 128); [|lia].
    rewrite len_cons, len_nil. lia.
  - destruct (N.leb_spec 128 v), (N.ltb_spec v 128); try lia;
      [|rewrite len_cons, len_nil; lia].
    rewrite len_cons, IH; [lia|]. rewrite shiftr_7. apply N.Div0.div_lt_upper_bound.
    by rewrite Nat2N.inj_succ, N.pow_succ_r' in Hv.
Qed.

Lemma varint_width_eq v : v <= usize_max -> varint_width v = len (leb128 v).
Proof.
  intros Hv. unfold varint_width. assert (Hb : v < 128 ^ N.of_nat 10) by (eapply N.le_lt_trans; [exact Hv|done]).
  pose proof (varint_width_loop_eq 9 v 1 Hb). lia.
Qed.

Lemma len_leb128_usize v : v <= usize_max -> len (leb128 v) <= 10.
Proof.
  intros Hv. rewrite len_leb128. apply N.max_lub; [lia|].
  enough (N.size v <= 64) by (apply N.lt_succ_r, N.Div0.div_lt_upper_bound; lia).
  destruct (N.eq_dec v 0) as [->|H0]; [done|]. rewrite N.size_log2 by done.
  apply N.le_succ_l, N.log2_lt_pow2; [lia|]. eapply N.le_lt_trans; [exact Hv|done].
Qed.

Lemma u8_size b : N.size (u8_of_byte b) <= 8.
Proof.
  pose proof (u8_of_byte_bound b). destruct (N.eq_dec (u8_of_byte b) 0) as [->|H0]; [done|].
  rewrite N.size_log2 by done. apply N.le_succ_l, N.log2_lt_pow2; [lia|done].
Qed.

Lemma from_le_bytes_snoc l b : from_le_bytes (l ++ [b]) = from_le_bytes l + 256 ^ len l * u8_of_byte b.
Proof.
  induction l as [|a l IH]; cbn [app from_le_bytes]; [change (len (@nil byte)) with 0; rewrite N.pow_0_r; lia|].
  rewrite IH, len_cons.
  rewrite N.add_1_l, N.pow_succ_r'. lia.
Qed.

(** The top byte decides the size. *)
Lemma size_from_le_bytes l b : u8_of_byte b <> 0 ->
  N.size (from_le_bytes (l ++ [b])) = 8 * len l + N.size (u8_of_byte b).
Proof.
  intros Hb. rewrite from_le_bytes_snoc. pose proof (from_le_bytes_bound l) as Hl.
  replace 256 with (2 ^ 8) in * by done. rewrite <- N.pow_mul_r in *. set (k := 8 * len l) in *.
  assert (H : N.shiftr (from_le_bytes l + 2 ^ k * u8_of_byte b) k = u8_of_byte b).
  { rewrite N.shiftr_div_pow2, N.mul_comm, N.div_add by (by apply N.pow_nonzero).
    rewrite N.div_small by done. done. }
  rewrite <- H at 2. rewrite size_shiftr.
  assert (Hk : k < N.size (from_le_bytes l + 2 ^ k * u8_of_byte b)); [|lia].
  assert (Hle : 2 ^ k <= from_le_bytes l + 2 ^ k * u8_of_byte b).
  { transitivity (2 ^ k * 1); [lia|]. etransitivity; [apply N.mul_le_mono_l|apply N.le_add_l]. lia. }
  pose proof (N.pow_nonzero 2 k ltac:(done)). rewrite N.size_log2 by lia.
  apply N.log2_le_mono in Hle. rewrite N.log2_pow2 in Hle by lia. lia.
Qed.

Lemma integer_varint_chunks_eq v chunks : integer_varint_chunks v = Ok chunks ->
  chunks = len (leb128 (from_le_bytes v)).
Proof.
  unfold integer_varint_chunks. intros (b&Hb&H)%bind_Ok. apply ok_or_Ok in Hb.
  apply last_Some in Hb as [l ->]. revert H. cbn zeta.
  destruct (1 <? len (l ++ [b])) eqn:Hl; destruct (N.eqb_spec (u8_of_byte b) 0) as [H0|H0]; cbn [andb];
    try done.
  2: { destruct l; [|unfold len in Hl; rewrite length_app in Hl; apply N.ltb_ge in Hl; cbn in Hl; lia].
    intros [= <-]. cbn [app from_le_bytes]. by rewrite H0. }
  all: intros (prefix&Hp&H)%bind_Ok; apply bind_Ok in H as (high&Hh&H); apply ok_or_Ok in Hp, Hh, H.
  all: apply bind_Some in Hp as (n&Hn&Hp); apply checked_sub_Some in Hn as [-> _];
    apply checked_mul_Some in Hp as [-> _].
  all: apply checked_sub_Some in Hh as [-> _]; apply bind_Some in H as (x&Hx&H);
    apply bind_Some in H as (y&Hy&H); apply checked_add_Some in Hx as [-> _], Hy as [-> _]; injection H as <-.
  all: rewrite len_leb128, size_from_le_bytes by done; unfold leading_zeros; pose proof (u8_size b).
  all: assert (1 <= N.size (u8_of_byte b)) by (destruct (u8_of_byte b); [done|cbn; lia]).
  all: rewrite len_app; change (len [b]) with 1.
  all: replace (8 - (8 - N.size (u8_of_byte b))) with (N.size (u8_of_byte b)) by lia.
  all: replace ((len l + 1 - 1) * 8) with (8 * len l) by lia.
  all: symmetry; apply N.max_r; apply N.div_le_lower_bound; lia.
Qed.

(** ** Bounds on what is read *)

Lemma read_u16_bound b i name v : read_u16 b i name = Ok v -> v <= usize_max.
Proof.
  rewrite read_row_spec_u16. unfold read_row. intros (s&_&H)%bind_Some.
  apply fmap_Some in H as (row&Hrow&->). pose proof (from_le_bytes_bound row) as Hb.
  apply get_range_len in Hrow as Hl. apply get_range_Some in Hrow as (Hle&_&_).
  assert (s +w 2 <= s + 2) by (unfold wrapping_add; apply N.Div0.mod_le).
  assert (256 ^ len row <= 256 ^ 2) as H1 by (apply N.pow_le_mono_r; lia).
  assert (256 ^ 2 <= usize_max) as H2 by (by vm_compute). lia.
Qed.

Lemma node_tag_small columns n tag : node_tag columns n = Ok tag -> tag <= usize_max.
Proof. unfold node_tag. intros (?&_&H)%bind_Ok. by eapply read_u16_bound. Qed.

(** Remapping keeps the length of the scope. *)
Lemma get_range_offset {A} (m k : list A) a i : a <= usize_max -> i <= usize_max ->
  get_range m a (a +w i) = Some k -> a + i <= usize_max /\ len k = i.
Proof.
  intros Ha Hi Hk. pose proof (get_range_len _ _ _ _ Hk) as Hl. apply get_range_Some in Hk as (Hle&_&_).
  destruct (N.le_gt_cases (a + i) usize_max) as [Hb|Hb].
  - rewrite wrapping_add_small in Hl by done. split; [done|lia].
  - pose proof (wrapping_add_wraps a i Ha Hi Hb). lia.
Qed.

Lemma scope_map_search_length fuel m current start end_ target :
  scope_map_search fuel m current start end_ = Ok (Some target) -> len target = len current.
Proof.
  revert start end_. induction fuel as [|fuel IH]; intros start end_; cbn [scope_map_search];
    destruct (start <? end_); cbn [negb]; try done.
  cbn zeta. generalize (start + (end_ - start) / 2). intros mid.
  intros (offset&Ho&H)%bind_Ok. apply bind_Ok in H as (source&Hs&H). apply ok_or_Ok in Ho, Hs.
  apply checked_mul_Some in Ho as [-> Ho].
  destruct (bytes_cmp source current) eqn:E; [|by eapply IH..].
  apply (cmp_eq bytes_cmp) in E as <-. apply bind_Ok in H as (t&Ht&[= <-]). apply ok_or_Ok in Ht.
  apply get_range_offset in Hs as [Hb ->]; [|done|by vm_compute].
  rewrite (wrapping_add_small _ 32) in Ht by done.
  destruct (N.le_gt_cases (mid * 64 + 64) usize_max) as [Hle|Hgt].
  - rewrite wrapping_add_small in Ht by done. apply get_range_len in Ht as ->. lia.
  - apply get_range_Some in Ht as (Hw&_&_).
    pose proof (wrapping_add_wraps (mid * 64) 64 Ho ltac:(by vm_compute) Hgt). lia.
Qed.

Lemma remap_length columns scope scope' :
  remap_anonymous_scope columns scope = Ok scope' -> len scope' = len scope.
Proof.
  unfold remap_anonymous_scope. intros H.
  apply (foldM_ind _ (fun _ current => len current = len scope) _ _ _ H); [done|].
  intros d i current current' (m&_&Hs)%bind_Ok Hc. apply bind_Ok in Hs as (found&Hs&[= <-]).
  destruct found as [t|]; [|done]. apply scope_map_search_length in Hs. cbn. congruence.
Qed.

Lemma component_bytes_rescoped columns f c bs : component_bytes columns f c = Ok bs ->
  exists bs', component_bytes columns f (rescoped columns c) = Ok bs' /\ len bs' = len bs.
Proof.
  destruct c as [| |kind value| |]; try by eexists. cbn. intros [= <-]. eexists. split; [done|].
  destruct (remap_anonymous_scope columns value) as [scope|e| |] eqn:E; try done.
  apply remap_length in E. unfold marked. by rewrite !len_cons, !len_app, E.
Qed.

(** ** Lengths of components *)

Lemma scalar_range_fits columns start length payload :
  scalar_range columns start length = Ok payload -> len payload <= usize_max.
Proof.
  unfold scalar_range. intros (e&He&H)%bind_Ok. apply ok_or_Ok in He, H.
  apply checked_add_Some in He as [-> He]. apply get_range_len in H as ->. lia.
Qed.

Lemma marked_length_Ok l message total : l <= usize_max -> marked_length l message = Ok total ->
  forall bs : bytes, len bs = l -> total = 1 + len (marked bs).
Proof.
  unfold marked_length. rewrite ok_or_Ok. intros Hl (t&Ht&H)%bind_Some bs <-.
  apply checked_add_Some in Ht as [-> _], H as [-> _].
  unfold marked. rewrite len_app, varint_width_eq by done. lia.
Qed.

Section component.
Context (columns : DirectColumns) (items_fit : item_count columns <= usize_max).

(** What the checks of [canonical_component] leave. *)
Definition component_fits (component : CanonicalComponent) : Prop :=
  match component with
  | Scalar _ value => len value <= usize_max
  | Collection _ start length => start + length <= usize_max
  | _ => True
  end.

Lemma canonical_component_reads index item :
  yields (fun c => component_at columns index item = Ok c /\ component_fits c)
    (canonical_component columns index item).
Proof using items_fit.
  unfold canonical_component. eapply (yields_bind (fun r => component_read columns index item = Ok r)).
  { unfold component_read. destruct item.
    - apply yields_read. intros kind Hk. apply yields_read. intros value Hv. apply yields_read. intros l Hl.
      apply yields_ret. by rewrite Hk, Hv, Hl.
    - apply yields_read. intros kind Hk. apply yields_read. intros value Hv. apply yields_read. intros l Hl.
      apply yields_ret. by rewrite Hk, Hv, Hl. }
  intros [[kind value] length] Hr.
  apply (yields_mono (fun c => component_of columns kind value length = Ok c /\ component_fits c)).
  { intros c [Hc Hf]. split; [|done]. unfold component_at. by rewrite Hr. }
  clear Hr. unfold component_of.
  destruct (N.eqb_spec kind COMPONENT_NONE) as [->|Hnone]; [step_yields; by split|].
  destruct (N.eqb_spec kind COMPONENT_NODE) as [->|Hnode].
  { destruct (negb (length =? 0)); [step_yields|]. apply yields_read. intros n [-> _]%checked_node_id_Ok.
    by apply yields_ret. }
  destruct ((kind =? COMPONENT_TEXT) || (kind =? COMPONENT_BYTES) || (kind =? COMPONENT_ENUM)) eqn:Hscalar.
  { assert ((kind =? COMPONENT_INTEGER) = false /\
      (kind =? COMPONENT_SET) || (kind =? COMPONENT_SEQUENCE) = false) as [-> ->].
    { rewrite !orb_true_iff, !N.eqb_eq in Hscalar. by destruct Hscalar as [[->| ->]| ->]. }
    apply yields_read. intros payload Hp. rewrite Hp. apply yields_then. intros _. apply yields_ret.
    split; [done|]. by eapply scalar_range_fits. }
  destruct (kind =? COMPONENT_INTEGER).
  { apply yields_read. intros payload Hp. rewrite Hp. step_yields. by split. }
  destruct ((kind =? COMPONENT_SET) || (kind =? COMPONENT_SEQUENCE)); [|step_yields].
  destruct item; [step_yields|].
  destruct (N.ltb_spec (item_count columns) value), (N.ltb_spec (saturating_sub (item_count columns) value) length);
    cbn [orb]; step_yields.
  split; [done|]. unfold saturating_sub in *. cbn. lia.
Qed.

Definition known (fuel : nat) (lengths : list usize) : Prop :=
  forall n l, get lengths n = Some l -> l <> 0 ->
    l <= usize_max /\ exists bs, encode columns fuel n = Ok bs /\ len bs = l.

Section known.
Context (fuel : nat) (L : list usize) (HL : known fuel L).

Lemma child_length_known n l message : child_length L n message = Ok l ->
  l <= usize_max /\ exists bs, encode columns fuel n = Ok bs /\ len bs = l.
Proof using HL.
  unfold child_length. rewrite ok_or_Ok. intros (l'&Hl&H)%bind_Some.
  destruct (N.eqb_spec l' 0); [done|]. injection H as <-. by apply HL.
Qed.

(** The components that are no collections. *)
Lemma leaf_length depth c : component_fits c -> (forall k s l, c <> Collection k s l) ->
  yields (fun total => exists bs, leaf_bytes (encode columns fuel) c = Ok bs /\ len bs = total)
    (component_length columns L depth c).
Proof using HL.
  intros Hc Hn. destruct depth; cbn [component_length]; apply yields_then; intros _.
  all: destruct c as [|n|kind value|value|]; [| | | |by destruct (Hn kind start length)].
  all: try (apply yields_ret; by eexists).
  1, 4: apply yields_read; intros child (Hb&bs&Hbs&Hl)%child_length_known;
    apply yields_spared; intros total Ht; eexists; split; [cbn; by rewrite Hbs|];
    rewrite len_cons; by rewrite (marked_length_Ok child _ total Hb Ht bs).
  1, 3: apply yields_spared; intros total Ht; eexists; split; [done|];
    rewrite len_cons; by rewrite (marked_length_Ok (len value) _ total Hc Ht value).
  all: apply yields_read; intros chunks Hk%integer_varint_chunks_eq; apply yields_spared;
    intros total Ht; apply ok_or_Ok, checked_add_Some in Ht as [-> _]; eexists; split; [done|];
    by rewrite len_cons, Hk.
Qed.

Lemma component_length_known c : component_fits c ->
  yields (fun total => exists bs, component_bytes columns (encode columns fuel) c = Ok bs /\ len bs = total)
    (component_length columns L 1 c).
Proof using HL items_fit.
  intros Hc. destruct c as [| | | |kind start length].
  1-4: eapply yields_mono; [|by apply leaf_length]; by intros total (bs&Hbs&Hl); exists bs.
  remember 0%nat as depth eqn:Hdepth. cbn [component_length].
  apply yields_then. intros _. apply yields_read. intros total Ht. apply ok_or_Ok, checked_add_Some in Ht as [-> _]. cbn in Hc.
  rewrite varint_width_eq by lia. rewrite wrapping_add_small by done.
  unfold component_bytes.
  eapply yields_mono; [|apply (yields_foldM_ind (fun done total => exists items,
    concatM (item_bytes columns (encode columns fuel) kind) done = Ok items /\
    1 + len (leb128 length) + len items = total))].
  - intros total (items&->&<-). eexists. split; [done|]. rewrite len_cons, len_app. lia.
  - exists []. split; [done|]. rewrite len_nil. lia.
  - intros d index rest total _ (items&Hi&<-). apply yields_then. intros _.
    eapply yields_bind; [apply canonical_component_reads|]. intros item [Hat Hfit].
    assert (Hone : forall part, item_bytes columns (encode columns fuel) kind index = Ok part ->
      exists items', concatM (item_bytes columns (encode columns fuel) kind) (d ++ [index]) = Ok items' /\
        1 + len (leb128 length) + len items' = 1 + len (leb128 length) + len items + len part).
    { intros part Hp. eexists. split; [by eapply concatM_snoc|]. rewrite len_app. lia. }
    unfold item_bytes in Hone at 1. rewrite Hat in Hone. cbn [mbind outcome_bind] in Hone.
    destruct (kind =? COMPONENT_SET).
    + destruct item as [|n| | |]; try apply yields_error.
      apply yields_read. intros child (Hb&bs&Hbs&Hl)%child_length_known. apply yields_spared.
      intros total Ht. apply ok_or_Ok, bind_Some in Ht as (t&Ht1&Ht2).
      apply checked_add_Some in Ht1 as [-> _], Ht2 as [-> _].
      rewrite Hbs in Hone. destruct (Hone _ eq_refl) as (items'&Hi'&Hl'). exists items'. split; [done|].
      rewrite Hl'. unfold marked. rewrite len_app, Hl, varint_width_eq by done. lia.
    + destruct item as [| | | |kind' start' length'].
      5: { subst depth. eapply (yields_bind (fun _ => False)); [|done].
        apply yields_then. intros _. by apply yields_spared. }
      all: eapply yields_bind; [by apply leaf_length|]; intros l (part&Hp&<-); apply yields_spared;
        intros total Ht; apply ok_or_Ok, checked_add_Some in Ht as [-> _];
        by destruct (Hone _ Hp) as (items'&Hi'&Hl'); exists items'.
Qed.
End known.

(** ** The length of a node *)

Lemma node_length_known fuel L n : known fuel L ->
  yields (fun l => l <= usize_max /\ exists bs, encode columns (S fuel) n = Ok bs /\ len bs = l)
    (node_length columns L n).
Proof using items_fit.
  intros HL. unfold node_length. apply yields_read. intros tag Ht. apply yields_read. intros [start end_] Hr.
  eapply yields_mono; [|apply (yields_foldM_ind (fun done l => l <= usize_max /\ exists fields,
    concatM (fun index => field_bytes columns (encode columns fuel)
      ((tag =? TAG_ANONYMOUS_INDIVIDUAL) && (index =? start)) index) done = Ok fields /\
    len (leb128 tag) + len fields = l))].
  - intros l (Hb&fields&Hf&<-). split; [done|]. eexists. split; [|by rewrite <- len_app].
    cbn [encode]. unfold constructor_bytes. rewrite Ht. cbn [mbind outcome_bind]. rewrite Hr.
    cbn [mbind outcome_bind]. by rewrite Hf.
  - pose proof (node_tag_small _ _ _ Ht) as Hs. rewrite varint_width_eq by done.
    pose proof (len_leb128_usize tag Hs). assert (10 <= usize_max) by (by vm_compute). split; [lia|].
    exists []. split; [done|]. rewrite len_nil. lia.
  - intros d index rest l _ (_&fields&Hf&<-).
    eapply yields_bind; [apply canonical_component_reads|]. intros c [Hat Hfit].
    eapply yields_bind; [by eapply component_length_known|]. intros added (part&Hp&<-).
    apply yields_spared. intros l Hl. apply ok_or_Ok, checked_add_Some in Hl as [-> Hl].
    split; [done|]. destruct (component_bytes_rescoped _ _ _ _ Hp) as (part'&Hp'&Hlen).
    assert (Hpart : exists bs, field_bytes columns (encode columns fuel)
      ((tag =? TAG_ANONYMOUS_INDIVIDUAL) && (index =? start)) index = Ok bs /\ len bs = len part).
    { unfold field_bytes. rewrite Hat. cbn [mbind outcome_bind].
      destruct ((tag =? TAG_ANONYMOUS_INDIVIDUAL) && (index =? start)); by eexists. }
    destruct Hpart as (bs&Hb&Hbl). eexists. split; [by eapply concatM_snoc|].
    rewrite len_app, Hbl. lia.
Qed.
End component.

Lemma encode_not_nil columns fuel n bs : encode columns fuel n = Ok bs -> len bs <> 0.
Proof.
  destruct fuel as [|fuel]; [done|]. cbn [encode]. unfold constructor_bytes.
  intros (tag&_&H)%bind_Ok. apply bind_Ok in H as ([start end_]&_&H).
  apply bind_Ok in H as (fields&_&[= <-]). rewrite len_app. pose proof (leb128_not_nil tag).
  destruct (leb128 tag); [done|]. rewrite len_cons. lia.
Qed.

(** ** The traversal *)

Section traversal.
Context (columns : DirectColumns) (room : usize).

Definition measured (st : Traversal) (n : usize) : Prop :=
  exists l, get st.(lengths) n = Some l /\ l <> 0.

Record traversed (st : Traversal) : Prop := {
  traversed_known : exists fuel, known columns fuel st.(lengths);
  traversed_black n : get st.(colors) n = Some 2 -> measured st n;
}.

(** Pushing children only grows the stack. *)
Record grown (st st' : Traversal) : Prop := {
  grown_lengths : st'.(lengths) = st.(lengths);
  grown_colors : st'.(colors) = st.(colors);
  grown_events : st.(events) `suffix_of` st'.(events);
}.

#[local] Instance grown_preorder : PreOrder grown.
Proof using Type.
  split; [by intros st; split|]. intros a b c [] []. split; [congruence..|by etransitivity].
Qed.

Lemma push_grown st event : ensures (grown st) (push_length_event room st event).
Proof using Type.
  unfold push_length_event. destruct (_ =? _); [done|]. apply ensures_Ok.
  split; [done..|]. by apply suffix_cons_r.
Qed.

Lemma enter_child_grown st child : ensures (grown st) (enter_child room st child).
Proof using Type.
  unfold enter_child. eapply ensures_bind; [apply ensures_trivial|]. intros color _.
  destruct (color =? 1); [done|]. destruct (color =? 0); [apply push_grown|by apply ensures_Ok].
Qed.

Lemma enter_field_grown st i : yields (grown st) (enter_field columns room st i).
Proof using Type.
  unfold enter_field. apply yields_then. intros _. apply yields_then.
  intros [|child| | |kind start length]; try by apply yields_ret.
  - apply yields_spared, enter_child_grown.
  - apply yields_foldM; [done|]. intros st' j _ Hst'. apply yields_then. intros _. apply yields_then.
    intros [|child| | |]; try (destruct (kind =? COMPONENT_SET); [done|by apply yields_ret]).
    apply yields_spared. eapply ensures_mono; [|apply enter_child_grown]. intros st'' ?. by etransitivity.
Qed.

Definition pending (st : Traversal) (n : usize) : Prop :=
  Enter n ∈ st.(events) \/ Exit n ∈ st.(events) \/ measured st n.

(** A step keeps what is measured and what is pending. *)
Record advanced (st st' : Traversal) : Prop := {
  advanced_measured n : measured st n -> measured st' n;
  advanced_pending n : pending st n -> pending st' n;
}.

(** The event on top is popped; where it was an entry, something stands for it. *)
Lemma popped_advances st st' n rest : (st.(events) = Enter n :: rest \/ st.(events) = Exit n :: rest) ->
  (forall m, measured st m -> measured st' m) -> rest `suffix_of` st'.(events) ->
  (Exit n ∈ st'.(events) \/ measured st' n) -> advanced st st'.
Proof using Type.
  intros He Hm [k Hk] Hn. split; [done|]. intros m Hp.
  assert (Hr : forall e, e ∈ rest -> e ∈ st'.(events)) by (intros e He'; rewrite Hk; set_solver).
  destruct (decide (m = n)) as [->|Hne]; [by right|].
  destruct Hp as [Hp|[Hp|Hp]]; [left|right; left|right; right; by apply Hm]; apply Hr;
    destruct He as [He|He]; rewrite He in Hp; apply elem_of_cons in Hp as [Hp|Hp]; congruence.
Qed.

Lemma enter_node_advances st n rest : traversed st -> st.(events) = Enter n :: rest ->
  yields (fun st' => traversed st' /\ advanced st st') (enter_node columns room (st <| events := rest |>) n).
Proof using Type.
  intros [Hk Hb] He. unfold enter_node. cbn [colors]. apply yields_read. intros color Hc%index_Ok.
  destruct (N.eqb_spec color 2) as [->|H2].
  { apply yields_ret. split; [by split|]. apply (popped_advances _ _ n rest); [by left|done|done|].
    right. by apply Hb. }
  destruct (color =? 1); [apply yields_error|].
  apply yields_read. intros entered (Hlt&_&Hget)%store_Ok. apply yields_read. intros st1 H1.
  unfold push_length_event in H1. destruct (_ =? room); [done|]. injection H1 as <-.
  apply yields_read. intros [start end_] _.
  set (st1 := _ <| events := Exit n :: rest |>).
  eapply yields_mono; [|apply (yields_foldM (grown st1)); [reflexivity|]].
  2: { intros st2 i _ H2'. eapply yields_mono; [|apply enter_field_grown]. intros st3 H3. by etransitivity. }
  intros st' [Hl Hcol Hev]. change (st'.(lengths) = st.(lengths)) in Hl. change (st'.(colors) = entered) in Hcol.
  change (Exit n :: rest `suffix_of` st'.(events)) in Hev. clear st1.
  assert (Hmeasured : forall m, measured st m <-> measured st' m)
    by (intros m; unfold measured; by rewrite Hl).
  split; [split; [by rewrite Hl|]|].
  - intros m Hm. apply Hmeasured, Hb. rewrite Hcol in Hm. rewrite Hget in Hm. by destruct (m =? n).
  - apply (popped_advances _ _ n rest); [by left|naive_solver|exact (suffix_cons_l _ _ (Exit n) Hev)|left].
    destruct Hev as [k ->]. set_solver.
Qed.

Context (items_fit : item_count columns <= usize_max).

Lemma exit_node_advances st n rest : traversed st -> st.(events) = Exit n :: rest ->
  yields (fun st' => traversed st' /\ advanced st st') (exit_node columns (st <| events := rest |>) n).
Proof using items_fit.
  intros [[fuel Hk] Hb] He. unfold exit_node. cbn [lengths colors].
  eapply yields_bind; [by eapply node_length_known|]. intros l (Hl&bs&Hbs&Hlen).
  apply yields_read. intros L (_&_&HL)%store_Ok. apply yields_read. intros left (_&_&Hleft)%store_Ok.
  apply yields_ret. assert (Hm : forall m, measured st m \/ m = n ->
    measured (st <| events := rest |> <| lengths := L |> <| colors := left |>) m).
  { intros m Hm. unfold measured. cbn [lengths]. rewrite HL. destruct (N.eqb_spec m n) as [->|Hne].
    - eexists. split; [done|]. rewrite <- Hlen. by eapply encode_not_nil.
    - destruct Hm as [Hm|]; [exact Hm|done]. }
  split; [split|].
  - exists (S fuel). intros m l'. cbn [lengths]. rewrite HL. destruct (N.eqb_spec m n) as [->|Hne].
    + intros [= <-] _. split; [done|]. by exists bs.
    + intros Hl' H0. destruct (Hk m l' Hl' H0) as (?&bs'&Hbs'&?). split; [done|]. exists bs'.
      split; [by apply encode_S|done].
  - intros m. cbn [colors]. rewrite Hleft. intros H2. apply Hm. destruct (N.eqb_spec m n); [by right|].
    left. by apply Hb.
  - apply (popped_advances _ _ n rest); [by right|by auto|done|right; by auto].
Qed.

Lemma traverse_measures fuel st : traversed st ->
  yields (fun st' => traversed st' /\ (forall n, measured st n -> measured st' n) /\
    forall n, pending st n -> measured st' n) (traverse columns room fuel st).
Proof using items_fit.
  revert st. induction fuel as [|fuel IH]; intros st Hst; cbn [traverse];
    destruct st.(events) as [|event rest] eqn:He.
  1, 3: apply yields_ret; split; [done|]; split; [done|]; intros n [Hn|[Hn|Hn]]; try done;
    rewrite He in Hn; by apply elem_of_nil in Hn.
  { by apply yields_spared. }
  apply yields_then. intros _.
  eapply (yields_bind (fun st' => traversed st' /\ advanced st st')).
  { destruct event; [by apply enter_node_advances|by apply exit_node_advances]. }
  intros st1 [H1 [Hm Hp]]. eapply yields_mono; [|by apply IH]. intros st2 (H2&Hm2&Hp2).
  split; [done|]. split; intros n Hn; [by apply Hm2, Hm|by apply Hp2, Hp].
Qed.

Lemma traverse_from_measures fuel st initial : traversed st ->
  yields (fun st' => traversed st' /\ (forall n, measured st n -> measured st' n) /\ measured st' initial)
    (traverse_from columns room fuel st initial).
Proof using items_fit.
  intros Hst. unfold traverse_from. apply yields_then. intros _. apply yields_read. intros color Hc%index_Ok.
  destruct (N.eqb_spec color 2) as [->|_].
  { apply yields_ret. split; [done|]. split; [done|]. by apply (traversed_black _ Hst). }
  apply yields_read. intros st1 H1. unfold push_length_event in H1. destruct (_ =? room); [done|].
  injection H1 as <-. eapply yields_mono; [|apply traverse_measures; by destruct Hst].
  intros st2 (H2&Hm&Hp). split; [done|]. split; [done|]. apply Hp. left. set_solver.
Qed.
End traversal.

(** ** The table *)

(** What a built table promises: validated columns and the length of the
    encoding of every node. *)
Record table_ok (table : CanonicalTable) : Prop := {
  table_validated : Validated table.(table_columns);
  table_measured : exists depth, known table.(table_columns) depth table.(table_lengths) /\
    forall n, 1 <= n <= node_count table.(table_columns) ->
      exists l, get table.(table_lengths) n = Some l /\ l <> 0;
}.

Lemma items_resident columns : resident columns -> item_count columns <= usize_max.
Proof. apply resident_item_kinds. Qed.

Lemma table_resident table : table_ok table -> resident table.(table_columns).
Proof. intros [V _]. apply (validated_resident (self := table.(table_columns))). Qed.

Lemma table_items table : table_ok table -> item_count table.(table_columns) <= usize_max.
Proof. intros Hok. by apply items_resident, table_resident. Qed.

Lemma build_measures columns room depth capacity : item_count columns <= usize_max ->
  yields (fun st => (exists depth, known columns depth st.(lengths)) /\
      forall n, 1 <= n <= node_count columns -> measured st n)
    (let zeros := replicate capacity 0 in
     foldM (traverse_from columns room depth) {| lengths := zeros; colors := zeros; events := [] |}
       (range 1 (node_count columns + 1))).
Proof.
  intros Hfit.
  eapply yields_mono; [|apply (yields_foldM_ind (fun done st => traversed columns st /\
    forall n, n ∈ done -> measured st n))].
  - intros st [[Hk _] Hm]. split; [done|]. intros n Hn. apply Hm, elem_of_range. lia.
  - split; [|by intros n ?%elem_of_nil]. split.
    + exists 0%nat. intros n l Hl. cbn [lengths] in Hl. apply get_elem_of, elem_of_replicate in Hl as [-> _].
      done.
    + intros n Hn. cbn [colors] in Hn. apply get_elem_of, elem_of_replicate in Hn as [? _]. done.
  - intros d initial rest st _ [Hst Hd]. eapply yields_mono; [|by apply traverse_from_measures].
    intros st' (Hst'&Hm&Hi). split; [done|].
    intros n [Hn| ->%list_elem_of_singleton]%elem_of_app; [by apply Hm, Hd|done].
Qed.

Lemma table_build_ok `{Layout} fuel columns : resident columns ->
  yields (fun table => table.(table_columns) = columns /\ table_ok table) (table_build fuel columns).
Proof.
  intros Hres. unfold table_build. apply yields_read. intros w _. apply yields_then. intros _.
  eapply (yields_bind (fun _ => run (validate_generic columns) = Ok tt)).
  { apply yields_uncharged. eapply post_mono, post_transparent, validate_generic_transparent. by intros []. }
  intros [] Hvalid. apply yields_read. intros map_capacity _. apply yields_read. intros capacity _.
  apply yields_then. intros _. apply yields_then. intros color_bytes. apply yields_then. intros event_bytes.
  eapply yields_bind; [by apply build_measures, items_resident|].
  intros st [[depth Hk] Hm]. do 2 (apply yields_then; intros _). apply yields_ret.
  split; [done|]. split; [by split|]. by exists depth.
Qed.

(** ** Chunks of an integer *)

Lemma lor_shiftl_8 low high : low < 256 -> N.lor low (N.shiftl high 8) = low + 256 * high.
Proof.
  intros Hl. assert (H0 : N.land low (N.shiftl high 8) = 0).
  { apply N.bits_inj_0. intros i. rewrite N.land_spec. destruct (N.lt_ge_cases i 8) as [Hi|Hi].
    - by rewrite N.shiftl_spec_low, andb_false_r.
    - replace low with (N.land low (N.ones 8)) by (by rewrite N.land_ones, N.mod_small).
      by rewrite N.land_spec, N.ones_spec_high, andb_false_r. }
  rewrite <- N.lxor_lor by done. rewrite <- N.add_nocarry_lxor by done.
  rewrite N.shiftl_mul_pow2. lia.
Qed.

Lemma from_le_bytes_drop k v : from_le_bytes (drop k v) = from_le_bytes v / 256 ^ N.of_nat k.
Proof.
  revert v. induction k as [|k IH]; intros v; [by rewrite N.div_1_r|].
  rewrite Nat2N.inj_succ, N.pow_succ_r'. destruct v as [|b v]; cbn [drop from_le_bytes].
  - symmetry. apply N.div_small. pose proof (N.pow_nonzero 256 (N.of_nat k)). lia.
  - rewrite IH, <- N.Div0.div_div. f_equal. rewrite N.mul_comm, N.div_add by done.
    by rewrite (N.div_small (u8_of_byte b)) by apply u8_of_byte_bound.
Qed.

(** Two bytes hold the seven bits at any offset. *)
Lemma integer_chunk_eq v offset :
  integer_chunk v offset = N.land (N.shiftr (from_le_bytes v) offset) 0x7F.
Proof.
  unfold integer_chunk. set (k := offset / 8). set (r := offset mod 8).
  assert (Ho : offset = 8 * k + r) by apply N.div_mod'.
  assert (Hr : r < 8) by (by apply N.mod_lt).
  set (low := from_option _ _ (get v k)). set (high := from_option _ _ (get v (k + 1))).
  assert (Hlow : low < 256) by (unfold low; destruct (get v k); cbn; [apply u8_of_byte_bound|lia]).
  assert (Hw : exists rest, from_le_bytes (drop (N.to_nat k) v) = low + 256 * high + 65536 * rest).
  { unfold low, high. rewrite !get_lookup. replace (N.to_nat (k + 1)) with (S (N.to_nat k)) by lia.
    generalize (N.to_nat k) as j. intros j.
    assert (v !! j = drop j v !! 0%nat) as -> by (by rewrite lookup_drop, Nat.add_0_r).
    assert (v !! S j = drop j v !! 1%nat) as -> by (by rewrite lookup_drop, Nat.add_1_r).
    destruct (drop j v) as [|a [|b rest]].
    - by exists 0.
    - exists 0. cbn [lookup list_lookup from_option from_le_bytes]. lia.
    - exists (from_le_bytes rest). cbn [lookup list_lookup from_option from_le_bytes]. lia. }
  destruct Hw as [rest Hw]. rewrite lor_shiftl_8 by done.
  assert (Hs : N.shiftr (from_le_bytes v) offset = N.shiftr (low + 256 * high + 65536 * rest) r).
  { rewrite <- Hw, from_le_bytes_drop, Ho, <- N.shiftr_shiftr. f_equal.
    rewrite N.shiftr_div_pow2, N.pow_mul_r, N2Nat.id. done. }
  rewrite Hs. clearbody low high r. clear -Hr. generalize (low + 256 * high) as w. intros w.
  change 0x7F with (N.ones 7). rewrite !N.land_ones, !N.shiftr_div_pow2.
  replace (w + 65536 * rest) with (w + 2 ^ (9 - r) * rest * 2 ^ 7 * 2 ^ r).
  - by rewrite N.div_add, N.Div0.mod_add by (by apply N.pow_nonzero).
  - replace 65536 with (2 ^ (9 - r) * 2 ^ 7 * 2 ^ r); [lia|]. rewrite <- !N.pow_add_r.
    replace (9 - r + 7 + r) with 16 by lia. done.
Qed.

(** The bytes of an integer are its groups. *)
Lemma integer_byte v chunk chunks : chunks = len (leb128 (from_le_bytes v)) -> chunk < chunks ->
  drop (N.to_nat chunk) (leb128 (from_le_bytes v)) =
  byte_of_u8 (N.lor (integer_chunk v (chunk * 7)) (if chunk + 1 =? chunks then 0 else 0x80))
    :: drop (S (N.to_nat chunk)) (leb128 (from_le_bytes v)).
Proof.
  intros -> Hc. unfold len in Hc. rewrite leb128_group by lia. rewrite integer_chunk_eq.
  rewrite N2Nat.id, (N.mul_comm 7). do 2 f_equal. unfold len.
  destruct (decide _), (N.eqb_spec (chunk + 1) (N.of_nat (length (leb128 (from_le_bytes v))))); try done; lia.
Qed.

(** ** What a stack is to emit *)

Section emission.
Context `{Layout} (table : CanonicalTable) (depth : nat).

Abbreviation table_bytes := (encode table.(table_columns) depth).

Inductive emits : EmitTask -> bytes -> Prop :=
  | emits_byte byte : emits (EmitByte byte) [byte_of_u8 byte]
  | emits_varint value : emits (EmitVarint value) (leb128 value)
  | emits_slice value index : len value <= usize_max ->
      emits (EmitSlice value index) (drop (N.to_nat index) value)
  | emits_integer value chunk :
      emits (EmitInteger value chunk (len (leb128 (from_le_bytes value))))
        (drop (N.to_nat chunk) (leb128 (from_le_bytes value)))
  | emits_node n bs : table_bytes n = Ok bs -> emits (EmitNode n) bs
  | emits_component index item (scope : bool) component bs :
      component_at table.(table_columns) index item = Ok component ->
      component_bytes table.(table_columns) table_bytes
        (if scope then rescoped table.(table_columns) component else component) = Ok bs ->
      emits (EmitComponent index item scope) bs
  | emits_collection kind start index length bs :
      start + length <= usize_max ->
      concatM (item_bytes table.(table_columns) table_bytes kind)
        (range (start + index) (start + length)) = Ok bs ->
      emits (EmitCollection start index length (kind =? COMPONENT_SET)) bs.

Fixpoint emits_all (tasks : list EmitTask) (bs : bytes) : Prop :=
  match tasks with
  | [] => bs = []
  | task :: tasks => exists p q, emits task p /\ emits_all tasks q /\ bs = p ++ q
  end.

Lemma emits_all_app l k p q : emits_all l p -> emits_all k q -> emits_all (l ++ k) (p ++ q).
Proof using Type.
  revert p. induction l as [|t l IH]; cbn [app emits_all]; intros p; [by intros ->|].
  intros (a&b&Ht&Hb&->) Hk. exists a, (b ++ q). split; [done|]. split; [by apply IH|]. by rewrite app_assoc.
Qed.

Lemma emits_all_cons t l p q : emits t p -> emits_all l q -> emits_all (t :: l) (p ++ q).
Proof using Type. cbn. eauto. Qed.

(** A loop that schedules one task per element. *)
Lemma emits_all_concatM {A} (task : A -> EmitTask) (f : A -> outcome bytes) l bs :
  (forall x part, x ∈ l -> f x = Ok part -> emits (task x) part) ->
  concatM f l = Ok bs -> emits_all (task <$> l) bs.
Proof using Type.
  revert bs. induction l as [|x l IH]; intros bs Hf Hc; [by injection Hc as <-|].
  apply concatM_cons_Ok in Hc as (part&rest&Hp&Hr&->). cbn [fmap list_fmap].
  apply emits_all_cons; [apply Hf; [set_solver|done]|]. apply IH; [|done]. intros y ? ?. apply Hf. set_solver.
Qed.

(** ** Pushes *)

Lemma cursor_push_stack self task :
  yields (fun self' => self'.(stack) = task :: self.(stack)) (cursor_push self task).
Proof using Type.
  unfold cursor_push. eapply (yields_bind (fun self' => self'.(stack) = self.(stack))).
  - destruct (_ =? _); [|by apply yields_ret]. apply yields_then. intros target. apply yields_read.
    intros requested _. apply yields_then. intros _. by apply yields_ret.
  - intros self' Hs. apply yields_ret. cbn. by rewrite Hs.
Qed.

Lemma push_all_stack self tasks :
  yields (fun self' => self'.(stack) = reverse tasks ++ self.(stack)) (push_all self tasks).
Proof using Type.
  apply (yields_foldM_ind (fun done self' => self'.(stack) = reverse done ++ self.(stack))); [done|].
  intros d task rest self' _ Hs. eapply yields_mono; [|apply cursor_push_stack]. intros self2 ->.
  by rewrite reverse_app, reverse_singleton, Hs.
Qed.

(** A cursor that emits a string. *)
Definition pours (self : CanonicalByteCursor) (bs : bytes) : Prop := emits_all self.(stack) bs.

Lemma cursor_push_pours self task p q : pours self q -> emits task p ->
  yields (fun self' => pours self' (p ++ q)) (cursor_push self task).
Proof using Type.
  intros Hq Hp. eapply yields_mono; [|apply cursor_push_stack]. intros self' Hs. unfold pours. rewrite Hs.
  by apply emits_all_cons.
Qed.

Lemma push_all_pours self tasks p q : pours self q -> emits_all (reverse tasks) p ->
  yields (fun self' => pours self' (p ++ q)) (push_all self tasks).
Proof using Type.
  intros Hq Hp. eapply yields_mono; [|apply push_all_stack]. intros self' Hs. unfold pours. rewrite Hs.
  by apply emits_all_app.
Qed.

Context (known_table : known table.(table_columns) depth table.(table_lengths)).

Lemma schedule_node_pours self n (marker : bool) q bs : pours self q -> table_bytes n = Ok bs ->
  yields (fun self' => pours self'
    ((if marker then [byte_of_u8 COMPONENT_NODE] else []) ++ marked bs ++ q)) (schedule_node table self n marker).
Proof using known_table.
  intros Hq Hbs. unfold schedule_node. apply yields_read.
  intros l (_&bs'&Hbs'&<-)%(child_length_known _ _ _ known_table).
  rewrite Hbs in Hbs'. injection Hbs' as <-.
  assert (Hm : emits_all [EmitVarint (len bs); EmitNode n] (marked bs)).
  { apply emits_all_cons; [constructor|]. exists bs, []. rewrite app_nil_r. split; [by constructor|done]. }
  destruct marker.
  - eapply yields_mono; [|apply (push_all_pours _ _ (byte_of_u8 COMPONENT_NODE :: marked bs)); [done|]]; [done|].
    by apply (emits_all_cons _ _ [_]); [constructor|].
  - eapply yields_mono; [|by apply (push_all_pours _ _ (marked bs))]. done.
Qed.

Lemma schedule_component_pours self c q bs : component_fits c -> pours self q ->
  component_bytes table.(table_columns) table_bytes c = Ok bs ->
  yields (fun self' => pours self' (bs ++ q)) (schedule_component table self c).
Proof using known_table.
  intros Hc Hq Hbs. destruct c as [|n|kind value|value|kind start length]; cbn [schedule_component].
  - injection Hbs as <-. apply cursor_push_pours; [done|constructor].
  - cbn in Hbs. apply bind_Ok in Hbs as (b&Hb&[= <-]). by apply (schedule_node_pours _ _ true).
  - injection Hbs as <-. apply push_all_pours; [done|]. rewrite reverse_app. cbn [app reverse rev_append].
    apply (emits_all_cons _ _ [_]); [constructor|]. apply emits_all_cons; [constructor|].
    destruct (is_empty value) eqn:He; [by destruct value|].
    exists value, []. rewrite app_nil_r. split; [|done]. by apply (emits_slice value 0).
  - injection Hbs as <-. apply yields_read. intros chunks ->%integer_varint_chunks_eq.
    apply push_all_pours; [done|]. apply (emits_all_cons _ _ [_]); [constructor|].
    eexists _, []. rewrite app_nil_r. split; [|done]. apply (emits_integer value 0).
  - cbn [component_bytes] in Hbs. apply bind_Ok in Hbs as (items&Hi&[= <-]).
    apply push_all_pours; [done|]. apply (emits_all_cons _ _ [_]); [constructor|].
    apply emits_all_cons; [constructor|]. exists items, []. rewrite app_nil_r. split; [|done].
    constructor; [done|]. by rewrite N.add_0_r.
Qed.

Context (items_fit : item_count table.(table_columns) <= usize_max).

(** ** Rounds *)

(** A round emits the next byte, or leaves the string as it is. *)
Definition emitted (bs : bytes) (result : option byte * CanonicalByteCursor) : Prop :=
  match result.1 with
  | Some b => exists rest, bs = b :: rest /\ pours result.2 rest
  | None => pours result.2 bs
  end.

Lemma rescoped_fits c : component_fits c -> component_fits (rescoped table.(table_columns) c).
Proof using Type.
  destruct c as [| |kind value| |]; try done. cbn. intros Hv.
  destruct (remap_anonymous_scope _ value) as [scope|e| |] eqn:E; try done.
  apply remap_length in E. by rewrite E.
Qed.

Lemma emit_component self index item (scope : bool) c bs q :
  component_at table.(table_columns) index item = Ok c ->
  component_bytes table.(table_columns) table_bytes
    (if scope then rescoped table.(table_columns) c else c) = Ok bs ->
  pours self q ->
  yields (emitted (bs ++ q)) (emit_round table self (EmitComponent index item scope)).
Proof using items_fit known_table.
  intros Hat Hbs Hq. cbn [emit_round]. eapply yields_bind; [by apply canonical_component_reads|].
  intros c' [Hc Hfit]. unfold columns in *. rewrite Hat in Hc. injection Hc as <-.
  eapply (yields_bind (fun c' => c' = if scope then rescoped table.(table_columns) c else c)).
  - destruct scope; [|by apply yields_ret]. destruct c as [| |kind value| |]; try apply yields_error.
    destruct (N.eqb_spec kind COMPONENT_BYTES) as [->|]; [|apply yields_error].
    apply yields_read. intros v Hv. apply yields_ret. cbn. unfold columns in Hv. by rewrite Hv.
  - intros c' ->. eapply yields_bind; [apply schedule_component_pours; [|exact Hq|exact Hbs]|].
    + destruct scope; [by apply rescoped_fits|done].
    + intros self' Hs. by apply yields_ret.
Qed.

Lemma emit_node self n bs q : table_bytes n = Ok bs -> pours self q ->
  yields (emitted (bs ++ q)) (emit_round table self (EmitNode n)).
Proof using Type.
  intros Hbs Hq. cbn [emit_round]. unfold columns. apply encode_eq in Hbs. unfold constructor_bytes in Hbs.
  apply yields_read. intros [start end_] Hr. apply yields_read. intros tag Ht.
  rewrite Ht in Hbs. cbn [mbind outcome_bind] in Hbs. rewrite Hr in Hbs. cbn [mbind outcome_bind] in Hbs.
  apply bind_Ok in Hbs as (fields&Hf&[= <-]).
  eapply yields_bind; [apply (push_all_pours _ _ fields q Hq)|].
  - rewrite <- fmap_reverse, reverse_involutive. eapply emits_all_concatM; [|exact Hf].
    intros i part _ Hp. unfold field_bytes in Hp. apply bind_Ok in Hp as (c&Hc&Hp). by eapply emits_component.
  - intros self1 H1. eapply yields_bind; [apply (cursor_push_pours _ _ (leb128 tag) _ H1); constructor|].
    intros self2 H2. apply yields_ret. cbn. by rewrite <- app_assoc.
Qed.

Lemma emit_collection self kind start index length bs q : start + length <= usize_max ->
  concatM (item_bytes table.(table_columns) table_bytes kind) (range (start + index) (start + length)) = Ok bs ->
  pours self q ->
  yields (emitted (bs ++ q))
    (emit_round table self (EmitCollection start index length (kind =? COMPONENT_SET))).
Proof using items_fit known_table.
  intros Hl Hbs Hq. cbn [emit_round]. unfold columns. destruct (N.leb_spec length index) as [Hi|Hi].
  - rewrite range_empty in Hbs by lia. injection Hbs as <-. by apply yields_ret.
  - rewrite range_cons in Hbs by lia. apply concatM_cons_Ok in Hbs as (part&rest&Hp&Hr&->).
    rewrite !wrapping_add_small by lia.
    eapply yields_bind; [apply (cursor_push_pours _ _ rest _ Hq)|].
    { constructor; [done|]. by rewrite N.add_assoc. }
    intros self1 H1. eapply yields_bind; [by apply canonical_component_reads|]. intros c [Hat Hfit].
    unfold item_bytes in Hp. rewrite Hat in Hp. cbn [mbind outcome_bind] in Hp.
    eapply (yields_bind (fun self' => pours self' (part ++ rest ++ q))).
    + destruct (kind =? COMPONENT_SET).
      * destruct c as [|n| | |]; try apply yields_error. apply bind_Ok in Hp as (b&Hb&[= <-]).
        by apply (schedule_node_pours _ _ false).
      * apply schedule_component_pours; [done..|]. by destruct c.
    + intros self2 H2. apply yields_ret. cbn. by rewrite <- app_assoc.
Qed.

Lemma emit_round_emits self task p q : emits task p -> pours self q ->
  yields (emitted (p ++ q)) (emit_round table self task).
Proof using items_fit known_table.
  intros Hp Hq.
  destruct Hp as [b|v|v i Hv|v chunk|n bs Hbs|i item scope c bs Hc Hbs|kind start i length bs Hl Hbs].
  - apply yields_ret. by exists q.
  - cbn [emit_round]. rewrite leb128_eq, shiftr_7.
    destruct (N.eqb_spec (v / 128) 0) as [H0|H0], (N.ltb_spec v 128) as [Hv|Hv]; cbn [negb].
    + apply yields_ret. exists q. split; [|done]. rewrite N.lor_0_r. change 127 with (N.ones 7).
      by rewrite N.land_ones, N.mod_small.
    + apply N.div_small_iff in H0; lia.
    + by rewrite N.div_small in H0.
    + eapply yields_bind; [apply (cursor_push_pours _ _ (leb128 (v / 128)) _ Hq); constructor|].
      intros self' Hs. apply yields_ret. by eexists.
  - cbn [emit_round]. apply yields_read. intros b Hb%ok_or_Ok. pose proof (get_Some_lt _ _ _ Hb).
    rewrite get_lookup in Hb. apply drop_S in Hb. rewrite wrapping_add_small by lia. rewrite Hb.
    replace (S (N.to_nat i)) with (N.to_nat (i + 1)) by lia.
    destruct (N.ltb_spec (i + 1) (len v)) as [Hlt|Hge].
    + eapply yields_bind; [eapply cursor_push_pours; [exact Hq|by constructor]|].
      intros self' Hs. apply yields_ret. by eexists.
    + apply yields_ret. exists q. split; [|done]. rewrite drop_ge by (unfold len in *; lia). done.
  - cbn [emit_round]. destruct (N.leb_spec (len (leb128 (from_le_bytes v))) chunk) as [|Hlt]; [apply yields_error|].
    apply yields_read. intros offset Ho%ok_or_Ok. apply checked_mul_Some in Ho as [-> Ho].
    rewrite wrapping_add_small by (unfold usize_max in *; lia). rewrite (integer_byte v chunk _ eq_refl Hlt).
    replace (S (N.to_nat chunk)) with (N.to_nat (chunk + 1)) by lia.
    destruct (N.ltb_spec (chunk + 1) (len (leb128 (from_le_bytes v)))) as [Hc|Hc].
    + eapply yields_bind; [eapply cursor_push_pours; [exact Hq|by constructor]|].
      intros self' Hs. apply yields_ret. by eexists.
    + apply yields_ret. eexists. split; [done|]. rewrite drop_ge by (unfold len in *; lia). done.
  - by apply emit_node.
  - by eapply emit_component.
  - by apply emit_collection.
Qed.

Lemma next_byte_emits fuel self bs : pours self bs ->
  yields (fun result => match bs with
                        | [] => result.1 = None
                        | b :: rest => result.1 = Some b /\ pours result.2 rest
                        end) (next_byte table fuel self).
Proof using items_fit known_table.
  revert self bs. induction fuel as [|fuel IH]; intros self bs Hbs; cbn [next_byte]; unfold pours in Hbs;
    destruct self.(stack) as [|task rest] eqn:Hs; cbn [emits_all] in Hbs.
  1, 3: rewrite Hbs; by apply yields_ret.
  { by apply yields_spared. }
  destruct Hbs as (p&q&Hp&Hq&->). apply yields_then. intros _.
  eapply yields_bind; [by apply emit_round_emits|]. intros [[b|] self'] He.
  - destruct He as (rest'&->&Hr). by apply yields_ret.
  - by apply IH.
Qed.
End emission.
