(* ===== verification/Ordering.v ===== *)
(** * The canonical order

    Nodes are ordered by their encodings and roots by kind and then by node.
    The comparators of [canonical_merge] decide these orders, and the tables they
    accept are strictly sorted. *)

From stdpp Require Import sorting.
From S2P Require Import Prelude Errors Partial Lists Tags Text Readers Columns Nodes Generic Search Cycles.
From S2P Require Import Structure Validated Terms Preparation Workspace Budget Encode Merge Lengths.
Local Open Scope string_scope.
Local Open Scope list_scope.
Local Open Scope N_scope.

(** ** Comparisons *)

(** The order of two nodes: the one of their encodings. *)
Definition node_order (left right : DirectColumns) (m n : usize) (ordering : comparison) : Prop :=
  exists bl br, encodes left m bl /\ encodes right n br /\ ordering = bytes_cmp bl br.

Section compare.
Context `{Layout} (left right : CanonicalTable).

(** A round of the loop. *)
Lemma compare_bytes_eq fuel lc rc :
  compare_bytes (S fuel) left right lc rc =
    ('(left_byte, lc) ← next_byte left (S fuel) lc; '(right_byte, rc) ← next_byte right (S fuel) rc;
     match left_byte, right_byte with
     | Some left_byte, Some right_byte =>
         _ ← record_comparison_byte;
         match byte_cmp left_byte right_byte with
         | Eq => compare_bytes fuel left right lc rc
         | ordering => mret (ordering, (lc, rc))
         end
     | None, None => mret (Eq, (lc, rc))
     | None, Some _ => mret (Lt, (lc, rc))
     | Some _, None => mret (Gt, (lc, rc))
     end).
Proof using Type. done. Qed.

Lemma compare_bytes_order fuel dl dr lc rc bl br :
  item_count left.(table_columns) <= usize_max -> item_count right.(table_columns) <= usize_max ->
  known left.(table_columns) dl left.(table_lengths) ->
  known right.(table_columns) dr right.(table_lengths) ->
  pours left dl lc bl -> pours right dr rc br ->
  yields (fun result => result.1 = bytes_cmp bl br) (compare_bytes fuel left right lc rc).
Proof using Type.
  intros Hil Hir Hkl Hkr. revert lc rc bl br. induction fuel as [|fuel IH]; intros lc rc bl br Hl Hr.
  { by apply yields_spared. }
  rewrite compare_bytes_eq.
  eapply yields_bind; [by eapply next_byte_emits|]. intros [ol lc'] Hol.
  eapply yields_bind; [by eapply next_byte_emits|]. intros [or rc'] Hor.
  destruct bl as [|a bl], br as [|b br]; cbn in Hol, Hor; subst.
  - by apply yields_ret.
  - destruct Hor as [-> _]. by apply yields_ret.
  - destruct Hol as [-> _]. by apply yields_ret.
  - destruct Hol as [-> Hl'], Hor as [-> Hr']. apply yields_then. intros _. cbn [bytes_cmp slice_cmp].
    unfold bytes_cmp. cbn [slice_cmp]. destruct (byte_cmp a b); [by apply IH|by apply yields_ret..].
Qed.

Context (left_ok : table_ok left) (right_ok : table_ok right).

Lemma table_encodes table n : table_ok table -> 1 <= n <= node_count table.(table_columns) ->
  exists bs, encodes table.(table_columns) n bs.
Proof using Type.
  intros [_ (depth&Hk&Hm)] Hn. destruct (Hm n Hn) as (l&Hl&H0). destruct (Hk n l Hl H0) as (_&bs&Hbs&_).
  exists bs. by exists depth.
Qed.

Lemma cursor_reset_pours table depth self n bs : encode table.(table_columns) depth n = Ok bs ->
  yields (fun self' => pours table depth self' bs) (cursor_reset self n).
Proof using Type.
  intros Hbs. unfold cursor_reset. rewrite <- (app_nil_r bs). by apply cursor_push_pours; [|constructor].
Qed.

Lemma compare_in_order fuel (same : bool) cursors m n :
  (same = true -> left.(table_columns) = right.(table_columns)) ->
  yields (fun result => node_order left.(table_columns) right.(table_columns) m n result.1)
    (compare_in fuel same left right cursors m n).
Proof using left_ok right_ok.
  intros Hsame. unfold compare_in.
  apply yields_read. intros ? [-> Hm]%checked_node_id_Ok.
  apply yields_read. intros ? [-> Hn]%checked_node_id_Ok.
  destruct (table_encodes left m left_ok Hm) as [bl Hbl].
  destruct (table_encodes right n right_ok Hn) as [br Hbr].
  destruct (same && (m =? n)) eqn:E.
  - apply andb_true_iff in E as [E ->%N.eqb_eq]. apply yields_ret. exists bl, bl.
    rewrite <- (Hsame E). split; [done|]. split; [done|]. by rewrite (cmp_refl bytes_cmp).
  - destruct (table_measured _ left_ok) as (dl&Hkl&Hml). destruct (table_measured _ right_ok) as (dr&Hkr&Hmr).
    assert (Hat : forall table depth k bs, known table.(table_columns) depth table.(table_lengths) ->
      (exists l, get table.(table_lengths) k = Some l /\ l <> 0) -> encodes table.(table_columns) k bs ->
      encode table.(table_columns) depth k = Ok bs).
    { intros table depth k bs Hk (l&Hl&H0) He. destruct (Hk k l Hl H0) as (_&bs'&Hbs'&_).
      by rewrite (encodes_inj _ k bs bs' He (ex_intro _ depth Hbs')). }
    apply (Hat _ dl) in Hbl as Hl; [|done|by apply Hml]. apply (Hat _ dr) in Hbr as Hr; [|done|by apply Hmr].
    eapply yields_bind; [by apply cursor_reset_pours|]. intros lc Hlc.
    eapply yields_bind; [by apply cursor_reset_pours|]. intros rc Hrc.
    eapply yields_mono; [|eapply (compare_bytes_order fuel dl dr); [by apply table_items..|done|done|exact Hlc|exact Hrc]].
    intros result ->. by exists bl, br.
Qed.
End compare.

(** ** Keys of roots *)

(** What roots are sorted by. *)
Definition key : Type := u8 * bytes.
Definition key_cmp (k k' : key) : comparison :=
  match N.compare k.1 k'.1 with Eq => bytes_cmp k.2 k'.2 | order => order end.
Definition key_lt (k k' : key) : Prop := key_cmp k k' = Lt.

#[export] Instance key_cmp_laws : OrdLaws key_cmp.
Proof.
  unfold key_cmp. split.
  - intros [a b] [a' b']. cbn. pose proof (cmp_eq N.compare a a'). pose proof (cmp_eq bytes_cmp b b').
    destruct (a ?= a'); naive_solver.
  - intros [a b] [a' b']. cbn. rewrite (cmp_opp N.compare a a'), (cmp_opp bytes_cmp b b').
    by destruct (a ?= a').
  - intros [a b] [a' b'] [a'' b'']. cbn. destruct (a ?= a') eqn:E; [|intros _|done].
    + apply N.compare_eq in E as ->. destruct (a' ?= a''); [apply (cmp_lt_trans bytes_cmp)|done..].
    + destruct (a' ?= a'') eqn:E'; [|intros _|done].
      * apply N.compare_eq in E' as <-. by rewrite E.
      * by rewrite (cmp_lt_trans N.compare _ _ _ E E').
Qed.

#[export] Instance key_lt_trans : Transitive key_lt.
Proof. intros x y z. apply (cmp_lt_trans key_cmp). Qed.

Definition root_key (columns : DirectColumns) (root : CanonicalRootRef) (k : key) : Prop :=
  root.(root_ref_kind) = k.1 /\ encodes columns root.(root_node_id) k.2.

(** The order of two roots, as [compare_root_refs] decides it. *)
Definition root_order (left right : DirectColumns) (a b : CanonicalRootRef) (ordering : comparison) : Prop :=
  forall k k', root_key left a k -> root_key right b k' -> ordering = key_cmp k k'.

Lemma node_order_root left right a b ordering :
  N.compare a.(root_ref_kind) b.(root_ref_kind) = Eq ->
  node_order left right a.(root_node_id) b.(root_node_id) ordering -> root_order left right a b ordering.
Proof.
  intros Hk (bl&br&Hl&Hr&->) k k' [Hk1 He1] [Hk2 He2]. unfold key_cmp. rewrite <- Hk1, <- Hk2, Hk.
  by rewrite (encodes_inj _ _ _ _ Hl He1), (encodes_inj _ _ _ _ Hr He2).
Qed.

Lemma kind_order_root left right a b ordering :
  N.compare a.(root_ref_kind) b.(root_ref_kind) = ordering -> ordering <> Eq -> root_order left right a b ordering.
Proof.
  intros Hk Hne k k' [Hk1 _] [Hk2 _]. unfold key_cmp. rewrite <- Hk1, <- Hk2, Hk. by destruct ordering.
Qed.

(** The key of the root at an index. *)
Definition key_at (columns : DirectColumns) (i : usize) (k : key) : Prop :=
  exists root, root_ref columns i = Ok root /\ root_key columns root k.

Lemma root_key_inj columns root k k' : root_key columns root k -> root_key columns root k' -> k = k'.
Proof.
  intros [H1 H2] [H1' H2']. destruct k as [a b], k' as [a' b']. cbn in *.
  by rewrite <- H1, <- H1', (encodes_inj _ _ _ _ H2 H2').
Qed.

Lemma key_at_inj columns i k k' : key_at columns i k -> key_at columns i k' -> k = k'.
Proof. intros (r&Hr&Hk) (r'&Hr'&Hk'). rewrite Hr in Hr'. injection Hr' as <-. by eapply root_key_inj. Qed.

Lemma table_root_key table i root : table_ok table -> root_ref table.(table_columns) i = Ok root ->
  exists k, root_key table.(table_columns) root k.
Proof.
  intros Hok. unfold root_ref. intros (kind&_&H)%bind_Ok. apply bind_Ok in H as (n&Hn&[= <-]).
  unfold root_id in Hn. apply bind_Ok in Hn as (v&_&Hn). apply checked_node_id_Ok in Hn as [-> Hn].
  destruct (table_encodes table v Hok Hn) as [bs Hbs]. by exists (kind, bs).
Qed.

(** ** Sorted tables *)

(** The roots of a group are strictly sorted by key. *)
Definition roots_sorted (columns : DirectColumns) : Prop :=
  exists keys, Forall2 (key_at columns) (range 0 (root_count columns)) keys /\ StronglySorted key_lt keys.

(** A canonical set lists nodes whose encodings strictly increase. *)
Definition sets_sorted (columns : DirectColumns) : Prop :=
  forall i start length, i < field_count columns ->
    component_at columns i false = Ok (Collection COMPONENT_SET start length) ->
    forall offset, 1 <= offset < length -> exists m n,
      component_at columns (start + offset - 1) true = Ok (ComponentNode m) /\
      component_at columns (start + offset) true = Ok (ComponentNode n) /\
      node_order columns columns m n Lt.

Lemma roots_sorted_lt columns i j k k' : roots_sorted columns -> i < j ->
  key_at columns i k -> key_at columns j k' -> j < root_count columns -> key_lt k k'.
Proof.
  intros (keys&Hk&Hs) Hij Hi Hj Hc.
  assert (Hat : forall n q, n < root_count columns -> key_at columns n q -> get keys n = Some q).
  { intros n q Hn Hq. assert (Hr : range 0 (root_count columns) !! N.to_nat n = Some n).
    { destruct (lookup_lt_is_Some_2 (range 0 (root_count columns)) (N.to_nat n)) as [m Hm];
        [rewrite length_range; lia|].
      rewrite Hm. f_equal. apply list_elem_of_split_length in Hm as (l1&l2&E&Hl).
      apply range_from_split in E. rewrite E. unfold len. lia. }
    destruct (Forall2_lookup_l _ _ _ _ _ Hk Hr) as (q'&Hq'&Hat). rewrite get_lookup, Hq'.
    by rewrite (key_at_inj _ _ _ _ Hq Hat). }
  eapply (StronglySorted_get key_lt keys i j); [done|done|apply Hat; [lia|done]|by apply Hat].
Qed.

(** ** The validation of an order

    Over any comparison of the nodes or of the roots of the table. *)

Section validate.
Context {S : Type} (I : S -> Prop) (table : CanonicalTable) (ok : table_ok table).

Abbreviation self_columns := table.(table_columns).

Lemma set_member_reads i :
  yields (fun n => component_at self_columns i true = Ok (ComponentNode n)) (set_member self_columns i).
Proof using ok.
  unfold set_member. eapply yields_bind; [apply canonical_component_reads, table_items, ok|].
  intros [|n| | |] [Hat _]; try apply yields_error. by apply yields_ret.
Qed.

Section sets.
Context (compare_nodes : S -> usize -> usize -> Bud (comparison * S)) (error : KernelError).
Context (compares : forall self m n, I self ->
  yields (fun r => node_order self_columns self_columns m n r.1 /\ I r.2) (compare_nodes self m n)).

(** The members of the set of a field. *)
Definition set_sorted (i : usize) : Prop := forall start length,
  component_at self_columns i false = Ok (Collection COMPONENT_SET start length) ->
  forall offset, 1 <= offset < length -> exists m n,
    component_at self_columns (start + offset - 1) true = Ok (ComponentNode m) /\
    component_at self_columns (start + offset) true = Ok (ComponentNode n) /\
    node_order self_columns self_columns m n Lt.

Lemma field_kind_component i kind k start length :
  field_kind self_columns i = Ok kind -> component_at self_columns i false = Ok (Collection k start length) ->
  kind = k.
Proof using Type.
  intros Hk. unfold component_at, component_read. rewrite Hk. cbn [mbind outcome_bind].
  intros ([[kd v] l]&Hr&H)%bind_Ok. apply bind_Ok in Hr as (v'&_&Hr). apply bind_Ok in Hr as (l'&_&[= <- <- <-]).
  revert H. unfold component_of. destruct (kind =? COMPONENT_NONE); [done|].
  destruct (kind =? COMPONENT_NODE); [done|].
  destruct (kind =? COMPONENT_INTEGER); [by intros (?&_&?)%bind_Ok|].
  destruct (_ || _); [by intros [= <-]|by intros (?&_&?)%bind_Ok].
Qed.

Lemma validate_set_sorts self i : I self ->
  yields (fun self' => set_sorted i /\ I self') (validate_set self_columns compare_nodes error self i).
Proof using ok compares.
  intros HI. unfold validate_set. apply yields_then. intros _. apply yields_read. intros kind Hk.
  destruct (N.eqb_spec kind COMPONENT_SET) as [->|Hne]; cbn [negb].
  2: { apply yields_ret. split; [|done]. intros start length Hat.
    by destruct Hne; eapply field_kind_component. }
  eapply yields_bind; [apply canonical_component_reads, table_items, ok|].
  intros [| | | |kind start length] [Hat Hfit]; try apply yields_error. cbn in Hfit.
  destruct (kind =? COMPONENT_SET); cbn [negb]; [|apply yields_error].
  eapply yields_mono; [|apply (yields_foldM_ind (fun done self' => I self' /\ forall offset, offset ∈ done ->
    exists m n, component_at self_columns (start + offset - 1) true = Ok (ComponentNode m) /\
      component_at self_columns (start + offset) true = Ok (ComponentNode n) /\
      node_order self_columns self_columns m n Lt))].
  - intros self' [HI' Hd]. split; [|done]. intros start' length' Hat' offset Ho.
    rewrite Hat in Hat'. injection Hat' as _ -> ->. apply Hd, elem_of_range. lia.
  - split; [done|]. by intros o ?%elem_of_nil.
  - intros d offset rest self' Hsplit [HI' Hd].
    assert (Ho : offset ∈ range 1 length) by (rewrite Hsplit; set_solver). apply elem_of_range in Ho.
    rewrite !wrapping_add_small by lia. apply yields_then. intros _.
    eapply yields_bind; [apply set_member_reads|]. intros m Hm.
    eapply yields_bind; [apply set_member_reads|]. intros n Hn.
    eapply yields_bind; [by apply compares|]. intros [order self2] [Hord HI2]. cbn in Hord, HI2.
    destruct order; try apply yields_error. apply yields_ret. split; [done|].
    intros o [Ho'| ->%list_elem_of_singleton]%elem_of_app; [by apply Hd|]. by exists m, n.
Qed.

Lemma validate_sets_sorts self : I self ->
  yields (fun self' => sets_sorted self_columns /\ I self')
    (validate_canonical_sets self_columns compare_nodes error self).
Proof using ok compares.
  intros HI. unfold validate_canonical_sets.
  eapply yields_mono; [|apply (yields_foldM_ind (fun done self' => I self' /\ forall i, i ∈ done -> set_sorted i))].
  - intros self' [HI' Hd]. split; [|done]. intros i start length Hi Hat. eapply Hd; [|done].
    apply elem_of_range. lia.
  - split; [done|]. by intros o ?%elem_of_nil.
  - intros d i rest self' _ [HI' Hd]. eapply yields_mono; [|by apply validate_set_sorts].
    intros self2 [Hs HI2]. split; [done|].
    by intros j [Hj| ->%list_elem_of_singleton]%elem_of_app; [apply Hd|].
Qed.
End sets.

Section roots.
Context (compare_roots : S -> CanonicalRootRef -> CanonicalRootRef -> Bud (comparison * S)).
Context (error : KernelError).
Context (compares : forall self a b, I self ->
  yields (fun r => root_order self_columns self_columns a b r.1 /\ I r.2) (compare_roots self a b)).

Lemma validate_group_sorts self : I self ->
  yields (fun self' => roots_sorted self_columns /\ I self') (validate_group self_columns compare_roots error self).
Proof using ok compares.
  intros HI. unfold validate_group.
  eapply yields_bind; [apply (yields_foldM_ind (fun done st => I st.1 /\ exists keys,
    Forall2 (key_at self_columns) done keys /\ StronglySorted key_lt keys /\
    match st.2 with
    | Some root => exists k, last keys = Some k /\ root_key self_columns root k
    | None => keys = []
    end))|].
  - split; [done|]. exists []. repeat constructor.
  - intros d i rest [self' previous] _ (HI'&keys&Hk&Hs&Hp). cbn [fst snd] in *. unfold validate_root.
    apply yields_then. intros _. apply yields_read. intros root Hr.
    destruct (table_root_key table i root ok Hr) as [k Hrk].
    eapply (yields_bind (fun self2 => I self2 /\ forall k', last keys = Some k' -> key_lt k' k)).
    + destruct previous as [p|]; [|apply yields_ret; split; [done|]; by subst keys].
      eapply yields_bind; [by apply compares|]. intros [order self2] [Hord HI2]. cbn in Hord, HI2.
      destruct order; try apply yields_error. apply yields_ret. split; [done|].
      destruct Hp as (k'&Hlast&Hpk). rewrite Hlast. intros ? [= <-]. symmetry. by apply Hord.
    + intros self2 [HI2 Hlt]. apply yields_ret. split; [done|]. exists (keys ++ [k]). split; [|split].
      * apply Forall2_app; [done|]. constructor; [by exists root|constructor].
      * by apply (StronglySorted_snoc key_lt).
      * exists k. split; [apply last_snoc|done].
  - intros [self' p] (HI'&keys&Hk&Hs&_). apply yields_ret. split; [by exists keys|done].
Qed.
End roots.

(** [kind_order], then the nodes. *)
Lemma compare_root_refs_order left right (compare_nodes : S -> usize -> usize -> Bud (comparison * S)) self a b :
  (forall self m n, I self -> yields (fun r => node_order left right m n r.1 /\ I r.2) (compare_nodes self m n)) ->
  I self -> yields (fun r => root_order left right a b r.1 /\ I r.2) (compare_root_refs compare_nodes self a b).
Proof using Type.
  intros Hc HI. unfold compare_root_refs. destruct (a.(root_ref_kind) ?= b.(root_ref_kind)) eqn:E.
  - eapply yields_mono; [|by apply Hc]. intros r [Ho HI']. split; [by apply node_order_root|done].
  - apply yields_ret. split; [by apply kind_order_root|done].
  - apply yields_ret. split; [by apply kind_order_root|done].
Qed.
End validate.
