(* ===== verification/Groups.v ===== *)
(** * The selected roots of a merge, and their groups

    [selected_root] walks the roots and the postings of a table together, and
    finds the roots that [root_is_selected] selects, in order.

    What a canonical merge returns, whatever its tables are read from: groups of
    roots with the same key, in strictly increasing order, that hold every
    selected root.  The groups are determined by the tables. *)

From stdpp Require Import sorting.
From S2P Require Import Prelude Errors Partial Lists Tags Text Workspace Readers Columns Nodes Generic Search Cycles.
From S2P Require Import Structure Reach Validated Preparation Budget Encode Merge Terms Lengths.
From S2P Require Import Ordering.
Local Open Scope string_scope.
Local Open Scope list_scope.
Local Open Scope N_scope.

Section selecting.
Context (columns : DirectColumns) {V : Validated columns}.

Abbreviation included := (negb (is_empty columns.(included_root_ids))).
Abbreviation count := (posting_count columns included).

(** The postings before a position are those of the roots before it. *)
Definition behind (position posting : usize) : Prop :=
  forall j v, j < posting -> posting_position columns included j = Ok v -> v <= position.

Lemma postings_sorted : sorted_postings columns (posting_position columns included) count.
Proof using V. destruct (validated_postings columns) as [Hi He _]. by destruct included. Qed.

Lemma count_small : count <= usize_max.
Proof using V.
  unfold posting_count. pose proof (validated_resident (self := columns)) as R.
  pose proof (resident_included _ R) as Hi. pose proof (resident_excluded _ R) as He. unfold sized in *.
  destruct included; (etransitivity; [apply (N.Div0.div_le_mono _ usize_max); done|]); by vm_compute.
Qed.

Lemma selected_listed i :
  selected columns i <->
  (if included then listed (posting_position columns included) count (i + 1)
   else ~ listed (posting_position columns included) count (i + 1)).
Proof using Type. unfold selected. by destruct (is_empty columns.(included_root_ids)). Qed.

Lemma match_posting_spec fuel position posting : behind position posting -> position + 1 <= usize_max ->
  yields (fun r => (r.1 = included <-> selected columns position) /\ behind (position + 1) r.2 /\
    (r.1 = included -> behind position r.2))
    (match_posting fuel columns included count (position + 1) posting).
Proof using V.
  intros Hb Hp. destruct postings_sorted as [Hin Hlt]. pose proof count_small as Hc.
  revert posting Hb. induction fuel as [|fuel IH]; intros posting Hb; cbn [match_posting];
    destruct (N.ltb_spec posting count) as [Hq|Hq].
  1: by apply yields_spared.
  1, 3: assert (Hno : ~ listed (posting_position columns included) count (position + 1))
    by (intros (j&Hj&Hv); pose proof (Hb j _ ltac:(lia) Hv); lia);
    apply yields_ret; split; [|split; [|done]];
    [rewrite selected_listed; by destruct included|intros j v Hj Hv; pose proof (Hb j v Hj Hv); lia].
  apply yields_then. intros _.
  replace (if included then included_root_position columns posting else excluded_root_position columns posting)
    with (posting_position columns included posting) by (by destruct included).
  apply yields_read. intros c Hcand. rewrite wrapping_add_small by lia.
  assert (Hone : forall bound, c <= bound -> behind bound posting -> behind bound (posting + 1)).
  { intros bound Hle Hb' j v Hj Hv. destruct (N.eq_dec j posting) as [->|Hne]; [congruence|].
    apply (Hb' j v); [lia|done]. }
  assert (Hweak : behind (position + 1) posting) by (intros j v Hj Hv; pose proof (Hb j v Hj Hv); lia).
  destruct (N.ltb_spec c (position + 1)) as [Hl|Hge].
  { apply IH, Hone; [lia|done]. }
  destruct (N.eqb_spec c (position + 1)) as [->|Hne]; apply yields_ret.
  - assert (Hyes : listed (posting_position columns included) count (position + 1)) by (by exists posting).
    rewrite selected_listed. destruct included; cbn [fst snd]; [done|].
    split; [split; [done|by intros []]|]. split; [by apply Hone|done].
  - assert (Hno : ~ listed (posting_position columns included) count (position + 1)).
    { intros (j&Hj&Hv). destruct (N.lt_trichotomy j posting) as [H|[->|H]].
      - pose proof (Hb j _ H Hv). lia.
      - congruence.
      - pose proof (Hlt posting j c _ H Hj Hcand Hv). lia. }
    rewrite selected_listed. by destruct included.
Qed.

(** The next selected root at the position or after it. *)
Definition next_selected (position : usize) (result : option CanonicalRootRef * (usize * usize)) : Prop :=
  let '(root, (found, posting)) := result in
  position <= found /\ behind found posting /\ (forall i, position <= i < found -> ~ selected columns i) /\
  match root with
  | Some root => found < root_count columns /\ selected columns found /\ root_ref columns found = Ok root
  | None => root_count columns <= found
  end.

Lemma select_root_spec fuel rounds position posting : behind position posting ->
  yields (next_selected position) (select_root fuel rounds columns position posting).
Proof using V.
  revert position posting. induction rounds as [|rounds IH]; intros position posting Hb; cbn [select_root];
    destruct (N.ltb_spec position (root_count columns)) as [Hr|Hr].
  1: by apply yields_spared.
  1, 3: apply yields_ret; split; [lia|]; split; [done|]; split; [lia|done].
  pose proof (validated_root_room columns) as Hroom.
  apply yields_then. intros _. apply yields_read. intros rp Hrp%ok_or_Ok. apply checked_add_Some in Hrp as [-> _].
  replace (if included then len columns.(included_root_ids) / 4 else len columns.(excluded_root_ids) / 4)
    with count by (unfold posting_count; by destruct included).
  eapply yields_bind; [apply match_posting_spec; [done|lia]|]. intros [matched posting'] (Hsel&Hb1&Hb2).
  cbn [fst snd] in *.
  replace (negb (if included then matched else negb matched)) with (negb (bool_decide (matched = included)))
    by (by destruct included, matched).
  destruct (bool_decide_reflect (matched = included)) as [E|E]; cbn [negb].
  - apply yields_read. intros root Hroot. apply yields_ret. split; [lia|]. split; [by apply Hb2|].
    split; [lia|]. split; [done|]. split; [by apply Hsel|done].
  - rewrite wrapping_add_small by lia. eapply yields_mono; [|by apply IH].
    intros [root [found posting'']] (Hle&Hb'&Hno&Hfound). split; [lia|]. split; [done|]. split; [|done].
    intros i Hi. destruct (N.eq_dec i position) as [->|Hne]; [by rewrite <- Hsel|]. apply Hno. lia.
Qed.

(** ** The roots that remain *)

Definition remaining (position : usize) : list usize :=
  filter (fun i => root_is_selected columns i = Ok true) (range position (root_count columns)).

Lemma is_selected_iff i : i < root_count columns -> root_is_selected columns i = Ok true <-> selected columns i.
Proof using V.
  intros Hi. destruct (root_is_selected_spec columns i (validated_postings columns) Hi) as (b&->&<-).
  split; [by intros [= ->]|by intros ->].
Qed.

Lemma remaining_skip position found : position <= found -> (forall i, position <= i < found -> ~ selected columns i) ->
  remaining position = remaining found.
Proof using V.
  intros Hle Hno. unfold remaining. destruct (N.le_gt_cases found (root_count columns)) as [Hf|Hf].
  - rewrite (range_app position found) by lia. rewrite filter_app.
    rewrite filter_none; [done|]. intros i Hi%elem_of_range. rewrite is_selected_iff by lia.
    by apply Hno.
  - rewrite (range_empty found) by lia. apply filter_none.
    intros i Hi%elem_of_range. rewrite is_selected_iff by lia. apply Hno. lia.
Qed.

Lemma remaining_cons position : position < root_count columns -> selected columns position ->
  remaining position = position :: remaining (position + 1).
Proof using V.
  intros Hp Hs. unfold remaining. rewrite range_cons by done. rewrite filter_cons_True; [done|].
  by apply is_selected_iff.
Qed.

Lemma remaining_end position : root_count columns <= position -> remaining position = [].
Proof using Type. intros Hp. unfold remaining. by rewrite range_empty. Qed.

(** What [selected_root] finds is the head of what remains. *)
Definition heads (position : usize) (result : option CanonicalRootRef * (usize * usize)) : Prop :=
  let '(root, (found, posting)) := result in
  behind found posting /\ remaining found = remaining position /\
  match root with
  | Some root => root_ref columns found = Ok root /\ remaining found = found :: remaining (found + 1) /\
      found + 1 <= usize_max
  | None => remaining found = []
  end.

Lemma select_root_heads fuel rounds position posting : behind position posting ->
  yields (heads position) (select_root fuel rounds columns position posting).
Proof using V.
  intros Hb. eapply yields_mono; [|by apply select_root_spec].
  intros [root [found posting']] (Hle&Hb'&Hno&Hf). split; [done|]. split; [symmetry; by apply remaining_skip|].
  destruct root as [root|].
  - destruct Hf as (Hlt&Hsel&Href). pose proof (validated_root_room columns).
    split; [done|]. split; [by apply remaining_cons|lia].
  - by apply remaining_end.
Qed.

Lemma behind_start : behind 0 0.
Proof using Type. intros j v Hj. lia. Qed.

Lemma behind_next position posting : behind position posting -> behind (position + 1) posting.
Proof using Type. intros Hb j v Hj Hv. pose proof (Hb j v Hj Hv). lia. Qed.
End selecting.

(** ** Vectors read by index *)

Notation "l .[ i ]" := (l !!! N.to_nat i) (at level 2, left associativity, format "l .[ i ]") : kernel_scope.

#[export] Instance CanonicalTable_inhabited : Inhabited CanonicalTable.
Proof.
  refine (populate {| table_columns := {|
    root_kinds := []; root_ids := []; included_root_ids := []; excluded_root_ids := [];
    anonymous_scope_map := []; anonymous_scope_map_chain := None; node_tags := [];
    node_field_offsets := []; field_kinds := []; field_values := []; field_lengths := [];
    item_kinds := []; item_values := []; item_lengths := []; scalar_bytes := [] |};
    table_lengths := [] |}).
Defined.

Section vectors.
Context {A : Type} `{!Inhabited A}.

Lemma get_total (l : list A) i : i < len l -> get l i = Some l.[i].
Proof using Type.
  intros Hi. rewrite get_lookup. apply list_lookup_lookup_total_lt. unfold len in Hi. lia.
Qed.

Lemma get_total_Some (l : list A) i a : get l i = Some a -> i < len l /\ a = l.[i].
Proof using Type.
  intros Hi. pose proof (get_Some_lt _ _ _ Hi) as Hlt. rewrite get_total in Hi by done. by injection Hi as <-.
Qed.

Lemma index_total (l : list A) i a : index l i = Ok a -> i < len l /\ a = l.[i].
Proof using Type. rewrite index_Ok. apply get_total_Some. Qed.

Lemma store_total (l : list A) i v k : store l i v = Ok k ->
  i < len l /\ len k = len l /\ k.[i] = v /\ (forall j, j <> i -> k.[j] = l.[j]).
Proof using Type.
  unfold store. destruct (N.ltb_spec i (len l)) as [Hi|]; [|done]. intros [= <-].
  split; [done|]. split; [unfold len; by rewrite length_insert|]. split.
  - apply list_lookup_total_insert_eq. unfold len in Hi. lia.
  - intros j Hj. apply list_lookup_total_insert_ne. lia.
Qed.
End vectors.

Lemma sum_total {A} `{!Inhabited A} (w : A -> N) l : sum (fun t => w l.[t]) (range 0 (len l)) = sum w l.
Proof.
  induction l as [|x l IH] using rev_ind; [done|]. rewrite len_app, sum_app. change (len [x]) with 1.
  rewrite range_snoc by lia. rewrite sum_app, <- IH. f_equal.
  - apply sum_ext. intros t Ht%elem_of_range. rewrite lookup_total_app_l; [done|]. unfold len in Ht. lia.
  - cbn. unfold len. rewrite Nat2N.id, lookup_total_app_r, Nat.sub_diag by lia. done.
Qed.

(** A loop over a range meets every element once. *)
Lemma range_fresh a b d t rest : range a b = d ++ t :: rest -> t ∉ d.
Proof.
  intros Hsplit Hd. pose proof (range_sorted a b) as Hs. rewrite Hsplit in Hs.
  apply StronglySorted_app_1_elem_of with (x1 := t) (x2 := t) in Hs; [lia|done|by left].
Qed.

(** The roots after a head are greater. *)
Lemma remaining_greater columns p i rest j ki kj : roots_sorted columns -> remaining columns p = i :: rest ->
  j ∈ rest -> key_at columns i ki -> key_at columns j kj -> key_lt ki kj.
Proof.
  intros Hsorted Hrem Hj Hi Hkj. assert (Hs : StronglySorted N.lt (i :: rest)).
  { rewrite <- Hrem. apply filter_sorted, range_sorted. }
  apply StronglySorted_inv in Hs as [_ Hs]. rewrite Forall_forall in Hs.
  apply (roots_sorted_lt columns i j); [done|by apply Hs|done|done|].
  assert (Hin : j ∈ remaining columns p) by (rewrite Hrem; by right).
  apply list_elem_of_filter in Hin as [_ Hin]. apply elem_of_range in Hin. lia.
Qed.

(** ** Merging what remains *)

(** A group has an entry per table. *)
Abbreviation root_group := (list (option CanonicalRootRef)).

(** The roots of a table in the groups. *)
Definition roots_in (t : usize) (groups : list root_group) : list CanonicalRootRef :=
  omap (fun group : root_group => group.[t]) groups.

Section merging.
Context (column : usize -> DirectColumns) (count : usize).

Definition group_at (group : root_group) (k : key) : Prop :=
  len group = count /\ (exists t root, t < count /\ group.[t] = Some root) /\
  forall t root, t < count -> group.[t] = Some root -> root_key (column t) root k.

(** The next group, with the roots that remain before and after it. *)
Record next_group (before after : usize -> list usize) (group : root_group) (k : key) : Prop := {
  next_group_at : group_at group k;
  next_taken t : t < count ->
    match group.[t] with
    | Some root => exists i, root_ref (column t) i = Ok root /\ before t = i :: after t
    | None => after t = before t
    end;
  next_least t i ki : t < count -> i ∈ after t -> key_at (column t) i ki -> key_lt k ki;
}.

(** The groups are what a merge of the roots that remain has to be. *)
Record merged (rest : usize -> list usize) (groups : list root_group) (keys : list key) : Prop := {
  merged_groups : Forall2 group_at groups keys;
  merged_sorted : StronglySorted key_lt keys;
  merged_keys k : k ∈ keys -> exists t i, t < count /\ i ∈ rest t /\ key_at (column t) i k;
  merged_roots t : t < count ->
    Forall2 (fun i root => root_ref (column t) i = Ok root) (rest t) (roots_in t groups);
}.

Lemma next_group_before before before' after group k : (forall t, t < count -> before' t = before t) ->
  next_group before after group k -> next_group before' after group k.
Proof using Type.
  intros Hb [Hg Ht Hl]. split; [done| |done]. intros t Hlt. rewrite Hb by done. by apply Ht.
Qed.

Lemma merged_none rest : (forall t, t < count -> rest t = []) -> merged rest [] [].
Proof using Type.
  intros Hr. split; [constructor..| |].
  - by intros k ?%elem_of_nil.
  - intros t Ht. rewrite Hr by done. constructor.
Qed.

Lemma merged_step before after group k groups keys :
  next_group before after group k -> merged after groups keys -> merged before (group :: groups) (k :: keys).
Proof using Type.
  intros [Hgroup Htaken Hleast] [Hgs Hs Hk Hr]. split.
  - by constructor.
  - constructor; [done|]. apply Forall_forall. intros k' Hk'. destruct (Hk k' Hk') as (t&i&Ht&Hi&Hat).
    by apply (Hleast t i).
  - assert (Hsub : forall t i, t < count -> i ∈ after t -> i ∈ before t).
    { intros t i Ht Hi. specialize (Htaken t Ht). destruct group.[t]; [|by rewrite <- Htaken].
      destruct Htaken as (i0&_&->). by right. }
    intros k' [->|Hk']%elem_of_cons.
    + destruct Hgroup as (_&(t&root&Ht&Hroot)&Hkeys). specialize (Htaken t Ht). rewrite Hroot in Htaken.
      destruct Htaken as (i&Href&Hrest). exists t, i. split; [done|]. split; [rewrite Hrest; by left|].
      exists root. split; [done|]. by apply Hkeys.
    + destruct (Hk k' Hk') as (t&i&Ht&Hi&Hat). exists t, i. auto.
  - intros t Ht. specialize (Htaken t Ht). specialize (Hr t Ht). unfold roots_in. cbn [omap list_omap].
    destruct group.[t] as [root|].
    + destruct Htaken as (i&Href&->). by constructor.
    + by rewrite <- Htaken.
Qed.
End merging.

(** ** The canonical merge *)

(** Specification: the selected roots of all tables in the canonical order of
    their terms, the roots with the same kind and term in one group. *)
Definition stands_for (columns : DirectColumns) (root : CanonicalRootRef) (k : u8 * Term) : Prop :=
  root.(root_ref_kind) = k.1 /\ denotes columns root.(root_node_id) k.2.
Definition term_lt (k k' : u8 * Term) : Prop := key_lt (k.1, node_bytes k.2) (k'.1, node_bytes k'.2).

Record canonical_groups (columns : list DirectColumns) (groups : list root_group) (terms : list (u8 * Term))
    : Prop := {
  groups_stand : Forall2 (fun group k =>
    len group = len columns /\ (exists t root, get group t = Some (Some root)) /\
    forall t c root, get columns t = Some c -> get group t = Some (Some root) -> stands_for c root k) groups terms;
  groups_sorted : StronglySorted term_lt terms;
  groups_roots t c : get columns t = Some c ->
    Forall2 (fun i root => root_ref c i = Ok root) (selected_roots c) (roots_in t groups);
}.

(** The key is the one of a term. *)
Lemma group_term column count group k : group_at column count group k ->
  exists term, k = (term.1, node_bytes term.2) /\
    forall t root, t < count -> group.[t] = Some root -> stands_for (column t) root term.
Proof.
  destruct k as [kind bs]. intros (_&(t&root&Ht&Hroot)&Hk).
  destruct (Hk t root Ht Hroot) as [_ (term&_&Hp&Hn&Hbs)%encodes_denotes]. cbn in Hbs.
  exists (kind, term). split; [by rewrite Hbs|]. intros u root' Hu Hroot'.
  destruct (Hk u root' Hu Hroot') as [Hkind (term'&Hd&Hp'&Hn'&Hbs')%encodes_denotes]. split; [done|]. cbn in *.
  by rewrite (node_bytes_inj term term') by congruence.
Qed.

Lemma merged_canonical columns column count rest groups keys : count = len columns ->
  (forall t c, get columns t = Some c -> t < count /\ c = column t) ->
  (forall t, t < count -> rest t = selected_roots (column t)) ->
  merged column count rest groups keys -> exists terms, canonical_groups columns groups terms.
Proof.
  intros Hlen Hcol Hrest [Hg Hs _ Hr].
  assert (Hterms : exists terms, keys = (fun k => (k.1, node_bytes k.2)) <$> terms /\
    Forall2 (fun group k => len group = len columns /\ (exists t root, get group t = Some (Some root)) /\
      forall t c root, get columns t = Some c -> get group t = Some (Some root) -> stands_for c root k) groups terms).
  { clear Hs Hr. induction Hg as [|group k groups keys Hk _ (terms&->&IH)]; [by exists []|].
    destruct (group_term _ _ _ _ Hk) as (term&->&Hst). exists (term :: terms). split; [done|].
    constructor; [|done]. destruct Hk as (Hl&(t&root&Ht&Hroot)&_). split; [congruence|]. split.
    - exists t, root. rewrite get_total by congruence. by rewrite Hroot.
    - intros u c r [Hu ->]%Hcol [_ Hr]%get_total_Some. by apply Hst. }
  destruct Hterms as (terms&->&Hst). exists terms. split; [done| |].
  - clear -Hs. induction terms as [|k terms IH]; [constructor|]. apply StronglySorted_inv in Hs as [Hs Hk].
    constructor; [by apply IH|]. apply Forall_forall. intros k' Hk'.
    rewrite Forall_forall in Hk. apply (Hk (k'.1, node_bytes k'.2)). apply list_elem_of_fmap. by exists k'.
  - intros t c [Ht ->]%Hcol. rewrite <- Hrest by done. by apply Hr.
Qed.

(** ** Only one merge *)

(** Strictly sorted lists of the same elements. *)
Lemma sorted_unique {A} (R : A -> A -> Prop) l k : (forall x, ~ R x x) -> (forall x y, R x y -> ~ R y x) ->
  StronglySorted R l -> StronglySorted R k -> (forall x, x ∈ l <-> x ∈ k) -> l = k.
Proof.
  intros Hirr Hasym Hl. revert k. induction Hl as [|x l Hl IH Hx]; intros k Hk Heq.
  { destruct k as [|y k]; [done|]. exfalso. apply (not_elem_of_nil y), Heq. by left. }
  destruct k as [|y k]; [exfalso; apply (not_elem_of_nil x), Heq; by left|].
  apply StronglySorted_inv in Hk as [Hk Hy]. rewrite Forall_forall in Hx. rewrite Forall_forall in Hy.
  assert (x = y) as <-.
  { assert (Hxk : x ∈ y :: k) by (apply Heq; by left). assert (Hyl : y ∈ x :: l) by (apply Heq; by left).
    apply elem_of_cons in Hxk as [|Hxk]; [done|]. apply elem_of_cons in Hyl as [|Hyl]; [done|].
    by destruct (Hasym x y (Hx _ Hyl) (Hy _ Hxk)). }
  f_equal. apply IH; [done|]. intros z. split; intros Hz.
  - assert (Hzk : z ∈ x :: k) by (apply Heq; by right).
    apply elem_of_cons in Hzk as [->|]; [|done]. by destruct (Hirr x (Hx _ Hz)).
  - assert (Hzl : z ∈ x :: l) by (apply Heq; by right).
    apply elem_of_cons in Hzl as [->|]; [|done]. by destruct (Hirr x (Hy _ Hz)).
Qed.

Lemma Forall2_functional {A B} (R : A -> B -> Prop) l k k' :
  (forall x y y', R x y -> R x y' -> y = y') -> Forall2 R l k -> Forall2 R l k' -> k = k'.
Proof.
  intros Hf H1. revert k'. induction H1 as [|x y l k Hxy _ IH]; intros k' H2; inversion H2; subst; [done|].
  f_equal; [by eapply Hf|by apply IH].
Qed.

Section unique.
Context (columns : list DirectColumns).

Lemma elem_of_roots_in t groups root : root ∈ roots_in t groups <->
  exists group, group ∈ groups /\ group.[t] = Some root.
Proof using Type. unfold roots_in. by rewrite list_elem_of_omap. Qed.

Lemma stands_for_inj c root k k' : stands_for c root k -> stands_for c root k' -> k = k'.
Proof using Type.
  destruct k as [kind t], k' as [kind' t']. intros [H1 H2] [H1' H2']. cbn in *.
  apply denotes_encodes in H2 as (Hp&Hn&He). apply denotes_encodes in H2' as (Hp'&Hn'&He').
  rewrite <- H1, <- H1'. f_equal. apply node_bytes_inj; try done. by eapply encodes_inj.
Qed.

(** A root of the groups, with the term of its group. *)
Lemma group_of_root groups terms t c root : canonical_groups columns groups terms -> get columns t = Some c ->
  root ∈ roots_in t groups -> exists j group k, groups !! j = Some group /\ terms !! j = Some k /\
    get group t = Some (Some root) /\ stands_for c root k.
Proof using Type.
  intros [Hst _ _] Hc (group&[j Hj]%list_elem_of_lookup&Hroot)%elem_of_roots_in.
  destruct (Forall2_lookup_l _ _ _ _ _ Hst Hj) as (k&Hk&Hl&_&Hkey). exists j, group, k.
  assert (Hget : get group t = Some (Some root)).
  { rewrite get_total, Hroot; [done|]. rewrite Hl. by apply get_Some_lt in Hc. }
  split; [done|]. split; [done|]. split; [done|]. by eapply Hkey.
Qed.

Lemma groups_terms groups terms k : canonical_groups columns groups terms ->
  k ∈ terms <-> exists t c root, get columns t = Some c /\ root ∈ roots_in t groups /\ stands_for c root k.
Proof using Type.
  intros Hg. split.
  - intros [j Hj]%list_elem_of_lookup. destruct Hg as [Hst _ _].
    destruct (Forall2_lookup_r _ _ _ _ _ Hst Hj) as (group&Hgroup&Hl&(t&root&Hroot)&Hkey).
    destruct (get_lt_Some columns t) as [c Hc]; [rewrite <- Hl; by apply get_Some_lt in Hroot|].
    exists t, c, root. split; [done|]. split; [|by eapply Hkey]. apply elem_of_roots_in. exists group.
    split; [by eapply list_elem_of_lookup_2|]. by apply get_total_Some in Hroot as [_ <-].
  - intros (t&c&root&Hc&Hin&Hst). destruct (group_of_root _ _ _ _ _ Hg Hc Hin) as (j&group&k'&_&Hk'&_&Hst').
    rewrite (stands_for_inj _ _ _ _ Hst Hst'). by eapply list_elem_of_lookup_2.
Qed.

Lemma groups_same_roots groups groups' terms terms' t c : canonical_groups columns groups terms ->
  canonical_groups columns groups' terms' -> get columns t = Some c -> roots_in t groups = roots_in t groups'.
Proof using Type.
  intros Hg Hg' Hc. eapply Forall2_functional; [|by eapply groups_roots|by eapply groups_roots].
  intros i r r' Hr Hr'. congruence.
Qed.

Lemma term_lt_irrefl k : ~ term_lt k k.
Proof using Type. apply (cmp_lt_irrefl key_cmp). Qed.
Lemma term_lt_asym k k' : term_lt k k' -> ~ term_lt k' k.
Proof using Type. apply (cmp_lt_asym key_cmp). Qed.

Lemma sorted_lookup_inj terms i j k : StronglySorted term_lt terms ->
  terms !! i = Some k -> terms !! j = Some k -> i = j.
Proof using Type.
  intros Hs Hi Hj. destruct (Nat.lt_trichotomy i j) as [H|[H|H]]; [|done|]; exfalso; apply (term_lt_irrefl k).
  - apply (StronglySorted_get term_lt terms (N.of_nat i) (N.of_nat j)); [done|lia|..];
      by rewrite get_lookup, Nat2N.id.
  - apply (StronglySorted_get term_lt terms (N.of_nat j) (N.of_nat i)); [done|lia|..];
      by rewrite get_lookup, Nat2N.id.
Qed.

(** The tables determine the groups. *)
Lemma canonical_groups_unique groups groups' terms terms' :
  canonical_groups columns groups terms -> canonical_groups columns groups' terms' -> groups = groups'.
Proof using Type.
  intros Hg Hg'.
  assert (terms = terms') as <-.
  { apply (sorted_unique term_lt); [apply term_lt_irrefl|apply term_lt_asym|apply Hg|apply Hg'|].
    intros k. rewrite (groups_terms groups), (groups_terms groups') by done.
    split; intros (t&c&root&Hc&Hin&Hst); exists t, c, root.
    - by rewrite <- (groups_same_roots groups groups' terms terms' t c).
    - by rewrite (groups_same_roots groups groups' terms terms' t c). }
  pose proof (groups_stand _ _ _ Hg) as Hst. pose proof (groups_stand _ _ _ Hg') as Hst'.
  assert (Hsame : forall groups groups' j group group' t root,
    canonical_groups columns groups terms -> canonical_groups columns groups' terms ->
    groups !! j = Some group -> groups' !! j = Some group' ->
    get group t = Some (Some root) -> get group' t = Some (Some root)).
  { clear -columns. intros groups groups' j group group' t root Hg Hg' Hj Hj' Hroot.
    destruct (Forall2_lookup_l _ _ _ _ _ (groups_stand _ _ _ Hg) Hj) as (k&Hk&Hl&_&Hkey).
    destruct (get_lt_Some columns t) as [c Hc]; [rewrite <- Hl; by apply get_Some_lt in Hroot|].
    assert (Hin : root ∈ roots_in t groups').
    { rewrite <- (groups_same_roots groups groups' terms terms t c) by done. apply elem_of_roots_in.
      exists group. split; [by eapply list_elem_of_lookup_2|]. by apply get_total_Some in Hroot as [_ <-]. }
    destruct (group_of_root _ _ _ _ _ Hg' Hc Hin) as (i&group2&k2&Hi&Hk2&Hget&Hst).
    rewrite (stands_for_inj _ _ _ _ (Hkey t c root Hc Hroot) Hst) in Hk.
    rewrite (sorted_lookup_inj terms i j k2 (groups_sorted _ _ _ Hg) Hk2 Hk) in Hi. congruence. }
  assert (Hlen : forall gs j g, canonical_groups columns gs terms -> gs !! j = Some g -> len g = len columns).
  { intros gs j g Hgs Hj. by destruct (Forall2_lookup_l _ _ _ _ _ (groups_stand _ _ _ Hgs) Hj) as (k&_&Hl&_). }
  apply (list_eq_same_length _ _ (length groups)); [|done|].
  { by rewrite (Forall2_length _ _ _ Hst), (Forall2_length _ _ _ Hst'). }
  intros j g g' _ Hj Hj'. pose proof (Hlen groups j g Hg Hj) as Hl. pose proof (Hlen groups' j g' Hg' Hj') as Hl'.
  apply (list_eq_same_length _ _ (length g)); [unfold len in *; lia|done|]. intros t x x' Ht Hx Hx'.
  assert (Hget : forall (l : root_group) y, l !! t = Some y -> get l (N.of_nat t) = Some y)
    by (intros l y Hy; by rewrite get_lookup, Nat2N.id).
  apply Hget in Hx, Hx'. destruct x as [root|].
  - pose proof (Hsame groups groups' j g g' _ root Hg Hg' Hj Hj' Hx). congruence.
  - destruct x' as [root|]; [|done]. pose proof (Hsame groups' groups j g' g _ root Hg' Hg Hj' Hj Hx'). congruence.
Qed.
End unique.
