(* ===== verification/Kway.v ===== *)
(** * The merge of any number of tables

    [CanonicalKWayRootMerger::next] returns the group of the least roots that
    remain, so its calls return the selected roots of all tables in the canonical
    order, equal roots together. *)

From stdpp Require Import sorting.
From S2P Require Import Prelude Errors Partial Lists Tags Text Readers Columns Nodes Generic Search Cycles.
From S2P Require Import Structure Reach Validated Terms Preparation Workspace Budget Encode Merge Lengths.
From S2P Require Import Ordering Groups.
Local Open Scope string_scope.
Local Open Scope list_scope.
Local Open Scope N_scope.

Section kway.
Context `{Layout} (fuel : nat) (T : list CanonicalTable).

Abbreviation count := (len T).
Abbreviation column t := (table_columns T.[t]).
Abbreviation columns_of := (fun t => column t).

Record merger_ok (self : CanonicalKWayRootMerger) : Prop := {
  merger_tables : self.(tables) = T;
  merger_positions : len self.(positions) = count;
  merger_postings : len self.(posting_positions) = count;
  merger_candidates : len self.(candidates) = count;
  merger_roots : len self.(roots) = count;
  merger_behind t : t < count -> behind (column t) self.(positions).[t] self.(posting_positions).[t];
}.

(** The selected roots of a table that no group has taken. *)
Definition rest_of (self : CanonicalKWayRootMerger) (t : usize) : list usize :=
  remaining (column t) self.(positions).[t].

Context (built : forall t, t < count -> table_ok T.[t]).

Lemma column_validated t : t < count -> Validated (column t).
Proof using built. intros Ht. apply (table_validated _ (built t Ht)). Qed.

(** ** Comparisons *)

Lemma compare_table_roots_order self left right a b : self.(tables) = T -> left < count -> right < count ->
  yields (fun r => root_order (column left) (column right) a b r.1 /\ exists c, r.2 = self <| cursors := c |>)
    (compare_table_roots fuel left right self a b).
Proof using built.
  intros HT Hl Hr. unfold compare_table_roots. apply yields_then. intros _.
  apply (compare_root_refs_order (fun s => exists c, s = self <| cursors := c |>)).
  2: { exists self.(cursors). by destruct self. }
  intros s m n [c ->]. unfold compare_nodes.
  change (tables (self <| cursors := c |>)) with self.(tables). rewrite HT.
  apply yields_read. intros ltable [_ ->]%index_total. apply yields_read. intros rtable [_ ->]%index_total.
  unfold with_compared.
  eapply yields_bind; [apply compare_in_order; [by apply built..|]|].
  - by intros ->%N.eqb_eq.
  - intros [ordering compared] Ho. apply yields_ret. split; [done|]. by exists compared.
Qed.

(** ** Candidates *)

Definition filled (self : CanonicalKWayRootMerger) (t : usize) : Prop :=
  let p := self.(positions).[t] in
  match self.(candidates).[t] with
  | Some root => root_ref (column t) p = Ok root /\ rest_of self t = p :: remaining (column t) (p + 1) /\
      p + 1 <= usize_max
  | None => rest_of self t = []
  end.

(** Only the entries of a table change, and what remains does not. *)
Record filling (t : usize) (self self' : CanonicalKWayRootMerger) : Prop := {
  filling_positions u : u <> t -> self'.(positions).[u] = self.(positions).[u];
  filling_candidates u : u <> t -> self'.(candidates).[u] = self.(candidates).[u];
  filling_rest u : rest_of self' u = rest_of self u;
  filling_roots : self'.(roots) = self.(roots);
}.

Lemma fill_candidate_fills self t : merger_ok self -> t < count ->
  yields (fun self' => merger_ok self' /\ filled self' t /\ filling t self self') (fill_candidate fuel self t).
Proof using built.
  intros [HT Hp Hq Hc Hr Hb] Ht. unfold fill_candidate.
  eapply (yields_bind (fun r => exists p q ps qs,
    heads (column t) self.(positions).[t] (r.1, (p, q)) /\
    store self.(positions) t p = Ok ps /\ store self.(posting_positions) t q = Ok qs /\
    r.2 = self <| positions := ps |> <| posting_positions := qs |>)).
  - unfold kway_selected_root. apply yields_read. intros current [_ ->]%index_total.
    apply yields_read. intros p [_ ->]%index_total. apply yields_read. intros q [_ ->]%index_total. rewrite HT.
    pose proof (column_validated t Ht). eapply yields_bind; [by apply select_root_heads, Hb|].
    intros [root [p q]] Hh. apply yields_read. intros ps Hps. apply yields_read. intros qs Hqs.
    apply yields_ret. by exists p, q, ps, qs.
  - intros [root self1] (p&q&ps&qs&Hh&Hps&Hqs&Hself). cbn [fst snd] in *. subst self1.
    apply yields_read. intros cs Hcs. cbn [candidates] in Hcs. apply yields_ret.
    apply store_total in Hps as (_&Hlp&Hpt&Hpo), Hqs as (_&Hlq&Hqt&Hqo).
    change (candidates (self <| positions := ps |> <| posting_positions := qs |>)) with self.(candidates) in Hcs.
    apply store_total in Hcs as (_&Hlc&Hct&Hco).
    destruct Hh as (Hbeh&Hrem&Hroot).
    assert (Hrest : forall u, remaining (column u) ps.[u] = remaining (column u) self.(positions).[u]).
    { intros u. destruct (decide (u = t)) as [->|Hne]; [by rewrite Hpt|by rewrite Hpo]. }
    split; [|split].
    + split; cbn; try congruence. intros u Hu. destruct (decide (u = t)) as [->|Hne].
      * by rewrite Hpt, Hqt.
      * rewrite Hpo, Hqo by done. by apply Hb.
    + unfold filled, rest_of. cbn. rewrite Hct, Hpt. by destruct root.
    + split; [intros u Hu; by apply Hpo|intros u Hu; by apply Hco|exact Hrest|done].
Qed.

Lemma filling_filled t u self self' : filling t self self' -> u <> t -> filled self u -> filled self' u.
Proof using Type.
  intros [Hp Hc Hr _] Hne. unfold filled. rewrite Hp, Hc by done. by rewrite Hr.
Qed.

Lemma fill_all self : merger_ok self ->
  yields (fun self' => merger_ok self' /\ (forall t, t < count -> filled self' t) /\
      (forall t, rest_of self' t = rest_of self t) /\ self'.(roots) = self.(roots))
    (foldM (fill_candidate fuel) self (range 0 count)).
Proof using built.
  intros Hok. eapply yields_mono; [|apply (yields_foldM_ind (fun done self' => merger_ok self' /\
    (forall t, t ∈ done -> filled self' t) /\ (forall t, rest_of self' t = rest_of self t) /\
    self'.(roots) = self.(roots)))].
  - intros self' (Hok'&Hf&Hr). split; [done|]. split; [|done]. intros t Ht. apply Hf, elem_of_range. lia.
  - split; [done|]. by split; [intros t ?%elem_of_nil|].
  - intros d t rest self' Hsplit (Hok'&Hf&Hr&Hroots).
    assert (Ht : t ∈ range 0 count) by (rewrite Hsplit; set_solver). apply elem_of_range in Ht.
    eapply yields_mono; [|apply fill_candidate_fills; [done|lia]].
    intros self2 (Hok2&Hf2&Hfill). split; [done|]. split; [|split].
    + intros u Hu. destruct (decide (u = t)) as [->|Hne]; [done|].
      eapply filling_filled; [done..|]. apply Hf. apply elem_of_app in Hu as [Hu|Hu]; [done|].
      by apply list_elem_of_singleton in Hu.
    + intros u. by rewrite (filling_rest _ _ _ Hfill).
    + by rewrite (filling_roots _ _ _ Hfill).
Qed.

(** [next] clears its vectors first. *)
Lemma cleared_ok self : merger_ok self -> let nones := replicate (length self.(tables)) None in
  merger_ok (self <| candidates := nones |> <| roots := nones |>).
Proof using Type.
  intros Hok nones. assert (len nones = count).
  { unfold nones, len. by rewrite length_replicate, (merger_tables _ Hok). }
  destruct Hok. by split.
Qed.

(** ** The least candidate *)

Section group.
Context (start : CanonicalKWayRootMerger) (start_ok : merger_ok start).
Context (start_filled : forall t, t < count -> filled start t).

Abbreviation candidate t := (start.(candidates).[t]).

Definition keyed (t : usize) (k : key) : Prop :=
  exists root, candidate t = Some root /\ root_key (column t) root k.

Lemma candidate_keyed t root : t < count -> candidate t = Some root ->
  exists k, keyed t k /\ root_key (column t) root k.
Proof using built start_filled.
  intros Ht Hroot. pose proof (start_filled t Ht) as Hf. unfold filled in Hf. rewrite Hroot in Hf.
  destruct Hf as (Href&_). destruct (table_root_key T.[t] _ root (built t Ht) Href) as [k Hk].
  exists k. split; [by exists root|done].
Qed.

Lemma keyed_unique t k k' : keyed t k -> keyed t k' -> k = k'.
Proof using Type.
  intros (r&Hr&Hk) (r'&Hr'&Hk'). rewrite Hr in Hr'. injection Hr' as <-. by eapply root_key_inj.
Qed.

Lemma keyed_dec t km : t < count -> keyed t km \/ ~ keyed t km.
Proof using built start_filled.
  intros Ht. destruct (candidate t) as [root|] eqn:E.
  - destruct (candidate_keyed t root Ht E) as (k&Hk&_). destruct (decide (k = km)) as [<-|Hne]; [by left|].
    right. intros Hk'. by destruct Hne; eapply keyed_unique.
  - right. intros (r&Hr&_). congruence.
Qed.

Definition least (tables : list usize) (minimum : option usize) : Prop :=
  match minimum with
  | Some m => m < count /\ (exists root, candidate m = Some root) /\
      forall t k km, t ∈ tables -> keyed t k -> keyed m km -> ~ key_lt k km
  | None => forall t, t ∈ tables -> candidate t = None
  end.

Lemma index_candidate c t o : index (candidates (start <| cursors := c |>)) t = Ok o -> o = candidate t.
Proof using Type. by intros [_ ->]%index_total. Qed.

Lemma compare_candidates c t m a b : t < count -> m < count -> candidate t = Some a -> candidate m = Some b ->
  yields (fun r => (forall k k', keyed t k -> keyed m k' -> r.1 = key_cmp k k') /\
      exists c, r.2 = start <| cursors := c |>)
    (compare_table_roots fuel t m (start <| cursors := c |>) a b).
Proof using built start_ok.
  intros Ht Hm Ha Hb. eapply yields_mono; [|apply compare_table_roots_order; [apply start_ok|done..]].
  intros [order self'] [Ho [c' ->]]. cbn [fst snd] in *. split; [|by exists c'].
  intros k k' (r&Hr&Hk) (r'&Hr'&Hk'). rewrite Ha in Hr. rewrite Hb in Hr'. injection Hr as <-.
  injection Hr' as <-. by apply Ho.
Qed.

Lemma minimum_round_least c d minimum t : t < count -> least d minimum ->
  yields (fun st => (exists c, st.1 = start <| cursors := c |>) /\ least (d ++ [t]) st.2)
    (minimum_round fuel (start <| cursors := c |>, minimum) t).
Proof using built start_ok start_filled.
  intros Ht Hl. unfold minimum_round. apply yields_read. intros o ->%index_candidate.
  destruct (candidate t) as [a|] eqn:Ha.
  2: { apply yields_ret. split; [by exists c|]. cbn [snd]. destruct minimum as [m|].
    - destruct Hl as (Hm&Hroot&Hl). split; [done|]. split; [done|].
      intros u k km [Hu| ->%list_elem_of_singleton]%elem_of_app; [by apply Hl|].
      intros (r&Hr&_). congruence.
    - by intros u [Hu| ->%list_elem_of_singleton]%elem_of_app; [apply Hl|]. }
  destruct minimum as [m|].
  - destruct Hl as (Hm&[b Hb]&Hl). apply yields_read. intros o ->%index_candidate. rewrite Hb.
    apply yields_read. intros b' [= <-]. destruct (candidate_keyed t a Ht Ha) as (kt&Hkt&_).
    destruct (candidate_keyed m b Hm Hb) as (km&Hkm&_).
    eapply yields_bind; [by apply (compare_candidates c t m)|]. intros [order self'] [Ho Hs].
    cbn [fst snd] in *. specialize (Ho _ _ Hkt Hkm). apply yields_ret. split; [done|]. cbn [snd].
    destruct (key_cmp kt km) eqn:E; subst order.
    2: { split; [done|]. split; [by exists a|]. intros u k k' Hu Hk Hk'.
      rewrite <- (keyed_unique _ _ _ Hkt Hk'). apply elem_of_app in Hu as [Hu| ->%list_elem_of_singleton].
      - intros Hlt. apply (Hl u k km Hu Hk Hkm). by transitivity kt.
      - rewrite <- (keyed_unique _ _ _ Hkt Hk). apply (cmp_lt_irrefl key_cmp). }
    all: split; [done|]; split; [by exists b|]; intros u k k' Hu Hk Hk';
      rewrite <- (keyed_unique _ _ _ Hkm Hk'); apply elem_of_app in Hu as [Hu| ->%list_elem_of_singleton];
      [by apply (Hl u k km)|]; rewrite <- (keyed_unique _ _ _ Hkt Hk); unfold key_lt; congruence.
  - apply yields_ret. split; [by exists c|]. split; [done|]. split; [by exists a|].
    intros u k k' [Hu| ->%list_elem_of_singleton]%elem_of_app Hk Hk'.
    + destruct Hk as (r&Hr&_). rewrite (Hl u Hu) in Hr. done.
    + rewrite (keyed_unique _ _ _ Hk Hk'). apply (cmp_lt_irrefl key_cmp).
Qed.

Lemma find_minimum :
  yields (fun st => (exists c, st.1 = start <| cursors := c |>) /\ least (range 0 count) st.2)
    (foldM (minimum_round fuel) (start, None) (range 0 count)).
Proof using built start_ok start_filled.
  apply (yields_foldM_ind (fun d st => (exists c, st.1 = start <| cursors := c |>) /\ least d st.2)).
  - split; [exists start.(cursors); by destruct start|]. by intros t ?%elem_of_nil.
  - intros d t rest [self m] Hsplit [[c Hs] Hl]. cbn [fst snd] in *. subst self.
    assert (Ht : t ∈ range 0 count) by (rewrite Hsplit; set_solver). apply elem_of_range in Ht.
    apply minimum_round_least; [lia|done].
Qed.

(** ** The group *)

Context (minimum : usize) (minimum_root : CanonicalRootRef) (km : key).
Context (minimum_small : minimum < count) (minimum_candidate : candidate minimum = Some minimum_root).
Context (minimum_keyed : keyed minimum km).
Context (start_roots : forall t, t < count -> start.(roots).[t] = None).

(** The tables whose candidate has the least key have been taken. *)
Record taking (d : list usize) (self : CanonicalKWayRootMerger) : Prop := {
  taking_tables : self.(tables) = T;
  taking_candidates : self.(candidates) = start.(candidates);
  taking_postings : self.(posting_positions) = start.(posting_positions);
  taking_length : len self.(positions) = count;
  taking_roots : len self.(roots) = count;
  taking_equal t : t ∈ d -> t < count -> keyed t km ->
    self.(roots).[t] = candidate t /\ self.(positions).[t] = start.(positions).[t] + 1;
  taking_other t : t < count -> ~ (t ∈ d /\ keyed t km) ->
    self.(roots).[t] = None /\ self.(positions).[t] = start.(positions).[t];
}.

Lemma compare_taking d self t a : taking d self -> t < count -> candidate t = Some a ->
  yields (fun r => (r.1 = true <-> keyed t km) /\ exists c, r.2 = self <| cursors := c |>)
    (if t =? minimum then mret (true, self)
     else '(ordering, self) ← compare_table_roots fuel t minimum self a minimum_root;
          mret (match ordering with Eq => true | _ => false end, self)).
Proof using built start_filled minimum_small minimum_candidate minimum_keyed.
  intros Htk Ht Ha. destruct (N.eqb_spec t minimum) as [->|Hne].
  { apply yields_ret. split; [done|]. exists self.(cursors). by destruct self. }
  destruct (candidate_keyed t a Ht Ha) as (k&Hk&Hak).
  eapply yields_bind; [apply compare_table_roots_order; [apply Htk|done..]|].
  intros [order self'] [Ho Hs]. cbn [fst snd] in *. apply yields_ret. split; [|done]. cbn [fst].
  destruct minimum_keyed as (r&Hr&Hrk). rewrite minimum_candidate in Hr. injection Hr as <-.
  rewrite (Ho _ _ Hak Hrk). pose proof (cmp_eq key_cmp k km) as Heq. split.
  - destruct (key_cmp k km); [|discriminate..]. intros _. by rewrite <- (proj1 Heq eq_refl).
  - intros Hk'. rewrite (keyed_unique _ _ _ Hk Hk'). by rewrite (cmp_refl key_cmp).
Qed.

Lemma taking_skip d self t c : taking d self -> ~ keyed t km -> taking (d ++ [t]) (self <| cursors := c |>).
Proof using Type.
  intros [HT Hc Hq Hl Hr He Ho] Hno. split; [exact HT|exact Hc|exact Hq|exact Hl|exact Hr| |].
  - intros u [Hu| ->%list_elem_of_singleton]%elem_of_app Hlt Hk; [by apply He|done].
  - intros u Hu Hn. apply Ho; [done|]. intros [Hd Hk]. apply Hn. split; [|done]. apply elem_of_app. by left.
Qed.

Lemma take_round_takes d self n t : taking d self -> t < count -> t ∉ d ->
  yields (fun st => taking (d ++ [t]) st.1) (take_round fuel minimum minimum_root (self, n) t).
Proof using built start_ok start_filled minimum_small minimum_candidate minimum_keyed.
  intros Htk Ht Hd. unfold take_round. apply yields_read. rewrite (taking_candidates _ _ Htk).
  intros o [_ ->]%index_total. destruct (candidate t) as [a|] eqn:Ha.
  2: { apply yields_ret. cbn [fst]. replace self with (self <| cursors := self.(cursors) |>) by (by destruct self).
    apply taking_skip; [done|]. intros (r&Hr&_). congruence. }
  eapply yields_bind; [by eapply compare_taking|]. intros [equal self'] [Heq [c Hs]].
  cbn [fst snd] in *. subst self'.
  destruct equal; cbn [negb].
  2: { apply yields_ret. apply taking_skip; [done|]. intros Hk. by apply Heq in Hk. }
  apply yields_read. intros rs (_&Hlr&Hrt&Hro)%store_total. apply yields_read.
  intros p [_ ->]%index_total. apply yields_read. intros p Hp%ok_or_Ok. apply checked_add_Some in Hp as [-> _].
  apply yields_read. intros ps (_&Hlp&Hpt&Hpo)%store_total. apply yields_read. intros n' _. apply yields_ret.
  assert (Hkt : keyed t km) by (by apply Heq).
  change (positions (self <| cursors := c |>)) with self.(positions) in Hlp, Hpt, Hpo.
  change (roots (self <| cursors := c |>)) with self.(roots) in Hlr, Hrt, Hro.
  destruct Htk as [HT Hc Hq Hl Hr He Ho]. split; cbn; try congruence.
  - intros u Hu Hlt Hk. destruct (decide (u = t)) as [->|Hne].
    + rewrite Hrt, Hpt, Ha. split; [done|]. f_equal. apply Ho; [done|]. by intros [? _].
    + rewrite Hro, Hpo by done. apply He; [|done..].
      apply elem_of_app in Hu as [Hu|Hu%list_elem_of_singleton]; done.
  - intros u Hu Hn. assert (u <> t).
    { intros ->. apply Hn. split; [|done]. apply elem_of_app. right. by apply list_elem_of_singleton. }
    rewrite Hro, Hpo by done. apply Ho; [done|]. intros [? ?]. apply Hn. split; [|done].
    apply elem_of_app. by left.
Qed.

Lemma taking_start c : taking [] (start <| cursors := c |>).
Proof using start_ok start_roots.
  destruct start_ok as [HT Hp Hq Hc Hr _]. split; cbn; try assumption; [done..| |].
  - by intros t ?%elem_of_nil.
  - intros t Ht _. split; [by apply start_roots|done].
Qed.

Lemma take_all n c : yields (fun st => taking (range 0 count) st.1)
  (foldM (take_round fuel minimum minimum_root) (start <| cursors := c |>, n) (range 0 count)).
Proof using built start_ok start_filled minimum_small minimum_candidate minimum_keyed start_roots.
  apply (yields_foldM_ind (fun d st => taking d st.1)); [apply taking_start|].
  intros d t rest [self n'] Hsplit Htk.
  assert (Ht : t ∈ range 0 count) by (rewrite Hsplit; apply elem_of_app; right; by left).
  apply elem_of_range in Ht. apply take_round_takes; [done|lia|]. by eapply range_fresh.
Qed.

(** What the group is to the roots that remain. *)
Lemma taking_group self : taking (range 0 count) self ->
  merger_ok self /\
  forall t, t < count ->
    match self.(roots).[t] with
    | Some root => exists i, root_ref (column t) i = Ok root /\ root_key (column t) root km /\
        rest_of start t = i :: rest_of self t
    | None => rest_of self t = rest_of start t /\ ~ keyed t km
    end.
Proof using built start_ok start_filled minimum_small.
  intros [HT Hc Hq Hl Hr He Ho]. destruct start_ok as [_ _ Hq' Hc' _ Hb].
  assert (Hpos : forall t, t < count -> self.(positions).[t] = start.(positions).[t] \/
      self.(positions).[t] = start.(positions).[t] + 1).
  { intros t Ht. destruct (keyed_dec t km Ht) as [Hk|Hk].
    - right. apply He; [apply elem_of_range; lia|done..].
    - left. apply Ho; [done|]. tauto. }
  split.
  - split; try congruence. intros t Ht. rewrite Hq.
    destruct (Hpos t Ht) as [->| ->]; [by apply Hb|by apply behind_next, Hb].
  - intros t Ht. pose proof (start_filled t Ht) as Hf. unfold filled in Hf.
    destruct (keyed_dec t km Ht) as [Hk|Hk].
    + destruct (He t ltac:(apply elem_of_range; lia) Ht Hk) as [-> Hp]. destruct Hk as (root&Hroot&Hrk).
      rewrite Hroot in Hf |- *. destruct Hf as (Href&Hrest&_). exists start.(positions).[t].
      split; [done|]. split; [done|]. rewrite Hrest. unfold rest_of. by rewrite Hp.
    + destruct (Ho t Ht ltac:(tauto)) as [-> Hp]. split; [|done]. unfold rest_of. by rewrite Hp.
Qed.
Context (sorted : forall t, t < count -> roots_sorted (column t)).

Lemma taking_next self : least (range 0 count) (Some minimum) -> taking (range 0 count) self ->
  next_group columns_of count (rest_of start) (rest_of self) self.(roots) km.
Proof using built sorted start_ok start_filled minimum_small minimum_candidate minimum_keyed.
  intros (_&_&Hl) Htk. destruct (taking_group self Htk) as [_ Hg].
  assert (Hin : forall t, t < count -> t ∈ range 0 count) by (intros t Ht; apply elem_of_range; lia).
  split; [split; [by apply Htk|split]|..].
  - exists minimum, minimum_root. split; [done|].
    rewrite (proj1 (taking_equal _ _ Htk minimum (Hin _ minimum_small) minimum_small minimum_keyed)).
    exact minimum_candidate.
  - intros t root Ht Hroot. specialize (Hg t Ht). rewrite Hroot in Hg. by destruct Hg as (i&_&Hk&_).
  - intros t Ht. specialize (Hg t Ht). destruct self.(roots).[t]; [|by destruct Hg].
    destruct Hg as (i&Href&_&Hrest). by exists i.
  - intros t i ki Ht Hi Hki. specialize (Hg t Ht). destruct self.(roots).[t] as [root|].
    + destruct Hg as (i0&Href&Hk&Hrest). apply (remaining_greater (column t) start.(positions).[t] i0 (rest_of self t) i);
        [by apply sorted|done|done|by exists root|done].
    + destruct Hg as [Hrest Hk]. rewrite Hrest in Hi. pose proof (start_filled t Ht) as Hf. unfold filled in Hf.
      destruct (candidate t) as [root|] eqn:Hroot; [|rewrite Hf in Hi; by apply elem_of_nil in Hi].
      destruct Hf as (Href&Hcons&_). destruct (candidate_keyed t root Ht Hroot) as (k&Hkt&Hrk).
      assert (Hlt : key_lt km k).
      { pose proof (Hl t k km (Hin t Ht) Hkt minimum_keyed) as Hn. unfold key_lt in Hn |- *.
        destruct (key_cmp km k) eqn:E; [|done|].
        - apply (cmp_eq key_cmp) in E as <-. by destruct Hk.
        - by apply (cmp_gt_lt key_cmp) in E. }
      assert (Hat : key_at (column t) start.(positions).[t] k) by (by exists root).
      rewrite Hcons in Hi. apply elem_of_cons in Hi as [->|Hi].
      * by rewrite (key_at_inj _ _ _ _ Hki Hat).
      * transitivity k; [done|]. by eapply (remaining_greater (column t) start.(positions).[t]); [apply sorted|..].
Qed.
End group.
Context (sorted : forall t, t < count -> roots_sorted (column t)).

Lemma kway_next_spec self : merger_ok self ->
  yields (fun r => merger_ok r.2 /\
    match r.1 with
    | Some group => exists k, next_group columns_of count (rest_of self) (rest_of r.2) group k
    | None => forall t, t < count -> rest_of self t = []
    end) (kway_next fuel self).
Proof using built sorted.
  intros Hok. unfold kway_next.
  set (nones := replicate _ None). set (self0 := self <| candidates := nones |> <| roots := nones |>).
  pose proof (cleared_ok self Hok) as Hok0. fold nones self0 in Hok0.
  change (len (tables self0)) with (len (tables self)). rewrite (merger_tables _ Hok).
  eapply yields_bind; [by apply fill_all|]. intros start (Hs&Hf&Hrest&Hroots).
  eapply yields_bind; [by apply find_minimum|]. intros [self1 m] [[c Hs1] Hl]. cbn [fst snd] in *. subst self1.
  assert (Hself : forall t, rest_of start t = rest_of self t) by done.
  destruct m as [m|].
  - pose proof Hl as (Hm&[root Hroot]&_). apply yields_read. intros o ->%index_candidate.
    rewrite Hroot. apply yields_read. intros root' [= <-].
    destruct (candidate_keyed start Hf m root Hm Hroot) as (km&Hkm&_).
    eapply yields_bind; [apply (take_all start Hs Hf m root km); [done..|]|].
    { intros t Ht. rewrite Hroots. unfold self0, nones. cbn. apply lookup_total_replicate_2.
      rewrite (merger_tables _ Hok). unfold len in Ht. lia. }
    intros [self' n] Htk. cbn [fst] in Htk. apply yields_read. intros duplicates _. apply yields_then. intros _.
    apply yields_ret. split; [by apply (taking_group start Hs Hf m km)|].
    cbn [fst snd]. exists km. destruct (taking_next start Hs Hf m root km Hm Hroot Hkm sorted self' Hl Htk) as [Hg Ht Hk].
    split; [done| |done]. intros t Hlt. rewrite <- Hself. by apply Ht.
  - apply yields_ret. cbn [fst snd]. split; [by destruct Hs; split|]. intros t Ht.
    rewrite <- Hself. pose proof (Hf t Ht) as Hft. unfold filled in Hft.
    rewrite (Hl t) in Hft; [done|]. apply elem_of_range. lia.
Qed.

(** ** All groups *)

(** [while let Some(group) = merger.next()]. *)
Fixpoint drain (rounds : nat) (self : CanonicalKWayRootMerger) : Bud (list (list (option CanonicalRootRef))) :=
  match rounds with
  | O => ⇑OutOfFuel
  | S rounds =>
      '(group, self) ← kway_next fuel self;
      match group with
      | None => mret []
      | Some group => groups ← drain rounds self; mret (group :: groups)
      end
  end.

Lemma drain_spec rounds self : merger_ok self ->
  yields (fun groups => exists keys, merged columns_of count (rest_of self) groups keys) (drain rounds self).
Proof using built sorted.
  revert self. induction rounds as [|rounds IH]; intros self Hok; cbn [drain]; [by apply yields_spared|].
  eapply yields_bind; [by apply kway_next_spec|]. intros [[group|] self'] [Hok' Hg]; cbn [fst snd] in *.
  - destruct Hg as [k Hg]. eapply yields_bind; [by apply IH|]. intros groups [keys Hm]. apply yields_ret.
    exists (k :: keys). by eapply merged_step.
  - apply yields_ret. exists []. by apply merged_none.
Qed.
End kway.

(** ** The validation of [new] *)

Section new.
Context `{Layout} (fuel : nat).

Lemma resident_without_maps columns : resident columns -> resident (without_anonymous_scope_maps columns).
Proof using Type. by intros []; split. Qed.

Section tables.
Context (start : CanonicalKWayRootMerger) (built : forall t, t < len start.(tables) -> table_ok start.(tables).[t]).

Abbreviation column t := (table_columns start.(tables).[t]).
Abbreviation moved := (fun self => exists c, self = start <| cursors := c |>).

Lemma compare_nodes_order self left right m n :
  left < len start.(tables) -> right < len start.(tables) -> moved self ->
  yields (fun r => node_order (column left) (column right) m n r.1 /\ moved r.2)
    (compare_nodes fuel left right self m n).
Proof using built.
  intros Hl Hr [c ->]. unfold compare_nodes.
  change (tables (start <| cursors := c |>)) with start.(tables).
  apply yields_read. intros ltable [_ ->]%index_total. apply yields_read. intros rtable [_ ->]%index_total.
  unfold with_compared. eapply yields_bind; [apply compare_in_order; [by apply built..|]|].
  - by intros ->%N.eqb_eq.
  - intros [ordering compared] Ho. apply yields_ret. split; [done|]. by exists compared.
Qed.

Lemma compare_in_table_order original self m n : table_ok original -> moved self ->
  yields (fun r => node_order original.(table_columns) original.(table_columns) m n r.1 /\ moved r.2)
    (compare_nodes_in_table fuel original self m n).
Proof using Type.
  intros Ho [c ->]. unfold compare_nodes_in_table, with_compared.
  eapply yields_bind; [by apply compare_in_order|]. intros [ordering compared] Hord. apply yields_ret.
  split; [done|]. by exists compared.
Qed.

Lemma validate_table_ok self t : t < len start.(tables) -> moved self ->
  yields (fun self' => (sets_sorted (column t) /\ roots_sorted (column t)) /\ moved self')
    (validate_table fuel self t).
Proof using built.
  intros Ht Hm. unfold validate_table. apply yields_read. intros current Hcur.
  destruct Hm as [c ->]. change (tables (start <| cursors := c |>)) with start.(tables) in Hcur.
  apply index_total in Hcur as [_ ->]. pose proof (built t Ht) as Hok.
  assert (Hm : moved (start <| cursors := c |>)) by (by exists c). revert Hm.
  generalize (start <| cursors := c |>). clear c. intros self Hm.
  eapply (yields_bind moved).
  { destruct (has_anonymous_scope_map (column t)); [|by apply yields_ret].
    eapply yields_bind;
      [apply table_build_ok, resident_without_maps, (table_resident _ Hok)|].
    intros original [Hcol Horig]. eapply (yields_bind moved).
    { unfold validate_original_table_order. rewrite Hcol.
      eapply yields_bind; [rewrite <- Hcol; apply (validate_sets_sorts moved original Horig); [|exact Hm]|].
      - intros s m n Hs. by apply compare_in_table_order.
      - intros s [_ Hs]. eapply yields_mono; [|rewrite <- Hcol; apply (validate_group_sorts moved original Horig); [|exact Hs]].
        + by intros s' [_ ?].
        + intros s' a b Hs'. apply (compare_root_refs_order moved); [|done].
          intros s2 m n Hs2. by apply compare_in_table_order. }
    intros s Hs. apply yields_then. intros _. by apply yields_ret. }
  intros s Hs. eapply yields_bind; [apply (validate_sets_sorts moved _ Hok); [|exact Hs]|].
  - intros s' m n Hs'. by apply compare_nodes_order.
  - intros s' [Hsets Hs']. eapply yields_mono; [|apply (validate_group_sorts moved _ Hok); [|exact Hs']].
    + intros s2 [Hroots Hs2]. done.
    + intros s2 a b [c ->]. eapply yields_mono; [|apply (compare_table_roots_order fuel start.(tables) built); done].
      intros r [Ho [c' ->]]. split; [done|]. by exists c'.
Qed.
End tables.

(** The merger [new] returns: validated, sorted, and at the start of every
    table. *)
Record started (columns : list DirectColumns) (self : CanonicalKWayRootMerger) : Prop := {
  started_columns : table_columns <$> self.(tables) = columns;
  started_ok : merger_ok self.(tables) self;
  started_built t : t < len self.(tables) -> table_ok self.(tables).[t];
  started_sorted t : t < len self.(tables) ->
    sets_sorted (table_columns self.(tables).[t]) /\ roots_sorted (table_columns self.(tables).[t]);
  started_positions t : t < len self.(tables) -> self.(positions).[t] = 0;
}.

Lemma build_all columns : Forall resident columns ->
  yields (fun tables => table_columns <$> tables = columns /\ Forall table_ok tables)
    (foldM (fun tables column => table ← table_build fuel column; mret (tables ++ [table])) [] columns).
Proof using Type.
  intros Hres. apply (yields_foldM_ind (fun done tables =>
    table_columns <$> tables = done /\ Forall table_ok tables)); [by split|].
  intros d column rest tables Hsplit [Hc Hok]. rewrite Forall_forall in Hres.
  eapply yields_bind; [apply table_build_ok, Hres; rewrite Hsplit; set_solver|].
  intros table [Hcol Htable]. apply yields_ret. split; [by rewrite fmap_app, Hc, <- Hcol|].
  apply Forall_app. split; [done|]. by apply Forall_singleton.
Qed.

Lemma kway_new_spec columns limits : Forall resident columns ->
  post (fun r => started columns r.1) (kway_new fuel columns limits).
Proof using Type.
  intros Hres. unfold kway_new. destruct (_ <? 2); [by apply post_lift|].
  eapply post_bind; [apply post_lift, ensures_trivial|]. intros budget _.
  match goal with |- post _ (?m budget) => enough (yields (started columns) m) as Hy by apply Hy end.
  apply yields_then. intros _. eapply yields_bind; [by apply build_all|]. intros tables [Hc Hok].
  do 4 (apply yields_then; intros _).
  assert (Hlen : len columns = len tables) by (unfold len; by rewrite <- Hc, length_fmap).
  rewrite Hlen. set (n := N.to_nat (len tables)).
  set (start := {| tables := tables; positions := replicate n 0; posting_positions := replicate n 0;
    candidates := replicate n None; roots := replicate n None; cursors := (cursor_new, cursor_new) |}).
  assert (Hbuilt : forall t, t < len tables -> table_ok start.(Merge.tables).[t]).
  { intros t Ht. rewrite Forall_forall in Hok. apply Hok. eapply get_elem_of. by apply get_total. }
  eapply yields_mono; [|apply (yields_foldM_ind (fun done self => (exists c, self = start <| cursors := c |>) /\
    forall t, t ∈ done -> sets_sorted (table_columns tables.[t]) /\ roots_sorted (table_columns tables.[t])))].
  - intros self [[c ->] Hd].
    assert (Hn : forall {A} (x : A), len (replicate n x) = len tables)
      by (intros A x; unfold len, n; rewrite length_replicate; unfold len; lia).
    assert (Hz : forall t, t < len tables -> (replicate n 0).[t] = 0)
      by (intros t Ht; apply lookup_total_replicate_2; unfold n; lia).
    split; [done|split; [done|apply Hn..|]|done|..]; cbn.
    + intros t Ht. rewrite !Hz by done. apply behind_start.
    + intros t Ht. apply Hd, elem_of_range. lia.
    + done.
  - split; [by exists (cursor_new, cursor_new)|]. by intros t ?%elem_of_nil.
  - intros d t rest self Hsplit [Hm Hd].
    assert (Ht : t ∈ range 0 (len tables)) by (rewrite Hsplit; set_solver). apply elem_of_range in Ht.
    eapply yields_mono; [|apply (validate_table_ok start Hbuilt self t); [cbn; lia|exact Hm]].
    intros self' [Hs Hm']. split; [done|].
    intros u [Hu| ->%list_elem_of_singleton]%elem_of_app; [by apply Hd|exact Hs].
Qed.
End new.

(** The groups of a merger that [new] returned. *)
Lemma started_groups columns self groups keys : started columns self ->
  merged (fun t => table_columns self.(tables).[t]) (len self.(tables)) (rest_of self.(tables) self) groups keys ->
  exists terms, canonical_groups columns groups terms.
Proof.
  intros [Hc Hok Hb Hs Hp] Hm. eapply merged_canonical; [..|exact Hm].
  - unfold len. by rewrite <- Hc, length_fmap.
  - intros t c Ht. rewrite <- Hc, get_lookup, list_lookup_fmap in Ht.
    apply fmap_Some in Ht as (table&Ht&->). rewrite <- get_lookup in Ht. by apply get_total_Some in Ht as [? ->].
  - intros t Ht. unfold rest_of. by rewrite Hp.
Qed.
