(* ===== verification/Returning.v ===== *)
(** * Termination within the budget

    Every round of a loop of the canonical merge charges a unit of work, so a
    loop whose fuel exceeds the work that is left ends, and no run exceeds the
    limits.  [returns n m] says so of a computation that is given less than [n]
    units. *)

From S2P Require Import Prelude Errors Partial Lists Tags Text Readers Columns Nodes Generic Search Cycles.
From S2P Require Import Structure Reach Safety Validated Terms Preparation Workspace Budget Encode Merge.
From S2P Require Import Lengths Ordering Groups Kway.
Local Open Scope string_scope.
Local Open Scope list_scope.
Local Open Scope N_scope.

(** ** Budgets within their limits *)

Record solvent (budget : CanonicalBudget) : Prop := {
  solvent_work : budget.(report).(work) <= budget.(limits).(max_work);
  solvent_workspace : budget.(report).(workspace_bytes) <= budget.(report).(peak_workspace_bytes);
  solvent_peak : budget.(report).(peak_workspace_bytes) <= budget.(limits).(max_workspace_bytes);
}.

Definition work_left (budget : CanonicalBudget) : nat :=
  N.to_nat (budget.(limits).(max_work) - budget.(report).(work)).

(** The computation returns a value or an error and stays within the limits;
    a value costs at least [cost]. *)
Definition returns {A} (n : nat) (cost : A -> nat) (m : Bud A) : Prop :=
  forall budget obs k, solvent budget -> (work_left budget < n)%nat ->
    match fst (m budget obs k) with
    | Ok (a, budget') => budget'.(limits) = budget.(limits) /\ solvent budget' /\
        budget.(report).(work) + N.of_nat (cost a) <= budget'.(report).(work)
    | Err _ => True
    | Panic | OutOfFuel => False
    end.

Definition free {A} : A -> nat := fun _ => 0%nat.

Section rules.
Context {A : Type}.

Lemma returns_ret n (a : A) : returns n free (mret a).
Proof using Type. intros budget obs k Hs _. cbn. unfold free. split; [done|]. split; [done|]. lia. Qed.

Lemma returns_value n (c : A -> nat) a : c a = 0%nat -> returns n c (mret a).
Proof using Type. intros Hc budget obs k Hs _. cbn. split; [done|]. split; [done|]. rewrite Hc. lia. Qed.

Lemma returns_spared n (o : outcome A) : safe o -> returns n free (⇑o).
Proof using Type.
  intros [Hp Ho] budget obs k Hs _. unfold spared, mbind, Cx_bind, lift. destruct o; try done. cbn. unfold free.
  split; [done|]. split; [done|]. lia.
Qed.

Lemma returns_mono n n' (c c' : A -> nat) m : (n' <= n)%nat -> (forall a, (c' a <= c a)%nat) ->
  returns n c m -> returns n' c' m.
Proof using Type.
  intros Hn Hc Hm budget obs k Hs Hl. specialize (Hm budget obs k Hs ltac:(lia)).
  destruct (fst (m budget obs k)) as [[a budget']|e| |]; try done. destruct Hm as (?&?&?).
  specialize (Hc a). split_and!; [done|done|lia].
Qed.

Lemma returns_free n (c : A -> nat) m : returns n c m -> returns n free m.
Proof using Type. apply returns_mono; unfold free; lia. Qed.

Lemma returns_none n (c : A -> nat) m : n = 0%nat -> returns n c m.
Proof using Type. intros -> budget obs k _ Hl. lia. Qed.
End rules.

Section binds.
Context {A B : Type}.

(** What the first part is known to yield may be used for the second, and the
    costs add up. *)
Lemma returns_bind n (c : A -> nat) (d : B -> nat) (Q : A -> Prop) (m : Bud A) f :
  returns n c m -> yields Q m -> (forall a, Q a -> returns (n - c a) (fun b => d b - c a)%nat (f a)) ->
  returns n d (mbind f m).
Proof using Type.
  intros Hm HQ Hf budget obs k Hs Hl. specialize (Hm budget obs k Hs Hl). specialize (HQ budget obs k).
  unfold mbind, Spend_bind, mbind, Cx_bind.
  destruct (m budget obs k) as [[[a budget']|e| |] k']; cbn [fst] in *; try done.
  destruct Hm as (Hlim&Hs'&Hw). specialize (HQ _ eq_refl). cbn in HQ.
  assert (Hl' : (work_left budget' < n - c a)%nat).
  { pose proof (solvent_work _ Hs'). unfold work_left in *. rewrite Hlim in *. lia. }
  specialize (Hf a HQ budget' obs k' Hs' Hl').
  destruct (fst (f a budget' obs k')) as [[b budget2]|e| |]; try done.
  destruct Hf as (Hlim2&Hs2&Hw2). split; [congruence|]. split; [done|]. lia.
Qed.

Lemma returns_then n (d : B -> nat) (Q : A -> Prop) (m : Bud A) f :
  returns n free m -> yields Q m -> (forall a, Q a -> returns n d (f a)) -> returns n d (mbind f m).
Proof using Type.
  intros Hm HQ Hf. eapply returns_bind; [exact Hm|exact HQ|]. intros a Ha. unfold free.
  apply (returns_mono n _ d); [lia|intros b; lia|by apply Hf].
Qed.

Lemma returns_seq n (d : B -> nat) (m : Bud A) f :
  returns n free m -> (forall a, returns n d (f a)) -> returns n d (mbind f m).
Proof using Type. intros Hm Hf. eapply returns_then; [done|apply yields_trivial|auto]. Qed.

Lemma returns_read n (d : B -> nat) (o : outcome A) f :
  safe o -> (forall a, o = Ok a -> returns n d (f a)) -> returns n d (a ← ⇑o; f a).
Proof using Type.
  intros Ho Hf. eapply returns_then; [by apply returns_spared|apply yields_spared, ensures_self|done].
Qed.

End binds.

(** ** The methods of the budget *)

Lemma returns_consume n amount : returns n (fun _ => N.to_nat amount) (consume amount).
Proof.
  intros budget obs k [Hw Hs Hp] _. unfold consume, mbind, Cx_bind, load, lift, mret, Cx_ret. cbn [fst].
  destruct (obs k =? STATE_CANCELLED); [done|].
  destruct (checked_add budget.(report).(work) amount) as [next|] eqn:E; [|done].
  apply checked_add_Some in E as [-> _]. cbn [ok_or].
  destruct (N.ltb_spec budget.(limits).(max_work) (budget.(report).(work) + amount)); [done|].
  cbn. split; [done|]. split; [by split|]. lia.
Qed.

Lemma returns_charge n (f : CanonicalBudget -> outcome CanonicalBudget) :
  (forall budget, solvent budget -> safe (f budget) /\ forall budget', f budget = Ok budget' ->
     budget'.(limits) = budget.(limits) /\ solvent budget' /\ budget'.(report).(work) = budget.(report).(work)) ->
  returns n free (charge f).
Proof.
  intros Hf budget obs k Hs _. destruct (Hf budget Hs) as [[Hp Ho] Hok].
  unfold charge, mbind, Cx_bind, lift. destruct (f budget) as [budget'| | |]; try done.
  destruct (Hok budget' eq_refl) as (?&?&Hw). cbn. rewrite Hw. unfold free. split; [done|]. split; [done|]. lia.
Qed.

Lemma returns_claim n amount : returns n free (claim_workspace amount).
Proof.
  apply returns_charge. intros budget [Hw Hs Hp]. split.
  - apply safe_bind; [apply safe_ok_or|]. intros next _. by destruct (_ <? _).
  - intros budget' (next&Hn&H)%bind_Ok. apply ok_or_Ok, checked_add_Some in Hn as [-> _].
    destruct (N.ltb_spec budget.(limits).(max_workspace_bytes)
      (budget.(report).(workspace_bytes) + amount)); [done|].
    injection H as <-. cbn. split; [done|]. split; [split; cbn; lia|done].
Qed.

Lemma returns_release n amount : returns n free (release_workspace amount).
Proof.
  apply returns_charge. intros budget [Hw Hs Hp]. split.
  - apply safe_bind; [apply safe_ok_or|]. intros next _. apply safe_Ok.
  - intros budget' (next&Hn&H)%bind_Ok. apply ok_or_Ok, checked_sub_Some in Hn as [-> _].
    injection H as <-. cbn. split; [done|]. split; [split; cbn; lia|done].
Qed.

Lemma returns_comparison_byte n : returns n free record_comparison_byte.
Proof.
  apply returns_charge. intros budget [Hw Hs Hp]. split.
  - apply safe_bind; [apply safe_ok_or|]. intros next _. apply safe_Ok.
  - intros budget' (next&_&[= <-])%bind_Ok. cbn. split; [done|]. by split.
Qed.

Lemma returns_root_duplicates n duplicates : returns n free (record_root_duplicates duplicates).
Proof.
  apply returns_charge. intros budget [Hw Hs Hp]. split.
  - apply safe_bind; [apply safe_ok_or|]. intros a _. apply safe_bind; [apply safe_ok_or|]. intros b _. apply safe_Ok.
  - intros budget' (a&_&H)%bind_Ok. apply bind_Ok in H as (b&_&[= <-]). cbn. split; [done|]. by split.
Qed.

Lemma returns_allocate n size capacity : returns n free (allocate_vector size capacity).
Proof.
  unfold allocate_vector. apply returns_read; [apply safe_ok_or|]. intros bytes _.
  apply returns_seq; [apply returns_claim|]. intros _. apply returns_ret.
Qed.

Lemma returns_uncharged {A} n (m : Cx A) : (forall obs k, safe (fst (m obs k))) -> returns n free (uncharged m).
Proof.
  intros Hm budget obs k Hs _. specialize (Hm obs k) as [Hp Ho]. unfold uncharged, mbind, Cx_bind.
  destruct (m obs k) as [[a|e| |] k']; cbn [fst] in *; try done. cbn. unfold free.
  split; [done|]. split; [done|]. lia.
Qed.

(** ** Both at once *)

(** The computation returns, and what it returns satisfies [Q]. *)
Definition settles {A} (n : nat) (Q : A -> Prop) (m : Bud A) : Prop := returns n free m /\ yields Q m.

Section settles.
Context {A B : Type}.

Lemma settles_ret n (Q : A -> Prop) a : Q a -> settles n Q (mret a).
Proof using Type. intros HQ. split; [apply returns_ret|by apply yields_ret]. Qed.
Lemma settles_spared n (Q : A -> Prop) o : safe o -> ensures Q o -> settles n Q (⇑o).
Proof using Type. intros Ho HQ. split; [by apply returns_spared|by apply yields_spared]. Qed.
Lemma settles_error n (Q : A -> Prop) e : settles n Q (⇑Err e).
Proof using Type. by apply settles_spared. Qed.
Lemma settles_any n (m : Bud A) : returns n free m -> settles n (fun _ => True) m.
Proof using Type. by split. Qed.
Lemma settles_mono n n' (Q R : A -> Prop) m : (n' <= n)%nat -> (forall a, Q a -> R a) ->
  settles n Q m -> settles n' R m.
Proof using Type. intros Hn HQ [Hr Hy]. split; [by eapply returns_mono|by eapply yields_mono]. Qed.
Lemma settles_none (Q : A -> Prop) m : yields Q m -> settles 0 Q m.
Proof using Type. intros Hy. split; [by apply returns_none|done]. Qed.

Lemma settles_bind n (R : A -> Prop) (Q : B -> Prop) (m : Bud A) f :
  settles n R m -> (forall a, R a -> settles n Q (f a)) -> settles n Q (mbind f m).
Proof using Type.
  intros [Hr Hy] Hf. split.
  - eapply returns_then; [exact Hr|exact Hy|]. intros a Ha. by apply Hf.
  - eapply yields_bind; [exact Hy|]. intros a Ha. by apply Hf.
Qed.
Lemma settles_seq n (Q : B -> Prop) (m : Bud A) f :
  returns n free m -> (forall a, settles n Q (f a)) -> settles n Q (mbind f m).
Proof using Type. intros Hm Hf. eapply settles_bind; [by apply settles_any|auto]. Qed.
Lemma settles_read n (Q : B -> Prop) (o : outcome A) f :
  safe o -> (forall a, o = Ok a -> settles n Q (f a)) -> settles n Q (a ← ⇑o; f a).
Proof using Type. intros Ho Hf. eapply settles_bind; [apply settles_spared, ensures_self; done|done]. Qed.
End settles.

Lemma settles_consume {B} n (Q : B -> Prop) amount (f : unit -> Bud B) :
  settles n Q (f tt) -> settles n Q (mbind f (consume amount)).
Proof.
  intros Hf. apply settles_seq; [eapply returns_free, returns_consume|]. by intros [].
Qed.
(** A unit of work before the rest. *)
Lemma settles_unit {B} n (Q : B -> Prop) (f : unit -> Bud B) :
  settles n Q (f tt) -> settles (S n) Q (mbind f (consume 1)).
Proof.
  intros [Hr Hy]. split; [|apply yields_then; by intros []].
  eapply returns_bind; [apply returns_consume|apply yields_trivial|]. intros [] _.
  eapply returns_mono; [| |exact Hr]; [cbn; lia|done].
Qed.

Lemma settles_foldM_ind {A S} n (I : list A -> S -> Prop) (f : S -> A -> Bud S) s l :
  I [] s -> (forall done x rest s, l = done ++ x :: rest -> I done s -> settles n (I (done ++ [x])) (f s x)) ->
  settles n (I l) (foldM f s l).
Proof.
  intros H0 Hf.
  enough (G : forall rest done s, l = done ++ rest -> I done s -> settles n (I l) (foldM f s rest))
    by (by apply (G l [])).
  clear s H0. induction rest as [|x rest IH]; intros d s Hl Hs; cbn [foldM].
  - apply settles_ret. by rewrite Hl, app_nil_r.
  - eapply settles_bind; [by eapply Hf|]. intros s' Hs'. by apply (IH (d ++ [x])); [rewrite <- app_assoc|].
Qed.

Lemma settles_foldM {A S} n (I : S -> Prop) (f : S -> A -> Bud S) s l :
  I s -> (forall s x, x ∈ l -> I s -> settles n I (f s x)) -> settles n I (foldM f s l).
Proof.
  intros Hs Hf. apply (settles_foldM_ind n (fun _ => I)); [done|].
  intros d x rest s' -> Hs'. apply Hf; [apply elem_of_app; right; by left|done].
Qed.

Lemma returns_foldM {A S} n (f : S -> A -> Bud S) s l :
  (forall s x, x ∈ l -> returns n free (f s x)) -> returns n free (foldM f s l).
Proof.
  intros Hf. apply (settles_foldM n (fun _ => True)); [done|]. intros s' x Hx _. by apply settles_any, Hf.
Qed.

(** The rules, by the structure of the computation. *)
Ltac step_returns :=
  repeat (cbn beta iota zeta; first
    [ match goal with |- forall _, _ => intro end
    | assumption
    | apply returns_ret
    | apply returns_claim | apply returns_release | apply returns_allocate
    | apply returns_comparison_byte | apply returns_root_duplicates
    | match goal with
      | |- returns _ _ (mbind _ (spared _)) => apply returns_read; [solve [solve_safe]|]
      | |- returns _ _ (mbind _ (consume _)) =>
          apply returns_seq; [eapply returns_free, returns_consume|]
      | |- returns _ _ (mbind _ (claim_workspace _)) => apply returns_seq; [apply returns_claim|]
      | |- returns _ _ (mbind _ (release_workspace _)) => apply returns_seq; [apply returns_release|]
      | |- returns _ _ (mbind _ (allocate_vector _ _)) => apply returns_seq; [apply returns_allocate|]
      | |- returns _ _ (mbind _ record_comparison_byte) => apply returns_seq; [apply returns_comparison_byte|]
      | |- returns _ _ (mbind _ (record_root_duplicates _)) =>
          apply returns_seq; [apply returns_root_duplicates|]
      | |- returns _ _ (spared _) => apply returns_spared; solve [solve_safe]
      | |- returns _ _ (if ?b then _ else _) => destruct b eqn:?
      | |- returns _ _ (match ?x with _ => _ end) => destruct x eqn:?
      | |- returns _ _ (match ?x with _ => _ end _) => destruct x eqn:?
      | |- returns _ _ (mbind _ _) => apply returns_seq; [solve [step_returns]|]
      end ]).

(** ** Components *)

Lemma scalar_range_safe columns start length : safe (scalar_range columns start length).
Proof. unfold scalar_range. solve_safe. Qed.
Lemma checked_arithmetic_safe (o : option usize) message : safe (ok_or o (resource message)).
Proof. apply safe_ok_or. Qed.
#[export] Hint Resolve scalar_range_safe remap_anonymous_scope_safe : safe.

Lemma integer_varint_chunks_safe value : safe (integer_varint_chunks value).
Proof. unfold integer_varint_chunks. solve_safe. Qed.
Lemma child_length_safe lengths n message : safe (child_length lengths n message).
Proof. apply safe_ok_or. Qed.
Lemma marked_length_safe length message : safe (marked_length length message).
Proof. apply safe_ok_or. Qed.
#[export] Hint Resolve integer_varint_chunks_safe child_length_safe marked_length_safe : safe.

Section components.
Context (columns : DirectColumns).

Lemma returns_component n i item : returns n free (canonical_component columns i item).
Proof using Type.
  unfold canonical_component. apply returns_seq; [destruct item; step_returns|]. intros [[kind value] length].
  step_returns.
Qed.

(** What its checks leave: nodes of the table, and no nested collection. *)
Definition component_checked (item : bool) (component : CanonicalComponent) : Prop :=
  match component with
  | ComponentNode n => 1 <= n <= node_count columns
  | Collection _ _ _ => item = false
  | _ => True
  end.

Lemma canonical_component_checked i item :
  yields (component_checked item) (canonical_component columns i item).
Proof using Type.
  unfold canonical_component. apply yields_then. intros [[kind value] length].
  destruct (kind =? COMPONENT_NONE); [step_yields; done|].
  destruct (kind =? COMPONENT_NODE).
  { destruct (negb _); [step_yields|]. apply yields_read. intros n [-> Hn]%checked_node_id_Ok. by apply yields_ret. }
  destruct (_ || _); [|destruct (kind =? COMPONENT_INTEGER)].
  - apply yields_then. intros payload. apply yields_then. intros _. by apply yields_ret.
  - apply yields_then. intros payload. step_yields. done.
  - destruct (_ || _); [|step_yields]. destruct item; step_yields. done.
Qed.

Lemma returns_component_length n L component : returns n free (component_length columns L 1 component).
Proof using Type.
  remember 0%nat as depth eqn:Hd. cbn [component_length]. step_returns.
  apply returns_foldM. intros total i _. apply returns_seq; [eapply returns_free, returns_consume|]. intros _.
  eapply returns_then; [apply returns_component|apply canonical_component_checked|].
  intros item Hitem. destruct (kind =? COMPONENT_SET); [step_returns|].
  apply returns_seq; [|step_returns]. subst depth. cbn [component_length]. step_returns. done.
Qed.

(** ** The traversal *)

(** Its tables have an entry per node, and its stack holds nodes. *)
Definition event_node (event : LengthEvent) : usize :=
  match event with Enter n | Exit n => n end.
Record shaped (st : Traversal) : Prop := {
  shaped_lengths : len st.(lengths) = node_count columns + 1;
  shaped_colors : len st.(colors) = node_count columns + 1;
  shaped_events : Forall (fun event => event_node event <= node_count columns) st.(events);
}.

Lemma index_safe {A} (l : list A) i : i < len l -> safe (index l i).
Proof using Type. intros Hi. destruct (index_lt l i Hi) as [a ->]. apply safe_Ok. Qed.
Lemma store_safe {A} (l : list A) i v : i < len l -> safe (store l i v).
Proof using Type. intros Hi. destruct (store_lt l i v Hi) as [a ->]. apply safe_Ok. Qed.

Context (room : usize).

Lemma push_shaped st event : shaped st -> event_node event <= node_count columns ->
  ensures shaped (push_length_event room st event).
Proof using Type.
  intros [Hl Hc He] Hn. unfold push_length_event. destruct (_ =? _); [done|]. apply ensures_Ok.
  split; [done..|]. by constructor.
Qed.
Lemma push_safe st event : safe (push_length_event room st event).
Proof using Type. unfold push_length_event. solve_safe. Qed.
Hint Resolve push_safe : safe.

Lemma enter_child_shaped st child : shaped st -> child <= node_count columns ->
  safe (enter_child room st child) /\ ensures shaped (enter_child room st child).
Proof using Type.
  intros Hs Hc. unfold enter_child. split.
  - apply safe_bind; [apply index_safe; rewrite (shaped_colors _ Hs); lia|]. intros color _. solve_safe.
  - eapply ensures_bind; [apply ensures_trivial|]. intros color _. destruct (color =? 1); [done|].
    destruct (color =? 0); [by apply push_shaped|by apply ensures_Ok].
Qed.

Lemma settles_component n i item : settles n (component_checked item) (canonical_component columns i item).
Proof using Type. split; [apply returns_component|apply canonical_component_checked]. Qed.

Lemma enter_field_settles n st i : shaped st -> settles n shaped (enter_field columns room st i).
Proof using Type.
  intros Hs. unfold enter_field. apply settles_consume. eapply settles_bind; [apply settles_component|].
  intros [|child| | |kind start length] Hc; try by apply settles_ret; cbn in Hc.
  - destruct (enter_child_shaped st child Hs) as [? ?]; [apply Hc|]. by apply settles_spared.
  - apply settles_foldM; [done|]. intros st' j _ Hs'. apply settles_consume.
    eapply settles_bind; [apply settles_component|]. intros [|child| | |] Hi.
    2: { destruct (enter_child_shaped st' child Hs') as [? ?]; [apply Hi|]. by apply settles_spared. }
    all: destruct (kind =? COMPONENT_SET); [apply settles_error|by apply settles_ret].
Qed.

Lemma enter_node_settles n st node : shaped st -> node <= node_count columns ->
  settles n shaped (enter_node columns room st node).
Proof using Type.
  intros Hs Hn. pose proof (shaped_colors _ Hs) as Hc. unfold enter_node.
  apply settles_read; [apply index_safe; lia|]. intros color _.
  destruct (color =? 2); [by apply settles_ret|]. destruct (color =? 1); [apply settles_error|].
  apply settles_read; [apply store_safe; lia|]. intros entered (_&Hlen&_)%store_Ok.
  assert (Hs1 : shaped (st <| colors := entered |>)) by (destruct Hs; split; cbn; [done|congruence|done]).
  eapply settles_bind; [apply (settles_spared n shaped); [solve_safe|by apply push_shaped]|].
  intros st' Hst'. apply settles_read; [solve_safe|]. intros [start end_] _.
  apply settles_foldM; [done|]. intros st2 i _ Hs2. by apply enter_field_settles.
Qed.

Lemma node_length_returns n L node : returns n free (node_length columns L node).
Proof using Type.
  unfold node_length. step_returns. apply returns_foldM. intros length i _.
  apply returns_seq; [apply returns_component|]. intros component.
  apply returns_seq; [apply returns_component_length|]. step_returns.
Qed.

Lemma exit_node_settles n st node : shaped st -> node <= node_count columns ->
  settles n shaped (exit_node columns st node).
Proof using Type.
  intros [Hl Hc He] Hn. unfold exit_node. apply settles_seq; [apply node_length_returns|]. intros length.
  apply settles_read; [apply store_safe; lia|]. intros L (_&HL&_)%store_Ok.
  apply settles_read; [apply store_safe; lia|]. intros C (_&HC&_)%store_Ok. apply settles_ret.
  split; cbn; [congruence..|done].
Qed.

Lemma traverse_settles fuel st : shaped st -> settles fuel shaped (traverse columns room fuel st).
Proof using Type.
  revert st. induction fuel as [|fuel IH]; intros st Hs; cbn [traverse];
    destruct st.(events) as [|event rest] eqn:He; try by apply settles_ret.
  { apply settles_none. by apply yields_spared. }
  assert (Hs' : shaped (st <| events := rest |>) /\ event_node event <= node_count columns).
  { destruct Hs as [Hl Hc Hev]. rewrite He in Hev. apply Forall_cons in Hev as [? ?]. by repeat split. }
  destruct Hs' as [Hs' Hn]. apply settles_unit. eapply settles_bind; [|apply IH].
  destruct event; [by apply enter_node_settles|by apply exit_node_settles].
Qed.

Lemma traverse_from_settles fuel st initial : shaped st -> initial <= node_count columns ->
  settles fuel shaped (traverse_from columns room fuel st initial).
Proof using Type.
  intros Hs Hi. unfold traverse_from. apply settles_consume.
  apply settles_read; [apply index_safe; rewrite (shaped_colors _ Hs); lia|]. intros color _.
  destruct (color =? 2); [by apply settles_ret|].
  eapply settles_bind; [apply settles_spared; [apply push_safe|by apply push_shaped]|].
  intros st' Hs'. by apply traverse_settles.
Qed.
End components.

Lemma validate_generic_always columns : resident columns -> forall obs k, safe (fst (validate_generic columns obs k)).
Proof.
  intros Hr obs k. destruct (@transparent_obs _ _ (validate_generic_transparent columns) obs k) as [->| ->];
    [apply safe_Err|by apply validate_generic_safe].
Qed.

Lemma table_build_settles `{Layout} fuel columns : resident columns ->
  settles fuel (fun table => table.(table_columns) = columns /\ table_ok table) (table_build fuel columns).
Proof.
  intros Hr. split; [|by apply table_build_ok]. unfold table_build. step_returns.
  apply returns_seq; [by apply returns_uncharged, validate_generic_always|]. intros _. step_returns.
  match goal with H : ok_or (checked_add (node_count columns) 1) _ = Ok _ |- _ =>
    apply ok_or_Ok, checked_add_Some in H as [-> _] end.
  apply returns_seq; [|intros st; step_returns].
  apply (settles_foldM fuel (shaped columns)).
  - split; cbn; [unfold len; rewrite length_replicate; lia..|constructor].
  - intros st initial Hi%elem_of_range Hs. apply traverse_from_settles; [done|lia].
Qed.

Lemma table_release_returns n table : returns n free (table_release table).
Proof. unfold table_release, allocation_bytes. step_returns. Qed.

(** ** Cursors *)

Section cursors.
Context `{Layout}.

Lemma cursor_push_returns n self task : returns n free (cursor_push self task).
Proof using Type. unfold cursor_push, allocation_bytes. step_returns. Qed.

Lemma push_all_returns n self tasks : returns n free (push_all self tasks).
Proof using Type. apply returns_foldM. intros self' task _. apply cursor_push_returns. Qed.

Lemma schedule_node_returns n table self node marker : returns n free (schedule_node table self node marker).
Proof using Type. unfold schedule_node. step_returns. apply push_all_returns. Qed.

Lemma schedule_component_returns n table self c : returns n free (schedule_component table self c).
Proof using Type.
  destruct c; cbn [schedule_component]; step_returns; first
    [apply cursor_push_returns|apply push_all_returns|apply schedule_node_returns].
Qed.

Lemma emit_round_returns n table self task : returns n free (emit_round table self task).
Proof using Type.
  destruct task as [b|v|v i|v chunk chunks|node|i item remap|start i length set]; cbn [emit_round].
  - step_returns.
  - apply returns_seq; [|step_returns]. destruct (negb _); [apply cursor_push_returns|apply returns_ret].
  - apply returns_read; [solve_safe|]. intros b _. apply returns_seq; [|step_returns].
    destruct (_ <? _); [apply cursor_push_returns|apply returns_ret].
  - destruct (_ <=? _); [step_returns|]. apply returns_read; [solve_safe|]. intros offset _.
    apply returns_seq; [|step_returns]. destruct (_ <? _); [apply cursor_push_returns|apply returns_ret].
  - apply returns_read; [solve_safe|]. intros [start end_] _. apply returns_read; [solve_safe|]. intros tag _.
    apply returns_seq; [apply push_all_returns|]. intros self'.
    apply returns_seq; [apply cursor_push_returns|]. step_returns.
  - apply returns_seq; [apply returns_component|]. intros c. apply returns_seq.
    + destruct remap; [|apply returns_ret]. destruct c; step_returns.
    + intros c'. apply returns_seq; [apply schedule_component_returns|]. step_returns.
  - destruct (_ <=? _); [apply returns_ret|]. apply returns_seq; [apply cursor_push_returns|]. intros self'.
    apply returns_seq; [apply returns_component|]. intros c. apply returns_seq; [|step_returns].
    destruct set; [destruct c|]; first [apply schedule_node_returns|apply schedule_component_returns|step_returns].
Qed.

(** A byte costs a unit. *)
Definition byte_cost (result : option byte * CanonicalByteCursor) : nat :=
  match result.1 with Some _ => 1 | None => 0 end.

Lemma next_byte_returns table fuel self : returns fuel byte_cost (next_byte table fuel self).
Proof using Type.
  revert self. induction fuel as [|fuel IH]; intros self; cbn [next_byte]; [by apply returns_none|].
  destruct self.(stack) as [|task rest]; [by apply returns_value|].
  eapply returns_bind; [apply returns_consume|apply yields_trivial|]. intros [] _.
  eapply returns_then; [apply emit_round_returns|apply yields_trivial|]. intros [[b|] self'] _.
  - by apply returns_value.
  - eapply returns_mono; [| |apply IH]; [lia|]. intros r. lia.
Qed.

Lemma compare_bytes_returns left right fuel lc rc : returns fuel free (compare_bytes fuel left right lc rc).
Proof using Type.
  revert lc rc. induction fuel as [|fuel IH]; intros lc rc; [by apply returns_none|].
  rewrite compare_bytes_eq.
  eapply returns_bind; [apply next_byte_returns|apply yields_trivial|]. intros [ol lc'] _.
  eapply (returns_mono (S fuel - byte_cost (ol, lc')) _ free); [done|unfold free; lia|].
  eapply returns_seq.
  { eapply returns_mono; [| |eapply returns_free, next_byte_returns]; [lia|done]. }
  intros [or rc']. destruct ol as [a|], or as [b|]; try apply returns_ret.
  apply returns_seq; [apply returns_comparison_byte|]. intros _.
  destruct (byte_cmp a b); try apply returns_ret. eapply returns_mono; [| |apply IH]; [cbn; lia|done].
Qed.
End cursors.

(** ** Comparisons *)

Section comparisons.
Context `{Layout} (fuel : nat).

Lemma compare_in_returns same left right cursors m n : returns fuel free (compare_in fuel same left right cursors m n).
Proof using Type.
  unfold compare_in. step_returns. apply returns_seq; [apply cursor_push_returns|]. intros lc.
  apply returns_seq; [apply cursor_push_returns|]. intros rc. apply compare_bytes_returns.
Qed.

Section order.
Context {S : Type} (I : S -> Prop) (columns : DirectColumns).

Lemma set_member_returns i : returns fuel free (set_member columns i).
Proof using Type. unfold set_member. apply returns_seq; [apply returns_component|]. step_returns. Qed.

Lemma validate_sets_settles (cmp : S -> usize -> usize -> Bud (comparison * S)) error self :
  (forall self m n, I self -> settles fuel (fun r => I r.2) (cmp self m n)) -> I self ->
  settles fuel I (validate_canonical_sets columns cmp error self).
Proof using Type.
  intros Hc HI. apply settles_foldM; [done|]. intros self' i _ HI'. unfold validate_set.
  apply settles_consume, settles_read; [solve_safe|]. intros kind _. destruct (negb _); [by apply settles_ret|].
  apply settles_seq; [apply returns_component|]. intros [| | | |kind' start length]; try apply settles_error.
  destruct (negb _); [apply settles_error|]. apply settles_foldM; [done|]. intros self2 o _ HI2.
  apply settles_consume, settles_seq; [apply set_member_returns|]. intros m.
  apply settles_seq; [apply set_member_returns|]. intros n.
  eapply settles_bind; [by apply Hc|]. intros [order self3] HI3.
  destruct order; first [apply settles_error|by apply settles_ret].
Qed.

Lemma root_ref_safe i : safe (root_ref columns i).
Proof using Type. unfold root_ref. solve_safe. Qed.
Hint Resolve root_ref_safe : safe.

Lemma validate_group_settles (cmp : S -> CanonicalRootRef -> CanonicalRootRef -> Bud (comparison * S)) error self :
  (forall self a b, I self -> settles fuel (fun r => I r.2) (cmp self a b)) -> I self ->
  settles fuel I (validate_group columns cmp error self).
Proof using Type.
  intros Hc HI. unfold validate_group. eapply (settles_bind _ (fun st => I st.1)).
  - apply settles_foldM; [done|]. intros [self' p] i _ HI'. unfold validate_root.
    apply settles_consume, settles_read; [apply root_ref_safe|]. intros root _. eapply (settles_bind _ I).
    + destruct p as [p|]; [|by apply settles_ret]. eapply settles_bind; [by apply Hc|].
      intros [order self2] HI2. destruct order; first [apply settles_error|by apply settles_ret].
    + intros self2 HI2. by apply settles_ret.
  - intros [self' p] HI'. by apply settles_ret.
Qed.

Lemma compare_root_refs_settles (cmp : S -> usize -> usize -> Bud (comparison * S)) self a b :
  (forall self m n, I self -> settles fuel (fun r => I r.2) (cmp self m n)) -> I self ->
  settles fuel (fun r => I r.2) (compare_root_refs cmp self a b).
Proof using Type. intros Hc HI. unfold compare_root_refs. destruct (_ ?= _); [by apply Hc|by apply settles_ret..]. Qed.
End order.

(** ** The selected roots *)

Lemma match_posting_returns rounds columns included count root posting :
  returns rounds free (match_posting rounds columns included count root posting).
Proof using Type.
  revert posting. induction rounds as [|rounds IH]; intros posting; cbn [match_posting].
  { by apply returns_none. }
  destruct (_ <? _); [|apply returns_ret].
  eapply returns_bind; [apply returns_consume|apply yields_trivial|]. intros [] _.
  change (S rounds - N.to_nat 1)%nat with (S rounds - 1)%nat. rewrite Nat.sub_1_r. cbn [Nat.pred].
  apply returns_read; [destruct included; unfold included_root_position, excluded_root_position; solve_safe|].
  intros candidate _. destruct (_ <? _); [apply IH|]. destruct (_ =? _); apply returns_ret.
Qed.

Lemma select_root_returns rounds columns position posting : (rounds <= fuel)%nat ->
  returns rounds free (select_root fuel rounds columns position posting).
Proof using Type.
  revert position posting. induction rounds as [|rounds IH]; intros position posting Hr; cbn [select_root].
  { by apply returns_none. }
  destruct (_ <? root_count columns); [|apply returns_ret].
  eapply returns_bind; [apply returns_consume|apply yields_trivial|]. intros [] _.
  change (S rounds - N.to_nat 1)%nat with (S rounds - 1)%nat. rewrite Nat.sub_1_r. cbn [Nat.pred].
  apply returns_read; [solve_safe|]. intros rp _. apply returns_seq.
  { eapply returns_mono; [| |apply match_posting_returns]; [lia|done]. }
  intros [matched posting']. destruct (negb _); [apply IH; lia|].
  apply returns_read; [apply root_ref_safe|]. step_returns.
Qed.
End comparisons.
