(* ===== verification/Merging.v ===== *)
(** * The merge as a whole

    [CanonicalKWayRootMerger::new] and the calls of [next] after it: they end
    within their budget, and return the selected roots of all tables in the
    canonical order. *)

From stdpp Require Import sorting.
From S2P Require Import Prelude Errors Partial Lists Tags Text Readers Columns Nodes Samples Generic Search Cycles.
From S2P Require Import Structure Reach Safety Validated Terms Preparation Workspace Budget Encode Merge.
From S2P Require Import Lengths Ordering Groups Kway Returning.
Local Open Scope string_scope.
Local Open Scope list_scope.
Local Open Scope N_scope.

Section kway.
Context `{Layout} (fuel : nat) (T : list CanonicalTable).
Context (built : forall t, t < len T -> table_ok T.[t]).

Abbreviation count := (len T).
Abbreviation column t := (table_columns T.[t]).
Abbreviation columns_of := (fun t => column t).

Lemma compare_table_roots_returns self left right a b : self.(tables) = T -> left < count -> right < count ->
  returns fuel free (compare_table_roots fuel left right self a b).
Proof using Type.
  intros HT Hl Hr. unfold compare_table_roots. step_returns. unfold compare_root_refs.
  destruct (_ ?= _); [|apply returns_ret..]. unfold compare_nodes. rewrite HT.
  apply returns_read; [by apply index_safe|]. intros lt _. apply returns_read; [by apply index_safe|].
  intros rt _. unfold with_compared. apply returns_seq; [apply compare_in_returns|]. step_returns.
Qed.

Lemma fill_candidate_settles self t : merger_ok T self -> t < count ->
  settles fuel (fun self' => merger_ok T self' /\ filled T self' t /\ filling T t self self')
    (fill_candidate fuel self t).
Proof using built.
  intros Hok Ht. split; [|by apply fill_candidate_fills]. destruct Hok as [HT Hp Hq Hc Hr _].
  unfold fill_candidate. eapply returns_then.
  - unfold kway_selected_root.
    apply returns_read; [apply index_safe; by rewrite HT|]. intros current _.
    apply returns_read; [apply index_safe; by rewrite Hp|]. intros p _.
    apply returns_read; [apply index_safe; by rewrite Hq|]. intros q _.
    apply returns_seq; [by apply select_root_returns|]. intros [root [p' q']].
    apply returns_read; [apply store_safe; by rewrite Hp|]. intros ps _.
    apply returns_read; [apply store_safe; by rewrite Hq|]. intros qs _. apply returns_ret.
  - unfold kway_selected_root. apply (yields_mono (fun r => len r.2.(candidates) = count)); [intros r Hr'; exact Hr'|].
    do 4 (apply yields_then; intros ?). case_match. case_match. apply yields_then. intros ?. apply yields_then.
    intros ?. by apply yields_ret.
  - intros [root self'] Hlen. cbn in Hlen. apply returns_read; [apply store_safe; by rewrite Hlen|]. step_returns.
Qed.

Lemma fill_all_settles self : merger_ok T self ->
  settles fuel (fun self' => merger_ok T self' /\ (forall t, t < count -> filled T self' t) /\
      (forall t, rest_of T self' t = rest_of T self t) /\ self'.(roots) = self.(roots))
    (foldM (fill_candidate fuel) self (range 0 count)).
Proof using built.
  intros Hok. split; [|by apply fill_all]. apply (settles_foldM fuel (merger_ok T)); [done|].
  intros self' t Ht%elem_of_range Hok'. eapply settles_mono; [done| |apply fill_candidate_settles; [done|lia]].
  by intros s [? _].
Qed.

Section group.
Context (start : CanonicalKWayRootMerger) (start_ok : merger_ok T start).
Context (start_filled : forall t, t < count -> filled T start t).

Lemma minimum_round_settles c d minimum t : t < count -> least T start d minimum ->
  settles fuel (fun st => (exists c, st.1 = start <| cursors := c |>) /\ least T start (d ++ [t]) st.2)
    (minimum_round fuel (start <| cursors := c |>, minimum) t).
Proof using built start_ok start_filled.
  intros Ht Hl. split; [|by apply (minimum_round_least fuel)]. destruct start_ok as [HT _ _ Hc _ _].
  unfold minimum_round. apply returns_read; [apply index_safe; cbn; by rewrite Hc|].
  intros [a|] _; [|apply returns_ret]. destruct minimum as [m|]; [|apply returns_ret].
  destruct Hl as (Hm&_). apply returns_read; [apply index_safe; cbn; by rewrite Hc|]. intros b _.
  apply returns_read; [solve_safe|]. intros b' _.
  apply returns_seq; [by apply compare_table_roots_returns|]. step_returns.
Qed.

Lemma find_minimum_settles :
  settles fuel (fun st => (exists c, st.1 = start <| cursors := c |>) /\ least T start (range 0 count) st.2)
    (foldM (minimum_round fuel) (start, None) (range 0 count)).
Proof using built start_ok start_filled.
  apply (settles_foldM_ind fuel (fun d st => (exists c, st.1 = start <| cursors := c |>) /\ least T start d st.2)).
  - split; [exists start.(cursors); by destruct start|]. by intros t ?%elem_of_nil.
  - intros d t rest [self m] Hsplit [[c Hs] Hl]. cbn [fst snd] in *. subst self.
    assert (Ht : t ∈ range 0 count) by (rewrite Hsplit; apply elem_of_app; right; by left).
    apply elem_of_range in Ht. apply minimum_round_settles; [lia|done].
Qed.

Context (minimum : usize) (minimum_root : CanonicalRootRef) (km : key).
Context (minimum_small : minimum < count) (minimum_candidate : start.(candidates).[minimum] = Some minimum_root).
Context (minimum_keyed : keyed T start minimum km).
Context (start_roots : forall t, t < count -> start.(roots).[t] = None).

Lemma take_round_settles d self n t : taking T start km d self -> t < count -> t ∉ d ->
  settles fuel (fun st => taking T start km (d ++ [t]) st.1)
    (take_round fuel minimum minimum_root (self, n) t).
Proof using built start_ok start_filled minimum_small minimum_candidate minimum_keyed.
  intros Htk Ht Hd. split; [|by apply take_round_takes]. pose proof Htk as [HT Hc _ Hp Hr _ _].
  pose proof (merger_candidates T _ start_ok) as Hcl.
  unfold take_round. apply returns_read; [apply index_safe; by rewrite Hc, Hcl|]. rewrite Hc.
  intros o [_ ->]%index_total. destruct (start.(candidates).[t]) as [a|] eqn:Ha; [|apply returns_ret].
  eapply returns_then; [|by eapply compare_taking|].
  - destruct (t =? minimum); [apply returns_ret|].
    apply returns_seq; [by apply compare_table_roots_returns|]. step_returns.
  - intros [equal self'] [_ [c Hs]]. cbn [snd] in Hs. subst self'. destruct (negb equal); [apply returns_ret|].
    apply returns_read; [apply store_safe; cbn; by rewrite Hr|]. intros rs _.
    apply returns_read; [apply index_safe; cbn; by rewrite Hp|]. intros p _. apply returns_read; [solve_safe|].
    intros p' _. apply returns_read; [apply store_safe; cbn; by rewrite Hp|]. step_returns.
Qed.

Lemma take_all_settles n c :
  settles fuel (fun st => taking T start km (range 0 count) st.1)
    (foldM (take_round fuel minimum minimum_root) (start <| cursors := c |>, n) (range 0 count)).
Proof using built start_ok start_filled minimum_small minimum_candidate minimum_keyed start_roots.
  apply (settles_foldM_ind fuel (fun d st => taking T start km d st.1)).
  - apply (taking_start T start start_ok km start_roots).
  - intros d t rest [self n'] Hsplit Htk.
    assert (Ht : t ∈ range 0 count) by (rewrite Hsplit; apply elem_of_app; right; by left).
    apply elem_of_range in Ht. apply take_round_settles; [done|lia|]. by eapply range_fresh.
Qed.
End group.

Context (sorted : forall t, t < count -> roots_sorted (column t)).

Lemma kway_next_settles self : merger_ok T self ->
  settles fuel (fun r => merger_ok T r.2 /\
    match r.1 with
    | Some group => exists k, next_group columns_of count (rest_of T self) (rest_of T r.2) group k
    | None => forall t, t < count -> rest_of T self t = []
    end) (kway_next fuel self).
Proof using built sorted.
  intros Hok. split; [|by apply kway_next_spec]. pose proof (merger_tables T _ Hok) as HT. unfold kway_next.
  pose proof (cleared_ok T self Hok) as Hok0.
  change (len (tables (_ <| roots := _ |>))) with (len (tables self)). rewrite HT.
  apply fill_all_settles in Hok0. destruct Hok0 as [Hr Hy]. rewrite HT in Hr, Hy.
  eapply returns_then; [exact Hr|exact Hy|]. intros start (Hs&Hf&Hrest&Hroots).
  eapply returns_then; [by apply find_minimum_settles|by apply find_minimum_settles|].
  intros [self1 m] [[c Hs1] Hl]. cbn [fst snd] in *. subst self1.
  destruct m as [m|]; [|apply returns_ret]. pose proof Hl as (Hm&[root Hroot]&_).
  destruct (candidate_keyed T built start Hf m root Hm Hroot) as (km&Hkm&_).
  apply returns_read; [apply index_safe; cbn; by rewrite (merger_candidates T _ Hs)|].
  intros o ->%index_candidate. rewrite Hroot. apply returns_read; [solve_safe|]. intros root' [= <-].
  apply returns_seq; [|step_returns; solve_safe].
  apply (take_all_settles start Hs Hf m root km); [done..|].
  intros t Ht. rewrite Hroots. cbn. apply lookup_total_replicate_2. unfold len in Ht. lia.
Qed.
(** The roots no group has taken. *)
Definition total_rest (self : CanonicalKWayRootMerger) : N := sum (fun t => len (rest_of T self t)) (range 0 count).

Lemma next_group_less self self' group k : next_group columns_of count (rest_of T self) (rest_of T self') group k ->
  total_rest self' < total_rest self.
Proof using Type.
  intros [(_&(m&root&Hm&Hroot)&_) Ht _]. unfold total_rest.
  apply (sum_lt _ _ m); [apply elem_of_range; lia|..].
  - specialize (Ht m Hm). rewrite Hroot in Ht. destruct Ht as (i&_&->). rewrite len_cons. lia.
  - intros t Hin%elem_of_range. specialize (Ht t ltac:(lia)). destruct group.[t]; [|by rewrite Ht].
    destruct Ht as (i&_&->). rewrite len_cons. lia.
Qed.

Lemma drain_returns rounds self : merger_ok T self -> (N.to_nat (total_rest self) < rounds)%nat ->
  returns fuel free (drain fuel rounds self).
Proof using built sorted.
  revert self. induction rounds as [|rounds IH]; intros self Hok Hr; cbn [drain]; [lia|].
  eapply returns_then; [by apply kway_next_settles|by apply kway_next_settles|].
  intros [[group|] self'] [Hok' Hg]; cbn [fst snd] in *; [|apply returns_ret].
  destruct Hg as [k Hg]. apply next_group_less in Hg. apply returns_seq; [apply IH; [done|lia]|]. step_returns.
Qed.
End kway.

(** ** [new] *)

Section new.
Context `{Layout} (fuel : nat).

Section tables.
Context (start : CanonicalKWayRootMerger) (built : forall t, t < len start.(tables) -> table_ok start.(tables).[t]).

Abbreviation moved := (fun self => exists c, self = start <| cursors := c |>).

Lemma compare_nodes_settles self t m n : t < len start.(tables) -> moved self ->
  settles fuel (fun r => moved r.2) (compare_nodes fuel t t self m n).
Proof using built.
  intros Ht Hm. split.
  - destruct Hm as [c ->]. unfold compare_nodes. do 2 (apply returns_read; [by apply index_safe|]; intros ? _).
    unfold with_compared. apply returns_seq; [apply compare_in_returns|]. step_returns.
  - eapply yields_mono; [|by apply (compare_nodes_order fuel start built)]. by intros r [_ ?].
Qed.

Lemma compare_nodes_in_table_settles original self m n : table_ok original -> moved self ->
  settles fuel (fun r => moved r.2) (compare_nodes_in_table fuel original self m n).
Proof using Type.
  intros Ho Hm. split.
  - unfold compare_nodes_in_table, with_compared. apply returns_seq; [apply compare_in_returns|]. step_returns.
  - eapply yields_mono; [|by apply (compare_in_table_order fuel start)]. by intros r [_ ?].
Qed.

Lemma validate_table_settles self t : t < len start.(tables) -> moved self ->
  settles fuel moved (validate_table fuel self t).
Proof using built.
  intros Ht Hm. split; [|eapply yields_mono; [|by apply validate_table_ok]; by intros s [_ ?]].
  unfold validate_table. apply returns_read.
  { destruct Hm as [c ->]. by apply index_safe. }
  intros current Hcur. destruct Hm as [c ->].
  change (tables (start <| cursors := c |>)) with start.(tables) in Hcur. apply index_total in Hcur as [_ ->].
  pose proof (built t Ht) as Hok. assert (Hm : moved (start <| cursors := c |>)) by (by exists c). revert Hm.
  generalize (start <| cursors := c |>). clear c. intros self Hm.
  apply (settles_bind fuel moved (fun _ => True)).
  - destruct (has_anonymous_scope_map _); [|by apply settles_ret].
    eapply settles_bind; [apply table_build_settles, resident_without_maps, (table_resident _ Hok)|].
    intros original [Hcol Ho]. eapply settles_bind.
    + unfold validate_original_table_order. eapply settles_bind.
      * apply (validate_sets_settles fuel moved); [|exact Hm]. intros s m n Hs.
        by apply compare_nodes_in_table_settles.
      * intros s Hs. apply (validate_group_settles fuel moved); [|exact Hs]. intros s' a b Hs'.
        apply (compare_root_refs_settles fuel moved); [|exact Hs']. intros s2 m n Hs2.
        by apply compare_nodes_in_table_settles.
    + intros s Hs. apply settles_seq; [apply table_release_returns|]. intros _. by apply settles_ret.
  - intros s Hs. eapply settles_bind.
    + apply (validate_sets_settles fuel moved); [|exact Hs]. intros s' m n Hs'. by apply compare_nodes_settles.
    + intros s' Hs'. eapply settles_mono; [done|done|]. apply (validate_group_settles fuel moved); [|exact Hs'].
      intros s2 a b Hs2. unfold compare_table_roots. apply settles_consume.
      apply (compare_root_refs_settles fuel moved); [|exact Hs2]. intros s3 m n Hs3. by apply compare_nodes_settles.
Qed.
End tables.

Lemma build_all_settles columns : Forall resident columns ->
  settles fuel (fun tables => table_columns <$> tables = columns /\ Forall table_ok tables)
    (foldM (fun tables column => table ← table_build fuel column; mret (tables ++ [table])) [] columns).
Proof using Type.
  intros Hres. split; [|by apply build_all]. apply returns_foldM. intros tables column Hin.
  rewrite Forall_forall in Hres. apply returns_seq; [by apply table_build_settles, Hres|]. step_returns.
Qed.

(** A budget that has spent nothing. *)
Lemma budget_new_ok limits : safe (budget_new limits) /\
  ensures (fun budget => budget.(Budget.limits) = limits /\ solvent budget /\ budget.(report).(work) = 0)
    (budget_new limits).
Proof using Type.
  unfold budget_new. destruct (_ =? 0); [done|]. destruct (_ =? 0); [done|]. split; [apply safe_Ok|].
  apply ensures_Ok. split; [done|]. split; [split; cbn; lia|done].
Qed.

Lemma kway_new_returns columns limits obs k : Forall resident columns ->
  (N.to_nat limits.(max_work) < fuel)%nat ->
  match fst (kway_new fuel columns limits obs k) with
  | Ok (self, budget) => budget.(Budget.limits) = limits /\ solvent budget
  | Err _ => True
  | _ => False
  end.
Proof using Type.
  intros Hres Hfuel. unfold kway_new. destruct (_ <? 2); [done|].
  destruct (budget_new_ok limits) as [[Hp Ho] Hb]. unfold mbind at 1, Cx_bind at 1, lift at 1.
  destruct (budget_new limits) as [budget|e| |]; try done. destruct (Hb budget eq_refl) as (Hl&Hs&Hw).
  match goal with |- context [fst (?m budget obs k)] => enough (Hr : returns fuel free m) end.
  { specialize (Hr budget obs k Hs). unfold work_left in Hr. rewrite Hl, Hw, N.sub_0_r in Hr.
    specialize (Hr Hfuel). destruct (fst _) as [[self budget']|e| |]; try done.
    destruct Hr as (Hl'&Hs'&_). split; [congruence|done]. }
  apply returns_seq; [apply returns_allocate|]. intros _.
  eapply returns_then; [by apply build_all_settles|by apply build_all_settles|]. intros tables [Hc Hok].
  do 4 (apply returns_seq; [apply returns_allocate|]; intros _).
  set (start := {| tables := tables |}).
  apply (settles_foldM fuel (fun self => exists c, self = start <| cursors := c |>)).
  - by exists (cursor_new, cursor_new).
  - intros self t Ht%elem_of_range Hm. apply (validate_table_settles start); [|cbn|done].
    + intros u Hu. rewrite Forall_forall in Hok. apply Hok. eapply get_elem_of. by apply get_total.
    + unfold len in *. rewrite <- Hc, length_fmap in Ht. lia.
Qed.

(** The number of roots to take from all tables. *)
Definition selected_total (columns : list DirectColumns) : N := sum (fun c => len (selected_roots c)) columns.

Lemma started_total columns self : started columns self ->
  total_rest self.(tables) self = selected_total columns.
Proof using Type.
  intros [Hc Hok Hb Hs Hp]. unfold total_rest, selected_total. rewrite <- Hc, sum_fmap.
  transitivity (sum (fun t => len (selected_roots (table_columns self.(tables).[t]))) (range 0 (len self.(tables)))).
  - apply sum_ext. intros t Ht%elem_of_range. unfold rest_of. rewrite Hp by lia. done.
  - apply (sum_total (fun table => len (selected_roots (table_columns table)))).
Qed.
End new.

(** [new], and [while let Some(group) = merger.next()]. *)
Definition kway_merge `{Layout} (fuel rounds : nat) (columns : list DirectColumns) (limits : CanonicalMergeLimits)
    : Cx (list (list (option CanonicalRootRef)) * CanonicalBudget) :=
  '(merger, budget) ← kway_new fuel columns limits;
  drain fuel rounds merger budget.

Lemma kway_merge_groups `{Layout} fuel rounds columns limits obs k groups budget :
  Forall resident columns ->
  fst (kway_merge fuel rounds columns limits obs k) = Ok (groups, budget) ->
  exists terms, canonical_groups columns groups terms.
Proof.
  intros Hres E. enough (post (fun r => exists terms, canonical_groups columns r.1 terms)
    (kway_merge fuel rounds columns limits)) as Hpost by exact (Hpost obs k _ E).
  unfold kway_merge. eapply post_bind; [by apply kway_new_spec|]. intros [self b] Hst. cbn [fst] in Hst.
  pose proof (drain_spec fuel self.(tables) (started_built _ _ Hst)
    (fun t Ht => proj2 (started_sorted _ _ Hst t Ht)) rounds self (started_ok _ _ Hst)) as Hd.
  eapply post_mono; [|apply (Hd b)]. intros [gs b'] [keys Hm]. by eapply started_groups.
Qed.

(** C7: What the merge of any number of tables returns is canonical: every
    selected root of every table is in exactly one group, in the order of its
    table; the roots of a group have the same kind and stand for the same term;
    and the groups strictly increase by kind and by the encoding of the term, so
    equal roots of different tables are always in the same group. *)
Theorem kway_merge_correct `{Layout} fuel rounds columns limits obs k groups budget :
  Forall resident columns ->
  fst (kway_merge fuel rounds columns limits obs k) = Ok (groups, budget) ->
  exists terms, canonical_groups columns groups terms.
Proof. apply kway_merge_groups. Qed.

(** C25: The merge ends whatever the cancellation flag does: with fuel beyond the
    work limit and a call of [next] per selected root and one more, it neither
    panics nor runs out, and its report stays within the work and workspace
    limits it was given. *)
Theorem kway_merge_returns `{Layout} fuel rounds columns limits obs k :
  Forall resident columns -> (N.to_nat limits.(max_work) < fuel)%nat ->
  (N.to_nat (selected_total columns) < rounds)%nat ->
  match fst (kway_merge fuel rounds columns limits obs k) with
  | Ok (_, budget) => budget.(report).(work) <= limits.(max_work) /\
      budget.(report).(peak_workspace_bytes) <= limits.(max_workspace_bytes)
  | Err _ => True
  | Panic | OutOfFuel => False
  end.
Proof.
  intros Hres Hfuel Hrounds. pose proof (kway_new_returns fuel columns limits obs k Hres Hfuel) as Hn.
  pose proof (kway_new_spec fuel columns limits Hres obs k) as Hst.
  unfold kway_merge, mbind, Cx_bind. destruct (kway_new fuel columns limits obs k) as [[[self b]|e| |] k'];
    cbn [fst] in *; try done.
  destruct Hn as [Hl Hs]. specialize (Hst _ eq_refl). cbn [fst] in Hst.
  assert (Hleft : (work_left b < fuel)%nat) by (unfold work_left; rewrite Hl; lia).
  rewrite <- (started_total _ _ Hst) in Hrounds.
  pose proof (drain_returns fuel self.(tables) (started_built _ _ Hst)
    (fun t Ht => proj2 (started_sorted _ _ Hst t Ht)) rounds self (started_ok _ _ Hst) Hrounds b obs k' Hs Hleft) as Hd.
  destruct (fst (drain fuel rounds self b obs k')) as [[groups b']|e| |]; try done.
  destruct Hd as (Hl'&[Hw _ Hp]&_). rewrite Hl', Hl in *. done.
Qed.

(** ** A merge of three tables

    A small table whose class assertion is the one of [sample] with its nodes in
    other places. *)

Definition merge_limits : CanonicalMergeLimits := {| max_work := 20000; max_workspace_bytes := 1000000 |}.

Definition peer_sample : DirectColumns := Samples.encode
  [ (ROOT_AXIOM, 4) ]
  [ iri_node "http://e/C"; entity_node "class" 1; anonymous_node 7 "x";
    (TAG_CLASS_ASSERTION, [node 2; node 3; set_of []]) ].

Lemma merged_samples_resident : Forall resident [sample; peer_sample; excluding_sample].
Proof.
  repeat (apply Forall_cons; split; [apply resident_of_small; by vm_compute|]). by apply Forall_nil.
Qed.

(** Which table contributes which of its roots to each group. *)
Definition root_ids_of (groups : list root_group) : list (list (option usize)) :=
  map (map (option_map root_node_id)) groups.
Definition merge_samples (limits : CanonicalMergeLimits) (obs : nat -> N) := let _ := sample_layout in
  fst (kway_merge (N.to_nat 20001) 20 [sample; peer_sample; excluding_sample] limits obs 0%nat).

Lemma merged_samples : let groups := [ [Some 11; None; Some 11]; [Some 12; None; None];
    [Some 13; None; Some 13]; [Some 14; Some 4; None] ] in
  match merge_samples merge_limits quiet with Ok (merged, _) => root_ids_of merged = groups | _ => False end.
Proof. by vm_compute. Qed.

Lemma kway_merge_correct_witness :
  match merge_samples merge_limits quiet with
  | Ok (groups, _) =>
      root_ids_of groups = [ [Some 11; None; Some 11]; [Some 12; None; None];
        [Some 13; None; Some 13]; [Some 14; Some 4; None] ] /\
      exists terms, canonical_groups [sample; peer_sample; excluding_sample] groups terms
  | _ => False
  end.
Proof.
  pose proof merged_samples as Hg. cbv zeta in Hg.
  pose proof (@kway_merge_correct sample_layout (N.to_nat 20001) 20 [sample; peer_sample; excluding_sample]
    merge_limits quiet 0%nat) as Hc.
  unfold merge_samples in *. cbv zeta in *.
  destruct (fst (kway_merge _ _ _ _ _ _)) as [[groups budget]|e| |]; [|done..].
  split; [done|]. by apply (Hc groups budget merged_samples_resident).
Defined.

Lemma kway_merge_returns_witness :
  match merge_samples merge_limits quiet with
  | Ok (_, budget) => budget.(report).(work) <= 20000 /\ budget.(report).(peak_workspace_bytes) <= 1000000
  | Err _ => True
  | Panic | OutOfFuel => False
  end.
Proof.
  apply (@kway_merge_returns sample_layout (N.to_nat 20001) 20 [sample; peer_sample; excluding_sample]
    merge_limits quiet 0%nat merged_samples_resident).
  - cbn [max_work merge_limits]. lia.
  - vm_compute. lia.
Defined.

(** Limits that are too small are reported as such. *)
Example merge_samples_limited :
  merge_samples {| max_work := 100; max_workspace_bytes := 1000000 |} quiet =
    Err (Resource "encoded canonical comparison requires more than 100 work units") /\
  merge_samples {| max_work := 20000; max_workspace_bytes := 100 |} quiet =
    Err (Resource "encoded canonical comparison requires more than 100 workspace bytes").
Proof. by vm_compute. Qed.
