(* ===== verification/Positions.v ===== *)
(** * Anonymous positions

    [assign_anonymous_positions] numbers the anonymous individuals of all tables
    of a merge: it gives every coordinate the rank of the term it stands for
    among the distinct terms, in the canonical order of their encodings. *)

From stdpp Require Import sorting.
From S2P Require Import Prelude Errors Partial Lists Tags Text Readers Columns Nodes Samples Generic Search Cycles.
From S2P Require Import Safety Structure Validated Terms Preparation Workspace Budget Encode Merge.
From S2P Require Import Lengths Ordering Groups Kway Returning Merging.
Local Open Scope string_scope.
Local Open Scope list_scope.
Local Open Scope N_scope.

(** ** Strings compared behind a prefix *)

Lemma bytes_cmp_app a b x y : len a = len b ->
  bytes_cmp (a ++ x) (b ++ y) = then_with (bytes_cmp a b) (bytes_cmp x y).
Proof.
  revert b. induction a as [|c a IH]; intros [|d b]; rewrite ?len_cons, ?len_nil; intros Hl; [done|lia..|].
  unfold bytes_cmp. cbn [app slice_cmp]. destruct (byte_cmp c d); [|done..]. apply IH. lia.
Qed.

Lemma bytes_cmp_same a x y : bytes_cmp (a ++ x) (a ++ y) = bytes_cmp x y.
Proof. rewrite bytes_cmp_app by done. by rewrite (cmp_refl bytes_cmp). Qed.

Lemma bytes_cmp_apart a b x y : (forall r r', a ++ r <> b ++ r') ->
  bytes_cmp (a ++ x) (b ++ y) = bytes_cmp a b.
Proof.
  revert b. induction a as [|c a IH]; intros [|d b] Hne.
  - by destruct (Hne [] []).
  - destruct (Hne (d :: b) []). by rewrite app_nil_r.
  - destruct (Hne [] (c :: a)). by rewrite app_nil_r.
  - unfold bytes_cmp. cbn [app slice_cmp]. destruct (byte_cmp c d) eqn:E; [|done..].
    apply (cmp_eq byte_cmp) in E as ->. apply IH. intros r r' Hr. apply (Hne r r'). cbn. by rewrite Hr.
Qed.

Lemma compare_varints a b : a <= usize_max -> b <= usize_max ->
  compare_canonical_varints a b = Ok (bytes_cmp (leb128 a) (leb128 b)).
Proof. intros Ha Hb. unfold compare_canonical_varints. by rewrite !encode_varint_usize. Qed.

(** A string behind its length is compared by the length first. *)
Lemma marked_order a b :
  bytes_cmp (marked a) (marked b) = then_with (bytes_cmp (leb128 (len a)) (leb128 (len b))) (bytes_cmp a b).
Proof.
  unfold marked. destruct (decide (len a = len b)) as [E|Hne].
  - by rewrite E, bytes_cmp_same, (cmp_refl bytes_cmp).
  - rewrite bytes_cmp_apart.
    + destruct (bytes_cmp (leb128 (len a)) (leb128 (len b))) eqn:E; [|done..].
      apply (cmp_eq bytes_cmp) in E. apply (f_equal (fun l => l ++ [])), leb128_prefix in E as [E _]. done.
    + by intros r r' [E _]%leb128_prefix.
Qed.

(** ** Anonymous individuals as terms *)

Definition individual (scope key : bytes) : Term :=
  TermNode TAG_ANONYMOUS_INDIVIDUAL [TermScalar COMPONENT_BYTES scope; TermScalar COMPONENT_BYTES key].

Lemma individual_order s k s' k' : len s = len s' ->
  bytes_cmp (node_bytes (individual s k)) (node_bytes (individual s' k')) =
  then_with (bytes_cmp s s') (then_with (bytes_cmp (leb128 (len k)) (leb128 (len k'))) (bytes_cmp k k')).
Proof.
  intros Hl. cbn [individual node_bytes term_bytes fmap list_fmap concat]. rewrite bytes_cmp_same, !app_nil_r.
  change (bytes_cmp ([byte_of_u8 COMPONENT_BYTES] ++ marked s ++ [byte_of_u8 COMPONENT_BYTES] ++ marked k)
    ([byte_of_u8 COMPONENT_BYTES] ++ marked s' ++ [byte_of_u8 COMPONENT_BYTES] ++ marked k') = then_with
    (bytes_cmp s s') (then_with (bytes_cmp (leb128 (len k)) (leb128 (len k'))) (bytes_cmp k k'))).
  rewrite bytes_cmp_same, bytes_cmp_app, marked_order, bytes_cmp_same, marked_order, Hl, (cmp_refl bytes_cmp).
  - done.
  - unfold marked. rewrite !len_app, Hl. done.
Qed.

Lemma individual_proper s k : proper (individual s k) /\ is_node (individual s k).
Proof. split; [|done]. constructor. repeat constructor. Qed.

Lemma individual_inj s k s' k' :
  node_bytes (individual s k) = node_bytes (individual s' k') -> individual s k = individual s' k'.
Proof. apply node_bytes_inj; apply individual_proper. Qed.

Lemma scalar_payload_component columns i payload :
  scalar_payload columns i COMPONENT_BYTES = Ok payload ->
  component_at columns i false = Ok (Scalar COMPONENT_BYTES payload) /\ len payload <= usize_max.
Proof.
  unfold scalar_payload. intros (kind&Hk&H)%bind_Ok. destruct (N.eqb_spec kind COMPONENT_BYTES) as [->|]; [|done].
  cbn [negb] in H. apply bind_Ok in H as (start&Hs&H). apply bind_Ok in H as (length&Hl&H).
  change (scalar_range columns start length = Ok payload) in H. split; [|by eapply scalar_range_fits].
  unfold component_at, component_read. rewrite Hk, Hs, Hl. cbn [mbind outcome_bind].
  unfold component_of. cbn [N.eqb Pos.eqb orb]. by rewrite H.
Qed.

(** The parts of an individual are those of the term its node stands for. *)
Lemma anonymous_parts_denotes columns n scope key : resident columns ->
  anonymous_parts columns n = Ok (scope, key) ->
  denotes columns n (individual scope key) /\ len scope = 32 /\ len key <= usize_max.
Proof.
  intros Hres. unfold anonymous_parts, validate_anonymous_individual.
  intros ([]&Hv&H)%bind_Ok. apply bind_Ok in Hv as (tag&Htag&Hv).
  destruct (N.eqb_spec tag TAG_ANONYMOUS_INDIVIDUAL) as [->|]; [|done]. cbn [negb] in Hv.
  apply bind_Ok in H as (start&Hstart&H). rewrite Hstart in Hv. cbn [mbind outcome_bind] in Hv.
  apply bind_Ok in H as (document&Hdoc&H). rewrite Hdoc in Hv. cbn [mbind outcome_bind] in Hv.
  apply bind_Ok in H as (scope'&Hmap&H). apply bind_Ok in H as (key'&Hkey&[= <- <-]).
  rewrite Hkey in Hv. cbn [mbind outcome_bind] in Hv.
  destruct (N.eqb_spec (len document) 32) as [H32|]; [|done]. clear Hv.
  unfold exact_fields in Hstart. apply bind_Ok in Hstart as ([s e]&Hrange&Hstart).
  destruct (N.eqb_spec (e - s) 2) as [Hse|]; [|done]. injection Hstart as ->.
  assert (He : e <= usize_max).
  { pose proof Hrange as Hr. unfold field_range in Hr. apply bind_Ok in Hr as (?&_&Hr).
    apply bind_Ok in Hr as (?&_&Hr). apply bind_Ok in Hr as (?&_&Hr).
    destruct (_ && _) eqn:Eb; [|done]. injection Hr as <- <-. apply andb_true_iff in Eb as [_ Eb%N.leb_le].
    pose proof (resident_field_kinds _ Hres). unfold sized, field_count in *. lia. }
  rewrite wrapping_add_small in Hkey by lia. apply scalar_payload_component in Hdoc as [Hdoc _], Hkey as [Hkey Hlk].
  split; [|split; [by rewrite (remap_length _ _ _ Hmap)|done]].
  exists 1%nat. cbn [term_of]. unfold constructor_term. rewrite Htag, Hrange. cbn [mbind outcome_bind].
  replace e with (start + 2) by lia. rewrite (range_cons start), (range_cons (start + 1)), range_empty by lia.
  cbn [mapO]. unfold field_term.
  replace (start + 1 =? start) with false by (symmetry; apply N.eqb_neq; lia).
  rewrite !N.eqb_refl, Hdoc, Hkey. cbn [mbind outcome_bind andb rescoped component_term leaf_term].
  by rewrite Hmap.
Qed.

(** ** The comparison *)

Definition term_cmp (s t : Term) : comparison := bytes_cmp (node_bytes s) (node_bytes t).
Definition node_lt (s t : Term) : Prop := term_cmp s t = Lt.

Section positions.
Context (self : CanonicalKWayRootMerger).
Context (built : forall i table, get self.(tables) i = Some table -> table_ok table).

(** What a coordinate stands for. *)
Definition stands (c : CompositeNodeCoordinate) (t : Term) : Prop :=
  exists table scope key, get self.(tables) c.(node_table) = Some table /\
    anonymous_parts table.(table_columns) c.(composite_node_id) = Ok (scope, key) /\
    t = individual scope key.

Lemma stands_inj c t t' : stands c t -> stands c t' -> t = t'.
Proof using Type. intros (?&?&?&Ht&Hp&->) (?&?&?&Ht'&Hp'&->). congruence. Qed.

Lemma stands_eq c d s t : stands c s -> stands d t -> term_cmp s t = Eq -> s = t.
Proof using Type. intros (?&?&?&_&_&->) (?&?&?&_&_&->) H%(cmp_eq bytes_cmp). by apply individual_inj. Qed.

Lemma stands_denotes c t : stands c t -> exists table,
  get self.(tables) c.(node_table) = Some table /\ denotes table.(table_columns) c.(composite_node_id) t.
Proof using built.
  intros (table&s&k&Ht&Hp&->). exists table. split; [done|].
  by apply anonymous_parts_denotes in Hp as [Hd _]; [|by eapply table_resident, built].
Qed.

Lemma compare_effective_settles n left right :
  settles n (fun o => exists s t, stands left s /\ stands right t /\ o = term_cmp s t)
    (compare_effective_anonymous_nodes self left right).
Proof using built.
  unfold compare_effective_anonymous_nodes. apply settles_consume.
  apply settles_read; [solve_safe|]. intros lt Hlt%ok_or_Ok. apply settles_read; [solve_safe|]. intros rt Hrt%ok_or_Ok.
  apply settles_read; [apply anonymous_parts_safe|]. intros [ls lk] Hl.
  apply settles_read; [apply anonymous_parts_safe|]. intros [rs rk] Hr.
  apply settles_read; [solve_safe|]. intros amount _. apply settles_consume.
  destruct (anonymous_parts_denotes _ _ _ _ (table_resident _ (built _ _ Hlt)) Hl) as (_&Hls&Hlk).
  destruct (anonymous_parts_denotes _ _ _ _ (table_resident _ (built _ _ Hrt)) Hr) as (_&Hrs&Hrk).
  assert (Hout : forall o, o = term_cmp (individual ls lk) (individual rs rk) ->
    exists s t, stands left s /\ stands right t /\ o = term_cmp s t).
  { intros o ->. exists (individual ls lk), (individual rs rk). split; [by exists lt, ls, lk|].
    split; [by exists rt, rs, rk|done]. }
  unfold term_cmp in Hout. rewrite individual_order in Hout by congruence.
  destruct (bytes_cmp ls rs); [|by apply settles_ret, Hout..].
  rewrite compare_varints by done. apply settles_read; [done|]. intros o [= <-].
  by destruct (bytes_cmp (leb128 (len lk)) (leb128 (len rk))); apply settles_ret, Hout.
Qed.

(** ** The least coordinate without a position *)

Definition least_of (seen : list CompositeNodeCoordinate) (minimum : option CompositeNodeCoordinate) : Prop :=
  match minimum with
  | None => Forall (fun c => unassigned c = false) seen
  | Some m => m ∈ seen /\ unassigned m = true /\
      forall c, c ∈ seen -> unassigned c = true ->
        c = m \/ exists s t, stands m s /\ stands c t /\ ~ node_lt t s
  end.

Lemma least_round_settles n seen minimum c : least_of seen minimum ->
  settles n (least_of (seen ++ [c])) (least_round self minimum c).
Proof using built.
  intros Hl. unfold least_round. destruct (unassigned c) eqn:Ec; cbn [negb].
  - destruct minimum as [m|].
    + destruct Hl as (Hm&Hum&Hl). eapply settles_bind; [apply compare_effective_settles|].
      intros o (tc&tm&Hc&Hm'&->). apply settles_ret. destruct (term_cmp tc tm) eqn:E.
      2: { split; [apply elem_of_app; right; by left|]. split; [done|].
        intros d [Hd| ->%list_elem_of_singleton]%elem_of_app Hu; [right|by left].
        exists tc. destruct (Hl d Hd Hu) as [->|(s&t&Hs&Ht&Hn)].
        - exists tm. split; [done|]. split; [done|]. unfold node_lt, term_cmp in *.
          intros H. by apply (cmp_lt_asym bytes_cmp) in H.
        - rewrite (stands_inj _ _ _ Hs Hm') in Hn. exists t. split; [done|]. split; [done|].
          intros Hlt. apply Hn. by eapply (cmp_lt_trans bytes_cmp). }
      all: split; [apply elem_of_app; by left|]; split; [done|].
      all: intros d [Hd| ->%list_elem_of_singleton]%elem_of_app Hu; [by apply Hl|right].
      all: exists tm, tc; unfold node_lt; by rewrite E.
    + apply settles_ret. split; [apply elem_of_app; right; by left|]. split; [done|].
      intros d [Hd| ->%list_elem_of_singleton]%elem_of_app Hu; [|by left].
      cbn in Hl. rewrite Forall_forall in Hl. by rewrite Hl in Hu.
  - apply settles_ret. destruct minimum as [m|]; cbn [least_of] in *.
    + destruct Hl as (Hm&Hum&Hl). split; [apply elem_of_app; by left|]. split; [done|].
      intros d [Hd| ->%list_elem_of_singleton]%elem_of_app Hu; [by apply Hl|congruence].
    + apply Forall_app. split; [done|]. by apply Forall_singleton.
Qed.

Lemma least_settles n coordinates :
  settles n (least_of coordinates) (foldM (least_round self) None coordinates).
Proof using built.
  apply (settles_foldM_ind n least_of); [by apply Forall_nil|]. intros d x rest m _. apply least_round_settles.
Qed.

(** ** A position is given *)

Definition same (c c' : CompositeNodeCoordinate) : Prop :=
  c'.(node_table) = c.(node_table) /\ c'.(composite_node_id) = c.(composite_node_id).

Lemma stands_same c c' t : same c c' -> stands c t -> stands c' t.
Proof using Type. intros [Ht Hn] (?&?&?&?&?&?). unfold stands. rewrite Ht, Hn. eauto 10. Qed.

(** What a round leaves of a coordinate. *)
Definition numbered (m : CompositeNodeCoordinate) (p : usize) (c c' : CompositeNodeCoordinate) : Prop :=
  same c c' /\
  if unassigned c then
    exists s t, stands m s /\ stands c t /\
      c'.(canonical_node_order) = (if term_cmp t s is Eq then p else usize_max)
  else c'.(canonical_node_order) = c.(canonical_node_order).

Lemma assign_round_settles n m p seen out c : Forall2 (numbered m p) seen out ->
  settles n (Forall2 (numbered m p) (seen ++ [c])) (assign_round self m p out c).
Proof using built.
  intros Hs. unfold assign_round. destruct (unassigned c) eqn:Ec; cbn [negb].
  - eapply settles_bind; [apply compare_effective_settles|]. intros o (t&s&Hc&Hm&->). apply settles_ret.
    apply Forall2_app; [done|]. apply Forall2_cons. split; [|done]. unfold numbered. rewrite Ec.
    split; [by destruct (term_cmp t s)|]. exists s, t. split; [done|]. split; [done|].
    apply N.eqb_eq in Ec. by destruct (term_cmp t s).
  - apply settles_ret. apply Forall2_app; [done|]. apply Forall2_cons. split; [|done].
    unfold numbered. rewrite Ec. done.
Qed.

Lemma assign_settles n m p coordinates :
  settles n (Forall2 (numbered m p) coordinates) (foldM (assign_round self m p) [] coordinates).
Proof using built.
  apply (settles_foldM_ind n (fun seen => Forall2 (numbered m p) seen)); [done|].
  intros d x rest out _. apply assign_round_settles.
Qed.

(** ** All rounds *)

(** The terms with a position, in order: a coordinate with a position has that of
    its term, and the terms of the others come after. *)
Record positioned (coordinates : list CompositeNodeCoordinate) (terms : list Term) : Prop := {
  positioned_sorted : StronglySorted node_lt terms;
  positioned_rank c : c ∈ coordinates -> unassigned c = false ->
    exists t, stands c t /\ get terms c.(canonical_node_order) = Some t;
  positioned_rest c t : c ∈ coordinates -> unassigned c = true -> stands c t ->
    Forall (fun s => node_lt s t) terms;
  positioned_terms t : t ∈ terms -> exists c, c ∈ coordinates /\ stands c t;
}.

Lemma Forall2_elem_l {A B} (R : A -> B -> Prop) l k x : Forall2 R l k -> x ∈ l -> exists y, y ∈ k /\ R x y.
Proof using Type.
  intros Hr [i Hi]%list_elem_of_lookup. destruct (Forall2_lookup_l _ _ _ _ _ Hr Hi) as (y&Hy&HR).
  exists y. split; [by eapply list_elem_of_lookup_2|done].
Qed.

Lemma numbered_term m p c c' s : stands m s -> numbered m p c c' -> unassigned c = true ->
  exists t, stands c' t /\ c'.(canonical_node_order) = (if term_cmp t s is Eq then p else usize_max) /\ stands c t.
Proof using Type.
  intros Hm [Hs Hn] Hu. rewrite Hu in Hn. destruct Hn as (s'&t&Hs'&Ht&E).
  rewrite (stands_inj _ _ _ Hs' Hm) in E. exists t. split; [by eapply stands_same|done].
Qed.

Lemma unassigned_round m p c c' : p < usize_max -> numbered m p c c' ->
  unassigned c' = true -> unassigned c = true.
Proof using Type.
  intros Hp [_ Hn]. unfold unassigned in *. destruct (_ =? usize_max) eqn:E; [done|]. by rewrite Hn, E.
Qed.

Lemma round_positions coordinates coordinates' terms m :
  len terms < usize_max -> positioned coordinates terms -> least_of coordinates (Some m) ->
  Forall2 (numbered m (len terms)) coordinates coordinates' ->
  exists s, stands m s /\ positioned coordinates' (terms ++ [s]).
Proof using Type.
  intros Hp [Hsorted Hrank Hrest Hterms] (Hm&Hum&Hleast) Hn.
  destruct (Forall2_elem_l _ _ _ _ Hn Hm) as (m'&_&[_ Hm']). rewrite Hum in Hm'.
  destruct Hm' as (s&_&Hs&_&_). exists s. split; [done|].
  assert (Hback : forall c', c' ∈ coordinates' -> exists c, c ∈ coordinates /\ numbered m (len terms) c c').
  { intros c' Hc. apply Forall2_flip in Hn. by apply (Forall2_elem_l _ _ _ _ Hn). }
  split.
  - apply StronglySorted_app. split; [|split; [done|by repeat constructor]].
    intros x y Hx ->%list_elem_of_singleton. specialize (Hrest m s Hm Hum Hs). rewrite Forall_forall in Hrest. auto.
  - intros c' (c&Hc&Hcn)%Hback Hu'. destruct (unassigned c) eqn:Eu.
    + destruct (numbered_term _ _ _ _ s Hs Hcn Eu) as (t&Ht&E&Htc). exists t. split; [done|].
      unfold unassigned in Hu'. rewrite E in *. destruct (term_cmp t s) eqn:Ets; [|done..].
      rewrite (stands_eq _ _ _ _ Htc Hs Ets). rewrite get_lookup. unfold len. rewrite Nat2N.id.
      apply list_lookup_middle. done.
    + destruct Hcn as [Hsame Hcn]. rewrite Eu in Hcn. destruct (Hrank c Hc Eu) as (t&Ht&Hg).
      exists t. split; [by eapply stands_same|]. rewrite Hcn, get_lookup. rewrite get_lookup in Hg.
      by apply lookup_app_l_Some.
  - intros c' t (c&Hc&Hcn)%Hback Hu' Ht'. pose proof (unassigned_round _ _ _ _ Hp Hcn Hu') as Hu.
    destruct (numbered_term _ _ _ _ s Hs Hcn Hu) as (t0&Ht0&E&Htc). rewrite <- (stands_inj _ _ _ Ht' Ht0) in *.
    apply Forall_app. split; [by apply (Hrest c)|]. apply Forall_singleton.
    unfold unassigned in Hu'. rewrite E in Hu'. destruct (Hleast c Hc Hu) as [->|(s0&t1&Hs0&Ht1&Hnlt)].
    + rewrite (stands_inj _ _ _ Htc Hs) in *. unfold term_cmp in Hu'. rewrite (cmp_refl bytes_cmp) in Hu'.
      apply N.eqb_eq in Hu'. lia.
    + rewrite (stands_inj _ _ _ Hs0 Hs), (stands_inj _ _ _ Ht1 Htc) in Hnlt. unfold node_lt in *.
      destruct (term_cmp t s) eqn:Ets; [apply N.eqb_eq in Hu'; lia|done|]. by apply (cmp_gt_lt bytes_cmp).
  - assert (Himage : forall c t, c ∈ coordinates -> stands c t -> exists c, c ∈ coordinates' /\ stands c t).
    { intros c t Hc Ht. destruct (Forall2_elem_l _ _ _ _ Hn Hc) as (c'&Hc'&[Hsame _]).
      exists c'. split; [done|]. by eapply stands_same. }
    intros t [(c&Hc&Ht)%Hterms| ->%list_elem_of_singleton]%elem_of_app; [by eapply Himage|by apply (Himage m)].
Qed.

Definition waiting (coordinates : list CompositeNodeCoordinate) : nat :=
  length (filter (fun c => unassigned c = true) coordinates).

(** Every round gives a position to one coordinate or more. *)
Lemma round_waiting coordinates coordinates' p m : p < usize_max ->
  m ∈ coordinates -> unassigned m = true -> Forall2 (numbered m p) coordinates coordinates' ->
  (waiting coordinates' < waiting coordinates)%nat.
Proof using Type.
  intros Hp Hm Hum Hn. unfold waiting.
  assert (Hle : forall l l', Forall2 (numbered m p) l l' ->
    (length (filter (fun c => unassigned c = true) l') <= length (filter (fun c => unassigned c = true) l))%nat).
  { induction 1 as [|c c' l l' Hc _ IH]; [done|]. rewrite !filter_cons.
    destruct (decide (unassigned c' = true)) as [Hu|].
    - rewrite decide_True by (by eapply unassigned_round). cbn. lia.
    - destruct (decide _); cbn; lia. }
  revert Hm. induction Hn as [|c c' l l' Hc Hn IH]; intros Hm; [by apply elem_of_nil in Hm|].
  rewrite !filter_cons. specialize (Hle _ _ Hn). apply elem_of_cons in Hm as [<-|Hm].
  - rewrite (decide_True _ _ Hum), decide_False; [cbn; lia|]. intros Hu'. destruct Hc as [_ Hc].
    rewrite Hum in Hc. destruct Hc as (s&t&Hs&Ht&E). rewrite (stands_inj _ _ _ Ht Hs) in E.
    unfold term_cmp in E. rewrite (cmp_refl bytes_cmp) in E. apply N.eqb_eq in Hu'. lia.
  - specialize (IH Hm). destruct (decide (unassigned c' = true)) as [Hu|].
    + rewrite decide_True by (by eapply unassigned_round). cbn. lia.
    + destruct (decide _); cbn; lia.
Qed.

(** The positions of the coordinates, as ranks. *)
Record ranked (coordinates : list CompositeNodeCoordinate) (terms : list Term)
    (result : usize * list CompositeNodeCoordinate) : Prop := {
  ranked_count : result.1 = len terms;
  ranked_same : Forall2 same coordinates result.2;
  ranked_sorted : StronglySorted node_lt terms;
  ranked_position c : c ∈ result.2 -> exists t, stands c t /\ get terms c.(canonical_node_order) = Some t;
  ranked_terms t : t ∈ terms -> exists c, c ∈ result.2 /\ stands c t;
}.

Lemma assign_loop_settles n rounds coordinates terms : positioned coordinates terms ->
  len terms <= usize_max -> (waiting coordinates <= rounds)%nat ->
  settles n (fun result => exists terms, ranked coordinates terms result)
    (assign_loop rounds self coordinates (len terms)).
Proof using built.
  revert coordinates terms. induction rounds as [|rounds IH]; intros coordinates terms Hpos Hlen Hw; cbn [assign_loop].
  all: eapply settles_bind; [apply least_settles|]; intros [m|] Hm.
  1: { destruct Hm as (Hm&Hum&_). exfalso. unfold waiting in Hw.
    assert (Hin : m ∈ filter (fun c => unassigned c = true) coordinates) by (by apply list_elem_of_filter).
    destruct (filter _ coordinates); [by apply elem_of_nil in Hin|cbn in Hw; lia]. }
  2: { eapply settles_bind; [apply (assign_settles n m (len terms))|]. intros coordinates' Hn.
    apply settles_read; [solve_safe|]. intros next Hnext%ok_or_Ok. apply checked_add_Some in Hnext as [-> Hnext].
    destruct (round_positions coordinates coordinates' terms m ltac:(lia) Hpos Hm Hn) as (s&_&Hpos').
    replace (len terms + 1) with (len (terms ++ [s])) in * by (rewrite len_app; done).
    eapply settles_mono; [done| |apply IH; [exact Hpos'|done|]].
    - intros result [terms' [Hc Hs Hso Hp Ht]]. exists terms'. split; [done| |done..].
      eapply Forall2_trans; [|apply (Forall2_impl _ _ _ _ Hn); by intros ?? [? _]|exact Hs].
      intros x y z [E1 E2] [E3 E4]. split; congruence.
    - destruct Hm as (Hm&Hum&_). rewrite len_app in Hnext. change (len [s]) with 1 in Hnext.
      pose proof (round_waiting coordinates coordinates' (len terms) m ltac:(lia) Hm Hum Hn). lia. }
  all: apply settles_ret; exists terms; destruct Hpos as [Hs Hr _ Ht]; cbn in Hm; rewrite Forall_forall in Hm.
  all: split; [done|by apply Forall_Forall2_diag, Forall_true|done| |done].
  all: intros c Hc; by apply Hr, Hm.
Qed.

Lemma assign_positions_settles n coordinates :
  Forall (fun c => unassigned c = true) coordinates ->
  settles n (fun result => exists terms, ranked coordinates terms result)
    (assign_anonymous_positions self coordinates).
Proof using built.
  intros Hu. apply (assign_loop_settles n _ coordinates []); [|done|unfold waiting; apply length_filter].
  rewrite Forall_forall in Hu. split; [constructor|..].
  - intros c Hc Hf. by rewrite Hu in Hf.
  - intros. by apply Forall_nil.
  - intros t Ht. by apply elem_of_nil in Ht.
Qed.
End positions.

(** C20: The anonymous individuals of all tables of a merge are numbered by rank:
    whatever the cancellation flag does, the assignment neither panics nor runs
    out of rounds, and the position it gives to a coordinate is the index of the
    term its node stands for in the list of the distinct terms, sorted by
    encoding; the count it returns is their number. *)
Theorem anonymous_positions_correct self coordinates budget obs k :
  Forall table_ok self.(tables) -> solvent budget ->
  Forall (fun c => unassigned c = true) coordinates ->
  match fst (assign_anonymous_positions self coordinates budget obs k) with
  | Ok ((count, placed), _) => exists terms,
      count = len terms /\ StronglySorted node_lt terms /\ Forall2 same coordinates placed /\
      Forall (fun c => exists table t, get self.(tables) c.(node_table) = Some table /\
        denotes table.(table_columns) c.(composite_node_id) t /\
        get terms c.(canonical_node_order) = Some t) placed /\
      Forall (fun t => exists c table, c ∈ placed /\ get self.(tables) c.(node_table) = Some table /\
        denotes table.(table_columns) c.(composite_node_id) t) terms
  | Err _ => True
  | Panic | OutOfFuel => False
  end.
Proof.
  intros Hok Hs Hu.
  assert (built : forall i table, get self.(tables) i = Some table -> table_ok table).
  { intros i table Hi%get_elem_of. rewrite Forall_forall in Hok. auto. }
  destruct (assign_positions_settles self built (S (work_left budget)) coordinates Hu) as [Hret Hy].
  specialize (Hret budget obs k Hs ltac:(lia)). specialize (Hy budget obs k).
  destruct (fst _) as [[[count placed] b]|e| |]; try done.
  destruct (Hy _ eq_refl) as (terms&[Hc Hsame Hsorted Hp Ht]). cbn [fst snd] in *.
  exists terms. split; [done|]. split; [done|]. split; [done|]. split; apply Forall_forall.
  - intros c (t&Hst&Hg)%Hp. destruct (stands_denotes self built c t Hst) as (table&?&?). by exists table, t.
  - intros t (c&Hc'&Hst)%Ht. destruct (stands_denotes self built c t Hst) as (table&?&?). by exists c, table.
Qed.

(** ** An assignment *)

(** Two more individuals, one with a longer key. *)
Definition individuals_sample : DirectColumns := Samples.encode
  [ (ROOT_AXIOM, 5) ]
  [ iri_node "http://e/C"; entity_node "class" 1; anonymous_node 7 "z"; anonymous_node 7 "yy";
    (TAG_CLASS_ASSERTION, [node 2; node 3; set_of []]) ].

Definition sample_merger := let _ := sample_layout in
  fst (kway_new (N.to_nat 20001) [sample; peer_sample; individuals_sample] merge_limits quiet 0%nat).

Definition at_node (table node : usize) : CompositeNodeCoordinate :=
  {| node_table := table; composite_node_id := node; canonical_node_order := usize_max |}.
Definition sample_coordinates : list CompositeNodeCoordinate :=
  [at_node 2 4; at_node 0 9; at_node 1 3; at_node 2 3].

Example sample_positions :
  match sample_merger with
  | Ok (self, budget) =>
      match fst (assign_anonymous_positions self sample_coordinates budget quiet 0%nat) with
      | Ok ((count, placed), _) => (count, canonical_node_order <$> placed) = (3, [2; 0; 0; 1])
      | _ => False
      end
  | _ => False
  end.
Proof. by vm_compute. Qed.

Lemma sample_merger_ready :
  match sample_merger with
  | Ok (self, budget) => Forall table_ok self.(tables) /\ solvent budget
  | _ => False
  end.
Proof.
  assert (Hm : match sample_merger with Ok _ => True | _ => False end) by (by vm_compute).
  assert (Hres : Forall resident [sample; peer_sample; individuals_sample]).
  { repeat (apply Forall_cons; split; [apply resident_of_small; by vm_compute|]). by apply Forall_nil. }
  pose proof (@kway_new_returns sample_layout (N.to_nat 20001) _ merge_limits quiet 0%nat Hres) as Hr.
  pose proof (@kway_new_spec sample_layout (N.to_nat 20001) _ merge_limits Hres quiet 0%nat) as Hs.
  unfold sample_merger in *. cbv zeta in *.
  destruct (fst (kway_new _ _ _ _ _)) as [[self budget]|e| |]; [|done..].
  split; [|apply Hr; cbn [max_work merge_limits]; lia].
  apply Forall_forall. intros table [t Ht]%elem_of_get. apply get_total_Some in Ht as [Hlt ->].
  by apply (started_built _ _ (Hs _ eq_refl)).
Qed.

Lemma anonymous_positions_correct_witness :
  match sample_merger with
  | Ok (self, budget) =>
      match fst (assign_anonymous_positions self sample_coordinates budget quiet 0%nat) with
      | Ok ((count, placed), _) =>
          (count, canonical_node_order <$> placed) = (3, [2; 0; 0; 1]) /\
          exists terms, count = len terms /\ StronglySorted node_lt terms /\
            Forall2 same sample_coordinates placed /\
            Forall (fun c => exists table t, get self.(tables) c.(node_table) = Some table /\
              denotes table.(table_columns) c.(composite_node_id) t /\
              get terms c.(canonical_node_order) = Some t) placed /\
            Forall (fun t => exists c table, c ∈ placed /\ get self.(tables) c.(node_table) = Some table /\
              denotes table.(table_columns) c.(composite_node_id) t) terms
      | _ => False
      end
  | _ => False
  end.
Proof.
  pose proof sample_positions as Hv. pose proof sample_merger_ready as Hr.
  destruct sample_merger as [[self budget]|e| |]; [|done..]. destruct Hr as [Hok Hs].
  pose proof (anonymous_positions_correct self sample_coordinates budget quiet 0%nat Hok Hs
    ltac:(repeat constructor)) as Ha.
  destruct (fst (assign_anonymous_positions _ _ _ _ _)) as [[[count placed] b]|e| |]; [|done..]. by split.
Defined.
