(* ===== verification/Joining.v ===== *)
(** * What the join of the groups keeps

    Over canonical groups, the loop of the composite keeps a root of the tail
    exactly when its group has no root of the first table, at the first table
    that has it, with its place among the first table's roots and among all. *)

From stdpp Require Import sorting.
From S2P Require Import Prelude Errors Partial Lists Tags Text Readers Columns Nodes Generic Sort Stats Rules.
From S2P Require Import Structure Reach Validated Workspace Planning Overlay Preparation Budget Encode Merge Terms.
From S2P Require Import Lengths Ordering Groups Kway Join.
Local Open Scope string_scope.
Local Open Scope list_scope.
Local Open Scope N_scope.

(** ** The specification *)

(** A root kept of the tail: its table, its root, the scan position of the first
    table it is inserted at, and its place among all groups. *)
Record tail_entry := {
  entry_table : usize;
  entry_root : usize;
  entry_node : usize;
  entry_scan : usize;
  entry_order : usize;
}.

Definition entry_of (plan : DynamicTailRootPlan) : tail_entry :=
  {| entry_table := plan.(tail_table); entry_root := plan.(tail_root_index);
     entry_node := plan.(tail_node_id); entry_scan := plan.(tail_insertion_scan_index);
     entry_order := plan.(tail_canonical_index) |}.

(** The first of the tables that has a root. *)
Fixpoint first_in (group : root_group) (tables : list usize) : option (usize * CanonicalRootRef) :=
  match tables with
  | [] => None
  | t :: tables =>
      match group.[t] with Some root => Some (t, root) | None => first_in group tables end
  end.

(** The entries of groups that start at a scan position and a place. *)
Fixpoint tail_entries (members scan order : usize) (groups : list root_group) : list tail_entry :=
  match groups with
  | [] => []
  | group :: groups =>
      match group.[0] with
      | Some root => tail_entries members (root.(root_index) + 1) (order + 1) groups
      | None =>
          match first_in group (range 1 members) with
          | Some (t, root) =>
              [{| entry_table := t; entry_root := root.(root_index); entry_node := root.(root_node_id);
                  entry_scan := scan; entry_order := order |}]
          | None => []
          end ++ tail_entries members scan (order + 1) groups
      end
  end.

(** ** The root of a table *)

Lemma increment_Ok counter message value : increment counter message = Ok value -> value = counter + 1.
Proof. unfold increment. by intros [-> _]%ok_or_Ok%checked_add_Some. Qed.

Section join.
Context (columns : list DirectColumns) (paired : bool) (options : DirectCompileOptions).
Context (closure_rule_plans root_rule_plans : list SelectedRootRulePlan).
Context (node_offsets tail_offsets : list usize).

(** A plan that no later group changes. *)
Definition frozen (s : Join) (p : usize) (plan : DynamicTailRootPlan) : Prop :=
  get s.(tail_root_plans) p = Some plan /\
  p < tail_offsets.[plan.(tail_table)] + s.(consumed).[plan.(tail_table)].

Definition taken (group : root_group) (t : usize) : N := match group.[t] with Some _ => 1 | None => 0 end.

Definition counters (s : Join) := (s.(merged_canonical_index), s.(next_base_scan_index), s.(selected_base_roots)).

Lemma get_stored {A} (l k : list A) i v j : store l i v = Ok k ->
  get k j = if j =? i then Some v else get l j.
Proof using Type.
  unfold store. destruct (N.ltb_spec i (len l)) as [Hi|]; [|done]. intros [= <-]. rewrite !get_lookup.
  destruct (N.eqb_spec j i) as [->|Hne].
  - apply list_lookup_insert_eq. unfold len in Hi. lia.
  - apply list_lookup_insert_ne. lia.
Qed.

Lemma store_len {A} (l k : list A) i v : store l i v = Ok k -> len k = len l.
Proof using Type. unfold store. destruct (_ <? _); [|done]. intros [= <-]. unfold len. by rewrite length_insert. Qed.

(** One table: the plan at the table's next place is decided. *)
Record tail_step (group : root_group) (t : usize) (kept : bool) (s s' : Join) (kept' : bool) : Prop := {
  step_length : len s'.(tail_root_plans) = len s.(tail_root_plans);
  step_counters : counters s' = counters s;
  step_consumed u : s'.(consumed).[u] = s.(consumed).[u] + (if u =? t then taken group t else 0);
  step_frozen p plan : frozen s p plan -> frozen s' p plan;
  step_unique : s'.(unique_tail_roots) = s.(unique_tail_roots) + (if kept then 0 else taken group t);
  step_kept : kept' = kept || negb (taken group t =? 0);
  step_entry root : kept = false -> group.[t] = Some root -> exists p plan, frozen s' p plan /\
    entry_of plan = {| entry_table := t; entry_root := root.(root_index); entry_node := root.(root_node_id);
      entry_scan := s.(next_base_scan_index); entry_order := s.(merged_canonical_index) |};
}.

Lemma join_tail_step group rule s kept t s' kept' : join_tail tail_offsets group rule (s, kept) t = Ok (s', kept') ->
  tail_step group t kept s s' kept'.
Proof using Type.
  unfold join_tail. intros (r&[Ht Hr]%index_total&H)%bind_Ok. destruct r as [root|]; cycle 1.
  { injection H as <- <-. split; unfold taken; rewrite <- ?Hr; cbn.
    - done.
    - done.
    - intros u. destruct (_ =? _); by rewrite N.add_0_r.
    - done.
    - destruct kept; by rewrite N.add_0_r.
    - by rewrite orb_false_r.
    - done. }
  apply bind_Ok in H as (offset&[_ ->]%index_total&H).
  apply bind_Ok in H as (count&[_ Hc]%index_total&H). apply bind_Ok in H as (p&[-> _]%ok_or_Ok%checked_add_Some&H).
  apply bind_Ok in H as (plan&Hplan%ok_or_Ok&H). destruct (_ || _) eqn:Hsame; [done|].
  rewrite !orb_false_iff, !negb_false_iff, !N.eqb_eq in Hsame. destruct Hsame as [[[Htab Hidx] Hnode] _].
  apply bind_Ok in H as (s1&H1&H). apply bind_Ok in H as (count'&->%increment_Ok&H).
  apply bind_Ok in H as (counts&(_&_&Hset&Hother)%store_total&[= <- <-]).
  assert (Hupd : exists plan', get s1.(tail_root_plans) (tail_offsets.[t] + count) = Some plan' /\
    (forall q, q <> tail_offsets.[t] + count -> get s1.(tail_root_plans) q = get s.(tail_root_plans) q) /\
    len s1.(tail_root_plans) = len s.(tail_root_plans) /\ plan'.(tail_table) = t /\ counters s1 = counters s /\ s1.(consumed) = s.(consumed) /\
    s1.(unique_tail_roots) = s.(unique_tail_roots) + (if kept then 0 else 1) /\
    (kept = false -> entry_of plan' = {| entry_table := t; entry_root := root.(root_index);
      entry_node := root.(root_node_id); entry_scan := s.(next_base_scan_index);
      entry_order := s.(merged_canonical_index) |})).
  { destruct kept.
    - apply bind_Ok in H1 as (d&_&H1). apply bind_Ok in H1 as (plans&Hst&[= <-]).
      eexists. split; [cbn; rewrite (get_stored _ _ _ _ _ Hst), N.eqb_refl; done|].
      split; [|split; [by apply store_len in Hst|split; [exact Htab|split; [done|split; [done|split; [cbn; lia|done]]]]]].
      intros q Hq. cbn. rewrite (get_stored _ _ _ _ _ Hst). by destruct (N.eqb_spec q (tail_offsets.[t] + count)).
    - apply bind_Ok in H1 as (plans&Hst&H1). apply bind_Ok in H1 as (d&->%increment_Ok&[= <-]).
      eexists. split; [cbn; rewrite (get_stored _ _ _ _ _ Hst), N.eqb_refl; done|].
      split; [|split; [by apply store_len in Hst|split; [exact Htab|split; [done|split; [done|split; [done|]]]]]].
      + intros q Hq. cbn. rewrite (get_stored _ _ _ _ _ Hst). by destruct (N.eqb_spec q (tail_offsets.[t] + count)).
      + intros _. unfold entry_of. cbn. by rewrite Htab, Hidx, Hnode. }
  destruct Hupd as (plan'&Hget&Hrest&Hlen&Htab'&Hcnt&Hcons&Huniq&Hentry).
  assert (Hcount : forall u, counts.[u] = s.(consumed).[u] + (if u =? t then 1 else 0)).
  { intros u. destruct (N.eqb_spec u t) as [->|Hu]; [by rewrite Hset, Hc|by rewrite Hother, Hcons, N.add_0_r]. }
  split; unfold taken; rewrite <- ?Hr; cbn.
  - exact Hlen.
  - exact Hcnt.
  - exact Hcount.
  - intros q old [Hq Hlt]. unfold frozen in *. cbn in *. rewrite Hcount. split.
    + rewrite Hrest; [done|]. intros ->. rewrite Hq in Hplan. injection Hplan as ->. rewrite Htab, <- Hc in Hlt. lia.
    + destruct (_ =? _); lia.
  - exact Huniq.
  - by rewrite orb_true_r.
  - intros root' Hk [= <-]. exists (tail_offsets.[t] + count), plan'. split; [|by apply Hentry].
    split; [done|]. cbn. rewrite Htab', Hset. lia.
Qed.

(** All the tables after the first. *)
Record tail_effect (group : root_group) (tables : list usize) (kept : bool) (s s' : Join) : Prop := {
  effect_length : len s'.(tail_root_plans) = len s.(tail_root_plans);
  effect_counters : counters s' = counters s;
  effect_consumed u : s'.(consumed).[u] = s.(consumed).[u] + (if bool_decide (u ∈ tables) then taken group u else 0);
  effect_frozen p plan : frozen s p plan -> frozen s' p plan;
  effect_unique : s'.(unique_tail_roots) = s.(unique_tail_roots) +
    (if kept then 0 else match first_in group tables with Some _ => 1 | None => 0 end);
  effect_entry t root : kept = false -> first_in group tables = Some (t, root) -> exists p plan, frozen s' p plan /\
    entry_of plan = {| entry_table := t; entry_root := root.(root_index); entry_node := root.(root_node_id);
      entry_scan := s.(next_base_scan_index); entry_order := s.(merged_canonical_index) |};
}.

Lemma join_tails group rule tables s kept s' kept' : NoDup tables ->
  foldM (join_tail tail_offsets group rule) (s, kept) tables = Ok (s', kept') -> tail_effect group tables kept s s'.
Proof using Type.
  revert s kept. induction tables as [|t tables IH]; intros s kept Hnd; cbn [foldM first_in].
  { intros [= <- <-]. split; [done|done| |done| |done].
    - intros u. by rewrite bool_decide_eq_false_2, N.add_0_r by apply not_elem_of_nil.
    - destruct kept; by rewrite N.add_0_r. }
  apply NoDup_cons in Hnd as [Hfresh Hnd]. intros ([s1 kept1]&H1&H)%bind_Ok.
  apply join_tail_step in H1 as [Hl1 Hc1 Hn1 Hf1 Hu1 Hk1 He1]. apply IH in H as [Hl Hc Hn Hf Hu He]; [|done].
  assert (Hscan : s1.(next_base_scan_index) = s.(next_base_scan_index)) by (unfold counters in Hc1; congruence).
  assert (Hmerged : s1.(merged_canonical_index) = s.(merged_canonical_index)) by (unfold counters in Hc1; congruence).
  split.
  - congruence.
  - congruence.
  - intros u. rewrite Hn, Hn1. destruct (N.eqb_spec u t) as [->|Hne].
    + rewrite (bool_decide_eq_false_2 (t ∈ tables)) by done.
      rewrite (bool_decide_eq_true_2 (t ∈ t :: tables)) by (by left). lia.
    + rewrite N.add_0_r. f_equal. rewrite (bool_decide_ext (u ∈ t :: tables) (u ∈ tables)); [done|].
      rewrite elem_of_cons. naive_solver.
  - auto.
  - rewrite Hu, Hu1, Hk1. unfold taken. destruct kept; cbn; [lia|]. destruct group.[t]; cbn; [lia|]. destruct (first_in _ _); lia.
  - intros u root -> Hfirst. cbn in Hfirst. destruct group.[t] as [r|] eqn:Hr.
    + injection Hfirst as <- <-. destruct (He1 r eq_refl eq_refl) as (p&plan&Hp&E). exists p, plan. auto.
    + rewrite <- Hscan, <- Hmerged. apply He; [by rewrite Hk1; unfold taken; rewrite Hr|done].
Qed.

(** ** A group *)

Definition base_scan_after (scan : usize) (group : root_group) : usize :=
  match group.[0] with Some root => root.(root_index) + 1 | None => scan end.

Abbreviation members := (len columns).

(** What a group adds to the loop's state. *)
Record joined_step (group : root_group) (s s' : Join) : Prop := {
  joined_closure : group.[0] <> None \/ first_in group (range 1 members) <> None;
  joined_length : len s'.(tail_root_plans) = len s.(tail_root_plans);
  joined_merged : s'.(merged_canonical_index) = s.(merged_canonical_index) + 1;
  joined_scan : s'.(next_base_scan_index) = base_scan_after s.(next_base_scan_index) group;
  joined_base : s'.(selected_base_roots) = s.(selected_base_roots) + taken group 0;
  joined_consumed u : u < members -> s'.(consumed).[u] = s.(consumed).[u] + taken group u;
  joined_frozen p plan : frozen s p plan -> frozen s' p plan;
  joined_unique : s'.(unique_tail_roots) = s.(unique_tail_roots) +
    len (tail_entries members s.(next_base_scan_index) s.(merged_canonical_index) [group]);
  joined_entries e : e ∈ tail_entries members s.(next_base_scan_index) s.(merged_canonical_index) [group] ->
    exists p plan, frozen s' p plan /\ entry_of plan = e;
}.

(** What the roles, the provenance, the marks and the annotations leave alone. *)
Definition core (s : Join) := (s.(tail_root_plans), s.(consumed), s.(unique_tail_roots), counters s).

Lemma join_role_core rule planned s : ensures (fun s' => core s' = core s) (join_role rule planned s).
Proof using Type. intros s' H. unfold join_role in H. repeat case_match; inv_ok; done. Qed.

Lemma join_provenance_core group representative rule st table :
  ensures (fun st' => core st'.1 = core st.1) (join_provenance columns root_rule_plans group representative rule st table).
Proof using Type.
  destruct st as [s b]. intros st' H. unfold join_provenance in H. apply bind_Ok in H as (root&_&H).
  destruct root as [root|]; [|by injection H as <-]. apply bind_Ok in H as (closure&_&H).
  destruct closure as [closure|]; [|done]. inv_ok. done.
Qed.

Lemma join_reachable_core table root rule s :
  post (fun s' => core s' = core s) (join_reachable columns node_offsets table root rule s).
Proof using Type.
  unfold join_reachable. do 4 skip_step. destruct (bool_decide _); [skip_step|]; by apply post_ret.
Qed.

Lemma join_annotation_core table representative rule selected s :
  ensures (fun s' => core s' = core s) (join_annotation paired options table representative rule selected s).
Proof using Type.
  intros s' H. unfold join_annotation in H. destruct (negb _); [by injection H as <-|]. apply bind_Ok in H as (n&_&H).
  destruct (_ && _); [done|]. destruct selected; by injection H as <-.
Qed.

(** ** The representative *)

Lemma first_in_None group tables : first_in group tables = None -> forall t, t ∈ tables -> group.[t] = None.
Proof using Type.
  induction tables as [|t tables IH]; cbn; [by intros _ t ?%elem_of_nil|].
  destruct group.[t] eqn:Hr; [done|]. by intros H u [->|Hu]%elem_of_cons; [|apply IH].
Qed.

Lemma representative_table_found group table : representative_table columns group = Ok (Some table) ->
  table < members /\ group.[table] <> None.
Proof using Type.
  unfold representative_table, member_count. intros (found&H&Hf)%bind_Ok.
  destruct found as [|t]; [done|]. injection Hf as ->.
  assert (Hin : forall t, t ∈ range 0 members -> t < members) by (by intros t [_ ?]%elem_of_range).
  revert H Hin. generalize (range 0 members). induction l as [|t l IH]; cbn [fold_until]; [done|].
  intros (c&(root&[_ ->]%index_total&Hc)%bind_Ok&H)%bind_Ok Hin. destruct group.[t] eqn:Hr; injection Hc as <-.
  - injection H as <-. split; [apply Hin; by left|congruence].
  - apply IH; [done|]. intros u Hu. apply Hin. by right.
Qed.

(** ** The base *)

Record based (group : root_group) (s s' : Join) : Prop := {
  based_plans : s'.(tail_root_plans) = s.(tail_root_plans);
  based_unique : s'.(unique_tail_roots) = s.(unique_tail_roots);
  based_merged : s'.(merged_canonical_index) = s.(merged_canonical_index);
  based_scan : s'.(next_base_scan_index) = base_scan_after s.(next_base_scan_index) group;
  based_roots : s'.(selected_base_roots) = s.(selected_base_roots) + taken group 0;
  based_consumed u : s'.(consumed).[u] = s.(consumed).[u] + (if u =? 0 then taken group 0 else 0);
}.

Lemma join_base_step group s : ensures (based group s) (join_base group s).
Proof using Type.
  intros s' H. unfold join_base in H. apply bind_Ok in H as (base&[_ Hb]%index_total&H).
  assert (Htaken : taken group 0 = match base with Some _ => 1 | None => 0 end) by (by unfold taken; rewrite <- Hb).
  assert (Hafter : base_scan_after s.(next_base_scan_index) group =
    match base with Some root => root.(root_index) + 1 | None => s.(next_base_scan_index) end)
    by (by unfold base_scan_after; rewrite <- Hb).
  destruct base as [root|]; cycle 1.
  { injection H as <-. split; rewrite ?Htaken, ?Hafter; try done; [by rewrite N.add_0_r|].
    intros u. destruct (_ =? _); by rewrite N.add_0_r. }
  apply bind_Ok in H as (n&->%increment_Ok&H). apply bind_Ok in H as (scan&[-> _]%ok_or_Ok%checked_add_Some&H).
  apply bind_Ok in H as (count&[_ Hc]%index_total&H). apply bind_Ok in H as (count'&->%increment_Ok&H).
  apply bind_Ok in H as (counts&(_&_&Hset&Hother)%store_total&[= <-]).
  split; rewrite ?Htaken, ?Hafter; cbn; try done. intros u.
  destruct (N.eqb_spec u 0) as [->|Hu]; [by rewrite Hset, Hc|by rewrite Hother, N.add_0_r].
Qed.

Lemma based_frozen group s s' p plan : based group s s' -> frozen s p plan -> frozen s' p plan.
Proof using Type.
  intros H [Hg Hp]. split; [by rewrite (based_plans _ _ _ H)|]. rewrite (based_consumed _ _ _ H). lia.
Qed.

(** ** The group *)

Lemma joined_of_effects group s1 s2 s3 table : table < members -> group.[table] <> None ->
  based group s1 s2 ->
  tail_effect group (range 1 members) (match group.[0] with Some _ => true | None => false end) s2 s3 ->
  joined_step group s1 (s3 <| merged_canonical_index := s3.(merged_canonical_index) + 1 |>).
Proof using Type.
  intros Htab Hroot Hb He. pose proof Hb as [Hp Hu Hm Hs Hr Hc]. destruct He as [Hlen Hcnt Hcons Hfr Huniq Hent].
  unfold counters in Hcnt. injection Hcnt as Hm3 Hs3 Hr3.
  assert (Hentries : tail_entries members s1.(next_base_scan_index) s1.(merged_canonical_index) [group] =
    match group.[0], first_in group (range 1 members) with
    | None, Some (t, root) =>
        [{| entry_table := t; entry_root := root.(root_index); entry_node := root.(root_node_id);
            entry_scan := s2.(next_base_scan_index); entry_order := s2.(merged_canonical_index) |}]
    | _, _ => []
    end).
  { cbn [tail_entries]. rewrite Hs, Hm. unfold base_scan_after. destruct group.[0]; [done|].
    by destruct (first_in _ _) as [[t root]|]. }
  split; cbn -[tail_entries]; rewrite ?Hm3, ?Hs3, ?Hr3; try congruence.
  - destruct (N.eq_dec table 0) as [->|Ht]; [by left|right]. intros Hno.
    by apply Hroot, (first_in_None _ _ Hno), elem_of_range; lia.
  - intros u Hlt. rewrite Hcons, Hc. destruct (N.eqb_spec u 0) as [->|Hu0].
    + rewrite bool_decide_eq_false_2; [lia|]. rewrite elem_of_range. lia.
    + rewrite bool_decide_eq_true_2; [lia|]. apply elem_of_range. lia.
  - intros p plan Hfp. apply Hfr. by eapply based_frozen.
  - rewrite Huniq, Hu, Hentries. destruct group.[0]; [done|]. by destruct (first_in _ _) as [[t root]|].
  - rewrite Hentries. intros e Hin. destruct group.[0] eqn:H0; [by apply elem_of_nil in Hin|].
    destruct (first_in _ _) as [[t root]|] eqn:Hfirst; [|by apply elem_of_nil in Hin].
    apply list_elem_of_singleton in Hin as ->. by apply Hent.
Qed.

Lemma joined_core group s1 s2 s3 : core s2 = core s1 -> joined_step group s2 s3 -> joined_step group s1 s3.
Proof using Type.
  intros Hcore [H1 Hl H2 H3 H4 H5 H6 H7 H8]. unfold core, counters in Hcore. injection Hcore as Ep Ec Eu Em Es Eb.
  rewrite ?Ep, ?Ec, ?Eu, ?Em, ?Es, ?Eb in *. split; try done. intros p plan Hf. apply H6.
  unfold frozen in *. by rewrite Ep, Ec.
Qed.

Lemma join_group_step s group :
  post (joined_step group s) (join_group columns paired options closure_rule_plans root_rule_plans
    node_offsets tail_offsets s group).
Proof using Type.
  unfold join_group. eapply post_bind; [apply post_lift, ensures_self|]. intros [table|] Hfound; cycle 1.
  { apply post_lift. unfold absent_from_closure. intros s' H. inv_ok; by destruct (x : bool). }
  apply representative_table_found in Hfound as [Htab Hroot].
  skip_step. skip_step. skip_step. skip_step.
  eapply post_bind; [apply post_lift, join_role_core|]. intros s1 H1.
  eapply (post_bind (fun st => core st.1 = core s1)).
  { apply post_lift. destruct paired; [|by apply ensures_Ok]. intros st Hst.
    apply (foldM_ind _ (fun _ st => core st.1 = core s1) _ _ _ Hst); [done|].
    intros d x st1 st2 Hs Hst1. by rewrite (join_provenance_core _ _ _ _ _ _ Hs). }
  intros [s2 selected] H2. cbn [fst] in H2.
  eapply post_bind; [apply join_reachable_core|]. intros s3 H3.
  eapply post_bind; [apply post_lift, join_annotation_core|]. intros s4 H4.
  eapply post_bind; [apply post_lift, ensures_self|]. intros base [_ ->]%index_total.
  eapply post_bind; [apply post_lift, join_base_step|]. intros s5 Hbase.
  eapply post_bind; [apply post_lift, ensures_self|]. intros [s6 kept] Htails.
  apply join_tails in Htails; [|apply NoDup_range].
  eapply post_bind; [apply post_lift, ensures_self|]. intros merged [-> _]%ok_or_Ok%checked_add_Some.
  apply post_ret. apply (joined_core _ _ s4); [congruence|]. by eapply joined_of_effects.
Qed.

(** ** The groups *)

Inductive joins : Join -> list root_group -> Join -> Prop :=
  | joins_nil s : joins s [] s
  | joins_cons s group s1 groups s2 : joined_step group s s1 -> joins s1 groups s2 -> joins s (group :: groups) s2.

Lemma tail_entries_app scan order groups groups' :
  tail_entries members scan order (groups ++ groups') =
  tail_entries members scan order groups ++
  tail_entries members (foldl base_scan_after scan groups) (order + len groups) groups'.
Proof using Type.
  revert scan order. induction groups as [|group groups IH]; intros scan order; [by rewrite len_nil, N.add_0_r|].
  cbn [tail_entries app foldl]. rewrite len_cons, N.add_assoc.
  assert (Hscan : base_scan_after scan group = match group.[0] with Some root => root.(root_index) + 1 | None => scan end)
    by done.
  destruct group.[0]; rewrite Hscan, IH, ?app_assoc; done.
Qed.

(** What the groups add to the state. *)
Record joined_all (groups : list root_group) (s s' : Join) : Prop := {
  all_closure : Forall (fun group => group.[0] <> None \/ first_in group (range 1 members) <> None) groups;
  all_length : len s'.(tail_root_plans) = len s.(tail_root_plans);
  all_base : s'.(selected_base_roots) = s.(selected_base_roots) + len (roots_in 0 groups);
  all_consumed u : u < members -> s'.(consumed).[u] = s.(consumed).[u] + len (roots_in u groups);
  all_frozen p plan : frozen s p plan -> frozen s' p plan;
  all_unique : s'.(unique_tail_roots) = s.(unique_tail_roots) +
    len (tail_entries members s.(next_base_scan_index) s.(merged_canonical_index) groups);
  all_entries e : e ∈ tail_entries members s.(next_base_scan_index) s.(merged_canonical_index) groups ->
    exists p plan, frozen s' p plan /\ entry_of plan = e;
}.

Lemma roots_in_cons t group groups : len (roots_in t (group :: groups)) = taken group t + len (roots_in t groups).
Proof using Type. unfold roots_in, taken. cbn. destruct group.[t]; [by rewrite len_cons|lia]. Qed.

Lemma joins_all groups s s' : joins s groups s' -> joined_all groups s s'.
Proof using Type.
  induction 1 as [s|s group s1 groups s2 Hstep _ [IH1 IHl IH2 IH3 IH4 IH5 IH6]].
  { split; cbn; rewrite ?N.add_0_r; try done; [|by intros e ?%elem_of_nil].
    intros u _. by rewrite N.add_0_r. }
  destruct Hstep as [Hc Hl Hm Hs Hb Hn Hf Hu He].
  assert (Hsplit : tail_entries members s.(next_base_scan_index) s.(merged_canonical_index) (group :: groups) =
    tail_entries members s.(next_base_scan_index) s.(merged_canonical_index) [group] ++
    tail_entries members s1.(next_base_scan_index) s1.(merged_canonical_index) groups).
  { rewrite Hm, Hs. apply (tail_entries_app _ _ [group]). }
  split.
  - by constructor.
  - congruence.
  - rewrite IH2, Hb, roots_in_cons. lia.
  - intros u Hlt. rewrite IH3, Hn, roots_in_cons by done. lia.
  - auto.
  - rewrite IH5, Hu, Hsplit, len_app. lia.
  - rewrite Hsplit. intros e [Hin|Hin]%elem_of_app; [|by apply IH6].
    destruct (He e Hin) as (p&plan&Hp&E). exists p, plan. auto.
Qed.
End join.

(** ** The loop *)

Section loop.
Context (columns : list DirectColumns) (paired : bool) (options : DirectCompileOptions).
Context (closure_rule_plans root_rule_plans : list SelectedRootRulePlan).
Context (node_offsets tail_offsets : list usize).
Context `{Layout} (fuel : nat) (T : list CanonicalTable).
Context (built : forall t, t < len T -> table_ok T.[t]).
Context (sorted : forall t, t < len T -> roots_sorted (table_columns T.[t])).

Lemma join_groups_spec rounds merger self : merger_ok T merger ->
  yields (fun r => merger_ok T r.1 /\ exists groups keys,
      merged (fun t => table_columns T.[t]) (len T) (rest_of T merger) groups keys /\
      joins columns tail_offsets self groups r.2)
    (join_groups columns paired options closure_rule_plans root_rule_plans node_offsets tail_offsets
       fuel rounds merger self).
Proof using built sorted.
  revert merger self. induction rounds as [|rounds IH]; intros merger self Hok; cbn [join_groups];
    [by apply yields_spared|].
  eapply yields_bind; [by apply kway_next_spec|]. intros [[group|] merger'] [Hok' Hg]; cbn [fst snd] in *; cycle 1.
  { apply yields_ret. split; [done|]. exists [], []. split; [by apply merged_none|constructor]. }
  destruct Hg as [k Hg]. eapply yields_bind; [apply yields_uncharged, join_group_step|]. intros self' Hstep.
  eapply yields_mono; [|by apply IH]. intros [merger2 self2] (Hok2&groups&keys&Hm&Hj). split; [done|].
  exists (group :: groups), (k :: keys). split; [by eapply merged_step|by econstructor].
Qed.
End loop.
