(* ===== verification/Assembled.v ===== *)
(** * A composite counts every root once

    The preparation of a composite: the roots it counts are the canonical groups,
    and the deltas it keeps are the roots of the tail that the first table does
    not have, each once. *)

From stdpp Require Import sorting.
From S2P Require Import Prelude Errors Partial Lists Tags Text Readers Columns Nodes Generic Graphs Sort Stats Rules.
From S2P Require Import Structure Reach Validated Workspace Planning Roles Overlay Preparation LocalIndex Scoped Tail.
From S2P Require Import Preflight Budget Encode Merge Join Composite Assembly Terms.
From S2P Require Import Lengths Ordering Groups Kway Samples Merging Joining.
Local Open Scope string_scope.
Local Open Scope list_scope.
Local Open Scope N_scope.

(** ** The entries *)

Lemma tail_entries_scan members scan order groups e : e ∈ tail_entries members scan order groups ->
  e.(entry_scan) = scan \/ exists root, root ∈ roots_in 0 groups /\ e.(entry_scan) = root.(root_index) + 1.
Proof.
  revert scan order. induction groups as [|group groups IH]; intros scan order; cbn [tail_entries];
    [by intros ?%elem_of_nil|].
  assert (Hin : forall root, root ∈ roots_in 0 groups -> root ∈ roots_in 0 (group :: groups)).
  { unfold roots_in. cbn. destruct group.[0]; [by right|done]. }
  destruct group.[0] as [root|] eqn:H0.
  - intros [->|(r&Hr&->)]%IH; right; [exists root|exists r; auto].
    split; [|done]. unfold roots_in. cbn. rewrite H0. by left.
  - intros [He|[He|(r&Hr&E)]%IH]%elem_of_app; [|by left|right; exists r; auto].
    destruct (first_in _ _) as [[t root]|]; [|by apply elem_of_nil in He].
    apply list_elem_of_singleton in He as ->. by left.
Qed.

Lemma tail_entries_order members scan order groups :
  StronglySorted (fun e e' => e.(entry_order) < e'.(entry_order)) (tail_entries members scan order groups) /\
  forall e, e ∈ tail_entries members scan order groups -> order <= e.(entry_order).
Proof.
  revert scan order. induction groups as [|group groups IH]; intros scan order; cbn [tail_entries].
  { split; [constructor|by intros e ?%elem_of_nil]. }
  destruct group.[0] as [root|].
  - destruct (IH (root.(root_index) + 1) (order + 1)) as [Hs Hle]. split; [done|]. intros e He%Hle. lia.
  - destruct (IH scan (order + 1)) as [Hs Hle]. destruct (first_in _ _) as [[t root]|]; cbn.
    + split.
      * constructor; [done|]. apply Forall_forall. intros e He%Hle. cbn. lia.
      * intros e [->|He%Hle]%elem_of_cons; cbn; lia.
    + split; [done|]. intros e He%Hle. lia.
Qed.

Lemma tail_entries_NoDup members scan order groups : NoDup (tail_entries members scan order groups).
Proof.
  destruct (tail_entries_order members scan order groups) as [Hs _]. revert Hs.
  induction 1 as [|e l Hs IH He]; constructor; [|done]. intros Hin. rewrite Forall_forall in He.
  specialize (He _ Hin). cbn in He. lia.
Qed.

(** A group has a root of the first table, or an entry. *)
Lemma tail_entries_count members scan order groups :
  Forall (fun group => group.[0] <> None \/ first_in group (range 1 members) <> None) groups ->
  len groups = len (roots_in 0 groups) + len (tail_entries members scan order groups).
Proof.
  intros Hall. revert scan order. induction Hall as [|group groups Hg _ IH]; intros scan order; [done|].
  rewrite roots_in_cons, len_cons. unfold taken. cbn [tail_entries]. destruct group.[0] as [root|] eqn:H0.
  - rewrite (IH (root.(root_index) + 1) (order + 1)). lia.
  - rewrite len_app, (IH scan (order + 1)). destruct Hg as [?|Hg]; [done|].
    destruct (first_in _ _) as [[t root]|]; [|done]. change (len [_]) with 1. lia.
Qed.

(** ** The plans that are retained *)

Lemma NoDup_same_length {A} (l k : list A) : NoDup l -> (forall x, x ∈ l -> x ∈ k) -> len k = len l -> k ≡ₚ l.
Proof.
  intros Hnd Hin Hlen. symmetry. apply submseteq_length_Permutation.
  - apply NoDup_submseteq; [done|exact Hin].
  - unfold len in Hlen. lia.
Qed.

Lemma retained_entries columns offsets groups start self :
  start.(next_base_scan_index) = 0 -> start.(merged_canonical_index) = 0 -> start.(unique_tail_roots) = 0 ->
  len start.(tail_root_plans) <= usize_max ->
  (forall e, e ∈ tail_entries (len columns) 0 0 groups -> e.(entry_scan) <> DEDUPLICATED_OVERLAY_SCAN_INDEX) ->
  joins columns offsets start groups self ->
  post (fun plans => entry_of <$> plans ≡ₚ tail_entries (len columns) 0 0 groups) (retained_tail_plans self).
Proof.
  intros Hscan Hmerged Hunique Hlen Hkept Hjoins%joins_all. destruct Hjoins as [_ Hl _ _ _ Hu Hentries].
  rewrite Hscan, Hmerged in Hu, Hentries. unfold retained_tail_plans.
  eapply post_bind; [apply post_transparent, cancellable_retain_transparent|]. intros kept Hretain.
  rewrite retain_correct in Hretain by (by rewrite Hl). injection Hretain as <-.
  eapply post_bind; [apply sort_permutes|]. intros plans Hperm.
  destruct (N.eqb_spec (len plans) (unique_tail_roots self)) as [Hcount|]; [|by apply post_lift].
  apply post_ret. apply NoDup_same_length.
  - apply tail_entries_NoDup.
  - intros e He. destruct (Hentries e He) as (p&plan&[Hp _]&<-). apply list_elem_of_fmap. exists plan. split; [done|].
    rewrite Hperm. apply list_elem_of_In, filter_In. split; [by apply list_elem_of_In, (get_elem_of _ p)|].
    unfold kept_tail. apply Hkept in He. by apply negb_true_iff, N.eqb_neq.
  - unfold len. rewrite length_fmap. fold (len plans). rewrite Hcount, Hu, Hunique. unfold len. lia.
Qed.

(** ** The counted roots *)

Abbreviation roots_kept s := (fun s' => s'.(Stats.roots) = s.(Stats.roots)).

Lemma increment_statistics_roots counter s : ensures (roots_kept s) (increment_statistics counter s).
Proof. intros s' H. unfold increment_statistics, bump in H. destruct counter; inv_ok; done. Qed.

Lemma apply_statistics_roots rule s options : ensures (roots_kept s) (apply_statistics rule s options).
Proof.
  intros s' H. unfold apply_statistics in H. apply bind_Ok in H as (s1&H1%increment_statistics_roots&H).
  destruct (is_skipped _); [|by injection H as <-]. apply bind_Ok in H as (d&_&H).
  destruct (bool_decide _); [|by injection H as <-]. unfold bump in H. by inv_ok.
Qed.

Lemma apply_delta_statistics_roots delta s options : ensures (roots_kept s) (apply_delta_statistics delta s options).
Proof.
  intros s' H. destruct delta; cbn [apply_delta_statistics] in H;
    try (by apply apply_statistics_roots in H);
    unfold bump, add_to in H; repeat case_match; inv_ok; repeat case_match; inv_ok; done.
Qed.

Section assembled.
Context `{LowercaseTable} (columns : list DirectColumns) (root_columns : option (list DirectColumns)).
Context (options : DirectCompileOptions) (retained : option RoleState).

Abbreviation tables := (columns ++ default [] root_columns).

Lemma enumerate_checked_keeps {A S} (I : S -> Prop) (f : S -> A -> Cx S) s l :
  I s -> (forall s x, I s -> post I (f s x)) -> post I (enumerate_checked f s l).
Proof using Type.
  intros Hs Hf. unfold enumerate_checked. eapply (post_bind (fun st => I st.1)).
  - apply post_foldM; [done|]. intros [s' i] x _ Hs'. skip_step.
    eapply post_bind; [by apply Hf|]. intros s2 Hs2. by apply post_ret.
  - intros [s' i] Hs'. by apply post_ret.
Qed.

Lemma composite_statistics_roots j annotations deltas roles additional expansion projected s :
  post (fun s' => s'.(Stats.roots) = s.(Stats.roots) + j.(joined).(unique_tail_roots))
    (composite_statistics columns root_columns options j annotations deltas roles additional expansion projected s).
Proof using Type.
  unfold composite_statistics.
  eapply (post_bind (fun s' => s'.(Stats.roots) = s.(Stats.roots) + j.(joined).(unique_tail_roots))).
  { apply post_lift. intros s' Hs. unfold add_to in Hs. apply bind_Ok in Hs as (n&[-> _]%ok_or_Ok%checked_add_Some&[= <-]).
    done. }
  intros s1 H1. eapply (post_bind (roots_kept s1)).
  { apply post_foldM; [done|]. intros s2 t _ H2. unfold add_nodes. skip_step. skip_step. apply post_lift.
    intros s3 Hs. unfold add_to in Hs. by inv_ok. }
  intros s2 H2. eapply (post_bind (roots_kept s2)).
  { apply enumerate_checked_keeps; [done|]. intros s3 delta H3. apply post_lift.
    intros s4 H4%apply_delta_statistics_roots. congruence. }
  intros s3 H3. eapply (post_bind (roots_kept s3)).
  { apply post_lift. intros s4 H4. unfold join_statistics in H4. apply bind_Ok in H4 as (subs&_&H4).
    destruct root_columns; [apply bind_Ok in H4 as (bytes&_&H4)|]; by injection H4 as <-. }
  intros s4 H4. skip_step. eapply (post_bind (roots_kept s4)).
  { apply post_lift. intros s5 Hs. unfold add_to in Hs. by inv_ok. }
  intros s5 H5. eapply post_mono; [|apply (post_foldM (roots_kept s5)); [done|]].
  { intros s6 H6. congruence. }
  intros s6 t _ H6. unfold add_buffers. do 3 skip_step. apply post_lift.
  intros s7 Hs. unfold add_to in Hs. inv_ok. done.
Qed.

Lemma prepare_direct_roots (self : DirectColumns) annotations opts roles override preclassified axiom :
  post (fun P => selected_root_count self = Ok P.(statistics).(Stats.roots))
    (prepare_direct self annotations opts roles override preclassified axiom).
Proof using Type.
  unfold prepare_direct. do 12 skip_step. destruct (_ <? _); [by apply post_lift|].
  eapply post_bind; [apply post_lift, ensures_self|]. intros roots Hroots. do 2 skip_step. by apply post_ret.
Qed.

Lemma local_index_keeps P (self : DirectColumns) :
  yields (fun P' => P'.(statistics) = P.(statistics) /\ P'.(anonymous_ids) = P.(anonymous_ids) /\
      P'.(local_object_property_classes) = P.(local_object_property_classes))
    (prepare_local_object_property_class_index P self).
Proof using Type.
  unfold prepare_local_object_property_class_index. cbn zeta. destruct (_ =? 0); [by apply yields_ret|].
  do 7 (apply yields_then; intros ?). apply yields_then. intros [[? ?] ?]. apply yields_then. intros [? ?].
  do 3 (apply yields_then; intros ?). by apply yields_ret.
Qed.

Lemma prepare_base_roots base plan roles mapping nodes classes : get columns 0 = Some base ->
  yields (fun P => selected_root_count base = Ok P.(statistics).(Stats.roots))
    (prepare_base columns root_columns options retained plan roles mapping nodes classes).
Proof using Type.
  intros Hbase. unfold prepare_base. apply yields_read. intros base' Hb%index_Ok. assert (base' = base) as -> by congruence.
  eapply yields_bind; [apply yields_uncharged, prepare_direct_roots|]. intros P HP.
  eapply yields_bind; [apply local_index_keeps|]. intros P' [Hs _].
  do 2 (apply yields_then; intros ?). apply yields_ret. cbn. rewrite Hs. exact HP.
Qed.

(** ** The deltas *)

(** Where a delta is inserted, and its place among all groups. *)
Definition delta_place (delta : OwnedOverlayDelta) : usize * usize :=
  (delta.(insertion_scan_index), delta.(local_canonical_index)).
Definition entry_place (e : tail_entry) : usize * usize := (e.(entry_scan), e.(entry_order)).

Lemma own_tail_places closure mapping nodes unique plans :
  yields (fun r => delta_place <$> r.1 ≡ₚ entry_place <$> (entry_of <$> plans))
    (own_tail columns options closure mapping nodes unique plans).
Proof using Type.
  unfold own_tail. do 2 (apply yields_then; intros _).
  eapply (yields_bind (fun st => delta_place <$> st.1.1 = entry_place <$> (entry_of <$> plans))).
  { apply (yields_foldM_ind (fun d st => delta_place <$> st.1.1 = entry_place <$> (entry_of <$> d))); [done|].
    intros d plan rest [[deltas classes] i] _ Hd. unfold own_tail_step. do 6 (apply yields_then; intros ?).
    apply yields_ret. cbn in *. by rewrite !fmap_app, Hd. }
  intros [[deltas classes] i] Hd. cbn in Hd. eapply yields_bind; [apply yields_uncharged, sort_permutes|].
  intros sorted Hperm. apply yields_ret. cbn. by rewrite Hperm, Hd.
Qed.

Lemma assemble_result prepared j deltas :
  post (fun P => P.(statistics).(Stats.roots) = prepared.(statistics).(Stats.roots) + j.(joined).(unique_tail_roots) /\
      P.(overlay_deltas) = deltas /\ P.(composite_anonymous_nodes) = j.(joined_anonymous_nodes))
    (assemble columns root_columns options prepared j deltas).
Proof using Type.
  unfold assemble. skip_step. eapply post_bind; [apply post_trivial|]. intros [edges roles] _.
  eapply post_bind; [apply post_trivial|]. intros [[additional expanded] expansion] _. skip_step.
  eapply post_bind; [apply composite_statistics_roots|]. intros counted Hc. by apply post_ret.
Qed.

(** ** The plans *)

Definition plan_of (plan : SelectedRootRulePlan) (table : DirectColumns) : Prop :=
  selected_root_count table = Ok plan.(selected_roots_planned).

Lemma plan_table_counts table : yields (fun plan => plan_of plan table) (plan_table options table).
Proof using Type.
  unfold plan_table. do 2 (apply yields_then; intros _). unfold resolve_selected_root_rule_plan.
  apply yields_then. intros _ workspace. unfold populate_owned, populate_selected_root_rule_plan.
  eapply (post_bind (fun plan => plan_of plan table)); [|intros plan Hplan; by apply post_ret].
  eapply post_bind; [apply post_trivial|]. intros plan _.
  eapply post_bind; [apply post_lift, ensures_self|]. intros expected Hexpected.
  destruct (N.eqb_spec plan.(selected_roots_planned) expected) as [<-|]; [by apply post_ret|by apply post_lift].
Qed.

Lemma plan_tables_counts : yields (fun r => Forall2 plan_of r.1.1 columns) (plan_tables columns root_columns options).
Proof using Type.
  unfold plan_tables. do 4 (apply yields_then; intros _).
  eapply (yields_bind (fun st => Forall2 plan_of st.1 columns)).
  { apply (yields_foldM_ind (fun d st => Forall2 plan_of st.1 d)); [by constructor|].
    intros d table rest [plans total] _ Hd. unfold closure_plan_step.
    eapply yields_bind; [apply plan_table_counts|]. intros plan Hplan. apply yields_then. intros n.
    apply yields_ret. cbn. apply Forall2_app; [done|by constructor]. }
  intros [plans total] Hplans. apply yields_then. intros roots. by apply yields_ret.
Qed.

Lemma merge_columns_tables : yields (fun t => t = tables) (merge_columns columns root_columns).
Proof using Type.
  unfold merge_columns. destruct root_columns as [root|]; [|apply yields_ret; by rewrite app_nil_r].
  do 2 (apply yields_then; intros ?). by apply yields_ret.
Qed.

Lemma tail_plans_few closure :
  yields (fun r => len r.1.1 <= usize_max) (tail_plans columns root_columns options closure).
Proof using Type.
  unfold tail_plans. eapply (yields_bind (fun n => n <= usize_max)).
  - apply yields_spared. intros n Hn. unfold tail_count in Hn.
    apply (foldM_ind _ (fun _ n => n <= usize_max) _ _ _ Hn); [done|].
    by intros d plan n1 n2 [-> ?]%ok_or_Ok%checked_add_Some.
  - intros n Hn. do 2 (apply yields_then; intros _). apply yields_then. intros [offsets offset].
    apply yields_then. intros plans. destruct (N.eqb_spec (len plans) n) as [<-|]; [|by apply yields_error].
    by apply yields_ret.
Qed.

Record planned (p : Planned) : Prop := {
  planned_counts : Forall2 plan_of p.(planned_closure) columns;
  planned_all : p.(planned_tables) = tables;
  planned_few : len p.(planned_start).(tail_root_plans) <= usize_max;
  planned_zero : p.(planned_start).(next_base_scan_index) = 0 /\ p.(planned_start).(merged_canonical_index) = 0 /\
    p.(planned_start).(unique_tail_roots) = 0 /\ p.(planned_start).(selected_base_roots) = 0;
}.

Lemma plan_composite_planned work : yields planned (plan_composite columns root_columns options work).
Proof using Type.
  unfold plan_composite. eapply yields_bind; [apply plan_tables_counts|]. intros [[closure roots] total] Hc.
  eapply yields_bind; [apply merge_columns_tables|]. intros t ->. apply yields_then. intros mapping.
  destruct (total =? 0); [by apply yields_error|]. apply yields_then. intros [offsets slots].
  eapply yields_bind; [apply tail_plans_few|]. intros [[plans tail_offsets] n] Hfew.
  do 6 (apply yields_then; intros ?). by apply yields_ret.
Qed.

(** ** The merge *)

Lemma join_tables_groups `{Layout} fuel rounds limits closure roots node_offsets tail_offsets start :
  Forall resident tables ->
  post (fun j => exists groups terms, canonical_groups tables groups terms /\
      joins columns tail_offsets start groups j.(joined) /\
      exists plan, get closure 0 = Some plan /\ j.(joined).(selected_base_roots) = plan.(selected_roots_planned))
    (join_tables columns root_columns options fuel rounds tables limits closure roots node_offsets tail_offsets start).
Proof using Type.
  intros Hres. unfold join_tables. eapply post_bind; [by apply kway_new_spec|]. intros [merger budget] Hst.
  cbn [fst] in Hst. pose proof (join_groups_spec columns (paired root_columns) options closure roots node_offsets
    tail_offsets fuel merger.(Merge.tables) (started_built _ _ Hst)
    (fun t Ht => proj2 (started_sorted _ _ Hst t Ht)) rounds merger start (started_ok _ _ Hst) budget) as Hj.
  eapply post_bind; [exact Hj|]. intros [[merger' self] budget'] (_&groups&keys&Hm&Hjoins). cbn [fst snd] in Hjoins.
  destruct (started_groups _ _ _ _ Hst Hm) as [terms Hgroups]. skip_step.
  eapply post_bind; [apply post_trivial|]. intros [[unique nodes] budget2] _.
  eapply post_bind; [apply post_lift, ensures_self|]. intros [] Hcheck. apply post_ret.
  exists groups, terms. split; [done|]. split; [done|]. unfold check_counts in Hcheck.
  apply bind_Ok in Hcheck as (d&_&Hcheck). apply bind_Ok in Hcheck as (base&Hbase&Hcheck).
  rewrite index_Ok, get_lookup in Hbase. apply list_lookup_fmap_Some in Hbase as (plan&->&Hplan).
  exists plan. rewrite get_lookup. split; [done|]. destruct (_ || _) eqn:Hor; [done|].
  rewrite !orb_false_iff, !negb_false_iff, !N.eqb_eq in Hor. tauto.
Qed.
End assembled.

(** ** The whole *)

Lemma root_ref_bounded c i root : resident c -> root_ref c i = Ok root ->
  root.(root_index) + 1 < DEDUPLICATED_OVERLAY_SCAN_INDEX.
Proof.
  intros Hres (kind&_&(node&Hid&[= <-])%bind_Ok)%bind_Ok. apply bind_Ok in Hid as (value&Hread&_).
  apply read_row_spec_u32 in Hread. apply read_row_Some in Hread as [Hbound _]; [|lia|apply resident_root_ids, Hres].
  pose proof (resident_root_ids _ Hres) as Hsize. unfold sized in Hsize. cbn.
  unfold DEDUPLICATED_OVERLAY_SCAN_INDEX, usize_max in *. lia.
Qed.

Lemma base_scan_small columns groups terms base e members : canonical_groups columns groups terms ->
  get columns 0 = Some base -> resident base -> e ∈ tail_entries members 0 0 groups ->
  e.(entry_scan) <> DEDUPLICATED_OVERLAY_SCAN_INDEX.
Proof.
  intros Hg Hbase Hres He. apply tail_entries_scan in He as [->|(root&Hroot&->)]; [done|].
  pose proof (groups_roots _ _ _ Hg 0 base Hbase) as Hroots.
  apply list_elem_of_lookup in Hroot as [n Hn].
  destruct (Forall2_lookup_r _ _ _ _ _ Hroots Hn) as (i&_&Href).
  pose proof (root_ref_bounded _ _ _ Hres Href). cbn. lia.
Qed.

Lemma check_members_base `{LowercaseTable} columns root_columns : check_members columns root_columns = Ok tt ->
  exists base, get columns 0 = Some base.
Proof. unfold check_members. destruct columns as [|base columns]; [done|]. by exists base. Qed.

(** C12: What the preparation of a composite counts and keeps: the tables' selected
    roots fall into canonical groups, one per distinct term; the roots it counts
    are as many as the groups; and its deltas are, each once, the groups whose
    term the first table does not have, at their place among all groups and at
    the place of the first table's roots where they are inserted. *)
Theorem composite_counts_terms_once `{LowercaseTable} `{Layout} columns root_columns options retained
    fuel rounds max_work max_workspace obs k P :
  Forall resident (columns ++ default [] root_columns) ->
  fst (prepare_dynamic_composite_batches_with_root columns root_columns options retained fuel rounds
         max_work max_workspace obs k) = Ok P ->
  exists groups terms, canonical_groups (columns ++ default [] root_columns) groups terms /\
    P.(statistics).(Stats.roots) = len terms /\
    delta_place <$> P.(overlay_deltas) ≡ₚ entry_place <$> tail_entries (len columns) 0 0 groups.
Proof.
  intros Hres E. set (Q := fun P : DirectPreparation => exists groups terms,
    canonical_groups (columns ++ default [] root_columns) groups terms /\
    P.(statistics).(Stats.roots) = len terms /\
    delta_place <$> P.(overlay_deltas) ≡ₚ entry_place <$> tail_entries (len columns) 0 0 groups).
  enough (Hpost : post Q (prepare_dynamic_composite_batches_with_root columns root_columns options retained
    fuel rounds max_work max_workspace)) by exact (Hpost obs k P E).
  clear obs k P E. unfold prepare_dynamic_composite_batches_with_root.
  eapply post_bind; [apply post_lift, ensures_self|]. intros [] [base Hbase]%check_members_base.
  assert (Hbase' : get (columns ++ default [] root_columns) 0 = Some base).
  { rewrite get_lookup in *. by apply lookup_app_l_Some. }
  assert (Hresb : resident base) by (rewrite Forall_forall in Hres; by eapply Hres, get_elem_of).
  skip_step. eapply post_bind; [apply (plan_composite_planned columns root_columns options)|].
  intros [p workspace] [Hcounts Hall Hfew (Hz1&Hz2&Hz3&Hz4)]. cbn [fst snd] in *. unfold run_join. rewrite Hall.
  eapply post_bind; [by apply join_tables_groups|]. intros j (groups&terms&Hg&Hjoins&plan&Hplan&Hselected).
  eapply (post_bind (fun r => Q r.1)); [|intros [P w] HP; by apply post_ret].
  match goal with |- post _ (?m _) => enough (Hy : yields Q m) by exact (Hy _) end.
  unfold finish_composite. apply yields_then. intros roles.
  eapply yields_bind.
  { apply yields_uncharged. eapply (retained_entries columns); try done. intros e He. by eapply base_scan_small. }
  intros plans Hplans. eapply yields_bind; [apply own_tail_places|]. intros [deltas classes] Hdeltas.
  apply yields_then. intros base_plan. eapply yields_bind; [by apply prepare_base_roots|]. intros prepared Hprep.
  eapply yields_mono; [|apply yields_uncharged, assemble_result]. intros P' (Hroots&Hd&_). cbn [fst] in *.
  exists groups, terms. split; [done|]. split.
  - rewrite Hroots. destruct (joins_all _ _ _ _ _ Hjoins) as [Hclosure _ Hb _ _ Hu _].
    rewrite Hz1, Hz2, Hz3 in Hu. rewrite Hz4, Hselected in Hb.
    assert (Hone : plan_of plan base).
    { rewrite get_lookup in Hplan. rewrite (get_lookup columns) in Hbase. by eapply Forall2_lookup_lr. }
    unfold plan_of in Hone. rewrite Hprep in Hone. injection Hone as ->. rewrite Hb, Hu.
    pose proof (Forall2_length _ _ _ (groups_stand _ _ _ Hg)) as Hlen. replace (len terms) with (len groups) by (unfold len; congruence).
    rewrite (tail_entries_count (len columns) 0 0 groups Hclosure). lia.
  - by rewrite Hd, Hdeltas, Hplans.
Qed.

(** ** A composite of two tables

    The class assertion of [peer_sample] is also in [sample]; the other three
    axioms of [sample] are the deltas. *)

Definition composite_options : DirectCompileOptions := {|
  bidirectional := true; asserted_taxonomy_only := false; only_taxonomy := false;
  include_literals := false; max_edges := 100; max_iri_bytes := 100 |}.

Abbreviation sample_composite obs :=
  (fst (@prepare_dynamic_composite_batches_with_root ascii_lowercase [peer_sample; sample] None
    composite_options None sample_layout (N.to_nat 20001) 20 20000 1000000 obs 0%nat)).

Lemma sample_composite_counts :
  match sample_composite quiet with
  | Ok P => P.(statistics).(Stats.roots) = 4 /\ delta_place <$> P.(overlay_deltas) = [(0, 0); (0, 1); (0, 2)]
  | _ => False
  end.
Proof. by vm_compute. Qed.

Lemma sample_members_resident : Forall resident [peer_sample; sample].
Proof. repeat (apply Forall_cons; split; [apply resident_of_small; by vm_compute|]). by apply Forall_nil. Qed.

Lemma composite_counts_terms_once_witness :
  match sample_composite quiet with
  | Ok P => P.(statistics).(Stats.roots) = 4 /\ delta_place <$> P.(overlay_deltas) = [(0, 0); (0, 1); (0, 2)] /\
      exists groups terms, canonical_groups [peer_sample; sample] groups terms /\
        P.(statistics).(Stats.roots) = len terms /\
        delta_place <$> P.(overlay_deltas) ≡ₚ entry_place <$> tail_entries 2 0 0 groups
  | _ => False
  end.
Proof.
  pose proof sample_composite_counts as Hok.
  pose proof (@composite_counts_terms_once ascii_lowercase sample_layout [peer_sample; sample] None
    composite_options None (N.to_nat 20001) 20 20000 1000000 quiet 0%nat) as Hcounts.
  destruct (fst _) as [P|e| |]; [|done..]. destruct Hok as [Hr Hd].
  split; [done|]. split; [done|]. by apply (Hcounts P sample_members_resident).
Defined.
