(* ===== verification/Pairwise.v ===== *)
(** * Two tables

    [CanonicalNodeComparator] decides the canonical order of the nodes of two
    tables, and [CanonicalRootMerger] merges their roots into the groups that the
    merge of any number of tables returns. *)

From stdpp Require Import sorting.
From S2P Require Import Prelude Errors Partial Lists Tags Text Readers Columns Nodes Samples Generic Search Cycles.
From S2P Require Import Structure Reach Safety Validated Terms Preparation Workspace Budget Encode Merge.
From S2P Require Import Lengths Ordering Groups Kway Returning Merging.
Local Open Scope string_scope.
Local Open Scope list_scope.
Local Open Scope N_scope.

Section pair.
Context `{Layout} (fuel : nat).

(** ** The comparator *)

(** Validated tables whose canonical sets are sorted. *)
Record comparing (lc rc : DirectColumns) (self : CanonicalNodeComparator) : Prop := {
  comparing_left : self.(left).(table_columns) = lc;
  comparing_right : self.(right).(table_columns) = rc;
  comparing_left_ok : table_ok self.(left);
  comparing_right_ok : table_ok self.(right);
}.

Definition columns_on (lc rc : DirectColumns) (side : TableSide) : DirectColumns :=
  match side with Left => lc | Right => rc end.

Lemma comparing_side lc rc self side : comparing lc rc self ->
  table_ok (table_of self side) /\ (table_of self side).(table_columns) = columns_on lc rc side.
Proof using Type. intros []. by destruct side. Qed.

Lemma compare_sides_settles lc rc ls rs self m n : comparing lc rc self ->
  settles fuel (fun r => node_order (columns_on lc rc ls) (columns_on lc rc rs) m n r.1 /\ comparing lc rc r.2)
    (compare_sides fuel ls rs self m n).
Proof using Type.
  intros Hc. destruct (comparing_side _ _ _ ls Hc) as [Hlo Hl], (comparing_side _ _ _ rs Hc) as [Hro Hr].
  unfold compare_sides. eapply settles_bind.
  - split; [apply compare_in_returns|]. apply compare_in_order; [done|done|].
    intros ->%bool_decide_eq_true. done.
  - intros [ordering cursors] Ho. apply settles_ret. rewrite <- Hl, <- Hr. split; [done|]. by destruct Hc.
Qed.

Lemma compare_sides_frame lc rc ls rs self m n : comparing lc rc self ->
  settles fuel (fun r => comparing lc rc r.2) (compare_sides fuel ls rs self m n).
Proof using Type.
  intros Hc. eapply settles_mono; [done| |by apply (compare_sides_settles lc rc)]. by intros r [_ ?].
Qed.

Lemma validate_side_settles lc rc self side error : comparing lc rc self ->
  settles fuel (fun self' => sets_sorted (columns_on lc rc side) /\ comparing lc rc self')
    (validate_canonical_sets (columns_on lc rc side) (compare_sides fuel side side) error self).
Proof using Type.
  intros Hc. destruct (comparing_side _ _ _ side Hc) as [Ho E]. split.
  - apply (validate_sets_settles fuel (comparing lc rc)); [|done]. intros s m n Hs. by apply compare_sides_frame.
  - rewrite <- E. apply (validate_sets_sorts (comparing lc rc) _ Ho); [|done]. intros s m n Hs. rewrite E.
    by apply compare_sides_settles.
Qed.

Lemma comparator_new_settles lc rc : resident lc -> resident rc ->
  settles fuel (fun self => comparing lc rc self /\ sets_sorted lc /\ sets_sorted rc)
    (comparator_new fuel lc rc).
Proof using Type.
  intros Hl Hr. unfold comparator_new. eapply settles_bind; [by apply table_build_settles|]. intros l [El Ol].
  eapply settles_bind; [by apply table_build_settles|]. intros r [Er Or].
  eapply settles_bind; [by apply (validate_side_settles lc rc _ Left)|]. intros self [Hsl Hs].
  eapply settles_mono; [done| |by apply (validate_side_settles lc rc _ Right)]. by intros self' [Hsr Hs'].
Qed.

(** ** The merger *)

Lemma compare_roots_settles lc rc ls rs self a b : comparing lc rc self ->
  settles fuel (fun r => root_order (columns_on lc rc ls) (columns_on lc rc rs) a b r.1 /\ comparing lc rc r.2)
    (Merge.compare_roots fuel ls rs self a b).
Proof using Type.
  intros Hc. unfold Merge.compare_roots. apply settles_consume. split.
  - apply (compare_root_refs_settles fuel (comparing lc rc)); [|done]. intros s m n Hs. by apply compare_sides_frame.
  - apply (compare_root_refs_order (comparing lc rc)); [|done]. intros s m n Hs. by apply compare_sides_settles.
Qed.

Lemma validate_roots_settles lc rc self side error : comparing lc rc self ->
  settles fuel (fun self' => roots_sorted (columns_on lc rc side) /\ comparing lc rc self')
    (validate_group (columns_on lc rc side) (Merge.compare_roots fuel side side) error self).
Proof using Type.
  intros Hc. destruct (comparing_side _ _ _ side Hc) as [Ho E]. split.
  - apply (validate_group_settles fuel (comparing lc rc)); [|done]. intros s a b Hs.
    eapply settles_mono; [done| |by apply (compare_roots_settles lc rc)]. by intros r [_ ?].
  - rewrite <- E. apply (validate_group_sorts (comparing lc rc) _ Ho); [|done]. intros s a b Hs. rewrite E.
    by apply compare_roots_settles.
Qed.

Context (lc rc : DirectColumns).

Record pairing (self : CanonicalRootMerger) : Prop := {
  pairing_comparator : comparing lc rc self.(comparator);
  pairing_left : behind lc self.(left_position) self.(left_posting_position);
  pairing_right : behind rc self.(right_position) self.(right_posting_position);
}.

Definition position_on (self : CanonicalRootMerger) (side : TableSide) : usize :=
  match side with Left => self.(left_position) | Right => self.(right_position) end.

(** The selected roots of a side that no call has returned. *)
Definition side_rest (self : CanonicalRootMerger) (side : TableSide) : list usize :=
  remaining (columns_on lc rc side) (position_on self side).

Lemma root_merger_new_settles : resident lc -> resident rc ->
  settles fuel (fun self => pairing self /\ roots_sorted lc /\ roots_sorted rc /\
      side_rest self Left = selected_roots lc /\ side_rest self Right = selected_roots rc)
    (root_merger_new fuel lc rc).
Proof using Type.
  intros Hl Hr. unfold root_merger_new. eapply settles_bind; [by apply comparator_new_settles|].
  intros c (Hc&_&_). eapply settles_bind; [by apply (validate_roots_settles lc rc _ Left)|]. intros c1 [Hsl Hc1].
  eapply settles_bind; [by apply (validate_roots_settles lc rc _ Right)|]. intros c2 [Hsr Hc2].
  apply settles_ret. split; [|done]. split; [done|apply behind_start..].
Qed.

(** The head of a side. *)
Definition head_on (self : CanonicalRootMerger) (side : TableSide) (root : option CanonicalRootRef) : Prop :=
  match root with
  | Some root => root_ref (columns_on lc rc side) (position_on self side) = Ok root /\
      side_rest self side = position_on self side :: remaining (columns_on lc rc side) (position_on self side + 1) /\
      position_on self side + 1 <= usize_max
  | None => side_rest self side = []
  end.

Definition other (side : TableSide) : TableSide := match side with Left => Right | Right => Left end.

Lemma selected_root_settles self side : pairing self ->
  settles fuel (fun r => pairing r.2 /\ head_on r.2 side r.1 /\ side_rest r.2 side = side_rest self side /\
      position_on r.2 (other side) = position_on self (other side))
    (selected_root fuel self side).
Proof using Type.
  intros [Hc Hl Hr]. unfold selected_root.
  destruct (comparing_side _ _ _ side Hc) as [[V _] E]. rewrite E in V |- *.
  destruct side; cbn [columns_on] in V |- *; (eapply settles_bind;
    [split; [by apply select_root_returns|by apply (select_root_heads _ fuel fuel)]|]);
    intros [root [p q]] (Hb&Hrem&Hroot); apply settles_ret; (split; [by split|]);
    (split; [|by split]); destruct root; exact Hroot.
Qed.

(** ** The next group *)

Definition side_of (t : usize) : TableSide := if t =? 0 then Left else Right.
Definition as_group (root : MergedCanonicalRoot) : root_group :=
  match root with
  | MergedLeft left => [Some left; None]
  | MergedRight right => [None; Some right]
  | MergedBoth left right => [Some left; Some right]
  end.

(** What a call takes from a side. *)
Definition side_taken (c : DirectColumns) (before after : list usize) (root : option CanonicalRootRef) (k : key) : Prop :=
  match root with
  | Some root => root_key c root k /\ exists i, root_ref c i = Ok root /\ before = i :: after
  | None => after = before
  end /\ forall i ki, i ∈ after -> key_at c i ki -> key_lt k ki.

Lemma pair_group before after l r k : is_Some l \/ is_Some r ->
  side_taken lc (before Left) (after Left) l k -> side_taken rc (before Right) (after Right) r k ->
  next_group (fun t => columns_on lc rc (side_of t)) 2 (fun t => before (side_of t)) (fun t => after (side_of t)) [l; r] k.
Proof using Type.
  intros Hsome [Hl Hlk] [Hr Hrk].
  assert (Hcase : forall t, t < 2 -> t = 0 \/ t = 1) by lia. split; [split; [done|split]|..].
  - destruct Hsome as [[root ->]|[root ->]]; [by exists 0, root|by exists 1, root].
  - intros t root Ht Hroot. destruct (Hcase t Ht) as [->| ->].
    + change (l = Some root) in Hroot. subst l. apply Hl.
    + change (r = Some root) in Hroot. subst r. apply Hr.
  - intros t Ht. destruct (Hcase t Ht) as [->| ->].
    + change ([l; r].[0]) with l. destruct l; apply Hl.
    + change ([l; r].[1]) with r. destruct r; apply Hr.
  - intros t i ki Ht. destruct (Hcase t Ht) as [->| ->]; [apply Hlk|apply Hrk].
Qed.

Context (left_sorted : roots_sorted lc) (right_sorted : roots_sorted rc).

Lemma side_sorted side : roots_sorted (columns_on lc rc side).
Proof using left_sorted right_sorted. by destruct side. Qed.

(** The head is taken. *)
Lemma head_taken self self' side root k : head_on self side (Some root) ->
  root_key (columns_on lc rc side) root k -> position_on self' side = position_on self side + 1 ->
  side_taken (columns_on lc rc side) (side_rest self side) (side_rest self' side) (Some root) k.
Proof using left_sorted right_sorted.
  intros (Href&Hrest&_) Hk Hp. assert (Hafter : side_rest self' side = remaining (columns_on lc rc side)
    (position_on self side + 1)) by (unfold side_rest; by rewrite Hp).
  split.
  - split; [done|]. exists (position_on self side). split; [done|]. by rewrite Hafter.
  - intros i ki Hi Hki. rewrite Hafter in Hi.
    apply (remaining_greater (columns_on lc rc side) (position_on self side) (position_on self side)
      (remaining (columns_on lc rc side) (position_on self side + 1)) i); [apply side_sorted|done|done|by exists root|done].
Qed.

(** The head is greater than what is taken from the other side. *)
Lemma head_left self self' side root k k' : head_on self side (Some root) ->
  root_key (columns_on lc rc side) root k' -> key_lt k k' -> position_on self' side = position_on self side ->
  side_taken (columns_on lc rc side) (side_rest self side) (side_rest self' side) None k.
Proof using left_sorted right_sorted.
  intros (Href&Hrest&_) Hk Hlt Hp. assert (Hafter : side_rest self' side = side_rest self side)
    by (unfold side_rest; by rewrite Hp).
  split; [done|]. intros i ki Hi Hki. rewrite Hafter, Hrest in Hi.
  assert (Hat : key_at (columns_on lc rc side) (position_on self side) k') by (by exists root).
  apply elem_of_cons in Hi as [->|Hi]; [by rewrite (key_at_inj _ _ _ _ Hki Hat)|].
  transitivity k'; [done|]. by eapply remaining_greater; [apply side_sorted|..].
Qed.

Lemma side_empty self self' side k : head_on self side None -> position_on self' side = position_on self side ->
  side_taken (columns_on lc rc side) (side_rest self side) (side_rest self' side) None k.
Proof using Type.
  intros Hh Hp. assert (Hafter : side_rest self' side = side_rest self side) by (unfold side_rest; by rewrite Hp).
  split; [done|]. intros i ki Hi. rewrite Hafter, Hh in Hi. by apply elem_of_nil in Hi.
Qed.

Lemma head_key self side root : pairing self -> head_on self side (Some root) ->
  exists k, root_key (columns_on lc rc side) root k.
Proof using Type.
  intros [Hc _ _] (Href&_). destruct (comparing_side _ _ _ side Hc) as [Ho E]. rewrite <- E in Href |- *.
  by eapply table_root_key.
Qed.

Definition rest_on (self : CanonicalRootMerger) (t : usize) : list usize := side_rest self (side_of t).
Abbreviation column_on := (fun t => columns_on lc rc (side_of t)).

(** The two calls of [selected_root]. *)
Lemma heads_found self self1 self2 l r :
  head_on self1 Left l /\ side_rest self1 Left = side_rest self Left /\
    position_on self1 Right = position_on self Right ->
  head_on self2 Right r /\ side_rest self2 Right = side_rest self1 Right /\
    position_on self2 Left = position_on self1 Left ->
  head_on self2 Left l /\ head_on self2 Right r /\ forall t, rest_on self2 t = rest_on self t.
Proof using Type.
  intros (Hl&Hrl&Hpr) (Hr&Hrr&Hpl). split; [|split; [done|]].
  - unfold head_on, side_rest in Hl |- *. by rewrite Hpl.
  - intros t. unfold rest_on. destruct (side_of t).
    + rewrite <- Hrl. unfold side_rest. by rewrite Hpl.
    + rewrite Hrr. unfold side_rest. by rewrite Hpr.
Qed.

(** The state after a call that took the heads of some sides. *)
Record advanced_to (self self' : CanonicalRootMerger) (l r : bool) : Prop := {
  advanced_pairing : pairing self';
  advanced_left : position_on self' Left = position_on self Left + (if l then 1 else 0);
  advanced_right : position_on self' Right = position_on self Right + (if r then 1 else 0);
}.

Lemma advance self (l r : bool) c : pairing self -> comparing lc rc c ->
  (l = true -> position_on self Left + 1 <= usize_max) -> (r = true -> position_on self Right + 1 <= usize_max) ->
  advanced_to self {| comparator := c;
    left_position := if l then self.(left_position) +w 1 else self.(left_position);
    right_position := if r then self.(right_position) +w 1 else self.(right_position);
    left_posting_position := self.(left_posting_position);
    right_posting_position := self.(right_posting_position) |} l r.
Proof using Type.
  intros [_ Hl Hr] Hc Hhl Hhr.
  assert (El : (if l then self.(left_position) +w 1 else self.(left_position)) =
    self.(left_position) + (if l then 1 else 0)).
  { destruct l; [|lia]. by apply wrapping_add_small, Hhl. }
  assert (Er : (if r then self.(right_position) +w 1 else self.(right_position)) =
    self.(right_position) + (if r then 1 else 0)).
  { destruct r; [|lia]. by apply wrapping_add_small, Hhr. }
  rewrite El, Er. split; [|done..]. split; [done|..]; cbn.
  - destruct l; [by apply behind_next|by rewrite N.add_0_r].
  - destruct r; [by apply behind_next|by rewrite N.add_0_r].
Qed.

(** What a call decides of a side: its head is taken, or is greater, or there
    is none. *)
Definition side_decided (self : CanonicalRootMerger) (side : TableSide) (root : option CanonicalRootRef) (k : key) : Prop :=
  match root with
  | Some root => head_on self side (Some root) /\ root_key (columns_on lc rc side) root k
  | None => head_on self side None \/ exists root k', head_on self side (Some root) /\
      root_key (columns_on lc rc side) root k' /\ key_lt k k'
  end.

Lemma side_decided_taken self self' side root k : side_decided self side root k ->
  position_on self' side = position_on self side + (if bool_decide (is_Some root) then 1 else 0) ->
  side_taken (columns_on lc rc side) (side_rest self side) (side_rest self' side) root k.
Proof using left_sorted right_sorted.
  destruct root as [root|]; cbn; intros Hd Hp; rewrite ?N.add_0_r in Hp.
  - apply head_taken; [apply Hd..|done].
  - destruct Hd as [Hh|(root&k'&Hh&Hk&Hlt)]; [by apply side_empty|by eapply head_left].
Qed.

(** A call that takes the heads of some sides. *)
Lemma take_pair self c l r k root : pairing self -> comparing lc rc c -> as_group root = [l; r] ->
  side_decided self Left l k -> side_decided self Right r k ->
  let self' := {| comparator := c;
    left_position := if bool_decide (is_Some l) then self.(left_position) +w 1 else self.(left_position);
    right_position := if bool_decide (is_Some r) then self.(right_position) +w 1 else self.(right_position);
    left_posting_position := self.(left_posting_position);
    right_posting_position := self.(right_posting_position) |} in
  pairing self' /\ exists k, next_group column_on 2 (rest_on self) (rest_on self') (as_group root) k.
Proof using left_sorted right_sorted.
  intros Hp Hc Hg Hl Hr self'.
  assert (Hadv : advanced_to self self' (bool_decide (is_Some l)) (bool_decide (is_Some r))).
  { apply advance; [done|done|..]; intros Hb%bool_decide_eq_true; destruct Hb as [x ->]; [apply Hl|apply Hr]. }
  destruct Hadv as [Hpair Hpl Hpr]. split; [done|]. exists k. rewrite Hg.
  apply (pair_group (side_rest self) (side_rest self')).
  - destruct root; injection Hg as <- <-; eauto.
  - by apply (side_decided_taken self self' Left).
  - by apply (side_decided_taken self self' Right).
Qed.

Lemma merger_next_settles self : pairing self ->
  settles fuel (fun r => pairing r.2 /\
    match r.1 with
    | Some root => exists k, next_group column_on 2 (rest_on self) (rest_on r.2) (as_group root) k
    | None => forall t, t < 2 -> rest_on self t = []
    end) (merger_next fuel self).
Proof using left_sorted right_sorted.
  intros Hp. unfold merger_next.
  eapply settles_bind; [by apply selected_root_settles|]. intros [l self1] (Hp1&Hl1). cbn [fst snd other] in *.
  eapply settles_bind; [by apply selected_root_settles|]. intros [r self2] (Hp2&Hr2). cbn [fst snd other] in *.
  destruct (heads_found self self1 self2 l r Hl1 Hr2) as (Hl&Hr&Hrest). clear self1 Hp1 Hl1 Hr2.
  assert (Hbefore : forall self' root,
    pairing self' /\ (exists k, next_group column_on 2 (rest_on self2) (rest_on self') (as_group root) k) ->
    pairing self' /\ exists k, next_group column_on 2 (rest_on self) (rest_on self') (as_group root) k).
  { intros self' root [Hpair [k Hg]]. split; [done|]. exists k. eapply next_group_before; [|exact Hg].
    intros t _. symmetry. apply Hrest. }
  pose proof (pairing_comparator _ Hp2) as Hcmp.
  destruct l as [left|], r as [right|]; cbn [fst snd].
  - destruct (head_key self2 Left left Hp2 Hl) as [kl Hkl], (head_key self2 Right right Hp2 Hr) as [kr Hkr].
    eapply settles_bind; [by apply (compare_roots_settles lc rc Left Right)|].
    intros [ordering compared] [Ho Hc]. cbn [fst snd] in Ho, Hc. specialize (Ho kl kr Hkl Hkr).
    destruct ordering; (apply settles_seq; [apply returns_root_duplicates|]); intros _; apply settles_ret;
      cbn [fst snd]; apply Hbefore; symmetry in Ho.
    + apply (cmp_eq key_cmp) in Ho as <-. by apply (take_pair self2 compared (Some left) (Some right) kl).
    + apply (take_pair self2 compared (Some left) None kl); [done|done|done|done|]. right. by exists right, kr.
    + apply (take_pair self2 compared None (Some right) kr); [done|done|done| |done]. right. exists left, kl.
      split; [done|]. split; [done|]. by apply (cmp_gt_lt key_cmp).
  - destruct (head_key self2 Left left Hp2 Hl) as [kl Hkl].
    apply settles_seq; [apply returns_root_duplicates|]. intros _. apply settles_ret. cbn [fst snd]. apply Hbefore.
    apply (take_pair self2 self2.(comparator) (Some left) None kl); [done|done|done|done|by left].
  - destruct (head_key self2 Right right Hp2 Hr) as [kr Hkr].
    apply settles_seq; [apply returns_root_duplicates|]. intros _. apply settles_ret. cbn [fst snd]. apply Hbefore.
    apply (take_pair self2 self2.(comparator) None (Some right) kr); [done|done|done|by left|done].
  - apply settles_ret. cbn [fst snd]. split; [done|]. intros t _. rewrite <- Hrest. unfold rest_on.
    by destruct (side_of t).
Qed.

(** ** All groups *)

(** [while let Some(root) = merger.next()]. *)
Fixpoint pair_drain (rounds : nat) (self : CanonicalRootMerger) : Bud (list MergedCanonicalRoot) :=
  match rounds with
  | O => ⇑OutOfFuel
  | S rounds =>
      '(root, self) ← merger_next fuel self;
      match root with
      | None => mret []
      | Some root => roots ← pair_drain rounds self; mret (root :: roots)
      end
  end.

Lemma pair_drain_settles rounds self : pairing self ->
  (length (side_rest self Left) + length (side_rest self Right) < rounds)%nat ->
  settles fuel (fun roots => exists keys, merged column_on 2 (rest_on self) (as_group <$> roots) keys)
    (pair_drain rounds self).
Proof using left_sorted right_sorted.
  revert self. induction rounds as [|rounds IH]; intros self Hp Hr; cbn [pair_drain]; [lia|].
  eapply settles_bind; [by apply merger_next_settles|]. intros [[root|] self'] [Hp' Hg]; cbn [fst snd] in *.
  - destruct Hg as [k Hg]. eapply settles_bind; [apply IH; [done|]|].
    + enough (length (side_rest self' Left) + length (side_rest self' Right) <
        length (side_rest self Left) + length (side_rest self Right))%nat by lia.
      pose proof (next_taken _ _ _ _ _ _ Hg) as Ht.
      pose proof (Ht 0 ltac:(done)) as H0. pose proof (Ht 1 ltac:(done)) as H1. clear -H0 H1.
      unfold rest_on in H0, H1. cbn [side_of N.eqb] in H0, H1.
      assert (E0 : forall l r : option CanonicalRootRef, [l; r].[0] = l) by done.
      assert (E1 : forall l r : option CanonicalRootRef, [l; r].[1] = r) by done.
      destruct root; cbn [as_group] in H0, H1; rewrite E0 in H0; rewrite E1 in H1.
      * destruct H0 as (i&_&->). rewrite H1. cbn. lia.
      * destruct H1 as (i&_&->). rewrite H0. cbn. lia.
      * destruct H0 as (i&_&->), H1 as (j&_&->). cbn. lia.
    + intros roots [keys Hm]. apply settles_ret. exists (k :: keys). by eapply merged_step.
  - apply settles_ret. exists []. by apply merged_none.
Qed.
End pair.

(** ** The merge *)

(** [new] with its budget, and [while let Some(root) = merger.next()]. *)
Definition root_merge `{Layout} (fuel rounds : nat) (left right : DirectColumns) (limits : CanonicalMergeLimits)
    : Cx (list MergedCanonicalRoot * CanonicalBudget) :=
  '(merger, budget) ← root_merger_start fuel left right limits;
  pair_drain fuel rounds merger budget.

Lemma pair_canonical left right self groups keys :
  side_rest left right self Left = selected_roots left -> side_rest left right self Right = selected_roots right ->
  merged (fun t => columns_on left right (side_of t)) 2 (rest_on left right self) groups keys ->
  exists terms, canonical_groups [left; right] groups terms.
Proof.
  intros El Er Hg. eapply merged_canonical; [..|exact Hg]; [done| |].
  - intros t c Hc. pose proof (get_Some_lt _ _ _ Hc) as Ht. change (len [left; right]) with 2 in Ht.
    assert (t = 0 \/ t = 1) as [->| ->] by lia; by injection Hc as <-.
  - intros t _. unfold rest_on. by destruct (side_of t).
Qed.

Lemma root_merge_settles `{Layout} fuel rounds left right limits obs k :
  resident left -> resident right -> (N.to_nat limits.(max_work) < fuel)%nat ->
  (N.to_nat (selected_total [left; right]) < rounds)%nat ->
  match fst (root_merge fuel rounds left right limits obs k) with
  | Ok (roots, budget) => (exists terms, canonical_groups [left; right] (as_group <$> roots) terms) /\
      budget.(report).(work) <= limits.(max_work) /\
      budget.(report).(peak_workspace_bytes) <= limits.(max_workspace_bytes)
  | Err _ => True
  | Panic | OutOfFuel => False
  end.
Proof.
  intros Hl Hr Hfuel Hrounds.
  assert (Hm : settles fuel (fun roots => exists terms, canonical_groups [left; right] (as_group <$> roots) terms)
    (merger ← root_merger_new fuel left right; pair_drain fuel rounds merger)).
  { eapply settles_bind; [by apply root_merger_new_settles|]. intros self (Hp&Hsl&Hsr&El&Er).
    eapply settles_mono; [done| |apply (pair_drain_settles fuel left right Hsl Hsr); [done|]].
    - intros roots [keys Hg]. by eapply pair_canonical.
    - rewrite El, Er. unfold selected_total, sum in Hrounds. cbn [foldr] in Hrounds. unfold len in Hrounds. lia. }
  unfold root_merge, root_merger_start. destruct (budget_new_ok limits) as [[Hp Ho] Hb].
  unfold mbind, Cx_bind, lift. destruct (budget_new limits) as [budget|e| |]; try done.
  destruct (Hb budget eq_refl) as (Elim&Hs&Hw). destruct Hm as [Hret Hy].
  assert (Hleft : (work_left budget < fuel)%nat) by (unfold work_left; rewrite Elim, Hw, N.sub_0_r; done).
  specialize (Hret budget obs k Hs Hleft). specialize (Hy budget obs k).
  unfold mbind, Spend_bind, mbind, Cx_bind in Hret, Hy.
  destruct (root_merger_new fuel left right budget obs k) as [[[self b]|e| |] k']; try done.
  destruct (fst (pair_drain fuel rounds self b obs k')) as [[roots b']|e| |]; try done.
  destruct Hret as (El'&[Hw' _ Hp']&_). rewrite El', Elim in *. split; [by apply (Hy _ eq_refl)|done].
Qed.

(** ** Theorems *)

(** C24: The two-table merger ends within its limits, and what it returns is what
    the merger of any number of tables returns for the two tables: the same
    groups in the same order. *)
Theorem root_merge_equivalent `{Layout} fuel rounds left right limits obs k :
  resident left -> resident right -> (N.to_nat limits.(max_work) < fuel)%nat ->
  (N.to_nat (selected_total [left; right]) < rounds)%nat ->
  match fst (root_merge fuel rounds left right limits obs k) with
  | Ok (roots, budget) =>
      budget.(report).(work) <= limits.(max_work) /\
      budget.(report).(peak_workspace_bytes) <= limits.(max_workspace_bytes) /\
      forall fuel' rounds' limits' obs' k' groups budget',
        fst (kway_merge fuel' rounds' [left; right] limits' obs' k') = Ok (groups, budget') ->
        groups = as_group <$> roots
  | Err _ => True
  | Panic | OutOfFuel => False
  end.
Proof.
  intros Hl Hr Hfuel Hrounds. pose proof (root_merge_settles fuel rounds left right limits obs k Hl Hr Hfuel Hrounds) as Hm.
  destruct (fst _) as [[roots budget]|e| |]; try done. destruct Hm as ([terms Hg]&Hw&Hp).
  split; [done|]. split; [done|]. intros fuel' rounds' limits' obs' k' groups budget' E.
  destruct (kway_merge_groups fuel' rounds' [left; right] limits' obs' k' groups budget') as [terms' Hg']; [|done|].
  - apply Forall_cons. split; [done|]. by apply Forall_singleton.
  - by eapply canonical_groups_unique.
Qed.

(** C23: A node comparator that was built decides the canonical order: comparing a
    node of the left table with one of the right ends within the fuel that the
    work left allows, the result is the lexicographic order of the encodings of
    the terms the nodes stand for, and it is [Equal] exactly when the two nodes
    stand for the same term. *)
Theorem comparator_decides `{Layout} fuel left right budget obs k self budget' m n obs' k' :
  resident left -> resident right ->
  fst (comparator_new fuel left right budget obs k) = Ok (self, budget') ->
  solvent budget' -> (work_left budget' < fuel)%nat ->
  match fst (compare fuel self m n budget' obs' k') with
  | Ok ((ordering, _), _) => exists s t, denotes left m s /\ denotes right n t /\
      ordering = bytes_cmp (node_bytes s) (node_bytes t) /\ (ordering = Eq <-> s = t)
  | Err _ => True
  | Panic | OutOfFuel => False
  end.
Proof.
  intros Hl Hr E Hs Hleft.
  destruct (comparator_new_settles fuel left right Hl Hr) as [_ Hy]. apply Hy in E as (Hc&_&_). cbn [fst] in Hc.
  destruct (compare_sides_settles fuel left right Left Right self m n Hc) as [Hret Hord].
  specialize (Hret budget' obs' k' Hs Hleft). specialize (Hord budget' obs' k'). unfold compare.
  destruct (fst _) as [[[ordering self'] b]|e| |]; try done.
  destruct (Hord _ eq_refl) as [(bl&br&Hbl&Hbr&Ho) _]. cbn [fst columns_on] in *. subst ordering.
  apply encodes_denotes in Hbl as (s&Hds&Ps&Ns&->), Hbr as (t&Hdt&Pt&Nt&->).
  exists s, t. split; [done|]. split; [done|]. split; [done|]. rewrite (cmp_eq bytes_cmp).
  split; [by apply node_bytes_inj|by intros ->].
Qed.

(** ** Two tables merged, and one compared with itself *)

Definition merge_sample_pair (obs : nat -> N) := let _ := sample_layout in
  fst (root_merge (N.to_nat 20001) 20 sample peer_sample merge_limits obs 0%nat).

Lemma samples_resident : resident sample /\ resident peer_sample.
Proof. split; apply resident_of_small; by vm_compute. Qed.

Lemma root_merge_equivalent_witness :
  match merge_sample_pair quiet with
  | Ok (roots, budget) =>
      root_ids_of (as_group <$> roots) =
        [[Some 11; None]; [Some 12; None]; [Some 13; None]; [Some 14; Some 4]] /\
      budget.(report).(work) <= 20000 /\ budget.(report).(peak_workspace_bytes) <= 1000000 /\
      forall fuel' rounds' limits' obs' k' groups budget',
        fst (@kway_merge sample_layout fuel' rounds' [sample; peer_sample] limits' obs' k') = Ok (groups, budget') ->
        groups = as_group <$> roots
  | _ => False
  end.
Proof.
  assert (Hg : match merge_sample_pair quiet with
    | Ok (roots, _) => root_ids_of (as_group <$> roots) =
        [[Some 11; None]; [Some 12; None]; [Some 13; None]; [Some 14; Some 4]]
    | _ => False
    end) by (by vm_compute).
  destruct samples_resident as [Hl Hr].
  pose proof (@root_merge_equivalent sample_layout (N.to_nat 20001) 20 sample peer_sample
    merge_limits quiet 0%nat Hl Hr) as He.
  unfold merge_sample_pair in *. cbv zeta in *.
  destruct (fst (root_merge _ _ _ _ _ _ _)) as [[roots budget]|e| |]; [|done..].
  split; [done|]. apply He; [cbn [max_work merge_limits]; lia|vm_compute; lia].
Defined.

Definition fresh_budget : CanonicalBudget :=
  {| limits := merge_limits; report := CanonicalMergeReport_default |}.
Definition sample_comparator := let _ := sample_layout in
  fst (comparator_new (N.to_nat 20001) sample peer_sample fresh_budget quiet 0%nat).
Definition compare_samples m n : option comparison :=
  match sample_comparator with
  | Ok (self, budget) =>
      match fst (@compare sample_layout (N.to_nat 20001) self m n budget quiet 0%nat) with
      | Ok ((ordering, _), _) => Some ordering
      | _ => None
      end
  | _ => None
  end.

Lemma comparator_decides_witness :
  compare_samples 14 4 = Some Eq /\ compare_samples 13 4 = Some Lt /\ compare_samples 9 2 = Some Gt /\
  match sample_comparator with
  | Ok (self, budget) =>
      match fst (@compare sample_layout (N.to_nat 20001) self 14 4 budget quiet 0%nat) with
      | Ok ((ordering, _), _) => exists s t, denotes sample 14 s /\ denotes peer_sample 4 t /\
          ordering = bytes_cmp (node_bytes s) (node_bytes t) /\ (ordering = Eq <-> s = t)
      | Err _ => True
      | Panic | OutOfFuel => False
      end
  | _ => False
  end.
Proof.
  assert (Hs : match sample_comparator with Ok _ => True | _ => False end) by (by vm_compute).
  split; [by vm_compute|]. split; [by vm_compute|]. split; [by vm_compute|].
  destruct samples_resident as [Hl Hr].
  pose proof (proj1 (@comparator_new_settles sample_layout (N.to_nat 20001) sample peer_sample Hl Hr)
    fresh_budget quiet 0%nat) as Hn.
  unfold sample_comparator in *. cbv zeta in *.
  pose proof (@comparator_decides sample_layout (N.to_nat 20001) sample peer_sample fresh_budget quiet 0%nat) as Hc.
  destruct (fst (comparator_new _ _ _ _ _ _)) as [[self budget]|e| |]; [|done..].
  destruct Hn as (El&Hb&_); [by split|unfold work_left; cbn; lia|].
  apply (Hc self budget 14 4 quiet 0%nat Hl Hr eq_refl Hb).
  unfold work_left. rewrite El. cbn [fresh_budget limits merge_limits max_work]. lia.
Defined.
