(* ===== verification/Segmented.v ===== *)
(** * Where a local table is inserted

    The loop of [prepare_two_table_batches_uncommitted] over the merge of the
    base and the local table gives each root of the local table its place among
    the base's roots, and the place is the one the canonical order of their terms
    says. *)

From stdpp Require Import sorting.
From S2P Require Import Prelude Errors Partial Lists Tags Text Readers Columns Nodes Samples Generic Sort Stats Rules.
From S2P Require Import Structure Reach Validated Scopes Workspace Planning Roles Overlay Preparation LocalIndex Tail LocalRules.
From S2P Require Import Preflight Budget Encode Merge Assembly Segment Terms Lengths.
From S2P Require Import Ordering Groups Kway Returning Merging Join Joining Assembled Pairwise.
Local Open Scope string_scope.
Local Open Scope list_scope.
Local Open Scope N_scope.

(** ** The specification *)

(** A root of the local table: its index, the base scan position it is inserted
    at, and its position in the scan of both tables. *)
Record insertion := {
  inserted_root : usize;
  inserted_scan : usize;
  inserted_position : usize;
}.

(** The insertions of merged roots that start at a scan position of the base,
    after some roots of the local table. *)
Fixpoint insertions (scan unique : usize) (roots : list MergedCanonicalRoot) : list insertion :=
  match roots with
  | [] => []
  | MergedLeft root :: roots | MergedBoth root _ :: roots => insertions (root.(root_index) + 1) unique roots
  | MergedRight root :: roots =>
      {| inserted_root := root.(root_index); inserted_scan := scan; inserted_position := scan + unique |}
        :: insertions scan (unique + 1) roots
  end.

(** A root of one of the tables only. *)
Definition one_sided (root : MergedCanonicalRoot) : Prop :=
  match root with MergedBoth _ _ => False | _ => True end.

Abbreviation lefts roots := (roots_in 0 (as_group <$> roots)).
Abbreviation rights roots := (roots_in 1 (as_group <$> roots)).

Lemma insertions_rights scan unique roots : Forall one_sided roots ->
  inserted_root <$> insertions scan unique roots = root_index <$> rights roots.
Proof.
  intros Hall. revert scan unique. induction Hall as [|root roots Hr _ IH]; intros scan unique; [done|].
  destruct root; [exact (IH _ _)| |done]. cbn [insertions]. rewrite fmap_cons. by rewrite IH.
Qed.

(** The base scan position after some roots. *)
Fixpoint scan_after (scan : usize) (roots : list MergedCanonicalRoot) : usize :=
  match roots with
  | [] => scan
  | MergedLeft root :: roots | MergedBoth root _ :: roots => scan_after (root.(root_index) + 1) roots
  | MergedRight _ :: roots => scan_after scan roots
  end.

(** Each insertion is a root of the local table among the merged roots. *)
Lemma insertions_split scan unique roots n e : insertions scan unique roots !! n = Some e ->
  Forall one_sided roots ->
  exists before root after, roots = before ++ MergedRight root :: after /\
    length (rights before) = n /\ e.(inserted_root) = root.(root_index) /\
    e.(inserted_scan) = scan_after scan before /\
    e.(inserted_position) = e.(inserted_scan) + unique + N.of_nat n.
Proof.
  revert scan unique n. induction roots as [|root roots IH]; intros scan unique n He Hall; [done|].
  apply Forall_cons in Hall as [Hr Hall]. destruct root as [left|right|]; [| |done]; cbn [insertions] in He.
  - destruct (IH _ _ _ He Hall) as (before&r&after&->&Hn&Hrest). by exists (MergedLeft left :: before), r, after.
  - destruct n as [|n].
    + injection He as <-. exists [], right, roots. cbn. split; [done|]. split; [done|]. repeat split; lia.
    + destruct (IH _ _ _ He Hall) as (before&r&after&->&Hn&Hroot&Hscan&Hpos).
      exists (MergedRight right :: before), r, after. split; [done|]. split; [by rewrite <- Hn|].
      split; [done|]. split; [done|]. rewrite Hpos. lia.
Qed.

(** ** A root of the merge *)

Section scanning.
Context (options : DirectCompileOptions) (plan : SelectedRootRulePlan) (delta_root_count : usize).
Context (delta_rule : RootRule) (base_plan : SelectedRootRulePlan) (policy : CrossTableDuplicatePolicy).

Abbreviation emitting := (emitting_delta plan delta_root_count delta_rule).
Abbreviation step := (scan_root options policy plan delta_root_count delta_rule base_plan).

Lemma scan_annotation_only root s : ensures (fun s' => exists flag,
    s' = s <| base_selected_annotation_assertion := flag |>) (scan_annotation options base_plan root s).
Proof using Type. intros s' (annotation&_&[= <-])%bind_Ok. eauto. Qed.

(** The loop's counters agree, and so does what it has placed with the
    insertions of the roots it has met: [placed] holds the slots of the local
    roots met so far, [todo] the others. *)
Definition place_of (delta : OwnedOverlayDelta) : usize * usize :=
  (delta.(local_canonical_index), delta.(insertion_scan_index)).
Definition insertion_place (e : insertion) : usize * usize := (e.(inserted_root), e.(inserted_scan)).

Record scanned (roots : list MergedCanonicalRoot) (s s' : Scan) : Prop := {
  scanned_sided : Forall one_sided roots;
  scanned_left : s'.(left_roots) = s.(left_roots) + len (lefts roots);
  scanned_right : s'.(right_roots) = s.(right_roots) + len (rights roots);
  scanned_unique : s'.(unique_right_roots) = s.(unique_right_roots) + len (rights roots);
  scanned_deltas placed todo : emitting = true -> s.(overlay_plan) = placed ++ todo ->
    len placed = s.(next_right_plan_index) ->
    exists more rest, s'.(overlay_plan) = placed ++ more ++ rest /\ length todo = length (more ++ rest) /\
      place_of <$> more = insertion_place <$> insertions s.(base_scan_index) s.(unique_right_roots) roots;
  scanned_positions placed todo : emitting = false -> s.(insertion_positions) = placed ++ todo ->
    len placed = s.(next_right_plan_index) ->
    exists rest, s'.(insertion_positions) =
        placed ++ (Some ∘ inserted_position <$> insertions s.(base_scan_index) s.(unique_right_roots) roots) ++ rest;
  scanned_plan : if emitting then s'.(insertion_positions) = s.(insertion_positions)
                 else s'.(overlay_plan) = s.(overlay_plan);
}.

(** The scan position of both tables. *)
Definition aligned (s : Scan) : Prop :=
  s.(next_insertion_scan) = s.(base_scan_index) + s.(unique_right_roots) /\ s.(right_roots) = s.(unique_right_roots).

Lemma scan_left_step s root s' : scan_left options base_plan s root = Ok s' ->
  exists flag, s' = {| overlay_plan := s.(overlay_plan); insertion_positions := s.(insertion_positions);
    left_roots := s.(left_roots) + 1; right_roots := s.(right_roots); unique_right_roots := s.(unique_right_roots);
    deduplicated_right_roots := s.(deduplicated_right_roots);
    next_insertion_scan := root.(root_index) + 1 + s.(unique_right_roots);
    base_scan_index := root.(root_index) + 1; next_right_plan_index := s.(next_right_plan_index);
    base_selected_annotation_assertion := flag |}.
Proof using Type.
  intros (s1&[flag ->]%scan_annotation_only&H)%bind_Ok. apply bind_Ok in H as (left&[-> _]%ok_or_Ok%checked_add_Some&H).
  apply bind_Ok in H as (scan&Hscan&H). apply bind_Ok in H as (base&[-> _]%ok_or_Ok%checked_add_Some&[= <-]).
  apply ok_or_Ok, bind_Some in Hscan as (p&[-> _]%checked_add_Some&[-> _]%checked_add_Some). by exists flag.
Qed.

(** What a root of the local table places. *)
Definition placing (s : Scan) (root : CanonicalRootRef) (deltas : list OwnedOverlayDelta)
    (positions : list (option usize)) : Prop :=
  let at_plan := N.to_nat s.(next_right_plan_index) in
  if emitting then positions = s.(insertion_positions) /\
    exists delta, s.(overlay_plan) !! at_plan = Some delta /\ delta.(local_canonical_index) = root.(root_index) /\
      deltas = <[at_plan := {| projection := delta.(projection); insertion_scan_index := s.(base_scan_index);
                               local_canonical_index := delta.(local_canonical_index) |}]> s.(overlay_plan)
  else deltas = s.(overlay_plan) /\ s.(insertion_positions) !! at_plan = Some None /\
    positions = <[at_plan := Some s.(next_insertion_scan)]> s.(insertion_positions).

Lemma scan_right_step s root s' : scan_right plan delta_root_count delta_rule s root = Ok s' ->
  exists deltas positions, placing s root deltas positions /\
    s' = {| overlay_plan := deltas; insertion_positions := positions;
      left_roots := s.(left_roots); right_roots := s.(right_roots) + 1;
      unique_right_roots := s.(unique_right_roots) + 1; deduplicated_right_roots := s.(deduplicated_right_roots);
      next_insertion_scan := s.(next_insertion_scan) + 1; base_scan_index := s.(base_scan_index);
      next_right_plan_index := s.(next_right_plan_index) + 1;
      base_selected_annotation_assertion := s.(base_selected_annotation_assertion) |}.
Proof using Type.
  intros (s1&H1&H)%bind_Ok.
  assert (exists deltas positions, placing s root deltas positions /\
    s1 = s <| overlay_plan := deltas |> <| insertion_positions := positions |>) as (deltas&positions&Hplace&->).
  { unfold placing. destruct emitting.
    - unfold place_delta in H1. rewrite get_lookup in H1. destruct (_ !! _) as [delta|] eqn:Hget; [|done].
      destruct (N.eqb_spec delta.(local_canonical_index) root.(root_index)); [|done].
      destruct (_ =? usize_max); [|done]. injection H1 as <-. do 2 eexists. split; [split; [done|]|].
      + by exists delta.
      + by destruct s.
    - unfold place_position in H1. rewrite get_lookup in H1. destruct (_ !! _) as [[?|]|] eqn:Hget; [done| |done].
      injection H1 as <-. do 2 eexists. by split; [|destruct s]. }
  apply bind_Ok in H as (s2&H2&H). apply bind_Ok in H2 as (next&[-> _]%ok_or_Ok%checked_add_Some&[= <-]).
  apply bind_Ok in H as (right&[-> _]%ok_or_Ok%checked_add_Some&H).
  apply bind_Ok in H as (unique&[-> _]%ok_or_Ok%checked_add_Some&H).
  apply bind_Ok in H as (scan&[-> _]%ok_or_Ok%checked_add_Some&[= <-]). by exists deltas, positions.
Qed.

Lemma scan_both_rejects s left right s' : scan_both options policy plan delta_root_count delta_rule base_plan s left right = Ok s' ->
  False.
Proof using Type. intros (s1&_&H)%bind_Ok. by destruct policy. Qed.

Lemma rights_left root roots : rights (MergedLeft root :: roots) = rights roots.
Proof using Type. done. Qed.
Lemma rights_right root roots : rights (MergedRight root :: roots) = root :: rights roots.
Proof using Type. done. Qed.
Lemma lefts_left root roots : lefts (MergedLeft root :: roots) = root :: lefts roots.
Proof using Type. done. Qed.
Lemma lefts_right root roots : lefts (MergedRight root :: roots) = lefts roots.
Proof using Type. done. Qed.

(** The element at the end of a prefix. *)
Lemma insert_at_len {A} (placed todo : list A) i x y : len placed = i -> (placed ++ todo) !! N.to_nat i = Some x ->
  exists rest, todo = x :: rest /\ <[N.to_nat i := y]> (placed ++ todo) = (placed ++ [y]) ++ rest /\
    len (placed ++ [y]) = i + 1.
Proof using Type.
  intros <- Hx. assert (E : N.to_nat (len placed) = (length placed + 0)%nat) by (unfold len; lia).
  rewrite E in *. rewrite lookup_app_r, Nat.add_comm, Nat.add_sub in Hx by lia.
  destruct todo as [|z rest]; [done|]. injection Hx as ->. exists rest. split; [done|]. split.
  - rewrite insert_app_r, <- app_assoc. done.
  - by rewrite len_app.
Qed.

Lemma scanned_right_cons s root deltas positions roots s' : aligned s -> placing s root deltas positions ->
  scanned roots {| overlay_plan := deltas; insertion_positions := positions;
      left_roots := s.(left_roots); right_roots := s.(right_roots) + 1;
      unique_right_roots := s.(unique_right_roots) + 1; deduplicated_right_roots := s.(deduplicated_right_roots);
      next_insertion_scan := s.(next_insertion_scan) + 1; base_scan_index := s.(base_scan_index);
      next_right_plan_index := s.(next_right_plan_index) + 1;
      base_selected_annotation_assertion := s.(base_selected_annotation_assertion) |} s' ->
  scanned (MergedRight root :: roots) s s'.
Proof using Type.
  intros [Hscan _] Hplace [Hs Hl Hr Hu Hd Hp Hk]. cbn in Hl, Hr, Hu. unfold placing in Hplace.
  split; rewrite ?rights_right, ?lefts_right, ?len_cons; [by constructor|lia..| | |].
  - intros placed todo He Hplan Hlen. rewrite He in Hplace. destruct Hplace as (_&delta&Hget&Hroot&Hdeltas).
    rewrite Hplan in Hget, Hdeltas.
    destruct (insert_at_len placed todo _ delta {| projection := delta.(projection);
      insertion_scan_index := s.(base_scan_index); local_canonical_index := delta.(local_canonical_index) |} Hlen Hget)
      as (todo'&->&Hins&Hlen').
    rewrite Hins in Hdeltas. destruct (Hd _ _ He Hdeltas Hlen') as (more&rest&Hplan'&Htodo&Hplaces).
    eexists (_ :: more), rest. split; [rewrite Hplan', <- app_assoc; reflexivity|].
    split; [cbn; by rewrite Htodo|]. cbn. f_equal; [|exact Hplaces]. unfold place_of, insertion_place. cbn. congruence.
  - intros placed todo He Hpos Hlen. rewrite He in Hplace. destruct Hplace as (_&Hget&Hins).
    rewrite Hpos in Hget, Hins.
    destruct (insert_at_len placed todo _ None (Some s.(next_insertion_scan)) Hlen Hget) as (todo'&->&Hins'&Hlen').
    rewrite Hins' in Hins. destruct (Hp _ _ He Hins Hlen') as (rest&Hpos'). exists rest.
    rewrite Hpos', <- !app_assoc. cbn. by rewrite Hscan.
  - destruct emitting.
    + rewrite Hk. by destruct Hplace as [-> _].
    + rewrite Hk. by destruct Hplace as [-> _].
Qed.

Lemma scan_all roots s s' : aligned s -> foldM step s roots = Ok s' -> scanned roots s s' /\ aligned s'.
Proof using Type.
  revert s. induction roots as [|root roots IH]; intros s Ha H; cbn [foldM] in H.
  { injection H as <-. split; [|done]. split; [constructor|by rewrite N.add_0_r..| | |].
    - intros placed todo _ Hplan _. by exists [], todo.
    - intros placed todo _ Hpos _. by exists todo.
    - by destruct emitting. }
  apply bind_Ok in H as (s1&H1&H). destruct root as [root|root|left right]; cbn [scan_root] in H1.
  - apply scan_left_step in H1 as [flag ->]. destruct Ha as [Ha1 Ha2]. apply IH in H as [[Hs Hl Hr Hu Hd Hp Hk] Ha']; [|done].
    split; [|done]. cbn in Hl, Hr, Hu, Hd, Hp, Hk.
    split; rewrite ?rights_left, ?lefts_left, ?len_cons; [by constructor|lia..|exact Hd|exact Hp|exact Hk].
  - apply scan_right_step in H1 as (deltas&positions&Hplace&->). apply IH in H as [Hs Ha'].
    + split; [by eapply scanned_right_cons|done].
    + destruct Ha as [Ha1 Ha2]. split; cbn; lia.
  - by apply scan_both_rejects in H1.
Qed.
End scanning.

(** ** The loop *)

Section loop.
Context `{Layout} (fuel : nat) (base delta : DirectColumns) (options : DirectCompileOptions).
Context (policy : CrossTableDuplicatePolicy) (plan : SelectedRootRulePlan) (delta_root_count : usize).
Context (delta_rule : RootRule) (base_plan : SelectedRootRulePlan).

Abbreviation step := (scan_root options policy plan delta_root_count delta_rule base_plan).

Lemma scan_roots_spec rounds merger s : roots_sorted base -> roots_sorted delta -> pairing base delta merger ->
  yields (fun s' => exists roots keys,
      merged (fun t => columns_on base delta (side_of t)) 2 (rest_on base delta merger) (as_group <$> roots) keys /\
      foldM step s roots = Ok s')
    (scan_roots options policy plan delta_root_count delta_rule fuel rounds base_plan merger s).
Proof using Type.
  intros Hsb Hsd. revert merger s. induction rounds as [|rounds IH]; intros merger s Hp; cbn [scan_roots];
    [by apply yields_spared|].
  eapply yields_bind; [apply merger_next_settles; [exact Hsb|exact Hsd|exact Hp]|].
  intros [[root|] merger'] [Hp' Hg]; cbn [fst snd] in *.
  - destruct Hg as [k Hg]. apply yields_read. intros s1 Hstep. eapply yields_mono; [|by apply IH].
    intros s' (roots&keys&Hm&Hs). exists (root :: roots), (k :: keys). split; [by eapply merged_step|].
    cbn [foldM]. by rewrite Hstep.
  - apply yields_ret. exists [], []. split; [by apply merged_none|done].
Qed.

(** What the loop returns over the tables. *)
Definition scan_of (deltas : list OwnedOverlayDelta) (s : Scan) : Prop := exists roots terms report,
  canonical_groups [base; delta] (as_group <$> roots) terms /\ foldM step (scan_start deltas) roots = Ok s /\
  check_scan base plan delta_root_count delta_rule s report = Ok tt.

Lemma scan_tables_spec rounds limits deltas : resident base -> resident delta ->
  post (scan_of deltas)
    (scan_tables base delta options policy plan delta_root_count delta_rule fuel rounds limits base_plan deltas).
Proof using Type.
  intros Hb Hd. unfold scan_tables, root_merger_start. apply (post_bind (fun r : CanonicalRootMerger * CanonicalBudget =>
    pairing base delta r.1 /\ roots_sorted base /\ roots_sorted delta /\
    side_rest base delta r.1 Left = selected_roots base /\ side_rest base delta r.1 Right = selected_roots delta)).
  { skip_step. apply root_merger_new_settles; done. }
  intros [merger budget] (Hp&Hsb&Hsd&El&Er). cbn [fst] in *.
  eapply post_bind; [exact (scan_roots_spec rounds merger (scan_start deltas) Hsb Hsd Hp budget)|].
  intros [s budget'] (roots&keys&Hm&Hs). eapply post_bind; [apply post_lift, ensures_self|]. intros [] Hcheck.
  apply post_ret. destruct (pair_canonical base delta merger (as_group <$> roots) keys El Er Hm) as [terms Hg].
  by exists roots, terms, budget'.(report).
Qed.
End loop.

(** ** The order of the terms *)

(** The kind and the term of a root. *)
Definition root_term (c : DirectColumns) (i : usize) (k : u8 * Term) : Prop :=
  exists root, root_ref c i = Ok root /\ stands_for c root k.

(** The selected roots of the base before the scan position have smaller terms
    than the root of the local table, the others greater ones. *)
Definition inserted_at (base delta : DirectColumns) (j scan : usize) : Prop :=
  exists k', root_term delta j k' /\
    forall i, i ∈ selected_roots base ->
      exists k, root_term base i k /\ if i <? scan then term_lt k k' else term_lt k' k.

Lemma scan_after_bounds scan before : StronglySorted N.lt (root_index <$> lefts before) ->
  (forall root, root ∈ lefts before -> scan <= root.(root_index)) ->
  scan <= scan_after scan before /\
  (forall root, root ∈ lefts before -> root.(root_index) < scan_after scan before) /\
  forall x, scan <= x -> (forall root, root ∈ lefts before -> root.(root_index) < x) -> scan_after scan before <= x.
Proof.
  revert scan. induction before as [|root before IH]; intros scan Hs Hle.
  { split; [cbn; lia|]. split; [by intros root ?%elem_of_nil|done]. }
  destruct root as [left|right|left right]; cbn [scan_after]; [|exact (IH scan Hs Hle)|].
  all: change (lefts (_ :: before)) with (left :: lefts before) in *; rewrite fmap_cons in Hs;
    apply StronglySorted_inv in Hs as [Hs Hhead]; rewrite Forall_fmap, Forall_forall in Hhead;
    destruct (IH (left.(root_index) + 1)) as (Hge&Hlt&Hmax);
    [done|intros root Hr; specialize (Hhead root Hr); cbn in Hhead; lia|];
    pose proof (Hle left ltac:(by left)); (split; [lia|]); split;
    [intros root [->|Hr]%elem_of_cons; [lia|by apply Hlt]|];
    intros x Hx Hall; (apply Hmax; [pose proof (Hall left ltac:(by left)); lia|]); intros root Hr; apply Hall; by right.
Qed.

(** A group of some roots, with its term. *)
Lemma groups_stand_in columns groups terms t c root : Forall2 (fun group k =>
    len group = len columns /\ (exists t root, get group t = Some (Some root)) /\
    forall t c root, get columns t = Some c -> get group t = Some (Some root) -> stands_for c root k) groups terms ->
  get columns t = Some c -> root ∈ roots_in t groups -> exists k, k ∈ terms /\ stands_for c root k.
Proof.
  intros Hst Hc (group&[n Hn]%list_elem_of_lookup&Hroot)%elem_of_roots_in.
  destruct (Forall2_lookup_l _ _ _ _ _ Hst Hn) as (k&Hk&Hl&_&Hstand). exists k.
  split; [by eapply list_elem_of_lookup_2|]. apply (Hstand t); [done|]. rewrite get_total, Hroot; [done|].
  rewrite Hl. by apply get_Some_lt in Hc.
Qed.

Lemma root_ref_index c i root : root_ref c i = Ok root -> root.(root_index) = i.
Proof. by intros (kind&_&(node&_&[= <-])%bind_Ok)%bind_Ok. Qed.

(** The roots of a table in the groups are its selected roots, in order. *)
Lemma groups_indices columns groups terms t c : canonical_groups columns groups terms -> get columns t = Some c ->
  root_index <$> roots_in t groups = selected_roots c.
Proof.
  intros Hg Hc. pose proof (groups_roots _ _ _ Hg t c Hc) as Hr. clear Hg. induction Hr as [|i root l k Hi _ IH]; [done|].
  rewrite fmap_cons, IH. by rewrite (root_ref_index _ _ _ Hi).
Qed.

Lemma selected_sorted c : StronglySorted N.lt (selected_roots c).
Proof. apply filter_sorted, range_sorted. Qed.

Lemma roots_in_app t groups groups' : roots_in t (groups ++ groups') = roots_in t groups ++ roots_in t groups'.
Proof. apply omap_app. Qed.

Section inserted.
Context (base delta : DirectColumns) (roots : list MergedCanonicalRoot) (terms : list (u8 * Term)).
Context (groups : canonical_groups [base; delta] (as_group <$> roots) terms) (sided : Forall one_sided roots).

(** A root on either side of the insertion. *)
Lemma root_around before root after i : roots = before ++ MergedRight root :: after -> i ∈ selected_roots base ->
  (exists r, r ∈ lefts before /\ root_ref base i = Ok r) \/ (exists r, r ∈ lefts after /\ root_ref base i = Ok r).
Proof using groups.
  intros Hroots [p Hp]%list_elem_of_lookup. pose proof (groups_roots _ _ _ groups 0 base eq_refl) as Hr.
  destruct (Forall2_lookup_l _ _ _ _ _ Hr Hp) as (r&Hin%list_elem_of_lookup_2&Href).
  rewrite Hroots, fmap_app, fmap_cons, roots_in_app in Hin. apply elem_of_app in Hin as [Hin|Hin]; [by left; exists r|].
  right. by exists r.
Qed.

Lemma insertion_correct n e : insertions 0 0 roots !! n = Some e ->
  inserted_at base delta e.(inserted_root) e.(inserted_scan) /\
  selected_roots delta !! n = Some e.(inserted_root) /\ e.(inserted_position) = e.(inserted_scan) + N.of_nat n.
Proof using groups sided.
  intros He. destruct (insertions_split _ _ _ _ _ He sided) as (before&root&after&Hroots&Hn&Hroot&Hscan&Hpos).
  assert (Hrights : rights roots !! n = Some root).
  { rewrite Hroots, fmap_app, fmap_cons, roots_in_app, lookup_app_r by lia. rewrite Hn, Nat.sub_diag. done. }
  split; [|split; [|lia]]; cycle 1.
  { rewrite <- (groups_indices _ _ _ 1 delta groups eq_refl), list_lookup_fmap, Hrights. by rewrite Hroot. }
  pose proof (groups_stand _ _ _ groups) as Hst. pose proof (groups_sorted _ _ _ groups) as Hsorted.
  rewrite Hroots, fmap_app, fmap_cons in Hst. apply Forall2_app_inv_l in Hst as (tb&ta&Hb&Ha&Hterms).
  apply Forall2_cons_inv_l in Ha as (k'&ta'&(_&_&Hk')&Ha&->). rewrite Hterms in Hsorted. exists k'. split.
  { exists root. split; [|by apply (Hk' 1 delta)]. rewrite Hroot.
    pose proof (groups_roots _ _ _ groups 1 delta eq_refl) as Hr.
    destruct (Forall2_lookup_r _ _ _ _ _ Hr Hrights) as (j&_&Href). by rewrite (root_ref_index _ _ _ Href). }
  pose proof (selected_sorted base) as Hs. rewrite <- (groups_indices _ _ _ 0 base groups eq_refl) in Hs.
  rewrite Hroots, fmap_app, fmap_cons, roots_in_app, fmap_app in Hs.
  destruct (scan_after_bounds 0 before) as (_&Hlt&Hmax).
  { by apply StronglySorted_app_1_l in Hs. }
  { lia. }
  intros i Hi. destruct (root_around before root after i Hroots Hi) as [(r&Hr&Href)|(r&Hr&Href)].
  - destruct (groups_stand_in _ _ _ 0 base r Hb eq_refl Hr) as (k&Hk&Hstand). exists k. split; [by exists r|].
    rewrite Hscan. specialize (Hlt r Hr). rewrite (root_ref_index _ _ _ Href) in Hlt.
    rewrite (proj2 (N.ltb_lt _ _) Hlt). eapply StronglySorted_app_1_elem_of; [exact Hsorted|done|by left].
  - destruct (groups_stand_in _ _ _ 0 base r Ha eq_refl Hr) as (k&Hk&Hstand). exists k. split; [by exists r|].
    rewrite Hscan. assert (Hge : scan_after 0 before <= i).
    { apply Hmax; [lia|]. intros r' Hr'. rewrite <- (root_ref_index _ _ _ Href).
      apply (StronglySorted_app_1_elem_of N.lt _ _ _ _ Hs); by apply list_elem_of_fmap_2. }
    rewrite (proj2 (N.ltb_ge _ _) Hge). apply StronglySorted_app_1_r, StronglySorted_inv in Hsorted as [_ Hall].
    rewrite Forall_forall in Hall. by apply Hall.
Qed.
End inserted.

(** ** The parts of the preparation *)

Section parts.
Context `{LowercaseTable} (base delta : DirectColumns) (options : DirectCompileOptions) (retained : option RoleState).
Context (plan : SelectedRootRulePlan) (count : usize) (delta_rule : RootRule).

Abbreviation emitting := (emitting_delta plan count delta_rule).

Lemma emitting_deltas_length :
  yields (fun deltas => if emitting then len deltas = count else deltas = []) (emitting_deltas delta plan count delta_rule).
Proof using Type.
  unfold emitting_deltas. destruct emitting; cbn [negb]; [|by apply yields_ret].
  apply yields_then. intros _. apply yields_then. intros deltas.
  destruct (N.eqb_spec (len deltas) count); [by apply yields_ret|by apply yields_error].
Qed.

Lemma same_property_both classes : length classes = 2%nat -> same_property classes = Ok tt ->
  exists a b, classes = [Some a; Some b].
Proof using Type.
  destruct classes as [|x [|y [|z classes]]]; try done. intros _ (domain&Hd%ok_or_Ok&Hr)%bind_Ok.
  apply bind_Ok in Hr as (range&Hr%ok_or_Ok&_). unfold of_kind in *.
  destruct x as [a|], y as [b|]; cbn in Hd, Hr; [by exists a, b|..]; try done;
    destruct (local_kind _); done.
Qed.

(** The slots of a delta that is not a pair are empty. *)
Lemma class_slots_shape : post (fun slots => if paired_object_property_class plan count
    then exists a b, slots.2 = [Some a; Some b] else slots.2 = [None; None])
  (class_slots delta options plan count delta_rule).
Proof using Type.
  unfold class_slots. destruct (paired_object_property_class _ _); cbn [negb]; [|by apply post_ret].
  apply (post_bind (fun st : (list (option ObjectPropertyClassRulePlan) * list (option OwnedLocalObjectPropertyClass))
    * usize => length st.1.2 = 2%nat)).
  { apply post_foldM; [done|]. intros [[rules classes] selected] i _ Hl. unfold own_paired_step.
    skip_step. eapply post_bind; [apply post_trivial|]. intros chosen _.
    destruct (negb chosen); [by apply post_ret|]. do 2 skip_step. destruct (negb _); [by apply post_lift|].
    skip_step. destruct (shape_at plan i) as [[]|]; try (by apply post_lift).
    do 2 skip_step. destruct (_ || _); [by apply post_lift|]. do 2 skip_step. apply post_ret. cbn in *.
    by rewrite length_insert. }
  intros [[rules classes] selected] Hl. destruct (negb _); [by apply post_lift|].
  eapply post_bind; [apply post_lift, ensures_self|]. intros [] Hsame. apply post_ret. by apply same_property_both.
Qed.

Lemma silent_delta_aggregate index root : aggregate_or_emitting_delta plan count delta_rule = true ->
  post (fun r => r = (None, None)) (silent_delta delta options plan count index root delta_rule).
Proof using Type. intros Ha. unfold silent_delta. rewrite Ha. by apply post_ret. Qed.

(** Two slots, filled from the first. *)
Definition slot_shape (classes : list (option OwnedLocalObjectPropertyClass)) (n : usize) : Prop :=
  (n = 0 /\ classes = [None; None]) \/ (n = 1 /\ exists a, classes = [Some a; None]) \/
  (n = 2 /\ exists a b, classes = [Some a; Some b]).

(** The local domains and ranges are at the positions of their roots. *)
Definition positioned (positions : list (option usize)) (classes : list OwnedLocalObjectPropertyClass) : Prop :=
  forall i local, classes !! i = Some local -> positions !! i = Some (Some local.(insertion_position)).

Lemma place_classes_positions s classes n : slot_shape classes n ->
  yields (fun placed => len placed = n /\ positioned s.(insertion_positions) placed) (place_classes s classes).
Proof using Type.
  intros Hshape. unfold place_classes.
  eapply (yields_bind (fun st => slot_shape st.1 n /\
    forall i local, st.1 !! i = Some (Some local) -> s.(insertion_positions) !! i = Some (Some local.(insertion_position)))).
  { apply yields_spared. intros [placed slot] Hfold.
    assert (Hstep : forall d j local d' j', place_class s (d, j) local = Ok (d', j') -> j' = j + 1 /\
      exists x, d' = d ++ [x] /\ (x = None <-> local = None) /\ forall local', x = Some local' ->
        s.(insertion_positions) !! N.to_nat j = Some (Some local'.(insertion_position))).
    { intros d j [local|] d' j' E; cbn in E; [|injection E as <- <-; split; [done|]; by exists None].
      apply bind_Ok in E as (p&Hp%index_Ok&E). apply bind_Ok in E as (q&Hq%ok_or_Ok&[= <- <-]). split; [done|].
      eexists. split; [done|]. split; [done|]. intros local' [= <-]. subst p. by rewrite get_lookup in Hp. }
    assert (Htwo : exists x y, classes = [x; y]) by (destruct Hshape as [[_ ->]|[(_&a&->)|(_&a&b&->)]]; eauto).
    destruct Htwo as (x&y&->). cbn [foldM] in Hfold. apply bind_Ok in Hfold as ([d j]&H1&H2).
    apply bind_Ok in H2 as ([d' j']&H2&[= <- <-]).
    apply Hstep in H1 as (->&x'&->&Hx&Hpx). apply Hstep in H2 as (->&y'&->&Hy&Hpy). cbn. split.
    - destruct Hshape as [[-> [= -> ->]]|[(->&a&[= -> ->])|(->&a&b&[= -> ->])]].
      + left. rewrite (proj2 Hx eq_refl), (proj2 Hy eq_refl). done.
      + right; left. rewrite (proj2 Hy eq_refl). destruct x' as [a'|]; [by split; [|exists a']|].
        by specialize (proj1 Hx eq_refl).
      + right; right. destruct x' as [a'|]; [|by specialize (proj1 Hx eq_refl)].
        destruct y' as [b'|]; [|by specialize (proj1 Hy eq_refl)]. split; [done|]. by exists a', b'.
    - intros [|[|i]] local Hi; cbn in Hi; [| |done]; injection Hi as ->; [by apply Hpx|by apply Hpy]. }
  intros [placed slot] [Hplaced Hpos]. cbn in Hplaced, Hpos. apply yields_then. intros _.
  apply yields_uncharged. intros obs k prepared Hrun.
  assert (Hp : prepared = omap id placed).
  { revert obs k prepared Hrun. apply (fun P => P : post (fun prepared => prepared = omap id placed) _).
    unfold enumerate_checked. eapply (post_bind (fun st => st.1 = omap id placed)); [|by intros [l i] E; apply post_ret].
    apply (post_foldM_ind (fun d st => st.1 = omap id d)); [done|]. intros d x rest [l i] _ E. skip_step.
    eapply (post_bind (fun l' => l' = l ++ option_list x)); [apply post_ret; destruct x; cbn; by rewrite ?app_nil_r|].
    intros l' ->. apply post_ret. cbn in *. subst l. rewrite omap_app. by destruct x. }
  subst prepared. unfold positioned.
  destruct Hplaced as [[-> ->]|[(->&a&->)|(->&a&b&->)]]; cbn.
  - done.
  - split; [done|]. intros [|i] local Hi; [|done]. injection Hi as ->. by apply (Hpos 0%nat).
  - split; [done|]. intros [|[|i]] local Hi; [..|done]; injection Hi as ->; [by apply (Hpos 0%nat)|by apply (Hpos 1%nat)].
Qed.
End parts.

(** ** The whole *)

Lemma prepare_with_base_keeps `{LowercaseTable} base options retained plan axiom classes :
  yields (fun P => selected_root_count base = Ok P.(statistics).(Stats.roots) /\
      P.(local_object_property_classes) = classes)
    (prepare_with_base base options retained plan axiom classes).
Proof.
  unfold prepare_with_base. eapply yields_bind; [apply yields_uncharged, prepare_direct_roots|]. intros P HP.
  eapply yields_mono; [|apply local_index_keeps]. intros P' (Hs&_&Hc). rewrite Hs, Hc. by split.
Qed.

(** An update of a counter that is not the one of the roots. *)
Lemma add_to_roots s counter amount message (set : usize -> Stats.DirectCompileStats) :
  (forall value, (set value).(Stats.roots) = s) -> ensures (fun s' => s'.(Stats.roots) = s) (add_to counter amount message set).
Proof. intros Hset s' (value&_&[= <-])%bind_Ok. apply Hset. Qed.

Lemma bump_roots s counter message (set : usize -> Stats.DirectCompileStats) :
  (forall value, (set value).(Stats.roots) = s) -> ensures (fun s' => s'.(Stats.roots) = s) (bump counter message set).
Proof. intros Hset s' (value&_&[= <-])%bind_Ok. apply Hset. Qed.

Section statistics.
Context (options : DirectCompileOptions) (plan : SelectedRootRulePlan) (count : usize) (delta_rule : RootRule).

Lemma apply_class_statistics_roots rule s : ensures (roots_kept s) (apply_class_statistics rule s).
Proof using Type.
  intros s' (s1&<-%increment_statistics_roots&E)%bind_Ok. destruct (_ && _); [|by injection E as <-].
  destruct (class_rule_kind rule); by apply (bump_roots s1.(Stats.roots)) in E.
Qed.

Lemma silent_statistics_roots rules s :
  ensures (roots_kept s) (silent_statistics options plan count delta_rule rules s).
Proof using Type.
  intros s' E. unfold silent_statistics in E. destruct (emitting_delta _ _ _); [by injection E as <-|].
  destruct (local_annotation_rule _) as [rule|].
  { unfold apply_annotation_statistics in E. destruct (negb _); [by injection E as <-|].
    apply bind_Ok in E as (s1&<-%increment_statistics_roots&E). destruct (annotation_rule_kind rule); [by injection E as <-|].
    by apply (bump_roots s1.(Stats.roots)) in E. }
  destruct (omap id rules) as [|rule rest]; cycle 1.
  { revert E. apply (fun Q => Q : ensures (roots_kept s) _). apply ensures_foldM; [done|].
    intros s1 r H1 s2 H2%apply_class_statistics_roots. congruence. }
  destruct (local_role_rule _ _) as [rule|].
  - unfold apply_role_statistics in E. apply bind_Ok in E as (s1&E1&E).
    assert (Hs : s1.(Stats.roots) = s.(Stats.roots)).
    { destruct (retain_constructor_counter rule); [by apply increment_statistics_roots in E1|by injection E1 as <-]. }
    rewrite <- Hs. destruct (retain_chain_counter rule); [|by injection E as <-]. by apply (bump_roots s1.(Stats.roots)) in E.
  - apply bind_Ok in E as (s1&<-%apply_statistics_roots&E). unfold bump_ignored in E. apply bind_Ok in E as (s2&E2&E).
    assert (Hs : s2.(Stats.roots) = s1.(Stats.roots)).
    { destruct (silent_ignored_class_handler _ _) as [[]|]; try (by injection E2 as <-);
        by apply (bump_roots s1.(Stats.roots)) in E2. }
    rewrite <- Hs. destruct (_ && _); [|by injection E as <-]. by apply (bump_roots s2.(Stats.roots)) in E.
Qed.

Lemma segment_statistics_roots delta unique deltas rules role_edges additional expansion projected s :
  post (fun s' => s'.(Stats.roots) = s.(Stats.roots) + unique)
    (segment_statistics delta options plan count delta_rule unique deltas rules role_edges additional expansion projected s).
Proof using Type.
  unfold segment_statistics. cbn zeta.
  eapply (post_bind (fun s' => s'.(Stats.roots) = s.(Stats.roots) + unique)).
  { apply post_lift. intros s' (n&[-> _]%ok_or_Ok%checked_add_Some&[= <-])%bind_Ok. done. }
  intros s1 <-.
  eapply post_bind; [apply post_lift, (add_to_roots s1.(Stats.roots)); reflexivity|]. intros s2 <-.
  eapply (post_bind (roots_kept s2)).
  { apply enumerate_checked_keeps; [done|]. intros s3 d H3. apply post_lift.
    intros s4 H4%apply_delta_statistics_roots. congruence. }
  intros s3 <-. eapply post_bind; [apply post_lift, (add_to_roots s3.(Stats.roots)); reflexivity|]. intros s4 <-.
  eapply post_bind; [apply post_lift, silent_statistics_roots|]. intros s5 <-.
  eapply post_bind; [apply post_lift, (add_to_roots s5.(Stats.roots)); reflexivity|]. intros s6 <-.
  eapply post_bind; [apply post_lift, (add_to_roots s6.(Stats.roots)); reflexivity|]. intros s7 <-.
  skip_step. apply post_lift, (add_to_roots s7.(Stats.roots)). reflexivity.
Qed.

Lemma add_segment_keeps delta prepared unique deltas rules :
  post (fun P => P.(statistics).(Stats.roots) = prepared.(statistics).(Stats.roots) + unique /\
      P.(overlay_deltas) = deltas /\ P.(local_object_property_classes) = prepared.(local_object_property_classes))
    (add_segment delta options plan count delta_rule prepared unique deltas rules).
Proof using Type.
  unfold add_segment. eapply post_bind; [apply post_trivial|]. intros [edges roles] _.
  eapply post_bind; [apply post_trivial|]. intros [[additional expanded] expansion] _. skip_step.
  eapply post_bind; [apply segment_statistics_roots|]. intros s Hs. by apply post_ret.
Qed.
End statistics.

Lemma insertions_scan scan unique roots e : e ∈ insertions scan unique roots ->
  e.(inserted_scan) = scan \/ exists root, root ∈ lefts roots /\ e.(inserted_scan) = root.(root_index) + 1.
Proof.
  revert scan unique. induction roots as [|[root|root|root right] roots IH]; intros scan unique He; cbn [insertions] in He.
  { by apply elem_of_nil in He. }
  2: apply elem_of_cons in He as [->|He]; [by left|exact (IH _ _ He)].
  all: right; apply IH in He as [->|(r&Hr&->)]; [exists root; split; [by left|done]|exists r; split; [by right|done]].
Qed.

Lemma check_scan_Ok base plan count delta_rule s report : check_scan base plan count delta_rule s report = Ok tt ->
  s.(right_roots) = count /\ selected_root_count base = Ok s.(left_roots).
Proof.
  unfold check_scan. intros (lost&_&E)%bind_Ok. destruct (_ || _) eqn:Hor; [done|].
  rewrite !orb_false_iff, !negb_false_iff, !N.eqb_eq in Hor. destruct Hor as [[Hright _] _]. split; [done|].
  apply bind_Ok in E as (selected&Hsel&E). destruct (N.eqb_spec s.(left_roots) selected) as [->|]; done.
Qed.

(** What the preparation of a local table promises. *)
Record overlaid (base delta : DirectColumns) (P : DirectPreparation) : Prop := {
  overlaid_roots : P.(statistics).(Stats.roots) = len (selected_roots base) + root_count delta;
  overlaid_deltas d : d ∈ P.(overlay_deltas) ->
    inserted_at base delta d.(local_canonical_index) d.(insertion_scan_index);
  overlaid_all : (P.(overlay_deltas) = [] /\ root_count delta <= 2) \/
    local_canonical_index <$> P.(overlay_deltas) ≡ₚ range 0 (root_count delta);
  overlaid_classes i local : get P.(local_object_property_classes) i = Some local -> exists scan,
    inserted_at base delta i scan /\ local.(insertion_position) = scan + i;
}.

Section whole.
Context (base delta : DirectColumns) (Hbase : resident base) (Hdelta : resident delta).
Context (all_selected : selected_roots delta = range 0 (root_count delta)).

Section merged_roots.
Context (options : DirectCompileOptions) (policy : CrossTableDuplicatePolicy) (plan : SelectedRootRulePlan).
Context (delta_rule : RootRule) (base_plan : SelectedRootRulePlan) (deltas : list OwnedOverlayDelta) (s : Scan).

Abbreviation count := (root_count delta).
Abbreviation emitting := (emitting_delta plan count delta_rule).

Context (owned : if emitting then len deltas = count else deltas = []).
Context (spec : scan_of base delta options policy plan count delta_rule base_plan deltas s).

(** What the loop has placed when it ends. *)
Record placed_all (ins : list insertion) : Prop := {
  placed_insertions n e : ins !! n = Some e -> inserted_at base delta e.(inserted_root) e.(inserted_scan) /\
    e.(inserted_root) = N.of_nat n /\ e.(inserted_position) = e.(inserted_scan) + N.of_nat n;
  placed_count : len ins = count;
  placed_unique : s.(unique_right_roots) = count;
  placed_base : selected_root_count base = Ok (len (selected_roots base));
  placed_kept e : e ∈ ins -> e.(inserted_scan) <> DEDUPLICATED_OVERLAY_SCAN_INDEX;
  placed_plan : if emitting then place_of <$> s.(overlay_plan) = insertion_place <$> ins
    else s.(overlay_plan) = [] /\ exists rest, s.(insertion_positions) = (Some ∘ inserted_position <$> ins) ++ rest;
}.

Lemma scan_places : exists ins, placed_all ins.
Proof using Hbase all_selected owned spec.
  destruct spec as (roots&terms&report&Hg&Hscan&Hcheck). apply scan_all in Hscan as [Hs [_ Ha]]; [|done].
  destruct Hs as [Hsided Hl Hr Hu Hd Hp Hk]. cbn in Hl, Hr, Hu, Hd, Hp, Hk.
  apply check_scan_Ok in Hcheck as [Hright Hsel]. exists (insertions 0 0 roots).
  assert (Hrights : len (rights roots) = count) by lia.
  assert (Hlen : len (insertions 0 0 roots) = count).
  { rewrite <- Hrights. unfold len. f_equal. rewrite <- (length_fmap inserted_root), insertions_rights by done. apply length_fmap. }
  split; [|done|lia|..].
  - intros n e He. destruct (insertion_correct base delta roots terms Hg Hsided n e He) as (Hat&Hroot&Hpos).
    split; [done|]. split; [|done]. rewrite all_selected in Hroot. unfold range in Hroot.
    pose proof (lookup_lt_Some _ _ _ Hroot) as Hlt. rewrite length_range_from in Hlt.
    rewrite range_from_lookup in Hroot by done. injection Hroot as <-. lia.
  - rewrite Hsel, Hl. f_equal. rewrite <- (groups_indices _ _ _ 0 base Hg eq_refl). unfold len. by rewrite length_fmap.
  - intros e He. apply insertions_scan in He as [->|(root&Hroot&->)]; [done|].
    pose proof (groups_roots _ _ _ Hg 0 base eq_refl) as Hroots.
    apply list_elem_of_lookup in Hroot as [n Hn].
    destruct (Forall2_lookup_r _ _ _ _ _ Hroots Hn) as (i&_&Href).
    pose proof (root_ref_bounded _ _ _ Hbase Href). lia.
  - destruct emitting eqn:He.
    + destruct (Hd [] deltas eq_refl eq_refl eq_refl) as (more&rest&Hplan&Hdl&Hmore). rewrite Hplan. cbn.
      enough (rest = []) as -> by by rewrite app_nil_r. apply length_zero_iff_nil.
      apply (f_equal length) in Hmore. rewrite !length_fmap in Hmore. rewrite length_app in Hdl.
      unfold len in Hlen, owned. lia.
    + split; [congruence|]. exact (Hp [] _ eq_refl eq_refl eq_refl).
Qed.

Lemma place_scan_fmap (plan' : list OwnedOverlayDelta) ins : place_of <$> plan' = insertion_place <$> ins ->
  forall n d, plan' !! n = Some d -> exists e, ins !! n = Some e /\ d.(local_canonical_index) = e.(inserted_root) /\
    d.(insertion_scan_index) = e.(inserted_scan).
Proof using Type.
  intros E n d Hn. assert (Hl : (place_of <$> plan') !! n = Some (place_of d)) by (by rewrite list_lookup_fmap, Hn).
  rewrite E, list_lookup_fmap in Hl. destruct (ins !! n) as [e|]; [|done]. injection Hl as H1 H2. by exists e.
Qed.

Lemma retained_deltas_correct ins : placed_all ins ->
  post (fun kept => (forall d, d ∈ kept -> inserted_at base delta d.(local_canonical_index) d.(insertion_scan_index)) /\
      if emitting then local_canonical_index <$> kept ≡ₚ range 0 count else kept = []) (retained_deltas s).
Proof using Hdelta.
  clear owned spec. intros [Hins Hcount _ _ Hkept Hplan]. unfold retained_deltas.
  assert (Hsmall : len s.(overlay_plan) <= usize_max /\ List.filter kept_delta s.(overlay_plan) = s.(overlay_plan) /\
    (forall d, d ∈ s.(overlay_plan) -> inserted_at base delta d.(local_canonical_index) d.(insertion_scan_index)) /\
    if emitting then local_canonical_index <$> s.(overlay_plan) = range 0 count else s.(overlay_plan) = []).
  { destruct emitting; [|destruct Hplan as [-> _]; split; [by vm_compute|]; split; [done|]; split; [by intros d ?%elem_of_nil|done]].
    pose proof (place_scan_fmap _ _ Hplan) as Hd.
    assert (Hl : len s.(overlay_plan) = count).
    { rewrite <- Hcount. apply (f_equal length) in Hplan. rewrite !length_fmap in Hplan. unfold len. lia. }
    split; [rewrite Hl; apply Hdelta|]. split; [|split].
    - apply List.forallb_filter_id, List.forallb_forall. intros d [n Hn]%list_elem_of_In%list_elem_of_lookup. destruct (Hd n d Hn) as (e&He&_&Hscan).
      unfold kept_delta. rewrite Hscan. apply negb_true_iff, N.eqb_neq, Hkept. by eapply list_elem_of_lookup_2.
    - intros d [n Hn]%list_elem_of_lookup. destruct (Hd n d Hn) as (e&He&Hroot&Hscan).
      rewrite Hroot, Hscan. by eapply Hins.
    - apply list_eq. intros n. rewrite list_lookup_fmap. unfold range. rewrite N.sub_0_r.
      destruct (s.(overlay_plan) !! n) as [d|] eqn:Hn.
      + pose proof (lookup_lt_Some _ _ _ Hn). unfold len in Hl. rewrite range_from_lookup by lia.
        destruct (Hd n d Hn) as (e&He&Hroot&_). cbn. rewrite Hroot. destruct (Hins n e He) as (_&->&_). f_equal.
      + symmetry. apply lookup_ge_None_2. rewrite length_range_from. apply lookup_ge_None_1 in Hn. unfold len in Hl. lia. }
  destruct Hsmall as (Hs&Hfilter&Hat&Hall).
  eapply post_bind; [apply post_transparent, cancellable_retain_transparent|]. intros kept Hretain.
  rewrite retain_correct, Hfilter in Hretain by done. injection Hretain as <-.
  eapply post_mono; [|apply sort_permutes]. intros kept Hperm. split.
  - intros d Hd. apply Hat. by rewrite <- Hperm.
  - destruct emitting; [by rewrite Hperm, Hall|]. apply Permutation_nil. by rewrite Hperm, Hall.
Qed.
End merged_roots.

Section segment.
Context `{LowercaseTable} (options : DirectCompileOptions) (retained : option RoleState).
Context (policy : CrossTableDuplicatePolicy) (plan : SelectedRootRulePlan) (delta_rule : RootRule).

Abbreviation count := (root_count delta).
Abbreviation emitting := (emitting_delta plan count delta_rule).
Abbreviation paired := (paired_object_property_class plan count).

(** The slots once a single root has been validated. *)
Lemma slots_filled (slots : list (option OwnedLocalObjectPropertyClass)) (class : option OwnedLocalObjectPropertyClass) :
  count <> 0 -> (if paired then exists a b, slots = [Some a; Some b] else slots = [None; None]) ->
  (aggregate_or_emitting_delta plan count delta_rule = true -> class = None) ->
  exists n, slot_shape (match class with Some class => <[0%nat := Some class]> slots | None => slots end) n /\
    n <= count /\ (emitting = true -> n = 0).
Proof using Type.
  intros Hcount Hslots Hclass. unfold aggregate_or_emitting_delta in Hclass. unfold emitting_delta in *.
  destruct paired eqn:Hpaired; cbn [negb andb orb] in *.
  - rewrite Hclass by done. unfold paired_object_property_class in Hpaired.
    apply andb_true_iff in Hpaired as [->%N.eqb_eq _]. exists 2. split; [by right; right|]. split; [lia|done].
  - subst slots. destruct class as [class|].
    + exists 1. split; [right; left; by split; [|exists class]|]. split; [lia|]. intros He. by specialize (Hclass He).
    + exists 0. split; [by left|]. split; [lia|done].
Qed.

(** A table that emits nothing has at most two roots. *)
Lemma silent_few : emitting = false -> count <= 2.
Proof using Type.
  unfold emitting_delta. destruct paired eqn:Hpaired; cbn [negb andb].
  - unfold paired_object_property_class in Hpaired. apply andb_true_iff in Hpaired as [->%N.eqb_eq _]. lia.
  - destruct (N.ltb_spec 1 count); [done|lia].
Qed.

Lemma prepare_segment_overlaid `{Layout} index root fuel rounds base_plan work : count <> 0 ->
  yields (overlaid base delta)
    (prepare_segment base delta options retained policy plan count index root delta_rule fuel rounds base_plan work).
Proof using Hbase Hdelta all_selected.
  intros Hcount. unfold prepare_segment. apply yields_then. intros _.
  eapply yields_bind; [apply yields_uncharged, class_slots_shape|]. intros [rules slots] Hslots. cbn [snd] in Hslots.
  eapply yields_bind; [apply emitting_deltas_length|]. intros deltas Hdeltas.
  eapply (yields_bind (fun r => aggregate_or_emitting_delta plan count delta_rule = true -> r.2 = None)).
  { apply yields_uncharged. destruct (aggregate_or_emitting_delta _ _ _) eqn:Ha; [|done].
    eapply post_mono; [|by apply silent_delta_aggregate]. by intros r ->. }
  intros [axiom class] Hclass. cbn [snd] in Hclass.
  destruct (slots_filled slots class Hcount Hslots Hclass) as (n&Hshape&Hn&Hnone).
  do 2 (apply yields_then; intros ?). eapply yields_bind; [by apply yields_uncharged, scan_tables_spec|].
  intros s Hspec. destruct (scan_places _ _ _ _ _ _ _ Hdeltas Hspec) as [ins Hins].
  eapply yields_bind; [apply yields_uncharged; by eapply retained_deltas_correct|]. intros kept [Hkept Hall].
  apply yields_then. intros axiom'. eapply yields_bind; [by apply place_classes_positions|].
  intros placed [Hplaced Hpositioned]. eapply yields_bind; [apply prepare_with_base_keeps|].
  intros prepared [Hprep Hclasses]. eapply yields_mono; [|apply yields_uncharged, add_segment_keeps].
  intros P (Hroots&Hd&Hc). destruct Hins as [Hins Hlen Hunique Hselected _ Hplan]. split.
  - rewrite Hroots, Hunique. rewrite Hselected in Hprep. by injection Hprep as <-.
  - rewrite Hd. exact Hkept.
  - rewrite Hd. destruct emitting eqn:He; [by right|]. left. split; [done|by apply silent_few].
  - intros i local Hi. rewrite Hc, Hclasses in Hi. pose proof (get_Some_lt _ _ _ Hi) as Hlt. rewrite get_lookup in Hi.
    destruct emitting; [by rewrite Hnone in Hplaced by done; lia|]. destruct Hplan as [_ [rest Hpos]].
    specialize (Hpositioned _ _ Hi). rewrite Hpos, lookup_app_l, list_lookup_fmap in Hpositioned
      by (rewrite length_fmap; unfold len in *; lia).
    destruct (ins !! N.to_nat i) as [e|] eqn:He; [|done]. injection Hpositioned as Hlocal.
    destruct (Hins _ _ He) as (Hat&Hroot&Hposition). rewrite N2Nat.id in *. rewrite Hroot in Hat.
    exists e.(inserted_scan). split; [done|]. by rewrite <- Hlocal.
Qed.
End segment.
End whole.

(** Without postings every root is selected. *)
Lemma all_roots_selected c : resident c -> is_empty c.(included_root_ids) = true -> is_empty c.(excluded_root_ids) = true ->
  selected_roots c = range 0 (root_count c).
Proof.
  intros Hres Hi He. assert (Hex : c.(excluded_root_ids) = []) by (by destruct c.(excluded_root_ids)).
  assert (Hall : forall l : list N, (forall i, i ∈ l -> i < root_count c) ->
    base.filter (fun i => root_is_selected c i = Ok true) l = l).
  { induction l as [|i l IH]; intros Hl; [done|]. rewrite filter_cons_True; [by rewrite IH; [|set_solver]|].
    pose proof (Hl i ltac:(by left)) as Hlt. pose proof (resident_root_kinds _ Hres) as Hsize.
    unfold root_is_selected. rewrite Hi, Hex. unfold root_count, sized in *.
    rewrite (proj2 (checked_add_Some i 1 (i + 1))) by (unfold usize_max in *; lia). done. }
  apply Hall. intros i Hin%elem_of_range. lia.
Qed.

(** C11: What a local table adds to the preparation of a base is inserted where the
    canonical order says: the roots counted are those of the two tables; a delta
    is inserted at the scan position of the base before which exactly the
    selected roots with smaller terms are, and no root of the base has its term;
    either every root of the local table is a delta, once, or none and there are
    at most two; and the position of a local domain or range counts in the local
    roots before it. *)
Theorem overlay_inserted_in_order `{LowercaseTable} `{Layout} base delta options retained fuel rounds work workspace obs k P :
  resident base -> resident delta ->
  fst (prepare_single_overlay_delta_batches base delta options retained fuel rounds work workspace obs k) = Ok P ->
  overlaid base delta P.
Proof.
  intros Hb Hd E. unfold prepare_single_overlay_delta_batches in E.
  enough (Hpost : post (overlaid base delta)
    (prepare_two_table_batches base delta options retained Reject fuel rounds work workspace)) by exact (Hpost obs k P E).
  clear obs k P E. unfold prepare_two_table_batches. eapply post_bind; [apply post_lift, ensures_self|].
  intros [] Hcheck. unfold check_delta in Hcheck. rewrite bool_decide_eq_true_2 in Hcheck by done. cbn [andb] in Hcheck.
  destruct (is_empty (included_root_ids delta)) eqn:Hi, (is_empty (excluded_root_ids delta)) eqn:He; try done.
  pose proof (all_roots_selected delta Hd Hi He) as Hall.
  eapply (post_bind (fun n => n = root_count delta /\ n <> 0)).
  { unfold validate_tables. do 4 skip_step. eapply post_bind; [apply post_lift, ensures_self|]. intros n Hn.
    destruct (N.eqb_spec n 0); [by apply post_lift|]. apply post_ret. split; [|done].
    unfold selected_root_count in Hn. rewrite Hi in Hn. destruct (excluded_root_ids delta); [|done].
    apply ok_or_Ok, checked_sub_Some in Hn as [-> _]. apply N.sub_0_r. }
  intros n [-> Hcount]. skip_step.
  eapply (post_bind (fun r => overlaid base delta r.1)); [|intros [P w] HP; by apply post_ret].
  match goal with |- post _ (?m _) => enough (Hy : yields (overlaid base delta) m) by exact (Hy _) end.
  unfold plan_and_prepare. do 6 (apply yields_then; intros ?). by apply prepare_segment_overlaid.
Qed.

(** ** Two local tables

    [local_sample] has three roots that emit, [pair_sample] the domain and the
    range of a property; the base is [sample]. *)

Definition local_sample : DirectColumns := Samples.encode
  [ (ROOT_AXIOM, 8); (ROOT_AXIOM, 9); (ROOT_AXIOM, 10) ]
  [ iri_node "http://e/A"; iri_node "http://e/B"; iri_node "http://e/C"; iri_node "http://e/i";
    entity_node "class" 1; entity_node "class" 2; entity_node "class" 3;
    (TAG_SUB_CLASS_OF, [node 5; node 7; set_of []]);
    (TAG_SUB_CLASS_OF, [node 6; node 7; set_of []]);
    (TAG_CLASS_ASSERTION, [node 5; node 11; set_of []]); entity_node "named_individual" 4 ].

Definition pair_sample : DirectColumns := Samples.encode
  [ (ROOT_AXIOM, 7); (ROOT_AXIOM, 8) ]
  [ iri_node "http://e/A"; iri_node "http://e/B"; iri_node "http://e/p";
    entity_node "class" 1; entity_node "class" 2; entity_node "object_property" 3;
    (TAG_OBJECT_PROPERTY_DOMAIN, [node 6; node 4; set_of []]);
    (TAG_OBJECT_PROPERTY_RANGE, [node 6; node 5; set_of []]) ].

Abbreviation overlay_of delta :=
  (fst (@prepare_single_overlay_delta_batches ascii_lowercase sample_layout sample delta composite_options None
    (N.to_nat 20001) 20 20000 1000000 quiet 0%nat)).

Lemma overlay_samples :
  match overlay_of local_sample with
  | Ok P => P.(statistics).(Stats.roots) = 7 /\ delta_place <$> P.(overlay_deltas) = [(1, 0); (2, 1); (3, 2)]
  | _ => False
  end /\
  match overlay_of pair_sample with
  | Ok P => P.(statistics).(Stats.roots) = 6 /\ P.(overlay_deltas) = [] /\
      insertion_position <$> P.(local_object_property_classes) = [3; 4]
  | _ => False
  end.
Proof. by vm_compute. Qed.

Lemma overlay_samples_resident : resident sample /\ resident local_sample /\ resident pair_sample.
Proof. split; [|split]; apply resident_of_small; by vm_compute. Qed.

(** A local table that repeats a root of the base is rejected. *)
Definition repeated_sample : DirectColumns := Samples.encode
  [ (ROOT_AXIOM, 5) ]
  [ iri_node "http://e/A"; iri_node "http://e/B"; entity_node "class" 1; entity_node "class" 2;
    (TAG_SUB_CLASS_OF, [node 3; node 4; set_of []]) ].

Lemma overlay_repeated :
  overlay_of repeated_sample = Err (unsupported "bounded local-overlay root duplicates its direct source").
Proof. by vm_compute. Qed.

Lemma overlay_inserted_in_order_witness :
  match overlay_of local_sample, overlay_of pair_sample with
  | Ok P, Ok R =>
      delta_place <$> P.(overlay_deltas) = [(1, 0); (2, 1); (3, 2)] /\ overlaid sample local_sample P /\
      insertion_position <$> R.(local_object_property_classes) = [3; 4] /\ overlaid sample pair_sample R
  | _, _ => False
  end.
Proof.
  pose proof overlay_samples as [HP HR]. destruct overlay_samples_resident as (Hs&Hl&Hp).
  pose proof (@overlay_inserted_in_order ascii_lowercase sample_layout sample local_sample composite_options None
    (N.to_nat 20001) 20 20000 1000000 quiet 0%nat) as Hlocal.
  pose proof (@overlay_inserted_in_order ascii_lowercase sample_layout sample pair_sample composite_options None
    (N.to_nat 20001) 20 20000 1000000 quiet 0%nat) as Hpair.
  destruct (overlay_of local_sample) as [P|e| |]; [|done..].
  destruct (overlay_of pair_sample) as [R|e| |]; [|done..].
  split; [by destruct HP|]. split; [by apply Hlocal|]. split; [by destruct HR as (_&_&?)|]. by apply Hpair.
Defined.
