(* ===== verification/Engine.v ===== *)
(** * The edge engine

    [EdgeEngine] and [EdgeBatchProcessor] of native/src/lib.rs: the ordering,
    deduplication and draining of the edge stream.  The [HashSet] of seen
    edges is a finite set; [sort_unstable] is the sort of a total order, which
    has one result.  The allocations of [push] are granted or refused by an
    [Allocator]; those of the other methods are assumed to succeed. *)

From Stdlib Require Import Sorting.Sorted.
From stdpp Require Import gmap sorting countable.
From S2P Require Import Prelude Errors.
Local Open Scope string_scope.
Local Open Scope list_scope.
Local Open Scope N_scope.

#[export] Instance byte_countable : Countable byte :=
  inj_countable Byte.to_N Byte.of_N Byte.of_to_N.

Record Edge := { source : text; relation : text; destination : text }.

#[export] Instance Edge_eq_dec : EqDecision Edge.
Proof. solve_decision. Defined.

#[export] Instance Edge_countable : Countable Edge.
Proof.
  apply (inj_countable' (fun e => (e.(source), e.(relation), e.(destination)))
    (fun '(s, r, d) => {| source := s; relation := r; destination := d |})).
  by intros [].
Defined.

(** [derive(Ord)]: the fields in order, each as its bytes. *)
Definition edge_cmp (a b : Edge) : comparison :=
  then_with (bytes_cmp a.(source) b.(source))
    (then_with (bytes_cmp a.(relation) b.(relation)) (bytes_cmp a.(destination) b.(destination))).
Definition edge_le (a b : Edge) : Prop := edge_cmp a b <> Gt.

#[export] Instance edge_le_dec : RelDecision edge_le.
Proof. intros a b. unfold edge_le. destruct (edge_cmp a b); [left|left|right]; congruence. Defined.

Inductive OutputOrder := Canonical | Encounter.
Inductive DuplicatePolicy := Preserve | Unique.

#[export] Instance OutputOrder_eq_dec : EqDecision OutputOrder.
Proof. solve_decision. Defined.
#[export] Instance DuplicatePolicy_eq_dec : EqDecision DuplicatePolicy.
Proof. solve_decision. Defined.

Definition OutputOrder_parse (value : text) : PyResult OutputOrder :=
  if bool_decide (value = str "canonical") then inl Canonical
  else if bool_decide (value = str "encounter") then inl Encounter
  else inr (PyValueError "order must be 'canonical' or 'encounter'").

Definition DuplicatePolicy_parse (value : text) : PyResult DuplicatePolicy :=
  if bool_decide (value = str "preserve") then inl Preserve
  else if bool_decide (value = str "unique") then inl Unique
  else inr (PyValueError "duplicates must be 'preserve' or 'unique'").

Record EdgeEngine := {
  order : OutputOrder;
  duplicates : DuplicatePolicy;
  seen : gset Edge;
  canonical : list Edge;
  raw_edges : usize;
  duplicate_edges : usize;
  finished : bool;
  cancelled : bool;
  max_edges : option usize;
}.

#[export] Instance EdgeEngine_eta : Eta EdgeEngine := fun e =>
  {| order := e.(order); duplicates := e.(duplicates); seen := e.(seen);
     canonical := e.(canonical); raw_edges := e.(raw_edges);
     duplicate_edges := e.(duplicate_edges); finished := e.(finished);
     cancelled := e.(cancelled); max_edges := e.(max_edges) |}.

Definition new (order : OutputOrder) (duplicates : DuplicatePolicy) (max_edges : option usize)
    : EdgeEngine :=
  {| order := order; duplicates := duplicates; seen := ∅; canonical := [];
     raw_edges := 0; duplicate_edges := 0; finished := false; cancelled := false;
     max_edges := max_edges |}.

Definition ensure_active (self : EdgeEngine) : PyResult unit :=
  if self.(cancelled) then inr (PyValueError "native processor was cancelled")
  else if self.(finished) then inr (PyValueError "native processor is already finished")
  else inl tt.

(** The answers to the allocations of a call of [push]: [try_reserve] of the seen
    set, of the canonical edges or the output, and the strings of the clone of the
    [i]-th edge. *)
Record Allocator := {
  reserve_seen : bool;
  reserve_edges : bool;
  clone_edge : nat -> bool;
}.

Definition granted : Allocator :=
  {| reserve_seen := true; reserve_edges := true; clone_edge := fun _ => true |}.

(** [Edge::try_clone]. *)
Definition try_clone (allocated : bool) (edge : Edge) : PyResult Edge :=
  if allocated then inl edge else inr (PyMemoryError "native edge-string allocation failed").

(** [self.raw_edges += 1]. *)
Definition count_edge (self : EdgeEngine) : EdgeEngine := self <| raw_edges := self.(raw_edges) +w 1 |>.

(** The body of the loop of [push] when the edge is cloned; the output is built in order. *)
Definition push_edge (st : EdgeEngine * list Edge) (edge : Edge) : EdgeEngine * list Edge :=
  let '(self, output) := st in
  let self := count_edge self in
  let is_new := negb (bool_decide (edge ∈ self.(seen))) in
  let self := self <| seen := {[edge]} ∪ self.(seen) |> in
  let self :=
    if is_new then self else self <| duplicate_edges := self.(duplicate_edges) +w 1 |> in
  let keep := bool_decide (self.(duplicates) = Preserve) || is_new in
  match self.(order) with
  | Canonical =>
      (if keep then self <| canonical := self.(canonical) ++ [edge] |> else self, output)
  | Encounter => (self, if keep then output ++ [edge] else output)
  end.

(** The loop; an edge that is not cloned was counted, and those before it were taken. *)
Fixpoint push_edges (cloned : nat -> bool) (st : EdgeEngine * list Edge) (batch : list Edge)
    : PyResult (list Edge) * EdgeEngine :=
  match batch with
  | [] => (inl st.2, st.1)
  | edge :: batch =>
      match try_clone (cloned O) edge with
      | inr error => (inr error, count_edge st.1)
      | inl _ => push_edges (fun i => cloned (S i)) (push_edge st edge) batch
      end
  end.

Definition push (allocator : Allocator) (self : EdgeEngine) (batch : list Edge)
    : PyResult (list Edge) * EdgeEngine :=
  match ensure_active self with
  | inr error => (inr error, self)
  | inl _ =>
      match checked_add self.(raw_edges) (len batch) with
      | None => (inr (PyMemoryError "native edge counter overflow"), self)
      | Some next_count =>
          if match self.(max_edges) with Some limit => limit <? next_count | None => false end
          then (inr (PyMemoryError "native edge limit reached before batch allocation"), self)
          else if negb allocator.(reserve_seen)
          then (inr (PyMemoryError "native distinct-edge allocation failed"), self)
          else if negb allocator.(reserve_edges)
          then (inr (PyMemoryError match self.(order) with
                     | Canonical => "native canonical allocation failed"
                     | Encounter => "native output allocation failed"
                     end), self)
          else push_edges allocator.(clone_edge) (self, []) batch
      end
  end.

(** The canonical edges are kept in descending order, so [pop] drains them
    in ascending order. *)
Definition finish (self : EdgeEngine) : PyResult unit * EdgeEngine :=
  match ensure_active self with
  | inr error => (inr error, self)
  | inl _ =>
      let self :=
        match self.(order) with
        | Canonical => self <| canonical := reverse (merge_sort edge_le self.(canonical)) |>
        | Encounter => self
        end in
      (inl tt, self <| finished := true |>)
  end.

(** [for _ in 0..amount { if let Some(edge) = canonical.pop() { .. } }]. *)
Fixpoint pop_edges (amount : nat) (canonical output : list Edge) : list Edge * list Edge :=
  match amount with
  | O => (canonical, output)
  | S amount =>
      match last canonical with
      | Some edge => pop_edges amount (removelast canonical) (output ++ [edge])
      | None => pop_edges amount canonical output
      end
  end.

Definition drain (self : EdgeEngine) (max_items : usize) : PyResult (list Edge) * EdgeEngine :=
  if negb self.(finished) then
    (inr (PyValueError "finish() must be called before canonical output is drained"), self)
  else if self.(cancelled) then (inr (PyValueError "native processor was cancelled"), self)
  else
    let amount := N.min max_items (len self.(canonical)) in
    let '(canonical', output) := pop_edges (N.to_nat amount) self.(canonical) [] in
    (inl output, self <| canonical := canonical' |>).

Definition cancel (self : EdgeEngine) : EdgeEngine :=
  self <| cancelled := true |> <| canonical := [] |> <| seen := ∅ |>.

(** ** [EdgeBatchProcessor]

    Its methods convert tuples and call the engine; [drain_batch] also rejects
    an empty request. *)

Definition drain_batch (self : EdgeEngine) (max_items : usize)
    : PyResult (list Edge) * EdgeEngine :=
  if max_items =? 0 then (inr (PyValueError "max_items must be positive"), self)
  else drain self max_items.

Definition stats (self : EdgeEngine) : usize * usize * usize :=
  (self.(raw_edges), N.of_nat (size self.(seen)), self.(duplicate_edges)).

Definition drained (self : EdgeEngine) : bool :=
  self.(finished) && match self.(canonical) with [] => true | _ => false end.

(** The calls Python makes, and the run of a sequence of them; [emitted] is
    what the calls returned. *)
Inductive call :=
  | PushBatch (batch : list Edge)
  | Finish
  | DrainBatch (max_items : usize)
  | Cancel.

Definition output_of (r : PyResult (list Edge)) : list Edge :=
  match r with inl l => l | inr _ => [] end.

Definition step (st : EdgeEngine * list Edge) (c : call) : EdgeEngine * list Edge :=
  let '(self, emitted) := st in
  match c with
  | PushBatch batch => let '(r, self) := push granted self batch in (self, emitted ++ output_of r)
  | Finish => let '(_, self) := finish self in (self, emitted)
  | DrainBatch n => let '(r, self) := drain_batch self n in (self, emitted ++ output_of r)
  | Cancel => (cancel self, emitted)
  end.

(** ** Specification

    [history engine pushed emitted]: the engine after some sequence of calls
    in which the edges [pushed] were accepted and the edges [emitted] were
    returned, both in order.  A reservation may fail, a clone may not: the edges
    that a call has taken before a clone fails are not returned. *)

Definition accepted (r : PyResult (list Edge)) (batch : list Edge) : list Edge :=
  match r with inl _ => batch | inr _ => [] end.

Inductive history (o : OutputOrder) (d : DuplicatePolicy) (m : option usize)
    : EdgeEngine -> list Edge -> list Edge -> Prop :=
  | history_new : history o d m (new o d m) [] []
  | history_push allocator self pushed emitted batch r self' :
      history o d m self pushed emitted -> (forall i, allocator.(clone_edge) i = true) ->
      push allocator self batch = (r, self') ->
      history o d m self' (pushed ++ accepted r batch) (emitted ++ output_of r)
  | history_finish self pushed emitted r self' :
      history o d m self pushed emitted -> finish self = (r, self') ->
      history o d m self' pushed emitted
  | history_drain self pushed emitted n r self' :
      history o d m self pushed emitted -> drain_batch self n = (r, self') ->
      history o d m self' pushed (emitted ++ output_of r)
  | history_cancel self pushed emitted :
      history o d m self pushed emitted -> history o d m (cancel self) pushed emitted.

(** The first occurrences, in order. *)
Definition first_occurrences (l : list Edge) : list Edge :=
  fold_left (fun acc e => if bool_decide (e ∈ acc) then acc else acc ++ [e]) l [].

(** The edges the duplicate policy keeps. *)
Definition kept (d : DuplicatePolicy) (pushed : list Edge) : list Edge :=
  match d with Preserve => pushed | Unique => first_occurrences pushed end.

(** The stream the options promise. *)
Definition result (o : OutputOrder) (d : DuplicatePolicy) (pushed : list Edge) : list Edge :=
  match o with Encounter => kept d pushed | Canonical => merge_sort edge_le (kept d pushed) end.

Lemma first_occurrences_snoc l x :
  first_occurrences (l ++ [x]) =
  if bool_decide (x ∈ first_occurrences l) then first_occurrences l else first_occurrences l ++ [x].
Proof. unfold first_occurrences. by rewrite fold_left_app. Qed.

Lemma elem_of_first_occurrences l x : x ∈ first_occurrences l <-> x ∈ l.
Proof.
  induction l as [|y l IH] using rev_ind; [done|].
  rewrite first_occurrences_snoc, (elem_of_app l [y]), <- IH, list_elem_of_singleton.
  case_bool_decide as E; [naive_solver|]. by rewrite elem_of_app, list_elem_of_singleton.
Qed.

Lemma NoDup_first_occurrences l : NoDup (first_occurrences l).
Proof.
  induction l as [|y l IH] using rev_ind; [apply NoDup_nil_2|].
  rewrite first_occurrences_snoc. case_bool_decide as E; [done|].
  apply NoDup_app. split; [done|]. split; [|apply NoDup_singleton].
  by intros x Hx ->%list_elem_of_singleton.
Qed.

Lemma kept_snoc d l x :
  kept d (l ++ [x]) = kept d l ++ (if bool_decide (d = Preserve) || bool_decide (x ∉ l) then [x] else []).
Proof.
  destruct d; cbn [kept]; [done|]. rewrite first_occurrences_snoc. cbn.
  rewrite (bool_decide_ext (x ∈ first_occurrences l) (x ∈ l)) by apply elem_of_first_occurrences.
  repeat case_bool_decide; try done; by rewrite app_nil_r.
Qed.

(** ** The order *)

Definition edge_key (e : Edge) : list text := [e.(source); e.(relation); e.(destination)].

Lemma edge_cmp_key a b : edge_cmp a b = slice_cmp bytes_cmp (edge_key a) (edge_key b).
Proof.
  unfold edge_cmp, then_with, edge_key. cbn.
  by destruct (bytes_cmp (source a) (source b)), (bytes_cmp (relation a) (relation b)),
    (bytes_cmp (destination a) (destination b)).
Qed.

Lemma edge_key_inj a b : edge_key a = edge_key b -> a = b.
Proof. destruct a, b. unfold edge_key. cbn. congruence. Qed.

#[export] Instance edge_cmp_laws : OrdLaws edge_cmp.
Proof.
  split; intros *; rewrite !edge_cmp_key.
  - rewrite (cmp_eq (slice_cmp bytes_cmp)). split; [apply edge_key_inj|by intros ->].
  - apply (cmp_opp (slice_cmp bytes_cmp)).
  - apply (cmp_lt_trans (slice_cmp bytes_cmp)).
Qed.

#[export] Instance edge_le_trans : Transitive edge_le.
Proof. apply (cmp_le_trans edge_cmp). Qed.
#[export] Instance edge_le_total : Total edge_le.
Proof. apply (cmp_le_total edge_cmp). Qed.

Lemma result_Permutation o d pushed : result o d pushed ≡ₚ kept d pushed.
Proof. destruct o; cbn; [apply merge_sort_Permutation|done]. Qed.

(** ** The invariant *)

(** The edges still to be returned. *)
Definition pending (self : EdgeEngine) : list Edge :=
  match self.(order) with
  | Encounter => []
  | Canonical =>
      if self.(finished) then reverse self.(canonical) else merge_sort edge_le self.(canonical)
  end.

Record engine_inv (o : OutputOrder) (d : DuplicatePolicy) (m : option usize)
    (self : EdgeEngine) (pushed emitted : list Edge) : Prop := {
  ei_order : self.(order) = o;
  ei_duplicates : self.(duplicates) = d;
  ei_limit : self.(max_edges) = m;
  ei_raw : self.(raw_edges) = len pushed;
  ei_raw_bound : len pushed <= usize_max;
  ei_raw_limit : match m with Some limit => len pushed <= limit | None => True end;
  ei_duplicate_edges : self.(duplicate_edges) = len pushed - len (first_occurrences pushed);
  ei_seen : self.(cancelled) = false -> self.(seen) = list_to_set pushed;
  ei_open : self.(cancelled) = false -> self.(finished) = false -> o = Canonical ->
    self.(canonical) = kept d pushed /\ emitted = [];
  ei_encounter : o = Encounter -> self.(canonical) = [] /\ emitted = kept d pushed;
  ei_cancelled : self.(cancelled) = true -> self.(canonical) = [];
  ei_prefix : emitted `prefix_of` result o d pushed;
  ei_rest : self.(cancelled) = false -> emitted ++ pending self = result o d pushed;
}.

Lemma first_occurrences_le l : len (first_occurrences l) <= len l.
Proof.
  induction l as [|x l IH] using rev_ind; [done|]. rewrite first_occurrences_snoc, len_app.
  case_bool_decide; rewrite ?len_app, ?len_cons; lia.
Qed.

Lemma engine_inv_new o d m : engine_inv o d m (new o d m) [] [].
Proof.
  split; try done.
  - rewrite len_nil. destruct m; [apply N.le_0_l|done].
  - by destruct d.
  - by destruct d.
  - apply prefix_nil.
  - by destruct o, d.
Qed.

Definition within (m : option usize) (n : N) : Prop :=
  n <= usize_max /\ match m with Some limit => n <= limit | None => True end.

(** An open engine is described by what it has taken. *)
Lemma engine_inv_open self pushed emitted :
  self.(cancelled) = false -> self.(finished) = false ->
  self.(raw_edges) = len pushed -> within self.(max_edges) (len pushed) ->
  self.(duplicate_edges) = len pushed - len (first_occurrences pushed) ->
  self.(seen) = list_to_set pushed ->
  match self.(order) with
  | Canonical => self.(canonical) = kept self.(duplicates) pushed /\ emitted = []
  | Encounter => self.(canonical) = [] /\ emitted = kept self.(duplicates) pushed
  end ->
  engine_inv self.(order) self.(duplicates) self.(max_edges) self pushed emitted.
Proof.
  intros Hc Hf Hr [Hb Hl] Hd Hs Ho. split; try done; unfold pending; try (rewrite Hf).
  - intros _ _ E. by rewrite E in Ho.
  - intros E. by rewrite E in Ho.
  - congruence.
  - destruct (order self), Ho as [H1 ->]; [apply prefix_nil|done].
  - intros _. destruct (order self), Ho as [H1 H2]; rewrite ?H1, H2; [done|by rewrite app_nil_r].
Qed.

Lemma push_edge_inv o d m self pushed emitted output x :
  engine_inv o d m self pushed (emitted ++ output) ->
  self.(cancelled) = false -> self.(finished) = false -> within m (len pushed + 1) ->
  let '(self', output') := push_edge (self, output) x in
  engine_inv o d m self' (pushed ++ [x]) (emitted ++ output') /\
  self'.(cancelled) = false /\ self'.(finished) = false.
Proof.
  intros I Hc Hf [Hw Hm]. pose proof (ei_seen _ _ _ _ _ _ I Hc) as Hseen.
  pose proof (ei_open _ _ _ _ _ _ I Hc Hf) as Hopen.
  pose proof (ei_encounter _ _ _ _ _ _ I) as Henc. pose proof (ei_duplicate_edges _ _ _ _ _ _ I) as Hd.
  pose proof (ei_raw _ _ _ _ _ _ I) as Hr. pose proof (ei_duplicates _ _ _ _ _ _ I) as Hdd.
  pose proof (ei_order _ _ _ _ _ _ I) as Ho. pose proof (ei_limit _ _ _ _ _ _ I) as Hl. clear I.
  pose proof (first_occurrences_le pushed) as Hle.
  assert (Hnew : bool_decide (x ∈ self.(seen)) = bool_decide (x ∈ pushed)).
  { rewrite Hseen. apply bool_decide_ext, elem_of_list_to_set. }
  assert (Hlen : len (pushed ++ [x]) = len pushed + 1) by (by rewrite len_app).
  assert (Hdup : len (first_occurrences (pushed ++ [x])) =
                 len (first_occurrences pushed) + (if bool_decide (x ∈ pushed) then 0 else 1)).
  { rewrite first_occurrences_snoc.
    rewrite (bool_decide_ext (x ∈ first_occurrences pushed) (x ∈ pushed)) by apply elem_of_first_occurrences.
    repeat case_bool_decide; try done; [lia|by rewrite len_app]. }
  unfold push_edge, count_edge, set_field. destruct self as [so sd ss sc sr sdup sf sk sm]. cbn in *. subst so sd sm sr sdup sk sf.
  rewrite (wrapping_add_small (len pushed) 1) by lia.
  rewrite (wrapping_add_small (len pushed - len (first_occurrences pushed)) 1) by lia.
  rewrite Hnew.
  assert (Hset : {[x]} ∪ ss = list_to_set (pushed ++ [x])) by (rewrite Hseen; set_solver).
  pose proof (kept_snoc d pushed x) as Hk. rewrite bool_decide_not in Hk.
  destruct o; [destruct (Hopen eq_refl) as [-> Hem]; [done..|]|destruct (Henc eq_refl) as [-> Hem]].
  all: destruct (bool_decide (x ∈ pushed)) eqn:E; cbn in *;
    match goal with |- context [?a || ?b] => destruct (a || b) eqn:K; try rewrite K in Hk end.
  all: cbn; (split; [|done]).
  all: apply (engine_inv_open {| order := _; max_edges := _ |}); cbn.
  all: try done; try (by rewrite Hlen); try (unfold within; rewrite Hlen; done);
    try (rewrite Hlen, Hdup; lia); rewrite Hk, ?app_nil_r, ?(app_assoc emitted), ?Hem; done.
Qed.

Lemma push_batch_inv o d m batch self pushed emitted output :
  engine_inv o d m self pushed (emitted ++ output) ->
  self.(cancelled) = false -> self.(finished) = false -> within m (len pushed + len batch) ->
  let '(self', output') := fold_left push_edge batch (self, output) in
  engine_inv o d m self' (pushed ++ batch) (emitted ++ output').
Proof.
  revert self pushed output. induction batch as [|x batch IH]; intros self pushed output I Hc Hf Hw.
  { cbn. by rewrite app_nil_r. }
  rewrite len_cons in Hw. cbn [fold_left].
  pose proof (push_edge_inv o d m self pushed emitted output x I Hc Hf) as H.
  destruct (push_edge (self, output) x) as [self1 output1].
  destruct H as (I1&Hc1&Hf1); [unfold within in *; destruct m; lia|].
  specialize (IH self1 (pushed ++ [x]) output1 I1 Hc1 Hf1). rewrite <- app_assoc in IH. cbn in IH.
  apply IH. rewrite len_app. replace (len pushed + len [x] + len batch) with (len pushed + (1 + len batch))
    by (rewrite len_cons, len_nil; lia). done.
Qed.

Lemma ensure_active_Ok self :
  ensure_active self = inl tt <-> self.(cancelled) = false /\ self.(finished) = false.
Proof. unfold ensure_active. destruct (cancelled self), (finished self); naive_solver. Qed.

(** The loop when every edge is cloned, and when one is not. *)
Lemma push_edges_granted cloned st batch :
  (forall i, (i < length batch)%nat -> cloned i = true) ->
  push_edges cloned st batch = (inl (fold_left push_edge batch st).2, (fold_left push_edge batch st).1).
Proof.
  revert cloned st. induction batch as [|edge batch IH]; intros cloned st Hc; [done|].
  cbn [push_edges fold_left]. rewrite (Hc 0%nat) by (cbn; lia). cbn [try_clone].
  apply IH. intros i Hi. apply Hc. cbn. lia.
Qed.

Lemma push_edges_inl cloned st batch output self' :
  push_edges cloned st batch = (inl output, self') -> forall i, (i < length batch)%nat -> cloned i = true.
Proof.
  revert cloned st. induction batch as [|edge batch IH]; intros cloned st E i Hi; cbn in *; [lia|].
  destruct (cloned 0%nat) eqn:E0; cbn [try_clone] in E; [|done].
  destruct i as [|i]; [done|]. apply (IH _ _ E). lia.
Qed.

Lemma push_edges_inr cloned st batch error self' :
  push_edges cloned st batch = (inr error, self') ->
  error = PyMemoryError "native edge-string allocation failed" /\
  exists before edge after, batch = before ++ edge :: after /\
    (forall i, (i < length before)%nat -> cloned i = true) /\ cloned (length before) = false /\
    self' = count_edge (fold_left push_edge before st).1.
Proof.
  revert cloned st. induction batch as [|edge batch IH]; intros cloned st E; cbn [push_edges] in E; [done|].
  destruct (cloned 0%nat) eqn:E0; cbn [try_clone] in E.
  - apply IH in E as (->&before&x&after&->&Hb&Hx&->). split; [done|].
    exists (edge :: before), x, after. split_and!; [done| |done|done].
    intros [|i] Hi; [done|]. apply Hb. cbn in Hi. lia.
  - injection E as <- <-. split; [done|]. exists [], edge, batch. split_and!; [done| |done|done].
    cbn. lia.
Qed.

(** What the loop counts and has seen. *)
Lemma push_edge_counts st edge :
  (push_edge st edge).1.(raw_edges) = st.1.(raw_edges) +w 1 /\
  (push_edge st edge).1.(seen) = {[edge]} ∪ st.1.(seen).
Proof.
  destruct st as [self output]. unfold push_edge, count_edge, set_field. cbn.
  destruct (order self), (negb _); cbn; by repeat destruct (_ || _).
Qed.

Lemma push_edges_counts batch st :
  st.1.(raw_edges) + len batch <= usize_max ->
  (fold_left push_edge batch st).1.(raw_edges) = st.1.(raw_edges) + len batch /\
  (fold_left push_edge batch st).1.(seen) = list_to_set batch ∪ st.1.(seen).
Proof.
  revert st. induction batch as [|edge batch IH]; intros st Hle; cbn [fold_left].
  { rewrite len_nil, N.add_0_r. split; [done|]. set_solver. }
  rewrite len_cons in *. destruct (push_edge_counts st edge) as [Hr Hs].
  rewrite wrapping_add_small in Hr by lia. destruct (IH (push_edge st edge)) as [Hr' Hs']; [lia|].
  rewrite Hr', Hs', Hr, Hs. split; [lia|]. set_solver.
Qed.

Lemma push_inv o d m allocator self pushed emitted batch r self' :
  engine_inv o d m self pushed emitted -> (forall i, allocator.(clone_edge) i = true) ->
  push allocator self batch = (r, self') ->
  engine_inv o d m self' (pushed ++ accepted r batch) (emitted ++ output_of r).
Proof.
  intros I Hcl H. unfold push in H. destruct (ensure_active self) as [[]|e] eqn:Ha.
  2: { injection H as <- <-. cbn. by rewrite !app_nil_r. }
  apply ensure_active_Ok in Ha as [Hc Hf]. rewrite (ei_raw _ _ _ _ _ _ I), (ei_limit _ _ _ _ _ _ I) in H.
  destruct (checked_add (len pushed) (len batch)) as [n|] eqn:En.
  2: { injection H as <- <-. cbn. by rewrite !app_nil_r. }
  apply checked_add_Some in En as [-> Hn].
  destruct (match m with Some limit => limit <? len pushed + len batch | None => false end) eqn:El.
  { injection H as <- <-. cbn. by rewrite !app_nil_r. }
  destruct (reserve_seen allocator); cbn [negb] in H; [|injection H as <- <-; cbn; by rewrite !app_nil_r].
  destruct (reserve_edges allocator); cbn [negb] in H; [|injection H as <- <-; cbn; by rewrite !app_nil_r].
  rewrite push_edges_granted in H by done.
  pose proof (push_batch_inv o d m batch self pushed emitted []) as Hb. rewrite app_nil_r in Hb.
  specialize (Hb I Hc Hf).
  destruct (fold_left push_edge batch (self, [])) as [self1 output]. injection H as <- <-. cbn.
  apply Hb. split; [done|]. destruct m; [by apply N.ltb_ge in El|done].
Qed.

Lemma finish_inv o d m self pushed emitted r self' :
  engine_inv o d m self pushed emitted -> finish self = (r, self') ->
  engine_inv o d m self' pushed emitted.
Proof.
  intros I H. unfold finish in H. destruct (ensure_active self) as [[]|e] eqn:Ha.
  2: { by injection H as <- <-. }
  apply ensure_active_Ok in Ha as [Hc Hf]. injection H as <- <-.
  pose proof (ei_open _ _ _ _ _ _ I Hc Hf) as Ho. pose proof (ei_order _ _ _ _ _ _ I) as E.
  destruct I as [_ Hd Hm Hr Hb Hl Hdup Hs _ Henc _ Hp Hrest]. rewrite E. unfold pending in Hrest.
  destruct self as [so sd ss sc sr sdup sf sk sm]. unfold set_field. cbn in *. subst so sk sf.
  destruct o; split; unfold pending; cbn in *; try done.
  - intros _. destruct (Ho eq_refl) as [-> ->]. exact (reverse_involutive _).
Qed.

Lemma pop_edges_spec n c output c' output' : pop_edges n c output = (c', output') ->
  output' ++ reverse c' = output ++ reverse c /\ (c = [] -> c' = []) /\
  length c' = (length c - n)%nat /\ length output' = (length output + Nat.min n (length c))%nat.
Proof.
  revert c output. induction n as [|n IH]; intros c output H; cbn in H.
  { injection H as <- <-. split; [done|]. split; [done|]. lia. }
  destruct (last c) as [e|] eqn:E.
  - destruct (IH _ _ H) as (H1&H2&H3&H4).
    apply last_Some in E as [k ->]. rewrite removelast_last in *. rewrite reverse_snoc.
    rewrite <- app_assoc in H1. rewrite !length_app in *. cbn [length] in *.
    split; [exact H1|]. split; [by intros [_ [=]]%app_eq_nil|]. lia.
  - apply last_None in E as ->. destruct (IH _ _ H) as (H1&H2&H3&H4). cbn in *.
    split; [done|]. split; [done|]. rewrite Nat.min_0_r in *. lia.
Qed.

Lemma drain_inv o d m self pushed emitted n r self' :
  engine_inv o d m self pushed emitted -> drain_batch self n = (r, self') ->
  engine_inv o d m self' pushed (emitted ++ output_of r).
Proof.
  intros I H. unfold drain_batch, drain in H.
  destruct (n =? 0); [injection H as <- <-; cbn; by rewrite app_nil_r|].
  destruct (finished self) eqn:Hf; cbn [negb] in H; [|injection H as <- <-; cbn; by rewrite app_nil_r].
  destruct (cancelled self) eqn:Hc; [injection H as <- <-; cbn; by rewrite app_nil_r|].
  destruct (pop_edges _ _ _) as [c' output] eqn:Hp. injection H as <- <-. cbn [output_of].
  apply pop_edges_spec in Hp as (Hp&Hnil&_). cbn in Hp.
  pose proof (ei_rest _ _ _ _ _ _ I Hc) as Hrest. pose proof (ei_order _ _ _ _ _ _ I) as E.
  pose proof (ei_encounter _ _ _ _ _ _ I) as Henc0.
  destruct I as [_ Hd Hm Hr Hb Hl Hdup Hs _ _ _ _ _]. unfold pending in Hrest. rewrite Hf in Hrest.
  destruct self as [so sd ss sc sr sdup sf sk sm]. unfold set_field. cbn in *. subst so sk sf.
  destruct o; cbn in *.
  - rewrite <- Hp, app_assoc in Hrest.
    split; unfold pending; cbn in *; try done. rewrite <- Hrest. by apply prefix_app_r.
  - destruct (Henc0 eq_refl) as [-> ->]. rewrite (Hnil eq_refl), app_nil_r in Hp. cbn in Hp. subst output.
    rewrite app_nil_r, (Hnil eq_refl) in *. split; unfold pending; cbn in *; try done.
    by rewrite app_nil_r.
Qed.

Lemma cancel_inv o d m self pushed emitted :
  engine_inv o d m self pushed emitted -> engine_inv o d m (cancel self) pushed emitted.
Proof.
  intros [? ? ? ? ? ? ? ? ? Henc ? ? ?]. unfold cancel, set_field.
  split; cbn; try done. intros E. by destruct (Henc E).
Qed.

Lemma history_inv o d m self pushed emitted :
  history o d m self pushed emitted -> engine_inv o d m self pushed emitted.
Proof.
  induction 1; [apply engine_inv_new|by eapply push_inv|by eapply finish_inv|by eapply drain_inv|
    by apply cancel_inv].
Qed.

(** ** Theorems *)

(** C9: In encounter order the edges returned so far are, at every moment and
    whatever calls were made, exactly the edges accepted so far, in arrival
    order, with repetitions removed under the unique policy. *)
Theorem engine_encounter_stream d m self pushed emitted :
  history Encounter d m self pushed emitted -> emitted = kept d pushed.
Proof. intros H%history_inv. by apply (ei_encounter _ _ _ _ _ _ H). Qed.

(** C8: In canonical order the edges returned are always a prefix of the
    sorted stream of the kept edges, and once the engine is finished, drained
    and not cancelled they are all of it: sorted by (source, relation,
    destination) and a permutation of the kept edges. *)
Theorem engine_canonical_stream d m self pushed emitted :
  history Canonical d m self pushed emitted ->
  emitted `prefix_of` merge_sort edge_le (kept d pushed) /\
  (drained self = true -> self.(cancelled) = false ->
   Sorted edge_le emitted /\ emitted ≡ₚ kept d pushed).
Proof.
  intros H%history_inv. split; [apply (ei_prefix _ _ _ _ _ _ H)|]. intros Hd Hc.
  pose proof (ei_rest _ _ _ _ _ _ H Hc) as Hr. unfold pending in Hr. unfold drained in Hd.
  rewrite (ei_order _ _ _ _ _ _ H) in Hr. apply andb_true_iff in Hd as [Hf He]. rewrite Hf in Hr.
  destruct (canonical self); [|done]. cbn in Hr. rewrite app_nil_r in Hr. subst emitted.
  split; [apply Sorted_merge_sort, edge_le_total|apply merge_sort_Permutation].
Qed.

(** The statistics of an engine that is not cancelled are the number of
    accepted edges, the number of distinct ones and their difference; the
    number accepted never exceeds the configured limit. *)
Theorem engine_statistics o d m self pushed emitted :
  history o d m self pushed emitted ->
  (self.(cancelled) = false ->
   stats self = (len pushed, len (first_occurrences pushed),
                 len pushed - len (first_occurrences pushed))) /\
  match m with Some limit => len pushed <= limit | None => len pushed <= usize_max end.
Proof.
  intros H%history_inv. split.
  - intros Hc. unfold stats. rewrite (ei_raw _ _ _ _ _ _ H), (ei_duplicate_edges _ _ _ _ _ _ H).
    rewrite (ei_seen _ _ _ _ _ _ H Hc). do 2 f_equal. unfold len.
    rewrite <- (size_list_to_set (C := gset Edge) (first_occurrences pushed)
                  (NoDup_first_occurrences pushed)).
    do 2 f_equal. apply set_eq. intros x.
    by rewrite !elem_of_list_to_set, elem_of_first_occurrences.
  - pose proof (ei_raw_limit _ _ _ _ _ _ H). pose proof (ei_raw_bound _ _ _ _ _ _ H). by destruct m.
Qed.

(** Why a call of [push] is refused before it allocates. *)
Definition refused (self : EdgeEngine) (batch : list Edge) : Prop :=
  self.(cancelled) = true \/ self.(finished) = true \/
  usize_max < self.(raw_edges) + len batch \/
  exists limit, self.(max_edges) = Some limit /\ limit < self.(raw_edges) + len batch.

Definition reserved (allocator : Allocator) : Prop :=
  allocator.(reserve_seen) = true /\ allocator.(reserve_edges) = true.

Definition cloned_before (allocator : Allocator) (batch : list Edge) : Prop :=
  forall i, (i < length batch)%nat -> allocator.(clone_edge) i = true.

Lemma push_cases allocator self batch :
  refused self batch /\ (exists error, push allocator self batch = (inr error, self)) \/
  ~ refused self batch /\ ~ reserved allocator /\
    (exists message, push allocator self batch = (inr (PyMemoryError message), self)) \/
  ~ refused self batch /\ reserved allocator /\
    push allocator self batch = push_edges allocator.(clone_edge) (self, []) batch.
Proof.
  unfold push, refused, reserved. destruct (ensure_active self) as [[]|e] eqn:Ha.
  2: { left. split; [|by eexists]. unfold ensure_active in Ha. destruct (cancelled self), (finished self); auto. done. }
  apply ensure_active_Ok in Ha as [Hc Hf].
  destruct (checked_add (raw_edges self) (len batch)) as [n|] eqn:En.
  2: { apply checked_add_None in En. left. split; [auto|by eexists]. }
  apply checked_add_Some in En as [-> Hn].
  destruct (match max_edges self with Some limit => limit <? raw_edges self + len batch | None => false end) eqn:El.
  { left. split; [|by eexists]. destruct (max_edges self) as [limit|]; [|done]. apply N.ltb_lt in El. eauto 6. }
  right. assert (Hr : ~ refused self batch).
  { intros [?|[?|[?|(limit&E&?)]]]; [congruence..|lia|]. rewrite E in El. apply N.ltb_ge in El. lia. }
  destruct (reserve_seen allocator), (reserve_edges allocator); cbn [negb]; [right; by split_and!|left..];
    (split; [exact Hr|]; split; [naive_solver|by eexists]).
Qed.

Lemma push_granted self batch :
  ~ refused self batch ->
  push granted self batch
    = (inl (fold_left push_edge batch (self, [])).2, (fold_left push_edge batch (self, [])).1).
Proof.
  intros Hr. destruct (push_cases granted self batch) as [[? _]|[(_&Ha&_)|(_&_&->)]]; [done| |].
  - by destruct Ha.
  - by apply push_edges_granted.
Qed.

Lemma not_refused_fits self batch : ~ refused self batch -> self.(raw_edges) + len batch <= usize_max.
Proof. unfold refused. intros H. apply N.le_ngt. tauto. Qed.

Lemma refused_prefix self before after : ~ refused self (before ++ after) -> ~ refused self before.
Proof.
  unfold refused. rewrite len_app. intros H [?|[?|[?|(limit&?&?)]]]; apply H; [auto..|right; right; left; lia|].
  do 3 right. exists limit. split; [done|lia].
Qed.

(** C37: Every outcome of [push]. It returns exactly when the engine is neither
    cancelled nor finished, the edge counter does not overflow, the limit is not
    exceeded and every allocation is granted; its result is then the one of a call
    whose allocations cannot fail. A call that is refused, or whose reservation
    fails, leaves the engine as it was. When the first clone to fail is that of
    the edge after [before], the engine is left with [before] taken and one edge
    more counted. *)
Theorem push_outcomes allocator self batch r self' :
  push allocator self batch = (r, self') ->
  match r with
  | inl _ => ~ refused self batch /\ reserved allocator /\ cloned_before allocator batch /\
      push granted self batch = (r, self')
  | inr error =>
      (refused self batch \/ exists message, error = PyMemoryError message) /\
      ((refused self batch \/ ~ reserved allocator) /\ self' = self \/
       ~ refused self batch /\ reserved allocator /\
       exists before edge after output self1, batch = before ++ edge :: after /\
         cloned_before allocator before /\ allocator.(clone_edge) (length before) = false /\
         push granted self before = (inl output, self1) /\ self' = count_edge self1 /\
         self'.(raw_edges) = self.(raw_edges) + len before + 1 /\
         self'.(seen) = list_to_set before ∪ self.(seen))
  end.
Proof.
  intros H. destruct (push_cases allocator self batch)
    as [[Hr [error E]]|[(Hr&Ha&message&E)|(Hr&Ha&E)]]; rewrite E in H.
  - injection H as <- <-. split; [by left|]. left. by split; [left|].
  - injection H as <- <-. split; [right; by eexists|]. left. by split; [right|].
  - destruct r as [output|error].
    + pose proof (push_edges_inl _ _ _ _ _ H) as Hc. split_and!; [exact Hr|exact Ha|exact Hc|].
      rewrite push_edges_granted in H by exact Hc. by rewrite (push_granted _ _ Hr).
    + apply push_edges_inr in H as (->&before&edge&after&->&Hb&Hx&->).
      pose proof (refused_prefix _ _ _ Hr) as Hr1. pose proof (not_refused_fits _ _ Hr) as Hfit.
      split; [right; by eexists|]. right. split; [exact Hr|]. split; [exact Ha|].
      rewrite len_app, len_cons in Hfit.
      destruct (push_edges_counts before (self, [])) as [Hn Hs]; [cbn; lia|]. cbn [fst] in Hn, Hs.
      eexists before, edge, after, _, _. split_and!; [done|exact Hb|exact Hx|by apply push_granted|done| |exact Hs].
      unfold count_edge, set_field. cbn. rewrite Hn. apply wrapping_add_small. lia.
Qed.

(** After [cancel] no call returns another edge and the engine stays
    cancelled. *)
Theorem cancelled_is_silent self emitted c self' emitted' :
  self.(cancelled) = true -> step (self, emitted) c = (self', emitted') ->
  emitted' = emitted /\ self'.(cancelled) = true.
Proof.
  intros Hc H. destruct c as [batch| |n|]; cbn in H.
  - unfold push, ensure_active in H. rewrite Hc in H. injection H as <- <-. by rewrite app_nil_r.
  - unfold finish, ensure_active in H. rewrite Hc in H. by injection H as <- <-.
  - unfold drain_batch, drain in H. rewrite Hc in H.
    destruct (n =? 0), (finished self); cbn in H; injection H as <- <-; by rewrite app_nil_r.
  - by injection H as <- <-.
Qed.

Lemma drain_batch_Ok self n :
  self.(finished) = true -> self.(cancelled) = false -> 0 < n ->
  exists out self', drain_batch self n = (inl out, self') /\
    self'.(finished) = true /\ self'.(cancelled) = false /\
    len out = N.min n (len self.(canonical)) /\
    len self'.(canonical) = len self.(canonical) - n.
Proof.
  intros Hf Hc Hn. unfold drain_batch, drain. rewrite Hf, Hc. destruct (N.eqb_spec n 0); [lia|].
  cbn [negb]. destruct (pop_edges _ _ _) as [c' out] eqn:Hp.
  apply pop_edges_spec in Hp as (_&_&H3&H4). cbn [length] in H4.
  exists out. eexists. split; [done|]. unfold set_field. cbn. split; [done|]. split; [done|].
  unfold len in *. lia.
Qed.

(** C38: Draining terminates: each request of [n > 0] edges returns the minimum
    of [n] and what is left, so [k] requests with [k * n] at least the number
    of edges kept leave the engine drained. *)
Theorem drain_terminates k self emitted n :
  self.(finished) = true -> self.(cancelled) = false -> 0 < n ->
  len self.(canonical) <= N.of_nat k * n ->
  let '(self', emitted') := Nat.iter k (fun st => step st (DrainBatch n)) (self, emitted) in
  drained self' = true /\ len emitted' = len emitted + len self.(canonical).
Proof.
  intros Hf Hc Hn Hk.
  enough (G : let '(self', emitted') := Nat.iter k (fun st => step st (DrainBatch n)) (self, emitted) in
    self'.(finished) = true /\ self'.(cancelled) = false /\
    len self'.(canonical) = len self.(canonical) - N.of_nat k * n /\
    len emitted' + len self'.(canonical) = len emitted + len self.(canonical)).
  { destruct (Nat.iter _ _ _) as [self' emitted']. destruct G as (Hf'&_&Hl&He).
    assert (Hz : len (canonical self') = 0) by lia. split; [|lia]. unfold drained. rewrite Hf'.
    destruct (canonical self'); [done|]. rewrite len_cons in Hz. lia. }
  clear Hk. induction k as [|k IH].
  { cbn. split; [done|]. split; [done|]. lia. }
  rewrite Nat.iter_succ.
  destruct (Nat.iter k _ _) as [self1 emitted1]. destruct IH as (Hf1&Hc1&Hl1&He1). unfold step.
  destruct (drain_batch_Ok self1 n Hf1 Hc1 Hn) as (out&self2&->&Hf2&Hc2&Ho&Hl2).
  cbn [output_of]. rewrite len_app. split; [done|]. split; [done|]. lia.
Qed.

(** ** Closed instances *)

Definition edge_of (s r d : string) : Edge :=
  {| source := str s; relation := str r; destination := str d |}.

Definition demo_batch : list Edge :=
  [edge_of "b" "r" "c"; edge_of "a" "r" "c"; edge_of "b" "r" "c"].

(** One batch, [finish], one drain. *)
Definition demo_pushed (o : OutputOrder) (d : DuplicatePolicy) := push granted (new o d (Some 3)) demo_batch.
Definition demo_drained (o : OutputOrder) (d : DuplicatePolicy) :=
  drain_batch (snd (finish (snd (demo_pushed o d)))) 10.

Lemma demo_history o d :
  history o d (Some 3) (snd (demo_drained o d))
    ([] ++ accepted (fst (demo_pushed o d)) demo_batch)
    (([] ++ output_of (fst (demo_pushed o d))) ++ output_of (fst (demo_drained o d))).
Proof.
  eapply history_drain; [|apply surjective_pairing].
  eapply history_finish; [|apply surjective_pairing].
  eapply (history_push _ _ _ granted); [apply history_new|done|apply surjective_pairing].
Qed.

Lemma engine_encounter_stream_witness :
  output_of (fst (demo_pushed Encounter Unique)) = [edge_of "b" "r" "c"; edge_of "a" "r" "c"] /\
  ([] ++ output_of (fst (demo_pushed Encounter Unique))) ++
    output_of (fst (demo_drained Encounter Unique)) =
  kept Unique ([] ++ accepted (fst (demo_pushed Encounter Unique)) demo_batch).
Proof.
  split; [by vm_compute|].
  exact (engine_encounter_stream _ _ _ _ _ (demo_history Encounter Unique)).
Defined.

Lemma engine_canonical_stream_witness :
  let self := snd (demo_drained Canonical Preserve) in
  let emitted := ([] ++ output_of (fst (demo_pushed Canonical Preserve))) ++
                 output_of (fst (demo_drained Canonical Preserve)) in
  drained self = true /\ self.(cancelled) = false /\
  emitted = [edge_of "a" "r" "c"; edge_of "b" "r" "c"; edge_of "b" "r" "c"] /\
  Sorted edge_le emitted.
Proof.
  cbn zeta. split; [by vm_compute|]. split; [by vm_compute|]. split; [by vm_compute|].
  apply (engine_canonical_stream _ _ _ _ _ (demo_history Canonical Preserve)); by vm_compute.
Defined.

Lemma engine_statistics_witness :
  let self := snd (demo_drained Canonical Unique) in
  self.(cancelled) = false /\ stats self = (3, 2, 1) /\
  len ([] ++ accepted (fst (demo_pushed Canonical Unique)) demo_batch) <= 3.
Proof.
  cbn zeta. split; [by vm_compute|]. split; [by vm_compute|].
  exact (proj2 (engine_statistics _ _ _ _ _ _ (demo_history Canonical Unique))).
Defined.

(** The strings of the third edge are refused. *)
Definition short_of_strings : Allocator :=
  {| reserve_seen := true; reserve_edges := true; clone_edge := fun i => negb (i =? 2)%nat |}.

Lemma push_outcomes_witness :
  let self := new Encounter Preserve (Some 3) in
  let r := push short_of_strings self demo_batch in
  fst r = inr (PyMemoryError "native edge-string allocation failed") /\
  ~ refused self demo_batch /\ (snd r).(raw_edges) = 3 /\ stats (snd r) = (3, 2, 0) /\
  exists before edge after, demo_batch = before ++ edge :: after /\
    short_of_strings.(clone_edge) (length before) = false /\
    (snd r).(seen) = list_to_set before ∪ self.(seen).
Proof.
  cbn zeta. split; [by vm_compute|].
  destruct (push_outcomes short_of_strings (new Encounter Preserve (Some 3)) demo_batch _ _ (surjective_pairing _))
    as [_ [[[Hr|Ha] _]|(Hr&_&before&edge&after&output&self1&Hb&_&Hc&_&_&_&Hs)]].
  - exfalso. destruct Hr as [?|[?|[?|(limit&[= <-]&?)]]]; by vm_compute in *.
  - by destruct Ha.
  - split; [exact Hr|]. split; [by vm_compute|]. split; [by vm_compute|].
    exists before, edge, after. by split_and!.
Defined.

Lemma cancelled_is_silent_witness :
  let self := cancel (snd (finish (snd (demo_pushed Canonical Preserve)))) in
  self.(cancelled) = true /\
  snd (step (self, []) (DrainBatch 5)) = [] /\
  (fst (step (self, []) (DrainBatch 5))).(cancelled) = true.
Proof.
  cbn zeta. split; [by vm_compute|].
  apply (cancelled_is_silent (cancel (snd (finish (snd (demo_pushed Canonical Preserve))))) []
    (DrainBatch 5)); [by vm_compute|apply surjective_pairing].
Defined.

Lemma drain_terminates_witness :
  let self := snd (finish (snd (demo_pushed Canonical Preserve))) in
  self.(finished) = true /\ self.(cancelled) = false /\
  let '(self', emitted') := Nat.iter 2 (fun st => step st (DrainBatch 2)) (self, []) in
  drained self' = true /\ len emitted' = len (@nil Edge) + len self.(canonical).
Proof.
  cbn zeta. split; [by vm_compute|]. split; [by vm_compute|].
  apply (drain_terminates 2 (snd (finish (snd (demo_pushed Canonical Preserve)))) [] 2);
    by vm_compute.
Defined.
